(* ===== verification/_CoqProject ===== *)
-Q . S2P
Prelude.v
JsMap.v
Convert.v
Crypto.v
Encryptions.v
Scan.v
Interfaces.v
Channel.v
PoolSimulator.v
ResolveNotes.v
Balancing.v
Compiler.v
Emission.v
Indices.v
MockPool.v
PoolSafety.v
Settlement.v
Jobs.v
PoolViews.v
Discovery.v
DiscoveryNotes.v
ChannelsDiscovery.v
ChannelsFound.v
Json.v
PoolTransaction.v
ScreenedAddress.v
ScreeningInterceptor.v
ScreeningSafety.v
ScreeningPolicy.v
RateLimiter.v
History.v
ActionClassifier.v
Builders.v
Http.v
IndexerCursor.v
IndexerNotes.v
IndexerChannels.v
IndexerOutgoing.v
EllipticScoring.v
EllipticConfig.v
EllipticHandler.v
EllipticSafety.v
ProvingService.v
InterceptorServer.v
ScreeningVerdicts.v
Bytes.v
StarknetCalls.v
Eip712.v
Eip712Spec.v
Snip12.v
ViewingKey.v
ShadowAccounts.v
ClientBuilder.v
ShadowScan.v
ClientProver.v
ProofInvocation.v
Proving.v
SimpleTransfers.v
SdkWallet.v
JsonText.v
ErrorDecoder.v
Logging.v
SdkMocks.v
JsonCodec.v
ChannelSerde.v
PoolLedger.v
PoolMirror.v
EmissionAccepted.v
Acceptance.v
ChainTruth.v
DemoFormat.v
DemoTimeline.v
DemoFlows.v
DemoFlowsSafety.v
DemoBatch.v
DemoHistory.v
DemoHistoryHook.v
DemoState.v
DemoSession.v
DemoServices.v
