(* ===== verification/Prelude.v ===== *)
(** * Formal model of the Starknet Privacy TypeScript code

    The repository holds a privacy pool on Starknet (Cairo contracts), the TypeScript SDK that builds, proves
    and discovers private transfers ([src/sdk]), the client library of dapps and wallets ([src/client]),
    and two services that screen deposits: a JSON-RPC sidecar of the prover ([src/proof-interceptor]) and a proxy
    in front of the Elliptic API ([src/elliptic-proxy]). A demo ([src/demo]) shows the SDK in a browser. This library models the TypeScript
    of these packages by definitions that evaluate, and proves what makes them correct.

    ** How the parts interact

    A dapp chains calls on a builder ([Builders], [ClientBuilder], [ShadowAccounts]); the batch of actions goes to the
    compiler ([Compiler], [ResolveNotes], [PoolSimulator]), which discovers what it lacks ([Discovery],
    [ChannelsDiscovery] on chain; [IndexerNotes], [IndexerChannels] by the indexer), balances every token with notes
    and emits client actions. These are wrapped into a signed invocation ([ProofInvocation]) and proved by a service or
    a mock ([ProvingService], [Proving]); the result is the call of [apply_actions] that a wallet or a
    paymaster submits ([SdkWallet], [ClientProver]). While it proves, the prover asks the interceptor
    ([InterceptorServer], [PoolTransaction], [ScreenedAddress], [ScreeningPolicy], [ScreeningInterceptor]), which asks the
    screening proxy ([EllipticHandler], [EllipticScoring], [EllipticConfig]); the verdict comes back through the prover's
    errors ([ScreeningVerdicts]). The pool itself is seen through the contract that the SDK is tested against ([MockPool]).

    ** Files and sources

    - Shared: [Prelude] (results, state and exceptions, tactics, lists), [JsMap] (maps.ts), [Convert] (convert.ts),
      [Interfaces] (interfaces.ts, client-actions.ts), [Json] (parsed JSON, the package lru-cache), [Bytes],
      [Jobs] (the event loop, tracker and scans of scan.ts), [Scan] (scan.ts).
    - Cryptography: [Crypto] (crypto.ts, hashes.ts), [Encryptions] (encryptions.ts).
    - Compiling: [Channel] (channel.ts), [PoolSimulator] (pool-simulator.ts), [ResolveNotes] and [Compiler]
      (compiler.ts) with their theorems in [Balancing], [Emission], [Indices]; [Builders] (builders.ts).
    - The pool: [MockPool] (mock-pool-contract.ts, contracts.ts), [PoolViews] (its views and what they show), with
      theorems in [PoolSafety] and [Settlement].
    - Compiler and pool together: [PoolLedger] (the abstract ledger the pool implements), [PoolMirror] (simulator and ledger
      stay together), [EmissionAccepted] and [Acceptance] (what is compiled is accepted), [ChainTruth] (the on-chain
      discovery fulfils what the compiler relies on).
    - Discovery: [Discovery] and [ChannelsDiscovery] (contract-discovery.ts) with [DiscoveryNotes],
      [ChannelsFound]; [Http] (ohttp-client.ts), [IndexerCursor], [IndexerNotes],
      [IndexerChannels] (indexer-discovery.ts) with [IndexerOutgoing]; [History] and [ActionClassifier]
      (history.ts, action-classifier.ts); [RateLimiter] (rate-limiter.ts).
    - Proving: [ProofInvocation] (proof-invocation-factory.ts, serialization.ts, proof-facts.ts,
      screening-calldata.ts), [ProvingService] (proving-service.ts, errors.ts), [Proving] (proving-service-provider.ts,
      mock-proving.ts, private-transfers.ts); [SimpleTransfers] (simple-private-transfers.ts); [SdkMocks] (mock-proof-invocation-factory.ts,
      mock-proof-provider.ts, screening-signer.ts, screening-mock-proving.ts).
    - Developers' texts: [ErrorDecoder] (error-decoder.ts, tracing-provider.ts), [Logging] (logging.ts).
    - Storage: [JsonText] (JSON of the language), [JsonCodec] (json.ts), [ChannelSerde] (the serdes of channel.ts).
    - Client: [StarknetCalls] (calls.ts), [Eip712] and [Snip12] (signers) with [Eip712Spec], [ViewingKey],
      [ShadowAccounts] (shadow-accounts.ts of the SDK), [ClientBuilder] (builder.ts, client.ts), [ShadowScan]
      (shadow-accounts.ts of the client), [ClientProver] (strk20-prover.ts), [SdkWallet] (sdk-wallet.ts, paymaster.ts).
    - Interceptor: [PoolTransaction], [ScreenedAddress], [ScreeningPolicy], [ScreeningInterceptor], [InterceptorServer]
      (rpc.ts, proxy.ts, config.ts), with [ScreeningSafety] and [ScreeningVerdicts].
    - Screening proxy: [EllipticScoring], [EllipticConfig], [EllipticHandler] with [EllipticSafety].

    - Demo: [DemoFormat] (format.ts), [DemoTimeline] (timeline.ts), [DemoFlows] (useTransactions.ts, useLastTxBlock.ts, paymaster.ts
      and the requests of avnu.ts) with [DemoFlowsSafety], [DemoBatch] (useTransactionBuilder.ts, TransactionBuilder.tsx),
      [DemoHistory] and [DemoHistoryHook] (useHistory.ts), [DemoState] (usePrivateState.ts and the registry of App.tsx),
      [DemoSession] (session.ts, useAccounts.ts, usePoolSelector.ts), [DemoServices] (config.ts, starknet.ts, proof-provider.ts,
      useServiceHealth.ts, useTokenMetadata.ts).

    ** What the theorems show

    - Compiling: a batch that has surplus actions or selects notes is balanced for every token, with the fewest notes when
      asked; what is emitted is what was asked for, at consecutive indices of channels, subchannels and notes; the simulator
      refines finite maps; the pool keeps its write-once records, while its outgoing channel records can be overwritten.
    - Compiler and pool: the checks of the pool are the guards of a ledger; on a simulator that mirrors the ledger every emitted
      action is admitted, token check included, and the registry that comes back mirrors the pool again, so the next batch
      can start from it; the on-chain discovery provides the truth that this needs.
    - Discovery: under every order in which the calls are answered it ends, and finds exactly the unspent notes and
      the channels; the indexer providers return what the pages report.
    - Proving: the mock prover and the interceptor read back the client actions that the factory wrote; a simulation shows the call that
      the execution submits; a simple payment spends what is found, pays the amount and keeps the change; retries end and
      screening verdicts reach the caller; the devnet prover attests whom the interceptor screens.
    - Screening: nothing is allowed that was not screened, in any interleaving of requests; a request is
      answered once; a policy is never older than its time to live.
    - Demo: a transaction, flow or batch, submits at most once, what it proved, with the allowances it needs (a batch without
      a paymaster only where the pool takes no fee); timelines are trees; the history
      shows the net of the events of a transaction that registers nobody and, while the account stays and no page is lost,
      exactly what the arrived pages make; the private state
      that is shown is made of answers that arrived for the account; imported accounts reload, a search finds the deployed pools, and
      loaded settings list every token once; amounts are read as written.
    - Error texts and logs: decoding error data settles and is idempotent, selectors in any spelling get their one name, trace ids
      are distinct, cyclic values are logged, and a target without a proxy could not have written a line.
    - Signing and storage: raw keys and wallets sign the same digest, SNIP-12 hashes bind what was signed, stored state
      and encrypted records read back.

    ** Interfaces

    Code that is not in the repository is the operations of a class, and what it documents is a class of laws with an instance
    that shows it can hold: [StarkCrypto], [StarknetNum], [PedersenHash], [Noble], [ProxyCrypto] (hashes,
    curves, field texts), [PoolCoder], [PoolAbi] (which agree on the client actions by [PoolAbiRoundTrip]), [PolicyDecoder], [AnonymizerCoder], [OptionCoder] (ABI coders),
    [OhttpLibrary], [OhttpNetwork], [ProverNetwork], [ScreeningWorld], [NonceNode], [Node] (networks: oracles numbered by
    the requests), [LruCache], [PolicyCache] (caches), [ScreeningSigner], [ProofSigner], [WalletWorld], [DemoWorld]. Interfaces
    of the program are classes too: [DiscoveryProvider] (what the compiler asks of discovery) with its law [TruthfulDiscovery], which
    the on-chain discovery fulfils, [PoolContract] (what discovery
    asks of a pool; the mock pool is an instance), [ProofProvider] (the service and the mock are instances),
    [PrivacyWallet], [Platform].

    ** Modelling choices

    - Exceptions are the [Err] of [result]; state that calls share is the state of [stateE]. A
      function of the sources that awaits is one step where no other task of the model can observe the difference; where
      tasks interleave (discovery, policy client, limiter, proxy) a step is one continuation, and theorems
      quantify over schedules. The continuation of a scan after its probe only starts probes and is one step with it.
      The pool does not change while discovery runs.
    - [Map]s are association lists in insertion order ([jsmap]), or [gmap]s where only lookups are made; objects with hexadecimal keys
      keep their order of insertion. Absent and undefined fields are one [None]; null is distinct where the code tells it apart.
    - Integers of JavaScript that the code uses as counts and indices are [Z]; doubles are IEEE ([SpecFloat]) where the
      code computes with them (scores), exact rationals where it only compares. Strings are ASCII. JSON
      text has integers without fraction or exponent.
    - zod schemas are written out as functions. The places where logs are written, metrics and HTTP headers are left out, except the counters and
      effects of the interceptor's handler.
    - The curve and the hashes are idealised: [CollisionFree] makes Poseidon injective on lists of integers, which no hash
      into a field is; it stands for collision resistance and is assumed only where hashes are told apart. The range errors
      of the curve library are not modelled.
    - Fuel: [resolve_loop], [page_loop], [wait_loop], the readers of JSON text, [decodeValue] and the formatter of logs take fuel. It is shown to be enough where the code ends
      ([read_fuel_enough], [service_fuel_enough], [waiting_ends], [decode_settles],
      [format_settles], the scan theorems), and the paging theorems say that the last page is reached;
      a service that never reports completion keeps the code itself going.

    ** Not modelled

    The ABIs are generated data. The rendering, browser storage and start of the demo, the end-to-end harness and scripts ([src/e2e], [src/scripts],
    [src/sdk/scripts]), metrics, sockets, signals and process entry points are input and output
    or wiring. The Cairo contracts, the Rust services and the Lean proofs are other languages. *)
From Stdlib Require Import ZArith Lia.
From Stdlib Require Sorted.
From stdpp Require Import base tactics list numbers strings.

#[global] Open Scope Z_scope.

(** ** Results: a value or the exception a function throws *)

Inductive result (E A : Type) : Type :=
| Ok (a : A)
| Err (e : E).
Arguments Ok {E A} a.
Arguments Err {E A} e.

#[export] Instance result_ret {E} : MRet (result E) := fun A a => Ok a.
#[export] Instance result_bind {E} : MBind (result E) := fun A B k r =>
  match r with Ok a => k a | Err e => Err e end.
#[export] Instance result_fmap {E} : FMap (result E) := fun A B f r =>
  match r with Ok a => Ok (f a) | Err e => Err e end.

(** [js_assert cond e] is the sources' [assert(cond, () => message)]. *)
Definition js_assert {E} (cond : bool) (e : E) : result E unit :=
  if cond then Ok tt else Err e.

(** [fold_result f l a] runs [f] over [l] from the left and stops at the first
    exception: a [for ... of] loop whose body may throw. *)
Fixpoint fold_result {E A B} (f : A -> B -> result E A) (l : list B) (a : A) : result E A :=
  match l with
  | [] => Ok a
  | b :: l => a' ← f a b; fold_result f l a'
  end.

(** ** Stateful computations that may throw: the state survives the exception *)

Definition stateE (S E A : Type) : Type := S -> result E A * S.

#[export] Instance stateE_ret {S E} : MRet (stateE S E) := fun A a s => (Ok a, s).
#[export] Instance stateE_bind {S E} : MBind (stateE S E) := fun A B k m s =>
  match m s with
  | (Ok a, s') => k a s'
  | (Err e, s') => (Err e, s')
  end.

Definition st_get {S E} : stateE S E S := fun s => (Ok s, s).
Definition st_modify {S E} (f : S -> S) : stateE S E unit := fun s => (Ok tt, f s).
Definition st_lift {S E A} (r : result E A) : stateE S E A := fun s => (r, s).
Definition st_throw {S E A} (e : E) : stateE S E A := fun s => (Err e, s).

(** A [for ... of] loop whose body may throw and changes the state. *)
Fixpoint st_for {S E B} (l : list B) (f : B -> stateE S E unit) : stateE S E unit :=
  match l with
  | [] => mret tt
  | b :: l => _ ← f b; st_for l f
  end.

(** [is_Ok r]: the call returned. *)
Definition is_Ok {E A} (r : result E A) : bool :=
  match r with Ok _ => true | Err _ => false end.

(** Sum of [f] over a list. *)
Fixpoint sumZ {A} (f : A -> Z) (l : list A) : Z :=
  match l with [] => 0 | x :: l => f x + sumZ f l end.

(** The remainder of JavaScript's [%] on bigints truncates towards zero. *)
Definition js_rem (a b : Z) : Z := Z.rem a b.
(** JavaScript's [/] on bigints truncates towards zero. *)
Definition js_div (a b : Z) : Z := Z.quot a b.

(** [Array.prototype.sort] with a comparison: stable, so an element goes behind those it does not come before. *)
Fixpoint insert_with {A} (cmp : A -> A -> Z) (x : A) (l : list A) : list A :=
  match l with
  | [] => [x]
  | y :: l' => if cmp x y <? 0 then x :: l else y :: insert_with cmp x l'
  end.
Definition sort_with {A} (cmp : A -> A -> Z) (l : list A) : list A := fold_left (fun sorted x => insert_with cmp x sorted) l [].

(** [s.slice(0, n)] and [s.slice(n)] for a position that is not negative. *)
Fixpoint slice_to (n : nat) (s : string) : string :=
  match n, s with S n, String c s => String c (slice_to n s) | _, _ => EmptyString end.
Fixpoint slice_from (n : nat) (s : string) : string :=
  match n, s with S n, String c s => slice_from n s | _, _ => s end.

(** ** Tactics *)

(** Inverts hypotheses that say that a computation in [result] succeeded (or failed). *)
Ltac res_simpl :=
  repeat match goal with
  | H : Ok _ = Ok _ |- _ => injection H as H; simplify_eq
  | H : Err _ = Err _ |- _ => injection H as H; simplify_eq
  | H : Ok _ = Err _ |- _ => discriminate H
  | H : Err _ = Ok _ |- _ => discriminate H
  | H : mret _ = Ok _ |- _ => unfold mret, result_ret in H
  | H : mret _ = Err _ |- _ => unfold mret, result_ret in H
  | H : js_assert ?c _ = Ok _ |- _ =>
      unfold js_assert in H; destruct c eqn:?; [try clear H | discriminate H]
  | H : (?m ≫= _) = Ok _ |- _ =>
      let E := fresh "Hm" in
      destruct m eqn:E; unfold mbind, result_bind in H; [| discriminate H]
  | H : context [mbind _ (Ok _)] |- _ => unfold mbind, result_bind in H
  | x : unit |- _ => destruct x
  | p : (_ * _)%type |- _ => destruct p
  end.

(** Splits every [if] and [match] on a boolean or option that blocks a hypothesis or the goal. *)
Ltac split_bool :=
  repeat match goal with
  | H : (_ && _)%bool = true |- _ => apply andb_prop in H as [? ?]
  | H : (_ || _)%bool = false |- _ => apply orb_false_elim in H as [? ?]
  | H : negb _ = true |- _ => apply negb_true_iff in H
  | H : negb _ = false |- _ => apply negb_false_iff in H
  | H : bool_decide _ = true |- _ => apply bool_decide_eq_true in H
  | H : bool_decide _ = false |- _ => apply bool_decide_eq_false in H
  | H : (_ =? _)%Z = true |- _ => apply Z.eqb_eq in H
  | H : (_ =? _)%Z = false |- _ => apply Z.eqb_neq in H
  | H : (_ <? _)%Z = true |- _ => apply Z.ltb_lt in H
  | H : (_ <? _)%Z = false |- _ => apply Z.ltb_ge in H
  | H : (_ <=? _)%Z = true |- _ => apply Z.leb_le in H
  | H : (_ <=? _)%Z = false |- _ => apply Z.leb_gt in H
  end.

Create HintDb privacy.
Create Rewrite HintDb privacy.

(** ** Lemmas on results *)

Section Results.
Context {E : Type}.

Lemma bind_ok {A B} (k : A -> result E B) (r : result E A) (b : B) :
  (r ≫= k) = Ok b <-> exists a, r = Ok a /\ k a = Ok b.
Proof.
  destruct r as [a|e]; cbn; split; intros H; [by exists a| |done|].
  - by destruct H as (? & [= ->] & ?).
  - by destruct H as (? & ? & ?).
Qed.

Lemma Ok_inj {A} (a b : A) : (Ok a : result E A) = Ok b -> a = b.
Proof. by intros [= ->]. Qed.

Lemma js_assert_ok (c : bool) (e : E) : js_assert c e = Ok tt <-> c = true.
Proof. by destruct c. Qed.

Lemma fold_result_app {A B} (f : A -> B -> result E A) l1 l2 a :
  fold_result f (l1 ++ l2) a = (a' ← fold_result f l1 a; fold_result f l2 a').
Proof.
  revert a. induction l1 as [|b l1 IH]; intros a; [done|].
  cbn. destruct (f a b); cbn; [apply IH | done].
Qed.

(** An invariant kept by every step of a loop holds at its end. *)
Lemma fold_result_inv {A B} (P : A -> Prop) (f : A -> B -> result E A) l a a' :
  (forall x b x', b ∈ l -> P x -> f x b = Ok x' -> P x') ->
  P a -> fold_result f l a = Ok a' -> P a'.
Proof.
  revert a. induction l as [|b l IH]; intros a Hstep Ha Hrun; cbn in Hrun.
  - by res_simpl.
  - destruct (f a b) as [x|e] eqn:Hf; [|done]. cbn in Hrun.
    eapply IH; [| |exact Hrun].
    + intros y c y' Hc. apply Hstep. by right.
    + eapply Hstep; [by left|exact Ha|exact Hf].
Qed.
End Results.

Lemma fold_result_err {E A B} (f : A -> B -> result E A) l x e :
  fold_result f l x = Err e -> exists y b, f y b = Err e.
Proof.
  revert x. induction l as [|b l IH]; intros x Hrun; [done|]. cbn in Hrun.
  destruct (f x b) as [x'|e'] eqn:Hf; [by apply (IH x')|]. injection Hrun as ->. by exists x, b.
Qed.

(** A loop that throws threw in the body of one element, after the earlier ones. *)
Lemma st_for_err {S E B} (l : list B) (f : B -> stateE S E unit) s e s' :
  st_for l f s = (Err e, s') ->
  exists l1 x l2 s1, l = l1 ++ x :: l2 /\ st_for l1 f s = (Ok tt, s1) /\ f x s1 = (Err e, s').
Proof.
  revert s. induction l as [|b l IH]; intros s Hrun; [done|]. cbn in Hrun. unfold mbind, stateE_bind in Hrun.
  destruct (f b s) as [[[]|e1] s1] eqn:Hb.
  - destruct (IH _ Hrun) as (l1 & x & l2 & s2 & -> & H1 & H2). exists (b :: l1), x, l2, s2.
    split_and!; try done. cbn. unfold mbind, stateE_bind. by rewrite Hb.
  - injection Hrun as -> ->. by exists [], b, l, s.
Qed.

(** A relation that every step of a loop stays in, if it is reflexive and transitive. *)
Lemma st_for_inv {S E B} (R : S -> S -> Prop) `{!PreOrder R} (l : list B) (f : B -> stateE S E unit) s r s' :
  (forall x s r s', x ∈ l -> f x s = (r, s') -> R s s') -> st_for l f s = (r, s') -> R s s'.
Proof.
  revert s. induction l as [|b l IH]; intros s Hf Hrun; cbn in Hrun.
  - injection Hrun as <- <-. done.
  - unfold mbind, stateE_bind in Hrun. destruct (f b s) as [[[]|e1] s1] eqn:Hb.
    + transitivity s1; [eapply Hf; [by left|exact Hb]|]. apply IH; [|done].
      intros x ? ? ? Hx. apply Hf. by right.
    + injection Hrun as <- <-. eapply Hf; [by left|exact Hb].
Qed.

(** ** Invariants of stateful computations *)

(** [keeps I m]: whatever [m] returns or throws, it keeps [I]. *)
Definition keeps {S E A} (I : S -> Prop) (m : stateE S E A) : Prop := forall s, I s -> I (m s).2.

(** [triple P m Q]: when [m] returns from a state in [P], the result and the state are in [Q]. *)
Definition triple {S E A} (P : S -> Prop) (m : stateE S E A) (Q : A -> S -> Prop) : Prop :=
  forall s a s', P s -> m s = (Ok a, s') -> Q a s'.

Section Triples.
Context {S E : Type}.
Implicit Types (I P : S -> Prop).

Lemma keeps_bind {A B} I (m : stateE S E A) (k : A -> stateE S E B) :
  keeps I m -> (forall a, keeps I (k a)) -> keeps I (m ≫= k).
Proof.
  intros Hm Hk s Hs. unfold mbind, stateE_bind. specialize (Hm s Hs).
  destruct (m s) as [[a|e] s1]; [by apply Hk|done].
Qed.

Lemma keeps_ret {A} I (a : A) : keeps I (mret a : stateE S E A).
Proof. by intros s. Qed.
Lemma keeps_throw {A} I (e : E) : keeps I (st_throw e : stateE S E A).
Proof. by intros s. Qed.
Lemma keeps_lift {A} I (r : result E A) : keeps I (st_lift r : stateE S E A).
Proof. by intros s. Qed.
Lemma keeps_get I : keeps I (st_get : stateE S E S).
Proof. by intros s. Qed.
Lemma keeps_modify I (f : S -> S) : (forall s, I s -> I (f s)) -> keeps I (st_modify f : stateE S E unit).
Proof. intros Hf s. apply Hf. Qed.

Lemma keeps_for {B} I (l : list B) (f : B -> stateE S E unit) :
  (forall b, b ∈ l -> keeps I (f b)) -> keeps I (st_for l f).
Proof.
  induction l as [|b l IH]; intros Hf; [apply keeps_ret|]. cbn. apply keeps_bind.
  - apply Hf. by left.
  - intros _. apply IH. intros c Hc. apply Hf. by right.
Qed.

Lemma keeps_triple {A} I (m : stateE S E A) : keeps I m -> triple I m (fun _ => I).
Proof. intros Hm s a s' Hs Hrun. specialize (Hm s Hs). by rewrite Hrun in Hm. Qed.

Lemma triple_bind {A B} P (m : stateE S E A) (Q : A -> S -> Prop) (k : A -> stateE S E B) R :
  triple P m Q -> (forall a, triple (Q a) (k a) R) -> triple P (m ≫= k) R.
Proof.
  intros Hm Hk s b s' Hs. unfold mbind, stateE_bind.
  destruct (m s) as [[a|e] s1] eqn:H1; [|done]. by apply Hk, (Hm s).
Qed.

Lemma triple_ret {A} (a : A) (Q : A -> S -> Prop) : triple (Q a) (mret a : stateE S E A) Q.
Proof. intros s b s' Hs. by intros [= <- <-]. Qed.

Lemma triple_weaken {A} P P' (m : stateE S E A) (Q Q' : A -> S -> Prop) :
  (forall s, P s -> P' s) -> triple P' m Q' -> (forall a s, Q' a s -> Q a s) -> triple P m Q.
Proof. intros HP Hm HQ s a s' Hs Hrun. apply HQ. by eapply Hm; [apply HP|]. Qed.

(** A loop, with the elements already handled. *)
Lemma triple_for_split {B} (I : list B -> S -> Prop) (l : list B) (f : B -> stateE S E unit) :
  (forall done b rest, l = done ++ b :: rest -> triple (I done) (f b) (fun _ => I (done ++ [b]))) ->
  triple (I []) (st_for l f) (fun _ => I l).
Proof.
  intros Hf. assert (Hgen : forall l0 l1, l = l0 ++ l1 -> triple (I l0) (st_for l1 f) (fun _ => I l)).
  { intros l0 l1. revert l0. induction l1 as [|b l1 IH]; intros l0 Hl.
    - rewrite app_nil_r in Hl. rewrite Hl. by apply (triple_ret tt (fun _ => I l0)).
    - cbn. eapply triple_bind; [by eapply Hf|]. intros ?. apply IH. by rewrite <- app_assoc. }
  by apply Hgen.
Qed.

Lemma triple_for {B} (I : list B -> S -> Prop) (l : list B) (f : B -> stateE S E unit) :
  (forall done b, b ∈ l -> triple (I done) (f b) (fun _ => I (done ++ [b]))) ->
  triple (I []) (st_for l f) (fun _ => I l).
Proof.
  intros Hf. apply triple_for_split. intros done b rest ->. apply Hf. apply elem_of_app. right. by left.
Qed.

(** The same invariant before and after. *)
Lemma triple_for_inv {B} I (l : list B) (f : B -> stateE S E unit) :
  (forall b, b ∈ l -> triple I (f b) (fun _ => I)) -> triple I (st_for l f) (fun _ => I).
Proof. intros Hf. apply (triple_for (fun _ => I)). intros _ b Hb. by apply Hf. Qed.

Lemma triple_throw {A} P (e : E) (Q : A -> S -> Prop) : triple P (st_throw e) Q.
Proof. by intros s a s' _ [=]. Qed.

Lemma triple_lift {A} P (r : result E A) : triple P (st_lift r : stateE S E A) (fun _ => P).
Proof. intros s a s' Hs. by intros [= _ <-]. Qed.
Lemma triple_get P : triple P (st_get : stateE S E S) (fun a s => a = s /\ P s).
Proof. intros s a s' Hs. by intros [= <- <-]. Qed.
End Triples.

(** Splits a computation into its steps to show that it keeps an invariant. *)
Ltac keeps_tac :=
  repeat match goal with
  | |- keeps _ (_ ≫= _) => apply keeps_bind; [|intros ?]
  | |- keeps _ (mret _) => apply keeps_ret
  | |- keeps _ (st_throw _) => apply keeps_throw
  | |- keeps _ (st_lift _) => apply keeps_lift
  | |- keeps _ st_get => apply keeps_get
  | |- keeps _ (st_for _ _) => apply keeps_for; intros ? ?
  | |- keeps _ (match ?x with _ => _ end) => destruct x
  | |- keeps _ (if ?b then _ else _) => destruct b
  | |- keeps _ (let '(_, _) := ?p in _) => destruct p
  | |- keeps _ _ => solve [eauto with privacy]
  end.

(** ** Lemmas on sums *)

Section Sums.
Context {A : Type}.
Implicit Types (f g : A -> Z) (l : list A).

Lemma sumZ_app f l1 l2 : sumZ f (l1 ++ l2) = sumZ f l1 + sumZ f l2.
Proof. induction l1; cbn; lia. Qed.

Lemma sumZ_ext f g l : (forall x, x ∈ l -> f x = g x) -> sumZ f l = sumZ g l.
Proof.
  induction l as [|x l IH]; intros H; cbn; [done|].
  rewrite H by (by left). rewrite IH; [done|]. intros y Hy. apply H. by right.
Qed.

Lemma sumZ_nonneg f l : (forall x, x ∈ l -> 0 <= f x) -> 0 <= sumZ f l.
Proof.
  induction l as [|x l IH]; intros H; cbn; [lia|].
  assert (0 <= f x) by (apply H; by left).
  assert (0 <= sumZ f l) by (apply IH; intros y Hy; apply H; by right). lia.
Qed.

#[export] Instance sumZ_perm f : Proper ((≡ₚ) ==> (=)) (sumZ f).
Proof. induction 1; cbn; lia. Qed.

Lemma sumZ_zero f l : (forall x, x ∈ l -> f x = 0) -> sumZ f l = 0.
Proof.
  induction l as [|x l IH]; intros H; cbn; [done|].
  rewrite H by (by left). rewrite IH; [done|]. intros y Hy. apply H. by right.
Qed.
End Sums.

(** A sum of sums may be taken in either order. *)
Lemma sumZ_swap {A B} (f : A -> B -> Z) l k : sumZ (fun x => sumZ (f x) k) l = sumZ (fun y => sumZ (fun x => f x y) l) k.
Proof.
  induction l as [|x l IH]; cbn [sumZ]; [symmetry; by apply sumZ_zero|]. rewrite IH. clear IH.
  induction k as [|y k IH]; cbn [sumZ]; [done|]. rewrite <- IH. lia.
Qed.

(** One summand of a sum that is zero elsewhere. *)
Lemma sumZ_single {A} (f : A -> Z) p l : NoDup l -> p ∈ l -> (forall x, x <> p -> f x = 0) -> sumZ f l = f p.
Proof.
  intros Hnd Hp Hz. induction Hnd as [|x l Hx _ IH]; [by apply elem_of_nil in Hp|]. cbn [sumZ].
  apply elem_of_cons in Hp as [<-|Hp].
  - rewrite (sumZ_zero f l); [lia|]. intros y Hy. apply Hz. by intros ->.
  - rewrite IH, Hz by (done || by intros ->). done.
Qed.

Lemma sumZ_map {A B} (f : B -> Z) (g : A -> B) l : sumZ f (map g l) = sumZ (fun x => f (g x)) l.
Proof. induction l; cbn; lia. Qed.

(** ** Lemmas on lists *)

Lemma filter_all {A} (P : A -> Prop) `{!forall x, Decision (P x)} (l : list A) :
  Forall P l -> filter P l = l.
Proof. induction 1 as [|x l Hx _ IH]; [done|]. rewrite filter_cons_True by done. by rewrite IH. Qed.

Lemma filter_submseteq {A} (P : A -> Prop) `{!forall x, Decision (P x)} (l k : list A) :
  l ⊆+ k -> filter P l ⊆+ filter P k.
Proof.
  induction 1 as [|x l k _ IH|x y l|x l k _ IH|l1 l2 l3 _ IH1 _ IH2]; [done| | | |by etrans].
  - rewrite !filter_cons. by case_decide; [apply submseteq_skip|].
  - rewrite !filter_cons. repeat case_decide; done || apply submseteq_swap.
  - rewrite filter_cons. by case_decide; [apply submseteq_cons|].
Qed.

Lemma NoDup_of_submseteq {A} (l k : list A) : NoDup k -> l ⊆+ k -> NoDup l.
Proof. intros Hk [k' Hp]%submseteq_Permutation. rewrite Hp in Hk. by apply NoDup_app in Hk as (? & _). Qed.

#[export] Instance flat_map_perm {A B} (f : A -> list B) : Proper ((≡ₚ) ==> (≡ₚ)) (flat_map f).
Proof.
  induction 1 as [|x l l' _ IH|x y l|l1 l2 l3 _ IH1 _ IH2]; cbn; [done|by rewrite IH| |by etrans].
  by rewrite !app_assoc, (Permutation_app_comm (f y)).
Qed.

Lemma flat_map_map {A B C} (f : B -> list C) (g : A -> B) l : flat_map f (map g l) = flat_map (fun x => f (g x)) l.
Proof. induction l as [|x l IH]; [done|]. cbn. by rewrite IH. Qed.

Lemma flat_map_flat_map {A B C} (f : B -> list C) (g : A -> list B) l :
  flat_map f (flat_map g l) = flat_map (fun x => flat_map f (g x)) l.
Proof. induction l as [|x l IH]; [done|]. cbn. by rewrite flat_map_app, IH. Qed.

Lemma flat_map_nil {A B} (f : A -> list B) l : (forall x, x ∈ l -> f x = []) -> flat_map f l = [].
Proof.
  induction l as [|x l IH]; intros Hf; [done|]. cbn. rewrite Hf by (by left).
  apply IH. intros y Hy. apply Hf. by right.
Qed.

Lemma flat_map_pointwise {A B} (f g : A -> list B) l :
  (forall x, x ∈ l -> f x ≡ₚ g x) -> flat_map f l ≡ₚ flat_map g l.
Proof.
  induction l as [|x l IH]; intros Hf; [done|]. cbn. apply Permutation_app; [apply Hf; by left|].
  apply IH. intros y Hy. apply Hf. by right.
Qed.

Lemma flat_map_twice {A B} (f : A -> list B) l : flat_map (fun x => f x ++ f x) l ≡ₚ flat_map f l ++ flat_map f l.
Proof.
  induction l as [|x l IH]; [done|]. cbn. rewrite IH, <- !app_assoc. apply Permutation_app_head.
  by rewrite !app_assoc, (Permutation_app_comm (f x)).
Qed.

(** Going through a list by its indices. *)
Lemma flat_map_index {A B} (f : A -> list B) l :
  flat_map (fun i => match l !! Z.to_nat i with Some x => f x | None => [] end) (seqZ 0 (Z.of_nat (length l)))
    = flat_map f l.
Proof.
  assert (Hgen : forall pre, flat_map (fun i => match (pre ++ l) !! Z.to_nat i with Some x => f x | None => [] end)
            (seqZ (Z.of_nat (length pre)) (Z.of_nat (length l))) = flat_map f l); [|exact (Hgen [])].
  induction l as [|x l IH]; intros pre; [done|]. cbn [length flat_map].
  rewrite seqZ_cons by lia. cbn [flat_map]. rewrite Nat2Z.id, list_lookup_middle by done. f_equal.
  rewrite <- (IH (pre ++ [x])), length_app, <- app_assoc. cbn [app length].
  f_equal. f_equal; lia.
Qed.

Lemma sum_list_with_map {A B} (f : B -> nat) (g : A -> B) l :
  sum_list_with f (map g l) = sum_list_with (fun x => f (g x)) l.
Proof. induction l as [|x l IH]; [done|]. cbn. by rewrite IH. Qed.

(** ** Lemmas on integers *)

(** The idiom [((a % p) + p) % p] of the sources is the mathematical residue. *)
Lemma js_rem_normalise (a p : Z) : 0 < p -> js_rem (js_rem a p + p) p = a mod p.
Proof.
  intros Hp. unfold js_rem.
  pose proof (Z.rem_bound_abs a p ltac:(lia)) as Hb.
  rewrite Z.rem_mod_nonneg by lia.
  replace (Z.rem a p + p) with (a + (1 - Z.quot a p) * p)
    by (pose proof (Z.quot_rem' a p); lia).
  apply Z.mod_add. lia.
Qed.

(** A multiple of [2 ^ n] and a number below it have no bit in common. *)
Lemma land_mul_pow2 (a b n : Z) : 0 <= n -> 0 <= b < 2 ^ n -> Z.land (a * 2 ^ n) b = 0.
Proof.
  intros Hn Hb. apply Z.bits_inj'. intros i Hi. rewrite Z.land_spec, Z.bits_0.
  destruct (Z.ltb_spec i n).
  - by rewrite Z.mul_pow2_bits_low by lia.
  - destruct (Z.eq_dec b 0) as [->|]; [by rewrite Z.bits_0, andb_false_r|].
    rewrite (Z.bits_above_log2 b i); [by rewrite andb_false_r|lia|]. apply Z.log2_lt_pow2; [lia|].
    apply Z.lt_le_trans with (2 ^ n); [lia|]. apply Z.pow_le_mono_r; lia.
Qed.

#[export] Hint Resolve sumZ_nonneg : privacy.
#[export] Hint Rewrite @sumZ_app @sumZ_map : privacy.

(** ** Lemmas on sorting *)

Lemma insert_with_perm {A} cmp (x : A) l : insert_with cmp x l ≡ₚ x :: l.
Proof. induction l as [|y l IH]; cbn; [done|]. destruct (cmp x y <? 0); [done|]. rewrite IH. apply Permutation_swap. Qed.

Lemma sort_with_perm {A} cmp (l : list A) : sort_with cmp l ≡ₚ l.
Proof.
  unfold sort_with. rewrite <- (app_nil_r l) at 2. generalize (@nil A). induction l as [|x l IH]; intros acc; cbn; [done|].
  rewrite IH, insert_with_perm. by rewrite Permutation_middle.
Qed.

Lemma insert_with_sorted {A} (f : A -> Z) x l :
  Sorted.StronglySorted (fun a b => f a <= f b) l -> Sorted.StronglySorted (fun a b => f a <= f b) (insert_with (fun a b => f a - f b) x l).
Proof.
  induction 1 as [|y l Hl IH Hy]; cbn; [by repeat constructor|]. destruct (Z.ltb_spec (f x - f y) 0).
  - repeat constructor; [done|done|lia|]. eapply list.Forall_impl; [exact Hy|]. cbn. lia.
  - constructor; [done|]. rewrite insert_with_perm. constructor; [lia|done].
Qed.

Lemma sort_with_sorted {A} (f : A -> Z) l : Sorted.StronglySorted (fun a b => f a <= f b) (sort_with (fun a b => f a - f b) l).
Proof.
  unfold sort_with. assert (Hn : Sorted.StronglySorted (fun a b => f a <= f b) []) by constructor. revert Hn. generalize (@nil A).
  induction l as [|x l IH]; intros acc Hacc; cbn; [done|]. by apply IH, insert_with_sorted.
Qed.

(** ** Lemmas on strings *)

Lemma append_cons c s t : (String c s +:+ t)%string = String c (s +:+ t)%string.
Proof. reflexivity. Qed.

Lemma append_empty s : (s +:+ "")%string = s.
Proof. induction s as [|c s IH]; [done|]. by rewrite append_cons, IH. Qed.

Lemma append_assoc s t u : ((s +:+ t) +:+ u = s +:+ (t +:+ u))%string.
Proof. induction s as [|c s IH]; [done|]. by rewrite !append_cons, IH. Qed.
Lemma prefix_append p s : (String.prefix p (p +:+ s) = true)%string.
Proof. induction p as [|c p IH]; [by destruct s|]. change (String c p +:+ s)%string with (String c (p +:+ s)%string). cbn. by destruct (Ascii.ascii_dec c c). Qed.

Lemma length_append s t : String.length (s +:+ t)%string = (String.length s + String.length t)%nat.
Proof. induction s as [|c s IH]; [done|]. rewrite append_cons. cbn [String.length]. by rewrite IH. Qed.
