(* ===== verification/JsMap.v ===== *)
(** * Maps of the SDK ([sdk/src/utils/maps.ts])

    An ECMAScript [Map] keeps its entries in insertion order and overwrites in
    place; [AdvancedMap] wraps one with a key conversion and a default factory.
    The file models both and shows that, up to order, the operations are those
    of a finite map. *)
From stdpp Require Import base tactics list gmap.
From S2P Require Import Prelude.

(** ** ECMAScript maps *)

(** The entries of a [Map], oldest first. *)
Definition jsmap (K V : Type) : Type := list (K * V).

Section JsMap.
Context {K V : Type} `{EqDecision K}.
Implicit Types (m : jsmap K V) (k : K) (v : V).

Fixpoint map_get (k : K) (m : jsmap K V) : option V :=
  match m with
  | [] => None
  | (k', v) :: m => if decide (k = k') then Some v else map_get k m
  end.

(** [Map.prototype.set]: overwrites in place, or appends. *)
Fixpoint map_set (k : K) (v : V) (m : jsmap K V) : jsmap K V :=
  match m with
  | [] => [(k, v)]
  | (k', v') :: m => if decide (k = k') then (k', v) :: m else (k', v') :: map_set k v m
  end.

Fixpoint map_delete (k : K) (m : jsmap K V) : jsmap K V :=
  match m with
  | [] => []
  | (k', v') :: m => if decide (k = k') then m else (k', v') :: map_delete k m
  end.

Definition map_has (k : K) (m : jsmap K V) : bool :=
  match map_get k m with Some _ => true | None => false end.

Definition map_keys (m : jsmap K V) : list K := m.*1.
Definition map_values (m : jsmap K V) : list V := m.*2.

(** The invariant of a [Map]: no key occurs twice. *)
Definition map_wf (m : jsmap K V) : Prop := NoDup (map_keys m).

(** [new Map(entries)]. *)
Definition map_of_entries (l : list (K * V)) : jsmap K V :=
  fold_left (fun m e => map_set e.1 e.2 m) l [].
End JsMap.

(** ** AdvancedMap *)

Section AdvancedMap.
Context {K V IK : Type} `{EqDecision IK}.

(** [options.keyConverter] is total here: in the model keys are converted values. *)
Record AdvancedMap : Type := {
  keyConverter : K -> IK;
  defaultFactory : option (K -> V);
  am_map : jsmap IK V }.

Definition with_map (am : AdvancedMap) (m : jsmap IK V) : AdvancedMap :=
  {| keyConverter := keyConverter am; defaultFactory := defaultFactory am; am_map := m |}.

Definition am_set (k : K) (v : V) (am : AdvancedMap) : AdvancedMap :=
  with_map am (map_set (keyConverter am k) v (am_map am)).

(** The constructor: the options, then [set] for each initial entry. *)
Definition am_new (conv : K -> IK) (factory : option (K -> V)) (entries : list (K * V)) : AdvancedMap :=
  fold_left (fun am e => am_set e.1 e.2 am) entries
    {| keyConverter := conv; defaultFactory := factory; am_map := [] |}.

(** [get(key, defaultValue)] stores the default it makes for a missing key. *)
Definition am_get (k : K) (defaultValue : option (K -> V)) (am : AdvancedMap)
  : option V * AdvancedMap :=
  let ik := keyConverter am k in
  let am' :=
    if map_has ik (am_map am) then am
    else match defaultValue, defaultFactory am with
         | Some d, _ => with_map am (map_set ik (d k) (am_map am))
         | None, Some d => with_map am (map_set ik (d k) (am_map am))
         | None, None => am
         end in
  (map_get ik (am_map am'), am').

Definition am_has (k : K) (am : AdvancedMap) : bool := map_has (keyConverter am k) (am_map am).

Definition am_delete (k : K) (am : AdvancedMap) : bool * AdvancedMap :=
  (am_has k am, with_map am (map_delete (keyConverter am k) (am_map am))).

Definition am_clear (am : AdvancedMap) : AdvancedMap := with_map am [].

Definition am_size (am : AdvancedMap) : nat := length (am_map am).
Definition am_entries (am : AdvancedMap) : list (IK * V) := am_map am.
Definition am_keys (am : AdvancedMap) : list IK := map_keys (am_map am).
Definition am_values (am : AdvancedMap) : list V := map_values (am_map am).

Definition am_wf (am : AdvancedMap) : Prop := map_wf (am_map am).
End AdvancedMap.
Arguments AdvancedMap : clear implicits.

(** [BigNumberishMap], alias [AddressMap], at the keys the sources give it after
    [toBigInt]: the conversion is the identity on bigints. *)
Definition AddressMap (V : Type) : Type := AdvancedMap Z V Z.

Definition new_AddressMap {V} (factory : option (Z -> V)) (entries : list (Z * V)) : AddressMap V :=
  am_new (fun k => k) factory entries.

(** ** Lemmas on ECMAScript maps *)

Section JsMapLemmas.
Context {K V : Type} `{EqDecision K}.
Implicit Types (m : jsmap K V) (k : K) (v : V).

Lemma map_get_set k k' v m :
  map_get k (map_set k' v m) = if decide (k = k') then Some v else map_get k m.
Proof.
  induction m as [|[k0 v0] m IH]; cbn; [done|].
  destruct (decide (k' = k0)) as [->|Hne]; cbn.
  - by destruct (decide (k = k0)).
  - rewrite IH. repeat case_decide; congruence.
Qed.

Lemma map_get_set_eq k v m : map_get k (map_set k v m) = Some v.
Proof. rewrite map_get_set. by case_decide. Qed.

Lemma map_get_set_ne k k' v m : k <> k' -> map_get k (map_set k' v m) = map_get k m.
Proof. intros ?. rewrite map_get_set. by case_decide. Qed.

Lemma map_set_set k v v' m : map_set k v (map_set k v' m) = map_set k v m.
Proof.
  induction m as [|[k0 v0] m IH]; cbn; [by case_decide|].
  case_decide as Hk; cbn; [by case_decide|]. case_decide; [done|]. by rewrite IH.
Qed.

Lemma map_get_in k v m : map_get k m = Some v -> (k, v) ∈ m.
Proof.
  induction m as [|[k0 v0] m IH]; cbn; [done|].
  case_decide as Hk; [intros [= ->]; subst; by left|intros H; right; auto].
Qed.

Lemma map_get_None k m : map_get k m = None <-> k ∉ map_keys m.
Proof.
  unfold map_keys. induction m as [|[k0 v0] m IH]; cbn.
  - split; [intros _; apply not_elem_of_nil|done].
  - rewrite not_elem_of_cons, <- IH. case_decide; split; try done; [by intros [? _]|by intros [_ ?]].
Qed.

Lemma map_has_true k m : map_has k m = true <-> k ∈ map_keys m.
Proof.
  unfold map_has. pose proof (map_get_None k m) as H.
  destruct (map_get k m); split; try done; intros Hin.
  - destruct (decide (k ∈ map_keys m)); [done|]. by apply H in n.
  - by apply H in Hin.
Qed.

Lemma map_has_false k m : map_has k m = false <-> map_get k m = None.
Proof. unfold map_has. by destruct (map_get k m). Qed.

Lemma map_in_get k v m : map_wf m -> (k, v) ∈ m -> map_get k m = Some v.
Proof.
  unfold map_wf, map_keys. induction m as [|[k0 v0] m IH]; cbn; intros Hwf Hin.
  - by apply elem_of_nil in Hin.
  - apply NoDup_cons in Hwf as [Hk0 Hwf].
    apply elem_of_cons in Hin as [[= -> ->]|Hin]; [by case_decide|].
    case_decide as Hk; [|auto]. subst. destruct Hk0.
    apply list_elem_of_fmap. by exists (k0, v).
Qed.

(** [set] keeps the order of the keys and appends a new one. *)
Lemma map_keys_set k v m :
  map_keys (map_set k v m) = if map_has k m then map_keys m else map_keys m ++ [k].
Proof.
  unfold map_has, map_keys. induction m as [|[k0 v0] m IH]; cbn; [done|].
  case_decide; cbn; [done|]. rewrite IH. by destruct (map_get k m).
Qed.

Lemma map_set_wf k v m : map_wf m -> map_wf (map_set k v m).
Proof.
  unfold map_wf. intros Hwf. rewrite map_keys_set. destruct (map_has k m) eqn:Hh; [done|].
  apply NoDup_app. split_and!; [done| |apply NoDup_singleton].
  intros x Hx ->%list_elem_of_singleton.
  by apply map_has_false, map_get_None in Hh.
Qed.

Lemma map_keys_delete k m : map_keys (map_delete k m) `sublist_of` map_keys m.
Proof.
  unfold map_keys. induction m as [|[k0 v0] m IH]; cbn; [done|].
  case_decide; cbn; [by apply sublist_cons|by apply sublist_skip].
Qed.

Lemma map_delete_wf k m : map_wf m -> map_wf (map_delete k m).
Proof. intros Hwf. exact (sublist_NoDup _ _ Hwf (map_keys_delete k m)). Qed.

Lemma map_filter_wf (P : K * V -> Prop) `{!forall e, Decision (P e)} m : map_wf m -> map_wf (filter P m).
Proof.
  unfold map_wf, map_keys. induction m as [|e m IH]; [done|]. rewrite (filter_cons (A := K * V)). cbn. intros [Hk Hm]%NoDup_cons.
  case_decide; cbn; [|by apply IH]. apply NoDup_cons. split; [|by apply IH].
  intros (x & Hx & [_ Hin]%list_elem_of_filter)%list_elem_of_fmap. apply Hk. apply list_elem_of_fmap. by exists x.
Qed.

Lemma map_set_Forall (P : K * V -> Prop) k v m : Forall P m -> P (k, v) -> Forall P (map_set k v m).
Proof.
  intros Hm Hk. induction Hm as [|[k0 v0] m H0 Hm IH]; cbn; [by constructor|].
  destruct (decide (k = k0)) as [->|]; by constructor.
Qed.

(** A sum over the entries after a write: the old entry goes, the new one comes. *)
Lemma sumZ_map_set (f : K * V -> Z) k v m :
  sumZ f (map_set k v m) = (sumZ f m - (match map_get k m with Some v0 => f (k, v0) | None => 0 end) + f (k, v))%Z.
Proof.
  induction m as [|[k0 v0] m IH]; cbn; [lia|]. destruct (decide (k = k0)) as [->|Hk]; cbn; [lia|]. rewrite IH. lia.
Qed.

Lemma map_get_delete k k' m : map_wf m ->
  map_get k (map_delete k' m) = if decide (k = k') then None else map_get k m.
Proof.
  unfold map_wf, map_keys. induction m as [|[k0 v0] m IH]; cbn; intros Hwf.
  - by case_decide.
  - apply NoDup_cons in Hwf as [Hk0 Hwf].
    destruct (decide (k' = k0)) as [->|Hne]; cbn.
    + case_decide as Hk; [subst|done]. by apply map_get_None.
    + rewrite IH by done. repeat case_decide; congruence.
Qed.

Lemma map_of_entries_wf (l : list (K * V)) : map_wf (map_of_entries l).
Proof.
  unfold map_of_entries.
  assert (Hgen : forall m, map_wf m -> map_wf (fold_left (fun m e => map_set e.1 e.2 m) l m)).
  { induction l as [|e l IH]; cbn; intros m Hm; [done|]. by apply IH, map_set_wf. }
  apply Hgen. apply NoDup_nil_2.
Qed.

Lemma map_set_values v0 k v m : v0 ∈ map_values (map_set k v m) -> v0 = v \/ v0 ∈ map_values m.
Proof.
  unfold map_values. induction m as [|[k1 v1] m IH]; cbn; rewrite ?elem_of_cons.
  - intros [?|[]%elem_of_nil]; auto.
  - case_decide; cbn; rewrite ?elem_of_cons; [tauto|].
    intros [->|?%IH]; tauto.
Qed.
End JsMapLemmas.

(** Setting the entries of a well-formed map one by one rebuilds it. *)
Lemma map_of_entries_id {K V} `{EqDecision K} (m : jsmap K V) : map_wf m -> map_of_entries m = m.
Proof.
  unfold map_of_entries, map_wf, map_keys. intros Hwf.
  assert (Hset : forall (a : jsmap K V) k v, k ∉ map_keys a -> map_set k v a = a ++ [(k, v)]).
  { unfold map_keys. induction a as [|[k0 v0] a IH]; cbn; intros k v Hk; [done|].
    apply not_elem_of_cons in Hk as [? ?]. rewrite decide_False by done. by rewrite IH. }
  assert (Hgen : forall a : jsmap K V, NoDup (a ++ m).*1 ->
            fold_left (fun m e => map_set e.1 e.2 m) m a = a ++ m).
  { clear Hwf. induction m as [|[k v] m IH]; intros a Ha; cbn; [by rewrite app_nil_r|].
    rewrite fmap_app in Ha. pose proof Ha as Ha'. apply NoDup_app in Ha as (_ & Hd & _).
    rewrite Hset.
    - rewrite IH; [by rewrite <- app_assoc|].
      by rewrite <- app_assoc, fmap_app.
    - intros Hk. apply (Hd k Hk). by left. }
  by apply (Hgen []).
Qed.

(** ** Maps as finite maps *)

Section ListToMap.
Context {K V : Type} `{Countable K}.
Implicit Types (m : jsmap K V).

Lemma lookup_list_to_map_get k m : (list_to_map m : gmap K V) !! k = map_get k m.
Proof.
  induction m as [|[k0 v0] m IH]; cbn; [apply lookup_empty|].
  rewrite lookup_insert. destruct (decide (k0 = k)), (decide (k = k0)); congruence.
Qed.

Lemma list_to_map_set k v m : (list_to_map (map_set k v m) : gmap K V) = <[k := v]> (list_to_map m).
Proof.
  apply map_eq. intros k'. rewrite lookup_list_to_map_get, map_get_set, lookup_insert, lookup_list_to_map_get.
  destruct (decide (k' = k)), (decide (k = k')); congruence.
Qed.

Lemma list_to_map_delete k m : map_wf m ->
  (list_to_map (map_delete k m) : gmap K V) = delete k (list_to_map m).
Proof.
  intros Hm. apply map_eq. intros k'.
  rewrite lookup_list_to_map_get, map_get_delete, lookup_delete, lookup_list_to_map_get by done.
  destruct (decide (k' = k)), (decide (k = k')); congruence.
Qed.
End ListToMap.

(** ** An [AdvancedMap] is a finite map *)

(** The state-changing calls of the class. *)
Inductive am_op (K V : Type) : Type :=
| OpSet (k : K) (v : V)
| OpGet (k : K) (defaultValue : option (K -> V))
| OpDelete (k : K)
| OpClear.
Arguments OpSet {K V}.
Arguments OpGet {K V}.
Arguments OpDelete {K V}.
Arguments OpClear {K V}.

Section Refinement.
Context {K V IK : Type} `{Countable IK}.
Implicit Types (am : AdvancedMap K V IK).

Definition am_step (am : AdvancedMap K V IK) (op : am_op K V) : AdvancedMap K V IK :=
  match op with
  | OpSet k v => am_set k v am
  | OpGet k d => (am_get k d am).2
  | OpDelete k => (am_delete k am).2
  | OpClear => am_clear am
  end.

(** The same calls on a finite map, for fixed conversion and factory. *)
Definition spec_step (conv : K -> IK) (factory : option (K -> V)) (g : gmap IK V) (op : am_op K V)
  : gmap IK V :=
  match op with
  | OpSet k v => <[conv k := v]> g
  | OpGet k d =>
      match g !! conv k, (match d with Some f => Some f | None => factory end) with
      | None, Some f => <[conv k := f k]> g
      | _, _ => g
      end
  | OpDelete k => delete (conv k) g
  | OpClear => ∅
  end.

Definition am_rel (conv : K -> IK) (factory : option (K -> V)) am (g : gmap IK V) : Prop :=
  keyConverter am = conv /\ defaultFactory am = factory /\ am_wf am /\
  forall ik, map_get ik (am_map am) = g !! ik.

Lemma am_step_refines conv factory am g op :
  am_rel conv factory am g -> am_rel conv factory (am_step am op) (spec_step conv factory g op).
Proof.
  intros (<- & <- & Hwf & Hg). unfold am_wf in Hwf.
  destruct op as [k v|k d|k|]; cbn.
  - split_and!; try done; [by apply map_set_wf|].
    intros ik. cbn. rewrite map_get_set, Hg.
    destruct (decide (ik = _)) as [->|]; by simplify_map_eq.
  - unfold map_has. rewrite Hg. destruct (g !! keyConverter am k) eqn:Hk; [done|].
    assert (Hins : forall f : K -> V, am_rel (keyConverter am) (defaultFactory am)
              (with_map am (map_set (keyConverter am k) (f k) (am_map am)))
              (<[keyConverter am k := f k]> g)).
    { intros f. split_and!; try done; [by apply map_set_wf|].
      intros ik. cbn. rewrite map_get_set, Hg.
      destruct (decide (ik = _)) as [->|]; by simplify_map_eq. }
    destruct d as [f|]; [apply Hins|]. destruct (defaultFactory am) eqn:Hd; [apply Hins|done].
  - split_and!; try done; [by apply map_delete_wf|].
    intros ik. cbn. rewrite map_get_delete by done. rewrite Hg.
    destruct (decide (ik = _)) as [->|]; by simplify_map_eq.
  - split_and!; try done. apply NoDup_nil_2.
Qed.

Lemma am_run_refines conv factory ops am g :
  am_rel conv factory am g ->
  am_rel conv factory (fold_left am_step ops am) (fold_left (spec_step conv factory) ops g).
Proof. revert am g. induction ops as [|op ops IH]; cbn; [done|]. intros am g Hr. by apply IH, am_step_refines. Qed.

Lemma map_size_refines (m : jsmap IK V) (g : gmap IK V) :
  map_wf m -> (forall ik, map_get ik m = g !! ik) -> size g = length m.
Proof.
  intros Hwf Hg. replace g with (list_to_map m : gmap IK V).
  - rewrite <- (length_fmap fst m), <- (size_list_to_set (C:=gset IK)) by exact Hwf.
    rewrite <- (size_dom (list_to_map m : gmap IK V)). by rewrite dom_list_to_map_L.
  - apply map_eq. intros ik. rewrite <- Hg. apply option_eq. intros v.
    rewrite <- elem_of_list_to_map by exact Hwf. split; [apply map_in_get, Hwf|apply map_get_in].
Qed.

(** Whatever calls are made on a fresh [AdvancedMap], it answers every lookup, and its
    [size], like the finite map on which the same calls are made; its keys stay distinct. *)
Theorem AdvancedMap_refines_gmap conv factory (ops : list (am_op K V)) :
  let am := fold_left am_step ops (am_new conv factory []) in
  let g := fold_left (spec_step conv factory) ops ∅ in
  (forall k, am_has k am = bool_decide (is_Some (g !! conv k))) /\
  (forall k d, (am_get k d am).1 = spec_step conv factory g (OpGet k d) !! conv k) /\
  am_size am = size g /\ NoDup (am_keys am).
Proof.
  intros am g.
  assert (Hr : am_rel conv factory am g).
  { apply am_run_refines. split_and!; try done. apply NoDup_nil_2. }
  pose proof Hr as (Hc & Hf & Hwf & Hg). split_and!.
  - intros k. unfold am_has, map_has. rewrite Hc, Hg.
    by destruct (g !! conv k).
  - intros k d. destruct (am_step_refines _ _ _ _ (OpGet k d) Hr) as (_ & _ & _ & Hstep).
    rewrite <- Hstep. cbn. by rewrite Hc.
  - symmetry. by apply map_size_refines.
  - exact Hwf.
Qed.
End Refinement.
