(* ===== verification/Convert.v ===== *)
(** * Conversions between bigints and their spellings ([sdk/src/utils/convert.ts])

    [BigInt], [toString(radix)] and [toHex] on ASCII strings, and the
    [BigNumberish] values the SDK accepts for addresses, keys and note ids. *)
From Stdlib Require Import Ascii ZArith Lia.
From stdpp Require Import base tactics list strings pretty.
From S2P Require Import Prelude.

Local Open Scope string_scope.
Local Open Scope Z_scope.

(** ** Digits *)

Definition digit_char (d : Z) : ascii :=
  if d <? 10 then ascii_of_nat (Z.to_nat (48 + d)) else ascii_of_nat (Z.to_nat (87 + d)).

(** The value of a digit of any radix up to 16, in either case. *)
Definition char_digit (c : ascii) : option Z :=
  let n := Z.of_nat (nat_of_ascii c) in
  if (48 <=? n) && (n <=? 57) then Some (n - 48)
  else if (97 <=? n) && (n <=? 102) then Some (n - 87)
  else if (65 <=? n) && (n <=? 70) then Some (n - 55)
  else None.

(** The digits of [n] in radix [b], most significant first, before [acc]. *)
Fixpoint to_digits (fuel : nat) (b n : Z) (acc : string) : string :=
  match fuel with
  | O => acc
  | S fuel =>
      let acc := String (digit_char (n mod b)) acc in
      if n / b =? 0 then acc else to_digits fuel b (n / b) acc
  end.

(** Reads digits of radix [b] onto [acc]; [None] on a character that is not one. *)
Fixpoint parse_digits (b : Z) (s : string) (acc : Z) : option Z :=
  match s with
  | EmptyString => Some acc
  | String c s =>
      match char_digit c with
      | Some d => if d <? b then parse_digits b s (acc * b + d) else None
      | None => None
      end
  end.

(** [BigInt.prototype.toString(radix)]. *)
Definition bigint_toString (b z : Z) : string :=
  let m := Z.abs z in
  let digits := to_digits (S (Z.to_nat (Z.log2 m))) b m "" in
  if z <? 0 then String "-" digits else digits.

(** ** [BigInt(string)] *)

Definition is_space (c : ascii) : bool :=
  let n := nat_of_ascii c in
  ((9 <=? n) && (n <=? 13) || (n =? 32))%nat.

Fixpoint trim_start (s : string) : string :=
  match s with
  | String c s' => if is_space c then trim_start s' else s
  | EmptyString => EmptyString
  end.

Fixpoint trim_end (s : string) : string :=
  match s with
  | EmptyString => EmptyString
  | String c s' =>
      match trim_end s' with
      | EmptyString => if is_space c then EmptyString else String c EmptyString
      | t => String c t
      end
  end.

(** A non-empty digit string of radix [b]. *)
Definition parse_radix (b : Z) (s : string) : option Z :=
  match s with EmptyString => None | _ => parse_digits b s 0 end.

(** The grammar of [StringToBigInt] on ASCII text; [None] is the [SyntaxError]. *)
Definition BigInt_of_string (s : string) : option Z :=
  match trim_end (trim_start s) with
  | EmptyString => Some 0
  | String "0" (String "x" r) | String "0" (String "X" r) => parse_radix 16 r
  | String "0" (String "o" r) | String "0" (String "O" r) => parse_radix 8 r
  | String "0" (String "b" r) | String "0" (String "B" r) => parse_radix 2 r
  | String "-" r => Z.opp <$> parse_radix 10 r
  | String "+" r => parse_radix 10 r
  | r => parse_radix 10 r
  end.

(** ** BigNumberish *)

(** starknet.js' [BigNumberish = string | number | bigint]; numbers are integers here. *)
Inductive BigNumberish : Type :=
| BN_bigint (z : Z)
| BN_number (z : Z)
| BN_string (s : string).

#[export] Instance BigNumberish_eq_dec : EqDecision BigNumberish.
Proof. solve_decision. Defined.

(** [toBigInt]; [None] when [BigInt] throws. *)
Definition toBigInt (v : BigNumberish) : option Z :=
  match v with
  | BN_bigint z | BN_number z => Some z
  | BN_string s => BigInt_of_string s
  end.

(** [String(v)]. *)
Definition js_String (v : BigNumberish) : string :=
  match v with
  | BN_bigint z | BN_number z => bigint_toString 10 z
  | BN_string s => s
  end.

(** [toHex] of a bigint, with the prefix. *)
Definition toHex (z : Z) : string := "0x" +:+ bigint_toString 16 z.

(** ** Keys made of spelled numbers *)

(** [key.split(":")] at the first colon. *)
Fixpoint split_colon (s : string) : string * string :=
  match s with
  | EmptyString => (EmptyString, EmptyString)
  | String c s =>
      if bool_decide (c = ":"%char) then (EmptyString, s)
      else let '(a, b) := split_colon s in (String c a, b)
  end.

(** ** Lemmas *)

Lemma char_digit_char (d : Z) : 0 <= d < 16 -> char_digit (digit_char d) = Some d.
Proof.
  intros Hd. assert (H : d ∈ seqZ 0 16) by (apply elem_of_seqZ; lia). revert H. clear Hd.
  vm_compute seqZ. rewrite !elem_of_cons.
  intros H; repeat (destruct H as [->|H]; [reflexivity|]). by apply elem_of_nil in H.
Qed.

Lemma parse_to_digits fuel b n s :
  1 < b <= 16 -> 0 <= n < b ^ Z.of_nat fuel -> (0 < fuel)%nat ->
  parse_digits b (to_digits fuel b n s) 0 = parse_digits b s n.
Proof.
  intros Hb. revert n s. induction fuel as [|fuel IH]; [lia|]. intros n s Hn _.
  pose proof (Z.mod_pos_bound n b ltac:(lia)) as Hmod.
  pose proof (Z_div_mod_eq_full n b) as Hdm.
  assert (Hstep : forall a, parse_digits b (String (digit_char (n mod b)) s) a
                            = parse_digits b s (a * b + n mod b)).
  { intros a. cbn. rewrite char_digit_char by lia. by rewrite (proj2 (Z.ltb_lt _ _)) by lia. }
  cbn. destruct (n / b =? 0) eqn:Hq.
  - apply Z.eqb_eq in Hq. rewrite Hstep. f_equal. lia.
  - apply Z.eqb_neq in Hq.
    assert (Hpow : b ^ Z.of_nat (S fuel) = b * b ^ Z.of_nat fuel).
    { rewrite Nat2Z.inj_succ, Z.pow_succ_r; lia. }
    assert (Hlt : 0 <= n / b < b ^ Z.of_nat fuel).
    { split; [apply Z.div_pos; lia|]. apply Z.div_lt_upper_bound; lia. }
    destruct fuel as [|fuel]; [change (b ^ Z.of_nat 0) with 1 in Hlt; lia|].
    rewrite IH by (try lia; exact Hlt).
    rewrite Hstep. f_equal. lia.
Qed.

(** Digits are never white space, so trimming leaves them alone. *)
Fixpoint no_space (s : string) : bool :=
  match s with EmptyString => true | String c s => negb (is_space c) && no_space s end.

Lemma trim_end_no_space s : no_space s = true -> trim_end s = s.
Proof.
  induction s as [|c s IH]; cbn; [done|]. intros [Hc Hs]%andb_prop.
  rewrite IH by done. apply negb_true_iff in Hc. rewrite Hc. by destruct s.
Qed.

Lemma trim_no_space s : no_space s = true -> trim_end (trim_start s) = s.
Proof.
  intros Hs. destruct s as [|c s]; [done|]. cbn [trim_start].
  pose proof Hs as Hs'. cbn in Hs'. apply andb_prop in Hs' as [Hc _].
  apply negb_true_iff in Hc. rewrite Hc. by apply trim_end_no_space.
Qed.

Lemma digit_char_no_space d : 0 <= d < 16 -> is_space (digit_char d) = false.
Proof.
  intros Hd. assert (H : d ∈ seqZ 0 16) by (apply elem_of_seqZ; lia). revert H. clear Hd.
  vm_compute seqZ. rewrite !elem_of_cons.
  intros H; repeat (destruct H as [->|H]; [reflexivity|]). by apply elem_of_nil in H.
Qed.

Lemma to_digits_no_space fuel b n s :
  1 < b <= 16 -> no_space s = true -> no_space (to_digits fuel b n s) = true.
Proof.
  intros Hb. revert n s. induction fuel as [|fuel IH]; [done|]. intros n s Hs. cbn.
  assert (Hc : no_space (String (digit_char (n mod b)) s) = true).
  { cbn. rewrite Hs, digit_char_no_space; [done|]. pose proof (Z.mod_pos_bound n b); lia. }
  destruct (n / b =? 0); [exact Hc|by apply IH].
Qed.

Lemma to_digits_cons fuel b n s : exists c r, to_digits (S fuel) b n s = String c r.
Proof.
  revert n s. induction fuel as [|fuel IH]; intros n s; cbn.
  - destruct (n / b =? 0); eauto.
  - destruct (n / b =? 0); [eauto|]. apply IH.
Qed.

Lemma digits_fuel b n : 1 < b -> 0 <= n -> n < b ^ Z.of_nat (S (Z.to_nat (Z.log2 n))).
Proof.
  intros Hb Hn. rewrite Nat2Z.inj_succ, Z2Nat.id by apply Z.log2_nonneg.
  destruct (Z.eq_dec n 0) as [->|Hne]; [cbn; lia|].
  apply Z.lt_le_trans with (2 ^ Z.succ (Z.log2 n)); [apply Z.log2_spec; lia|].
  apply Z.pow_le_mono_l. lia.
Qed.

Lemma parse_bigint_toString b z : 1 < b <= 16 -> 0 <= z ->
  parse_digits b (bigint_toString b z) 0 = Some z.
Proof.
  intros Hb Hz. unfold bigint_toString. rewrite (proj2 (Z.ltb_ge _ _)) by lia.
  rewrite Z.abs_eq by lia. rewrite parse_to_digits; [done|lia| |lia].
  split; [lia|]. apply digits_fuel; lia.
Qed.

Lemma BigInt_toHex (z : Z) : 0 <= z -> BigInt_of_string (toHex z) = Some z.
Proof.
  intros Hz. unfold BigInt_of_string.
  pose proof (parse_bigint_toString 16 z ltac:(lia) Hz) as Hp. revert Hp.
  unfold toHex, bigint_toString. rewrite (proj2 (Z.ltb_ge z 0)) by lia.
  set (f := Z.to_nat _). set (n := Z.abs z).
  rewrite trim_no_space by (apply (to_digits_no_space (S f) 16 n ""); [lia|done]).
  destruct (to_digits_cons f 16 n "") as (c & r & ->). done.
Qed.

Definition is_decimal (c : ascii) : bool :=
  match char_digit c with Some d => d <? 10 | None => false end.

Fixpoint all_decimal (s : string) : bool :=
  match s with EmptyString => true | String c s => is_decimal c && all_decimal s end.

Lemma to_digits_decimal fuel n s : all_decimal s = true -> all_decimal (to_digits fuel 10 n s) = true.
Proof.
  revert n s. induction fuel as [|fuel IH]; [done|]. intros n s Hs. cbn.
  assert (Hc : all_decimal (String (digit_char (n mod 10)) s) = true).
  { cbn. rewrite Hs. unfold is_decimal. pose proof (Z.mod_pos_bound n 10).
    rewrite char_digit_char by lia. by rewrite (proj2 (Z.ltb_lt _ _)) by lia. }
  destruct (n / 10 =? 0); [exact Hc|by apply IH].
Qed.

(** A string of decimal digits has none of the prefixes of [StringToBigInt]. *)
Lemma BigInt_of_decimal c s : all_decimal (String c s) = true ->
  no_space (String c s) = true ->
  BigInt_of_string (String c s) = parse_digits 10 (String c s) 0.
Proof.
  intros Hd Hs. unfold BigInt_of_string. rewrite trim_no_space by exact Hs. clear Hs.
  cbn in Hd. apply andb_prop in Hd as [Hc Hs].
  destruct c as [[] [] [] [] [] [] [] []]; try discriminate Hc; try reflexivity.
  destruct s as [|d s]; [reflexivity|]. cbn in Hs. apply andb_prop in Hs as [Hd _].
  destruct d as [[] [] [] [] [] [] [] []]; try discriminate Hd; reflexivity.
Qed.

Lemma BigInt_decimal (z : Z) : BigInt_of_string (bigint_toString 10 z) = Some z.
Proof.
  assert (Hpos : forall n, 0 <= n -> exists c s, bigint_toString 10 n = String c s /\
            all_decimal (String c s) = true /\ no_space (String c s) = true /\
            parse_digits 10 (String c s) 0 = Some n).
  { intros n Hn. pose proof (parse_bigint_toString 10 n ltac:(lia) Hn) as Hp.
    revert Hp. unfold bigint_toString. rewrite (proj2 (Z.ltb_ge n 0)) by lia.
    destruct (to_digits_cons (Z.to_nat (Z.log2 (Z.abs n))) 10 (Z.abs n) "") as (c & s & Hcs).
    rewrite Hcs. intros Hp. exists c, s. split_and!; try done; rewrite <- Hcs.
    - by apply to_digits_decimal.
    - apply to_digits_no_space; [lia|done]. }
  destruct (Z.ltb_spec z 0) as [Hz|Hz].
  - destruct (Hpos (- z) ltac:(lia)) as (c & s & Hcs & Hd & Hsp & Hp).
    assert (Hneg : bigint_toString 10 z = String "-" (String c s)).
    { rewrite <- Hcs. unfold bigint_toString. rewrite (proj2 (Z.ltb_lt z 0)) by lia.
      rewrite (proj2 (Z.ltb_ge (- z) 0)) by lia. by rewrite Z.abs_opp. }
    rewrite Hneg. unfold BigInt_of_string. rewrite trim_no_space by exact Hsp.
    change (Z.opp <$> parse_digits 10 (String c s) 0 = Some z). rewrite Hp. cbn. f_equal. lia.
  - destruct (Hpos z Hz) as (c & s & -> & Hd & Hsp & Hp). by rewrite BigInt_of_decimal.
Qed.

Lemma split_colon_decimal s t : all_decimal s = true -> split_colon (s +:+ ":" +:+ t) = (s, t).
Proof.
  induction s as [|c s IH]; [done|].
  change (String c s +:+ ":" +:+ t) with (String c (s +:+ ":" +:+ t)).
  cbn [all_decimal split_colon]. intros [Hc Hs]%andb_prop.
  rewrite bool_decide_eq_false_2 by (intros ->; done). by rewrite IH.
Qed.

Lemma split_spelled a t : split_colon (bigint_toString 10 a +:+ ":" +:+ t) = (bigint_toString 10 a, t).
Proof.
  unfold bigint_toString. destruct (a <? 0).
  - match goal with |- split_colon (String ?c ?s +:+ ?u) = _ =>
      change (split_colon (String c s +:+ u)) with (let '(x, y) := split_colon (s +:+ u) in (String c x, y)) end.
    rewrite split_colon_decimal; [done|]. by apply to_digits_decimal.
  - rewrite split_colon_decimal; [done|]. by apply to_digits_decimal.
Qed.

(** Two decimal spellings of bigints are equal only for equal bigints. *)
#[export] Instance bigint_toString_inj : Inj (=) (=) (bigint_toString 10).
Proof. intros x y Hxy. pose proof (BigInt_decimal x) as Hx. rewrite Hxy, BigInt_decimal in Hx. congruence. Qed.

(** [BigInt] undoes the spellings the SDK uses: [toHex] of a non-negative bigint, and the
    decimal [String(z)] of any bigint, so neither spelling confuses two values. *)
Theorem toBigInt_spellings (z : Z) :
  0 <= z ->
  toBigInt (BN_string (toHex z)) = Some z /\
  toBigInt (BN_string (js_String (BN_bigint z))) = Some z /\
  toBigInt (BN_string (js_String (BN_bigint (- z)))) = Some (- z).
Proof. intros Hz. cbn. split_and!; [by apply BigInt_toHex|apply BigInt_decimal|apply BigInt_decimal]. Qed.

Lemma toBigInt_spellings_witness :
  toBigInt (BN_string (toHex 3735928559)) = Some 3735928559 /\
  toBigInt (BN_string (js_String (BN_bigint 3735928559))) = Some 3735928559 /\
  toBigInt (BN_string (js_String (BN_bigint (- 3735928559)))) = Some (- 3735928559).
Proof. apply (toBigInt_spellings 3735928559). lia. Defined.

Example toHex_ex : toHex 3735928559 = "0xdeadbeef".
Proof. reflexivity. Qed.

Example BigInt_ex : BigInt_of_string " 0x00fF " = Some 255 /\ BigInt_of_string "-12" = Some (-12)
  /\ BigInt_of_string "0x" = None /\ BigInt_of_string "" = Some 0.
Proof. by vm_compute. Qed.
