(* ===== verification/Crypto.v ===== *)
(** * Hashes of the SDK ([sdk/src/utils/crypto.ts], [sdk/src/utils/hashes.ts])

    Poseidon and the STARK curve are starknet.js code: they are the operations of
    the class [StarkCrypto]. What the SDK builds on them is defined here: the
    Cairo short strings, the variadic [hash], the fifteen domain-separated
    [compute_*] hashes and the symmetric helpers. *)
From Stdlib Require Import Ascii ZArith Lia.
From stdpp Require Import base tactics list strings countable.
From S2P Require Import Prelude Convert.

Local Open Scope string_scope.
Local Open Scope Z_scope.

(** ** The library the SDK calls ([ec.starkCurve] of starknet.js) *)

Class StarkCrypto := {
  (** [poseidonHashMany]. *)
  poseidonHashMany : list Z -> Z;
  (** [CURVE.a] and [CURVE.b] of the curve equation. *)
  curve_a : Z;
  curve_b : Z;
  (** [Fp.sqrt]: some square root, when there is one. *)
  fp_sqrt : Z -> option Z;
  (** [getPublicKey]: the affine point of a scalar. *)
  getPublicKey : Z -> Z * Z;
  (** [getSharedSecret(scalar, point)], an affine point. *)
  getSharedSecret : Z -> Z * Z -> Z * Z
}.

(** [CURVE.Fp.ORDER], the felt252 prime. *)
Definition FIELD_PRIME : Z := 2 ^ 251 + 17 * 2 ^ 192 + 1.
(** [CURVE.n], the order of the curve. *)
Definition CURVE_N : Z := 3618502788666131213697322783095070105526743751716087489154079457884512865583.

(** ** Short strings and [hash] *)

(** The characters of a string read as a big-endian number. *)
Fixpoint bytes_felt (s : string) (acc : Z) : Z :=
  match s with
  | EmptyString => acc
  | String c s => bytes_felt s (acc * 256 + Z.of_nat (nat_of_ascii c))
  end.

(** [BigInt(toHex(str))]: numeric spellings are read as numbers, other text as bytes. *)
Definition toHex_string_value (str : string) : option Z :=
  match str with
  | EmptyString => None
  | String "0" (String "x" _) | String "0" (String "X" _) => BigInt_of_string str
  | _ => if all_decimal str then BigInt_of_string str else Some (bytes_felt str 0)
  end.

Definition shortStringToFelt (str : string) : option Z :=
  if (31 <? String.length str)%nat then None else toHex_string_value str.

Fixpoint all_hex (s : string) : bool :=
  match s with
  | EmptyString => true
  | String c s => match char_digit c with Some _ => all_hex s | None => false end
  end.

(** [/^0x[0-9a-fA-F]+$/] or [/^[0-9]+$/]. *)
Definition isNumericString (str : string) : bool :=
  match str with
  | EmptyString => false
  | String "0" (String "x" (String c r)) => all_hex (String c r)
  | _ => all_decimal str
  end.

(** One argument of [hash] as a felt; [None] when the conversion throws. *)
Definition hash_felt (v : BigNumberish) : option Z :=
  match v with
  | BN_string s => if isNumericString s then BigInt_of_string s else shortStringToFelt s
  | _ => toBigInt v
  end.

Section Hashes.
Context `{StarkCrypto}.

Definition hash (values : list BigNumberish) : option Z :=
  poseidonHashMany <$> mapM hash_felt values.

(** The hashes of [hashes.ts]: a tag followed by bigints and indices. Their
    arguments always convert ([hash_tagged] below), so the default is not reached. *)
Definition hash_tag (tag : string) (args : list Z) : Z :=
  default 0 (hash (BN_string tag :: map BN_bigint args)).

Definition compute_identity_key (user_addr user_private_key contract_address : Z) : Z :=
  hash_tag "IDENTITY_KEY_TAG:V1" [user_addr; user_private_key; contract_address].

Definition compute_enc_private_key_hash (shared_x : Z) : Z :=
  hash_tag "ENC_PRIVATE_KEY_TAG:V1" [shared_x].

Definition compute_enc_user_addr_hash (shared_x : Z) : Z :=
  hash_tag "ENC_USER_ADDR_TAG:V1" [shared_x].

Definition compute_enc_token_hash (channel_key index salt : Z) : Z :=
  hash_tag "ENC_TOKEN_TAG:V1" [channel_key; index; 0; salt].

Definition compute_enc_channel_key_hash (shared_x : Z) : Z :=
  hash_tag "ENC_CHANNEL_KEY_TAG:V1" [shared_x].

Definition compute_enc_sender_addr_hash (shared_x : Z) : Z :=
  hash_tag "ENC_SENDER_ADDR_TAG:V1" [shared_x].

Definition compute_enc_recipient_addr_hash (sender_addr sender_private_key index salt : Z) : Z :=
  hash_tag "ENC_RECIPIENT_ADDR_TAG:V1" [sender_addr; sender_private_key; index; 0; salt].

Definition compute_channel_key
    (sender_addr sender_private_key recipient_addr recipient_public_key : Z) : Z :=
  hash_tag "CHANNEL_KEY_TAG:V1"
    [sender_addr; sender_private_key; recipient_addr; recipient_public_key].

Definition compute_outgoing_channel_id (sender_addr sender_private_key index : Z) : Z :=
  hash_tag "OUTGOING_CHANNEL_ID_TAG:V1" [sender_addr; sender_private_key; index; 0].

Definition compute_channel_marker
    (channel_key sender_addr recipient_addr recipient_public_key : Z) : Z :=
  hash_tag "CHANNEL_MARKER_TAG:V1"
    [channel_key; sender_addr; recipient_addr; recipient_public_key].

Definition compute_subchannel_id (channel_key index : Z) : Z :=
  hash_tag "SUBCHANNEL_ID_TAG:V1" [channel_key; index; 0].

Definition compute_subchannel_marker
    (channel_key recipient_addr recipient_public_key token : Z) : Z :=
  hash_tag "SUBCHANNEL_MARKER_TAG:V1"
    [channel_key; recipient_addr; recipient_public_key; token].

Definition compute_note_id (channel_key token index : Z) : Z :=
  hash_tag "NOTE_ID_TAG:V1" [channel_key; token; index; 0].

Definition compute_enc_amount_hash (channel_key token index salt : Z) : Z :=
  hash_tag "ENC_AMOUNT_TAG:V1" [channel_key; token; index; 0; salt].

Definition compute_nullifier (channel_key token index owner_private_key : Z) : Z :=
  hash_tag "NULLIFIER_TAG:V1" [channel_key; token; index; 0; owner_private_key].

(** ** Keys and randomness *)

(** [derivePublicKey]: the x-coordinate of the public key. *)
Definition derivePublicKey (privateKey : Z) : Z := (getPublicKey privateKey).1.

(** ** Symmetric encryption *)

Record SymmetricEncryption : Type := { sym_r : Z; sym_enc : Z }.

Definition encryptSymmetric (shared data r : Z) : option SymmetricEncryption :=
  if (r <? 0) || (CURVE_N <=? r) then None
  else
    h ← hash [BN_bigint shared; BN_bigint r];
    Some {| sym_r := r; sym_enc := js_rem (h + data) CURVE_N |}.

Definition decryptSymmetric (encryption : SymmetricEncryption) (shared : Z) : option Z :=
  h ← hash [BN_bigint shared; BN_bigint (sym_r encryption)];
  Some (sym_enc encryption - js_rem h CURVE_N).
End Hashes.

(** [generateRandom120] on the fifteen bytes it draws. *)
Definition generateRandom120 (bytes : list Z) : Z :=
  fold_left (fun result byte => Z.lor (Z.shiftl result 8) byte) bytes 0.

(** ** Domain separation *)

(** The calls of [hashes.ts] as data, one constructor per function. *)
Inductive hash_call : Type :=
| IdentityKey (a b c : Z)
| EncPrivateKeyHash (x : Z)
| EncUserAddrHash (x : Z)
| EncTokenHash (k i s : Z)
| EncChannelKeyHash (x : Z)
| EncSenderAddrHash (x : Z)
| EncRecipientAddrHash (a k i s : Z)
| ChannelKeyHash (a k r p : Z)
| OutgoingChannelId (a k i : Z)
| ChannelMarker (k a r p : Z)
| SubchannelId (k i : Z)
| SubchannelMarker (k r p t : Z)
| NoteId (k t i : Z)
| EncAmountHash (k t i s : Z)
| Nullifier (k t i o : Z).

Definition run_hash_call `{StarkCrypto} (c : hash_call) : Z :=
  match c with
  | IdentityKey a b c => compute_identity_key a b c
  | EncPrivateKeyHash x => compute_enc_private_key_hash x
  | EncUserAddrHash x => compute_enc_user_addr_hash x
  | EncTokenHash k i s => compute_enc_token_hash k i s
  | EncChannelKeyHash x => compute_enc_channel_key_hash x
  | EncSenderAddrHash x => compute_enc_sender_addr_hash x
  | EncRecipientAddrHash a k i s => compute_enc_recipient_addr_hash a k i s
  | ChannelKeyHash a k r p => compute_channel_key a k r p
  | OutgoingChannelId a k i => compute_outgoing_channel_id a k i
  | ChannelMarker k a r p => compute_channel_marker k a r p
  | SubchannelId k i => compute_subchannel_id k i
  | SubchannelMarker k r p t => compute_subchannel_marker k r p t
  | NoteId k t i => compute_note_id k t i
  | EncAmountHash k t i s => compute_enc_amount_hash k t i s
  | Nullifier k t i o => compute_nullifier k t i o
  end.

(** Poseidon without collisions: the ideal the protocol relies on. *)
Class CollisionFree `{StarkCrypto} : Prop := poseidon_inj :: Inj (=) (=) poseidonHashMany.

(** ** Lemmas *)

Section HashLemmas.
Context `{StarkCrypto}.

Lemma mapM_hash_felt_bigint (args : list Z) : mapM hash_felt (map BN_bigint args) = Some args.
Proof. induction args as [|a args IH]; [done|]. cbn. by rewrite IH. Qed.

Lemma hash_bigints (args : list Z) : hash (map BN_bigint args) = Some (poseidonHashMany args).
Proof. unfold hash. by rewrite mapM_hash_felt_bigint. Qed.

(** A tag is a short string, hashed in front of the arguments. *)
Lemma hash_tagged (tag : string) (f : Z) (args : list Z) :
  hash_felt (BN_string tag) = Some f -> hash_tag tag args = poseidonHashMany (f :: args).
Proof.
  intros Hf. unfold hash_tag, hash. cbn [mapM]. rewrite Hf.
  cbn. by rewrite mapM_hash_felt_bigint.
Qed.

(** The felts a call feeds to Poseidon. *)
Definition call_felts (c : hash_call) : list Z :=
  let t s := default 0 (hash_felt (BN_string s)) in
  match c with
  | IdentityKey a b c => [t "IDENTITY_KEY_TAG:V1"; a; b; c]
  | EncPrivateKeyHash x => [t "ENC_PRIVATE_KEY_TAG:V1"; x]
  | EncUserAddrHash x => [t "ENC_USER_ADDR_TAG:V1"; x]
  | EncTokenHash k i s => [t "ENC_TOKEN_TAG:V1"; k; i; 0; s]
  | EncChannelKeyHash x => [t "ENC_CHANNEL_KEY_TAG:V1"; x]
  | EncSenderAddrHash x => [t "ENC_SENDER_ADDR_TAG:V1"; x]
  | EncRecipientAddrHash a k i s => [t "ENC_RECIPIENT_ADDR_TAG:V1"; a; k; i; 0; s]
  | ChannelKeyHash a k r p => [t "CHANNEL_KEY_TAG:V1"; a; k; r; p]
  | OutgoingChannelId a k i => [t "OUTGOING_CHANNEL_ID_TAG:V1"; a; k; i; 0]
  | ChannelMarker k a r p => [t "CHANNEL_MARKER_TAG:V1"; k; a; r; p]
  | SubchannelId k i => [t "SUBCHANNEL_ID_TAG:V1"; k; i; 0]
  | SubchannelMarker k r p t' => [t "SUBCHANNEL_MARKER_TAG:V1"; k; r; p; t']
  | NoteId k t' i => [t "NOTE_ID_TAG:V1"; k; t'; i; 0]
  | EncAmountHash k t' i s => [t "ENC_AMOUNT_TAG:V1"; k; t'; i; 0; s]
  | Nullifier k t' i o => [t "NULLIFIER_TAG:V1"; k; t'; i; 0; o]
  end.

Lemma run_hash_call_felts c : run_hash_call c = poseidonHashMany (call_felts c).
Proof. destruct c; cbn [run_hash_call]; by apply hash_tagged. Qed.

#[export] Instance call_felts_inj : Inj (=) (=) call_felts.
Proof.
  intros c1 c2. destruct c1, c2; vm_compute; intros Heq; first [discriminate Heq | by simplify_eq].
Qed.

(** Under [CollisionFree] two calls have one value only if they are the same call. *)
Lemma run_hash_call_inj `{!CollisionFree} c1 c2 : run_hash_call c1 = run_hash_call c2 -> c1 = c2.
Proof. rewrite !run_hash_call_felts. intros Heq. by apply (inj poseidonHashMany), (inj call_felts) in Heq. Qed.
End HashLemmas.

Lemma generateRandom120_bounds_aux (bytes : list Z) (acc : Z) :
  Forall (fun b : Z => 0 <= b < 256) bytes -> 0 <= acc ->
  acc * 2 ^ (8 * Z.of_nat (length bytes))
    <= fold_left (fun result byte => Z.lor (Z.shiftl result 8) byte) bytes acc
    < (acc + 1) * 2 ^ (8 * Z.of_nat (length bytes)).
Proof.
  intros Hb. revert acc. induction Hb as [|b bytes Hb Hbs IH]; intros acc Hacc; [cbn; lia|]. cbn [fold_left length].
  assert (Hor : Z.lor (Z.shiftl acc 8) b = acc * 256 + b).
  { rewrite Z.shiftl_mul_pow2 by lia.
    pose proof (Z.add_lor_land (acc * 2 ^ 8) b) as Hsum.
    rewrite land_mul_pow2 in Hsum by lia. lia. }
  rewrite Hor. specialize (IH (acc * 256 + b) ltac:(lia)).
  replace (8 * Z.of_nat (S (length bytes))) with (8 * Z.of_nat (length bytes) + 8) by lia.
  rewrite Z.pow_add_r by lia. set (w := 2 ^ (8 * Z.of_nat (length bytes))) in *.
  assert (0 < w) by (apply Z.pow_pos_nonneg; lia). change (2 ^ 8) with 256. nia.
Qed.

(** The fifteen hashes of the protocol are domain separated: over a collision-free Poseidon,
    a channel key, marker, note id, nullifier or encryption pad never equals a value another
    function computes, nor its own value at other arguments. *)
Theorem hashes_domain_separated `{StarkCrypto} (Hinj : CollisionFree) (c1 c2 : hash_call) :
  run_hash_call c1 = run_hash_call c2 <-> c1 = c2.
Proof. split; [apply run_hash_call_inj|by intros ->]. Qed.

(** A stand-in for the library: hashes encode their list, the curve is a line. *)
Definition toy_crypto : StarkCrypto := {|
  poseidonHashMany l := Z.pos (encode l);
  curve_a := 1;
  curve_b := 0;
  fp_sqrt _ := Some 0;
  getPublicKey k := (k, 0);
  getSharedSecret s p := (s * p.1, 0) |}.

Lemma toy_collision_free : @CollisionFree toy_crypto.
Proof. intros l1 l2 Heq. cbn in Heq. injection Heq as Heq. by apply (inj encode). Qed.

Lemma hashes_domain_separated_witness :
  @run_hash_call toy_crypto (NoteId 5 6 7) <> @run_hash_call toy_crypto (Nullifier 5 6 7 8).
Proof.
  intros Heq. apply (@hashes_domain_separated toy_crypto toy_collision_free) in Heq. discriminate Heq.
Defined.

(** Fifteen random bytes read as one number give a salt of 120 bits. *)
Lemma generateRandom120_bound (bytes : list Z) :
  length bytes = 15%nat -> Forall (fun b => 0 <= b < 256) bytes ->
  0 <= generateRandom120 bytes < 2 ^ 120.
Proof.
  intros Hlen Hb. pose proof (generateRandom120_bounds_aux bytes 0 Hb ltac:(lia)) as Hbd.
  rewrite Hlen in Hbd. exact Hbd.
Qed.
