(* ===== verification/Encryptions.v ===== *)
(** * Encryption of pool records ([sdk/src/utils/encryptions.ts])

    Every record the pool stores encrypted is a one-time pad: a hash added to the
    plaintext in the field (or modulo [2^128] for note amounts). The pads of
    channel infos, private keys and user addresses come from a Diffie-Hellman
    secret; those of subchannels, outgoing channels and notes from keys that both
    sides hold. The file also models the decoding of a stored note
    ([contract-discovery.ts]). *)
From Stdlib Require Import ZArith Lia.
From stdpp Require Import base tactics list strings.
From S2P Require Import Prelude Convert Crypto.

Local Open Scope string_scope.
Local Open Scope Z_scope.

Definition TWO_POW_128 : Z := 2 ^ 128.

(** [recoverPointFromX] throws for an x-coordinate off the curve. *)
Inductive crypto_error : Type :=
| NotOnCurve (x : Z).

Record EncChannelInfo : Type := { ephemeral_pubkey : Z; enc_channel_key : Z; enc_sender_addr : Z }.
Record EncSubchannelInfo : Type := { sub_salt : Z; enc_token : Z }.
Record EncOutgoingChannelInfo : Type := { out_salt : Z; enc_recipient_addr : Z }.
Record ChannelInfo : Type := { ci_key : Z; ci_sender : Z }.
Record SubchannelInfo : Type := { si_token : Z; si_salt : Z }.
Record OutgoingChannelInfo : Type := { oi_recipientAddr : Z; oi_salt : Z }.
Record EncPrivateKey : Type := { epk_ephemeralPubkey : Z; encPrivateKey : Z }.
Record EncUserAddr : Type := { eua_ephemeralPubkey : Z; encUserAddr : Z }.

Section Encryptions.
Context `{StarkCrypto}.

(** [recoverPointFromX]: a point with the given x-coordinate. *)
Definition recoverPointFromX (x : Z) : result crypto_error (Z * Z) :=
  let x3 := ((x * x) mod FIELD_PRIME * x) mod FIELD_PRIME in
  let ax := (curve_a * x) mod FIELD_PRIME in
  let y2 := ((x3 + ax) mod FIELD_PRIME + curve_b) mod FIELD_PRIME in
  match fp_sqrt y2 with
  | None => Err (NotOnCurve x)
  | Some y => Ok (x, y)
  end.

Definition encryptChannelInfo (ephemeralSecret recipientPublicKey channelKey senderAddr : Z)
  : result crypto_error EncChannelInfo :=
  let ephemeralPubkey := (getPublicKey ephemeralSecret).1 in
  recipientPub ← recoverPointFromX recipientPublicKey;
  let sharedX := (getSharedSecret ephemeralSecret recipientPub).1 in
  Ok {| ephemeral_pubkey := ephemeralPubkey;
        enc_channel_key := js_rem (compute_enc_channel_key_hash sharedX + channelKey) FIELD_PRIME;
        enc_sender_addr := js_rem (compute_enc_sender_addr_hash sharedX + senderAddr) FIELD_PRIME |}.

Definition decryptChannelInfo (encrypted : EncChannelInfo) (recipientPrivateKey : Z)
  : result crypto_error ChannelInfo :=
  ephemeralPub ← recoverPointFromX (ephemeral_pubkey encrypted);
  let sharedX := (getSharedSecret recipientPrivateKey ephemeralPub).1 in
  Ok {| ci_key := js_rem (js_rem (enc_channel_key encrypted - compute_enc_channel_key_hash sharedX)
                                 FIELD_PRIME + FIELD_PRIME) FIELD_PRIME;
        ci_sender := js_rem (js_rem (enc_sender_addr encrypted - compute_enc_sender_addr_hash sharedX)
                                 FIELD_PRIME + FIELD_PRIME) FIELD_PRIME |}.

Definition encryptSubchannelInfo (channelKey index token salt : Z) : EncSubchannelInfo :=
  let encTokenHash := compute_enc_token_hash channelKey index salt in
  {| sub_salt := salt; enc_token := js_rem (encTokenHash + token) FIELD_PRIME |}.

Definition decryptSubchannelInfo (encrypted : EncSubchannelInfo) (channelKey index : Z) : SubchannelInfo :=
  let salt := sub_salt encrypted in
  let encTokenHash := compute_enc_token_hash channelKey index salt in
  let token := js_rem (js_rem (enc_token encrypted - encTokenHash) FIELD_PRIME + FIELD_PRIME)
                      FIELD_PRIME in
  {| si_token := token; si_salt := salt |}.

Definition encryptNoteAmount (channelKey token index salt amount : Z) : Z :=
  let encAmountHash := compute_enc_amount_hash channelKey token index salt in
  let encAmount := js_rem (encAmountHash + amount) TWO_POW_128 in
  salt * TWO_POW_128 + encAmount.

(** The amount and the salt. *)
Definition decryptNoteAmount (encNoteValue channelKey token index : Z) : Z * Z :=
  let salt := js_div encNoteValue TWO_POW_128 in
  let encAmount := js_rem encNoteValue TWO_POW_128 in
  let pad := js_rem (compute_enc_amount_hash channelKey token index salt) TWO_POW_128 in
  let amount := js_rem (encAmount + TWO_POW_128 - pad) TWO_POW_128 in
  (amount, salt).

Definition encryptOutgoingChannelInfo (senderAddr senderPrivateKey index recipientAddr salt : Z)
  : EncOutgoingChannelInfo :=
  let encRecipientAddrHash := compute_enc_recipient_addr_hash senderAddr senderPrivateKey index salt in
  {| out_salt := salt; enc_recipient_addr := js_rem (encRecipientAddrHash + recipientAddr) FIELD_PRIME |}.

Definition decryptOutgoingChannelInfo (encrypted : EncOutgoingChannelInfo)
    (senderAddr senderPrivateKey index : Z) : OutgoingChannelInfo :=
  let salt := out_salt encrypted in
  let encRecipientAddrHash := compute_enc_recipient_addr_hash senderAddr senderPrivateKey index salt in
  let recipientAddr :=
    js_rem (js_rem (enc_recipient_addr encrypted - encRecipientAddrHash) FIELD_PRIME + FIELD_PRIME)
           FIELD_PRIME in
  {| oi_recipientAddr := recipientAddr; oi_salt := salt |}.

Definition encryptPrivateKey (ephemeralSecret auditorPublicKey privateKey : Z)
  : result crypto_error EncPrivateKey :=
  let ephemeralPubkey := (getPublicKey ephemeralSecret).1 in
  auditorPub ← recoverPointFromX auditorPublicKey;
  let sharedX := (getSharedSecret ephemeralSecret auditorPub).1 in
  Ok {| epk_ephemeralPubkey := ephemeralPubkey;
        encPrivateKey := js_rem (compute_enc_private_key_hash sharedX + privateKey) FIELD_PRIME |}.

Definition decryptPrivateKey (encrypted : EncPrivateKey) (auditorPrivateKey : Z) : result crypto_error Z :=
  ephemeralPub ← recoverPointFromX (epk_ephemeralPubkey encrypted);
  let sharedX := (getSharedSecret auditorPrivateKey ephemeralPub).1 in
  Ok (js_rem (js_rem (encPrivateKey encrypted - compute_enc_private_key_hash sharedX) FIELD_PRIME
              + FIELD_PRIME) FIELD_PRIME).

Definition encryptUserAddr (ephemeralSecret auditorPublicKey userAddr : Z)
  : result crypto_error EncUserAddr :=
  let ephemeralPubkey := (getPublicKey ephemeralSecret).1 in
  auditorPub ← recoverPointFromX auditorPublicKey;
  let sharedX := (getSharedSecret ephemeralSecret auditorPub).1 in
  Ok {| eua_ephemeralPubkey := ephemeralPubkey;
        encUserAddr := js_rem (compute_enc_user_addr_hash sharedX + userAddr) FIELD_PRIME |}.

Definition decryptUserAddr (encrypted : EncUserAddr) (auditorPrivateKey : Z) : result crypto_error Z :=
  ephemeralPub ← recoverPointFromX (eua_ephemeralPubkey encrypted);
  let sharedX := (getSharedSecret auditorPrivateKey ephemeralPub).1 in
  Ok (js_rem (js_rem (encUserAddr encrypted - compute_enc_user_addr_hash sharedX) FIELD_PRIME
              + FIELD_PRIME) FIELD_PRIME).

(** ** A stored note *)

(** What [addNoteIfNotSpent] reads from a packed value: the amount, the salt
    and whether the note is open. *)
Definition readPackedValue (packedValue channelKey token index : Z) : Z * Z * bool :=
  let packedSalt := Z.shiftr packedValue 128 in
  let isOpenNote := packedSalt =? 1 in
  if isOpenNote then
    (Z.land packedValue (Z.shiftl 1 128 - 1), 1, true)
  else
    let '(amount, salt) := decryptNoteAmount packedValue channelKey token index in
    (amount, salt, false).

(** The packed value of an open note holding [amount] ([get_note] of the pool). *)
Definition packOpenNote (amount : Z) : Z :=
  let OPEN_NOTE_SALT := 1 in
  Z.lor (Z.shiftl OPEN_NOTE_SALT 128) amount.
End Encryptions.

(** ** Laws of the library *)

(** Documented behaviour of Poseidon and of Diffie-Hellman on x-coordinates: a hash
    is a felt, the x-coordinate of a public key lies on the curve, and both sides
    compute the x-coordinate of the same secret, whichever square root is taken. *)
Class StarkLaws `{StarkCrypto} : Prop := {
  poseidon_felt l : 0 <= poseidonHashMany l < FIELD_PRIME;
  shared_secret_x s k :
    exists P, recoverPointFromX (getPublicKey k).1 = Ok P /\
      (getSharedSecret s P).1 = (getSharedSecret s (getPublicKey k)).1;
  shared_secret_comm s k :
    (getSharedSecret s (getPublicKey k)).1 = (getSharedSecret k (getPublicKey s)).1 }.

Definition felt (z : Z) : Prop := 0 <= z < FIELD_PRIME.

(** ** Lemmas *)

Lemma FIELD_PRIME_pos : 0 < FIELD_PRIME.
Proof. reflexivity. Qed.
Lemma TWO_POW_128_pos : 0 < TWO_POW_128.
Proof. reflexivity. Qed.
#[export] Hint Resolve FIELD_PRIME_pos TWO_POW_128_pos : privacy.

(** Adding a pad and taking it off again, in JavaScript's arithmetic. *)
Lemma pad_roundtrip (p pad m : Z) :
  0 < p -> 0 <= pad -> 0 <= m < p ->
  js_rem (js_rem (js_rem (pad + m) p - pad) p + p) p = m.
Proof.
  intros Hp Hpad Hm. rewrite js_rem_normalise by exact Hp. unfold js_rem.
  rewrite Z.rem_mod_nonneg by lia.
  rewrite Zminus_mod_idemp_l. replace (pad + m - pad) with m by lia. by apply Z.mod_small.
Qed.

Section EncryptionLemmas.
Context `{StarkCrypto} `{!StarkLaws}.

Lemma hash_tag_felt tag args : 0 <= hash_tag tag args < FIELD_PRIME.
Proof.
  unfold hash_tag, hash. destruct (mapM hash_felt _) as [l|]; cbn; [apply poseidon_felt|].
  split; [lia|reflexivity].
Qed.

Lemma felt_pad_roundtrip tag args m : felt m ->
  js_rem (js_rem (js_rem (hash_tag tag args + m) FIELD_PRIME - hash_tag tag args) FIELD_PRIME
          + FIELD_PRIME) FIELD_PRIME = m.
Proof.
  intros Hm. apply pad_roundtrip; [auto with privacy| |exact Hm].
  pose proof (hash_tag_felt tag args). lia.
Qed.

(** Both ends of an exchange recover the other's point and agree on the secret. *)
Lemma exchange_agrees s k : exists P Q,
  recoverPointFromX (derivePublicKey k) = Ok P /\
  recoverPointFromX (getPublicKey s).1 = Ok Q /\
  (getSharedSecret k Q).1 = (getSharedSecret s P).1.
Proof.
  destruct (shared_secret_x s k) as (P & HP & HPx). destruct (shared_secret_x k s) as (Q & HQ & HQx).
  exists P, Q. split_and!; [exact HP|exact HQ|]. by rewrite HQx, HPx, shared_secret_comm.
Qed.

Lemma note_amount_roundtrip channelKey token index salt amount :
  0 <= salt -> 0 <= amount < TWO_POW_128 ->
  decryptNoteAmount (encryptNoteAmount channelKey token index salt amount) channelKey token index
    = (amount, salt).
Proof.
  intros Hs Ha. unfold encryptNoteAmount, decryptNoteAmount, js_rem, js_div.
  pose proof TWO_POW_128_pos as Hp.
  pose proof (hash_tag_felt "ENC_AMOUNT_TAG:V1" [channelKey; token; index; 0; salt]) as Hh.
  fold (compute_enc_amount_hash channelKey token index salt) in Hh.
  set (h := compute_enc_amount_hash channelKey token index salt) in *.
  rewrite (Z.rem_mod_nonneg (h + amount)) by lia.
  pose proof (Z.mod_pos_bound (h + amount) TWO_POW_128 Hp) as Hb.
  rewrite Z.quot_div_nonneg, (Z.rem_mod_nonneg (salt * TWO_POW_128 + _)) by nia.
  assert (Hdiv : (salt * TWO_POW_128 + (h + amount) mod TWO_POW_128) / TWO_POW_128 = salt).
  { rewrite Z.div_add_l by lia. rewrite Z.div_small by lia. lia. }
  assert (Hmod : (salt * TWO_POW_128 + (h + amount) mod TWO_POW_128) mod TWO_POW_128
                 = (h + amount) mod TWO_POW_128).
  { symmetry. apply Z.mod_unique with salt; lia. }
  rewrite Hdiv, Hmod. fold h.
  rewrite (Z.rem_mod_nonneg h) by lia.
  pose proof (Z.mod_pos_bound h TWO_POW_128 Hp) as Hhb.
  rewrite Z.rem_mod_nonneg by lia. f_equal.
  rewrite <- (Z.mod_small amount TWO_POW_128) at 2 by lia.
  replace ((h + amount) mod TWO_POW_128 + TWO_POW_128 - h mod TWO_POW_128)
    with ((h + amount) mod TWO_POW_128 - h mod TWO_POW_128 + 1 * TWO_POW_128) by lia.
  rewrite Z.mod_add, <- Zminus_mod by lia. f_equal. lia.
Qed.

Lemma packOpenNote_eq amount : 0 <= amount < TWO_POW_128 -> packOpenNote amount = TWO_POW_128 + amount.
Proof.
  intros Ha. unfold packOpenNote. change (Z.shiftl 1 128) with (1 * 2 ^ 128).
  pose proof (Z.add_lor_land (1 * 2 ^ 128) amount) as Hsum.
  rewrite land_mul_pow2 in Hsum by (unfold TWO_POW_128 in Ha; lia). unfold TWO_POW_128. lia.
Qed.

Lemma encryptNoteAmount_bounds channelKey token index salt amount :
  0 <= salt -> 0 <= amount ->
  salt * TWO_POW_128 <= encryptNoteAmount channelKey token index salt amount < (salt + 1) * TWO_POW_128.
Proof.
  intros Hs Ha. unfold encryptNoteAmount, js_rem.
  pose proof (hash_tag_felt "ENC_AMOUNT_TAG:V1" [channelKey; token; index; 0; salt]) as Hh.
  fold (compute_enc_amount_hash channelKey token index salt) in Hh.
  rewrite Z.rem_mod_nonneg by (pose proof TWO_POW_128_pos; lia).
  pose proof (Z.mod_pos_bound (compute_enc_amount_hash channelKey token index salt + amount)
                TWO_POW_128 TWO_POW_128_pos). lia.
Qed.
End EncryptionLemmas.

(** ** Round trips *)

(** C24: the records encrypted towards a public key open with its private key. A recipient
    decrypts from [encryptChannelInfo] the channel key and sender that were put in, and the auditor
    the private keys and user addresses encrypted to them; none of these calls throws. *)
Theorem ecdh_records_roundtrip `{StarkCrypto} (Hlaws : StarkLaws)
    (ephemeralSecret privateKey channelKey senderAddr userAddr : Z) :
  felt channelKey -> felt senderAddr -> felt userAddr ->
  (enc ← encryptChannelInfo ephemeralSecret (derivePublicKey privateKey) channelKey senderAddr;
   decryptChannelInfo enc privateKey) = Ok {| ci_key := channelKey; ci_sender := senderAddr |} /\
  (enc ← encryptPrivateKey ephemeralSecret (derivePublicKey privateKey) channelKey;
   decryptPrivateKey enc privateKey) = Ok channelKey /\
  (enc ← encryptUserAddr ephemeralSecret (derivePublicKey privateKey) userAddr;
   decryptUserAddr enc privateKey) = Ok userAddr.
Proof.
  intros Hk Hs Hu.
  destruct (exchange_agrees ephemeralSecret privateKey) as (P & Q & HP & HQ & Hx).
  unfold encryptChannelInfo, decryptChannelInfo, encryptPrivateKey, decryptPrivateKey,
    encryptUserAddr, decryptUserAddr.
  rewrite HP. unfold mbind, result_bind.
  cbn [ephemeral_pubkey enc_channel_key enc_sender_addr epk_ephemeralPubkey encPrivateKey
    eua_ephemeralPubkey encUserAddr]. rewrite HQ, Hx.
  unfold compute_enc_channel_key_hash, compute_enc_sender_addr_hash, compute_enc_private_key_hash,
    compute_enc_user_addr_hash.
  by rewrite !felt_pad_roundtrip.
Qed.

(** A line on which every law of the curve holds. *)
Definition line_crypto : StarkCrypto := {|
  poseidonHashMany l := fold_right Z.add 7 l mod FIELD_PRIME;
  curve_a := 1;
  curve_b := 0;
  fp_sqrt _ := Some 0;
  getPublicKey k := (k, 0);
  getSharedSecret s p := (s * p.1, 0) |}.

Lemma line_laws : @StarkLaws line_crypto.
Proof.
  split.
  - intros l. apply Z.mod_pos_bound. reflexivity.
  - intros s k. by exists (k, 0).
  - intros s k. cbn. lia.
Qed.

Lemma ecdh_records_roundtrip_witness :
  (enc ← @encryptChannelInfo line_crypto 11 (@derivePublicKey line_crypto 5) 1234 5678;
   @decryptChannelInfo line_crypto enc 5) = Ok {| ci_key := 1234; ci_sender := 5678 |}.
Proof.
  apply (@ecdh_records_roundtrip line_crypto line_laws 11 5 1234 5678 9);
    split; reflexivity || discriminate.
Defined.

(** The records encrypted under a shared key open with it: [decryptSubchannelInfo] returns
    the token and salt of [encryptSubchannelInfo], [decryptOutgoingChannelInfo] the recipient and
    salt of [encryptOutgoingChannelInfo], at the same key and index. *)
Theorem keyed_records_roundtrip `{StarkCrypto} (Hlaws : StarkLaws)
    (channelKey senderAddr senderPrivateKey index token recipientAddr salt : Z) :
  felt token -> felt recipientAddr ->
  decryptSubchannelInfo (encryptSubchannelInfo channelKey index token salt) channelKey index
    = {| si_token := token; si_salt := salt |} /\
  decryptOutgoingChannelInfo
    (encryptOutgoingChannelInfo senderAddr senderPrivateKey index recipientAddr salt)
    senderAddr senderPrivateKey index
    = {| oi_recipientAddr := recipientAddr; oi_salt := salt |}.
Proof.
  intros Ht Hr. unfold decryptSubchannelInfo, decryptOutgoingChannelInfo, encryptSubchannelInfo,
    encryptOutgoingChannelInfo. cbn [sub_salt enc_token out_salt enc_recipient_addr]. unfold compute_enc_token_hash, compute_enc_recipient_addr_hash. by rewrite !felt_pad_roundtrip.
Qed.

Lemma keyed_records_roundtrip_witness :
  @decryptSubchannelInfo line_crypto (@encryptSubchannelInfo line_crypto 3 0 99 41) 3 0
    = {| si_token := 99; si_salt := 41 |}.
Proof.
  apply (@keyed_records_roundtrip line_crypto line_laws 3 1 2 0 99 77 41);
    split; reflexivity || discriminate.
Defined.

(** Reading a stored note tells open and encrypted notes apart and returns what was stored.
    An encrypted note with a salt of at most 120 bits above 1 has a packed value that is a non-zero
    felt below [2^248], and reads back its amount and salt; an open note reads back its amount. *)
Theorem packed_note_reads_back `{StarkCrypto} (Hlaws : StarkLaws)
    (channelKey token index salt amount : Z) :
  2 <= salt < 2 ^ 120 -> 0 <= amount < TWO_POW_128 ->
  let packed := encryptNoteAmount channelKey token index salt amount in
  readPackedValue packed channelKey token index = (amount, salt, false) /\
  0 < packed < 2 ^ 248 /\ felt packed /\
  readPackedValue (packOpenNote amount) channelKey token index = (amount, 1, true).
Proof.
  intros Hs Ha packed.
  pose proof (encryptNoteAmount_bounds channelKey token index salt amount ltac:(lia) ltac:(lia)) as Hb.
  fold packed in Hb. unfold TWO_POW_128 in *.
  assert (Hpos : 0 < packed < 2 ^ 248) by lia.
  split_and!; try lia.
  - unfold readPackedValue. rewrite Z.shiftr_div_pow2 by lia.
    replace (packed / 2 ^ 128) with salt by (apply Z.div_unique with (packed - 2 ^ 128 * salt); lia).
    rewrite (proj2 (Z.eqb_neq salt 1)) by lia.
    unfold packed. by rewrite note_amount_roundtrip by (unfold TWO_POW_128; lia).
  - split; [lia|]. apply Z.lt_trans with (2 ^ 248); [lia|reflexivity].
  - unfold readPackedValue. rewrite packOpenNote_eq by (unfold TWO_POW_128; lia).
    unfold TWO_POW_128. rewrite Z.shiftr_div_pow2 by lia.
    replace ((2 ^ 128 + amount) / 2 ^ 128) with 1 by (apply Z.div_unique with amount; lia).
    change (Z.shiftl 1 128 - 1) with (Z.ones 128). rewrite Z.land_ones by lia.
    replace ((2 ^ 128 + amount) mod 2 ^ 128) with amount by (apply Z.mod_unique with 1; lia). done.
Qed.

Lemma packed_note_reads_back_witness :
  @readPackedValue line_crypto (@encryptNoteAmount line_crypto 3 4 0 77 1000) 3 4 0 = (1000, 77, false).
Proof.
  apply (@packed_note_reads_back line_crypto line_laws 3 4 0 77 1000);
    split; reflexivity || discriminate.
Defined.

(** ** The symmetric helpers *)

(** [decryptSymmetric] subtracts the pad without reducing the difference, so it returns the
    plaintext only up to a multiple of the curve order, and misses it when the sum wrapped. *)
Lemma symmetric_wraps `{StarkCrypto} (Hlaws : StarkLaws) shared data r :
  0 <= r < CURVE_N -> 0 <= data < CURVE_N ->
  let h := poseidonHashMany [shared; r] mod CURVE_N in
  (enc ← encryptSymmetric shared data r; decryptSymmetric enc shared)
    = Some (if h + data <? CURVE_N then data else data - CURVE_N).
Proof.
  intros Hr Hd h. unfold encryptSymmetric, decryptSymmetric.
  rewrite (proj2 (Z.ltb_ge r 0)), (proj2 (Z.leb_gt CURVE_N r)) by lia. cbn [orb].
  change [BN_bigint shared; BN_bigint r] with (map BN_bigint [shared; r]).
  rewrite hash_bigints. cbn [mbind option_bind sym_r sym_enc].
  change [BN_bigint shared; BN_bigint r] with (map BN_bigint [shared; r]).
  rewrite hash_bigints. cbn [mbind option_bind]. f_equal. unfold js_rem.
  pose proof (poseidon_felt [shared; r]) as Hp.
  rewrite !Z.rem_mod_nonneg by (try reflexivity; lia). fold h.
  assert (Hh : 0 <= h < CURVE_N) by (apply Z.mod_pos_bound; reflexivity).
  rewrite <- Zplus_mod_idemp_l. fold h. destruct (Z.ltb_spec (h + data) CURVE_N).
  - rewrite Z.mod_small by lia. lia.
  - replace ((h + data) mod CURVE_N) with (h + data - CURVE_N); [lia|].
    apply Z.mod_unique with 1; lia.
Qed.
