(* ===== verification/Scan.v ===== *)
(** * Probing an append-only sequence ([sdk/src/utils/scan.ts])

    The pool stores channels, subchannels and notes at consecutive indices, and
    discovery finds the end of such a sequence with [scan]: it doubles its step
    until it meets an empty slot and then bisects. The probes run concurrently;
    what a run determines is which probe calls it issues, and that is what the
    definitions return: the calls, each with its index and its [skipResult] flag,
    in the order they are issued. [present i] is the answer the probe at [i] gives. *)
From Stdlib Require Import ZArith Lia.
From stdpp Require Import base tactics list numbers.
From S2P Require Import Prelude.

Definition INITIAL_OFFSET : Z := 8.
Definition INITIAL_STEP : Z := 8.

(** A call [probe(i, skipResult)]. *)
Definition probe_call : Type := Z * bool.

Section Scan.
Context (present : Z -> bool).

(** [touch(probe, start, end)] probes every index of [start, end) without waiting. *)
Definition touch (start end_ : Z) (lengthOnly : bool) : list probe_call :=
  if lengthOnly then [] else map (fun i => (i, true)) (seqZ start (end_ - start)).

(** [None]: out of fuel. *)
Fixpoint bisect (fuel : nat) (start end_ : Z) (lengthOnly : bool) : option (list probe_call) :=
  match fuel with
  | O => None
  | S fuel =>
      if end_ <=? start then Some []
      else
        let mid := (start + end_) / 2 in
        if present mid then
          rest ← bisect fuel (mid + 1) end_ lengthOnly;
          Some ((mid, false) :: touch start mid lengthOnly ++ rest)
        else
          rest ← bisect fuel start mid lengthOnly;
          Some ((mid, false) :: rest)
  end.

(** The [while (true)] loop of [scan] and the final bisection. *)
Fixpoint scan_loop (fuel : nat) (start offset step prev : Z) (lengthOnly : bool)
  : option (list probe_call) :=
  match fuel with
  | O => None
  | S fuel =>
      let index := start + offset in
      if present index then
        rest ← scan_loop fuel start (offset + step) (step * 2) index lengthOnly;
        Some ((index, false) :: touch (prev + 1) index lengthOnly ++ rest)
      else
        rest ← bisect (S (Z.to_nat (index - (prev + 1)))) (prev + 1) index lengthOnly;
        Some ((index, false) :: rest)
  end.

Definition scan (fuel : nat) (start : Z) (lengthOnly : bool) : option (list probe_call) :=
  scan_loop fuel start INITIAL_OFFSET INITIAL_STEP (-1) lengthOnly.

(** The indices at which a probe answered [true], in call order. *)
Definition found (calls : list probe_call) : list Z :=
  filter (fun i => present i = true) calls.*1.
End Scan.

(** The sequence holds exactly the indices below [n]. *)
Definition prefix_of_length (present : Z -> bool) (n : Z) : Prop :=
  forall i, 0 <= i -> present i = (i <? n).

#[global] Arguments touch _ _ _ : simpl never.

(** ** Lemmas *)

Lemma seqZ_split (a b c : Z) : a <= b <= c -> seqZ a (c - a) = seqZ a (b - a) ++ seqZ b (c - b).
Proof.
  intros Habc. replace (c - a) with ((b - a) + (c - b)) by lia.
  rewrite seqZ_app by lia. do 2 f_equal. lia.
Qed.

Lemma seqZ_one (a : Z) : seqZ a 1 = [a].
Proof. rewrite seqZ_cons by lia. by rewrite seqZ_nil by lia. Qed.

Section ScanLemmas.
Context (present : Z -> bool) (n : Z).
Context (Hn : 0 <= n) (Hp : prefix_of_length present n).

Lemma found_cons i b calls :
  found present ((i, b) :: calls) = if present i then i :: found present calls else found present calls.
Proof. unfold found. rewrite fmap_cons, filter_cons. cbn [fst]. destruct (present i); by case_decide. Qed.

Lemma found_app c1 c2 : found present (c1 ++ c2) = found present c1 ++ found present c2.
Proof. unfold found. by rewrite fmap_app, list.filter_app. Qed.

Lemma found_touch start end_ : 0 <= start -> end_ <= n ->
  found present (touch start end_ false) = seqZ start (end_ - start).
Proof.
  intros Hs He. unfold found, touch. rewrite <- list_fmap_compose.
  assert (Hid : forall l : list Z, (fst ∘ (fun i : Z => (i, true))) <$> l = l).
  { intros l. induction l as [|x l IH]; [done|]. cbn. by rewrite IH. }
  rewrite Hid.
  apply filter_all. apply list.Forall_forall. intros i [Hi1 Hi2]%elem_of_seqZ.
  rewrite Hp by lia. apply Z.ltb_lt. lia.
Qed.

(** Bisection finds every present index of its range, each once. *)
Lemma bisect_found fuel start end_ : 0 <= start -> n <= end_ -> (Z.to_nat (end_ - start) < fuel)%nat ->
  exists calls, bisect present fuel start end_ false = Some calls /\
    found present calls ≡ₚ seqZ start (n - start).
Proof.
  revert start end_. induction fuel as [|fuel IH]; intros start end_ Hs He Hf; [lia|]. cbn.
  destruct (Z.leb_spec end_ start).
  { exists []. rewrite seqZ_nil by lia. done. }
  set (mid := (start + end_) / 2).
  assert (Hmid : start <= mid < end_).
  { unfold mid. split; [apply Z.div_le_lower_bound; lia|apply Z.div_lt_upper_bound; lia]. }
  rewrite Hp by lia. destruct (Z.ltb_spec mid n).
  - destruct (IH (mid + 1) end_) as (calls & -> & Hc); [lia..|].
    eexists. split; [reflexivity|].
    rewrite found_cons, Hp by lia. rewrite (proj2 (Z.ltb_lt mid n)) by lia.
    rewrite found_app, found_touch by lia. rewrite Hc.
    rewrite (seqZ_split start mid n), (seqZ_split mid (mid + 1) n) by lia.
    replace (mid + 1 - mid) with 1 by lia. rewrite seqZ_one. cbn. by rewrite Permutation_middle.
  - destruct (IH start mid) as (calls & -> & Hc); [lia..|].
    eexists. split; [reflexivity|].
    rewrite found_cons, Hp by lia. by rewrite (proj2 (Z.ltb_ge mid n)) by lia.
Qed.

Lemma scan_loop_found fuel start offset step prev :
  -1 <= prev < start + offset -> 0 < step -> prev < n -> (Z.to_nat (n - (start + offset)) < fuel)%nat ->
  exists calls, scan_loop present fuel start offset step prev false = Some calls /\
    found present calls ≡ₚ seqZ (prev + 1) (n - (prev + 1)).
Proof.
  revert offset step prev. induction fuel as [|fuel IH]; intros offset step prev Hprev Hstep Hpn Hf;
    [lia|]. cbn -[bisect].
  rewrite Hp by lia. destruct (Z.ltb_spec (start + offset) n).
  - destruct (IH (offset + step) (step * 2) (start + offset)) as (calls & -> & Hc); [lia..|].
    eexists. split; [reflexivity|].
    rewrite found_cons, Hp by lia. rewrite (proj2 (Z.ltb_lt _ n)) by lia.
    rewrite found_app, found_touch by lia. rewrite Hc.
    rewrite (seqZ_split (prev + 1) (start + offset) n),
      (seqZ_split (start + offset) (start + offset + 1) n) by lia.
    replace (start + offset + 1 - (start + offset)) with 1 by lia.
    rewrite seqZ_one. cbn. by rewrite Permutation_middle.
  - destruct (bisect_found (S (Z.to_nat (start + offset - (prev + 1)))) (prev + 1) (start + offset))
      as (calls & -> & Hc); [lia..|].
    eexists. split; [reflexivity|].
    rewrite found_cons, Hp by lia. by rewrite (proj2 (Z.ltb_ge _ n)) by lia.
Qed.

(** Length-only bisection issues one call per halving. *)
Lemma bisect_length_only fuel start end_ k :
  0 <= start -> n <= end_ -> start <= n -> (Z.to_nat (end_ - start) < fuel)%nat ->
  end_ - start < 2 ^ Z.of_nat k ->
  exists calls, bisect present fuel start end_ true = Some calls /\ (length calls <= k)%nat /\
    (n = start \/ exists b, (n - 1, b) ∈ calls).
Proof.
  revert start end_ k. induction fuel as [|fuel IH]; intros start end_ k Hs He Hsn Hf Hk; [lia|]. cbn.
  destruct (Z.leb_spec end_ start).
  { exists []. split_and!; [done|cbn; lia|left; lia]. }
  destruct k as [|k]; [change (2 ^ Z.of_nat 0) with 1 in Hk; lia|].
  rewrite Nat2Z.inj_succ, Z.pow_succ_r in Hk by lia.
  set (mid := (start + end_) / 2).
  assert (Hmid : start <= mid < end_).
  { unfold mid. split; [apply Z.div_le_lower_bound; lia|apply Z.div_lt_upper_bound; lia]. }
  assert (Hhalf : 2 * mid <= start + end_ < 2 * mid + 2).
  { unfold mid. pose proof (Z.mod_pos_bound (start + end_) 2). pose proof (Z_div_mod_eq_full (start + end_) 2). lia. }
  rewrite Hp by lia. destruct (Z.ltb_spec mid n).
  - destruct (IH (mid + 1) end_ k) as (calls & -> & Hc & Hlast); [lia..|]. unfold touch.
    eexists. split_and!; [reflexivity|cbn; lia|]. right.
    destruct Hlast as [Heq|[b Hb]]; [exists false; apply elem_of_cons; left; f_equal; lia|exists b; by right].
  - destruct (IH start mid k) as (calls & -> & Hc & Hlast); [lia..|].
    eexists. split_and!; [reflexivity|cbn; lia|].
    destruct Hlast as [Heq|[b Hb]]; [by left|right; exists b; by right].
Qed.

(** Length-only scanning: after [k] more doublings the index reaches [start + 2^k offset]. *)
Lemma scan_loop_length_only fuel offset prev k j :
  -1 <= prev -> prev < n -> 0 < offset -> prev < offset -> offset < 2 ^ Z.of_nat j ->
  n <= offset * 2 ^ Z.of_nat k -> (k < fuel)%nat ->
  exists calls, scan_loop present fuel 0 offset offset prev true = Some calls /\
    (length calls <= 2 * k + j + 1)%nat /\
    (n = prev + 1 \/ exists b, (n - 1, b) ∈ calls).
Proof.
  revert fuel offset prev j. induction k as [|k IH]; intros fuel offset prev j Hprev Hpn Ho Hlt Hj Hk Hf;
    (destruct fuel as [|fuel]; [lia|]); cbn -[bisect].
  all: rewrite !Z.add_0_l, Hp by lia; destruct (Z.ltb_spec offset n) as [Hon|Hon].
  1: change (2 ^ Z.of_nat 0) with 1 in Hk; lia.
  2: { rewrite Nat2Z.inj_succ, Z.pow_succ_r in Hk by lia.
    destruct (IH fuel (offset + offset) offset (S j)) as (calls & Hc & Hlen & Hlast); try lia.
    { rewrite Nat2Z.inj_succ, Z.pow_succ_r by lia. lia. }
    replace (offset * 2) with (offset + offset) by lia. rewrite Hc. unfold touch.
    eexists. split_and!; [reflexivity|cbn; lia|]. right.
    destruct Hlast as [Heq|[b Hb]]; [exists false; apply elem_of_cons; left; f_equal; lia|
      exists b; by right]. }
  all: destruct (bisect_length_only (S (Z.to_nat (offset - (prev + 1)))) (prev + 1) offset j)
      as (calls & -> & Hlen & Hlast); [lia..|];
    eexists; (split_and!; [reflexivity|cbn; lia|]);
    destruct Hlast as [Heq|[b Hb]]; [left; lia|right; exists b; by right].
Qed.
End ScanLemmas.

(** ** Properties *)

(** On a sequence of [n] entries, [scan] terminates and its probes answer [true] for exactly
    the indices [0 .. n-1], each of them once: discovery sees every entry and none twice. The result
    does not depend on [start]: a scan that starts late still probes the entries below [start]. *)
Theorem scan_finds_each_once (present : Z -> bool) (n start : Z) (fuel : nat) :
  0 <= n -> 0 <= start -> prefix_of_length present n -> (Z.to_nat n < fuel)%nat ->
  exists calls, scan present fuel start false = Some calls /\ found present calls ≡ₚ seqZ 0 n.
Proof.
  intros Hn Hs Hp Hf.
  destruct (scan_loop_found present n Hn Hp fuel start 8 8 (-1)) as (calls & Hc & Hfound); [lia..|].
  exists calls. split; [exact Hc|]. rewrite Hfound. change (-1 + 1) with 0. by rewrite Z.sub_0_r.
Qed.

Lemma scan_finds_each_once_witness :
  exists calls, scan (fun i => i <? 11) 12 5 false = Some calls /\
    found (fun i => i <? 11) calls ≡ₚ seqZ 0 11.
Proof.
  apply (scan_finds_each_once (fun i => i <? 11) 11 5 12); [lia|lia|intros i _; reflexivity|lia].
Defined.

(** A length-only scan of a sequence of [n] entries terminates, probes the last entry and
    answers [true] for nothing beyond it, so the largest index found gives the length; and it issues
    a number of probes that grows with the logarithm of [n]: at most [2 log2 n + 5]. *)
Theorem length_only_scan_is_logarithmic (present : Z -> bool) (n : Z) (fuel : nat) :
  0 < n -> prefix_of_length present n -> (Z.to_nat (Z.log2 n) < fuel)%nat ->
  exists calls, scan present fuel 0 true = Some calls /\
    Z.of_nat (length calls) <= 2 * Z.log2 n + 5 /\
    n - 1 ∈ found present calls /\ (forall i, i ∈ found present calls -> 0 <= i -> i < n).
Proof.
  intros Hn Hp Hf. set (k := Z.to_nat (Z.log2 n)).
  pose proof (Z.log2_nonneg n) as Hl0.
  assert (Hk : n <= 8 * 2 ^ Z.of_nat k).
  { unfold k. rewrite Z2Nat.id by lia. pose proof (Z.log2_spec n Hn) as [_ Hlog].
    rewrite Z.pow_succ_r in Hlog by lia. lia. }
  destruct (scan_loop_length_only present n Hp fuel 8 (-1) k 4)
    as (calls & Hc & Hlen & Hlast); [lia..|exact Hk|exact Hf|].
  exists calls. split_and!; [exact Hc|unfold k in Hlen; pose proof (Z.log2_nonneg n); lia| |].
  - destruct Hlast as [Heq|[b Hb]]; [lia|]. unfold found. apply list_elem_of_filter. split.
    + rewrite Hp by lia. apply Z.ltb_lt. lia.
    + apply list_elem_of_fmap. by exists (n - 1, b).
  - intros i [Hi _]%list_elem_of_filter Hi0. rewrite Hp in Hi by lia. by apply Z.ltb_lt.
Qed.

Lemma length_only_scan_is_logarithmic_witness :
  exists calls, scan (fun i => i <? 1000) 10 0 true = Some calls /\
    Z.of_nat (length calls) <= 2 * Z.log2 1000 + 5 /\
    999 ∈ found (fun i => i <? 1000) calls /\
    (forall i, i ∈ found (fun i => i <? 1000) calls -> 0 <= i -> i < 1000).
Proof.
  apply (length_only_scan_is_logarithmic (fun i => i <? 1000) 1000 10);
    [lia|intros i _; reflexivity|vm_compute; lia].
Defined.
