(* ===== verification/Interfaces.v ===== *)
(** * Data of the SDK ([sdk/src/interfaces.ts], [sdk/src/internal/client-actions.ts])

    The records and unions that the components exchange, with the sources' field
    names. Addresses, keys and amounts are bigints ([Z]) after [toBigInt]; note ids
    stay [BigNumberish] because the code compares their spelling in one place and
    their value in another. Array indices and nonces are JavaScript numbers used as
    integers, modelled as [Z]. Optional fields are [option], and an optional array
    is kept distinct from an empty one where the code tests it. *)
From stdpp Require Import base tactics list strings.
From S2P Require Import Prelude JsMap Convert.

(** ** Values *)

Inductive SetupRequirement : Type := Register | SetupChannel | SetupToken | Ready.

(** The number of an enum member. *)
Definition SetupRequirement_value (r : SetupRequirement) : Z :=
  match r with Register => 0 | SetupChannel => 1 | SetupToken => 2 | Ready => 3 end.

(** [Amount | Open]. *)
Inductive AmountOrOpen : Type := AnAmount (a : Z) | Open.

Definition isOpen (value : AmountOrOpen) : bool :=
  match value with Open => true | AnAmount _ => false end.

(** [MAX_VIEWING_KEY], the largest key that [assertViewingKey] admits. *)
Definition MAX_VIEWING_KEY (curve_n : Z) : Z := js_div curve_n 2.

Record Witness : Type := { w_channelKey : Z; w_nonce : Z; w_r : Z }.

Record Note : Type := {
  note_id : BigNumberish;
  note_amount : Z;
  note_created : option Z;
  note_witness : Witness;
  note_sender : Z;
  note_open : option bool }.

Record TokenChannel : Type := { tokenIndex : Z; noteNonce : Z }.

(** A channel object: the recipient's public key, the channel key once the channel is
    open, and the nonces per token. *)
Record Channel : Type := {
  ch_publicKey : Z;
  ch_key : option Z;
  ch_tokens : AddressMap TokenChannel }.

Record IncomingChannelCursor : Type := {
  icc_channelKey : Z;
  subchannelIdIndex : Z;
  noteIndexes : AddressMap Z;
  totalNoteCounts : AddressMap Z }.

Record NotesCursor : Type := {
  blockId : BigNumberish;
  incomingChannels : AddressMap IncomingChannelCursor }.

Record ChannelCursor : Type := {
  cc_channels : option (AddressMap Channel);
  cc_total : option Z }.

Inductive RecipientsFilter : Type := Recipients (l : list Z) | AllRecipients | TotalOnly.

Record PrivateRegistry : Type := {
  reg_channels : AddressMap Channel;
  reg_notes : AddressMap (list Note);
  reg_cursor : option NotesCursor }.

Definition createEmptyRegistry : PrivateRegistry :=
  {| reg_channels := new_AddressMap None [];
     reg_notes := new_AddressMap (Some (fun _ => [])) [];
     reg_cursor := None |}.

(** ** Exceptions *)

Inductive sdk_error : Type :=
| ChannelAlreadyExists (addr : Z)
| ChannelNotFound (addr : Z)
| MissingChannelContext (addr : Z)
| MissingChannelKey
| AmountNotPositive
| InsufficientBalance (token need available : Z)
| SurplusWithoutAction (surplus token : Z)
| TwoInvokePhaseActions
| ShadowAccountsNotConfigured
| ReorgError
| JsTypeError
| JsSyntaxError
| ProviderError (code : Z).

#[export] Instance sdk_error_eq_dec : EqDecision sdk_error.
Proof. solve_decision. Defined.

(** ** Raw actions (the builder's output) *)

Record SetViewingKeyAction : Type := { svk_random : option Z }.
Record OpenChannelAction : Type := { oc_recipient : Z }.
Record OpenTokenChannelAction : Type := { otc_recipient : Z; otc_token : Z }.
Record DepositAction : Type := { dep_token : Z; dep_amount : Z; dep_noteId : option BigNumberish }.
Record UseNoteAction : Type := { un_token : Z; un_note : Note }.
Record CreateNoteAction : Type := { cn_recipient : Z; cn_token : Z; cn_amount : AmountOrOpen }.
Record WithdrawAction : Type := { wd_recipient : Z; wd_token : Z; wd_amount : Z }.
Record SurplusAction : Type := { sp_recipient : Z; sp_token : Z; sp_withdraw : option bool }.

Record InvokeOpenNote : Type := { ion_noteId : Z; ion_token : Z }.
Record InvokeWithdrawal : Type := { iw_recipient : Z; iw_token : Z; iw_amount : Z }.

Record InvokeCalldataBuilderArgs : Type := {
  args_openNotes : list InvokeOpenNote;
  args_withdrawals : list InvokeWithdrawal;
  args_poolAddress : Z }.

Record CallDetails : Type := {
  cd_contractAddress : BigNumberish;
  cd_calldata : option (list BigNumberish) }.

Record ComputeAndInvokeDetails : Type := {
  cai_contractAddress : BigNumberish;
  cai_computeAdditionalData : option (list BigNumberish);
  cai_invokeAdditionalData : option (list BigNumberish) }.

(** The call builders are the caller's functions and may throw. *)
Definition InvokeAction : Type := InvokeCalldataBuilderArgs -> result sdk_error CallDetails.
Definition ComputeAndInvokeAction : Type :=
  InvokeCalldataBuilderArgs -> result sdk_error ComputeAndInvokeDetails.

Record Actions : Type := {
  setViewingKey : option SetViewingKeyAction;
  openChannels : option (list OpenChannelAction);
  openTokenChannels : option (list OpenTokenChannelAction);
  deposits : option (list DepositAction);
  useNotes : option (list UseNoteAction);
  createNotes : option (list CreateNoteAction);
  withdraws : option (list WithdrawAction);
  surpluses : option (list SurplusAction);
  invoke : option InvokeAction;
  computeAndInvoke : option ComputeAndInvokeAction }.

Definition empty_actions : Actions :=
  {| setViewingKey := None; openChannels := None; openTokenChannels := None; deposits := None;
     useNotes := None; createNotes := None; withdraws := None; surpluses := None;
     invoke := None; computeAndInvoke := None |}.

(** ** Options of [execute] *)

Inductive DiscoveryLevel : Type := missing | refresh.
(** [DiscoveryLevel | "all"] for notes. *)
Inductive NotesDiscoveryLevel : Type := NotesLevel (l : DiscoveryLevel) | NotesAll.
Inductive AutoSelectionStrategy : Type := SelectAll | SelectNaive.

#[export] Instance DiscoveryLevel_eq_dec : EqDecision DiscoveryLevel.
Proof. solve_decision. Defined.
#[export] Instance NotesDiscoveryLevel_eq_dec : EqDecision NotesDiscoveryLevel.
Proof. solve_decision. Defined.
#[export] Instance AutoSelectionStrategy_eq_dec : EqDecision AutoSelectionStrategy.
Proof. solve_decision. Defined.

(** The registry of [ExecuteOptions] is a shared object: it is passed beside them. *)
Record ExecuteOptions : Type := {
  autoRegister : bool;
  autoDiscover_notes : option NotesDiscoveryLevel;
  autoDiscover_channels : option DiscoveryLevel;
  autoSetup : bool;
  autoSelectNotes : option AutoSelectionStrategy;
  registryConst : bool;
  provingBlockId : option BigNumberish }.

Definition default_options : ExecuteOptions :=
  {| autoRegister := false; autoDiscover_notes := None; autoDiscover_channels := None;
     autoSetup := false; autoSelectNotes := None; registryConst := false; provingBlockId := None |}.

(** ** Client actions (the pool's input) *)

Inductive ClientAction : Type :=
| ASetViewingKey (random : Z)
| AOpenChannel (recipient_addr index random salt : Z)
| AOpenSubchannel (recipient_addr recipient_public_key : Z) (channel_key : option Z)
    (index token salt : Z)
| ACreateEncNote (recipient_addr recipient_public_key token amount index salt : Z)
| ACreateOpenNote (recipient_addr recipient_public_key token index random : Z)
| ADeposit (token amount : Z)
| AUseNote (channel_key token index : Z)
| AWithdraw (to_addr token amount random : Z)
| AInvokeExternal (contract_address : Z) (calldata : list Z)
| AComputeAndInvoke (contract_address : Z) (compute_additional_data invoke_additional_data : list Z).

#[export] Instance ClientAction_eq_dec : EqDecision ClientAction.
Proof. solve_decision. Defined.

(** [CLIENT_ACTION_TYPES], in the order of the Cairo enum. *)
Inductive ClientActionType : Type :=
| TSetViewingKey | TOpenChannel | TOpenSubchannel | TCreateEncNote | TCreateOpenNote
| TDeposit | TUseNote | TWithdraw | TInvokeExternal | TComputeAndInvoke.

#[export] Instance ClientActionType_eq_dec : EqDecision ClientActionType.
Proof. solve_decision. Defined.

Definition CLIENT_ACTION_TYPES : list ClientActionType :=
  [TSetViewingKey; TOpenChannel; TOpenSubchannel; TCreateEncNote; TCreateOpenNote;
   TDeposit; TUseNote; TWithdraw; TInvokeExternal; TComputeAndInvoke].

Definition action_type (a : ClientAction) : ClientActionType :=
  match a with
  | ASetViewingKey _ => TSetViewingKey
  | AOpenChannel _ _ _ _ => TOpenChannel
  | AOpenSubchannel _ _ _ _ _ _ => TOpenSubchannel
  | ACreateEncNote _ _ _ _ _ _ => TCreateEncNote
  | ACreateOpenNote _ _ _ _ _ => TCreateOpenNote
  | ADeposit _ _ => TDeposit
  | AUseNote _ _ _ => TUseNote
  | AWithdraw _ _ _ _ => TWithdraw
  | AInvokeExternal _ _ => TInvokeExternal
  | AComputeAndInvoke _ _ _ => TComputeAndInvoke
  end.

(** ** JavaScript truthiness of an optional bigint *)

Definition truthy (z : option Z) : bool :=
  match z with Some z => negb (z =? 0) | None => false end.

(** [list?]: the elements of an optional array. *)
Definition elems {A} (l : option (list A)) : list A := default [] l.
#[global] Arguments elems {A} l : simpl never.

Lemma elems_Some {A} (l : list A) : elems (Some l) = l.
Proof. done. Qed.

(** ** The discovery service *)

(** [DiscoveryProviderInterface]: the answers of the indexer or the chain, which may change from
    call to call ([dp_world]). The timestamps are not read by the modelled code. *)
Class DiscoveryProvider := {
  dp_world : Type;
  discoverChannels : Z -> Z -> RecipientsFilter -> option BigNumberish -> dp_world ->
    result sdk_error ChannelCursor * dp_world;
  discoverNotes : Z -> Z -> option NotesCursor -> option (list Z) -> option BigNumberish -> dp_world ->
    result sdk_error (AddressMap (list Note) * NotesCursor) * dp_world
}.

(** A service that finds nothing. *)
Definition quiet_provider : DiscoveryProvider := {|
  dp_world := unit;
  discoverChannels := fun _ _ _ _ w => (Ok {| cc_channels := Some (new_AddressMap None []); cc_total := Some 0 |}, w);
  discoverNotes := fun _ _ _ _ _ w =>
    (Ok (new_AddressMap None [], {| blockId := BN_number 0; incomingChannels := new_AddressMap None [] |}), w)
|}.
