(* ===== verification/Channel.v ===== *)
(** * Channels and cursors ([sdk/src/internal/channel.ts])

    The [Channel] class as a value, the cursors' copies, and a store of
    [TokenChannel] objects that shows which objects a copy shares. *)
From Stdlib Require Import ZArith Lia.
From stdpp Require Import base tactics list gmap.
From S2P Require Import Prelude JsMap Convert Interfaces.

(** ** Channels as values *)

Definition default_TokenChannel : TokenChannel := {| tokenIndex := 0; noteNonce := 0 |}.

(** The constructor. *)
Definition new_Channel (publicKey : Z) (key : option Z) (tokens : list (Z * TokenChannel)) : Channel :=
  {| ch_publicKey := publicKey;
     ch_key := key;
     ch_tokens := fold_left (fun m e => am_set e.1 e.2 m) tokens
                    (new_AddressMap (Some (fun _ => default_TokenChannel)) []) |}.

Definition with_tokens (c : Channel) (t : AddressMap TokenChannel) : Channel :=
  {| ch_publicKey := ch_publicKey c; ch_key := ch_key c; ch_tokens := t |}.

Definition with_key (c : Channel) (key : option Z) : Channel :=
  {| ch_publicKey := ch_publicKey c; ch_key := key; ch_tokens := ch_tokens c |}.

(** [channel.tokens.get(token)!]: the factory makes a missing entry. *)
Definition tokens_get (token : Z) (c : Channel) : TokenChannel * Channel :=
  let '(v, t) := am_get token None (ch_tokens c) in
  (default default_TokenChannel v, with_tokens c t).

Definition incrementNoteNonce (token : Z) (c : Channel) : Z * Channel :=
  let '(current, c) := tokens_get token c in
  let current := {| tokenIndex := tokenIndex current; noteNonce := noteNonce current + 1 |} in
  (noteNonce current, with_tokens c (am_set token current (ch_tokens c))).

Definition clone_Channel (c : Channel) : Channel :=
  new_Channel (ch_publicKey c) (ch_key c) (am_entries (ch_tokens c)).

Definition toSetupRequirement (token : Z) (c : Channel) : SetupRequirement :=
  if ch_publicKey c =? 0 then Register
  else if negb (truthy (ch_key c)) then SetupChannel
  else if negb (am_has token (ch_tokens c)) then SetupToken
  else Ready.

(** ** Copies of cursors *)

Definition cloneIncomingChannelCursor (sc : IncomingChannelCursor) : IncomingChannelCursor :=
  {| icc_channelKey := icc_channelKey sc;
     subchannelIdIndex := subchannelIdIndex sc;
     noteIndexes := new_AddressMap None (am_entries (noteIndexes sc));
     totalNoteCounts := new_AddressMap None (am_entries (totalNoteCounts sc)) |}.

Definition cloneNotesCursor (cursor : option NotesCursor) : NotesCursor :=
  match cursor with
  | None => {| blockId := BN_number 0; incomingChannels := new_AddressMap None [] |}
  | Some cursor =>
      {| blockId := blockId cursor;
         incomingChannels := new_AddressMap None
           (map (fun e => (e.1, cloneIncomingChannelCursor e.2)) (am_entries (incomingChannels cursor))) |}
  end.

Definition cloneChannelCursor (cursor : option ChannelCursor) : ChannelCursor :=
  match cursor with
  | None => {| cc_channels := Some (new_AddressMap None []); cc_total := None |}
  | Some cursor =>
      {| cc_channels :=
           (fun channels => new_AddressMap None
              (map (fun e => (e.1, clone_Channel e.2)) (am_entries channels))) <$> cc_channels cursor;
         cc_total := cc_total cursor |}
  end.

(** ** Channels as objects

    A channel holds references to its [TokenChannel] objects. [clone] copies the
    entries of the map, so the copy refers to the same objects. *)



Record ChannelObj : Type := { co_publicKey : Z; co_key : option Z; co_tokens : jsmap Z positive }.



(** [clone()] on objects: a new map with the old references. *)
Definition clone_obj (c : ChannelObj) : ChannelObj :=
  {| co_publicKey := co_publicKey c;
     co_key := co_key c;
     co_tokens := fold_left (fun m e => map_set e.1 e.2 m) (co_tokens c) [] |}.

(** [incrementNoteNonce] on objects: [get] makes a missing object, [current.noteNonce += 1]
    writes through the reference. *)
Definition increment_obj (token : Z) (c : ChannelObj) (s : gmap positive TokenChannel) : Z * ChannelObj * gmap positive TokenChannel :=
  let '(l, c, s) :=
    match map_get token (co_tokens c) with
    | Some l => (l, c, s)
    | None =>
        let l := fresh (dom s) in
        (l, {| co_publicKey := co_publicKey c; co_key := co_key c;
               co_tokens := map_set token l (co_tokens c) |}, <[l := default_TokenChannel]> s)
    end in
  let current := default default_TokenChannel (s !! l) in
  let current' := {| tokenIndex := tokenIndex current; noteNonce := noteNonce current + 1 |} in
  (noteNonce current',
   {| co_publicKey := co_publicKey c; co_key := co_key c; co_tokens := map_set token l (co_tokens c) |},
   <[l := current']> s).

(** The value a channel object stands for. *)
Definition read_obj (c : ChannelObj) (s : gmap positive TokenChannel) : list (Z * option TokenChannel) :=
  map (fun e => (e.1, s !! e.2)) (co_tokens c).

(** The nonce a channel object shows for a token. *)
Definition obj_nonce (token : Z) (c : ChannelObj) (s : gmap positive TokenChannel) : option Z :=
  l ← map_get token (co_tokens c); noteNonce <$> s !! l.

(** ** Lemmas *)

Section AddressMapLemmas.
Context {V : Type}.

(** Setting the entries of a well-formed map one by one into an empty one. *)
Lemma am_set_entries (entries : list (Z * V)) (am : AddressMap V) :
  keyConverter am = (fun k => k) ->
  fold_left (fun m e => am_set e.1 e.2 m) entries am
    = with_map am (fold_left (fun m e => map_set e.1 e.2 m) entries (am_map am)).
Proof.
  revert am. induction entries as [|e entries IH]; intros am Hc; cbn.
  - by destruct am.
  - rewrite IH by exact Hc. unfold am_set. by rewrite Hc.
Qed.

Lemma new_AddressMap_map (factory : option (Z -> V)) entries :
  map_wf entries -> am_map (new_AddressMap factory entries) = entries.
Proof.
  intros Hwf. unfold new_AddressMap, am_new. rewrite am_set_entries by done. cbn.
  by apply map_of_entries_id.
Qed.
End AddressMapLemmas.

(** The channels the SDK builds convert keys by the identity and have the factory. *)
Definition channel_wf (c : Channel) : Prop :=
  keyConverter (ch_tokens c) = (fun k => k) /\
  defaultFactory (ch_tokens c) = Some (fun _ => default_TokenChannel) /\
  am_wf (ch_tokens c).

(** The nonce of a token, [0] for one without an entry. *)
Definition nonce_of (token : Z) (c : Channel) : Z :=
  default 0 (noteNonce <$> map_get token (am_map (ch_tokens c))).

Lemma new_Channel_eq pk key tokens : map_wf tokens ->
  new_Channel pk key tokens
    = {| ch_publicKey := pk; ch_key := key;
         ch_tokens := {| keyConverter := fun k => k;
                         defaultFactory := Some (fun _ => default_TokenChannel); am_map := tokens |} |}.
Proof.
  intros Hwf. unfold new_Channel. rewrite am_set_entries by done. unfold with_map. cbn.
  f_equal. f_equal. by apply map_of_entries_id.
Qed.

(** The maps of a well-formed channel are determined by their entries. *)
Definition tokens_of (m : jsmap Z TokenChannel) : AddressMap TokenChannel :=
  {| keyConverter := fun k => k; defaultFactory := Some (fun _ => default_TokenChannel); am_map := m |}.

Definition entry_of (token : Z) (c : Channel) : TokenChannel :=
  default default_TokenChannel (map_get token (am_map (ch_tokens c))).

Lemma channel_wf_eq c : channel_wf c -> ch_tokens c = tokens_of (am_map (ch_tokens c)).
Proof. intros (Hc & Hf & _). destruct (ch_tokens c) as [conv f m]. cbn in *. by subst. Qed.

Lemma tokens_get_eq token c : channel_wf c ->
  tokens_get token c
    = (entry_of token c,
       with_tokens c (tokens_of (if map_has token (am_map (ch_tokens c)) then am_map (ch_tokens c)
                                 else map_set token default_TokenChannel (am_map (ch_tokens c))))).
Proof.
  intros Hwf. unfold tokens_get, entry_of. rewrite (channel_wf_eq c Hwf). unfold am_get, tokens_of. cbn.
  destruct (map_has token (am_map (ch_tokens c))) eqn:Hh; cbn; [done|].
  apply map_has_false in Hh. by rewrite map_get_set_eq, Hh.
Qed.

Lemma tokens_get_wf token c : channel_wf c -> channel_wf (tokens_get token c).2.
Proof.
  intros Hwf. rewrite tokens_get_eq by done. destruct Hwf as (_ & _ & Hwf). split_and!; [done..|].
  cbn. unfold am_wf. cbn. destruct (map_has token _); [exact Hwf|by apply map_set_wf].
Qed.

Lemma increment_eq token c : channel_wf c ->
  incrementNoteNonce token c
    = (noteNonce (entry_of token c) + 1,
       with_tokens c (tokens_of (map_set token
         {| tokenIndex := tokenIndex (entry_of token c); noteNonce := noteNonce (entry_of token c) + 1 |}
         (am_map (ch_tokens c))))).
Proof.
  intros Hwf. unfold incrementNoteNonce. rewrite tokens_get_eq by done. cbn. f_equal. f_equal.
  unfold am_set, tokens_of, with_map. cbn. f_equal.
  destruct (map_has token (am_map (ch_tokens c))); [done|apply map_set_set].
Qed.

Lemma increment_wf token c : channel_wf c -> channel_wf (incrementNoteNonce token c).2.
Proof.
  intros Hwf. rewrite increment_eq by done. destruct Hwf as (_ & _ & Hwf). split_and!; [done..|].
  by apply map_set_wf.
Qed.

Lemma nonce_of_entry token c : nonce_of token c = noteNonce (entry_of token c).
Proof. unfold nonce_of, entry_of. by destruct (map_get token _). Qed.

(** ** Properties *)

(** [incrementNoteNonce] returns the next nonce of the token, advances that nonce by one,
    starting from [0] for a token without an entry, and leaves every other token's nonce and the
    token's subchannel index as they were. *)
Theorem incrementNoteNonce_spec (token : Z) (c : Channel) :
  channel_wf c ->
  let '(n, c') := incrementNoteNonce token c in
  channel_wf c' /\ n = nonce_of token c + 1 /\ nonce_of token c' = n /\
  (forall t, t <> token -> nonce_of t c' = nonce_of t c) /\
  (tokens_get token c').1 = {| tokenIndex := tokenIndex (tokens_get token c).1; noteNonce := n |}.
Proof.
  intros Hwf. pose proof (increment_wf token c Hwf) as Hwf'.
  rewrite increment_eq in * by done. cbn in Hwf'. split_and!; [done|by rewrite nonce_of_entry| | |].
  - unfold nonce_of. cbn. by rewrite map_get_set_eq.
  - intros t Ht. unfold nonce_of. cbn. by rewrite map_get_set_ne.
  - rewrite !tokens_get_eq by done. cbn. unfold entry_of at 1. cbn. by rewrite map_get_set_eq.
Qed.

Lemma incrementNoteNonce_spec_witness :
  (incrementNoteNonce 7 (new_Channel 1 (Some 2) [(7, {| tokenIndex := 3; noteNonce := 4 |})])).1 = 5.
Proof.
  apply (incrementNoteNonce_spec 7 (new_Channel 1 (Some 2) [(7, {| tokenIndex := 3; noteNonce := 4 |})])).
  split_and!; try reflexivity. apply NoDup_singleton.
Defined.

(** [clone] equals the channel it copies, as a value. *)
Lemma clone_Channel_id c : channel_wf c -> clone_Channel c = c.
Proof.
  intros (Hc & Hf & Hwf). unfold clone_Channel. rewrite new_Channel_eq by exact Hwf.
  destruct c as [pk key [conv f m]]. cbn in *. by subst.
Qed.

(** But not as an object: for a token the channel knows, advancing the nonce of the clone advances
    the nonce the original shows. The comment on [clone] calls it a deep clone. *)
Lemma clone_shares_nonces token c s l tc :
  map_wf (co_tokens c) -> map_get token (co_tokens c) = Some l -> s !! l = Some tc ->
  let '(n, _, s') := increment_obj token (clone_obj c) s in
  obj_nonce token c s' = Some n /\ obj_nonce token c s = Some (n - 1).
Proof.
  intros Hwf Hl Hs. unfold increment_obj, clone_obj. cbn.
  change (fold_left _ (co_tokens c) []) with (map_of_entries (co_tokens c)).
  rewrite map_of_entries_id, Hl, Hs by exact Hwf. cbn. unfold obj_nonce. rewrite Hl. cbn.
  rewrite lookup_insert_eq, Hs. cbn. split; [done|]. f_equal. lia.
Qed.
