(* ===== verification/PoolSimulator.v ===== *)
(** * The pool simulator ([sdk/src/internal/pool-simulator.ts])

    The compiler's private picture of the pool: the channels of the user, the
    notes they own, and the index of their next channel. [execute] is the
    [switch] of the class; an exception is a value of [sdk_error]. *)
From Stdlib Require Import ZArith Lia.
From stdpp Require Import base tactics list gmap.
From S2P Require Import Prelude JsMap Convert Crypto Interfaces Channel.

Record PoolSimulator : Type := {
  p_channels : AddressMap Channel;
  p_notes : AddressMap (jsmap Z Note);
  p_userAddress : Z;
  p_userViewingKey : Z;
  p_nextChannelIndex : Z }.

Definition new_PoolSimulator (userAddress userViewingKey nextChannelIndex : Z) : PoolSimulator :=
  {| p_channels := new_AddressMap None [];
     p_notes := new_AddressMap (Some (fun _ => [])) [];
     p_userAddress := userAddress;
     p_userViewingKey := userViewingKey;
     p_nextChannelIndex := nextChannelIndex |}.

Definition with_channels (p : PoolSimulator) (c : AddressMap Channel) : PoolSimulator :=
  {| p_channels := c; p_notes := p_notes p; p_userAddress := p_userAddress p;
     p_userViewingKey := p_userViewingKey p; p_nextChannelIndex := p_nextChannelIndex p |}.

Definition with_notes (p : PoolSimulator) (n : AddressMap (jsmap Z Note)) : PoolSimulator :=
  {| p_channels := p_channels p; p_notes := n; p_userAddress := p_userAddress p;
     p_userViewingKey := p_userViewingKey p; p_nextChannelIndex := p_nextChannelIndex p |}.

Definition with_nextChannelIndex (p : PoolSimulator) (i : Z) : PoolSimulator :=
  {| p_channels := p_channels p; p_notes := p_notes p; p_userAddress := p_userAddress p;
     p_userViewingKey := p_userViewingKey p; p_nextChannelIndex := i |}.

(** ** Reading the state *)

(** [channels.get]: the map has no default factory, so a read stores nothing. *)
Definition getChannel (recipient : Z) (p : PoolSimulator) : option Channel :=
  (am_get recipient None (p_channels p)).1.

Definition getNextChannelIndex (p : PoolSimulator) : Z := p_nextChannelIndex p.

(** [notes.get(token)!]: the factory stores an empty map for a new token. *)
Definition notes_get (token : Z) (p : PoolSimulator) : jsmap Z Note * PoolSimulator :=
  let '(m, notes) := am_get token None (p_notes p) in
  (default [] m, with_notes p notes).

Definition hasNote (token noteId : Z) (p : PoolSimulator) : bool * PoolSimulator :=
  let '(m, p) := notes_get token p in (map_has noteId m, p).

(** Writing through the reference to a channel of the map. *)
Definition put_channel (recipient : Z) (c : Channel) (p : PoolSimulator) : PoolSimulator :=
  with_channels p (am_set recipient c (p_channels p)).

(** Writing through the reference to a token's notes. *)
Definition put_notes (token : Z) (m : jsmap Z Note) (p : PoolSimulator) : PoolSimulator :=
  with_notes p (am_set token m (p_notes p)).

(** ** Setting up and exporting *)

Definition setupChannel (recipientAddress : Z) (channel : Channel) (p : PoolSimulator) : PoolSimulator :=
  let c := new_Channel (ch_publicKey channel) (ch_key channel) [] in
  if negb (truthy (ch_key channel)) then put_channel recipientAddress c p
  else put_channel recipientAddress
         (fold_left (fun c e => with_tokens c (am_set e.1 e.2 (ch_tokens c)))
            (am_entries (ch_tokens channel)) c) p.

Definition setupNote (token : Z) (note : Note) (p : PoolSimulator) : result sdk_error PoolSimulator :=
  let '(m, p) := notes_get token p in
  match toBigInt (note_id note) with
  | Some id => Ok (put_notes token (map_set id note m) p)
  | None => Err JsSyntaxError
  end.

Definition updateRegistry (registry : PrivateRegistry) (p : PoolSimulator) : PrivateRegistry :=
  {| reg_channels := fold_left (fun m e => am_set e.1 e.2 m) (am_entries (p_channels p)) (reg_channels registry);
     reg_notes := fold_left (fun m e => am_set e.1 (map_values e.2) m) (am_entries (p_notes p)) (reg_notes registry);
     reg_cursor := reg_cursor registry |}.

(** ** Executing actions *)

Section Execute.
Context `{StarkCrypto}.

Definition handleSetViewingKey (p : PoolSimulator) : result sdk_error PoolSimulator :=
  _ ← js_assert (negb (am_has (p_userAddress p) (p_channels p))) (ChannelAlreadyExists (p_userAddress p));
  Ok (put_channel (p_userAddress p) (new_Channel (derivePublicKey (p_userViewingKey p)) None []) p).

Definition handleOpenChannel (recipient_addr : Z) (p : PoolSimulator) : result sdk_error PoolSimulator :=
  match getChannel recipient_addr p with
  | None => Err (ChannelNotFound recipient_addr)
  | Some existingChannel =>
      let channelKey := compute_channel_key (p_userAddress p) (p_userViewingKey p) recipient_addr
                          (ch_publicKey existingChannel) in
      let p := put_channel recipient_addr (with_key existingChannel (Some channelKey)) p in
      Ok (with_nextChannelIndex p (p_nextChannelIndex p + 1))
  end.

(** A method call on the [undefined] that [channels.get] returned throws a [TypeError]. *)
Definition handleOpenSubchannel (recipient_addr token index : Z) (p : PoolSimulator)
  : result sdk_error PoolSimulator :=
  match getChannel recipient_addr p with
  | None => Err JsTypeError
  | Some channel =>
      Ok (put_channel recipient_addr
            (with_tokens channel
               (am_set token {| tokenIndex := index; noteNonce := 0 |} (ch_tokens channel))) p)
  end.

Definition handleUseNote (token channel_key index : Z) (p : PoolSimulator) : result sdk_error PoolSimulator :=
  let '(tokenNotes, p) := notes_get token p in
  let noteId := compute_note_id channel_key token index in
  Ok (put_notes token (map_delete noteId tokenNotes) p).

(** [senderChannel.incrementNoteNonce(token)]. *)
Definition advanceNonce (recipient_addr token : Z) (p : PoolSimulator) : result sdk_error PoolSimulator :=
  match getChannel recipient_addr p with
  | None => Err JsTypeError
  | Some senderChannel => Ok (put_channel recipient_addr (incrementNoteNonce token senderChannel).2 p)
  end.

Definition handleCreateEncNote (recipient_addr recipient_public_key token amount index salt : Z)
  (p : PoolSimulator) : result sdk_error PoolSimulator :=
  p ← advanceNonce recipient_addr token p;
  if ((recipient_addr =? p_userAddress p) && negb (p_userViewingKey p =? 0))%bool then
    let channelKey := compute_channel_key (p_userAddress p) (p_userViewingKey p) recipient_addr
                        recipient_public_key in
    let noteId := compute_note_id channelKey token index in
    let '(tokenNotes, p) := notes_get token p in
    Ok (put_notes token
          (map_set noteId
             {| note_id := BN_bigint noteId; note_amount := amount; note_created := None;
                note_witness := {| w_channelKey := channelKey; w_nonce := index; w_r := salt |};
                note_sender := p_userAddress p; note_open := None |} tokenNotes) p)
  else Ok p.

Definition handleCreateOpenNote (recipient_addr token : Z) (p : PoolSimulator) : result sdk_error PoolSimulator :=
  advanceNonce recipient_addr token p.

Definition execute (action : ClientAction) (p : PoolSimulator) : result sdk_error PoolSimulator :=
  match action with
  | ASetViewingKey _ => handleSetViewingKey p
  | AOpenChannel recipient_addr _ _ _ => handleOpenChannel recipient_addr p
  | AOpenSubchannel recipient_addr _ _ index token _ => handleOpenSubchannel recipient_addr token index p
  | ADeposit _ _ => Ok p
  | AUseNote channel_key token index => handleUseNote token channel_key index p
  | ACreateEncNote recipient_addr recipient_public_key token amount index salt =>
      handleCreateEncNote recipient_addr recipient_public_key token amount index salt p
  | ACreateOpenNote recipient_addr _ token _ _ => handleCreateOpenNote recipient_addr token p
  | AWithdraw _ _ _ _ => Ok p
  | AInvokeExternal _ _ => Ok p
  | AComputeAndInvoke _ _ _ => Ok p
  end.

(** Executing actions one after the other. *)
Definition execute_all (actions : list ClientAction) (p : PoolSimulator) : result sdk_error PoolSimulator :=
  fold_result (fun p a => execute a p) actions p.
End Execute.

(** ** Invariant *)

(** The maps the constructor makes, and what every operation keeps of them. *)
Definition pool_wf (p : PoolSimulator) : Prop :=
  keyConverter (p_channels p) = (fun k => k) /\ defaultFactory (p_channels p) = None /\
  am_wf (p_channels p) /\
  keyConverter (p_notes p) = (fun k => k) /\ defaultFactory (p_notes p) = Some (fun _ => []) /\
  am_wf (p_notes p) /\
  (forall r c, map_get r (am_map (p_channels p)) = Some c -> channel_wf c) /\
  (forall t m, map_get t (am_map (p_notes p)) = Some m -> map_wf m).

(** The notes the simulator tracks for a token. *)
Definition notes_of (token : Z) (p : PoolSimulator) : jsmap Z Note :=
  default [] (map_get token (am_map (p_notes p))).

Section PoolLemmas.
Context `{StarkCrypto}.

Lemma new_pool_wf u vk n : pool_wf (new_PoolSimulator u vk n).
Proof. split_and!; try done; apply NoDup_nil_2. Qed.

Lemma getChannel_eq r p : pool_wf p -> getChannel r p = map_get r (am_map (p_channels p)).
Proof.
  intros (Hc & Hf & _). unfold getChannel, am_get. rewrite Hc, Hf. cbn. by destruct (map_has _ _).
Qed.

Lemma put_channel_wf r c p : pool_wf p -> channel_wf c -> pool_wf (put_channel r c p).
Proof.
  intros (Hc & Hf & Hw & Hn & Hnf & Hnw & Hch & Hno) Hcw.
  split_and!; try done; cbn.
  - by apply map_set_wf.
  - intros r' c'. rewrite Hc, map_get_set. case_decide; [by intros [= <-]|apply Hch].
Qed.

Lemma put_notes_wf t m p : pool_wf p -> map_wf m -> pool_wf (put_notes t m p).
Proof.
  intros (Hc & Hf & Hw & Hn & Hnf & Hnw & Hch & Hno) Hm.
  split_and!; try done; cbn.
  - by apply map_set_wf.
  - intros t' m'. rewrite Hn, map_get_set. case_decide; [by intros [= <-]|apply Hno].
Qed.

Lemma get_put_channel r r' c p : pool_wf p ->
  map_get r (am_map (p_channels (put_channel r' c p)))
    = if decide (r = r') then Some c else map_get r (am_map (p_channels p)).
Proof. intros (Hc & _). cbn. by rewrite Hc, map_get_set. Qed.

Lemma notes_of_wf t p : pool_wf p -> map_wf (notes_of t p).
Proof.
  intros (_ & _ & _ & _ & _ & _ & _ & Hno). unfold notes_of.
  destruct (map_get t _) as [m|] eqn:Hm; [by apply (Hno t)|apply NoDup_nil_2].
Qed.

Lemma notes_get_eq t p : pool_wf p ->
  notes_get t p = (notes_of t p, if map_has t (am_map (p_notes p)) then p else put_notes t [] p).
Proof.
  intros (_ & _ & _ & Hn & Hnf & _). unfold notes_get, notes_of, put_notes, am_get, am_set. rewrite Hn, Hnf.
  destruct (map_has t (am_map (p_notes p))) eqn:Hh; cbn.
  - f_equal. by destruct p.
  - apply map_has_false in Hh. by rewrite map_get_set_eq, Hh.
Qed.

Lemma notes_get_wf t p : pool_wf p -> pool_wf (notes_get t p).2.
Proof.
  intros Hp. rewrite notes_get_eq by done. cbn. destruct (map_has t _); [done|].
  apply put_notes_wf; [done|apply NoDup_nil_2].
Qed.

Lemma notes_get_user t p : p_userAddress (notes_get t p).2 = p_userAddress p.
Proof. unfold notes_get. by destruct (am_get t None (p_notes p)). Qed.

(** Reading a token's notes and writing them back is one write. *)
Lemma put_notes_get t m p : pool_wf p -> put_notes t m (notes_get t p).2 = put_notes t m p.
Proof.
  intros Hp. rewrite notes_get_eq by done. cbn. destruct (map_has t _); [done|].
  destruct Hp as (_ & _ & _ & Hn & _). unfold put_notes, with_notes, am_set, with_map. cbn.
  by rewrite Hn, map_set_set.
Qed.

Lemma notes_of_put t t' m p : pool_wf p ->
  notes_of t (put_notes t' m p) = if decide (t = t') then m else notes_of t p.
Proof.
  intros (_ & _ & _ & Hn & _). unfold notes_of. cbn. rewrite Hn, map_get_set. by case_decide.
Qed.

Lemma channel_wf_new pk key : channel_wf (new_Channel pk key []).
Proof. split_and!; try done. apply NoDup_nil_2. Qed.

Lemma channel_wf_set t v c : channel_wf c -> channel_wf (with_tokens c (am_set t v (ch_tokens c))).
Proof. intros (Hc & Hf & Hw). split_and!; try done. by apply map_set_wf. Qed.

Lemma channel_wf_key k c : channel_wf c -> channel_wf (with_key c k).
Proof. done. Qed.

(** [setupChannel] copies the channel it is given: everything when the channel is open, the
    public key alone otherwise. *)
Lemma setupChannel_eq r c p : channel_wf c ->
  setupChannel r c p
    = put_channel r (if truthy (ch_key c) then c else new_Channel (ch_publicKey c) (ch_key c) []) p.
Proof.
  intros Hwf. pose proof Hwf as (Hc & Hf & Hw). unfold setupChannel. destruct (truthy (ch_key c)); cbn; [|done].
  f_equal. transitivity (clone_Channel c); [|by apply clone_Channel_id].
  assert (Hgen : forall l c0, fold_left (fun c e => with_tokens c (am_set e.1 e.2 (ch_tokens c))) l c0
            = with_tokens c0 (fold_left (fun m e => am_set e.1 e.2 m) l (ch_tokens c0))).
  { induction l as [|e l IH]; intros c0; cbn; [by destruct c0|]. by rewrite IH. }
  by rewrite Hgen.
Qed.
End PoolLemmas.

(** ** What the simulator promises

    The same transitions on finite maps: per recipient a public key, a key and the
    nonces of the tokens, the notes owned by the user, and the next channel index. *)

Record AChannel : Type := { a_publicKey : Z; a_key : option Z; a_tokens : gmap Z TokenChannel }.

Record APool : Type := {
  a_channels : gmap Z AChannel;
  a_notes : Z -> gmap Z Note;
  a_next : Z }.

Definition abs_channel (c : Channel) : AChannel :=
  {| a_publicKey := ch_publicKey c; a_key := ch_key c; a_tokens := list_to_map (am_map (ch_tokens c)) |}.

Definition abs_pool (p : PoolSimulator) : APool :=
  {| a_channels := abs_channel <$> (list_to_map (am_map (p_channels p)) : gmap Z Channel);
     a_notes := fun t => list_to_map (notes_of t p);
     a_next := p_nextChannelIndex p |}.

(** Two abstract pools that agree on every token's notes. *)
Definition apool_equiv (s1 s2 : APool) : Prop :=
  a_channels s1 = a_channels s2 /\ (forall t, a_notes s1 t = a_notes s2 t) /\ a_next s1 = a_next s2.

Section Spec.
Context `{StarkCrypto} (u vk : Z).

Definition spec_channel (r : Z) (c : AChannel) (s : APool) : APool :=
  {| a_channels := <[r := c]> (a_channels s); a_notes := a_notes s; a_next := a_next s |}.

Definition spec_notes (t : Z) (f : gmap Z Note -> gmap Z Note) (s : APool) : APool :=
  {| a_channels := a_channels s;
     a_notes := fun t' => if decide (t' = t) then f (a_notes s t) else a_notes s t';
     a_next := a_next s |}.

(** One more note to a recipient. *)
Definition spec_advance (t : Z) (c : AChannel) : AChannel :=
  let tc := default default_TokenChannel (a_tokens c !! t) in
  {| a_publicKey := a_publicKey c; a_key := a_key c;
     a_tokens := <[t := {| tokenIndex := tokenIndex tc; noteNonce := noteNonce tc + 1 |}]> (a_tokens c) |}.

(** The note the user sends to themselves. *)
Definition self_note (pk t amount index salt : Z) : Z * Note :=
  let channelKey := compute_channel_key u vk u pk in
  let noteId := compute_note_id channelKey t index in
  (noteId, {| note_id := BN_bigint noteId; note_amount := amount; note_created := None;
              note_witness := {| w_channelKey := channelKey; w_nonce := index; w_r := salt |};
              note_sender := u; note_open := None |}).

Definition spec_execute (action : ClientAction) (s : APool) : option APool :=
  match action with
  | ASetViewingKey _ =>
      match a_channels s !! u with
      | Some _ => None
      | None => Some (spec_channel u {| a_publicKey := derivePublicKey vk; a_key := None; a_tokens := ∅ |} s)
      end
  | AOpenChannel r _ _ _ =>
      c ← a_channels s !! r;
      Some {| a_channels := <[r := {| a_publicKey := a_publicKey c;
                                      a_key := Some (compute_channel_key u vk r (a_publicKey c));
                                      a_tokens := a_tokens c |}]> (a_channels s);
              a_notes := a_notes s; a_next := a_next s + 1 |}
  | AOpenSubchannel r _ _ index t _ =>
      c ← a_channels s !! r;
      Some (spec_channel r {| a_publicKey := a_publicKey c; a_key := a_key c;
                              a_tokens := <[t := {| tokenIndex := index; noteNonce := 0 |}]> (a_tokens c) |} s)
  | ACreateEncNote r pk t amount index salt =>
      c ← a_channels s !! r;
      let s := spec_channel r (spec_advance t c) s in
      Some (if decide (r = u /\ vk <> 0)
            then let '(id, note) := self_note pk t amount index salt in spec_notes t <[id := note]> s
            else s)
  | ACreateOpenNote r _ t _ _ => c ← a_channels s !! r; Some (spec_channel r (spec_advance t c) s)
  | AUseNote channel_key t index => Some (spec_notes t (delete (compute_note_id channel_key t index)) s)
  | ADeposit _ _ | AWithdraw _ _ _ _ | AInvokeExternal _ _ | AComputeAndInvoke _ _ _ => Some s
  end.

Definition spec_execute_all (actions : list ClientAction) (s : APool) : option APool :=
  foldl (fun s a => s ≫= spec_execute a) (Some s) actions.
End Spec.

(** ** The simulator keeps its promise *)

Section Refinement.
Context `{StarkCrypto}.

#[export] Instance apool_equiv_equivalence : Equivalence apool_equiv.
Proof.
  split.
  - by intros s.
  - by intros s1 s2 (? & ? & ?).
  - intros s1 s2 s3 (H1 & H2 & H3) (H4 & H5 & H6). split_and!; [congruence| |congruence].
    intros t. by rewrite H2.
Qed.

Lemma abs_lookup r p : pool_wf p -> a_channels (abs_pool p) !! r = abs_channel <$> getChannel r p.
Proof. intros Hp. rewrite getChannel_eq by done. cbn. by rewrite lookup_fmap, lookup_list_to_map_get. Qed.

Lemma abs_put_channel r c p : pool_wf p ->
  abs_pool (put_channel r c p) = spec_channel r (abs_channel c) (abs_pool p).
Proof.
  intros (Hc & _). unfold abs_pool, spec_channel. cbn. by rewrite Hc, list_to_map_set, fmap_insert.
Qed.

Lemma abs_put_notes t f m p : pool_wf p -> list_to_map m = f (list_to_map (notes_of t p) : gmap Z Note) ->
  apool_equiv (abs_pool (put_notes t m p)) (spec_notes t f (abs_pool p)).
Proof.
  intros Hp Hm. split_and!; try done. intros t'. unfold abs_pool, spec_notes. cbn [a_notes].
  rewrite notes_of_put by done. by case_decide.
Qed.

Lemma abs_advance t c : channel_wf c -> abs_channel (incrementNoteNonce t c).2 = spec_advance t (abs_channel c).
Proof.
  intros Hc. rewrite increment_eq by done. unfold abs_channel, spec_advance, entry_of. cbn.
  by rewrite list_to_map_set, lookup_list_to_map_get.
Qed.

Lemma abs_subchannel t v c : channel_wf c ->
  abs_channel (with_tokens c (am_set t v (ch_tokens c)))
    = {| a_publicKey := ch_publicKey c; a_key := ch_key c;
         a_tokens := <[t := v]> (list_to_map (am_map (ch_tokens c))) |}.
Proof. intros (Hc & _). unfold abs_channel. cbn. by rewrite Hc, list_to_map_set. Qed.

Lemma getChannel_wf r c p : pool_wf p -> getChannel r p = Some c -> channel_wf c.
Proof. intros Hp. rewrite getChannel_eq by done. destruct Hp as (_ & _ & _ & _ & _ & _ & Hch & _). apply Hch. Qed.

(** [spec_execute] reads only what [apool_equiv] compares. *)
Lemma spec_execute_equiv u vk a s1 s2 :
  apool_equiv s1 s2 -> option_Forall2 apool_equiv (spec_execute u vk a s1) (spec_execute u vk a s2).
Proof.
  destruct s1 as [c1 n1 i1], s2 as [c2 n2 i2]. intros (Hc & Hn & Hi). cbn in *. subst c2 i2.
  assert (Hnotes : forall c t f, apool_equiv (spec_notes t f {| a_channels := c; a_notes := n1; a_next := i1 |})
                                  (spec_notes t f {| a_channels := c; a_notes := n2; a_next := i1 |})).
  { intros c t f. split_and!; try done. intros t'. cbn. rewrite Hn. by case_decide. }
  destruct a; cbn; try by constructor.
  all: try (constructor; apply Hnotes).
  all: destruct (c1 !! _); cbn; constructor; try case_decide; first [by split_and!|apply Hnotes].
Qed.

(** What a step and its specification have in common. *)
Definition refines_step (p : PoolSimulator) (r : result sdk_error PoolSimulator) (s : option APool) : Prop :=
  match r, s with
  | Ok p', Some s' =>
      pool_wf p' /\ apool_equiv (abs_pool p') s' /\
      p_userAddress p' = p_userAddress p /\ p_userViewingKey p' = p_userViewingKey p
  | Err _, None => True
  | _, _ => False
  end.

Lemma put_channel_refines r c s p : pool_wf p -> channel_wf c -> s = abs_channel c ->
  refines_step p (Ok (put_channel r c p)) (Some (spec_channel r s (abs_pool p))).
Proof. intros Hp Hc ->. split_and!; try done; [by apply put_channel_wf|]. by rewrite abs_put_channel. Qed.

Lemma put_notes_refines t f m p : pool_wf p -> map_wf m ->
  list_to_map m = f (list_to_map (notes_of t p) : gmap Z Note) ->
  refines_step p (Ok (put_notes t m (notes_get t p).2)) (Some (spec_notes t f (abs_pool p))).
Proof.
  intros Hp Hm Hf. rewrite put_notes_get by done.
  split_and!; try done; [by apply put_notes_wf|by apply abs_put_notes].
Qed.

Lemma advance_refines r t p : pool_wf p ->
  refines_step p (advanceNonce r t p)
    (c ← a_channels (abs_pool p) !! r; Some (spec_channel r (spec_advance t c) (abs_pool p))).
Proof.
  intros Hp. rewrite abs_lookup by done. unfold advanceNonce.
  destruct (getChannel r p) as [c|] eqn:Hc; [|done]. pose proof (getChannel_wf r c p Hp Hc).
  apply put_channel_refines; [done|by apply increment_wf|by rewrite abs_advance].
Qed.

Lemma open_channel_refines r p : pool_wf p ->
  refines_step p (handleOpenChannel r p)
    (spec_execute (p_userAddress p) (p_userViewingKey p) (AOpenChannel r 0 0 0) (abs_pool p)).
Proof.
  intros Hp. unfold spec_execute. rewrite abs_lookup by done. unfold handleOpenChannel.
  destruct (getChannel r p) as [c|] eqn:Hc; [|done]. pose proof (getChannel_wf r c p Hp Hc).
  destruct (put_channel_refines r (with_key c (Some (compute_channel_key (p_userAddress p)
    (p_userViewingKey p) r (ch_publicKey c)))) _ p Hp ltac:(by apply channel_wf_key) eq_refl) as (Hw & (Hch & _) & _).
  split_and!; done.
Qed.

Lemma create_enc_refines r pk t amount index salt p : pool_wf p ->
  refines_step p (handleCreateEncNote r pk t amount index salt p)
    (spec_execute (p_userAddress p) (p_userViewingKey p) (ACreateEncNote r pk t amount index salt) (abs_pool p)).
Proof.
  intros Hp. pose proof (advance_refines r t p Hp) as Ha. unfold handleCreateEncNote, spec_execute.
  destruct (advanceNonce r t p) as [p1|e]; destruct (a_channels (abs_pool p) !! r) as [c|]; try done.
  cbn [mbind option_bind result_bind] in *. destruct Ha as (Hw & He & Hu & Hv). rewrite Hu, Hv.
  set (s1 := spec_channel r (spec_advance t c) (abs_pool p)) in *.
  destruct (Z.eqb_spec r (p_userAddress p)) as [->|Hne], (Z.eqb_spec (p_userViewingKey p) 0) as [Hz|Hz];
    cbn [andb negb]; try (rewrite decide_False by tauto; by split_and!).
  rewrite decide_True by tauto. unfold self_note.
  pose proof (notes_get_eq t p1 Hw) as Hg. destruct (notes_get t p1) as [m p2] eqn:Hng.
  injection Hg as -> Hp2. replace p2 with (notes_get t p1).2 by (by rewrite Hng).
  rewrite notes_get_user, Hu.
  match goal with |- refines_step p (Ok (put_notes t (map_set ?id ?n _) _)) _ =>
    destruct (put_notes_refines t <[id := n]> (map_set id n (notes_of t p1)) p1) as (Hw' & He' & Hu' & Hv')
  end; [done|by apply map_set_wf, notes_of_wf|by rewrite list_to_map_set|].
  split_and!; [done| |congruence|congruence]. etrans; [exact He'|].
  destruct He as (Hch & Hno & Hi). split_and!; [done| |done].
  intros t'. unfold spec_notes. cbn [a_notes]. by rewrite !Hno.
Qed.

Lemma execute_refines a p : pool_wf p ->
  refines_step p (execute a p) (spec_execute (p_userAddress p) (p_userViewingKey p) a (abs_pool p)).
Proof.
  intros Hp. destruct a as [?|r i ra sa|r pk k i t sa|r pk t am i sa|r pk t i ra|t am|k t i|to t am ra|ca cd|ca c1 c2].
  all: try by split_and!.
  - cbn [execute spec_execute]. rewrite abs_lookup, getChannel_eq by done. unfold handleSetViewingKey, am_has.
    pose proof Hp as (Hc & _). rewrite Hc. unfold map_has.
    destruct (map_get (p_userAddress p) (am_map (p_channels p))); [done|].
    by apply put_channel_refines; [|apply channel_wf_new|].
  - by apply open_channel_refines.
  - cbn [execute spec_execute]. rewrite abs_lookup by done. unfold handleOpenSubchannel.
    destruct (getChannel r p) as [c|] eqn:Hc; [|done]. pose proof (getChannel_wf r c p Hp Hc).
    apply put_channel_refines; [done|by apply channel_wf_set|by rewrite abs_subchannel].
  - by apply create_enc_refines.
  - by apply advance_refines.
  - cbn [execute spec_execute]. unfold handleUseNote.
    pose proof (notes_get_eq t p Hp) as Hg. destruct (notes_get t p) as [m p2] eqn:Hng.
    injection Hg as -> Hp2. replace p2 with (notes_get t p).2 by (by rewrite Hng).
    apply put_notes_refines; [done|by apply map_delete_wf, notes_of_wf|].
    by apply list_to_map_delete, notes_of_wf.
Qed.
Lemma spec_execute_all_None u vk actions :
  foldl (fun s a => s ≫= spec_execute u vk a) None actions = None.
Proof. induction actions; cbn; auto. Qed.

Lemma execute_all_refines actions p s : pool_wf p -> apool_equiv (abs_pool p) s ->
  refines_step p (execute_all actions p)
    (spec_execute_all (p_userAddress p) (p_userViewingKey p) actions s).
Proof.
  unfold execute_all, spec_execute_all. revert p s. induction actions as [|a actions IH]; intros p s Hp Hs; [done|].
  cbn [fold_result foldl]. pose proof (execute_refines a p Hp) as Hr.
  pose proof (spec_execute_equiv (p_userAddress p) (p_userViewingKey p) a _ _ Hs) as Heq. cbn [mbind option_bind].
  destruct (execute a p) as [p1|e], (spec_execute _ _ a (abs_pool p)) as [s1|]; try done.
  - destruct Hr as (Hw & He & Hu & Hv). inversion Heq as [? s2 Hs2 Hx Hy|]; subst.
    cbn [mbind result_bind]. rewrite <- Hu, <- Hv.
    specialize (IH p1 s2 Hw ltac:(by etrans)). unfold refines_step in *.
    destruct (fold_result _ actions p1), (foldl _ (Some s2) actions); try done.
    destruct IH as (? & ? & ? & ?). split_and!; [done|done|congruence|congruence].
  - inversion Heq. cbn. by rewrite spec_execute_all_None.
Qed.

(** C23: executing a list of actions on a well-formed simulator returns exactly when the list is
    allowed by the transition system on finite maps, and the state it returns is well-formed and
    stands for the state of that system: the ordered maps, the default factories and the shared
    references of the class add nothing to it. *)
Theorem simulator_refines_spec (actions : list ClientAction) (p : PoolSimulator) :
  pool_wf p ->
  match execute_all actions p,
        spec_execute_all (p_userAddress p) (p_userViewingKey p) actions (abs_pool p) with
  | Ok p', Some s' => pool_wf p' /\ apool_equiv (abs_pool p') s'
  | Err _, None => True
  | _, _ => False
  end.
Proof.
  intros Hp. pose proof (execute_all_refines actions p _ Hp (reflexivity (abs_pool p))) as Hr. unfold refines_step in Hr.
  destruct (execute_all actions p), (spec_execute_all _ _ actions _); try done. tauto.
Qed.
End Refinement.

Lemma simulator_refines_spec_witness :
  let p := @new_PoolSimulator 1 2 0 in
  pool_wf p /\
  match @execute_all toy_crypto [ASetViewingKey 0; AOpenChannel 1 0 0 0; AUseNote 9 7 0] p,
        @spec_execute_all toy_crypto 1 2 [ASetViewingKey 0; AOpenChannel 1 0 0 0; AUseNote 9 7 0] (abs_pool p) with
  | Ok p', Some s' => pool_wf p' /\ apool_equiv (abs_pool p') s'
  | Err _, None => True
  | _, _ => False
  end.
Proof.
  split; [apply new_pool_wf|].
  apply (@simulator_refines_spec toy_crypto [ASetViewingKey 0; AOpenChannel 1 0 0 0; AUseNote 9 7 0]
           (new_PoolSimulator 1 2 0)). apply new_pool_wf.
Defined.
