(* ===== verification/ResolveNotes.v ===== *)
(** * Balancing a batch ([resolveNotes] of [sdk/src/internal/compiler.ts])

    The compiler adds up what a batch of actions puts in and takes out of each
    token, covers deficits with notes of the registry, and turns surpluses into
    change. The actions and the registry are objects the function writes to: they
    are the state of a computation that may throw. *)
From Stdlib Require Import ZArith Lia.
From stdpp Require Import base tactics list strings.
From S2P Require Import Prelude JsMap Convert Interfaces.

Section ResolveNotes.
Context `{DiscoveryProvider}.

(** What [resolveNotes] writes to: its two arguments and the outside world. *)
Record ResolveState : Type := {
  rs_actions : Actions;
  rs_registry : PrivateRegistry;
  rs_world : dp_world }.

Definition resolving (A : Type) : Type := stateE ResolveState sdk_error A.

(** Writing one field of the actions. *)
Definition set_useNotes (l : list UseNoteAction) (a : Actions) : Actions :=
  {| setViewingKey := setViewingKey a; openChannels := openChannels a;
     openTokenChannels := openTokenChannels a; deposits := deposits a; useNotes := Some l;
     createNotes := createNotes a; withdraws := withdraws a; surpluses := surpluses a;
     invoke := invoke a; computeAndInvoke := computeAndInvoke a |}.
Definition set_createNotes (l : list CreateNoteAction) (a : Actions) : Actions :=
  {| setViewingKey := setViewingKey a; openChannels := openChannels a;
     openTokenChannels := openTokenChannels a; deposits := deposits a; useNotes := useNotes a;
     createNotes := Some l; withdraws := withdraws a; surpluses := surpluses a;
     invoke := invoke a; computeAndInvoke := computeAndInvoke a |}.
Definition set_withdraws (l : list WithdrawAction) (a : Actions) : Actions :=
  {| setViewingKey := setViewingKey a; openChannels := openChannels a;
     openTokenChannels := openTokenChannels a; deposits := deposits a; useNotes := useNotes a;
     createNotes := createNotes a; withdraws := Some l; surpluses := surpluses a;
     invoke := invoke a; computeAndInvoke := computeAndInvoke a |}.
Definition set_surpluses (l : list SurplusAction) (a : Actions) : Actions :=
  {| setViewingKey := setViewingKey a; openChannels := openChannels a;
     openTokenChannels := openTokenChannels a; deposits := deposits a; useNotes := useNotes a;
     createNotes := createNotes a; withdraws := withdraws a; surpluses := Some l;
     invoke := invoke a; computeAndInvoke := computeAndInvoke a |}.

Definition modify_actions (f : Actions -> Actions) : resolving unit :=
  st_modify (fun s => {| rs_actions := f (rs_actions s); rs_registry := rs_registry s; rs_world := rs_world s |}).

Definition modify_registry (f : PrivateRegistry -> PrivateRegistry) : resolving unit :=
  st_modify (fun s => {| rs_actions := rs_actions s; rs_registry := f (rs_registry s); rs_world := rs_world s |}).

(** [registry.notes.get(token) ?? []]: the registry's factory may store an empty list. *)
Definition registry_notes (token : Z) : resolving (list Note) := fun s =>
  let r := rs_registry s in
  let '(v, notes) := am_get token None (reg_notes r) in
  (Ok (default [] v),
   {| rs_actions := rs_actions s;
      rs_registry := {| reg_channels := reg_channels r; reg_notes := notes; reg_cursor := reg_cursor r |};
      rs_world := rs_world s |}).

(** ** The balances *)

(** The local function [update]. *)
Definition update (token amount : Z) (balances : AddressMap Z) : AddressMap Z :=
  let '(current, balances) := am_get token None balances in
  am_set token (default 0 current + amount) balances.

Definition add_deposit (balances : AddressMap Z) (d : DepositAction) : result sdk_error (AddressMap Z) :=
  _ ← js_assert (0 <? dep_amount d) AmountNotPositive;
  Ok (match dep_noteId d with None => update (dep_token d) (dep_amount d) balances | Some _ => balances end).

Definition add_useNote (balances : AddressMap Z) (u : UseNoteAction) : result sdk_error (AddressMap Z) :=
  _ ← js_assert (0 <? note_amount (un_note u)) AmountNotPositive;
  Ok (update (un_token u) (note_amount (un_note u)) balances).

Definition add_withdraw (balances : AddressMap Z) (w : WithdrawAction) : result sdk_error (AddressMap Z) :=
  _ ← js_assert (0 <? wd_amount w) AmountNotPositive;
  Ok (update (wd_token w) (- wd_amount w) balances).

Definition add_createNote (balances : AddressMap Z) (c : CreateNoteAction) : result sdk_error (AddressMap Z) :=
  match cn_amount c with
  | Open => Ok balances
  | AnAmount amount =>
      _ ← js_assert (0 <? amount) AmountNotPositive;
      Ok (update (cn_token c) (- amount) balances)
  end.

Definition action_balances (actions : Actions) : result sdk_error (AddressMap Z) :=
  b ← fold_result add_deposit (elems (deposits actions)) (new_AddressMap (Some (fun _ => 0)) []);
  b ← fold_result add_useNote (elems (useNotes actions)) b;
  b ← fold_result add_withdraw (elems (withdraws actions)) b;
  fold_result add_createNote (elems (createNotes actions)) b.

(** [usedNoteIds], keyed by the spelling of the ids. *)
Definition used_note_ids (actions : Actions) : AdvancedMap BigNumberish bool string :=
  fold_left (fun m u => am_set (note_id (un_note u)) true m) (elems (useNotes actions)) (am_new js_String None []).

(** ** Discovery *)

(** [tokensToDiscover]; [None] asks for every token. *)
Definition tokensToDiscover (level : NotesDiscoveryLevel) (options : ExecuteOptions) (actions : Actions)
  (registry : PrivateRegistry) (balances : AddressMap Z) : option (list Z) :=
  match level with
  | NotesAll => None
  | NotesLevel l =>
      Some (map fst (filter (fun e =>
        (((e.2 <? 0) ||
          (bool_decide (autoSelectNotes options = Some SelectAll) &&
           existsb (fun s => sp_token s =? e.1) (elems (surpluses actions)))) &&
         (bool_decide (l = refresh) || negb (am_has e.1 (reg_notes registry))))%bool = true)
        (am_entries balances)))
  end.

Definition discover_into_registry (userAddress userViewingKey : Z) (options : ExecuteOptions)
  (tokens : option (list Z)) : resolving unit := fun s =>
  let r := rs_registry s in
  let '(res, w) := discoverNotes userAddress userViewingKey (reg_cursor r) tokens (provingBlockId options) (rs_world s) in
  match res with
  | Err e => (Err e, {| rs_actions := rs_actions s; rs_registry := r; rs_world := w |})
  | Ok (notes, cursor) =>
      (Ok tt,
       {| rs_actions := rs_actions s;
          rs_registry :=
            {| reg_channels := reg_channels r;
               reg_notes := fold_left (fun m e => am_set e.1 e.2 m) (am_entries notes) (reg_notes r);
               reg_cursor := Some cursor |};
          rs_world := w |})
  end.

Definition discover_notes (userAddress userViewingKey : Z) (options : ExecuteOptions)
  (balances : AddressMap Z) : resolving unit :=
  match autoDiscover_notes options with
  | None => mret tt
  | Some level =>
      s ← st_get;
      match tokensToDiscover level options (rs_actions s) (rs_registry s) balances with
      | Some [] => mret tt
      | tokens => discover_into_registry userAddress userViewingKey options tokens
      end
  end.

(** ** Selection *)

(** [sort((a, b) => Number(b.amount - a.amount))]: stable, largest first. *)
Fixpoint insert_note (n : Note) (l : list Note) : list Note :=
  match l with
  | [] => [n]
  | m :: l => if note_amount n <? note_amount m then m :: insert_note n l else n :: m :: l
  end.
Definition sort_notes (l : list Note) : list Note := foldr insert_note [] l.

(** The loop over the sorted notes: what it pushes and the balance it leaves. *)
Fixpoint select_notes (all : bool) (used : AdvancedMap BigNumberish bool string) (notes : list Note) (balance : Z)
  : list Note * Z :=
  match notes with
  | [] => ([], balance)
  | note :: notes =>
      if am_has (note_id note) used then select_notes all used notes balance
      else
        let balance := balance + note_amount note in
        if ((0 <=? balance) && negb all)%bool then ([note], balance)
        else let '(picked, balance) := select_notes all used notes balance in (note :: picked, balance)
  end.

(** ** Deficit and surplus of one token *)

Definition push_useNotes (token : Z) (notes : list Note) (a : Actions) : Actions :=
  set_useNotes (elems (useNotes a) ++ map (fun n => {| un_token := token; un_note := n |}) notes) a.

(** The surplus action of a token: the batch's, or the user themselves for a deposited token. *)
Definition find_surplus (userAddress token balance : Z) : resolving SurplusAction :=
  s ← st_get;
  let actions := rs_actions s in
  match find (fun sp => sp_token sp =? token) (elems (surpluses actions)) with
  | Some surplusAction => mret surplusAction
  | None =>
      if existsb (fun d => dep_token d =? token) (elems (deposits actions)) then
        let surplusAction := {| sp_recipient := userAddress; sp_token := token; sp_withdraw := Some false |} in
        _ ← modify_actions (fun a => set_surpluses (elems (surpluses a) ++ [surplusAction]) a);
        mret surplusAction
      else st_throw (SurplusWithoutAction balance token)
  end.

Definition settle_surplus (userAddress token balance : Z) : resolving unit :=
  surplusAction ← find_surplus userAddress token balance;
  if default false (sp_withdraw surplusAction) then
    modify_actions (fun a => set_withdraws (elems (withdraws a) ++
      [{| wd_recipient := sp_recipient surplusAction; wd_token := token; wd_amount := balance |}]) a)
  else
    modify_actions (fun a => set_createNotes (elems (createNotes a) ++
      [{| cn_recipient := sp_recipient surplusAction; cn_token := token; cn_amount := AnAmount balance |}]) a).

(** The condition under which notes are selected for a token. *)
Definition selects (options : ExecuteOptions) (balance : Z) : bool :=
  ((balance <? 0) && bool_decide (autoSelectNotes options <> None)) ||
  bool_decide (autoSelectNotes options = Some SelectAll).

Definition cover_deficit (options : ExecuteOptions) (used : AdvancedMap BigNumberish bool string)
  (token balance : Z) : resolving Z :=
  if selects options balance then
    availableNotes ← registry_notes token;
    let '(picked, balance) :=
      select_notes (bool_decide (autoSelectNotes options = Some SelectAll)) used (sort_notes availableNotes) balance in
    _ ← modify_actions (push_useNotes token picked);
    mret balance
  else mret balance.

(** The body of the loop over [balances.keys()]. *)
Definition resolve_token (userAddress : Z) (options : ExecuteOptions)
  (used : AdvancedMap BigNumberish bool string) (e : Z * Z) : resolving unit :=
  let '(token, balance) := e in
  balance ← cover_deficit options used token balance;
  if balance <? 0 then
    notes ← registry_notes token;
    st_throw (InsufficientBalance token (- balance) (sumZ note_amount notes))
  else if 0 <? balance then settle_surplus userAddress token balance
  else mret tt.

Definition resolveNotes (userAddress userViewingKey : Z) (options : ExecuteOptions) : resolving unit :=
  s ← st_get;
  if (bool_decide (surpluses (rs_actions s) = None) && bool_decide (autoSelectNotes options = None))%bool then mret tt
  else
    balances ← st_lift (action_balances (rs_actions s));
    _ ← discover_notes userAddress userViewingKey options balances;
    st_for (am_entries balances) (resolve_token userAddress options (used_note_ids (rs_actions s))).
End ResolveNotes.

(** ** What a batch adds up to *)

Definition at_token (token t amount : Z) : Z := if t =? token then amount else 0.

Definition deposit_value (token : Z) (d : DepositAction) : Z :=
  match dep_noteId d with None => at_token token (dep_token d) (dep_amount d) | Some _ => 0 end.
Definition use_value (token : Z) (u : UseNoteAction) : Z := at_token token (un_token u) (note_amount (un_note u)).
Definition withdraw_value (token : Z) (w : WithdrawAction) : Z := at_token token (wd_token w) (wd_amount w).
Definition create_value (token : Z) (c : CreateNoteAction) : Z :=
  match cn_amount c with Open => 0 | AnAmount amount => at_token token (cn_token c) amount end.

(** The inputs of a token minus its outputs: deposits to open notes and open notes cancel out. *)
Definition net (token : Z) (a : Actions) : Z :=
  sumZ (deposit_value token) (elems (deposits a)) + sumZ (use_value token) (elems (useNotes a))
  - sumZ (withdraw_value token) (elems (withdraws a)) - sumZ (create_value token) (elems (createNotes a)).

Definition balance_of (token : Z) (b : AddressMap Z) : Z := default 0 (map_get token (am_map b)).

Definition balances_wf (b : AddressMap Z) : Prop :=
  keyConverter b = (fun k => k) /\ defaultFactory b = Some (fun _ => 0) /\ am_wf b.

Lemma update_spec token amount b : balances_wf b ->
  balances_wf (update token amount b) /\
  forall t, balance_of t (update token amount b) = balance_of t b + at_token t token amount.
Proof.
  intros (Hc & Hf & Hw). unfold update, am_get, am_set, balance_of, at_token. rewrite Hc, Hf. cbn.
  destruct (map_has token (am_map b)) eqn:Hh; cbn; rewrite ?Hc.
  - split; [split_and!; [done|done|by apply map_set_wf]|].
    intros t. rewrite map_get_set. unfold map_has in Hh.
    destruct (Z.eqb_spec token t) as [->|]; case_decide; subst; cbn; try done; lia.
  - rewrite map_set_set. split; [split_and!; [done|done|by apply map_set_wf]|].
    intros t. apply map_has_false in Hh. rewrite map_get_set_eq, map_get_set.
    destruct (Z.eqb_spec token t) as [->|]; case_decide; subst; rewrite ?Hh; cbn; try done; lia.
Qed.

(** A loop whose body adds a value to the balances. *)
Lemma fold_balances {A} (f : AddressMap Z -> A -> result sdk_error (AddressMap Z)) (value : Z -> A -> Z) l b b' :
  (forall b x b', balances_wf b -> f b x = Ok b' ->
     balances_wf b' /\ forall t, balance_of t b' = balance_of t b + value t x) ->
  balances_wf b -> fold_result f l b = Ok b' ->
  balances_wf b' /\ forall t, balance_of t b' = balance_of t b + sumZ (value t) l.
Proof.
  intros Hf. revert b. induction l as [|x l IH]; cbn; intros b Hb Hrun.
  - res_simpl. split; [done|]. intros t. lia.
  - destruct (f b x) as [b1|] eqn:H1; [|done]. cbn in Hrun.
    destruct (Hf _ _ _ Hb H1) as [Hb1 Hv]. destruct (IH _ Hb1 Hrun) as [Hb' Hv']. split; [done|].
    intros t. rewrite Hv', Hv. lia.
Qed.

Lemma add_deposit_spec b d b' : balances_wf b -> add_deposit b d = Ok b' ->
  balances_wf b' /\ forall t, balance_of t b' = balance_of t b + deposit_value t d.
Proof.
  unfold add_deposit, deposit_value. intros Hb Hrun. destruct (js_assert _ _); [|done]. cbn in Hrun.
  injection Hrun as <-. destruct (dep_noteId d); [|by apply update_spec]. split; [done|]. intros t. lia.
Qed.

Lemma add_useNote_spec b u b' : balances_wf b -> add_useNote b u = Ok b' ->
  balances_wf b' /\ forall t, balance_of t b' = balance_of t b + use_value t u.
Proof.
  unfold add_useNote. intros Hb Hrun. destruct (js_assert _ _); [|done]. cbn in Hrun.
  injection Hrun as <-. by apply update_spec.
Qed.

Lemma at_token_opp token t amount : at_token token t (- amount) = - at_token token t amount.
Proof. unfold at_token. by destruct (t =? token). Qed.

Lemma add_withdraw_spec b w b' : balances_wf b -> add_withdraw b w = Ok b' ->
  balances_wf b' /\ forall t, balance_of t b' = balance_of t b + - withdraw_value t w.
Proof.
  unfold add_withdraw, withdraw_value. intros Hb Hrun. destruct (js_assert _ _); [|done]. cbn in Hrun.
  injection Hrun as <-. destruct (update_spec (wd_token w) (- wd_amount w) b Hb) as [Hw Hv].
  split; [done|]. intros t. by rewrite Hv, at_token_opp.
Qed.

Lemma add_createNote_spec b c b' : balances_wf b -> add_createNote b c = Ok b' ->
  balances_wf b' /\ forall t, balance_of t b' = balance_of t b + - create_value t c.
Proof.
  unfold add_createNote, create_value. intros Hb Hrun. destruct (cn_amount c) as [amount|].
  - destruct (js_assert _ _); [|done]. cbn in Hrun. injection Hrun as <-.
    destruct (update_spec (cn_token c) (- amount) b Hb) as [Hw Hv].
    split; [done|]. intros t. by rewrite Hv, at_token_opp.
  - injection Hrun as <-. split; [done|]. intros t. lia.
Qed.

Lemma sumZ_opp {A} (f : A -> Z) l : sumZ (fun x => - f x) l = - sumZ f l.
Proof. induction l; cbn; lia. Qed.

(** The balances of a batch are its net values. *)
Lemma action_balances_net a b : action_balances a = Ok b ->
  balances_wf b /\ forall t, balance_of t b = net t a.
Proof.
  unfold action_balances. intros Hrun.
  assert (H0 : balances_wf (new_AddressMap (Some (fun _ => 0)) [])) by (split_and!; try done; apply NoDup_nil_2).
  destruct (fold_result add_deposit _ _) as [b1|] eqn:H1; [|done]. cbn [mbind result_bind] in Hrun.
  destruct (fold_result add_useNote _ _) as [b2|] eqn:H2; [|done]. cbn [mbind result_bind] in Hrun.
  destruct (fold_result add_withdraw _ _) as [b3|] eqn:H3; [|done]. cbn [mbind result_bind] in Hrun.
  destruct (fold_balances _ _ _ _ _ add_deposit_spec H0 H1) as [Hw1 Hv1].
  destruct (fold_balances _ _ _ _ _ add_useNote_spec Hw1 H2) as [Hw2 Hv2].
  destruct (fold_balances _ (fun t w => - withdraw_value t w) _ _ _ add_withdraw_spec Hw2 H3) as [Hw3 Hv3].
  destruct (fold_balances _ (fun t c => - create_value t c) _ _ _ add_createNote_spec Hw3 Hrun) as [Hw4 Hv4].
  split; [done|]. intros t. rewrite Hv4, Hv3, Hv2, Hv1, !sumZ_opp. unfold net. cbn. lia.
Qed.

(** ** Selection *)

Definition unused (used : AdvancedMap BigNumberish bool string) (notes : list Note) : list Note :=
  filter (fun n => am_has (note_id n) used = false) notes.

Lemma select_notes_sum all used notes b :
  let '(picked, b') := select_notes all used notes b in b' = b + sumZ note_amount picked.
Proof.
  revert b. induction notes as [|n notes IH]; cbn; intros b; [lia|].
  destruct (am_has (note_id n) used); [apply IH|].
  destruct ((0 <=? b + note_amount n) && negb all)%bool; cbn; [lia|].
  specialize (IH (b + note_amount n)). destruct (select_notes all used notes _) as [picked b']. cbn. lia.
Qed.

(** What is picked is a prefix of the unused notes: all of them, unless a shorter prefix covers the
    deficit. *)
Lemma select_notes_prefix all used notes b picked b' :
  select_notes all used notes b = (picked, b') ->
  exists rest, unused used notes = picked ++ rest /\ (rest = [] \/ (0 <= b' /\ all = false)).
Proof.
  unfold unused. revert b picked b'. induction notes as [|n notes IH]; cbn [select_notes]; intros b picked b' Hrun.
  - injection Hrun as <- <-. exists []. by split; [|left].
  - destruct (am_has (note_id n) used) eqn:Hu.
    + rewrite filter_cons_False by congruence. by apply (IH b).
    + rewrite filter_cons_True by done.
      destruct ((0 <=? b + note_amount n) && negb all)%bool eqn:Hstop.
      * injection Hrun as <- <-. split_bool. exists (filter (fun n => am_has (note_id n) used = false) notes).
        split; [done|right; by split].
      * destruct (select_notes all used notes _) as [p b1] eqn:Hs. injection Hrun as <- <-.
        destruct (IH _ _ _ Hs) as (rest & -> & Hrest). by exists rest.
Qed.

(** Naive selection stops at the first prefix that covers the deficit. *)
Lemma select_notes_naive used notes b picked b' q n :
  select_notes false used notes b = (picked, b') -> b < 0 -> picked = q ++ [n] -> b + sumZ note_amount q < 0.
Proof.
  revert b picked b' q. induction notes as [|m notes IH]; cbn [select_notes]; intros b picked b' q Hrun Hb Hq.
  - injection Hrun as <- _. by destruct q.
  - destruct (am_has (note_id m) used); [by apply (IH b picked b')|].
    destruct ((0 <=? b + note_amount m) && negb false)%bool eqn:Hstop.
    + injection Hrun as <- _. destruct q as [|m' q]; [cbn; lia|]. injection Hq as _ Hq. by destruct q.
    + destruct (select_notes false used notes _) as [p b1] eqn:Hs. injection Hrun as <- _.
      apply andb_false_iff in Hstop as [Hstop|]; [|done]. apply Z.leb_gt in Hstop.
      destruct q as [|m' q]; [cbn; lia|]. injection Hq as -> Hq.
      specialize (IH _ _ _ q Hs ltac:(lia) Hq). cbn. lia.
Qed.

Lemma insert_note_perm n l : insert_note n l ≡ₚ n :: l.
Proof.
  induction l as [|m l IH]; cbn; [done|]. destruct (note_amount n <? note_amount m); [|done].
  rewrite IH. constructor.
Qed.

Lemma sort_notes_perm l : sort_notes l ≡ₚ l.
Proof. induction l as [|n l IH]; cbn; [done|]. by rewrite insert_note_perm, IH. Qed.

(** Largest first. *)
Fixpoint descending (l : list Note) : Prop :=
  match l with
  | [] => True
  | n :: l => (forall m, m ∈ l -> note_amount m <= note_amount n) /\ descending l
  end.

Lemma insert_note_descending n l : descending l -> descending (insert_note n l).
Proof.
  induction l as [|m l IH]; cbn.
  - intros _. split; [|done]. intros m Hm. by apply elem_of_nil in Hm.
  - intros [Hm Hl]. destruct (Z.ltb_spec (note_amount n) (note_amount m)); cbn; (split; [|auto]).
    + intros x. rewrite insert_note_perm, elem_of_cons. intros [->|Hx]; [lia|by apply Hm].
    + intros x Hx. apply elem_of_cons in Hx as [->|Hx]; [lia|]. specialize (Hm x Hx). lia.
Qed.

Lemma sort_notes_descending l : descending (sort_notes l).
Proof. induction l; cbn; [done|by apply insert_note_descending]. Qed.

Lemma filter_descending (P : Note -> Prop) `{!forall x, Decision (P x)} l : descending l -> descending (filter P l).
Proof.
  induction l as [|n l IH]; [done|]. intros [Hn Hl]. rewrite filter_cons.
  destruct (decide (P n)); [|auto]. split; [|auto].
  intros m [_ Hm]%list_elem_of_filter. by apply Hn.
Qed.

(** Adding a largest note in front only increases what the first [k] notes are worth. *)
Lemma take_cons_le n l k : (forall m, m ∈ l -> note_amount m <= note_amount n) -> descending l ->
  (forall m, m ∈ l -> 0 <= note_amount m) -> 0 <= note_amount n ->
  sumZ note_amount (take k l) <= sumZ note_amount (take k (n :: l)).
Proof.
  revert n k. induction l as [|m l IH]; intros n k Hn Hd Hp Hn0; destruct k as [|k]; cbn; try lia.
  - destruct k; cbn; lia.
  - destruct Hd as [Hm Hd]. specialize (Hn m ltac:(by left)).
    specialize (IH m k Hm Hd ltac:(intros x Hx; apply Hp; by right) ltac:(apply Hp; by left)). cbn in IH. lia.
Qed.

(** No [k] notes are worth more than the first [k] of a descending list. *)
Lemma descending_best l q : descending l -> (forall m, m ∈ l -> 0 <= note_amount m) -> q ⊆+ l ->
  sumZ note_amount q <= sumZ note_amount (take (length q) l).
Proof.
  revert q. induction l as [|n l IH]; intros q Hd Hp Hq.
  - apply submseteq_nil_r in Hq as ->. done.
  - destruct Hd as [Hn Hd].
    assert (Hp' : forall m, m ∈ l -> 0 <= note_amount m) by (intros m Hm; apply Hp; by right).
    apply submseteq_cons_r in Hq as [Hq|(q' & Heq & Hq)].
    + specialize (IH q Hd Hp' Hq). etrans; [exact IH|]. apply take_cons_le; try done. apply Hp. by left.
    + specialize (IH q' Hd Hp' Hq). rewrite Heq. cbn. lia.
Qed.

Lemma sumZ_take_le l k : (forall m, m ∈ l -> 0 <= note_amount m) ->
  sumZ note_amount (take k l) <= sumZ note_amount l.
Proof.
  intros Hp. rewrite <- (take_drop k l) at 2. rewrite sumZ_app.
  assert (0 <= sumZ note_amount (drop k l)); [|lia].
  apply sumZ_nonneg. intros m Hm. apply Hp. by eapply subseteq_drop.
Qed.

Lemma unused_sort used l : unused used (sort_notes l) ≡ₚ unused used l.
Proof. unfold unused. by rewrite sort_notes_perm. Qed.

Lemma naive_covers used avail b picked b' :
  (forall n, n ∈ avail -> 0 <= note_amount n) ->
  select_notes false used (sort_notes avail) b = (picked, b') ->
  0 <= b' <-> b < 0 /\ 0 <= b + sumZ note_amount (unused used avail) \/ 0 <= b.
Proof.
  intros Hpos Hrun. pose proof (select_notes_sum false used (sort_notes avail) b) as Hsum. rewrite Hrun in Hsum.
  destruct (select_notes_prefix _ _ _ _ _ _ Hrun) as (rest & Hpre & Hrest).
  assert (Hp : forall n, n ∈ picked ++ rest -> 0 <= note_amount n).
  { intros n. rewrite <- Hpre, unused_sort. unfold unused. intros [_ Hn]%list_elem_of_filter. by apply Hpos. }
  rewrite <- unused_sort, Hpre, sumZ_app.
  assert (0 <= sumZ note_amount picked) by (apply sumZ_nonneg; intros n Hn; apply Hp, elem_of_app; by left).
  assert (0 <= sumZ note_amount rest) by (apply sumZ_nonneg; intros n Hn; apply Hp, elem_of_app; by right).
  destruct Hrest as [->|[Hb _]]; cbn; lia.
Qed.

(** The naive strategy picks as few notes as any selection that covers the deficit. *)
Lemma naive_fewest used avail b picked b' q :
  (forall n, n ∈ avail -> 0 <= note_amount n) -> b < 0 ->
  select_notes false used (sort_notes avail) b = (picked, b') ->
  q ⊆+ unused used avail -> 0 <= b + sumZ note_amount q -> (length picked <= length q)%nat.
Proof.
  intros Hpos Hb Hrun Hq Hcov. destruct (select_notes_prefix _ _ _ _ _ _ Hrun) as (rest & Hpre & _).
  assert (Hp : forall n, n ∈ unused used (sort_notes avail) -> 0 <= note_amount n).
  { intros n. rewrite unused_sort. unfold unused. intros [_ Hn]%list_elem_of_filter. by apply Hpos. }
  rewrite <- unused_sort in Hq.
  pose proof (descending_best _ q (filter_descending _ _ (sort_notes_descending avail)) Hp Hq) as Hbest.
  change (filter _ (sort_notes avail)) with (unused used (sort_notes avail)) in Hbest.
  destruct (decide (length picked <= length q)%nat) as [|Hlt]; [done|exfalso].
  destruct picked as [|n q0 _] using rev_ind; [cbn in Hlt; lia|].
  pose proof (select_notes_naive _ _ _ _ _ q0 n Hrun Hb eq_refl) as Hshort.
  rewrite length_app in Hlt. cbn in Hlt. rewrite Hpre in Hbest, Hp.
  rewrite <- app_assoc, take_app_le in Hbest by lia.
  assert (sumZ note_amount (take (length q) q0) <= sumZ note_amount q0); [|lia].
  apply sumZ_take_le. intros m Hm. apply Hp. rewrite <- app_assoc. apply elem_of_app. by left.
Qed.
