(* ===== verification/Balancing.v ===== *)
(** * What balancing a batch guarantees

    The theorems on [resolveNotes] (file [ResolveNotes]): every token is settled (in a batch that has
    surplus actions or selects notes) and only what settles it is added, the naive strategy uses as few
    notes as possible, an insufficient balance is reported only when all notes together fall short, and
    no note that the registry lists once is used twice. *)
From Stdlib Require Import ZArith Lia.
From stdpp Require Import base tactics list strings.
From S2P Require Import Prelude JsMap Convert Interfaces ResolveNotes.

(** ** The loop settles every token *)

Section Settle.
Context `{DiscoveryProvider}.
Implicit Types (s : ResolveState).

(** What a step may add to the batch: notes and outputs of one token, and a surplus action. *)
Definition grows (token : Z) (a a' : Actions) : Prop :=
  deposits a' = deposits a /\ setViewingKey a' = setViewingKey a /\ openChannels a' = openChannels a /\
  openTokenChannels a' = openTokenChannels a /\ invoke a' = invoke a /\ computeAndInvoke a' = computeAndInvoke a /\
  exists us ws cs,
    elems (useNotes a') = elems (useNotes a) ++ us /\ Forall (fun u => un_token u = token) us /\
    elems (withdraws a') = elems (withdraws a) ++ ws /\ Forall (fun w => wd_token w = token /\ 0 < wd_amount w) ws /\
    elems (createNotes a') = elems (createNotes a) ++ cs /\
    Forall (fun c => cn_token c = token /\ exists v, cn_amount c = AnAmount v /\ 0 < v) cs.

Lemma grows_refl t a : grows t a a.
Proof. split_and!; try done. exists [], [], []. split_and!; rewrite ?app_nil_r; constructor || done. Qed.

Lemma grows_trans t a b c : grows t a b -> grows t b c -> grows t a c.
Proof.
  intros (? & ? & ? & ? & ? & ? & us & ws & cs & Hu & Fu & Hw & Fw & Hc & Fc)
         (? & ? & ? & ? & ? & ? & us' & ws' & cs' & Hu' & Fu' & Hw' & Fw' & Hc' & Fc').
  split_and!; try congruence. exists (us ++ us'), (ws ++ ws'), (cs ++ cs').
  rewrite Hu', Hw', Hc', Hu, Hw, Hc, !app_assoc, !Forall_app. by split_and!.
Qed.

(** A step for one token leaves the others' net values alone. *)
Lemma grows_net t t' a a' : grows t a a' -> t' <> t -> net t' a' = net t' a.
Proof.
  intros (Hd & _ & _ & _ & _ & _ & us & ws & cs & Hu & Fu & Hw & Fw & Hc & Fc) Hne. unfold net.
  rewrite Hd, Hu, Hw, Hc, !sumZ_app.
  rewrite (sumZ_zero _ us), (sumZ_zero _ ws), (sumZ_zero _ cs); [lia| | |].
  - intros c Hin. rewrite list.Forall_forall in Fc. destruct (Fc c Hin) as (Ht & v & Hv & _).
    unfold create_value, at_token. rewrite Hv. destruct (Z.eqb_spec (cn_token c) t'); congruence.
  - intros w Hin. rewrite list.Forall_forall in Fw. destruct (Fw w Hin) as [Ht _].
    unfold withdraw_value, at_token. destruct (Z.eqb_spec (wd_token w) t'); congruence.
  - intros u Hin. rewrite list.Forall_forall in Fu. specialize (Fu u Hin).
    unfold use_value, at_token. destruct (Z.eqb_spec (un_token u) t'); congruence.
Qed.
Lemma registry_notes_actions t s : rs_actions (registry_notes t s).2 = rs_actions s.
Proof. unfold registry_notes. by destruct (am_get t None _). Qed.

Lemma registry_notes_ok t s : exists l, (registry_notes t s).1 = Ok l.
Proof. unfold registry_notes. destruct (am_get t None _). by eexists. Qed.

Lemma push_useNotes_grows t l a : grows t a (push_useNotes t l a).
Proof.
  split_and!; try done. exists (map (fun n => {| un_token := t; un_note := n |}) l), [], [].
  split_and!; rewrite ?app_nil_r; try done.
  apply list.Forall_forall. intros u (n & -> & _)%list_elem_of_fmap. done.
Qed.

Lemma push_useNotes_net t l a : net t (push_useNotes t l a) = net t a + sumZ note_amount l.
Proof.
  assert (Hl : sumZ (use_value t) (map (fun n => {| un_token := t; un_note := n |}) l) = sumZ note_amount l).
  { rewrite sumZ_map. apply sumZ_ext. intros n _. unfold use_value, at_token. cbn. by rewrite Z.eqb_refl. }
  unfold net. cbn -[use_value]. rewrite elems_Some, sumZ_app, Hl. lia.
Qed.

Lemma cover_deficit_spec o used t b s : exists b' s',
  cover_deficit o used t b s = (Ok b', s') /\ grows t (rs_actions s) (rs_actions s') /\
  net t (rs_actions s') = net t (rs_actions s) + (b' - b).
Proof.
  unfold cover_deficit. destruct (selects o b).
  - destruct (registry_notes_ok t s) as [l Hl]. pose proof (registry_notes_actions t s) as Ha.
    unfold mbind at 1, stateE_bind at 1.
    destruct (registry_notes t s) as [r s1]. cbn in Hl, Ha. subst r.
    pose proof (select_notes_sum (bool_decide (autoSelectNotes o = Some SelectAll)) used (sort_notes l) b) as Hs.
    destruct (select_notes _ used (sort_notes l) b) as [picked b']. cbn. eexists _, _. split; [done|]. cbn.
    rewrite Ha. split; [apply push_useNotes_grows|]. rewrite push_useNotes_net. lia.
  - eexists _, _. split; [done|]. split; [apply grows_refl|]. lia.
Qed.

Lemma find_surplus_spec u t b s sp s' : find_surplus u t b s = (Ok sp, s') ->
  rs_actions s' = rs_actions s \/ rs_actions s' = set_surpluses (elems (surpluses (rs_actions s)) ++ [sp]) (rs_actions s).
Proof.
  unfold find_surplus, mbind, stateE_bind, st_get.
  destruct (find (fun sp => sp_token sp =? t) (elems (surpluses (rs_actions s)))) as [sp0|].
  - intros [= <- <-]. by left.
  - destruct (existsb _ _); [|done]. cbn. intros [= <- <-]. by right.
Qed.

Lemma push_withdraw_net t w a :
  net t (set_withdraws (elems (withdraws a) ++ [w]) a) = net t a - withdraw_value t w.
Proof. unfold net. cbn -[withdraw_value]. rewrite elems_Some, sumZ_app. cbn -[withdraw_value]. lia. Qed.

Lemma push_create_net t c a :
  net t (set_createNotes (elems (createNotes a) ++ [c]) a) = net t a - create_value t c.
Proof. unfold net. cbn -[create_value]. rewrite elems_Some, sumZ_app. cbn -[create_value]. lia. Qed.

Lemma settle_surplus_spec u t b s s' : 0 < b -> settle_surplus u t b s = (Ok tt, s') ->
  grows t (rs_actions s) (rs_actions s') /\ net t (rs_actions s') = net t (rs_actions s) - b.
Proof.
  intros Hb. unfold settle_surplus, mbind, stateE_bind.
  destruct (find_surplus u t b s) as [[sp|e] s1] eqn:Hf; [|done].
  apply find_surplus_spec in Hf.
  assert (Hsame : grows t (rs_actions s) (rs_actions s1) /\ net t (rs_actions s1) = net t (rs_actions s)).
  { destruct Hf as [->| ->]; (split; [|done]); [apply grows_refl|].
    split_and!; try done. exists [], [], []. split_and!; rewrite ?app_nil_r; constructor || done. }
  destruct Hsame as [Hg Hn]. destruct (default false (sp_withdraw sp)); intros [= <-]; cbn.
  - split.
    + eapply grows_trans; [exact Hg|]. split_and!; try done. eexists [], [_], [].
      split_and!; rewrite ?app_nil_r; try constructor || done. by split. constructor.
    + rewrite <- Hn, push_withdraw_net. unfold withdraw_value, at_token. cbn. by rewrite Z.eqb_refl.
  - split.
    + eapply grows_trans; [exact Hg|]. split_and!; try done. eexists [], [], [_].
      split_and!; rewrite ?app_nil_r; try constructor || done. split; [done|by exists b]. constructor.
    + rewrite <- Hn, push_create_net. unfold create_value, at_token. cbn. by rewrite Z.eqb_refl.
Qed.

Lemma resolve_token_spec u o used t b s s' :
  resolve_token u o used (t, b) s = (Ok tt, s') -> net t (rs_actions s) = b ->
  grows t (rs_actions s) (rs_actions s') /\ net t (rs_actions s') = 0.
Proof.
  intros Hrun Hb. unfold resolve_token, mbind, stateE_bind in Hrun.
  destruct (cover_deficit_spec o used t b s) as (b1 & s1 & Hc & Hg & Hn). rewrite Hc in Hrun.
  destruct (Z.ltb_spec b1 0).
  - destruct (registry_notes_ok t s1) as [l Hl]. destruct (registry_notes t s1) as [r s2]. cbn in Hl. by subst r.
  - destruct (Z.ltb_spec 0 b1).
    + destruct (settle_surplus_spec _ _ _ _ _ ltac:(done) Hrun) as [Hg' Hn'].
      split; [by eapply grows_trans|]. lia.
    + injection Hrun as <-. split; [done|]. lia.
Qed.

(** The loop settles the tokens of its list, in any order, and touches no other. *)
Lemma resolve_loop_net u o used l s s' :
  NoDup l.*1 -> (forall t b, (t, b) ∈ l -> net t (rs_actions s) = b) ->
  st_for l (resolve_token u o used) s = (Ok tt, s') ->
  forall t, net t (rs_actions s') = if decide (t ∈ l.*1) then 0 else net t (rs_actions s).
Proof.
  revert s. induction l as [|[t0 b0] l IH]; intros s Hnd Hnet Hrun t.
  - injection Hrun as <-. rewrite decide_False; [done|]. apply not_elem_of_nil.
  - cbn [st_for] in Hrun. unfold mbind, stateE_bind in Hrun.
    destruct (resolve_token u o used (t0, b0) s) as [[[]|e] s1] eqn:H1; [|done].
    destruct (resolve_token_spec _ _ _ _ _ _ _ H1 (Hnet t0 b0 ltac:(by left))) as [Hg Hz].
    cbn in Hnd. apply NoDup_cons in Hnd as [Hnin Hnd].
    rewrite (IH s1 Hnd) by (exact Hrun ||
      (intros t' b' Hin; rewrite (grows_net _ _ _ _ Hg);
       [apply Hnet; by right|intros ->; apply Hnin, list_elem_of_fmap; by exists (t0, b')])).
    cbn. destruct (decide (t = t0)) as [->|Hne].
    + rewrite (decide_True (P:=t0 ∈ t0 :: _)) by left. by destruct (decide (t0 ∈ l.*1)).
    + rewrite (grows_net _ _ _ _ Hg) by done.
      destruct (decide (t ∈ l.*1)), (decide (t ∈ t0 :: l.*1)) as [Hin|Hin]; try done.
      * destruct Hin. by right.
      * by apply elem_of_cons in Hin as [|].
Qed.
(** ** What the loop keeps *)

(** The batch's own actions stay, in front of what the loop adds. *)
Definition extends (a a' : Actions) : Prop :=
  deposits a' = deposits a /\ setViewingKey a' = setViewingKey a /\ openChannels a' = openChannels a /\
  openTokenChannels a' = openTokenChannels a /\ invoke a' = invoke a /\ computeAndInvoke a' = computeAndInvoke a /\
  exists us ws cs,
    elems (useNotes a') = elems (useNotes a) ++ us /\
    elems (withdraws a') = elems (withdraws a) ++ ws /\ Forall (fun w => 0 < wd_amount w) ws /\
    elems (createNotes a') = elems (createNotes a) ++ cs /\
    Forall (fun c => exists v, cn_amount c = AnAmount v /\ 0 < v) cs.

#[export] Instance extends_preorder : PreOrder extends.
Proof.
  split.
  - intros a. split_and!; try done. exists [], [], []. split_and!; rewrite ?app_nil_r; constructor || done.
  - intros a b c (? & ? & ? & ? & ? & ? & us & ws & cs & Hu & Hw & Fw & Hc & Fc)
           (? & ? & ? & ? & ? & ? & us' & ws' & cs' & Hu' & Hw' & Fw' & Hc' & Fc').
    split_and!; try congruence. exists (us ++ us'), (ws ++ ws'), (cs ++ cs').
    rewrite Hu', Hw', Hc', Hu, Hw, Hc, !app_assoc, !Forall_app. by split_and!.
Qed.

Lemma grows_extends t a a' : grows t a a' -> extends a a'.
Proof.
  intros (? & ? & ? & ? & ? & ? & us & ws & cs & Hu & Fu & Hw & Fw & Hc & Fc).
  split_and!; try done. exists us, ws, cs. split_and!; try done; eapply Forall_impl; try done.
  - by intros w [_ ?].
  - by intros c [_ ?].
Qed.

(** The notes a registry lists for a token. *)
Definition reg_list (token : Z) (r : PrivateRegistry) : list Note :=
  default [] (map_get token (am_map (reg_notes r))).

(** The registries the SDK makes: keys as bigints, and no factory but the empty list. *)
Definition registry_wf (r : PrivateRegistry) : Prop :=
  keyConverter (reg_notes r) = (fun k => k) /\
  (defaultFactory (reg_notes r) = None \/ defaultFactory (reg_notes r) = Some (fun _ => [])) /\
  am_wf (reg_notes r).

(** The registry after a step lists the same notes. *)
Definition same_notes (s s' : ResolveState) : Prop :=
  (registry_wf (rs_registry s) -> registry_wf (rs_registry s') /\
    forall t, reg_list t (rs_registry s') = reg_list t (rs_registry s)).

#[export] Instance same_notes_preorder : PreOrder same_notes.
Proof.
  split; [by intros s|]. intros s1 s2 s3 H1 H2 Hw.
  destruct (H1 Hw) as [Hw2 He2]. destruct (H2 Hw2) as [Hw3 He3]. split; [done|]. intros t. congruence.
Qed.

Lemma registry_notes_spec t s : registry_wf (rs_registry s) ->
  exists s', registry_notes t s = (Ok (reg_list t (rs_registry s)), s') /\ same_notes s s' /\ rs_actions s' = rs_actions s.
Proof.
  intros (Hc & Hf & Hw). unfold registry_notes, reg_list, am_get. rewrite Hc.
  destruct (map_has t (am_map (reg_notes (rs_registry s)))) eqn:Hh.
  - eexists. split; [done|]. split; [|done]. intros _. split; [|done]. by split_and!.
  - destruct Hf as [Hf|Hf]; rewrite Hf; cbn.
    + eexists. split; [done|]. split; [|done]. intros _. split; [|done]. split_and!; auto.
    + apply map_has_false in Hh. rewrite map_get_set_eq, Hh.
      eexists. split; [done|]. split; [|done]. intros _. cbn. split.
      * split_and!; [done|by right|by apply map_set_wf].
      * intros t'. unfold reg_list. cbn. rewrite map_get_set. case_decide; [by subst; rewrite Hh|done].
Qed.
Lemma same_notes_registry s s' : rs_registry s' = rs_registry s -> same_notes s s'.
Proof. intros He Hw. by rewrite He. Qed.

Lemma registry_notes_same t s : same_notes s (registry_notes t s).2.
Proof.
  intros Hw. destruct (registry_notes_spec t s Hw) as (s' & He & Hs & _). rewrite He. by apply Hs.
Qed.

Lemma cover_deficit_same o used t b s : same_notes s (cover_deficit o used t b s).2.
Proof.
  unfold cover_deficit. destruct (selects o b); [|done].
  pose proof (registry_notes_same t s) as Hs. unfold mbind at 1, stateE_bind at 1.
  destruct (registry_notes t s) as [[l|e] s1]; [|done].
  destruct (select_notes _ _ _ _) as [picked b']. cbn. etrans; [exact Hs|]. by apply same_notes_registry.
Qed.

Lemma settle_surplus_same u t b s : same_notes s (settle_surplus u t b s).2.
Proof.
  apply same_notes_registry. unfold settle_surplus, find_surplus, mbind, stateE_bind, st_get.
  destruct (find _ _) as [sp|]; cbn; [by destruct (default false _)|].
  destruct (existsb _ _); done.
Qed.

Lemma resolve_token_same u o used e s r s' : resolve_token u o used e s = (r, s') -> same_notes s s'.
Proof.
  destruct e as [t b]. unfold resolve_token, mbind at 1, stateE_bind at 1.
  pose proof (cover_deficit_same o used t b s) as H1.
  destruct (cover_deficit o used t b s) as [[b1|e] s1]; [|by intros [= _ <-]].
  destruct (b1 <? 0).
  - unfold mbind, stateE_bind. pose proof (registry_notes_same t s1) as H2.
    destruct (registry_notes t s1) as [[l|e] s2]; intros [= _ <-]; by etrans.
  - destruct (0 <? b1); [|by intros [= _ <-]]. intros Hrun.
    pose proof (settle_surplus_same u t b1 s1) as H2. rewrite Hrun in H2. by etrans.
Qed.

Lemma discover_notes_actions u vk o b s r s' : discover_notes u vk o b s = (r, s') -> rs_actions s' = rs_actions s.
Proof.
  unfold discover_notes, mbind, stateE_bind, st_get. destruct (autoDiscover_notes o) as [l|]; [|by intros [= _ <-]].
  assert (Hd : forall tokens, discover_into_registry u vk o tokens s = (r, s') -> rs_actions s' = rs_actions s).
  { intros tokens. unfold discover_into_registry.
    destruct (discoverNotes _ _ _ _ _ _) as [[[notes cursor]|e] w]; by intros [= _ <-]. }
  destruct (tokensToDiscover _ _ _ _ _) as [[|t ts]|]; [by intros [= _ <-]|apply Hd|apply Hd].
Qed.

Lemma action_balances_err a e : action_balances a = Err e -> e = AmountNotPositive.
Proof.
  assert (Hassert : forall c (k : unit -> result sdk_error (AddressMap Z)), (forall b, is_Ok (k b) = true) ->
            forall e, (js_assert c AmountNotPositive ≫= k) = Err e -> e = AmountNotPositive).
  { intros [] k Hk e0; cbn; [specialize (Hk tt); by destruct (k tt)|by intros [= <-]]. }
  unfold action_balances. intros Hrun.
  destruct (fold_result add_deposit _ _) as [b1|e1] eqn:H1; cbn [mbind result_bind] in Hrun.
  2:{ injection Hrun as <-. apply fold_result_err in H1 as (y & d & H1). unfold add_deposit in H1. by eapply Hassert, H1. }
  destruct (fold_result add_useNote _ _) as [b2|e2] eqn:H2; cbn [mbind result_bind] in Hrun.
  2:{ injection Hrun as <-. apply fold_result_err in H2 as (y & d & H2). by eapply Hassert, H2. }
  destruct (fold_result add_withdraw _ _) as [b3|e3] eqn:H3; cbn [mbind result_bind] in Hrun.
  2:{ injection Hrun as <-. apply fold_result_err in H3 as (y & d & H3). by eapply Hassert, H3. }
  apply fold_result_err in Hrun as (y & c & Hc). unfold add_createNote in Hc.
  destruct (cn_amount c); [by eapply Hassert, Hc|done].
Qed.

Lemma discover_notes_err u vk o b s e s' : discover_notes u vk o b s = (Err e, s') ->
  exists a k c ts bl w, (discoverNotes a k c ts bl w).1 = Err e.
Proof.
  unfold discover_notes, mbind, stateE_bind, st_get. destruct (autoDiscover_notes o) as [l|]; [|done].
  assert (Hd : forall tokens, discover_into_registry u vk o tokens s = (Err e, s') ->
            exists a k c ts bl w, (discoverNotes a k c ts bl w).1 = Err e).
  { intros tokens. unfold discover_into_registry.
    destruct (discoverNotes _ _ _ _ _ _) as [[[notes cursor]|e'] w] eqn:Hrun; [done|]. intros [= -> _].
    eexists _, _, _, _, _, _. by rewrite Hrun. }
  destruct (tokensToDiscover _ _ _ _ _) as [[|t0 ts]|]; [done|apply Hd|apply Hd].
Qed.

(** The parts of a run of [resolveNotes] that reached its loop. *)
Lemma resolveNotes_loop u vk o s r s' :
  surpluses (rs_actions s) <> None \/ autoSelectNotes o <> None ->
  resolveNotes u vk o s = (r, s') ->
  (exists e, r = Err e /\ rs_actions s' = rs_actions s /\
     (e = AmountNotPositive \/ exists a k c ts bl w, (discoverNotes a k c ts bl w).1 = Err e)) \/
  exists b s1, action_balances (rs_actions s) = Ok b /\ rs_actions s1 = rs_actions s /\
    discover_notes u vk o b s = (Ok tt, s1) /\
    st_for (am_entries b) (resolve_token u o (used_note_ids (rs_actions s))) s1 = (r, s').
Proof.
  intros Hon. unfold resolveNotes. unfold mbind at 1, stateE_bind at 1, st_get.
  replace (bool_decide _ && bool_decide _)%bool with false
    by (symmetry; apply andb_false_iff; destruct Hon; [left|right]; by apply bool_decide_eq_false).
  unfold mbind, stateE_bind, st_lift.
  destruct (action_balances (rs_actions s)) as [b|e] eqn:Hb.
  2:{ intros [= <- <-]. left. exists e. split_and!; try done. left. by eapply action_balances_err. }
  destruct (discover_notes u vk o b s) as [[[]|e] s1] eqn:Hd.
  - intros Hrun. right. exists b, s1. split_and!; try done. by eapply discover_notes_actions.
  - intros [= <- <-]. left. exists e. split_and!; [done|by eapply discover_notes_actions|].
    right. by eapply discover_notes_err.
Qed.

Lemma loop_extends u o used l s s' :
  st_for l (resolve_token u o used) s = (Ok tt, s') ->
  (forall t b, (t, b) ∈ l -> net t (rs_actions s) = b) -> NoDup l.*1 -> extends (rs_actions s) (rs_actions s').
Proof.
  revert s. induction l as [|[t0 b0] l IH]; intros s Hrun Hnet Hnd.
  - by injection Hrun as <-.
  - cbn [st_for] in Hrun. unfold mbind, stateE_bind in Hrun.
    destruct (resolve_token u o used (t0, b0) s) as [[[]|e] s1] eqn:H1; [|done].
    destruct (resolve_token_spec _ _ _ _ _ _ _ H1 (Hnet t0 b0 ltac:(by left))) as [Hg _].
    apply NoDup_cons in Hnd as [Hnin Hnd]. transitivity (rs_actions s1); [by eapply grows_extends|].
    apply (IH s1 Hrun); [|done]. intros t' b' Hin. rewrite (grows_net _ _ _ _ Hg); [apply Hnet; by right|].
    intros ->. apply Hnin, list_elem_of_fmap. by exists (t0, b').
Qed.

Lemma balances_entries b a : balances_wf b -> (forall t, balance_of t b = net t a) ->
  NoDup (am_entries b).*1 /\ (forall t v, (t, v) ∈ am_entries b -> net t a = v) /\
  (forall t, t ∉ (am_entries b).*1 -> net t a = 0).
Proof.
  intros (_ & _ & Hw) Hnet. split; [exact Hw|]. split.
  - intros t v Hin. rewrite <- Hnet. unfold balance_of. by rewrite (map_in_get _ _ _ Hw Hin).
  - intros t Hin. rewrite <- Hnet. unfold balance_of.
    by rewrite (proj2 (map_get_None t (am_map b)) Hin).
Qed.

(** *** What the loop adds *)

(** The surplus action of a token. *)
Definition surplus_action (t : Z) (a : Actions) : option SurplusAction :=
  find (fun sp => sp_token sp =? t) (elems (surpluses a)).

(** The surplus actions the loop adds: to the user, as a note, for a token that has a deposit and no
    surplus action of its own. *)
Definition added_surplus (u : Z) (a : Actions) (sp : SurplusAction) : Prop :=
  sp_recipient sp = u /\ sp_withdraw sp = Some false /\ surplus_action (sp_token sp) a = None /\
  exists d, d ∈ elems (deposits a) /\ dep_token d = sp_token sp.

(** The outputs the loop adds: a positive amount, to the recipient of the token's surplus action,
    as a withdrawal exactly when that action asks for one. *)
Definition pays_surplus (a : Actions) (token amount recipient : Z) (withdraw : bool) : Prop :=
  0 < amount /\ exists sp, surplus_action token a = Some sp /\ sp_recipient sp = recipient /\
  default false (sp_withdraw sp) = withdraw.

(** The batch [a'] is the batch [a] with used notes, surplus actions and the surpluses' outputs added. *)
Definition fills (u : Z) (a a' : Actions) : Prop :=
  deposits a' = deposits a /\ setViewingKey a' = setViewingKey a /\ openChannels a' = openChannels a /\
  openTokenChannels a' = openTokenChannels a /\ invoke a' = invoke a /\ computeAndInvoke a' = computeAndInvoke a /\
  exists us ws cs sps,
    elems (useNotes a') = elems (useNotes a) ++ us /\
    elems (withdraws a') = elems (withdraws a) ++ ws /\
    Forall (fun w => pays_surplus a' (wd_token w) (wd_amount w) (wd_recipient w) true) ws /\
    elems (createNotes a') = elems (createNotes a) ++ cs /\
    Forall (fun c => exists v, cn_amount c = AnAmount v /\ pays_surplus a' (cn_token c) v (cn_recipient c) false) cs /\
    elems (surpluses a') = elems (surpluses a) ++ sps /\ NoDup (map sp_token sps) /\ Forall (added_surplus u a) sps.

Lemma surplus_action_prefix t a b sps : elems (surpluses b) = elems (surpluses a) ++ sps ->
  surplus_action t b = match surplus_action t a with
    | Some sp => Some sp | None => find (fun sp => sp_token sp =? t) sps end.
Proof.
  unfold surplus_action. intros ->. induction (elems (surpluses a)) as [|sp l IH]; cbn; [done|].
  by destruct (sp_token sp =? t).
Qed.

Lemma pays_surplus_prefix a b sps t v r w : elems (surpluses b) = elems (surpluses a) ++ sps ->
  pays_surplus a t v r w -> pays_surplus b t v r w.
Proof. intros Hs (Hv & sp & Hsp & Hpay). split; [done|]. exists sp. by rewrite (surplus_action_prefix _ _ _ _ Hs), Hsp. Qed.

#[export] Instance fills_preorder u : PreOrder (fills u).
Proof.
  split.
  - intros a. split_and!; try done. exists [], [], [], []. split_and!; rewrite ?app_nil_r; constructor || done.
  - intros a b c (Hd & ? & ? & ? & ? & ? & us & ws & cs & sps & Hu & Hw & Fw & Hc & Fc & Hs & Ns & Fs)
           (? & ? & ? & ? & ? & ? & us' & ws' & cs' & sps' & Hu' & Hw' & Fw' & Hc' & Fc' & Hs' & Ns' & Fs').
    split_and!; try congruence. exists (us ++ us'), (ws ++ ws'), (cs ++ cs'), (sps ++ sps').
    rewrite Hu', Hw', Hc', Hs', Hu, Hw, Hc, Hs, !app_assoc, !Forall_app, map_app, NoDup_app.
    assert (Hnew : forall sp, sp ∈ sps' -> surplus_action (sp_token sp) a = None /\ sp_token sp ∉ map sp_token sps).
    { intros sp Hsp. rewrite list.Forall_forall in Fs'. destruct (Fs' sp Hsp) as (_ & _ & Hno & _).
      rewrite (surplus_action_prefix _ _ _ _ Hs) in Hno. destruct (surplus_action (sp_token sp) a); [done|]. split; [done|].
      intros (sp0 & He & Hin%list_elem_of_In)%list_elem_of_fmap. eapply find_none in Hno; [|exact Hin].
      apply Z.eqb_neq in Hno. congruence. }
    split_and!; try done.
    + eapply Forall_impl; [exact Fw|]. intros w. by eapply pays_surplus_prefix.
    + eapply Forall_impl; [exact Fc|]. intros x (v & Hv & Hp). exists v. split; [done|]. by eapply pays_surplus_prefix.
    + intros t Ht (sp & -> & Hin)%list_elem_of_fmap. by apply (Hnew sp Hin).
    + apply list.Forall_forall. intros sp Hsp. rewrite list.Forall_forall in Fs'.
      destruct (Fs' sp Hsp) as (? & ? & _ & Hdep). rewrite Hd in Hdep. split_and!; try done. by apply Hnew.
Qed.

Lemma cover_deficit_fills u o used t b s : fills u (rs_actions s) (rs_actions (cover_deficit o used t b s).2).
Proof.
  unfold cover_deficit. destruct (selects o b); [|done].
  pose proof (registry_notes_actions t s) as Ha. unfold mbind at 1, stateE_bind at 1.
  destruct (registry_notes t s) as [[l|e] s1]; cbn in Ha; [|cbn; by rewrite Ha].
  destruct (select_notes _ used (sort_notes l) b) as [picked b'].
  change (fills u (rs_actions s) (push_useNotes t picked (rs_actions s1))). rewrite Ha.
  split_and!; try done. exists (map (fun n => {| un_token := t; un_note := n |}) picked), [], [], [].
  split_and!; rewrite ?app_nil_r; done || constructor.
Qed.

Lemma find_surplus_fills u t b s sp s' : find_surplus u t b s = (Ok sp, s') ->
  fills u (rs_actions s) (rs_actions s') /\ surplus_action t (rs_actions s') = Some sp.
Proof.
  unfold find_surplus, mbind, stateE_bind, st_get, surplus_action.
  destruct (find (fun sp => sp_token sp =? t) (elems (surpluses (rs_actions s)))) as [sp0|] eqn:Hf.
  - intros [= <- <-]. by split.
  - destruct (existsb _ _) eqn:Hex; [|done]. cbn. intros [= <- <-]. cbn. split.
    + assert (Hadd : added_surplus u (rs_actions s) {| sp_recipient := u; sp_token := t; sp_withdraw := Some false |}).
      { split_and!; try done. apply existsb_exists in Hex as (d & Hd & He%Z.eqb_eq). exists d. by rewrite list_elem_of_In. }
      split_and!; try done. eexists [], [], [], [_]. rewrite !app_nil_r.
      split_and!; [done..| |]; [apply NoDup_singleton|by apply Forall_singleton].
    + rewrite elems_Some. clear Hex. induction (elems (surpluses (rs_actions s))) as [|sp l IH];
        cbn -[Z.eqb] in *; [by rewrite Z.eqb_refl|]. destruct (sp_token sp =? t); [done|]. by apply IH.
Qed.

Lemma settle_surplus_fills u t b s s' : 0 < b -> settle_surplus u t b s = (Ok tt, s') ->
  fills u (rs_actions s) (rs_actions s').
Proof.
  intros Hb. unfold settle_surplus, mbind, stateE_bind.
  destruct (find_surplus u t b s) as [[sp|e] s1] eqn:Hf; [|done].
  apply find_surplus_fills in Hf as [Hfill Hsp].
  intros Hrun. transitivity (rs_actions s1); [done|].
  assert (Hpay : forall a, surpluses a = surpluses (rs_actions s1) ->
            pays_surplus a t b (sp_recipient sp) (default false (sp_withdraw sp))).
  { intros a Ha. split; [done|]. exists sp. unfold surplus_action in *. by rewrite Ha. }
  destruct (default false (sp_withdraw sp)); injection Hrun as <-; cbn; split_and!; try done.
  - eexists [], [_], [], []. rewrite !app_nil_r. split_and!; try done; try apply NoDup_nil_2; apply Forall_cons. split; [|done]. by apply Hpay.
  - eexists [], [], [_], []. rewrite !app_nil_r. split_and!; try done; try apply NoDup_nil_2.
    apply Forall_cons. split; [|done]. exists b. split; [done|]. by apply Hpay.
Qed.

Lemma resolve_token_fills u o used e s s' : resolve_token u o used e s = (Ok tt, s') ->
  fills u (rs_actions s) (rs_actions s').
Proof.
  destruct e as [t b]. unfold resolve_token, mbind at 1, stateE_bind at 1.
  pose proof (cover_deficit_fills u o used t b s) as Hc.
  destruct (cover_deficit o used t b s) as [[b1|e] s1]; [|done]. cbn in Hc. intros Hrun. transitivity (rs_actions s1); [done|].
  destruct (Z.ltb_spec b1 0).
  - unfold mbind, stateE_bind in Hrun. by destruct (registry_notes t s1) as [[]].
  - destruct (Z.ltb_spec 0 b1); [by eapply settle_surplus_fills|by injection Hrun as <-].
Qed.

Lemma loop_fills u o used l s s' : st_for l (resolve_token u o used) s = (Ok tt, s') ->
  fills u (rs_actions s) (rs_actions s').
Proof.
  revert s. induction l as [|e l IH]; intros s Hrun; [by injection Hrun as <-|].
  cbn [st_for] in Hrun. unfold mbind, stateE_bind in Hrun.
  destruct (resolve_token u o used e s) as [[[]|x] s1] eqn:H1; [|done].
  transitivity (rs_actions s1); [by eapply resolve_token_fills|by apply IH].
Qed.

(** C1: when [resolveNotes] returns for a batch that has a list of surplus actions or whose options
    select notes, every token is settled: what its deposits and used notes put in is what its
    withdrawals and created notes take out (deposits to open notes and open notes cancel out). For a
    batch with neither, it returns at once and changes nothing. In both cases the batch the caller asked
    for is kept and in front of what was added, and all that was added is used notes, surplus actions
    and outputs: a surplus action only for a deposited token that has none (to the user, as a note,
    at most one a token), an output only of a positive amount, to the recipient of its token's surplus
    action, and as a withdrawal exactly when that action asks for one. *)
Theorem resolveNotes_settles (u vk : Z) (o : ExecuteOptions) (s s' : ResolveState) :
  resolveNotes u vk o s = (Ok tt, s') ->
  (surpluses (rs_actions s) <> None \/ autoSelectNotes o <> None -> forall token, net token (rs_actions s') = 0) /\
  (surpluses (rs_actions s) = None -> autoSelectNotes o = None -> s' = s) /\
  fills u (rs_actions s) (rs_actions s').
Proof.
  intros Hrun.
  destruct (decide (surpluses (rs_actions s) <> None \/ autoSelectNotes o <> None)) as [Hon|Hoff].
  2:{ assert (Heq : s' = s); [|subst; by split_and!].
      unfold resolveNotes, mbind, stateE_bind, st_get in Hrun.
      rewrite !bool_decide_eq_true_2 in Hrun by (apply dec_stable; tauto). by injection Hrun as <-. }
  destruct (resolveNotes_loop _ _ _ _ _ _ Hon Hrun) as [(e & ? & _)|(b & s1 & Hb & Ha & _ & Hl)]; [done|].
  destruct (action_balances_net _ _ Hb) as [Hw Hnet]. rewrite <- Ha in Hnet.
  destruct (balances_entries _ _ Hw Hnet) as (Hnd & Hin & Hout). split_and!.
  - intros _ t. rewrite (resolve_loop_net _ _ _ _ _ _ Hnd Hin Hl). case_decide; [done|by apply Hout].
  - intros H1 H2. by destruct Hon.
  - rewrite <- Ha. by eapply loop_fills.
Qed.
(** ** Deficits *)

(** What [cover_deficit] does: nothing, or a selection among the unused notes of the registry. *)
Lemma cover_deficit_picks o used t b s b' s' : registry_wf (rs_registry s) ->
  cover_deficit o used t b s = (Ok b', s') ->
  exists picked, elems (useNotes (rs_actions s'))
      = elems (useNotes (rs_actions s)) ++ map (fun n => {| un_token := t; un_note := n |}) picked /\
    picked ⊆+ unused used (reg_list t (rs_registry s)) /\ b' = b + sumZ note_amount picked /\
    (b' < 0 -> autoSelectNotes o <> None -> b' = b + sumZ note_amount (unused used (reg_list t (rs_registry s)))) /\
    (selects o b = true -> (picked, b')
       = select_notes (bool_decide (autoSelectNotes o = Some SelectAll)) used (sort_notes (reg_list t (rs_registry s))) b).
Proof.
  intros Hw. unfold cover_deficit. destruct (selects o b) eqn:Hsel.
  - destruct (registry_notes_spec t s Hw) as (s1 & He & _ & Ha). unfold mbind at 1, stateE_bind at 1. rewrite He.
    pose proof (select_notes_sum (bool_decide (autoSelectNotes o = Some SelectAll)) used
                  (sort_notes (reg_list t (rs_registry s))) b) as Hsum.
    destruct (select_notes _ used (sort_notes _) b) as [picked b1] eqn:Hs. intros [= <- <-].
    destruct (select_notes_prefix _ _ _ _ _ _ Hs) as (rest & Hpre & Hrest). exists picked. cbn. rewrite Ha.
    split_and!; try done.
    + rewrite <- unused_sort, Hpre. by apply submseteq_inserts_r.
    + intros Hneg _. destruct Hrest as [->|[? _]]; [|lia].
      rewrite Hsum, <- unused_sort, Hpre. by rewrite app_nil_r.
  - intros [= <- <-]. exists []. split_and!; try done.
    + by rewrite app_nil_r.
    + apply submseteq_nil_l.
    + cbn. lia.
    + intros Hneg Hauto. unfold selects in Hsel. split_bool. apply andb_false_iff in H0 as [|]; split_bool; [lia|done].
Qed.

(** Covering a deficit with the naive strategy uses only notes of the registry for that token
    that the batch does not use already, covers the deficit exactly when all of them together
    would, and no selection that covers it uses fewer notes. *)
Theorem naive_selection_fewest (o : ExecuteOptions) used (t b b' : Z) (s s' : ResolveState) :
  autoSelectNotes o = Some SelectNaive -> b < 0 -> registry_wf (rs_registry s) ->
  (forall n, n ∈ reg_list t (rs_registry s) -> 0 <= note_amount n) ->
  cover_deficit o used t b s = (Ok b', s') ->
  let available := unused used (reg_list t (rs_registry s)) in
  exists picked,
    elems (useNotes (rs_actions s'))
      = elems (useNotes (rs_actions s)) ++ map (fun n => {| un_token := t; un_note := n |}) picked /\
    picked ⊆+ available /\ b' = b + sumZ note_amount picked /\
    (0 <= b' <-> 0 <= b + sumZ note_amount available) /\
    (forall q, q ⊆+ available -> 0 <= b + sumZ note_amount q -> (length picked <= length q)%nat).
Proof.
  intros Ho Hb Hw Hpos Hrun available.
  destruct (cover_deficit_picks _ _ _ _ _ _ _ Hw Hrun) as (picked & Hu & Hsub & Hsum & _ & Hsel).
  assert (Hs : selects o b = true) by (unfold selects; rewrite Ho, (proj2 (Z.ltb_lt b 0)) by lia; done).
  specialize (Hsel Hs). rewrite Ho in Hsel. symmetry in Hsel.
  exists picked. split_and!; try done.
  - rewrite (naive_covers _ _ _ _ _ Hpos Hsel). unfold available. split; [intros [[]|]; lia|tauto].
  - intros q Hq Hcov. by apply (naive_fewest _ _ _ _ _ q Hpos Hb Hsel).
Qed.
(** ** Errors *)

Lemma settle_surplus_err u t b s e s' : settle_surplus u t b s = (Err e, s') -> e = SurplusWithoutAction b t.
Proof.
  unfold settle_surplus, find_surplus, mbind, stateE_bind, st_get.
  destruct (find _ _) as [sp|]; cbn; [by destruct (default false _)|].
  destruct (existsb _ _); cbn; [done|]. by intros [= <- _].
Qed.

Lemma discover_notes_wf u vk o b s s' : registry_wf (rs_registry s) ->
  discover_notes u vk o b s = (Ok tt, s') -> registry_wf (rs_registry s').
Proof.
  intros Hw. unfold discover_notes, mbind, stateE_bind, st_get.
  destruct (autoDiscover_notes o) as [l|]; [|by intros [= <-]].
  assert (Hd : forall tokens, discover_into_registry u vk o tokens s = (Ok tt, s') -> registry_wf (rs_registry s')).
  { intros tokens. unfold discover_into_registry.
    destruct (discoverNotes _ _ _ _ _ _) as [[[notes cursor]|e] w]; [|done]. intros [= <-]. cbn.
    destruct (rs_registry s) as [ch m cu]. unfold registry_wf in *. cbn in *. revert m Hw.
    induction (am_entries notes) as [|e es IH]; intros m Hw; [done|]. cbn. apply IH.
    destruct Hw as (Hc & Hf & Hw). split_and!; try done. by apply map_set_wf. }
  destruct (tokensToDiscover _ _ _ _ _) as [[|t ts]|]; [by intros [= <-]|apply Hd|apply Hd].
Qed.

(** What an [InsufficientBalance] of one token says. *)
Lemma resolve_token_insufficient u o used t b s t' need avail s' : registry_wf (rs_registry s) ->
  resolve_token u o used (t, b) s = (Err (InsufficientBalance t' need avail), s') ->
  t' = t /\ 0 < need /\ avail = sumZ note_amount (reg_list t (rs_registry s)) /\
  - need = b + (if decide (autoSelectNotes o = None) then 0
                else sumZ note_amount (unused used (reg_list t (rs_registry s)))).
Proof.
  intros Hw. unfold resolve_token, mbind, stateE_bind. pose proof (cover_deficit_same o used t b s) as Hsame.
  destruct (cover_deficit_spec o used t b s) as (b1 & s1 & Hc & _). rewrite Hc in *. cbn in Hsame.
  destruct (cover_deficit_picks _ _ _ _ _ _ _ Hw Hc) as (picked & _ & _ & _ & Hneg & _).
  destruct (Z.ltb_spec b1 0).
  - destruct (Hsame Hw) as [Hw1 Hl]. destruct (registry_notes_spec t s1 Hw1) as (s2 & He & _). rewrite He.
    cbn. intros [= <- <- <- _]. rewrite Hl. split_and!; [done|lia|done|].
    destruct (decide (autoSelectNotes o = None)) as [Hno|]; [|specialize (Hneg ltac:(done) ltac:(done)); lia].
    unfold cover_deficit, selects in Hc. rewrite Hno, andb_comm in Hc. cbn in Hc. injection Hc as -> _. lia.
  - destruct (0 <? b1); [|done]. intros Hrun. by apply settle_surplus_err in Hrun.
Qed.

(** C26: [resolveNotes] reports a missing amount for a token only when the batch is short of exactly
    that amount after spending, if notes may be selected at all, every note of the registry the batch
    does not already use; the amount it reports as available is what the registry lists. *)
Theorem insufficient_means_short (u vk : Z) (o : ExecuteOptions) (s s' : ResolveState) (t need avail : Z) :
  (forall a k c ts bl w, (discoverNotes a k c ts bl w).1 <> Err (InsufficientBalance t need avail)) ->
  registry_wf (rs_registry s) ->
  resolveNotes u vk o s = (Err (InsufficientBalance t need avail), s') ->
  let listed := reg_list t (rs_registry s') in
  0 < need /\ avail = sumZ note_amount listed /\
  - need = net t (rs_actions s) +
    (if decide (autoSelectNotes o = None) then 0
     else sumZ note_amount (unused (used_note_ids (rs_actions s)) listed)).
Proof.
  intros Hdp Hw Hrun.
  assert (Hon : surpluses (rs_actions s) <> None \/ autoSelectNotes o <> None).
  { destruct (decide (surpluses (rs_actions s) = None)) as [Hn|]; [|by left].
    destruct (decide (autoSelectNotes o = None)) as [Hn'|]; [|by right].
    unfold resolveNotes, mbind, stateE_bind, st_get in Hrun. by rewrite Hn, Hn' in Hrun. }
  destruct (resolveNotes_loop _ _ _ _ _ _ Hon Hrun) as [(e & [= <-] & _ & [|(a & k & c & ts & bl & w & He)])|
    (b & s1 & Hb & Ha & Hd & Hl)]; [done|by apply Hdp in He|]. clear Hrun.
  pose proof (discover_notes_wf _ _ _ _ _ _ Hw Hd) as Hw1.
  destruct (action_balances_net _ _ Hb) as [Hbw Hnet]. rewrite <- Ha in Hnet.
  destruct (balances_entries _ _ Hbw Hnet) as (Hnd & Hin & _).
  apply st_for_err in Hl as (l1 & [t0 b0] & l2 & s2 & Hl & H1 & H2).
  assert (H12 : same_notes s1 s2) by (eapply st_for_inv; [apply _| |exact H1]; intros; by eapply resolve_token_same).
  destruct (H12 Hw1) as [Hw2 Hl2].
  destruct (resolve_token_same _ _ _ _ _ _ _ H2 Hw2) as [_ Hl3].
  destruct (resolve_token_insufficient _ _ _ _ _ _ _ _ _ _ Hw2 H2) as (-> & Hn & Hav & Heq).
  rewrite Hl3. split_and!; [done|done|]. rewrite Hl2 in *. rewrite Heq, <- Ha. f_equal. symmetry. apply Hin. rewrite Hl.
  apply elem_of_app. right. by left.
Qed.
(** ** No note is used twice *)

(** The spelled ids of notes. *)
Definition spelled (notes : list Note) : list string := map (fun n => js_String (note_id n)) notes.
(** The notes a batch uses. *)
Definition used_notes (a : Actions) : list Note := map un_note (elems (useNotes a)).

Lemma used_note_ids_spec a id :
  am_has id (used_note_ids a) = true <-> js_String id ∈ spelled (used_notes a).
Proof.
  unfold used_note_ids, used_notes, spelled. rewrite map_map.
  set (l := elems (useNotes a)). set (m0 := am_new js_String None []).
  assert (Hgen : forall (m : AdvancedMap BigNumberish bool string), keyConverter m = js_String ->
            let m' := fold_left (fun m u => am_set (note_id (un_note u)) true m) l m in
            keyConverter m' = js_String /\
            forall k, map_has k (am_map m') = true <->
              k ∈ map (fun u => js_String (note_id (un_note u))) l \/ map_has k (am_map m) = true).
  { induction l as [|u l IH]; intros m Hm; cbn.
    - split; [done|]. intros k. split; [by right|]. intros [Hk|]; [by apply elem_of_nil in Hk|done].
    - destruct (IH (am_set (note_id (un_note u)) true m) Hm) as [Hc Hh]. split; [done|].
      intros k. rewrite Hh, elem_of_cons. cbn. rewrite Hm. unfold map_has at 1. rewrite map_get_set.
      unfold map_has. case_decide; [tauto|]. destruct (map_get k (am_map m)); tauto. }
  destruct (Hgen m0 eq_refl) as [Hc Hh]. unfold am_has. rewrite Hc, Hh. cbn. split; [intros [|]; done|by left].
Qed.

Lemma settle_surplus_useNotes u t b s r s' : settle_surplus u t b s = (r, s') ->
  elems (useNotes (rs_actions s')) = elems (useNotes (rs_actions s)).
Proof.
  unfold settle_surplus, find_surplus, mbind, stateE_bind, st_get.
  destruct (find _ _) as [sp|]; cbn; [by destruct (default false _); intros [= _ <-]|].
  destruct (existsb _ _); cbn; by intros [= _ <-].
Qed.

Lemma resolve_token_uses u o used t b s s' : registry_wf (rs_registry s) ->
  resolve_token u o used (t, b) s = (Ok tt, s') ->
  exists picked, used_notes (rs_actions s') = used_notes (rs_actions s) ++ picked /\
    picked ⊆+ unused used (reg_list t (rs_registry s)).
Proof.
  intros Hw. unfold resolve_token, mbind, stateE_bind.
  destruct (cover_deficit_spec o used t b s) as (b1 & s1 & Hc & _). rewrite Hc.
  destruct (cover_deficit_picks _ _ _ _ _ _ _ Hw Hc) as (picked & Hu & Hsub & _).
  assert (Hs1 : used_notes (rs_actions s1) = used_notes (rs_actions s) ++ picked).
  { unfold used_notes. rewrite Hu, map_app, map_map. f_equal. apply map_id. }
  destruct (b1 <? 0); [by destruct (registry_notes t s1) as [[]]|].
  destruct (0 <? b1); intros Hrun; exists picked; (split; [|done]).
  - unfold used_notes in *. by rewrite (settle_surplus_useNotes _ _ _ _ _ _ Hrun).
  - by injection Hrun as <-.
Qed.

Lemma loop_uses u o used l s s' : registry_wf (rs_registry s) ->
  st_for l (resolve_token u o used) s = (Ok tt, s') ->
  exists extra, used_notes (rs_actions s') = used_notes (rs_actions s) ++ extra /\
    extra ⊆+ unused used (concat (map (fun e => reg_list e.1 (rs_registry s)) l)).
Proof.
  revert s. induction l as [|[t b] l IH]; intros s Hw Hrun.
  - injection Hrun as <-. exists []. split; [by rewrite app_nil_r|apply submseteq_nil_l].
  - cbn [st_for] in Hrun. unfold mbind, stateE_bind in Hrun.
    destruct (resolve_token u o used (t, b) s) as [[[]|e] s1] eqn:H1; [|done].
    destruct (resolve_token_uses _ _ _ _ _ _ _ Hw H1) as (picked & Hp & Hsub).
    destruct (resolve_token_same _ _ _ _ _ _ _ H1 Hw) as [Hw1 Hl1].
    destruct (IH s1 Hw1 Hrun) as (extra & He & Hsub'). exists (picked ++ extra).
    split; [by rewrite He, Hp, app_assoc|]. cbn. unfold unused in *. rewrite filter_app.
    apply submseteq_app; [done|]. rewrite (map_ext _ (fun e => reg_list e.1 (rs_registry s1))); [exact Hsub'|]. intros e. by rewrite Hl1.
Qed.

(** Reading a map at distinct keys yields some of its values. *)
Lemma lookups_submseteq {V} (ks : list Z) (m : jsmap Z (list V)) : NoDup ks ->
  concat (map (fun k => default [] (map_get k m)) ks) ⊆+ concat (map_values m).
Proof.
  revert ks. induction m as [|[k0 v0] m IH]; intros ks Hnd.
  - cbn. assert (H0 : concat (map (fun _ : Z => ([] : list V)) ks) = []) by (clear; by induction ks).
    rewrite H0. done.
  - destruct (decide (k0 ∈ ks)) as [Hin|Hnin].
    + apply list_elem_of_split in Hin as (k1 & k2 & ->). apply NoDup_app in Hnd as (Hnd1 & Hdis & Hnd2).
      apply NoDup_cons in Hnd2 as [Hk0 Hnd2].
      assert (Hout : forall ks, k0 ∉ ks -> map (fun k => default [] (map_get k ((k0, v0) :: m))) ks
                 = map (fun k => default [] (map_get k m)) ks).
      { intros ks Hks. apply map_ext_in. intros k Hk%list_elem_of_In. cbn. by rewrite decide_False by congruence. }
      rewrite map_app, concat_app. cbn [map concat]. rewrite !Hout
        by (done || (intros Hk; apply (Hdis _ Hk); by left)). cbn [map_get map_values]. rewrite decide_True by done.
      cbn. rewrite (Permutation_app_swap_app _ v0). apply submseteq_skips_l. rewrite <- concat_app, <- map_app.
      apply IH. apply NoDup_app. split_and!; [done| |done]. intros k Hk Hk'. apply (Hdis k Hk). by right.
    + etrans; [|apply submseteq_inserts_l, (IH ks Hnd)].
      rewrite (map_ext_in _ (fun k => default [] (map_get k m))); [done|].
      intros k Hk%list_elem_of_In. cbn. by rewrite decide_False by congruence.
Qed.

(** C25: what [resolveNotes], when it returns, adds to the notes the batch uses are notes the registry
    lists then, no listed note more often than it is listed, and none whose id, as it is spelled, the
    batch used before. So if the notes the batch used before had distinct ids and the registry lists
    every spelled id once, no two notes of the new batch have the same id. The registry is one the SDK
    makes (its keys are bigints and a missing token has no notes). *)
Theorem no_note_used_twice (u vk : Z) (o : ExecuteOptions) (s s' : ResolveState) :
  registry_wf (rs_registry s) -> resolveNotes u vk o s = (Ok tt, s') ->
  let listed := concat (map_values (am_map (reg_notes (rs_registry s')))) in
  (exists added, used_notes (rs_actions s') = used_notes (rs_actions s) ++ added /\
     added ⊆+ listed /\ (forall n, n ∈ added -> js_String (note_id n) ∉ spelled (used_notes (rs_actions s)))) /\
  (NoDup (spelled (used_notes (rs_actions s))) -> NoDup (spelled listed) -> NoDup (spelled (used_notes (rs_actions s')))).
Proof.
  intros Hw Hrun listed.
  assert (Hadd : exists added, used_notes (rs_actions s') = used_notes (rs_actions s) ++ added /\
            added ⊆+ unused (used_note_ids (rs_actions s)) listed).
  { destruct (decide (surpluses (rs_actions s) <> None \/ autoSelectNotes o <> None)) as [Hon|Hoff].
    2:{ exists []. rewrite app_nil_r. split; [|apply submseteq_nil_l].
        unfold resolveNotes, mbind, stateE_bind, st_get in Hrun.
        rewrite !bool_decide_eq_true_2 in Hrun by (apply dec_stable; tauto). by injection Hrun as <-. }
    destruct (resolveNotes_loop _ _ _ _ _ _ Hon Hrun) as [(e & ? & _)|(b & s1 & Hb & Ha & Hd & Hl)]; [done|].
    pose proof (discover_notes_wf _ _ _ _ _ _ Hw Hd) as Hw1.
    destruct (loop_uses _ _ _ _ _ _ Hw1 Hl) as (extra & He & Hsub).
    assert (Hsame : same_notes s1 s') by (eapply st_for_inv; [apply _| |exact Hl]; intros; by eapply resolve_token_same).
    destruct (Hsame Hw1) as [_ Hlist]. exists extra. split; [by rewrite He, Ha|].
    etrans; [exact Hsub|]. apply filter_submseteq.
    rewrite (map_ext _ (fun e => reg_list e.1 (rs_registry s'))) by (intros e; by rewrite Hlist).
    rewrite <- (map_map fst (fun t => reg_list t (rs_registry s'))).
    apply lookups_submseteq. by destruct (action_balances_net _ _ Hb) as [(_ & _ & ?) _]. }
  destruct Hadd as (added & He & Hsub).
  assert (Hlisted : added ⊆+ listed) by (etrans; [exact Hsub|]; apply sublist_submseteq, sublist_filter).
  assert (Hnew : forall n, n ∈ added -> js_String (note_id n) ∉ spelled (used_notes (rs_actions s))).
  { intros n Hn Hx. eapply elem_of_submseteq in Hn; [|exact Hsub].
    unfold unused in Hn. apply list_elem_of_filter in Hn as [Hn _].
    apply not_true_iff_false in Hn. by apply Hn, used_note_ids_spec. }
  split; [by exists added|]. intros Hused Hreg. rewrite He. unfold spelled in *. rewrite map_app.
  apply NoDup_app. split_and!; [done| |].
  - intros x Hx (n & -> & Hn)%list_elem_of_fmap. by apply (Hnew n Hn).
  - eapply NoDup_of_submseteq; [exact Hreg|]. by apply fmap_submseteq.
Qed.
End Settle.

(** ** A batch *)

(** A user with two notes of token [7] withdraws from it. *)
Definition sample_note (id amount : Z) : Note :=
  {| note_id := BN_bigint id; note_amount := amount; note_created := None;
     note_witness := {| w_channelKey := 0; w_nonce := 0; w_r := 0 |}; note_sender := 1; note_open := None |}.

Definition sample_state (amount : Z) : @ResolveState quiet_provider :=
  @Build_ResolveState quiet_provider
    {| setViewingKey := None; openChannels := None; openTokenChannels := None; deposits := None;
       useNotes := None; createNotes := None;
       withdraws := Some [{| wd_recipient := 3; wd_token := 7; wd_amount := amount |}];
       surpluses := Some [{| sp_recipient := 1; sp_token := 7; sp_withdraw := None |}];
       invoke := None; computeAndInvoke := None |}
    {| reg_channels := new_AddressMap None [];
       reg_notes := new_AddressMap (Some (fun _ => [])) [(7, [sample_note 1 5; sample_note 2 9])];
       reg_cursor := None |} tt.

Definition sample_options : ExecuteOptions :=
  {| autoRegister := false; autoDiscover_notes := None; autoDiscover_channels := None; autoSetup := false;
     autoSelectNotes := Some SelectNaive; registryConst := false; provingBlockId := None |}.

Lemma sample_registry_wf amount : registry_wf (@rs_registry quiet_provider (sample_state amount)).
Proof. split_and!; [done|by right|]. apply NoDup_singleton. Qed.

Lemma resolveNotes_settles_witness :
  let s := sample_state 8 in let s' := (@resolveNotes quiet_provider 1 2 sample_options s).2 in
  elems (createNotes (rs_actions s')) <> [] /\
  (surpluses (rs_actions s) <> None \/ autoSelectNotes sample_options <> None ->
    forall token, net token (rs_actions s') = 0) /\
  (surpluses (rs_actions s) = None -> autoSelectNotes sample_options = None -> s' = s) /\
  fills 1 (rs_actions s) (rs_actions s').
Proof.
  split; [vm_compute; discriminate|].
  apply (@resolveNotes_settles quiet_provider 1 2 sample_options (sample_state 8)). vm_compute. reflexivity.
Defined.

Lemma naive_selection_fewest_witness :
  let s := sample_state 8 in
  let available := unused (used_note_ids (rs_actions s)) (reg_list 7 (rs_registry s)) in
  exists picked,
    elems (useNotes (rs_actions (@cover_deficit quiet_provider sample_options (used_note_ids (rs_actions s)) 7 (-8) s).2))
      = elems (useNotes (rs_actions s)) ++ map (fun n => {| un_token := 7; un_note := n |}) picked /\
    picked ⊆+ available /\ 1 = -8 + sumZ note_amount picked /\
    (0 <= 1 <-> 0 <= -8 + sumZ note_amount available) /\
    (forall q, q ⊆+ available -> 0 <= -8 + sumZ note_amount q -> (length picked <= length q)%nat).
Proof.
  apply (@naive_selection_fewest quiet_provider sample_options (used_note_ids (rs_actions (sample_state 8))) 7 (-8) 1
           (sample_state 8)).
  - reflexivity.
  - lia.
  - apply sample_registry_wf.
  - intros n Hn. change (n ∈ [sample_note 1 5; sample_note 2 9]) in Hn.
    apply elem_of_cons in Hn as [->|[->|[]%elem_of_nil]%elem_of_cons]; cbn; lia.
  - vm_compute. reflexivity.
Defined.

Lemma insufficient_means_short_witness :
  let s := sample_state 20 in
  let listed := reg_list 7 (rs_registry (@resolveNotes quiet_provider 1 2 sample_options s).2) in
  0 < 6 /\ 14 = sumZ note_amount listed /\
  - 6 = net 7 (rs_actions s) + (if decide (autoSelectNotes sample_options = None) then 0
     else sumZ note_amount (unused (used_note_ids (rs_actions s)) listed)).
Proof.
  apply (@insufficient_means_short quiet_provider 1 2 sample_options (sample_state 20)).
  - discriminate.
  - apply sample_registry_wf.
  - vm_compute. reflexivity.
Defined.

Lemma no_note_used_twice_witness :
  let s := sample_state 12 in let s' := (@resolveNotes quiet_provider 1 2 sample_options s).2 in
  let listed := concat (map_values (am_map (reg_notes (rs_registry s')))) in
  spelled (used_notes (rs_actions s')) <> [] /\
  (exists added, used_notes (rs_actions s') = used_notes (rs_actions s) ++ added /\
     added ⊆+ listed /\ (forall n, n ∈ added -> js_String (note_id n) ∉ spelled (used_notes (rs_actions s)))) /\
  (NoDup (spelled (used_notes (rs_actions s))) -> NoDup (spelled listed) -> NoDup (spelled (used_notes (rs_actions s')))).
Proof.
  split; [vm_compute; discriminate|].
  apply (@no_note_used_twice quiet_provider 1 2 sample_options (sample_state 12)).
  - apply sample_registry_wf.
  - vm_compute. reflexivity.
Defined.
