(* ===== verification/Compiler.v ===== *)
(** * The action compiler ([sdk/src/internal/compiler.ts])

    [compile] resolves the channels and the notes of a batch, runs the batch on a
    [PoolSimulator] and emits the client actions of the pool. The functions are
    translated in the order the class has them; [resolveNotes] is in the file
    [ResolveNotes]. *)
From Stdlib Require Import ZArith Lia.
From stdpp Require Import base tactics list strings.
From S2P Require Import Prelude JsMap Convert Crypto Interfaces Channel PoolSimulator ResolveNotes.

(** The library calls of the compiler: the random source of starknet.js and of the platform, by the
    number of the draw, and [CallData.compile] of starknet.js. *)
Class Platform := {
  random_felt : nat -> Z;
  random_bytes : nat -> list Z;
  CallData_compile : list BigNumberish -> list BigNumberish
}.

(** ** The batch before emission *)

Definition set_openChannels (l : list OpenChannelAction) (a : Actions) : Actions :=
  {| setViewingKey := setViewingKey a; openChannels := Some l;
     openTokenChannels := openTokenChannels a; deposits := deposits a; useNotes := useNotes a;
     createNotes := createNotes a; withdraws := withdraws a; surpluses := surpluses a;
     invoke := invoke a; computeAndInvoke := computeAndInvoke a |}.
Definition set_setViewingKey (v : SetViewingKeyAction) (a : Actions) : Actions :=
  {| setViewingKey := Some v; openChannels := openChannels a;
     openTokenChannels := openTokenChannels a; deposits := deposits a; useNotes := useNotes a;
     createNotes := createNotes a; withdraws := withdraws a; surpluses := surpluses a;
     invoke := invoke a; computeAndInvoke := computeAndInvoke a |}.

Definition addOpenChannel (recipient : Z) (actions : Actions) : Actions :=
  let l := elems (openChannels actions) in
  set_openChannels
    (if existsb (fun a => oc_recipient a =? recipient) l then l else l ++ [{| oc_recipient := recipient |}])
    actions.

(** The keys of [getRecipientsNeeded]'s map. *)
Definition getRecipientsNeeded (userAddress : Z) (actions : Actions) : AddressMap bool :=
  let add l m := fold_left (fun m r => am_set r true m) l m in
  add (map sp_recipient (elems (surpluses actions)))
    (add (map cn_recipient (elems (createNotes actions)))
      (add (map otc_recipient (elems (openTokenChannels actions)))
        (add (map oc_recipient (elems (openChannels actions)))
          (new_AddressMap None [(userAddress, true)])))).

(** [!pool.getChannel(r)?.key]. *)
Definition unopened (c : option Channel) : bool :=
  match c with Some c => negb (truthy (ch_key c)) | None => true end.

(** The writes to [actions] at the start of [transformToClientActions]. *)
Definition prepareActions `{Platform} (userAddress : Z) (options : ExecuteOptions) (pool : PoolSimulator)
  (recipientsNeeded : AddressMap bool) (actions : Actions) : Actions :=
  let registered :=
    match getChannel userAddress pool with Some c => negb (ch_publicKey c =? 0) | None => false end in
  let actions :=
    if (autoRegister options && negb registered)%bool
    then set_setViewingKey {| svk_random := Some (random_felt 0) |} actions else actions in
  let actions :=
    if (bool_decide (is_Some (setViewingKey actions)) && autoSetup options)%bool
    then addOpenChannel userAddress actions else actions in
  fold_left (fun actions recipient =>
    if (unopened (getChannel recipient pool) && autoSetup options)%bool
    then addOpenChannel recipient actions else actions)
    (am_keys recipientsNeeded) actions.

(** ** Emission *)

(** The local [clientActions]. *)
Record ClientActions : Type := {
  ca_setViewingKey : option ClientAction;
  ca_openChannels : list ClientAction;
  ca_openTokenChannels : list ClientAction;
  ca_deposits : list ClientAction;
  ca_useNotes : list ClientAction;
  ca_createNotes : list ClientAction;
  ca_withdraws : list ClientAction;
  ca_invoke : option ClientAction;
  ca_computeAndInvoke : option ClientAction }.

Definition no_ClientActions : ClientActions :=
  {| ca_setViewingKey := None; ca_openChannels := []; ca_openTokenChannels := []; ca_deposits := [];
     ca_useNotes := []; ca_createNotes := []; ca_withdraws := []; ca_invoke := None; ca_computeAndInvoke := None |}.

(** Storing an action in the field of its type. *)
Definition push_action (a : ClientAction) (c : ClientActions) : ClientActions :=
  let '(Build_ClientActions vk oc ot de un cn wd iv ci) := c in
  match a with
  | ASetViewingKey _ => Build_ClientActions (Some a) oc ot de un cn wd iv ci
  | AOpenChannel _ _ _ _ => Build_ClientActions vk (oc ++ [a]) ot de un cn wd iv ci
  | AOpenSubchannel _ _ _ _ _ _ => Build_ClientActions vk oc (ot ++ [a]) de un cn wd iv ci
  | ADeposit _ _ => Build_ClientActions vk oc ot (de ++ [a]) un cn wd iv ci
  | AUseNote _ _ _ => Build_ClientActions vk oc ot de (un ++ [a]) cn wd iv ci
  | ACreateEncNote _ _ _ _ _ _ => Build_ClientActions vk oc ot de un (cn ++ [a]) wd iv ci
  | ACreateOpenNote _ _ _ _ _ => Build_ClientActions vk oc ot de un (cn ++ [a]) wd iv ci
  | AWithdraw _ _ _ _ => Build_ClientActions vk oc ot de un cn (wd ++ [a]) iv ci
  | AInvokeExternal _ _ => Build_ClientActions vk oc ot de un cn wd (Some a) ci
  | AComputeAndInvoke _ _ _ => Build_ClientActions vk oc ot de un cn wd iv (Some a)
  end.

(** [Object.values(clientActions)] without the undefined fields, flattened. *)
Definition flatten (c : ClientActions) : list ClientAction :=
  option_list (ca_setViewingKey c) ++ ca_openChannels c ++ ca_openTokenChannels c ++ ca_deposits c ++
  ca_useNotes c ++ ca_createNotes c ++ ca_withdraws c ++
  option_list (ca_invoke c) ++ option_list (ca_computeAndInvoke c).

Record TransformState : Type := {
  t_pool : PoolSimulator;
  t_out : ClientActions;
  t_draws : nat }.

Definition transforming (A : Type) : Type := stateE TransformState sdk_error A.

Section Transform.
Context `{StarkCrypto} `{Platform}.
Context (options : ExecuteOptions) (poolAddress : Z).

Definition draw {A} (source : nat -> A) : transforming A := fun s =>
  (Ok (source (t_draws s)), {| t_pool := t_pool s; t_out := t_out s; t_draws := S (t_draws s) |}).
Definition random : transforming Z := draw random_felt.
Definition random120 : transforming Z := draw (fun n => generateRandom120 (random_bytes n)).

Definition channel_of (recipient : Z) : transforming (option Channel) := fun s =>
  (Ok (getChannel recipient (t_pool s)), s).

Definition with_pool (f : PoolSimulator -> result sdk_error PoolSimulator) : transforming unit := fun s =>
  match f (t_pool s) with
  | Ok p => (Ok tt, {| t_pool := p; t_out := t_out s; t_draws := t_draws s |})
  | Err e => (Err e, s)
  end.

(** The local [execute]: the simulator runs the action, then it is stored. *)
Definition emit (a : ClientAction) : transforming unit :=
  _ ← with_pool (execute a);
  st_modify (fun s => {| t_pool := t_pool s; t_out := push_action a (t_out s); t_draws := t_draws s |}).

Definition emit_setViewingKey (actions : Actions) : transforming unit :=
  match setViewingKey actions with
  | None => mret tt
  | Some _ => r ← random; emit (ASetViewingKey r)
  end.

(** The channels to open, each recipient once. *)
Fixpoint first_occurrences (seen : list Z) (l : list OpenChannelAction) : list Z :=
  match l with
  | [] => []
  | a :: l =>
      if bool_decide (oc_recipient a ∈ seen) then first_occurrences seen l
      else oc_recipient a :: first_occurrences (oc_recipient a :: seen) l
  end.

Definition emit_openChannel (recipient : Z) : transforming unit :=
  channel ← channel_of recipient;
  match channel with
  | None => st_throw (MissingChannelContext recipient)
  | Some _ =>
      s ← st_get;
      let index := getNextChannelIndex (t_pool s) in
      r ← random;
      salt ← random;
      emit (AOpenChannel recipient index r salt)
  end.

Definition transformOpenSubchannel (recipient token : Z) (force : bool) : transforming Channel :=
  channel ← channel_of recipient;
  match channel with
  | None => st_throw (ChannelNotFound recipient)
  | Some channel =>
      if am_has token (ch_tokens channel) then mret channel
      else if (negb force && negb (autoSetup options))%bool then mret channel
      else
        salt ← random;
        _ ← emit (AOpenSubchannel recipient (ch_publicKey channel) (ch_key channel)
                    (Z.of_nat (am_size (ch_tokens channel))) token salt);
        channel' ← channel_of recipient;
        mret (default channel channel')
  end.

(** [channel.tokens.get(token)!.noteNonce] on the live channel of the recipient. *)
Definition read_nonce (recipient token : Z) (channel : Channel) : transforming Z :=
  let '(tc, c) := tokens_get token channel in
  _ ← with_pool (fun p => Ok (put_channel recipient c p));
  mret (noteNonce tc).

Definition emit_deposit (d : DepositAction) : transforming unit := emit (ADeposit (dep_token d) (dep_amount d)).

Definition emit_useNote (u : UseNoteAction) : transforming unit :=
  let note := un_note u in
  _ ← with_pool (fun p =>
        match toBigInt (note_id note) with
        | None => Err JsSyntaxError
        | Some id =>
            let '(has, p) := hasNote (un_token u) id p in
            if has then Ok p else setupNote (un_token u) note p
        end);
  emit (AUseNote (w_channelKey (note_witness note)) (un_token u) (w_nonce (note_witness note))).

Definition emit_createNote (c : CreateNoteAction) : transforming unit :=
  channel ← transformOpenSubchannel (cn_recipient c) (cn_token c) false;
  match cn_amount c with
  | Open =>
      index ← read_nonce (cn_recipient c) (cn_token c) channel;
      r ← random;
      emit (ACreateOpenNote (cn_recipient c) (ch_publicKey channel) (cn_token c) index r)
  | AnAmount amount =>
      index ← read_nonce (cn_recipient c) (cn_token c) channel;
      salt ← random120;
      emit (ACreateEncNote (cn_recipient c) (ch_publicKey channel) (cn_token c) amount index salt)
  end.

Definition emit_withdraw (w : WithdrawAction) : transforming unit :=
  r ← random; emit (AWithdraw (wd_recipient w) (wd_token w) (wd_amount w) r).

(** ** The invoke phase *)

Definition open_note_args (pool : PoolSimulator) (note : ClientAction) : result sdk_error (list InvokeOpenNote) :=
  match note with
  | ACreateOpenNote recipient _ token index _ =>
      match getChannel recipient pool with
      | Some c =>
          match ch_key c with
          | Some channelKey =>
              if channelKey =? 0 then Err MissingChannelKey
              else Ok [{| ion_noteId := compute_note_id channelKey token index; ion_token := token |}]
          | None => Err MissingChannelKey
          end
      | None => Err MissingChannelKey
      end
  | _ => Ok []
  end.

Definition withdrawal_args (a : ClientAction) : list InvokeWithdrawal :=
  match a with
  | AWithdraw to_addr token amount _ => [{| iw_recipient := to_addr; iw_token := token; iw_amount := amount |}]
  | _ => []
  end.

Definition invokeBuilderArgs (clientActions : ClientActions) (pool : PoolSimulator)
  : result sdk_error InvokeCalldataBuilderArgs :=
  openNotes ← fold_result (fun acc note => l ← open_note_args pool note; Ok (acc ++ l)) (ca_createNotes clientActions) [];
  Ok {| args_openNotes := openNotes;
        args_withdrawals := flat_map withdrawal_args (ca_withdraws clientActions);
        args_poolAddress := poolAddress |}.

Definition toBigInt_or_throw (v : BigNumberish) : result sdk_error Z :=
  match toBigInt v with Some z => Ok z | None => Err JsSyntaxError end.

(** [CallData.compile(data ?? []).map(toBigInt)]. *)
Definition compile_calldata (data : option (list BigNumberish)) : result sdk_error (list Z) :=
  fold_result (fun acc v => z ← toBigInt_or_throw v; Ok (acc ++ [z])) (CallData_compile (elems data)) [].

Definition emit_invoke (callBuilder : InvokeAction) : transforming unit :=
  s ← st_get;
  args ← st_lift (invokeBuilderArgs (t_out s) (t_pool s));
  call ← st_lift (callBuilder args);
  calldata ← st_lift (compile_calldata (cd_calldata call));
  contract ← st_lift (toBigInt_or_throw (cd_contractAddress call));
  emit (AInvokeExternal contract calldata).

Definition emit_computeAndInvoke (callBuilder : ComputeAndInvokeAction) : transforming unit :=
  s ← st_get;
  args ← st_lift (invokeBuilderArgs (t_out s) (t_pool s));
  details ← st_lift (callBuilder args);
  compute ← st_lift (compile_calldata (cai_computeAdditionalData details));
  invoke_data ← st_lift (compile_calldata (cai_invokeAdditionalData details));
  contract ← st_lift (toBigInt_or_throw (cai_contractAddress details));
  emit (AComputeAndInvoke contract compute invoke_data).

Definition emit_invoke_phase (actions : Actions) : transforming unit :=
  match invoke actions, computeAndInvoke actions with
  | Some _, Some _ => st_throw TwoInvokePhaseActions
  | Some callBuilder, None => emit_invoke callBuilder
  | None, Some callBuilder => emit_computeAndInvoke callBuilder
  | None, None => mret tt
  end.

(** The phases of [transformToClientActions] before the invoke phase. *)
Definition emit_batch (actions : Actions) : transforming unit :=
  _ ← emit_setViewingKey actions;
  _ ← st_for (first_occurrences [] (elems (openChannels actions))) emit_openChannel;
  _ ← st_for (elems (openTokenChannels actions))
        (fun a => _ ← transformOpenSubchannel (otc_recipient a) (otc_token a) true; mret tt);
  _ ← st_for (elems (deposits actions)) emit_deposit;
  _ ← st_for (elems (useNotes actions)) emit_useNote;
  _ ← st_for (elems (createNotes actions)) emit_createNote;
  st_for (elems (withdraws actions)) emit_withdraw.

(** [transformToClientActions] after its writes to [actions]. *)
Definition emit_all (actions : Actions) : transforming unit :=
  _ ← emit_batch actions;
  emit_invoke_phase actions.
End Transform.

(** ** Setting up and compiling *)

Inductive Warning : Type := UserLinkage.

Definition checkWarnings (clientActions : list ClientAction) : list Warning :=
  if (1 <? length (filter (fun a => action_type a = TOpenChannel) clientActions))%nat then [UserLinkage] else [].

Definition createPool (userAddress privateKey : Z) (registry : PrivateRegistry)
  (channels : option (AddressMap Channel)) (totalChannels : option Z) : result sdk_error PoolSimulator :=
  let pool := new_PoolSimulator userAddress privateKey (default 0 totalChannels) in
  let pool := fold_left (fun p e => setupChannel e.1 e.2 p) (default [] (am_entries <$> channels)) pool in
  let pool := fold_left (fun p e =>
    if default false (am_has e.1 <$> channels) then p else setupChannel e.1 e.2 p)
    (am_entries (reg_channels registry)) pool in
  fold_result (fun p e => fold_result (fun p note => setupNote e.1 note p) e.2 p)
    (am_entries (reg_notes registry)) pool.

Definition cloneRegistry (registry : PrivateRegistry) : PrivateRegistry :=
  {| reg_channels := fold_left (fun m e => am_set e.1 e.2 m) (am_entries (reg_channels registry)) (new_AddressMap None []);
     reg_notes := fold_left (fun m e => am_set e.1 e.2 m) (am_entries (reg_notes registry))
                    (new_AddressMap (Some (fun _ => [])) []);
     reg_cursor := None |}.

(** The registry in the [catch] block of [compile]. *)
Definition clearRegistry (registry : PrivateRegistry) : PrivateRegistry :=
  {| reg_channels := am_clear (reg_channels registry); reg_notes := am_clear (reg_notes registry); reg_cursor := None |}.

Section Compile.
Context `{StarkCrypto} `{Platform} `{DiscoveryProvider}.
(** The fields of the class, and which rejection of the two concurrent resolutions arrives first when
    both fail. *)
Context (userAddress userViewingKey poolAddress : Z) (notes_first : bool).

Record CompileState : Type := {
  c_actions : Actions;
  c_registry : PrivateRegistry;
  c_world : dp_world }.

(** [allOpen]: [every] stops at the first recipient without an open channel; a map with a default
    factory stores the defaults it makes. *)
Fixpoint allOpen (channels : option (AddressMap Channel)) (recipients : list Z)
  : bool * option (AddressMap Channel) :=
  match recipients with
  | [] => (true, channels)
  | r :: recipients =>
      match channels with
      | None => (false, None)
      | Some m =>
          let '(c, m) := am_get r None m in
          if bool_decide (is_Some (c ≫= ch_key)) then allOpen (Some m) recipients else (false, Some m)
      end
  end.

Definition recipientsToDiscover (options : ExecuteOptions) (registry : PrivateRegistry)
  (recipientsNeeded : AddressMap bool) : list Z :=
  if bool_decide (autoDiscover_channels options = Some refresh) then am_keys recipientsNeeded
  else filter (fun r => am_has r (reg_channels registry) = false) (am_keys recipientsNeeded).

Definition resolveRecipientChannels (actions : Actions) (options : ExecuteOptions) (registry : PrivateRegistry)
  (recipientsNeeded : AddressMap bool)
  : stateE dp_world sdk_error (option (AddressMap Channel) * option Z) :=
  let hasOpenChannels := match elems (openChannels actions) with [] => false | _ => true end in
  if (bool_decide (autoDiscover_channels options = None) && negb hasOpenChannels && negb (autoSetup options))%bool
  then mret (None, None)
  else
    match recipientsToDiscover options registry recipientsNeeded with
    | [] => mret (None, None)
    | recipients =>
        cursor ← discoverChannels userAddress userViewingKey (Recipients recipients) (provingBlockId options);
        let '(open, channels) := allOpen (cc_channels cursor) recipients in
        if open then mret (channels, None)
        else
          match cc_total cursor with
          | Some total => mret (channels, Some total)
          | None =>
              counted ← discoverChannels userAddress userViewingKey TotalOnly (provingBlockId options);
              mret (channels, cc_total counted)
          end
    end.

(** [Promise.all] over the two resolutions. Both run to their end: the calls to the service are
    answered channels first, and a rejection of one does not stop the other. *)
Definition resolve_both (options : ExecuteOptions) (recipientsNeeded : AddressMap bool)
  : stateE CompileState sdk_error (option (AddressMap Channel) * option Z) := fun s =>
  let '(channels, w) :=
    resolveRecipientChannels (c_actions s) options (c_registry s) recipientsNeeded (c_world s) in
  let '(notes, r) :=
    resolveNotes userAddress userViewingKey options
      {| rs_actions := c_actions s; rs_registry := c_registry s; rs_world := w |} in
  let s := {| c_actions := rs_actions r; c_registry := rs_registry r; c_world := rs_world r |} in
  (match channels, notes with
   | Ok v, Ok _ => Ok v
   | Ok _, Err e => Err e
   | Err e, Ok _ => Err e
   | Err e, Err e' => Err (if notes_first then e' else e)
   end, s).

Definition transformToClientActions (options : ExecuteOptions) (pool : PoolSimulator)
  (recipientsNeeded : AddressMap bool)
  : stateE CompileState sdk_error (list ClientAction * PoolSimulator) := fun s =>
  let actions := prepareActions userAddress options pool recipientsNeeded (c_actions s) in
  let '(r, t) := emit_all options poolAddress actions {| t_pool := pool; t_out := no_ClientActions; t_draws := 1 |} in
  (match r with Ok _ => Ok (flatten (t_out t), t_pool t) | Err e => Err e end,
   {| c_actions := actions; c_registry := c_registry s; c_world := c_world s |}).

Record CompileResult : Type := {
  clientActions : list ClientAction;
  cr_registry : PrivateRegistry;
  warnings : list Warning }.

(** [compileOnce] on the registry it works on: the caller's object, or its clone. *)
Definition compileOnce (options : ExecuteOptions) : stateE CompileState sdk_error CompileResult :=
  s ← st_get;
  let recipientsNeeded := getRecipientsNeeded userAddress (c_actions s) in
  resolved ← resolve_both options recipientsNeeded;
  s ← st_get;
  pool ← st_lift (createPool userAddress userViewingKey (c_registry s) resolved.1 resolved.2);
  emitted ← transformToClientActions options pool recipientsNeeded;
  _ ← st_modify (fun s => {| c_actions := c_actions s; c_registry := updateRegistry (c_registry s) emitted.2;
                             c_world := c_world s |});
  s ← st_get;
  mret {| clientActions := emitted.1; cr_registry := c_registry s; warnings := checkWarnings emitted.1 |}.

(** What the caller holds: the actions and, when [options.registry] is given, the registry. *)
Record CallerState : Type := {
  cl_actions : Actions;
  cl_registry : option PrivateRegistry;
  cl_world : dp_world }.

(** [compileOnce] seen by the caller. *)
Definition compile_attempt (options : ExecuteOptions) : stateE CallerState sdk_error CompileResult := fun s =>
  let registry_ := default createEmptyRegistry (cl_registry s) in
  let registry := if registryConst options then cloneRegistry registry_ else registry_ in
  let '(r, c) := compileOnce options {| c_actions := cl_actions s; c_registry := registry; c_world := cl_world s |} in
  (r, {| cl_actions := c_actions c;
         cl_registry := if registryConst options then cl_registry s else (fun _ => c_registry c) <$> cl_registry s;
         cl_world := c_world c |}).

Definition compile (options : ExecuteOptions) : stateE CallerState sdk_error CompileResult := fun s =>
  match compile_attempt options s with
  | (Err ReorgError, s) =>
      compile_attempt options
        {| cl_actions := cl_actions s; cl_registry := clearRegistry <$> cl_registry s; cl_world := cl_world s |}
  | r => r
  end.
End Compile.

(** ** A small batch *)

Definition toy_platform : Platform := {|
  random_felt := Z.of_nat; random_bytes := fun n => [Z.of_nat n]; CallData_compile := fun l => l |}.

(** User [1] with an open channel to themselves, which has four notes of token [7]. *)
Definition sample_pool : PoolSimulator :=
  setupChannel 1 (new_Channel 11 (Some 33) [(7, {| tokenIndex := 0; noteNonce := 4 |})]) (new_PoolSimulator 1 2 5).

Definition sample_actions : Actions :=
  {| setViewingKey := None; openChannels := None; openTokenChannels := None;
     deposits := Some [{| dep_token := 7; dep_amount := 10; dep_noteId := None |}]; useNotes := None;
     createNotes := Some [{| cn_recipient := 1; cn_token := 7; cn_amount := AnAmount 3 |};
                          {| cn_recipient := 1; cn_token := 8; cn_amount := Open |};
                          {| cn_recipient := 1; cn_token := 7; cn_amount := AnAmount 5 |}];
     withdraws := Some [{| wd_recipient := 9; wd_token := 7; wd_amount := 2 |}]; surpluses := None;
     invoke := Some (fun args => Ok {| cd_contractAddress := BN_bigint 99;
                       cd_calldata := Some (map (fun n => BN_bigint (ion_token n)) (args_openNotes args)) |});
     computeAndInvoke := None |}.

Definition setup_options : ExecuteOptions :=
  {| autoRegister := false; autoDiscover_notes := None; autoDiscover_channels := None; autoSetup := true;
     autoSelectNotes := None; registryConst := false; provingBlockId := None |}.

Definition sample_run : result sdk_error unit * TransformState :=
  @emit_all toy_crypto toy_platform setup_options 77 sample_actions
    {| t_pool := sample_pool; t_out := no_ClientActions; t_draws := 1 |}.

(** The batch opens the subchannel of token [8] before the deposit and numbers the notes of token
    [7] from the nonce [4]. *)
Example sample_run_types :
  map action_type (flatten (t_out sample_run.2))
    = [TOpenSubchannel; TDeposit; TCreateEncNote; TCreateOpenNote; TCreateEncNote; TWithdraw; TInvokeExternal].
Proof. vm_compute. reflexivity. Qed.
