(* ===== verification/Emission.v ===== *)
(** * What the compiler emits

    Theorems on [emit_all] (file [Compiler]): the order of the phases, the indices of
    channels and notes, and the correspondence between the batch and the client
    actions. *)
From Stdlib Require Import ZArith Lia.
From stdpp Require Import base tactics list numbers sorting.
From S2P Require Import Prelude JsMap Convert Crypto Interfaces Channel PoolSimulator ResolveNotes Compiler.

(** ** Phases *)

(** The position of a type in the emitted list. *)
Definition phase (a : ClientAction) : nat :=
  match a with
  | ASetViewingKey _ => 0
  | AOpenChannel _ _ _ _ => 1
  | AOpenSubchannel _ _ _ _ _ _ => 2
  | ADeposit _ _ => 3
  | AUseNote _ _ _ => 4
  | ACreateEncNote _ _ _ _ _ _ | ACreateOpenNote _ _ _ _ _ => 5
  | AWithdraw _ _ _ _ => 6
  | AInvokeExternal _ _ => 7
  | AComputeAndInvoke _ _ _ => 8
  end.

(** Every field holds the actions of its type. *)
Definition out_typed (c : ClientActions) : Prop :=
  (forall a, ca_setViewingKey c = Some a -> phase a = 0%nat) /\
  Forall (fun a => phase a = 1%nat) (ca_openChannels c) /\
  Forall (fun a => phase a = 2%nat) (ca_openTokenChannels c) /\
  Forall (fun a => phase a = 3%nat) (ca_deposits c) /\
  Forall (fun a => phase a = 4%nat) (ca_useNotes c) /\
  Forall (fun a => phase a = 5%nat) (ca_createNotes c) /\
  Forall (fun a => phase a = 6%nat) (ca_withdraws c) /\
  (forall a, ca_invoke c = Some a -> phase a = 7%nat) /\
  (forall a, ca_computeAndInvoke c = Some a -> phase a = 8%nat).

Lemma push_action_typed a c : out_typed c -> out_typed (push_action a c).
Proof.
  intros (H0 & H1 & H2 & H3 & H4 & H5 & H6 & H7 & H8). destruct c.
  destruct a; cbn in *; split_and!; try done.
  all: first [by intros ? [= <-]|apply Forall_app; split; [done|by repeat constructor]].
Qed.

Section Keeps.
Context `{StarkCrypto} `{Platform}.
Context (options : ExecuteOptions) (poolAddress : Z).

(** An invariant kept by storing an action of a phase below [top], and by changes of the simulator or
    the draws alone, is kept by the emission of those phases. *)
Context (I : TransformState -> Prop) (top : nat).
Hypothesis I_draws : forall p o n n', I {| t_pool := p; t_out := o; t_draws := n |} -> I {| t_pool := p; t_out := o; t_draws := n' |}.
Hypothesis I_pool : forall p p' o n, I {| t_pool := p; t_out := o; t_draws := n |} -> I {| t_pool := p'; t_out := o; t_draws := n |}.
Hypothesis I_push : forall p a o n, (phase a < top)%nat -> I {| t_pool := p; t_out := o; t_draws := n |} ->
  I {| t_pool := p; t_out := push_action a o; t_draws := n |}.

Lemma keeps_draw {A} (source : nat -> A) : keeps I (draw source).
Proof. intros [p o n] Hs. by apply (I_draws p o n). Qed.

Lemma keeps_with_pool f : keeps I (with_pool f).
Proof. intros [p o n] Hs. unfold with_pool. cbn. destruct (f p) as [p'|e]; [by apply (I_pool p)|done]. Qed.

Lemma keeps_channel_of r : keeps I (channel_of r).
Proof. by intros s. Qed.

Lemma keeps_emit a : (phase a < top)%nat -> keeps I (emit a).
Proof.
  intros Ha. unfold emit. apply keeps_bind; [apply keeps_with_pool|]. intros _. apply keeps_modify.
  intros [p o n]. by apply I_push.
Qed.

Hint Resolve keeps_draw keeps_with_pool keeps_channel_of : privacy.
Hint Extern 1 (keeps I (emit _)) => apply keeps_emit; cbn; lia : privacy.

Lemma keeps_subchannel r t force : (2 < top)%nat -> keeps I (transformOpenSubchannel options r t force).
Proof. intros Htop. unfold transformOpenSubchannel, random. keeps_tac. Qed.

Lemma keeps_emit_setViewingKey actions : (0 < top)%nat -> keeps I (emit_setViewingKey actions).
Proof. intros Htop. unfold emit_setViewingKey, random. keeps_tac. Qed.

Lemma keeps_emit_openChannel r : (1 < top)%nat -> keeps I (emit_openChannel r).
Proof. intros Htop. unfold emit_openChannel, random. keeps_tac. Qed.

Lemma keeps_read_nonce r t c : keeps I (read_nonce r t c).
Proof. unfold read_nonce. keeps_tac. Qed.

Lemma keeps_emit_batch actions : (6 < top)%nat -> keeps I (emit_batch options actions).
Proof.
  intros Htop. pose proof (fun r t f => keeps_subchannel r t f ltac:(lia)) as Hsub.
  unfold emit_batch, emit_setViewingKey, emit_openChannel, emit_deposit, emit_useNote, emit_createNote, read_nonce,
    emit_withdraw, random, random120.
  keeps_tac.
Qed.

Lemma keeps_emit_invoke f : (7 < top)%nat -> keeps I (emit_invoke poolAddress f).
Proof. intros Htop. unfold emit_invoke. keeps_tac. Qed.

Lemma keeps_emit_computeAndInvoke f : (8 < top)%nat -> keeps I (emit_computeAndInvoke poolAddress f).
Proof. intros Htop. unfold emit_computeAndInvoke. keeps_tac. Qed.
End Keeps.

(** Joining the fields in the order of their phases. *)
Lemma sorted_join (k : nat) (l1 l2 : list ClientAction) :
  Forall (fun a => (phase a <= k)%nat) l1 -> Forall (fun a => (k <= phase a)%nat) l2 ->
  StronglySorted (fun a b => (phase a <= phase b)%nat) l1 -> StronglySorted (fun a b => (phase a <= phase b)%nat) l2 ->
  StronglySorted (fun a b => (phase a <= phase b)%nat) (l1 ++ l2).
Proof.
  intros H1 H2 Hs1 Hs2. induction Hs1 as [|a l1 Hs1 IH Ha]; [done|]. apply Forall_cons in H1 as [Hk H1]. cbn.
  constructor; [by apply IH|]. apply Forall_app. split; [done|].
  eapply Forall_impl; [exact H2|]. cbn. intros b. lia.
Qed.

Lemma sorted_const (k : nat) (l : list ClientAction) :
  Forall (fun a => phase a = k) l -> StronglySorted (fun a b => (phase a <= phase b)%nat) l.
Proof.
  induction 1 as [|a l Ha Hl IH]; constructor; [done|]. eapply Forall_impl; [exact Hl|]. cbn. lia.
Qed.

Lemma option_list_phase (k : nat) (o : option ClientAction) :
  (forall a, o = Some a -> phase a = k) -> Forall (fun a => phase a = k) (option_list o).
Proof. intros Ho. destruct o; constructor; [by apply Ho|constructor]. Qed.

(** Joins the fields of phase [k] with those after it. *)
Ltac join_phase k :=
  apply (sorted_join k);
  [match goal with Hle : forall j k l, (j <= k)%nat -> _ |- _ => by eapply Hle end
  |rewrite !Forall_app; split_and!;
   match goal with Hge : forall j k l, (k <= j)%nat -> _ |- _ => eapply Hge; try eassumption; lia end
  |by eapply sorted_const|].

Lemma flatten_sorted c : out_typed c -> StronglySorted (fun a b => (phase a <= phase b)%nat) (flatten c).
Proof.
  intros (H0 & H1 & H2 & H3 & H4 & H5 & H6 & H7 & H8).
  apply option_list_phase in H0, H7, H8. unfold flatten.
  assert (Hle : forall j k l, (j <= k)%nat -> Forall (fun a => phase a = j) l -> Forall (fun a => (phase a <= k)%nat) l).
  { intros j k l Hjk Hl. eapply Forall_impl; [exact Hl|]. cbn. lia. }
  assert (Hge : forall j k l, (k <= j)%nat -> Forall (fun a => phase a = j) l -> Forall (fun a => (k <= phase a)%nat) l).
  { intros j k l Hjk Hl. eapply Forall_impl; [exact Hl|]. cbn. lia. }
  join_phase 0%nat. join_phase 1%nat. join_phase 2%nat. join_phase 3%nat. join_phase 4%nat. join_phase 5%nat.
  join_phase 6%nat.
  apply (sorted_join 7); [by eapply Hle| |by eapply sorted_const|by eapply sorted_const].
  eapply Hge; try eassumption; lia.
Qed.

(** At most one action sets the viewing key, and at most one is of the invoke phase. *)
Lemma filter_phase (P : ClientAction -> Prop) `{!forall a, Decision (P a)} (k : nat) (l : list ClientAction) :
  Forall (fun a => phase a = k) l -> (forall a, phase a = k -> ~ P a) -> filter P l = [].
Proof.
  intros Hl Hk. induction Hl as [|a l Ha _ IH]; [done|]. by rewrite filter_cons_False by by apply Hk.
Qed.

Lemma option_list_length {A} (P : A -> Prop) `{!forall a, Decision (P a)} (o : option A) :
  (length (filter P (option_list o)) <= 1)%nat.
Proof. etrans; [apply length_filter|]. by destruct o; cbn; lia. Qed.

Lemma flatten_counts c : out_typed c -> ca_invoke c = None \/ ca_computeAndInvoke c = None ->
  (length (filter (fun a => phase a = 0%nat) (flatten c)) <= 1)%nat /\
  (length (filter (fun a => 7 <= phase a)%nat (flatten c)) <= 1)%nat.
Proof.
  intros (H0 & H1 & H2 & H3 & H4 & H5 & H6 & H7 & H8) Hnone.
  pose proof (option_list_length (fun a => phase a = 0%nat) (ca_setViewingKey c)).
  pose proof (option_list_length (fun a => 7 <= phase a)%nat (ca_invoke c)).
  pose proof (option_list_length (fun a => 7 <= phase a)%nat (ca_computeAndInvoke c)).
  apply option_list_phase in H0, H7, H8. unfold flatten. rewrite !list.filter_app.
  rewrite (filter_phase (fun a => phase a = 0%nat) 1 _ H1), (filter_phase (fun a => phase a = 0%nat) 2 _ H2), (filter_phase (fun a => phase a = 0%nat) 3 _ H3),
    (filter_phase (fun a => phase a = 0%nat) 4 _ H4), (filter_phase (fun a => phase a = 0%nat) 5 _ H5), (filter_phase (fun a => phase a = 0%nat) 6 _ H6),
    (filter_phase (fun a => phase a = 0%nat) 7 _ H7), (filter_phase (fun a => phase a = 0%nat) 8 _ H8) by lia.
  rewrite (filter_phase (fun a => 7 <= phase a)%nat 0 _ H0), (filter_phase (fun a => 7 <= phase a)%nat 1 _ H1), (filter_phase (fun a => 7 <= phase a)%nat 2 _ H2),
    (filter_phase (fun a => 7 <= phase a)%nat 3 _ H3), (filter_phase (fun a => 7 <= phase a)%nat 4 _ H4), (filter_phase (fun a => 7 <= phase a)%nat 5 _ H5),
    (filter_phase (fun a => 7 <= phase a)%nat 6 _ H6) by lia.
  rewrite ?app_nil_r, ?app_nil_l, length_app.
  destruct Hnone as [Hn|Hn]; rewrite Hn in *; cbn in *; lia.
Qed.

Section Phases.
Context `{StarkCrypto} `{Platform}.

Lemma emit_all_typed options poolAddress actions s :
  out_typed (t_out s) -> out_typed (t_out (emit_all options poolAddress actions s).2).
Proof.
  intros Hs. revert s Hs. change (keeps (fun s => out_typed (t_out s)) (emit_all options poolAddress actions)).
  unfold emit_all, emit_invoke_phase.
  pose proof (push_action_typed) as Hpush.
  assert (Hb : forall a, keeps (fun s => out_typed (t_out s)) (emit_batch options a))
    by (intros a; apply (keeps_emit_batch _ _ 9); cbn; auto; lia).
  assert (Hi : forall f, keeps (fun s => out_typed (t_out s)) (emit_invoke poolAddress f))
    by (intros f; apply (keeps_emit_invoke _ _ 9); cbn; auto; lia).
  assert (Hc : forall f, keeps (fun s => out_typed (t_out s)) (emit_computeAndInvoke poolAddress f))
    by (intros f; apply (keeps_emit_computeAndInvoke _ _ 9); cbn; auto; lia).
  keeps_tac.
Qed.

(** Storing an action below the invoke phase, or another invoke-phase action, leaves a field alone. *)
Lemma push_action_no_invoke a c : (phase a < 7)%nat ->
  ca_invoke (push_action a c) = ca_invoke c /\ ca_computeAndInvoke (push_action a c) = ca_computeAndInvoke c.
Proof. intros Ha. destruct c, a; cbn in *; done || lia. Qed.

Lemma keeps_one_invoke options actions :
  keeps (fun s => ca_invoke (t_out s) = None /\ ca_computeAndInvoke (t_out s) = None) (emit_batch options actions).
Proof.
  apply (keeps_emit_batch _ _ 7); [done|done| |lia].
  intros p a o n Ha Hi. cbn. by destruct (push_action_no_invoke a o Ha) as [-> ->].
Qed.

Lemma emit_all_one_invoke options poolAddress actions s r s' :
  ca_invoke (t_out s) = None -> ca_computeAndInvoke (t_out s) = None ->
  emit_all options poolAddress actions s = (r, s') ->
  ca_invoke (t_out s') = None \/ ca_computeAndInvoke (t_out s') = None.
Proof.
  intros Hi Hc. unfold emit_all, mbind, stateE_bind.
  pose proof (keeps_one_invoke options actions s (conj Hi Hc)) as [Hi1 Hc1].
  destruct (emit_batch options actions s) as [[a|e] s1]; [|intros [= _ <-]; by left].
  cbn in Hi1, Hc1. unfold emit_invoke_phase.
  assert (HI : forall f, keeps (fun s => ca_computeAndInvoke (t_out s) = None) (emit_invoke poolAddress f)).
  { intros f. apply (keeps_emit_invoke _ _ 8); [done| |lia]. intros p b o n Hb. cbn. by destruct o, b; cbn in *; (done || lia). }
  destruct (invoke actions) as [f|], (computeAndInvoke actions) as [g|]; intros Hrun.
  - injection Hrun as _ <-. by left.
  - right. specialize (HI f s1 Hc1). by rewrite Hrun in HI.
  - left. assert (HC : keeps (fun s => ca_invoke (t_out s) = None) (emit_computeAndInvoke poolAddress g)).
    { unfold emit_computeAndInvoke. keeps_tac; try by intros s0.
      intros [p o n] Ho. unfold emit, with_pool, mbind, stateE_bind. cbn. by destruct o. }
    specialize (HC s1 Hi1). by rewrite Hrun in HC.
  - injection Hrun as _ <-. by left.
Qed.

(** Whatever the batch, the client actions are emitted in the order of the pool's phases (viewing
    key, channels, subchannels, deposits, used notes, created notes, withdrawals, the call), with at
    most one viewing key and at most one action of the invoke phase. *)
Theorem emission_phases options poolAddress actions pool n r s' :
  emit_all options poolAddress actions {| t_pool := pool; t_out := no_ClientActions; t_draws := n |} = (r, s') ->
  StronglySorted (fun a b => (phase a <= phase b)%nat) (flatten (t_out s')) /\
  (length (filter (fun a => phase a = 0%nat) (flatten (t_out s'))) <= 1)%nat /\
  (length (filter (fun a => 7 <= phase a)%nat (flatten (t_out s'))) <= 1)%nat.
Proof.
  intros Hrun.
  assert (Ht : out_typed (t_out s')).
  { pose proof (emit_all_typed options poolAddress actions {| t_pool := pool; t_out := no_ClientActions; t_draws := n |}) as Ht.
    rewrite Hrun in Ht. apply Ht. split_and!; constructor || done. }
  split; [by apply flatten_sorted|]. apply flatten_counts; [done|]. by eapply emit_all_one_invoke, Hrun.
Qed.
End Phases.

(** ** What is emitted for a batch *)

Section Faithful.
Context `{StarkCrypto} `{Platform}.
Context (options : ExecuteOptions) (poolAddress : Z).

Definition deposit_action (d : DepositAction) : ClientAction := ADeposit (dep_token d) (dep_amount d).
Definition useNote_action (u : UseNoteAction) : ClientAction :=
  AUseNote (w_channelKey (note_witness (un_note u))) (un_token u) (w_nonce (note_witness (un_note u))).
Definition withdraw_action (w : WithdrawAction) (a : ClientAction) : Prop :=
  exists r, a = AWithdraw (wd_recipient w) (wd_token w) (wd_amount w) r.
Definition createNote_action (c : CreateNoteAction) (a : ClientAction) : Prop :=
  match cn_amount c with
  | Open => exists pk i r, a = ACreateOpenNote (cn_recipient c) pk (cn_token c) i r
  | AnAmount v => exists pk i s, a = ACreateEncNote (cn_recipient c) pk (cn_token c) v i s
  end.

(** The four fields that move tokens correspond to prefixes of the batch. *)
Definition emitted (ds : list DepositAction) (us : list UseNoteAction) (cs : list CreateNoteAction)
  (ws : list WithdrawAction) (s : TransformState) : Prop :=
  ca_deposits (t_out s) = map deposit_action ds /\ ca_useNotes (t_out s) = map useNote_action us /\
  Forall2 createNote_action cs (ca_createNotes (t_out s)) /\ Forall2 withdraw_action ws (ca_withdraws (t_out s)).

Lemma emit_out a (Q : ClientActions -> Prop) :
  triple (fun s => Q (push_action a (t_out s))) (emit a) (fun _ s => Q (t_out s)).
Proof.
  intros s u s' Hq. unfold emit, with_pool, mbind, stateE_bind. destruct (execute a (t_pool s)); [|done].
  cbn -[push_action]. intros Heq. by injection Heq as _ <-.
Qed.

(** Steps that leave the four fields alone. *)
Lemma emitted_draws ds us cs ws p o n n' :
  emitted ds us cs ws {| t_pool := p; t_out := o; t_draws := n |} -> emitted ds us cs ws {| t_pool := p; t_out := o; t_draws := n' |}.
Proof. done. Qed.
Lemma emitted_pool ds us cs ws p p' o n :
  emitted ds us cs ws {| t_pool := p; t_out := o; t_draws := n |} -> emitted ds us cs ws {| t_pool := p'; t_out := o; t_draws := n |}.
Proof. done. Qed.
Lemma emitted_push ds us cs ws p a o n : (phase a < 3)%nat ->
  emitted ds us cs ws {| t_pool := p; t_out := o; t_draws := n |} ->
  emitted ds us cs ws {| t_pool := p; t_out := push_action a o; t_draws := n |}.
Proof. intros Ha. destruct o, a; cbn in Ha; done || lia. Qed.

(** Discharges the side conditions of the [keeps] lemmas for [emitted]. *)
Ltac emitted_side := first [apply emitted_draws|apply emitted_pool|intros ? ? ? ? ?; apply emitted_push; lia|cbn; lia].

Lemma emitted_draw {A} ds us cs ws (source : nat -> A) : triple (emitted ds us cs ws) (draw source) (fun _ => emitted ds us cs ws).
Proof. apply keeps_triple, keeps_draw. emitted_side. Qed.

Lemma emitted_subchannel ds us cs ws r t f :
  triple (emitted ds us cs ws) (transformOpenSubchannel options r t f) (fun _ => emitted ds us cs ws).
Proof. apply keeps_triple. apply (keeps_subchannel _ _ 3); emitted_side. Qed.

Lemma emitted_createNote ds us cs ws c :
  triple (emitted ds us cs ws) (emit_createNote options c) (fun _ => emitted ds us (cs ++ [c]) ws).
Proof.
  unfold emit_createNote. eapply triple_bind; [apply emitted_subchannel|]. intros channel.
  destruct (cn_amount c) as [v|] eqn:Hc.
  all: eapply triple_bind; [apply (keeps_triple (emitted ds us cs ws)), keeps_read_nonce; emitted_side|]; intros i.
  all: eapply triple_bind; [apply emitted_draw|]; intros x.
  all: eapply triple_weaken; [|apply (emit_out _ (fun o => emitted ds us (cs ++ [c]) ws {| t_pool := sample_pool; t_out := o; t_draws := 0 |}))|done].
  all: intros s (Hd & Hu & Hcr & Hw); destruct (t_out s); split_and!; cbn in *; try done.
  all: apply Forall2_app; [done|]; constructor; [|constructor]; unfold createNote_action; rewrite Hc; by eexists _, _, _.
Qed.

Lemma emitted_useNote ds us cs ws u :
  triple (emitted ds us cs ws) (emit_useNote u) (fun _ => emitted ds (us ++ [u]) cs ws).
Proof.
  unfold emit_useNote. eapply triple_bind; [apply (keeps_triple (emitted ds us cs ws)), keeps_with_pool; emitted_side|].
  intros ?. eapply triple_weaken;
    [|apply (emit_out _ (fun o => emitted ds (us ++ [u]) cs ws {| t_pool := sample_pool; t_out := o; t_draws := 0 |}))|done].
  intros s (Hd & Hu & Hcr & Hw). destruct (t_out s). split_and!; cbn in *; try done. by rewrite Hu, map_app.
Qed.

Lemma emitted_deposit ds us cs ws d :
  triple (emitted ds us cs ws) (emit_deposit d) (fun _ => emitted (ds ++ [d]) us cs ws).
Proof.
  eapply triple_weaken;
    [|apply (emit_out _ (fun o => emitted (ds ++ [d]) us cs ws {| t_pool := sample_pool; t_out := o; t_draws := 0 |}))|done].
  intros s (Hd & Hu & Hcr & Hw). destruct (t_out s). split_and!; cbn in *; try done. by rewrite Hd, map_app.
Qed.

Lemma emitted_withdraw ds us cs ws w :
  triple (emitted ds us cs ws) (emit_withdraw w) (fun _ => emitted ds us cs (ws ++ [w])).
Proof.
  unfold emit_withdraw. eapply triple_bind; [apply emitted_draw|]. intros x. eapply triple_weaken;
    [|apply (emit_out _ (fun o => emitted ds us cs (ws ++ [w]) {| t_pool := sample_pool; t_out := o; t_draws := 0 |}))|done].
  intros s (Hd & Hu & Hcr & Hw). destruct (t_out s). split_and!; cbn in *; try done.
  apply Forall2_app; [done|]. constructor; [by eexists|constructor].
Qed.

(** A batch emitted from nothing corresponds to the whole batch. *)
Lemma emit_batch_emitted actions :
  triple (emitted [] [] [] []) (emit_batch options actions)
    (fun _ => emitted (elems (deposits actions)) (elems (useNotes actions)) (elems (createNotes actions)) (elems (withdraws actions))).
Proof.
  unfold emit_batch.
  eapply triple_bind; [apply (keeps_triple (emitted [] [] [] [])); apply (keeps_emit_setViewingKey _ 3); emitted_side|]. intros ?.
  eapply triple_bind; [apply (keeps_triple (emitted [] [] [] [])), keeps_for; intros r _;
    apply (keeps_emit_openChannel _ 3); emitted_side|]. intros ?.
  eapply triple_bind; [apply (keeps_triple (emitted [] [] [] [])), keeps_for; intros b _;
    apply keeps_bind; [apply (keeps_subchannel _ _ 3); emitted_side|intros; apply keeps_ret]|]. intros ?.
  eapply triple_bind; [apply (triple_for (fun ds => emitted ds [] [] [])); intros; apply emitted_deposit|]. intros ?.
  eapply triple_bind; [apply (triple_for (fun us => emitted _ us [] [])); intros; apply emitted_useNote|]. intros ?.
  eapply triple_bind; [apply (triple_for (fun cs => emitted _ _ cs [])); intros; apply emitted_createNote|]. intros ?.
  apply (triple_for (fun ws => emitted _ _ _ ws)). intros. apply emitted_withdraw.
Qed.

(** The invoke phase leaves the four fields alone. *)
Lemma emitted_invoke_phase ds us cs ws actions :
  keeps (emitted ds us cs ws) (emit_invoke_phase poolAddress actions).
Proof.
  assert (Hemit : forall a, (6 < phase a)%nat -> keeps (emitted ds us cs ws) (emit a)).
  { intros a Ha [p o n] Hs. unfold emit, with_pool, mbind, stateE_bind. cbn. destruct (execute a p); [|done].
    cbn. destruct o, a; cbn in Ha; done || lia. }
  unfold emit_invoke_phase, emit_invoke, emit_computeAndInvoke. keeps_tac; apply Hemit; cbn; lia.
Qed.
Lemma emit_all_emitted actions pool n u s' :
  emit_all options poolAddress actions {| t_pool := pool; t_out := no_ClientActions; t_draws := n |} = (Ok u, s') ->
  emitted (elems (deposits actions)) (elems (useNotes actions)) (elems (createNotes actions)) (elems (withdraws actions)) s'.
Proof.
  unfold emit_all, mbind, stateE_bind.
  destruct (emit_batch options actions _) as [[b|e] s1] eqn:Hb; [|done]. intros Hrun.
  assert (H1 : emitted (elems (deposits actions)) (elems (useNotes actions)) (elems (createNotes actions))
                 (elems (withdraws actions)) s1).
  { eapply emit_batch_emitted; [|exact Hb]. split_and!; done. }
  pose proof (emitted_invoke_phase _ _ _ _ actions s1 H1) as H2. by rewrite Hrun in H2.
Qed.

(** A batch that is emitted is emitted whole: in the order of the batch, one deposit, one used note,
    one created note and one withdrawal for each of the batch's, with its recipient, token and amount,
    and no others. *)
Theorem emission_is_faithful actions pool n u s' :
  emit_all options poolAddress actions {| t_pool := pool; t_out := no_ClientActions; t_draws := n |} = (Ok u, s') ->
  ca_deposits (t_out s') = map deposit_action (elems (deposits actions)) /\
  ca_useNotes (t_out s') = map useNote_action (elems (useNotes actions)) /\
  Forall2 createNote_action (elems (createNotes actions)) (ca_createNotes (t_out s')) /\
  Forall2 withdraw_action (elems (withdraws actions)) (ca_withdraws (t_out s')).
Proof. intros Hrun. exact (emit_all_emitted _ _ _ _ _ Hrun). Qed.
End Faithful.

Lemma emission_phases_witness :
  let s' := sample_run.2 in
  StronglySorted (fun a b => (phase a <= phase b)%nat) (flatten (t_out s')) /\
  (length (filter (fun a => phase a = 0%nat) (flatten (t_out s'))) <= 1)%nat /\
  (length (filter (fun a => 7 <= phase a)%nat (flatten (t_out s'))) <= 1)%nat.
Proof.
  apply (@emission_phases toy_crypto toy_platform setup_options 77 sample_actions sample_pool 1 sample_run.1 sample_run.2).
  unfold sample_run. by destruct (emit_all _ _ _ _).
Defined.

Lemma emission_is_faithful_witness :
  let s' := sample_run.2 in
  ca_deposits (t_out s') = map deposit_action (elems (deposits sample_actions)) /\
  ca_useNotes (t_out s') = map useNote_action (elems (useNotes sample_actions)) /\
  Forall2 createNote_action (elems (createNotes sample_actions)) (ca_createNotes (t_out s')) /\
  Forall2 withdraw_action (elems (withdraws sample_actions)) (ca_withdraws (t_out s')).
Proof.
  apply (@emission_is_faithful toy_crypto toy_platform setup_options 77 sample_actions sample_pool 1 tt sample_run.2).
  vm_compute. reflexivity.
Defined.
