(* ===== verification/Indices.v ===== *)
(** * The indices the compiler gives out

    Theorems on [emit_batch] (file [Compiler]): the notes created for a recipient and
    a token get consecutive indices from the nonce the simulator started with, the
    subchannels opened on a channel consecutive indices from the number of its tokens, and
    the channels opened consecutive indices from the first free one. *)
From Stdlib Require Import ZArith Lia.
From stdpp Require Import base tactics list numbers.
From S2P Require Import Prelude JsMap Convert Crypto Interfaces Channel PoolSimulator ResolveNotes Compiler.

(** The nonce of a recipient and token; [0] without a channel or an entry. *)
Definition nonce_in (r t : Z) (p : PoolSimulator) : Z :=
  match map_get r (am_map (p_channels p)) with Some c => nonce_of t c | None => 0 end.

(** The index of a note created for [(r, t)]. *)
Definition note_index (r t : Z) (a : ClientAction) : option Z :=
  match a with
  | ACreateEncNote r' _ t' _ i _ | ACreateOpenNote r' _ t' i _ =>
      if bool_decide (r' = r /\ t' = t) then Some i else None
  | _ => None
  end.

Definition channel_index (a : ClientAction) : option Z :=
  match a with AOpenChannel _ i _ _ => Some i | _ => None end.

(** The index of a subchannel opened on the channel to [r]. *)
Definition subchannel_index (r : Z) (a : ClientAction) : option Z :=
  match a with AOpenSubchannel r' _ _ i _ _ => if bool_decide (r' = r) then Some i else None | _ => None end.

(** The number of tokens of the channel to [r], the first free subchannel index; [0] without a channel. *)
Definition tokens_in (r : Z) (p : PoolSimulator) : Z :=
  match map_get r (am_map (p_channels p)) with Some c => Z.of_nat (am_size (ch_tokens c)) | None => 0 end.

Definition has_token (r t : Z) (p : PoolSimulator) : bool :=
  match map_get r (am_map (p_channels p)) with Some c => am_has t (ch_tokens c) | None => false end.

Lemma channel_has_set t t' v c : channel_wf c -> am_has t' (am_set t v (ch_tokens c)) = (bool_decide (t' = t) || am_has t' (ch_tokens c))%bool.
Proof.
  intros (Hc & _). unfold am_has, map_has. cbn. rewrite !Hc, map_get_set. by case_decide; case_bool_decide.
Qed.

Lemma am_size_set t v c : channel_wf c -> am_has t (ch_tokens c) = false -> am_size (am_set t v (ch_tokens c)) = S (am_size (ch_tokens c)).
Proof.
  intros (Hc & _). unfold am_has, am_size. cbn. rewrite Hc. intros Hh. pose proof (map_keys_set t v (am_map (ch_tokens c))) as Hk.
  rewrite Hh in Hk. apply (f_equal length) in Hk. unfold map_keys in Hk. rewrite length_app, !length_map in Hk. cbn in Hk. lia.
Qed.

Section Indices.
Context `{StarkCrypto} `{Platform}.
Context (options : ExecuteOptions).

(** ** Nonces of the simulator *)

Lemma execute_wf a p p' : pool_wf p -> execute a p = Ok p' -> pool_wf p'.
Proof.
  intros Hp Hrun. pose proof (execute_refines a p Hp) as Hr. rewrite Hrun in Hr. unfold refines_step in Hr.
  by destruct (spec_execute _ _ a _); [destruct Hr|].
Qed.

Lemma nonce_put r t r' c p : pool_wf p ->
  nonce_in r t (put_channel r' c p) = if decide (r = r') then nonce_of t c else nonce_in r t p.
Proof. intros Hp. unfold nonce_in. rewrite get_put_channel by done. by case_decide. Qed.

Lemma nonce_notes r t t' m p : nonce_in r t (put_notes t' m p) = nonce_in r t p.
Proof. done. Qed.

Lemma nonce_notes_get r t t' p : nonce_in r t (notes_get t' p).2 = nonce_in r t p.
Proof. unfold notes_get. by destruct (am_get t' None (p_notes p)). Qed.

Lemma nonce_channel r t c p : pool_wf p -> getChannel r p = Some c -> nonce_in r t p = nonce_of t c.
Proof. intros Hp Hc. rewrite getChannel_eq in Hc by done. unfold nonce_in. by rewrite Hc. Qed.

Lemma nonce_advance r' t' r t p p' : pool_wf p -> advanceNonce r' t' p = Ok p' ->
  nonce_in r t p' = nonce_in r t p + (if bool_decide (r' = r /\ t' = t) then 1 else 0).
Proof.
  intros Hp. unfold advanceNonce. destruct (getChannel r' p) as [c|] eqn:Hc; [|done]. intros <-%Ok_inj.
  pose proof (getChannel_wf r' c p Hp Hc) as Hcw. rewrite nonce_put by done.
  destruct (decide (r = r')) as [->|Hne].
  - rewrite (nonce_channel _ _ _ _ Hp Hc), increment_eq by done. cbn. unfold nonce_of at 1. cbn. rewrite map_get_set.
    destruct (decide (t = t')) as [->|Hne].
    + rewrite bool_decide_eq_true_2 by done. fold (nonce_of t' c). by rewrite nonce_of_entry.
    + rewrite bool_decide_eq_false_2 by (intros [_ ?]; congruence). fold (nonce_of t c). lia.
  - rewrite bool_decide_eq_false_2 by (intros [? _]; congruence). lia.
Qed.

(** Executing an action advances the nonce of the note it creates and no other; opening a subchannel
    starts from zero. *)
Lemma execute_nonce a p p' r t : pool_wf p -> execute a p = Ok p' ->
  (forall r' pk k i t' s, a = AOpenSubchannel r' pk k i t' s -> nonce_in r' t' p = 0) ->
  nonce_in r t p' = nonce_in r t p + (if bool_decide (is_Some (note_index r t a)) then 1 else 0).
Proof.
  intros Hp Hrun Hsub. destruct a as [?|r' i ra sa|r' pk k i t' sa|r' pk t' am i sa|r' pk t' i ra|t' am|k t' i|to t' am ra|ca cd|ca c1 c2];
    cbn [execute note_index] in *.
  all: try (apply Ok_inj in Hrun as <-; cbn; lia).
  - unfold handleSetViewingKey in Hrun. destruct (am_has _ _) eqn:Hh; [done|]. cbn in Hrun. apply Ok_inj in Hrun as <-.
    rewrite nonce_put by done. cbn. case_decide as Hr; [|lia]. subst r.
    unfold nonce_in. unfold am_has in Hh. destruct Hp as (Hc & _). rewrite Hc in Hh. apply map_has_false in Hh. by rewrite Hh.
  - unfold handleOpenChannel in Hrun. destruct (getChannel r' p) as [c|] eqn:Hc; [|done]. apply Ok_inj in Hrun as <-.
    change (nonce_in r t (with_nextChannelIndex ?q _)) with (nonce_in r t q). rewrite nonce_put by done. cbn.
    case_decide as Hr; [subst|lia]. rewrite (nonce_channel _ _ _ _ Hp Hc). unfold nonce_of. cbn. lia.
  - unfold handleOpenSubchannel in Hrun. destruct (getChannel r' p) as [c|] eqn:Hc; [|done]. apply Ok_inj in Hrun as <-.
    rewrite nonce_put by done. cbn. case_decide as Hr; [subst|lia]. specialize (Hsub _ _ _ _ _ _ eq_refl).
    rewrite (nonce_channel r' t c p Hp Hc). rewrite (nonce_channel r' t' c p Hp Hc) in Hsub. destruct (getChannel_wf _ _ _ Hp Hc) as (Hcw & _).
    unfold nonce_of in *. cbn. rewrite Hcw, map_get_set. case_decide; [subst; cbn; lia|lia].
  - unfold handleCreateEncNote in Hrun. destruct (advanceNonce r' t' p) as [p1|] eqn:Ha; [|done]. cbn [mbind result_bind] in Hrun.
    assert (Hn : nonce_in r t p' = nonce_in r t p1).
    { destruct (_ && _)%bool; [|by apply Ok_inj in Hrun as <-].
      pose proof (nonce_notes_get r t t' p1) as Hg. destruct (notes_get t' p1) as [m p2]. cbn in Hg.
      apply Ok_inj in Hrun as <-. by rewrite nonce_notes, Hg. }
    rewrite Hn, (nonce_advance _ _ r t _ _ Hp Ha). by destruct (bool_decide (r' = r /\ t' = t)).
  - unfold handleCreateOpenNote in Hrun. rewrite (nonce_advance _ _ r t _ _ Hp Hrun).
    by destruct (bool_decide (r' = r /\ t' = t)).
  - unfold handleUseNote in Hrun. pose proof (nonce_notes_get r t t' p) as Hg. destruct (notes_get t' p) as [m p2].
    cbn in Hg. apply Ok_inj in Hrun as <-. rewrite nonce_notes, Hg. cbn. lia.
Qed.

Lemma notes_get_next t q : p_nextChannelIndex (notes_get t q).2 = p_nextChannelIndex q.
Proof. unfold notes_get. by destruct (am_get t None (p_notes q)). Qed.

Lemma execute_next a p p' : execute a p = Ok p' ->
  p_nextChannelIndex p' = p_nextChannelIndex p + (if bool_decide (is_Some (channel_index a)) then 1 else 0).
Proof.
  intros Hrun.
  assert (Hadv : forall r t p1, advanceNonce r t p = Ok p1 -> p_nextChannelIndex p1 = p_nextChannelIndex p).
  { intros r t p1. unfold advanceNonce. destruct (getChannel r p); [|done]. by intros <-%Ok_inj. }
  destruct a as [?|r' i ra sa|r' pk k i t' sa|r' pk t' am i sa|r' pk t' i ra|t' am|k t' i|to t' am ra|ca cd|ca c1 c2];
    cbn in *; try (apply Ok_inj in Hrun as <-; cbn; lia).
  - unfold handleSetViewingKey in Hrun. destruct (am_has _ _); [done|]. cbn in Hrun. apply Ok_inj in Hrun as <-. cbn. lia.
  - unfold handleOpenChannel in Hrun. destruct (getChannel r' p); [|done]. by apply Ok_inj in Hrun as <-.
  - unfold handleOpenSubchannel in Hrun. destruct (getChannel r' p); [|done]. apply Ok_inj in Hrun as <-.
    cbn [put_channel with_channels p_nextChannelIndex]. lia.
  - unfold handleCreateEncNote in Hrun. destruct (advanceNonce r' t' p) as [p1|] eqn:Ha; [|done].
    cbn [mbind result_bind] in Hrun. rewrite <- (Hadv _ _ _ Ha).
    destruct (_ && _)%bool; [|apply Ok_inj in Hrun as <-; lia].
    pose proof (notes_get_next t' p1) as Hget. destruct (notes_get t' p1) as [m p2]. cbn in Hget. apply Ok_inj in Hrun as <-. cbn. lia.
  - unfold handleCreateOpenNote in Hrun. rewrite (Hadv _ _ _ Hrun). lia.
Qed.
(** ** The invariant of the emission *)

(** The indices given out so far follow those the simulator started with, and the simulator's counters
    are the next ones. *)
Definition indices_ok (p0 : PoolSimulator) (s : TransformState) : Prop :=
  pool_wf (t_pool s) /\
  (forall r t, let l := omap (note_index r t) (ca_createNotes (t_out s)) in
     l = seqZ (nonce_in r t p0) (Z.of_nat (length l)) /\ nonce_in r t (t_pool s) = nonce_in r t p0 + Z.of_nat (length l)) /\
  (let l := omap channel_index (ca_openChannels (t_out s)) in
     l = seqZ (p_nextChannelIndex p0) (Z.of_nat (length l)) /\
     p_nextChannelIndex (t_pool s) = p_nextChannelIndex p0 + Z.of_nat (length l)).

Lemma seqZ_snoc m n : seqZ m (Z.of_nat (S n)) = seqZ m (Z.of_nat n) ++ [m + Z.of_nat n].
Proof. replace (Z.of_nat (S n)) with (Z.of_nat n + 1) by lia. rewrite seqZ_app by lia. done. Qed.

(** An action that is not a note or a channel, or one that carries the next index. *)
Definition next_index (p : PoolSimulator) (a : ClientAction) : Prop :=
  (forall r t i, note_index r t a = Some i -> i = nonce_in r t p) /\
  (forall i, channel_index a = Some i -> i = p_nextChannelIndex p) /\
  (forall r pk k i t s, a = AOpenSubchannel r pk k i t s -> nonce_in r t p = 0).

Lemma push_action_notes r t a c :
  omap (note_index r t) (ca_createNotes (push_action a c))
    = omap (note_index r t) (ca_createNotes c) ++ option_list (note_index r t a).
Proof.
  destruct c, a; cbn; rewrite ?app_nil_r; try done;
    rewrite omap_app; cbn; by destruct (bool_decide _).
Qed.

Lemma push_action_channels a c :
  omap channel_index (ca_openChannels (push_action a c))
    = omap channel_index (ca_openChannels c) ++ option_list (channel_index a).
Proof. destruct c, a; cbn; rewrite ?app_nil_r; try done. by rewrite omap_app. Qed.

Lemma emit_indices p0 a :
  triple (fun s => indices_ok p0 s /\ next_index (t_pool s) a) (emit a) (fun _ => indices_ok p0).
Proof.
  intros s [] s' [(Hw & Hn & Hc) (Hi & Hci & Hs)]. unfold emit, with_pool, mbind, stateE_bind.
  destruct (execute a (t_pool s)) as [p'|e] eqn:Hrun; [|done]. cbn -[push_action].
  intros Heq. injection Heq as <-. split_and!; cbn -[push_action].
  - by eapply execute_wf.
  - intros r t. destruct (Hn r t) as [Hl Hnonce]. rewrite push_action_notes.
    rewrite (execute_nonce a (t_pool s) p' r t) by done.
    set (l := omap (note_index r t) (ca_createNotes (t_out s))) in *.
    destruct (note_index r t a) as [i|] eqn:Hix; cbn.
    + rewrite length_app. cbn. rewrite Nat.add_1_r, seqZ_snoc, <- Hl. split; [|lia].
      f_equal. by rewrite (Hi _ _ _ Hix), Hnonce.
    + rewrite app_nil_r. split; [done|lia].
  - destruct Hc as [Hl Hnext]. rewrite push_action_channels, (execute_next a (t_pool s) p') by done.
    set (l := omap channel_index (ca_openChannels (t_out s))) in *.
    destruct (channel_index a) as [i|] eqn:Hix; cbn.
    + rewrite length_app. cbn. rewrite Nat.add_1_r, seqZ_snoc, <- Hl. split; [|lia].
      f_equal. by rewrite (Hci _ eq_refl), Hnext.
    + rewrite app_nil_r. split; [done|lia].
Qed.

(** Actions without an index. *)
Lemma emit_plain p0 a : (forall p, next_index p a) -> triple (indices_ok p0) (emit a) (fun _ => indices_ok p0).
Proof. intros Ha s r s' Hs. by apply emit_indices. Qed.

Lemma draw_indices {A} p0 (source : nat -> A) Q :
  triple (fun s => indices_ok p0 s /\ Q (t_pool s)) (draw source) (fun _ s => indices_ok p0 s /\ Q (t_pool s)).
Proof. intros s a s' Hs. by intros [= _ <-]. Qed.

(** A change of the simulator that keeps its counters. *)
Lemma with_pool_indices p0 f s a s' :
  (forall p', f (t_pool s) = Ok p' ->
     pool_wf p' /\ p_nextChannelIndex p' = p_nextChannelIndex (t_pool s) /\
     forall r t, nonce_in r t p' = nonce_in r t (t_pool s)) ->
  indices_ok p0 s -> with_pool f s = (Ok a, s') -> indices_ok p0 s'.
Proof.
  intros Hf (Hw & Hn & Hc). unfold with_pool. destruct (f (t_pool s)) as [p'|] eqn:Hrun; [|done].
  intros [= _ <-]. destruct (Hf _ eq_refl) as (Hw' & Hnx & Hnon). split_and!; [done| |].
  - intros r t. cbn. rewrite Hnon. apply Hn.
  - cbn. by rewrite Hnx.
Qed.

(** ** The emission keeps the invariant *)

Lemma plain_next_index a p : (forall r t, note_index r t a = None) -> channel_index a = None ->
  (forall r pk k i t s, a <> AOpenSubchannel r pk k i t s) -> next_index p a.
Proof.
  intros Hn Hc Hs. split_and!.
  - intros r t i. by rewrite Hn.
  - intros i. by rewrite Hc.
  - intros r pk k i t s Ha. by apply Hs in Ha.
Qed.

(** [emit] of an action that carries no index, after a draw. *)
Lemma emit_drawn p0 {A} (source : nat -> A) (mk : A -> ClientAction) : (forall x p, next_index p (mk x)) ->
  triple (indices_ok p0) (x ← draw source; emit (mk x)) (fun _ => indices_ok p0).
Proof.
  intros Hmk. apply (triple_bind _ _ (fun _ => indices_ok p0)).
  - eapply triple_weaken; [|apply (draw_indices p0 source (fun _ => True))|]; [by split|by intros ? ? [? _]].
  - intros x. by apply emit_plain.
Qed.

Lemma emit_setViewingKey_indices p0 actions :
  triple (indices_ok p0) (emit_setViewingKey actions) (fun _ => indices_ok p0).
Proof.
  unfold emit_setViewingKey. destruct (setViewingKey actions); [|apply (triple_ret tt (fun _ => indices_ok p0))].
  apply emit_drawn. intros x p. by apply plain_next_index.
Qed.

Lemma emit_openChannel_indices p0 r : triple (indices_ok p0) (emit_openChannel r) (fun _ => indices_ok p0).
Proof.
  unfold emit_openChannel. eapply triple_bind; [apply keeps_triple; by intros s|]. intros [c|]; [|apply triple_throw].
  eapply triple_bind; [apply triple_get|]. intros s. cbn beta.
  set (Q := fun p => p_nextChannelIndex p = getNextChannelIndex (t_pool s)).
  apply (triple_weaken _ (fun s1 => indices_ok p0 s1 /\ Q (t_pool s1)) _ (fun _ => indices_ok p0) (fun _ => indices_ok p0));
    [intros s1 [<- ?]; by split| |done].
  eapply triple_bind; [apply draw_indices|]. intros x. eapply triple_bind; [apply draw_indices|]. intros y.
  eapply triple_weaken; [|apply (emit_indices p0)|done].
  intros s1 [Hs1 Hq]. split; [done|]. split_and!; [by intros ? ? ? [=]|by intros i [= <-]|by intros].
Qed.

(** A channel without the token gives the nonce zero. *)
Lemma missing_nonce r t c p : pool_wf p -> getChannel r p = Some c -> am_has t (ch_tokens c) = false -> nonce_in r t p = 0.
Proof.
  intros Hp Hc Hh. rewrite (nonce_channel _ _ _ _ Hp Hc). destruct (getChannel_wf _ _ _ Hp Hc) as (Hcv & _).
  unfold am_has in Hh. rewrite Hcv in Hh. apply map_has_false in Hh. unfold nonce_of. by rewrite Hh.
Qed.

Definition at_channel (p0 : PoolSimulator) (r : Z) (c : Channel) (s : TransformState) : Prop :=
  indices_ok p0 s /\ getChannel r (t_pool s) = Some c.

Lemma subchannel_indices p0 r t force :
  triple (indices_ok p0) (transformOpenSubchannel options r t force) (at_channel p0 r).
Proof.
  intros s c s' Hs. unfold transformOpenSubchannel, channel_of, mbind at 1, stateE_bind at 1.
  destruct (getChannel r (t_pool s)) as [c0|] eqn:Hc; [|done].
  destruct (am_has t (ch_tokens c0)) eqn:Hh; [by intros [= <- <-]|].
  destruct (negb force && negb (autoSetup options))%bool; [by intros [= <- <-]|].
  unfold random, draw, mbind, stateE_bind. cbn -[emit getChannel].
  set (a := AOpenSubchannel _ _ _ _ _ _). set (s1 := {| t_pool := t_pool s; t_out := t_out s; t_draws := S (t_draws s) |}).
  destruct (emit a s1) as [[u|e] s2] eqn:He; [|done]. pose proof Hs as (Hw & _).
  assert (Hg : exists c1, getChannel r (t_pool s2) = Some c1).
  { destruct u. unfold emit, with_pool, mbind, stateE_bind in He. cbn -[push_action getChannel] in He.
    unfold handleOpenSubchannel in He. rewrite Hc in He. injection He as <-. cbn [t_pool].
    rewrite getChannel_eq by (apply put_channel_wf; [done|]; by eapply channel_wf_set, getChannel_wf).
    rewrite get_put_channel, decide_True by done. by eexists. }
  destruct Hg as [c1 Hg]. rewrite Hg. intros Heq. injection Heq as <- <-. split; [|exact Hg].
  apply (emit_indices p0 a s1 u s2); [|done]. split; [done|]. split_and!; [by intros ? ? ? [=]|by intros ? [=]|].
  intros r' pk k i t' sa Ha. unfold a in Ha. injection Ha as <- _ _ _ <- _. by eapply missing_nonce.
Qed.

Lemma read_nonce_indices p0 r t c :
  triple (at_channel p0 r c) (read_nonce r t c) (fun n s => indices_ok p0 s /\ n = nonce_in r t (t_pool s)).
Proof.
  intros s n s' [Hs Hc]. pose proof Hs as (Hw & _). pose proof (getChannel_wf _ _ _ Hw Hc) as Hcw.
  unfold read_nonce. pose proof (tokens_get_wf t c Hcw) as Hwf'. rewrite tokens_get_eq in * by done.
  set (c' := with_tokens c _) in *. cbn in Hwf'.
  assert (Hsame : forall t', nonce_of t' c' = nonce_of t' c).
  { intros t'. unfold nonce_of, c'. cbn. destruct (map_has t (am_map (ch_tokens c))) eqn:Hh; [done|].
    rewrite map_get_set. case_decide; [subst|done]. apply map_has_false in Hh. by rewrite Hh. }
  assert (Hput : forall r' t', nonce_in r' t' (put_channel r c' (t_pool s)) = nonce_in r' t' (t_pool s)).
  { intros r' t'. rewrite nonce_put by done. case_decide; [subst|done]. by rewrite Hsame, (nonce_channel r t' c). }
  unfold mbind, stateE_bind. destruct (with_pool _ s) as [[u|e] s1] eqn:Hp; [|done].
  intros Heq. injection Heq as <- <-. split.
  - eapply with_pool_indices; [|exact Hs|exact Hp]. intros p' <-%Ok_inj. split_and!; [by apply put_channel_wf|done|done].
  - unfold with_pool in Hp. injection Hp as _ <-. cbn [t_pool].
    by rewrite Hput, (nonce_channel r t c), nonce_of_entry.
Qed.

Lemma emit_createNote_indices p0 c : triple (indices_ok p0) (emit_createNote options c) (fun _ => indices_ok p0).
Proof.
  unfold emit_createNote. eapply triple_bind; [apply subchannel_indices|]. intros channel. destruct (cn_amount c) as [amount|].
  - eapply triple_bind; [apply read_nonce_indices|]. intros i.
    set (Q := fun p => i = nonce_in (cn_recipient c) (cn_token c) p).
    eapply triple_bind; [apply (draw_indices p0 _ Q)|]. intros x. eapply triple_weaken; [|apply (emit_indices p0)|done].
    intros s [Hs Hq]. split; [done|]. split_and!; [|by intros ? [=]|by intros]. intros r t j. cbn.
    destruct (bool_decide_reflect (cn_recipient c = r /\ cn_token c = t)) as [[<- <-]|]; [|done]. by intros [= <-].
  - eapply triple_bind; [apply read_nonce_indices|]. intros i.
    set (Q := fun p => i = nonce_in (cn_recipient c) (cn_token c) p).
    eapply triple_bind; [apply (draw_indices p0 _ Q)|]. intros x. eapply triple_weaken; [|apply (emit_indices p0)|done].
    intros s [Hs Hq]. split; [done|]. split_and!; [|by intros ? [=]|by intros]. intros r t j. cbn.
    destruct (bool_decide_reflect (cn_recipient c = r /\ cn_token c = t)) as [[<- <-]|]; [|done]. by intros [= <-].
Qed.

Lemma hasNote_same t id p : pool_wf p ->
  pool_wf (hasNote t id p).2 /\ p_nextChannelIndex (hasNote t id p).2 = p_nextChannelIndex p /\
  forall r t', nonce_in r t' (hasNote t id p).2 = nonce_in r t' p.
Proof.
  intros Hw. unfold hasNote. pose proof (notes_get_wf t p Hw) as Hw'. pose proof (notes_get_next t p) as Hn.
  pose proof (fun r t' => nonce_notes_get r t' t p) as Hr. by destruct (notes_get t p).
Qed.

Lemma setupNote_same t note p p' : pool_wf p -> setupNote t note p = Ok p' ->
  pool_wf p' /\ p_nextChannelIndex p' = p_nextChannelIndex p /\ forall r t', nonce_in r t' p' = nonce_in r t' p.
Proof.
  intros Hw. unfold setupNote. pose proof (notes_get_wf t p Hw) as Hw'. pose proof (notes_get_next t p) as Hn.
  pose proof (fun r t' => nonce_notes_get r t' t p) as Hr. pose proof (notes_get_eq t p Hw) as Hg.
  pose proof (notes_of_wf t p Hw) as Hm. destruct (notes_get t p) as [m q]. cbn in Hw', Hn, Hr.
  destruct (toBigInt (note_id note)); [|done]. intros <-%Ok_inj. injection Hg as -> _. split_and!; [|done|].
  - apply put_notes_wf; [done|by apply map_set_wf].
  - intros r t'. by rewrite nonce_notes.
Qed.

Lemma emit_useNote_indices p0 u : triple (indices_ok p0) (emit_useNote u) (fun _ => indices_ok p0).
Proof.
  unfold emit_useNote. eapply (triple_bind _ _ (fun _ => indices_ok p0)).
  - intros s a s' Hs. apply with_pool_indices; [|done]. pose proof Hs as (Hw & _). intros p'.
    destruct (toBigInt (note_id (un_note u))) as [id|]; [|done].
    pose proof (hasNote_same (un_token u) id (t_pool s) Hw) as (Hw1 & Hn1 & Hr1).
    destruct (hasNote (un_token u) id (t_pool s)) as [[] q]; cbn in Hw1, Hn1, Hr1.
    + by intros <-%Ok_inj.
    + intros Hset. destruct (setupNote_same _ _ _ _ Hw1 Hset) as (Hw2 & Hn2 & Hr2).
      split_and!; [done|congruence|]. intros r t. by rewrite Hr2.
  - intros _. apply emit_plain. intros p. by apply plain_next_index.
Qed.

Lemma emit_batch_indices p0 actions : triple (indices_ok p0) (emit_batch options actions) (fun _ => indices_ok p0).
Proof.
  unfold emit_batch.
  eapply triple_bind; [apply emit_setViewingKey_indices|]. intros ?.
  eapply triple_bind; [apply triple_for_inv; intros r _; apply emit_openChannel_indices|]. intros ?.
  eapply triple_bind; [apply triple_for_inv; intros b _|].
  { eapply triple_bind; [apply subchannel_indices|]. intros c. eapply triple_weaken; [|apply (triple_ret tt (fun _ => indices_ok p0))|done].
    by intros s [Hs _]. }
  intros ?. eapply triple_bind; [apply triple_for_inv; intros d _; apply emit_plain; intros p; by apply plain_next_index|]. intros ?.
  eapply triple_bind; [apply triple_for_inv; intros u _; apply emit_useNote_indices|]. intros ?.
  eapply triple_bind; [apply triple_for_inv; intros c _; apply emit_createNote_indices|]. intros ?.
  apply triple_for_inv. intros w _. apply emit_drawn. intros x p. by apply plain_next_index.
Qed.

(** ** Subchannels *)

Lemma tokens_put r r' c p : pool_wf p ->
  tokens_in r (put_channel r' c p) = if decide (r = r') then Z.of_nat (am_size (ch_tokens c)) else tokens_in r p.
Proof. intros Hp. unfold tokens_in. rewrite get_put_channel by done. by case_decide. Qed.

Lemma tokens_channel r c p : pool_wf p -> getChannel r p = Some c -> tokens_in r p = Z.of_nat (am_size (ch_tokens c)).
Proof. intros Hp Hc. rewrite getChannel_eq in Hc by done. unfold tokens_in. by rewrite Hc. Qed.

Lemma has_channel r t c p : pool_wf p -> getChannel r p = Some c -> has_token r t p = am_has t (ch_tokens c).
Proof. intros Hp Hc. rewrite getChannel_eq in Hc by done. unfold has_token. by rewrite Hc. Qed.

(** A change of the notes alone. *)
Lemma same_channels_tokens p p' : p_channels p' = p_channels p -> forall r, tokens_in r p' = tokens_in r p.
Proof. intros Hc r. unfold tokens_in. by rewrite Hc. Qed.

Lemma notes_get_channels t p : p_channels (notes_get t p).2 = p_channels p.
Proof. unfold notes_get. by destruct (am_get t None (p_notes p)). Qed.

(** Advancing the nonce of a token the channel lists adds no token. *)
Lemma tokens_advance r' t' r p p' : pool_wf p -> has_token r' t' p = true -> advanceNonce r' t' p = Ok p' ->
  tokens_in r p' = tokens_in r p.
Proof.
  intros Hp Hh. unfold advanceNonce. destruct (getChannel r' p) as [c|] eqn:Hc; [|done]. intros <-%Ok_inj.
  pose proof (getChannel_wf r' c p Hp Hc) as Hcw. rewrite tokens_put by done. case_decide as Hr; [subst r|done].
  rewrite (tokens_channel _ _ _ Hp Hc). rewrite (has_channel _ _ _ _ Hp Hc) in Hh. rewrite increment_eq by done. cbn.
  unfold am_size, am_has in *. cbn. destruct Hcw as (Hk & _). rewrite Hk in Hh. f_equal.
  pose proof (map_keys_set t' {| tokenIndex := tokenIndex (entry_of t' c); noteNonce := noteNonce (entry_of t' c) + 1 |}
                (am_map (ch_tokens c))) as Hks.
  rewrite Hh in Hks. apply (f_equal length) in Hks. unfold map_keys in Hks. by rewrite !length_map in Hks.
Qed.

(** An action whose token is new on its channel if it opens a subchannel, and listed there if it
    creates a note. *)
Definition token_ready (p : PoolSimulator) (a : ClientAction) : Prop :=
  match a with
  | AOpenSubchannel r _ _ i t _ => i = tokens_in r p /\ has_token r t p = false
  | ACreateEncNote r _ t _ _ _ | ACreateOpenNote r _ t _ _ => has_token r t p = true
  | _ => True
  end.

(** Opening a subchannel adds a token to its channel; no other action adds one. *)
Lemma execute_tokens a p p' r : pool_wf p -> execute a p = Ok p' -> token_ready p a ->
  tokens_in r p' = tokens_in r p + (if bool_decide (is_Some (subchannel_index r a)) then 1 else 0).
Proof.
  intros Hp Hrun Hready.
  destruct a as [?|r' i ra sa|r' pk k i t' sa|r' pk t' am i sa|r' pk t' i ra|t' am|k t' i|to t' am ra|ca cd|ca c1 c2];
    cbn [execute subchannel_index token_ready] in *.
  all: try (apply Ok_inj in Hrun as <-; cbn; lia).
  - unfold handleSetViewingKey in Hrun. destruct (am_has _ _) eqn:Hh; [done|]. cbn in Hrun. apply Ok_inj in Hrun as <-.
    rewrite tokens_put by done. cbn. case_decide as Hr; [|lia]. subst r.
    unfold tokens_in. unfold am_has in Hh. destruct Hp as (Hc & _). rewrite Hc in Hh. apply map_has_false in Hh. by rewrite Hh.
  - unfold handleOpenChannel in Hrun. destruct (getChannel r' p) as [c|] eqn:Hc; [|done]. apply Ok_inj in Hrun as <-.
    change (tokens_in r (with_nextChannelIndex ?q _)) with (tokens_in r q). rewrite tokens_put by done. cbn.
    case_decide as Hr; [subst|lia]. rewrite (tokens_channel _ _ _ Hp Hc). lia.
  - unfold handleOpenSubchannel in Hrun. destruct (getChannel r' p) as [c|] eqn:Hc; [|done]. apply Ok_inj in Hrun as <-.
    destruct Hready as [_ Hnew]. rewrite (has_channel _ _ _ _ Hp Hc) in Hnew. pose proof (getChannel_wf _ _ _ Hp Hc) as Hcw.
    rewrite tokens_put by done. case_decide as Hr.
    + subst r. rewrite (tokens_channel _ _ _ Hp Hc), (bool_decide_eq_true_2 (r' = r')), bool_decide_eq_true_2 by (done || by eexists).
      cbn [with_tokens ch_tokens]. rewrite am_size_set by done. lia.
    + rewrite (bool_decide_eq_false_2 (r' = r)) by congruence. cbn. lia.
  - unfold handleCreateEncNote in Hrun. destruct (advanceNonce r' t' p) as [p1|] eqn:Ha; [|done]. cbn [mbind result_bind] in Hrun.
    rewrite <- (tokens_advance _ _ r _ _ Hp Hready Ha). cbn. rewrite Z.add_0_r.
    destruct (_ && _)%bool; [|by apply Ok_inj in Hrun as <-].
    pose proof (notes_get_channels t' p1) as Hg. destruct (notes_get t' p1) as [m p2]. cbn in Hg.
    apply Ok_inj in Hrun as <-. by apply same_channels_tokens.
  - unfold handleCreateOpenNote in Hrun. rewrite (tokens_advance _ _ r _ _ Hp Hready Hrun). cbn. lia.
  - unfold handleUseNote in Hrun. pose proof (notes_get_channels t' p) as Hg. destruct (notes_get t' p) as [m p2].
    cbn in Hg. apply Ok_inj in Hrun as <-. cbn. rewrite Z.add_0_r. by apply same_channels_tokens.
Qed.

(** The subchannels listed so far for every recipient. *)
Definition subchannels (r : Z) (c : ClientActions) : list Z := omap (subchannel_index r) (ca_openTokenChannels c).
Definition subs_listed (p0 : PoolSimulator) (c : ClientActions) : Prop :=
  forall r, subchannels r c = seqZ (tokens_in r p0) (Z.of_nat (length (subchannels r c))).

(** ... and the channels list as many more tokens. *)
Definition subs_ok (p0 : PoolSimulator) (s : TransformState) : Prop :=
  pool_wf (t_pool s) /\ subs_listed p0 (t_out s) /\
  forall r, tokens_in r (t_pool s) = tokens_in r p0 + Z.of_nat (length (subchannels r (t_out s))).

Lemma push_action_subchannels r a c :
  subchannels r (push_action a c) = subchannels r c ++ option_list (subchannel_index r a).
Proof.
  unfold subchannels. destruct c, a; cbn; rewrite ?app_nil_r; try done. rewrite omap_app. cbn. by destruct (bool_decide _).
Qed.

Lemma emit_subs p0 a :
  triple (fun s => subs_ok p0 s /\ token_ready (t_pool s) a) (emit a) (fun _ => subs_ok p0).
Proof.
  intros s [] s' [(Hw & Hl & Ht) Hready]. unfold emit, with_pool, mbind, stateE_bind.
  destruct (execute a (t_pool s)) as [p'|e] eqn:Hrun; [|done]. cbn -[push_action].
  intros Heq. injection Heq as <-.
  assert (Hix : forall r i, subchannel_index r a = Some i -> i = tokens_in r (t_pool s)).
  { intros r i. destruct a; cbn in *; try done. case_bool_decide; [|done]. subst. intros [= <-]. by destruct Hready. }
  split_and!; cbn -[push_action].
  - by eapply execute_wf.
  - intros r. rewrite push_action_subchannels, length_app. destruct (subchannel_index r a) as [i|] eqn:Hi; cbn.
    + by rewrite Nat.add_1_r, seqZ_snoc, <- Hl, (Hix _ _ Hi), Ht.
    + by rewrite app_nil_r, Nat.add_0_r.
  - intros r. rewrite (execute_tokens a (t_pool s) p' r), push_action_subchannels, length_app, Ht by done.
    destruct (subchannel_index r a); cbn; lia.
Qed.

Lemma emit_plain_subs p0 a : (forall p, token_ready p a) -> triple (subs_ok p0) (emit a) (fun _ => subs_ok p0).
Proof. intros Ha s r s' Hs. by apply emit_subs. Qed.

Lemma draw_subs {A} p0 (source : nat -> A) Q :
  triple (fun s => subs_ok p0 s /\ Q (t_pool s)) (draw source) (fun _ s => subs_ok p0 s /\ Q (t_pool s)).
Proof. intros s a s' Hs. by intros [= _ <-]. Qed.

Lemma emit_drawn_subs p0 {A} (source : nat -> A) (mk : A -> ClientAction) : (forall x p, token_ready p (mk x)) ->
  triple (subs_ok p0) (x ← draw source; emit (mk x)) (fun _ => subs_ok p0).
Proof.
  intros Hmk. apply (triple_bind _ _ (fun _ => subs_ok p0)).
  - eapply triple_weaken; [|apply (draw_subs p0 source (fun _ => True))|]; [by split|by intros ? ? [? _]].
  - intros x. by apply emit_plain_subs.
Qed.

(** After a subchannel that may be opened, its token is listed. *)
Definition subs_at (p0 : PoolSimulator) (r t : Z) (c : Channel) (s : TransformState) : Prop :=
  subs_ok p0 s /\ getChannel r (t_pool s) = Some c /\ am_has t (ch_tokens c) = true.

Lemma subchannel_subs p0 r t force : (force || autoSetup options)%bool = true ->
  triple (subs_ok p0) (transformOpenSubchannel options r t force) (subs_at p0 r t).
Proof.
  intros Hforce s c s' Hs. unfold transformOpenSubchannel, channel_of, mbind at 1, stateE_bind at 1.
  destruct (getChannel r (t_pool s)) as [c0|] eqn:Hc; [|done].
  destruct (am_has t (ch_tokens c0)) eqn:Hh; [by intros [= <- <-]|].
  replace (negb force && negb (autoSetup options))%bool with false by (by destruct force, (autoSetup options)).
  unfold random, draw, mbind, stateE_bind. cbn -[emit getChannel].
  set (a := AOpenSubchannel _ _ _ _ _ _). set (s1 := {| t_pool := t_pool s; t_out := t_out s; t_draws := S (t_draws s) |}).
  destruct (emit a s1) as [[u|e] s2] eqn:He; [|done]. pose proof Hs as (Hw & _).
  pose proof (getChannel_wf _ _ _ Hw Hc) as Hcw.
  assert (Hg : exists c1, getChannel r (t_pool s2) = Some c1 /\ am_has t (ch_tokens c1) = true).
  { destruct u. unfold emit, with_pool, mbind, stateE_bind in He. cbn -[push_action getChannel] in He.
    unfold handleOpenSubchannel in He. rewrite Hc in He. injection He as <-. cbn [t_pool].
    rewrite getChannel_eq by (apply put_channel_wf; [done|]; by apply channel_wf_set).
    rewrite get_put_channel, decide_True by done. eexists. split; [done|]. cbn [with_tokens ch_tokens].
    rewrite channel_has_set by done. by rewrite bool_decide_eq_true_2. }
  destruct Hg as (c1 & Hg & Hg'). rewrite Hg. intros Heq. injection Heq as <- <-. split; [|by split].
  apply (emit_subs p0 a s1 u s2); [|done]. split; [done|]. change (t_pool s1) with (t_pool s). cbn [token_ready a].
  split; [by rewrite (tokens_channel _ _ _ Hw Hc)|by rewrite (has_channel _ _ _ _ Hw Hc)].
Qed.

Lemma read_nonce_subs p0 r t c :
  triple (subs_at p0 r t c) (read_nonce r t c) (fun _ s => subs_ok p0 s /\ has_token r t (t_pool s) = true).
Proof.
  intros s n s' ((Hw & Hl & Ht) & Hc & Hh). pose proof (getChannel_wf _ _ _ Hw Hc) as Hcw.
  unfold read_nonce. rewrite tokens_get_eq by done. unfold am_has in Hh. destruct Hcw as (Hk & Hf & Hcw). rewrite Hk in Hh. rewrite Hh.
  set (c' := with_tokens c _). assert (Hc' : channel_wf c') by (split_and!; done).
  unfold mbind, stateE_bind, with_pool. intros Heq. injection Heq as _ <-. cbn [t_pool t_out]. split.
  - split_and!; [by apply put_channel_wf|done|]. intros r'. cbn [t_pool t_out]. rewrite tokens_put by done.
    case_decide as Hr; [|apply Ht]. subst r'. rewrite <- Ht, (tokens_channel _ _ _ Hw Hc). done.
  - unfold has_token. rewrite get_put_channel, decide_True by done. exact Hh.
Qed.

Lemma emit_createNote_subs p0 c : autoSetup options = true ->
  triple (subs_ok p0) (emit_createNote options c) (fun _ => subs_ok p0).
Proof.
  intros Hauto. unfold emit_createNote. eapply triple_bind; [apply subchannel_subs; by rewrite Hauto, orb_true_r|].
  intros channel. set (Q := fun p => has_token (cn_recipient c) (cn_token c) p = true).
  destruct (cn_amount c) as [amount|].
  all: eapply triple_bind; [apply read_nonce_subs|]; intros i.
  all: eapply triple_bind; [apply (draw_subs p0 _ Q)|]; intros x.
  all: by eapply triple_weaken; [|apply (emit_subs p0)|done].
Qed.

(** Without [autoSetup], creating a note opens no subchannel. *)
Lemma emit_createNote_quiet p0 c : autoSetup options = false ->
  keeps (fun s => subs_listed p0 (t_out s)) (emit_createNote options c).
Proof.
  intros Hauto.
  assert (Hsub : keeps (fun s => subs_listed p0 (t_out s)) (transformOpenSubchannel options (cn_recipient c) (cn_token c) false)).
  { intros s Hs. unfold transformOpenSubchannel, channel_of, mbind, stateE_bind.
    destruct (getChannel _ (t_pool s)) as [c0|]; [|done]. destruct (am_has _ _); [done|]. by rewrite Hauto. }
  assert (Hemit : forall a, (forall r, subchannel_index r a = None) -> keeps (fun s => subs_listed p0 (t_out s)) (emit a)).
  { intros a Ha s Hs. unfold emit, with_pool, mbind, stateE_bind. destruct (execute a (t_pool s)); [|done].
    intros r. cbn -[push_action]. by rewrite push_action_subchannels, Ha, app_nil_r. }
  assert (Hdraw : forall A (source : nat -> A), keeps (fun s => subs_listed p0 (t_out s)) (draw source)) by (intros A source s Hs; exact Hs).
  assert (Hput : forall r c', keeps (fun s => subs_listed p0 (t_out s)) (with_pool (fun p => Ok (put_channel r c' p))))
    by (intros r c' s Hs; exact Hs).
  unfold emit_createNote, read_nonce, random, random120. apply keeps_bind; [done|]. intros ch.
  destruct (cn_amount c); destruct (tokens_get (cn_token c) ch) as [tc ch'].
  all: apply keeps_bind; [apply keeps_bind; [apply Hput|intros ?; apply keeps_ret]|]; intros i.
  all: apply keeps_bind; [apply Hdraw|]; intros x; by apply Hemit.
Qed.

Lemma with_pool_subs p0 f s a s' :
  (forall p', f (t_pool s) = Ok p' -> pool_wf p' /\ p_channels p' = p_channels (t_pool s)) ->
  subs_ok p0 s -> with_pool f s = (Ok a, s') -> subs_ok p0 s'.
Proof.
  intros Hf (Hw & Hl & Ht). unfold with_pool. destruct (f (t_pool s)) as [p'|] eqn:Hrun; [|done].
  intros [= _ <-]. destruct (Hf _ eq_refl) as (Hw' & Hc). split_and!; [done|done|].
  intros r. cbn. by rewrite (same_channels_tokens _ _ Hc).
Qed.

Lemma hasNote_channels t id p : p_channels (hasNote t id p).2 = p_channels p.
Proof. unfold hasNote. pose proof (notes_get_channels t p). by destruct (notes_get t p). Qed.

Lemma setupNote_channels t note p p' : setupNote t note p = Ok p' -> p_channels p' = p_channels p.
Proof.
  unfold setupNote. pose proof (notes_get_channels t p) as Hc. destruct (notes_get t p) as [m q].
  destruct (toBigInt (note_id note)); [|done]. by intros <-%Ok_inj.
Qed.

Lemma emit_useNote_subs p0 u : triple (subs_ok p0) (emit_useNote u) (fun _ => subs_ok p0).
Proof.
  unfold emit_useNote. eapply (triple_bind _ _ (fun _ => subs_ok p0)).
  - intros s a s' Hs. apply with_pool_subs; [|done]. pose proof Hs as (Hw & _). intros p'.
    destruct (toBigInt (note_id (un_note u))) as [id|]; [|done].
    pose proof (hasNote_same (un_token u) id (t_pool s) Hw) as (Hw1 & _). pose proof (hasNote_channels (un_token u) id (t_pool s)) as Hc1.
    destruct (hasNote (un_token u) id (t_pool s)) as [[] q]; cbn in Hw1, Hc1.
    + by intros <-%Ok_inj.
    + intros Hset. destruct (setupNote_same _ _ _ _ Hw1 Hset) as (Hw2 & _). split; [done|].
      by rewrite (setupNote_channels _ _ _ _ Hset).
  - intros _. by apply emit_plain_subs.
Qed.

(** The phases before the created notes keep the channels' counters in step. *)
Lemma emit_openChannel_subs p0 r : triple (subs_ok p0) (emit_openChannel r) (fun _ => subs_ok p0).
Proof.
  unfold emit_openChannel. eapply triple_bind; [apply keeps_triple; by intros s|]. intros [c|]; [|apply triple_throw].
  eapply triple_bind; [apply (triple_get (subs_ok p0))|]. intros s. cbn beta.
  apply (triple_weaken _ (fun s1 => subs_ok p0 s1 /\ True) _ (fun _ => subs_ok p0) (fun _ => subs_ok p0));
    [by intros s1 [_ ?]| |done].
  eapply triple_bind; [apply (draw_subs p0 _ (fun _ => True))|]. intros x.
  eapply triple_bind; [apply (draw_subs p0 _ (fun _ => True))|]. intros y.
  by eapply triple_weaken; [|apply (emit_subs p0)|done].
Qed.

Lemma emit_batch_subs p0 actions : triple (subs_ok p0) (emit_batch options actions) (fun _ s => subs_listed p0 (t_out s)).
Proof.
  unfold emit_batch.
  eapply (triple_bind _ _ (fun _ => subs_ok p0)).
  { unfold emit_setViewingKey. destruct (setViewingKey actions); [|apply (triple_ret tt (fun _ => subs_ok p0))]. by apply emit_drawn_subs. }
  intros ?. eapply triple_bind; [apply triple_for_inv; intros r _; apply emit_openChannel_subs|]. intros ?.
  eapply triple_bind; [apply triple_for_inv; intros b _|].
  { eapply triple_bind; [by apply subchannel_subs|]. intros c. eapply triple_weaken; [|apply (triple_ret tt (fun _ => subs_ok p0))|done].
    by intros s [Hs _]. }
  intros ?. eapply triple_bind; [apply triple_for_inv; intros d _; by apply emit_plain_subs|]. intros ?.
  eapply triple_bind; [apply triple_for_inv; intros u _; apply emit_useNote_subs|]. intros ?.
  apply (triple_bind _ _ (fun _ s => subs_listed p0 (t_out s))).
  - destruct (autoSetup options) eqn:Hauto.
    + apply (triple_weaken _ (subs_ok p0) _ _ (fun _ => subs_ok p0)); [done| |by intros ? s (_ & Hl & _)].
      apply triple_for_inv. intros c _. by apply emit_createNote_subs.
    + apply (triple_weaken _ (fun s => subs_listed p0 (t_out s)) _ _ (fun _ s => subs_listed p0 (t_out s)));
        [by intros s (_ & Hl & _)| |done].
      apply triple_for_inv. intros c _. by apply keeps_triple, emit_createNote_quiet.
  - intros ?. apply triple_for_inv. intros w _ s r s' Hs. unfold emit_withdraw, random, draw, emit, with_pool, mbind, stateE_bind.
    cbn -[push_action]. intros Heq. injection Heq as _ <-. intros r'. cbn -[push_action].
    rewrite push_action_subchannels. cbn. rewrite app_nil_r. apply Hs.
Qed.

(** C5: the channels a batch opens get consecutive indices from the first free one; the subchannels it
    opens on the channel to a recipient get consecutive indices from the number of tokens that channel
    had at the start (zero for a channel the pool did not know); and the notes it creates for a recipient
    and a token get consecutive indices from the nonce the simulator started with (zero for a
    subchannel opened by the batch). The simulator is one its own operations make ([pool_wf]). So no two channels, no two subchannels of a channel and no two
    notes of a subchannel share an index. *)
Theorem emitted_indices_consecutive actions pool n u s' :
  pool_wf pool ->
  emit_batch options actions {| t_pool := pool; t_out := no_ClientActions; t_draws := n |} = (Ok u, s') ->
  (let l := omap channel_index (ca_openChannels (t_out s')) in
   l = seqZ (p_nextChannelIndex pool) (Z.of_nat (length l)) /\ NoDup l) /\
  (forall r, let l := omap (subchannel_index r) (ca_openTokenChannels (t_out s')) in
    l = seqZ (tokens_in r pool) (Z.of_nat (length l)) /\ NoDup l) /\
  forall r t, let l := omap (note_index r t) (ca_createNotes (t_out s')) in
    l = seqZ (nonce_in r t pool) (Z.of_nat (length l)) /\ NoDup l.
Proof.
  intros Hw Hrun.
  assert (H0' : indices_ok pool {| t_pool := pool; t_out := no_ClientActions; t_draws := n |}).
  { split_and!; [done| |]; cbn; [intros r t|]; cbn; (split; [done|lia]). }
  assert (H1' : subs_ok pool {| t_pool := pool; t_out := no_ClientActions; t_draws := n |}).
  { split_and!; [done|done|]. intros r. cbn. lia. }
  destruct (emit_batch_indices pool actions _ _ _ H0' Hrun) as (_ & Hn & Hc).
  pose proof (emit_batch_subs pool actions _ _ _ H1' Hrun) as Hs.
  assert (Hseq : forall m (l : list Z), l = seqZ m (Z.of_nat (length l)) -> l = seqZ m (Z.of_nat (length l)) /\ NoDup l).
  { intros m l Hl. split; [exact Hl|]. rewrite Hl. apply NoDup_seqZ. }
  split_and!; [apply Hseq, Hc|intros r; apply Hseq, Hs|intros r t; apply Hseq, Hn].
Qed.
End Indices.

Lemma emitted_indices_consecutive_witness :
  let s' := (@emit_batch toy_crypto toy_platform setup_options sample_actions
               {| t_pool := sample_pool; t_out := no_ClientActions; t_draws := 1 |}).2 in
  ca_openTokenChannels (t_out s') <> [] /\
  (let l := omap channel_index (ca_openChannels (t_out s')) in
   l = seqZ (p_nextChannelIndex sample_pool) (Z.of_nat (length l)) /\ NoDup l) /\
  (forall r, let l := omap (subchannel_index r) (ca_openTokenChannels (t_out s')) in
    l = seqZ (tokens_in r sample_pool) (Z.of_nat (length l)) /\ NoDup l) /\
  forall r t, let l := omap (note_index r t) (ca_createNotes (t_out s')) in
    l = seqZ (nonce_in r t sample_pool) (Z.of_nat (length l)) /\ NoDup l.
Proof.
  split; [vm_compute; discriminate|].
  apply (@emitted_indices_consecutive toy_crypto toy_platform setup_options sample_actions sample_pool 1 tt).
  - unfold sample_pool. rewrite setupChannel_eq; [apply put_channel_wf; [apply new_pool_wf|]|].
    all: split_and!; try reflexivity; apply NoDup_singleton.
  - vm_compute. reflexivity.
Defined.
