(* ===== verification/MockPool.v ===== *)
(** * The mock pool contract ([sdk/src/testing/mock-pool-contract.ts], [contracts.ts])

    The pool the SDK is tested against: [compile_actions] checks a list of client
    actions on a copy of the state and returns server actions, [apply_actions]
    replays them. A server action is a closure in the source; here it is a value of
    [ServerAction] holding what the closure captured. *)
From Stdlib Require Import Ascii ZArith Lia.
From stdpp Require Import base tactics list gmap strings.
From S2P Require Import Prelude JsMap Convert Crypto Encryptions Interfaces Channel.

Local Open Scope string_scope.
Local Open Scope Z_scope.

(** ** State *)

Inductive StoredNote : Type :=
| EncryptedNote (packed token index : Z)
| OpenNote (r amount token : Z).

#[export] Instance StoredNote_eq_dec : EqDecision StoredNote.
Proof. solve_decision. Defined.

(** The maps and sets of the class. [Map]s and [Set]s that are only read by key are finite maps and
    sets; [channels] is keyed by the string [address:publicKey]. *)
Record MockPool : Type := {
  publicKeys : gmap Z Z;
  channels : gmap string (list EncChannelInfo);
  channelMarkers : gset Z;
  subchannels : gmap Z EncSubchannelInfo;
  subchannelMarkers : gset Z;
  notes : gmap Z StoredNote;
  nullifiers : gset Z;
  outgoingChannels : gmap Z EncOutgoingChannelInfo }.

Definition empty_MockPool : MockPool :=
  {| publicKeys := ∅; channels := ∅; channelMarkers := ∅; subchannels := ∅; subchannelMarkers := ∅;
     notes := ∅; nullifiers := ∅; outgoingChannels := ∅ |}.

(** The key converter of [ChannelsMap]. *)
Definition channels_key (address publicKey : Z) : string :=
  bigint_toString 10 address +:+ ":" +:+ bigint_toString 10 publicKey.

Inductive mock_error : Type :=
| NotRegistered (address : Z)
| AlreadyRegistered (address : Z)
| RecipientNotRegistered (address : Z)
| NegativeIndex (index : Z)
| NotSequential (index : Z)
| AlreadyExists (id : Z)
| DoesNotExist (id : Z)
| TotalNegative (token total : Z)
| TotalNotZero (token total : Z)
| NegativeAmount (amount : Z)
| NoteNotFound
| OpenNoteAsInput
| NoteNotOpen (id : Z)
| NoteTokenMismatch (id : Z)
| NoteAlreadyFilled (id : Z)
| InsufficientTokens
| MethodNotFound (address : Z) (method : string)
| UndefinedResult
| BalanceMismatch (balance amount : Z)
| ActionMismatch
| MalformedAttestation
| MockTypeError
| MockCrypto (e : crypto_error).

(** What the closure of a [MockServerAction] captured. *)
Inductive ServerAction : Type :=
| SRegister (address publicKey : Z)
| SSetChannel (channelMarker toAddress toPublicKey : Z) (info : EncChannelInfo)
    (outgoingChannelId : Z) (encOutgoing : EncOutgoingChannelInfo)
| SSetToken (subchannelId subchannelMarker : Z) (info : EncSubchannelInfo)
| SUseNote (nullifier : Z)
| SCreateEncNote (noteId : Z) (noteData : StoredNote)
| SCreateOpenNote (noteId : Z) (noteData : StoredNote)
| SDeposit (from token amount : Z)
| SWithdraw (token recipient amount : Z)
| SInvoke (contractAddress : Z) (calldata : list Z)
| SComputeAndInvoke (sender privateKey contractAddress : Z) (compute_data invoke_data : list Z).

Definition deferred (a : ServerAction) : bool :=
  match a with SDeposit _ _ _ | SWithdraw _ _ _ | SInvoke _ _ | SComputeAndInvoke _ _ _ _ _ => true | _ => false end.

(** [type]: the name the action has in the calldata. *)
Definition server_type (a : ServerAction) : string :=
  match a with
  | SRegister _ _ => "SetViewingKey"
  | SSetChannel _ _ _ _ _ _ => "OpenChannel"
  | SSetToken _ _ _ => "OpenSubchannel"
  | SUseNote _ => "UseNote"
  | SCreateEncNote _ _ => "CreateEncNote"
  | SCreateOpenNote _ _ => "CreateOpenNote"
  | SDeposit _ _ _ => "Deposit"
  | SWithdraw _ _ _ => "Withdraw"
  | SInvoke _ _ => "InvokeExternal"
  | SComputeAndInvoke _ _ _ _ _ => "ComputeAndInvoke"
  end.

Definition mock_assert (cond : bool) (e : mock_error) : result mock_error unit := js_assert cond e.

(** ** Updating one field *)

Definition with_publicKeys (p : MockPool) (v : gmap Z Z) : MockPool :=
  {| publicKeys := v; channels := channels p; channelMarkers := channelMarkers p; subchannels := subchannels p;
     subchannelMarkers := subchannelMarkers p; notes := notes p; nullifiers := nullifiers p;
     outgoingChannels := outgoingChannels p |}.
Definition with_notes_map (p : MockPool) (v : gmap Z StoredNote) : MockPool :=
  {| publicKeys := publicKeys p; channels := channels p; channelMarkers := channelMarkers p; subchannels := subchannels p;
     subchannelMarkers := subchannelMarkers p; notes := v; nullifiers := nullifiers p;
     outgoingChannels := outgoingChannels p |}.
Definition with_nullifiers (p : MockPool) (v : gset Z) : MockPool :=
  {| publicKeys := publicKeys p; channels := channels p; channelMarkers := channelMarkers p; subchannels := subchannels p;
     subchannelMarkers := subchannelMarkers p; notes := notes p; nullifiers := v;
     outgoingChannels := outgoingChannels p |}.
Definition with_subchannels (p : MockPool) (v : gmap Z EncSubchannelInfo) (markers : gset Z) : MockPool :=
  {| publicKeys := publicKeys p; channels := channels p; channelMarkers := channelMarkers p; subchannels := v;
     subchannelMarkers := markers; notes := notes p; nullifiers := nullifiers p;
     outgoingChannels := outgoingChannels p |}.

(** ** Applying a server action to the pool's state *)

Definition apply_state (a : ServerAction) (p : MockPool) : result mock_error MockPool :=
  match a with
  | SRegister address publicKey =>
      _ ← mock_assert (bool_decide (publicKeys p !! address = None)) (AlreadyRegistered address);
      Ok (with_publicKeys p (<[address := publicKey]> (publicKeys p)))
  | SSetChannel channelMarker toAddress toPublicKey info outgoingChannelId encOutgoing =>
      _ ← mock_assert (bool_decide (channelMarker ∉ channelMarkers p)) (AlreadyExists channelMarker);
      let key := channels_key toAddress toPublicKey in
      Ok {| publicKeys := publicKeys p;
            channels := <[key := (default [] (channels p !! key) ++ [info])%list]> (channels p);
            channelMarkers := {[channelMarker]} ∪ channelMarkers p;
            subchannels := subchannels p; subchannelMarkers := subchannelMarkers p; notes := notes p;
            nullifiers := nullifiers p;
            outgoingChannels := <[outgoingChannelId := encOutgoing]> (outgoingChannels p) |}
  | SSetToken subchannelId subchannelMarker info =>
      _ ← mock_assert (bool_decide (subchannelMarker ∉ subchannelMarkers p)) (AlreadyExists subchannelMarker);
      Ok (with_subchannels p (<[subchannelId := info]> (subchannels p)) ({[subchannelMarker]} ∪ subchannelMarkers p))
  | SUseNote nullifier =>
      _ ← mock_assert (bool_decide (nullifier ∉ nullifiers p)) (AlreadyExists nullifier);
      Ok (with_nullifiers p ({[nullifier]} ∪ nullifiers p))
  | SCreateEncNote noteId noteData =>
      _ ← mock_assert (bool_decide (notes p !! noteId = None)) (AlreadyExists noteId);
      Ok (with_notes_map p (<[noteId := noteData]> (notes p)))
  | SCreateOpenNote noteId noteData => Ok (with_notes_map p (<[noteId := noteData]> (notes p)))
  | _ => Ok p
  end.

Section Pool.
Context `{StarkCrypto}.

(** ** Checking client actions: the private methods that make server actions *)

Definition get_public_key (userAddr : Z) (p : MockPool) : Z := default 0 (publicKeys p !! userAddr).

Definition assertRegistered (address : Z) (p : MockPool) : result mock_error unit :=
  mock_assert (bool_decide (is_Some (publicKeys p !! address))) (NotRegistered address).

Definition register (address privateKey : Z) : result mock_error ServerAction :=
  Ok (SRegister address (derivePublicKey privateKey)).

Definition lift_crypto {A} (r : result crypto_error A) : result mock_error A :=
  match r with Ok a => Ok a | Err e => Err (MockCrypto e) end.

(** [outgoingSalt] is the value [generateRandom] returns. *)
Definition setChannel (from fromPrivateKey to toPublicKey index random outgoingSalt : Z) (p : MockPool)
  : result mock_error ServerAction :=
  _ ← assertRegistered from p;
  let channelKey := compute_channel_key from fromPrivateKey to toPublicKey in
  channelInfo ← lift_crypto (encryptChannelInfo random toPublicKey channelKey from);
  _ ← mock_assert (0 <=? index) (NegativeIndex index);
  _ ← (if 0 <? index then
         mock_assert (bool_decide (is_Some (outgoingChannels p !! compute_outgoing_channel_id from fromPrivateKey (index - 1))))
           (NotSequential index)
       else Ok tt);
  Ok (SSetChannel (compute_channel_marker channelKey from to toPublicKey) to toPublicKey channelInfo
        (compute_outgoing_channel_id from fromPrivateKey index)
        (encryptOutgoingChannelInfo from fromPrivateKey index to outgoingSalt)).

(** Hashing an undefined channel key throws. *)
Definition setToken (from to toPublicKey : Z) (channelKey : option Z) (token index random : Z) (p : MockPool)
  : result mock_error ServerAction :=
  _ ← assertRegistered from p;
  match channelKey with
  | None => Err MockTypeError
  | Some channelKey =>
      _ ← mock_assert (bool_decide (compute_channel_marker channelKey from to toPublicKey ∈ channelMarkers p))
            (DoesNotExist to);
      _ ← mock_assert ((index =? 0) || bool_decide (is_Some (subchannels p !! compute_subchannel_id channelKey (index - 1))))
            (NotSequential index);
      let subchannelId := compute_subchannel_id channelKey index in
      _ ← mock_assert (bool_decide (subchannels p !! subchannelId = None)) (AlreadyExists token);
      Ok (SSetToken subchannelId (compute_subchannel_marker channelKey to toPublicKey token)
            (encryptSubchannelInfo channelKey index token random))
  end.

Definition useNote (owner ownerPrivateKey token channelKey index : Z) (p : MockPool) : result mock_error ServerAction :=
  let ownerPublicKey := get_public_key owner p in
  _ ← mock_assert (bool_decide (compute_subchannel_marker channelKey owner ownerPublicKey token ∈ subchannelMarkers p))
        (DoesNotExist token);
  let noteId := compute_note_id channelKey token index in
  _ ← mock_assert (bool_decide (is_Some (notes p !! noteId))) (DoesNotExist noteId);
  Ok (SUseNote (compute_nullifier channelKey token index ownerPrivateKey)).

Definition createEncNote (sender senderPrivateKey to toPublicKey token index amount random : Z) (p : MockPool)
  : result mock_error ServerAction :=
  let channelKey := compute_channel_key sender senderPrivateKey to toPublicKey in
  let subchannelMarker := compute_subchannel_marker channelKey to toPublicKey token in
  _ ← mock_assert (bool_decide (subchannelMarker ∈ subchannelMarkers p)) (DoesNotExist token);
  _ ← mock_assert ((index =? 0) || bool_decide (is_Some (notes p !! compute_note_id channelKey token (index - 1))))
        (NotSequential index);
  Ok (SCreateEncNote (compute_note_id channelKey token index)
        (EncryptedNote (encryptNoteAmount channelKey token index random amount) token index)).

Definition createOpenNote (sender senderPrivateKey to toPublicKey token index : Z) (p : MockPool)
  : result mock_error ServerAction :=
  let channelKey := compute_channel_key sender senderPrivateKey to toPublicKey in
  let subchannelMarker := compute_subchannel_marker channelKey to toPublicKey token in
  _ ← mock_assert (bool_decide (subchannelMarker ∈ subchannelMarkers p)) (DoesNotExist token);
  _ ← mock_assert ((index =? 0) || bool_decide (is_Some (notes p !! compute_note_id channelKey token (index - 1))))
        (NotSequential index);
  let noteId := compute_note_id channelKey token index in
  _ ← mock_assert (bool_decide (notes p !! noteId = None)) (AlreadyExists noteId);
  Ok (SCreateOpenNote noteId (OpenNote 1 0 token)).

(** [execute_action]. *)
Definition execute_action (sender privateKey outgoingSalt : Z) (action : ClientAction) (p : MockPool)
  : result mock_error ServerAction :=
  match action with
  | ASetViewingKey _ => register sender privateKey
  | AOpenChannel recipient_addr index random _ =>
      match publicKeys p !! recipient_addr with
      | None => Err (RecipientNotRegistered recipient_addr)
      | Some recipientPublicKey =>
          setChannel sender privateKey recipient_addr recipientPublicKey index random outgoingSalt p
      end
  | AOpenSubchannel recipient_addr recipient_public_key channel_key index token salt =>
      setToken sender recipient_addr recipient_public_key channel_key token index salt p
  | ADeposit token amount => Ok (SDeposit sender token amount)
  | AUseNote channel_key token index => useNote sender privateKey token channel_key index p
  | ACreateEncNote recipient_addr recipient_public_key token amount index salt =>
      createEncNote sender privateKey recipient_addr recipient_public_key token index amount salt p
  | ACreateOpenNote recipient_addr recipient_public_key token index _ =>
      createOpenNote sender privateKey recipient_addr recipient_public_key token index p
  | AWithdraw to_addr token amount _ => Ok (SWithdraw token to_addr amount)
  | AInvokeExternal contract_address calldata => Ok (SInvoke contract_address calldata)
  | AComputeAndInvoke contract_address compute_additional_data invoke_additional_data =>
      Ok (SComputeAndInvoke sender privateKey contract_address compute_additional_data invoke_additional_data)
  end.
End Pool.

(** ** The view [compile_actions] *)

(** [snapshot]: copies of the eight maps. *)
Definition snapshot (p : MockPool) : MockPool := p.

(** The key under which [restore] puts a list back: the two halves as numbers, spelled again. *)
Definition restored_key (key : string) : string :=
  let '(a, b) := split_colon key in
  channels_key (default 0 (BigInt_of_string a)) (default 0 (BigInt_of_string b)).

(** [restore(snapshot)]: every map of the current state is replaced. *)
Definition restore (s : MockPool) (p : MockPool) : MockPool :=
  {| publicKeys := publicKeys s;
     channels := list_to_map (map (fun e => (restored_key e.1, e.2)) (map_to_list (channels s)));
     channelMarkers := channelMarkers s; subchannels := subchannels s; subchannelMarkers := subchannelMarkers s;
     notes := notes s; nullifiers := nullifiers s; outgoingChannels := outgoingChannels s |}.

Section View.
Context `{StarkCrypto}.

(** [get_decrypted_note]: the amount of a note and whether it is open. A note with another [r] has no
    packed value, and decrypting it throws. *)
Definition get_decrypted_note (channelKey index token : Z) (p : MockPool) : result mock_error (option (Z * bool)) :=
  match notes p !! compute_note_id channelKey token index with
  | None => Ok None
  | Some (OpenNote r amount _) => if r =? 1 then Ok (Some (amount, true)) else Err MockTypeError
  | Some (EncryptedNote packed note_token note_index) =>
      Ok (Some ((decryptNoteAmount packed channelKey note_token note_index).1, false))
  end.

(** [updateTotal] of [validateTokenTotals]. *)
Definition updateTotal (token delta : Z) (runningTotals : gmap Z Z) : result mock_error (gmap Z Z) :=
  let updated := default 0 (runningTotals !! token) + delta in
  _ ← mock_assert (0 <=? updated) (TotalNegative token updated);
  Ok (<[token := updated]> runningTotals).

Definition total_step (p : MockPool) (runningTotals : gmap Z Z) (action : ClientAction)
  : result mock_error (gmap Z Z) :=
  match action with
  | ADeposit token amount =>
      _ ← mock_assert (0 <=? amount) (NegativeAmount amount);
      updateTotal token amount runningTotals
  | AUseNote channel_key token index =>
      noteData ← get_decrypted_note channel_key index token p;
      match noteData with
      | None => Err NoteNotFound
      | Some (amount, open) =>
          _ ← mock_assert (negb open) OpenNoteAsInput;
          updateTotal token amount runningTotals
      end
  | ACreateEncNote _ _ token amount _ _ =>
      _ ← mock_assert (0 <=? amount) (NegativeAmount amount);
      updateTotal token (- amount) runningTotals
  | AWithdraw _ token amount _ =>
      _ ← mock_assert (0 <=? amount) (NegativeAmount amount);
      updateTotal token (- amount) runningTotals
  | _ => Ok runningTotals
  end.

Definition validateTokenTotals (p : MockPool) (clientActions : list ClientAction) : result mock_error unit :=
  runningTotals ← fold_result (total_step p) clientActions ∅;
  fold_result (fun _ e => mock_assert (e.2 =? 0) (TotalNotZero e.1 e.2)) (map_to_list runningTotals) tt.

(** The loop of [compile_actions]: every action is checked on the state the earlier ones left;
    the deferred ones are not applied. The state survives an exception. *)
Definition compile_step (sender privateKey : Z) (salts : nat -> Z) (action : ClientAction)
  : stateE (MockPool * list ServerAction) mock_error unit := fun s =>
  match execute_action sender privateKey (salts (length s.2)) action s.1 with
  | Err e => (Err e, s)
  | Ok a =>
      if deferred a then (Ok tt, (s.1, (s.2 ++ [a])%list))
      else match apply_state a s.1 with
           | Err e => (Err e, s)
           | Ok p => (Ok tt, (p, (s.2 ++ [a])%list))
           end
  end.

(** [compile_actions], with the state of the pool when it returns or throws. *)
Definition compile_actions (validateBalances : bool) (salts : nat -> Z) (sender privateKey : Z)
  (clientActions : list ClientAction) (p : MockPool) : result mock_error (list ServerAction) * MockPool :=
  match (if validateBalances then validateTokenTotals p clientActions else Ok tt) with
  | Err e => (Err e, p)
  | Ok _ =>
      let s := snapshot p in
      let '(r, (p', serverActions)) := st_for clientActions (compile_step sender privateKey salts) (p, []) in
      (match r with Ok _ => Ok serverActions | Err e => Err e end, restore s p')
  end.

(** Applying the actions that change the pool's own state. *)
Definition apply_all_state (l : list ServerAction) (p : MockPool) : result mock_error MockPool :=
  fold_result (fun p a => apply_state a p) l p.
End View.

(** ** The contracts around the pool *)

(** Token balances; [AddressMap]s with default [0] and default contract [ERC20] read alike. *)
Record World : Type := {
  w_pool : MockPool;
  w_serverActions : list ServerAction;
  w_tokens : gmap Z (gmap Z Z) }.

Definition with_w_pool (w : World) (p : MockPool) : World :=
  {| w_pool := p; w_serverActions := w_serverActions w; w_tokens := w_tokens w |}.
Definition with_tokens_map (w : World) (t : gmap Z (gmap Z Z)) : World :=
  {| w_pool := w_pool w; w_serverActions := w_serverActions w; w_tokens := t |}.

Definition balanceOf (token address : Z) (w : World) : Z := default 0 (w_tokens w !! token ≫= (.!! address)).

Definition setBalance (token address amount : Z) (w : World) : World :=
  with_tokens_map w (<[token := <[address := amount]> (default ∅ (w_tokens w !! token))]> (w_tokens w)).

Definition world_assert (cond : bool) (e : mock_error) : stateE World mock_error unit := st_lift (mock_assert cond e).

(** [ERC20.transfer]: both balances are read when they are written. *)
Definition transfer (token from to amount : Z) : stateE World mock_error unit :=
  w ← st_get;
  _ ← world_assert (amount <=? balanceOf token from w) InsufficientTokens;
  _ ← st_modify (fun w => setBalance token from (balanceOf token from w - amount) w);
  st_modify (fun w => setBalance token to (balanceOf token to w + amount) w).

(** [openDeposit]: the tokens move first, then the note is checked and filled. *)
Definition openDeposit (poolAddress noteId token amount from : Z) : stateE World mock_error unit :=
  _ ← transfer token from poolAddress amount;
  w ← st_get;
  match notes (w_pool w) !! noteId with
  | None => st_throw (DoesNotExist noteId)
  | Some (EncryptedNote _ _ _) => st_throw (NoteNotOpen noteId)
  | Some (OpenNote r note_amount note_token) =>
      _ ← world_assert (r =? 1) (NoteNotOpen noteId);
      _ ← world_assert (note_token =? token) (NoteTokenMismatch noteId);
      _ ← world_assert (note_amount =? 0) (NoteAlreadyFilled noteId);
      st_modify (fun w => with_w_pool w
        (with_notes_map (w_pool w) (<[noteId := OpenNote r amount note_token]> (notes (w_pool w)))))
  end.

(** [MockSwapAnonymizer.privacy_invoke]. *)
Definition swap_privacy_invoke (address poolAddress fromToken toToken amount noteId : Z) : stateE World mock_error unit :=
  w ← st_get;
  let balance := balanceOf fromToken address w in
  _ ← world_assert (balance =? amount) (BalanceMismatch balance amount);
  _ ← st_modify (setBalance fromToken address 0);
  _ ← st_modify (setBalance toToken address (amount * 2));
  openDeposit poolAddress noteId toToken (amount * 2) address.

Section Contracts.
Context `{StarkCrypto}.
(** [contracts.call]: the methods of the registered contracts, if any; [None] when the method does not
    exist. They may change the tokens and the pool. *)
Context (poolAddress : Z) (method : Z -> string -> option (list Z -> stateE World mock_error (option (list Z)))).

Definition call (contractAddress : Z) (name : string) (args : list Z) : stateE World mock_error (option (list Z)) :=
  match method contractAddress name with
  | Some f => f args
  | None => st_throw (MethodNotFound contractAddress name)
  end.

(** Running the closure of a server action. *)
Definition apply_action (a : ServerAction) : stateE World mock_error unit :=
  match a with
  | SDeposit from token amount => transfer token from poolAddress amount
  | SWithdraw token recipient amount => transfer token poolAddress recipient amount
  | SInvoke contractAddress calldata => _ ← call contractAddress "privacy_invoke" calldata; mret tt
  | SComputeAndInvoke sender privateKey contractAddress compute_data invoke_data =>
      let identityKey := compute_identity_key sender privateKey contractAddress in
      r ← call contractAddress "privacy_compute" (identityKey :: compute_data);
      match r with
      | None => st_throw UndefinedResult
      | Some computed =>
          _ ← call contractAddress "privacy_invoke_with_computation" (computed ++ invoke_data)%list; mret tt
      end
  | _ =>
      w ← st_get;
      p ← st_lift (apply_state a (w_pool w));
      st_modify (fun w => with_w_pool w p)
  end.

(** The suffix of the calldata: no attestation, or one of three felts. *)
Definition attestation_ok (suffix : list string) : bool :=
  match suffix with
  | [a] => bool_decide (a = "0x1")
  | [a; _; _; _] => bool_decide (a = "0x0")
  | _ => false
  end.

(** One turn of the loop of [apply_actions]: the calldata must name the expected action. *)
Definition apply_one (e : ServerAction * option string) : stateE World mock_error unit :=
  let '(a, name) := e in
  if bool_decide (name = Some (server_type a)) then apply_action a else st_throw ActionMismatch.

Definition apply_actions (calldata : list string) : stateE World mock_error unit := fun w =>
  let l := w_serverActions w in
  let names := map (fun i => calldata !! i) (seq 0 (length l)) in
  match st_for (zip l names) apply_one w with
  | (Err e, w) => (Err e, w)
  | (Ok _, w) =>
      let w := {| w_pool := w_pool w; w_serverActions := []; w_tokens := w_tokens w |} in
      (mock_assert (attestation_ok (drop (length l) calldata)) MalformedAttestation, w)
  end.

(** [execute]: the compiled actions wait for [apply_actions]; the result is the calldata. *)
Definition execute_pool (validateBalances : bool) (salts : nat -> Z) (sender privateKey : Z)
  (clientActions : list ClientAction) : stateE World mock_error (list string) := fun w =>
  let '(r, p) := compile_actions validateBalances salts sender privateKey clientActions (w_pool w) in
  match r with
  | Err e => (Err e, with_w_pool w p)
  | Ok actions =>
      (Ok (map server_type actions), {| w_pool := p; w_serverActions := actions; w_tokens := w_tokens w |})
  end.
End Contracts.
