(* ===== verification/PoolSafety.v ===== *)
(** * What the mock pool guarantees

    Theorems on the file [MockPool]: compiling is a view, what was stored stays and
    every record but those of outgoing channels is written once, and the token check is the
    balance of every prefix. *)
From Stdlib Require Import Ascii ZArith Lia.
From stdpp Require Import base tactics list gmap strings fin_maps.
From S2P Require Import Prelude JsMap Convert Crypto Encryptions Interfaces Channel MockPool.

Local Open Scope string_scope.
Local Open Scope Z_scope.

(** ** Compiling is a view *)

(** The keys of the channels are spelled addresses and public keys. *)
Definition channels_ok (p : MockPool) : Prop :=
  forall k v, channels p !! k = Some v -> exists address publicKey, k = channels_key address publicKey.

Lemma split_channels_key a b : split_colon (channels_key a b) = (bigint_toString 10 a, bigint_toString 10 b).
Proof. apply split_spelled. Qed.

Lemma restored_channels_key a b : restored_key (channels_key a b) = channels_key a b.
Proof. unfold restored_key. rewrite split_channels_key, !BigInt_decimal. done. Qed.

Lemma restore_snapshot p p' : channels_ok p -> restore (snapshot p) p' = p.
Proof.
  intros Hok. unfold restore, snapshot. destruct p as [pk ch cm sc sm no nu oc]. cbn. f_equal.
  transitivity (list_to_map (map_to_list ch) : gmap string (list EncChannelInfo)); [|apply list_to_map_to_list].
  f_equal. transitivity (map (fun e => e) (map_to_list ch)); [|apply map_id].
  apply map_ext_in. intros [k v] Hin%list_elem_of_In. apply elem_of_map_to_list in Hin.
  destruct (Hok k v Hin) as (a & b & ->). cbn. by rewrite restored_channels_key.
Qed.

Lemma apply_state_channels_ok a p p' : channels_ok p -> apply_state a p = Ok p' -> channels_ok p'.
Proof.
  intros Hok. destruct a as [| | | | | | | | |]; cbn; try (by intros [= <-]).
  all: destruct (mock_assert _ _); [|done]; cbn; intros <-%Ok_inj; try exact Hok.
  intros k v. cbn. rewrite lookup_insert. case_decide; [|by apply Hok]. intros _. subst. by eexists _, _.
Qed.

Section View.
Context `{StarkCrypto}.

(** [compile_actions] is a view: whether it returns or throws, the pool is as it was. The keys of
    the channels survive their spelling and parsing in [restore]; every server action keeps the
    invariant this needs. *)
Theorem compile_actions_is_view (validateBalances : bool) salts sender privateKey clientActions p :
  channels_ok p ->
  (compile_actions validateBalances salts sender privateKey clientActions p).2 = p /\
  (forall l p', apply_all_state l p = Ok p' -> channels_ok p').
Proof.
  intros Hok. split.
  - unfold compile_actions. destruct (if validateBalances then _ else _); [|done].
    destruct (st_for _ _ _) as [r [p' sas]]. by apply restore_snapshot.
  - intros l p' Hrun. eapply (fold_result_inv channels_ok); [|exact Hok|exact Hrun].
    intros q a q' _. apply apply_state_channels_ok.
Qed.
End View.

(** ** What is stored stays *)

(** The later state has every record of the earlier one, the outgoing channel records apart. *)
Definition retains (p p' : MockPool) : Prop :=
  publicKeys p ⊆ publicKeys p' /\ channelMarkers p ⊆ channelMarkers p' /\ subchannels p ⊆ subchannels p' /\
  subchannelMarkers p ⊆ subchannelMarkers p' /\ notes p ⊆ notes p' /\ nullifiers p ⊆ nullifiers p' /\
  (forall k l, channels p !! k = Some l -> exists l', channels p' !! k = Some (l ++ l')%list).

#[export] Instance retains_preorder : PreOrder retains.
Proof.
  split.
  - intros p. split_and!; try done. intros k l Hk. exists []. by rewrite app_nil_r.
  - intros p q r (H1 & H2 & H3 & H4 & H5 & H6 & H7) (G1 & G2 & G3 & G4 & G5 & G6 & G7).
    split_and!; [by etrans..|]. intros k l Hk. destruct (H7 k l Hk) as [l1 Hk1]. destruct (G7 _ _ Hk1) as [l2 Hk2].
    exists (l1 ++ l2)%list. by rewrite app_assoc.
Qed.

(** The ids under which outgoing channel records are stored. *)
Definition outgoing_ids (p : MockPool) : gset Z := dom (outgoingChannels p).

(** The outgoing channel records of [ids] are written and no other changes. *)
Definition writes_outgoing (ids : list Z) (p p' : MockPool) : Prop :=
  outgoing_ids p' = outgoing_ids p ∪ list_to_set ids /\
  forall id, id ∉ ids -> outgoingChannels p' !! id = outgoingChannels p !! id.

Lemma writes_outgoing_none p p' : outgoingChannels p' = outgoingChannels p -> writes_outgoing [] p p'.
Proof. intros He. unfold writes_outgoing, outgoing_ids. rewrite He. split; [set_solver|done]. Qed.

Lemma writes_outgoing_app l1 l2 p q r :
  writes_outgoing l1 p q -> writes_outgoing l2 q r -> writes_outgoing (l1 ++ l2) p r.
Proof.
  intros [D1 K1] [D2 K2]. split; [rewrite D2, D1, list_to_set_app_L; set_solver|].
  intros id [Hn1 Hn2]%not_elem_of_app. by rewrite K2, K1.
Qed.

(** The number of actions of some types. *)
Definition count_types (types : list ClientActionType) (l : list ClientAction) : nat :=
  length (filter (fun a => action_type a ∈ types) l).

(** The sizes of the write-once records: public keys, channels, subchannels, notes, nullifiers. *)
Definition sizes (p : MockPool) : nat * nat * nat * nat * nat :=
  (size (publicKeys p), size (channelMarkers p), size (subchannelMarkers p), size (notes p), size (nullifiers p)).

(** The record an action of a type adds. *)
Definition bump (t : ClientActionType) (s : nat * nat * nat * nat * nat) : nat * nat * nat * nat * nat :=
  let '(a, b, c, d, e) := s in
  match t with
  | TSetViewingKey => (S a, b, c, d, e)
  | TOpenChannel => (a, S b, c, d, e)
  | TOpenSubchannel => (a, b, S c, d, e)
  | TCreateEncNote | TCreateOpenNote => (a, b, c, S d, e)
  | TUseNote => (a, b, c, d, S e)
  | TDeposit | TWithdraw | TInvokeExternal | TComputeAndInvoke => s
  end.

Lemma count_types_cons ts a l : count_types ts (a :: l) = (count_types ts [a] + count_types ts l)%nat.
Proof. unfold count_types. rewrite (list.filter_app _ [a] l), length_app. done. Qed.

Lemma count_types_one ts a : count_types ts [a] = if bool_decide (action_type a ∈ ts) then 1%nat else 0%nat.
Proof. unfold count_types. rewrite filter_cons. case_decide; case_bool_decide; done. Qed.

Lemma bump_all l s :
  fold_left (fun s a => bump (action_type a) s) l s
    = (let '(a, b, c, d, e) := s in
       (count_types [TSetViewingKey] l + a, count_types [TOpenChannel] l + b, count_types [TOpenSubchannel] l + c,
        count_types [TCreateEncNote; TCreateOpenNote] l + d, count_types [TUseNote] l + e)%nat).
Proof.
  revert s. induction l as [|x l IH]; intros [[[[a b] c] d] e]; [done|].
  cbn [fold_left]. rewrite IH, !(count_types_cons _ x l), !count_types_one.
  destruct x; repeat match goal with |- context [bool_decide ?P] =>
    let b := eval vm_compute in (bool_decide P) in change (bool_decide P) with b end;
  cbn; repeat f_equal; lia.
Qed.

Definition client_type (a : ServerAction) : ClientActionType :=
  match a with
  | SRegister _ _ => TSetViewingKey
  | SSetChannel _ _ _ _ _ _ => TOpenChannel
  | SSetToken _ _ _ => TOpenSubchannel
  | SUseNote _ => TUseNote
  | SCreateEncNote _ _ => TCreateEncNote
  | SCreateOpenNote _ _ => TCreateOpenNote
  | SDeposit _ _ _ => TDeposit
  | SWithdraw _ _ _ => TWithdraw
  | SInvoke _ _ => TInvokeExternal
  | SComputeAndInvoke _ _ _ _ _ => TComputeAndInvoke
  end.

(** The outgoing channel record an action writes. *)
Definition outgoing_written (a : ServerAction) : option Z :=
  match a with SSetChannel _ _ _ _ id _ => Some id | _ => None end.

(** What the check of an action ensures beyond the assertions of its closure. *)
Definition checked (a : ServerAction) (p : MockPool) : Prop :=
  match a with
  | SSetToken subchannelId _ _ => subchannels p !! subchannelId = None
  | SCreateOpenNote noteId _ => notes p !! noteId = None
  | _ => True
  end.

Lemma retains_channels p : forall k l, channels p !! k = Some l -> exists l', channels p !! k = Some (l ++ l')%list.
Proof. intros k l Hk. exists []. by rewrite app_nil_r. Qed.

(** Reads the fields of an updated pool. *)
Ltac pool_fields :=
  cbn [publicKeys channels channelMarkers subchannels subchannelMarkers notes nullifiers outgoingChannels
       with_publicKeys with_notes_map with_nullifiers with_subchannels bump client_type].

(** Adding a fresh element to a set. *)
Lemma size_add_fresh (X : gset Z) x : x ∉ X -> size ({[x]} ∪ X) = S (size X).
Proof. intros Hx. rewrite size_union, size_singleton; [done|set_solver]. Qed.

Lemma apply_grows a p p' : checked a p -> apply_state a p = Ok p' ->
  retains p p' /\ sizes p' = bump (client_type a) (sizes p).
Proof.
  intros Hchk Hap. pose proof (retains_channels p) as Hch.
  destruct a; cbn [checked apply_state] in Hchk, Hap; unfold mock_assert, js_assert in Hap; try (apply Ok_inj in Hap as <-).
  - destruct (bool_decide_reflect (publicKeys p !! address = None)) as [Hn|]; [|done]. apply Ok_inj in Hap as <-.
    split; [split_and!; try done; by apply insert_subseteq|]. unfold sizes. pool_fields. by rewrite map_size_insert_None.
  - destruct (bool_decide_reflect (channelMarker ∉ channelMarkers p)) as [Hn|]; [|done]. apply Ok_inj in Hap as <-.
    split; [split_and!; try done|].
    + pool_fields. apply union_subseteq_r.
    + intros k l Hk. pool_fields. rewrite lookup_insert. case_decide as Hkk; [|by apply Hch].
      subst k. rewrite Hk. by exists [info].
    + unfold sizes. pool_fields. by rewrite size_add_fresh.
  - destruct (bool_decide_reflect (subchannelMarker ∉ subchannelMarkers p)) as [Hn|]; [|done]. apply Ok_inj in Hap as <-.
    split; [split_and!; try done; [by apply insert_subseteq|pool_fields; apply union_subseteq_r]|].
    unfold sizes. pool_fields. by rewrite size_add_fresh.
  - destruct (bool_decide_reflect (nullifier ∉ nullifiers p)) as [Hn|]; [|done]. apply Ok_inj in Hap as <-.
    split; [split_and!; try done; pool_fields; apply union_subseteq_r|].
    unfold sizes. pool_fields. by rewrite size_add_fresh.
  - destruct (bool_decide_reflect (notes p !! noteId = None)) as [Hn|]; [|done]. apply Ok_inj in Hap as <-.
    split; [split_and!; try done; by apply insert_subseteq|]. unfold sizes. pool_fields. by rewrite map_size_insert_None.
  - split; [split_and!; try done; by apply insert_subseteq|]. unfold sizes. pool_fields. by rewrite map_size_insert_None.
  - split; [reflexivity|]. by destruct (sizes p) as [[[[? ?] ?] ?] ?].
  - split; [reflexivity|]. by destruct (sizes p) as [[[[? ?] ?] ?] ?].
  - split; [reflexivity|]. by destruct (sizes p) as [[[[? ?] ?] ?] ?].
  - split; [reflexivity|]. by destruct (sizes p) as [[[[? ?] ?] ?] ?].
Qed.

Lemma apply_outgoing a p p' : apply_state a p = Ok p' -> writes_outgoing (option_list (outgoing_written a)) p p'.
Proof.
  intros Hap. destruct a; cbn [apply_state outgoing_written] in *; try (apply Ok_inj in Hap as <-).
  all: try (destruct (mock_assert _ _); [|done]; apply Ok_inj in Hap as <-).
  all: try by apply writes_outgoing_none.
  split; unfold outgoing_ids; pool_fields.
  - rewrite dom_insert_L. cbn. set_solver.
  - intros id Hid. rewrite lookup_insert_ne; [done|]. intros ->. apply Hid. by left.
Qed.

Lemma mock_assert_bind {A} c e (k : unit -> result mock_error A) b :
  (mock_assert c e ≫= k) = Ok b -> c = true /\ k tt = Ok b.
Proof. by destruct c. Qed.

(** Walks through the assertions of a computation that returned. *)
Ltac asserted H :=
  repeat match type of H with
  | (mock_assert _ _ ≫= _) = Ok _ => apply mock_assert_bind in H as [? H]
  | (?m ≫= _) = Ok _ => destruct m eqn:?; [cbn [mbind result_bind] in H|discriminate H]
  end.

Section WriteOnce.
Context `{StarkCrypto}.

(** The outgoing channel record a client action writes. *)
Definition outgoing_id (sender privateKey : Z) (action : ClientAction) : option Z :=
  match action with AOpenChannel _ index _ _ => Some (compute_outgoing_channel_id sender privateKey index) | _ => None end.

Lemma execute_checked sender pk salt action a p : execute_action sender pk salt action p = Ok a ->
  checked a p /\ client_type a = action_type action /\ outgoing_written a = outgoing_id sender pk action.
Proof.
  intros Hex. destruct action; cbn [execute_action] in Hex.
  - by apply Ok_inj in Hex as <-.
  - destruct (publicKeys p !! recipient_addr); [|done]. unfold setChannel in Hex. asserted Hex. by apply Ok_inj in Hex as <-.
  - unfold setToken in Hex. asserted Hex. destruct channel_key; [|done]. asserted Hex. apply Ok_inj in Hex as <-.
    split; [split_bool; done|done].
  - unfold createEncNote in Hex. asserted Hex. by apply Ok_inj in Hex as <-.
  - unfold createOpenNote in Hex. asserted Hex. apply Ok_inj in Hex as <-. split; [split_bool; done|done].
  - by apply Ok_inj in Hex as <-.
  - unfold useNote in Hex. asserted Hex. by apply Ok_inj in Hex as <-.
  - by apply Ok_inj in Hex as <-.
  - by apply Ok_inj in Hex as <-.
  - by apply Ok_inj in Hex as <-.
Qed.

Lemma compile_step_grows sender pk salts action p sas p' sas' :
  compile_step sender pk salts action (p, sas) = (Ok tt, (p', sas')) ->
  exists a, sas' = (sas ++ [a])%list /\ (if deferred a then Ok p else apply_state a p) = Ok p' /\
    retains p p' /\ sizes p' = bump (action_type action) (sizes p) /\
    writes_outgoing (option_list (outgoing_id sender pk action)) p p'.
Proof.
  unfold compile_step. cbn [fst snd]. destruct (execute_action _ _ _ _ p) as [a|e] eqn:Hex; [|done].
  destruct (execute_checked _ _ _ _ _ _ Hex) as (Hchk & <- & <-).
  destruct (deferred a) eqn:Hd.
  - intros [= <- <-]. exists a. rewrite Hd. split_and!; try done.
    + destruct a; try done; cbn [client_type]; by destruct (sizes p) as [[[[? ?] ?] ?] ?].
    + destruct a; try done; by apply writes_outgoing_none.
  - destruct (apply_state a p) as [p1|e] eqn:Hap; [|done]. intros [= <- <-]. exists a. rewrite Hd.
    destruct (apply_grows _ _ _ Hchk Hap). split_and!; try done. by apply apply_outgoing.
Qed.

Lemma compile_loop_grows sender pk salts l p sas u p' sas' :
  st_for l (compile_step sender pk salts) (p, sas) = (Ok u, (p', sas')) ->
  exists new, sas' = (sas ++ new)%list /\ length new = length l /\
    apply_all_state (filter (fun a => deferred a = false) new) p = Ok p' /\
    retains p p' /\ sizes p' = fold_left (fun s a => bump (action_type a) s) l (sizes p) /\
    writes_outgoing (omap (outgoing_id sender pk) l) p p'.
Proof.
  revert p sas. induction l as [|x l IH]; intros p sas Hrun.
  - injection Hrun as _ <- <-. exists []. rewrite app_nil_r. split_and!; try done. by apply writes_outgoing_none.
  - cbn [st_for] in Hrun. unfold mbind, stateE_bind in Hrun.
    destruct (compile_step sender pk salts x (p, sas)) as [[[]|e] [p1 sas1]] eqn:H1; [|done].
    destruct (compile_step_grows _ _ _ _ _ _ _ _ H1) as (a & -> & Hap & Hr & Hs & Ho).
    destruct (IH _ _ Hrun) as (new & -> & Hlen & Happ & Hr' & Hs' & Ho'). exists (a :: new).
    split_and!; [by rewrite <- app_assoc|by cbn; rewrite Hlen| |by etrans| |].
    + unfold apply_all_state in *. destruct (deferred a) eqn:Hd.
      * rewrite filter_cons_False by by rewrite Hd. by apply Ok_inj in Hap as <-.
      * rewrite filter_cons_True by done. cbn [fold_result]. rewrite Hap. exact Happ.
    + cbn [fold_left]. by rewrite Hs', Hs.
    + replace (omap (outgoing_id sender pk) (x :: l))
        with (option_list (outgoing_id sender pk x) ++ omap (outgoing_id sender pk) l)%list
        by (cbn; by destruct (outgoing_id sender pk x)).
      by eapply writes_outgoing_app.
Qed.

(** C6: the server actions [compile_actions] returns, one for each client action, can be applied to the
    pool it was called on. They keep what its write-once records hold: every public key, channel and
    subchannel marker, subchannel, note and nullifier stays with its value, the list of incoming
    channels only grows at its end, and each client action adds exactly one record of its kind, so no note
    is created twice and no nullifier is used twice, within the list or against the past. The outgoing
    channel records are not write-once: a channel opened at an index writes the record of that index, over
    the one there if the index was used; none is removed, and those of other indices keep their value. *)
Theorem pool_is_append_only validateBalances salts sender privateKey clientActions p serverActions q :
  compile_actions validateBalances salts sender privateKey clientActions p = (Ok serverActions, q) ->
  length serverActions = length clientActions /\
  exists p', apply_all_state (filter (fun a => deferred a = false) serverActions) p = Ok p' /\
    retains p p' /\ writes_outgoing (omap (outgoing_id sender privateKey) clientActions) p p' /\
    size (publicKeys p') = (count_types [TSetViewingKey] clientActions + size (publicKeys p))%nat /\
    size (channelMarkers p') = (count_types [TOpenChannel] clientActions + size (channelMarkers p))%nat /\
    size (subchannelMarkers p') = (count_types [TOpenSubchannel] clientActions + size (subchannelMarkers p))%nat /\
    size (notes p') = (count_types [TCreateEncNote; TCreateOpenNote] clientActions + size (notes p))%nat /\
    size (nullifiers p') = (count_types [TUseNote] clientActions + size (nullifiers p))%nat.
Proof.
  unfold compile_actions. destruct (if validateBalances then _ else _); [|done].
  destruct (st_for clientActions _ (p, [])) as [[u|e] [p' sas]] eqn:Hrun; [|done]. intros [= <- _].
  destruct (compile_loop_grows _ _ _ _ _ _ _ _ _ Hrun) as (new & -> & Hlen & Hap & Hr & Hs & Ho).
  split; [exact Hlen|]. exists p'. split_and!; [done|done|done|..];
    rewrite bump_all in Hs; unfold sizes in Hs; by injection Hs.
Qed.
End WriteOnce.

(** ** The token check *)

Section Totals.
Context `{StarkCrypto} (p : MockPool).

(** The decrypted amount of an encrypted note. *)
Definition input_amount (channel_key token index : Z) : option Z :=
  match get_decrypted_note channel_key index token p with Ok (Some (amount, false)) => Some amount | _ => None end.

(** What an action adds to the running total of a token. *)
Definition delta (t : Z) (a : ClientAction) : Z :=
  match a with
  | ADeposit token amount => if token =? t then amount else 0
  | AUseNote channel_key token index => if token =? t then default 0 (input_amount channel_key token index) else 0
  | ACreateEncNote _ _ token amount _ _ => if token =? t then - amount else 0
  | AWithdraw _ token amount _ => if token =? t then - amount else 0
  | _ => 0
  end.

(** The action is well-formed by itself. *)
Definition acceptable (a : ClientAction) : Prop :=
  match a with
  | ADeposit _ amount | ACreateEncNote _ _ _ amount _ _ | AWithdraw _ _ amount _ => 0 <= amount
  | AUseNote channel_key token index => is_Some (input_amount channel_key token index)
  | _ => True
  end.

Definition total (m : gmap Z Z) (t : Z) : Z := default 0 (m !! t).

Lemma updateTotal_spec token d m :
  (forall m', updateTotal token d m = Ok m' ->
     0 <= total m' token /\ forall t, total m' t = total m t + (if token =? t then d else 0)) /\
  (0 <= total m token + d -> exists m', updateTotal token d m = Ok m').
Proof.
  unfold updateTotal, total. split.
  - intros m' Hrun. apply mock_assert_bind in Hrun as [Hc Hrun]. apply Ok_inj in Hrun as <-. apply Z.leb_le in Hc.
    split; [by rewrite lookup_insert_eq|]. intros t. rewrite lookup_insert.
    destruct (Z.eqb_spec token t), (decide (token = t)); try congruence; subst; cbn; lia.
  - intros Hc. rewrite (proj2 (Z.leb_le _ _)) by done. by eexists.
Qed.

Lemma total_step_ok a m m' : total_step p m a = Ok m' ->
  acceptable a /\ (forall t, total m' t = total m t + delta t a) /\ ((forall t, 0 <= total m t) -> forall t, 0 <= total m' t).
Proof.
  assert (Hup : forall token d, updateTotal token d m = Ok m' ->
    (forall t, total m' t = total m t + (if token =? t then d else 0)) /\
    ((forall t, 0 <= total m t) -> forall t, 0 <= total m' t)).
  { intros token d Hrun. destruct (proj1 (updateTotal_spec token d m) m' Hrun) as [Hnn Ht]. split; [done|].
    intros Hm t. destruct (Z.eqb_spec token t) as [->|Hne]; [done|]. rewrite Ht. specialize (Hm t).
    rewrite (proj2 (Z.eqb_neq _ _)) by done. lia. }
  intros Hrun. destruct a; cbn [total_step] in Hrun;
    try (apply Ok_inj in Hrun as <-; split_and!; [done|intros t; cbn; lia|done]).
  all: try (apply mock_assert_bind in Hrun as [Hc Hrun]; apply Z.leb_le in Hc; destruct (Hup _ _ Hrun); by split_and!).
  unfold acceptable, delta, input_amount.
  destruct (get_decrypted_note channel_key index token p) as [[[amount []]|]|e]; try done.
  cbn [mbind result_bind mock_assert js_assert negb] in Hrun. destruct (Hup _ _ Hrun). split_and!; [by eexists|done|done].
Qed.

Lemma total_step_succeeds a m : acceptable a -> (forall t, 0 <= total m t + delta t a) -> exists m', total_step p m a = Ok m'.
Proof.
  intros Ha Hm.
  assert (Hup : forall token d, (forall t, delta t a = if token =? t then d else 0) -> exists m', updateTotal token d m = Ok m').
  { intros token d Hd. apply (proj2 (updateTotal_spec token d m)). specialize (Hm token). rewrite Hd, Z.eqb_refl in Hm. done. }
  destruct a; cbn [total_step acceptable] in *; try by eexists.
  all: try (unfold mock_assert, js_assert; rewrite (proj2 (Z.leb_le _ _)) by done; by apply Hup).
  unfold input_amount in *.
  destruct (get_decrypted_note channel_key index token p) as [[[amount []]|]|e] eqn:Hn; try by destruct Ha.
  cbn. apply Hup. intros t. cbn. unfold input_amount. by rewrite Hn.
Qed.

(** The running total of a token after a list of actions. *)
Definition running (t : Z) (l : list ClientAction) : Z := sumZ (delta t) l.

Lemma totals_ok l m : (forall t, 0 <= total m t) ->
  (exists m', fold_result (total_step p) l m = Ok m') <->
  Forall acceptable l /\ (forall t k, 0 <= total m t + running t (take k l)).
Proof.
  revert m. induction l as [|a l IH]; intros m Hm; cbn [fold_result].
  - split; [|by eexists]. intros _. split; [constructor|]. intros t k. rewrite take_nil. cbn. specialize (Hm t). lia.
  - split.
    + intros [m' Hrun]. destruct (total_step p m a) as [m1|] eqn:H1; [|done]. cbn in Hrun.
      destruct (total_step_ok _ _ _ H1) as (Ha & Ht & Hnn).
      destruct (proj1 (IH m1 (Hnn Hm)) (ex_intro _ m' Hrun)) as [Hl Hk]. split; [by constructor|].
      intros t [|k]; cbn; [specialize (Hm t); lia|]. specialize (Hk t k). rewrite Ht in Hk. unfold running in Hk. lia.
    + intros [Hacc Hk]. apply Forall_cons in Hacc as [Ha Hl].
      destruct (total_step_succeeds a m Ha) as [m1 H1].
      { intros t. specialize (Hk t 1%nat). cbn in Hk. rewrite take_0 in Hk. cbn in Hk. lia. }
      rewrite H1. cbn. destruct (total_step_ok _ _ _ H1) as (_ & Ht & Hnn). apply (IH m1 (Hnn Hm)). split; [done|].
      intros t k. specialize (Hk t (S k)). cbn in Hk. rewrite Ht. unfold running. lia.
Qed.

Lemma totals_value l m m' : fold_result (total_step p) l m = Ok m' -> forall t, total m' t = total m t + running t l.
Proof.
  revert m. induction l as [|a l IH]; intros m Hrun t; cbn [fold_result] in Hrun.
  - apply Ok_inj in Hrun as <-. cbn. lia.
  - destruct (total_step p m a) as [m1|] eqn:H1; [|done]. destruct (total_step_ok _ _ _ H1) as (_ & Ht & _).
    rewrite (IH m1 Hrun t), Ht. unfold running. cbn. lia.
Qed.

Lemma final_totals_ok (m : gmap Z Z) :
  fold_result (fun (_ : unit) (e : Z * Z) => mock_assert (e.2 =? 0) (TotalNotZero e.1 e.2)) (map_to_list m) tt = Ok tt <->
  forall t, total m t = 0.
Proof.
  assert (Hfold : forall l : list (Z * Z), fold_result (fun (_ : unit) e => mock_assert (e.2 =? 0) (TotalNotZero e.1 e.2)) l tt = Ok tt
            <-> Forall (fun e => e.2 = 0) l).
  { induction l as [|e l IH]; cbn; [by split|]. rewrite Forall_cons. unfold mock_assert, js_assert.
    destruct (Z.eqb_spec e.2 0); cbn; [tauto|]. split; [done|]. by intros [? _]. }
  rewrite Hfold, list.Forall_forall. unfold total. split.
  - intros Hall t. destruct (m !! t) as [v|] eqn:Hv; [|done]. apply (Hall (t, v)). by apply elem_of_map_to_list.
  - intros Hall [t v] Hin. apply elem_of_map_to_list in Hin. specialize (Hall t). by rewrite Hin in Hall.
Qed.

Lemma validate_iff l :
  validateTokenTotals p l = Ok tt <->
  Forall acceptable l /\ (forall t k, 0 <= running t (take k l)) /\ (forall t, running t l = 0).
Proof.
  assert (H0 : forall t, total ∅ t = 0) by (intros t; unfold total; by rewrite lookup_empty).
  pose proof (totals_ok l ∅ ltac:(intros t; rewrite H0; lia)) as Hok. unfold validateTokenTotals. split.
  - intros Hrun. destruct (fold_result (total_step p) l ∅) as [m|] eqn:Hm; [|done]. cbn [mbind result_bind] in Hrun.
    destruct (proj1 Hok (ex_intro _ m eq_refl)) as [Ha Hk]. split_and!; [done| |].
    + intros t k. specialize (Hk t k). rewrite H0 in Hk. lia.
    + intros t. apply final_totals_ok with (t := t) in Hrun. rewrite (totals_value _ _ _ Hm), H0 in Hrun. lia.
  - intros (Ha & Hk & Hz). destruct (proj2 Hok) as [m Hm]; [split; [done|]; intros t k; rewrite H0; apply Hk|].
    rewrite Hm. cbn [mbind result_bind]. apply final_totals_ok. intros t. by rewrite (totals_value _ _ _ Hm), H0, Hz.
Qed.

(** [validateTokenTotals] accepts a list of client actions exactly when every amount is
    non-negative, every used note is an encrypted note of the pool, and for every token no prefix of the
    list takes out more than it puts in and the whole list takes out exactly what it puts in. *)
Theorem validateTokenTotals_spec (l : list ClientAction) :
  validateTokenTotals p l = Ok tt <->
  Forall acceptable l /\ (forall t k, 0 <= running t (take k l)) /\ (forall t, running t l = 0).
Proof. apply validate_iff. Qed.
End Totals.

(** ** A registration and a channel to oneself *)

Definition sample_client_actions : list ClientAction := [ASetViewingKey 5; AOpenChannel 1 0 3 0].

Lemma compile_actions_is_view_witness :
  (@compile_actions line_crypto true (fun n => Z.of_nat n) 1 2 sample_client_actions empty_MockPool).2 = empty_MockPool /\
  (forall l p', apply_all_state l empty_MockPool = Ok p' -> channels_ok p').
Proof. apply (@compile_actions_is_view line_crypto). intros k v Hk. discriminate Hk. Defined.

Lemma pool_is_append_only_witness :
  let r := @compile_actions line_crypto true (fun n => Z.of_nat n) 1 2 sample_client_actions empty_MockPool in
  exists sas, r.1 = Ok sas /\ length sas = 2%nat /\
  exists p', apply_all_state (filter (fun a => deferred a = false) sas) empty_MockPool = Ok p' /\
    retains empty_MockPool p' /\
    writes_outgoing [@compute_outgoing_channel_id line_crypto 1 2 0] empty_MockPool p' /\
    size (publicKeys p') = 1%nat /\ size (channelMarkers p') = 1%nat /\ size (subchannelMarkers p') = 0%nat /\
    size (notes p') = 0%nat /\ size (nullifiers p') = 0%nat.
Proof.
  eexists. split; [vm_compute; reflexivity|].
  apply (@pool_is_append_only line_crypto true (fun n => Z.of_nat n) 1 2 sample_client_actions empty_MockPool _ empty_MockPool).
  vm_compute. reflexivity.
Defined.

(** A second channel at the index of the first: both are accepted, and the record of the first recipient
    is overwritten. *)
Example outgoing_record_is_overwritten :
  let pool := with_publicKeys empty_MockPool {[ 1 := 3; 7 := 5 ]} in
  let opened := [AOpenChannel 1 0 3 0; AOpenChannel 7 0 3 0] in
  let id := @compute_outgoing_channel_id line_crypto 1 2 0 in
  let record to := @encryptOutgoingChannelInfo line_crypto 1 2 0 to in
  exists sas p', (@compile_actions line_crypto true (fun n => Z.of_nat n) 1 2 opened pool).1 = Ok sas /\
    apply_all_state sas pool = Ok p' /\ size (channelMarkers p') = 2%nat /\
    outgoingChannels p' !! id = Some (record 7 1) /\ record 7 1 <> record 1 0.
Proof.
  eexists _, _. split_and!; [vm_compute; reflexivity|vm_compute; reflexivity|vm_compute; reflexivity|
    vm_compute; reflexivity|vm_compute; discriminate].
Qed.
