(* ===== verification/Settlement.v ===== *)
(** * A compiled batch passes the pool's token check

    The compiler and the pool keep their own books: [resolveNotes] settles the tokens
    of a batch, [validateTokenTotals] adds up client actions. The theorem joins them. *)
From Stdlib Require Import ZArith Lia.
From stdpp Require Import base tactics list gmap sorting.
From S2P Require Import Prelude JsMap Convert Crypto Encryptions Interfaces Channel PoolSimulator.
From S2P Require Import ResolveNotes Balancing Compiler Emission MockPool PoolSafety.

(** ** Amounts *)

(** Every amount of the batch that moves tokens is positive. *)
Definition amounts_positive (a : Actions) : Prop :=
  Forall (fun d => 0 < dep_amount d) (elems (deposits a)) /\
  Forall (fun w => 0 < wd_amount w) (elems (withdraws a)) /\
  Forall (fun c => forall v, cn_amount c = AnAmount v -> 0 < v) (elems (createNotes a)).

Lemma fold_result_Forall {E A B} (f : A -> B -> result E A) (P : B -> Prop) l x y :
  (forall x b y, f x b = Ok y -> P b) -> fold_result f l x = Ok y -> Forall P l.
Proof.
  intros Hf. revert x. induction l as [|b l IH]; intros x Hrun; [constructor|]. cbn in Hrun.
  destruct (f x b) as [x'|] eqn:Hx; [|done]. constructor; [by eapply Hf|by eapply IH].
Qed.

Lemma action_balances_positive a b : action_balances a = Ok b -> amounts_positive a.
Proof.
  unfold action_balances. intros Hrun.
  destruct (fold_result add_deposit _ _) as [b1|] eqn:H1; [|done]. cbn [mbind result_bind] in Hrun.
  destruct (fold_result add_useNote _ _) as [b2|] eqn:H2; [|done]. cbn [mbind result_bind] in Hrun.
  destruct (fold_result add_withdraw _ _) as [b3|] eqn:H3; [|done]. cbn [mbind result_bind] in Hrun.
  split_and!.
  - eapply fold_result_Forall; [|exact H1]. intros x d y. unfold add_deposit.
    destruct (Z.ltb_spec 0 (dep_amount d)); done.
  - eapply fold_result_Forall; [|exact H3]. intros x w y. unfold add_withdraw.
    destruct (Z.ltb_spec 0 (wd_amount w)); done.
  - eapply fold_result_Forall; [|exact Hrun]. intros x c y. unfold add_createNote. destruct (cn_amount c) as [v|]; [|done].
    intros Hc v' [= <-]. by destruct (Z.ltb_spec 0 v).
Qed.

Lemma extends_positive a a' : amounts_positive a -> extends a a' -> amounts_positive a'.
Proof.
  intros (Hd & Hw & Hc) (Ed & _ & _ & _ & _ & _ & us & ws & cs & _ & Ew & Fw & Ec & Fc). unfold amounts_positive.
  rewrite Ed, Ew, Ec, !Forall_app. split_and!; try done.
  eapply Forall_impl; [exact Fc|]. intros c (v & Hv & Hpos) v' Hv'. congruence.
Qed.

(** ** Sums over the emitted list *)

Section Settlement.
Context `{StarkCrypto} (p : MockPool).

(** The pool decrypts a used note to the amount the batch states. *)
Definition note_readable (u : UseNoteAction) : Prop :=
  input_amount p (w_channelKey (note_witness (un_note u))) (un_token u) (w_nonce (note_witness (un_note u)))
    = Some (note_amount (un_note u)).

Lemma running_app t l1 l2 : running p t (l1 ++ l2) = running p t l1 + running p t l2.
Proof. apply sumZ_app. Qed.

Lemma running_deposits t ds : Forall (fun d => dep_noteId d = None) ds ->
  running p t (map deposit_action ds) = sumZ (deposit_value t) ds.
Proof.
  intros Hd. unfold running. rewrite sumZ_map. apply sumZ_ext. intros d Hin. rewrite list.Forall_forall in Hd.
  unfold deposit_value. by rewrite (Hd d Hin).
Qed.

Lemma running_useNotes t us : Forall note_readable us ->
  running p t (map useNote_action us) = sumZ (use_value t) us.
Proof.
  intros Hu. unfold running. rewrite sumZ_map. apply sumZ_ext. intros u Hin. rewrite list.Forall_forall in Hu.
  cbn. rewrite (Hu u Hin). done.
Qed.

Lemma running_createNotes t cs l : Forall2 createNote_action cs l -> running p t l = - sumZ (create_value t) cs.
Proof.
  induction 1 as [|c a cs l Hc _ IH]; [done|]. unfold running in *. cbn [sumZ]. rewrite IH.
  unfold createNote_action, create_value, at_token in *. destruct (cn_amount c) as [v|].
  - destruct Hc as (pk & i & sa & ->). cbn. destruct (cn_token c =? t); lia.
  - destruct Hc as (pk & i & sa & ->). cbn. lia.
Qed.

Lemma running_withdraws t ws l : Forall2 withdraw_action ws l -> running p t l = - sumZ (withdraw_value t) ws.
Proof.
  induction 1 as [|w a ws l Hc _ IH]; [done|]. unfold running in *. cbn [sumZ]. rewrite IH.
  destruct Hc as (r & ->). unfold withdraw_value, at_token. cbn. destruct (wd_token w =? t); lia.
Qed.

(** The other phases move no tokens. *)
Lemma running_other t l (k : nat) : (k < 3 \/ 6 < k)%nat -> Forall (fun a => phase a = k) l -> running p t l = 0.
Proof.
  intros Hk Hl. unfold running. apply sumZ_zero. intros a Ha. rewrite list.Forall_forall in Hl. specialize (Hl a Ha).
  destruct a; cbn in *; subst k; try done; lia.
Qed.

Lemma other_acceptable l (k : nat) : (k < 3 \/ 6 < k)%nat -> Forall (fun a => phase a = k) l -> Forall (acceptable p) l.
Proof.
  intros Hk Hl. eapply Forall_impl; [exact Hl|]. cbn. intros a Ha.
  destruct a; cbn in *; subst k; try done; lia.
Qed.

(** Inputs before outputs: no prefix takes out more than it puts in. *)
Lemma prefixes_nonneg (f : ClientAction -> Z) (l1 l2 : list ClientAction) k :
  (forall a, a ∈ l1 -> 0 <= f a) -> (forall a, a ∈ l2 -> f a <= 0) -> sumZ f (l1 ++ l2) = 0 ->
  0 <= sumZ f (take k (l1 ++ l2)).
Proof.
  intros H1 H2 Hz. rewrite take_app, sumZ_app. rewrite sumZ_app in Hz.
  destruct (decide (k <= length l1)%nat) as [Hle|Hgt].
  - replace (k - length l1)%nat with 0%nat by lia. rewrite take_0. cbn [sumZ].
    assert (0 <= sumZ f (take k l1)); [|lia]. apply sumZ_nonneg. intros a Ha. apply H1. by eapply subseteq_take.
  - rewrite take_ge by lia. rewrite <- (take_drop (k - length l1) l2), sumZ_app in Hz.
    assert (0 <= sumZ (fun a => - f a) (drop (k - length l1) l2)) as Hd.
    { apply sumZ_nonneg. intros a Ha. specialize (H2 a ltac:(by eapply subseteq_drop)). lia. }
    rewrite sumZ_opp in Hd. lia.
Qed.
(** What the fields of a typed output add up to. *)
Lemma flatten_running t ds us cs ws s : out_typed (t_out s) -> emitted ds us cs ws s ->
  Forall (fun d => dep_noteId d = None) ds -> Forall note_readable us ->
  running p t (flatten (t_out s))
    = sumZ (deposit_value t) ds + sumZ (use_value t) us - sumZ (withdraw_value t) ws - sumZ (create_value t) cs.
Proof.
  intros (H0 & H1 & H2 & _ & _ & _ & _ & H7 & H8) (Ed & Eu & Ec & Ew) Hd Hu.
  apply option_list_phase in H0, H7, H8. unfold flatten. rewrite !running_app, Ed, Eu.
  rewrite (running_other t _ 0 ltac:(lia) H0), (running_other t _ 1 ltac:(lia) H1),
    (running_other t _ 2 ltac:(lia) H2), (running_other t _ 7 ltac:(lia) H7),
    (running_other t _ 8 ltac:(lia) H8), running_deposits, running_useNotes by done.
  rewrite (running_createNotes t cs _ Ec), (running_withdraws t ws _ Ew). lia.
Qed.

(** The output split into what puts tokens in and what takes them out. *)
Lemma flatten_split c : flatten c =
  (option_list (ca_setViewingKey c) ++ ca_openChannels c ++ ca_openTokenChannels c ++ ca_deposits c ++ ca_useNotes c) ++
  (ca_createNotes c ++ ca_withdraws c ++ option_list (ca_invoke c) ++ option_list (ca_computeAndInvoke c)).
Proof. unfold flatten. by rewrite <- !app_assoc. Qed.

Lemma delta_zero t a : (phase a < 3 \/ 6 < phase a)%nat -> delta p t a = 0.
Proof. intros Hk. destruct a; cbn in *; try done; lia. Qed.

Lemma flatten_signs t actions s : out_typed (t_out s) -> amounts_positive actions ->
  emitted (elems (deposits actions)) (elems (useNotes actions)) (elems (createNotes actions)) (elems (withdraws actions)) s ->
  Forall note_readable (elems (useNotes actions)) ->
  Forall (fun u => 0 <= note_amount (un_note u)) (elems (useNotes actions)) ->
  Forall (acceptable p) (flatten (t_out s)) /\
  exists l1 l2, flatten (t_out s) = l1 ++ l2 /\ (forall a, a ∈ l1 -> 0 <= delta p t a) /\ (forall a, a ∈ l2 -> delta p t a <= 0).
Proof.
  intros (H0 & H1 & H2 & _ & _ & _ & _ & H7 & H8) (Pd & Pw & Pc) (Ed & Eu & Ec & Ew) Hr Hn.
  apply option_list_phase in H0, H7, H8. rewrite !list.Forall_forall in *.
  assert (Hdep : forall a, a ∈ ca_deposits (t_out s) -> acceptable p a /\ 0 <= delta p t a).
  { intros a. rewrite Ed. intros (d & -> & Hin)%list_elem_of_fmap. specialize (Pd d Hin). cbn. destruct (_ =? _); lia. }
  assert (Huse : forall a, a ∈ ca_useNotes (t_out s) -> acceptable p a /\ 0 <= delta p t a).
  { intros a. rewrite Eu. intros (u & -> & Hin)%list_elem_of_fmap. specialize (Hr u Hin). specialize (Hn u Hin). cbn.
    rewrite Hr. split; [by eexists|]. cbn. destruct (_ =? _); lia. }
  assert (Hcre : forall a, a ∈ ca_createNotes (t_out s) -> acceptable p a /\ delta p t a <= 0).
  { intros a Ha. apply list_elem_of_lookup in Ha as [i Hi]. destruct (Forall2_lookup_r _ _ _ _ _ Ec Hi) as (c & Hc & Hca).
    apply list_elem_of_lookup_2 in Hc. specialize (Pc c Hc). unfold createNote_action in Hca.
    destruct (cn_amount c) as [v|]; destruct Hca as (pk & j & sa & ->); cbn; [|lia].
    specialize (Pc v eq_refl). destruct (_ =? _); lia. }
  assert (Hwit : forall a, a ∈ ca_withdraws (t_out s) -> acceptable p a /\ delta p t a <= 0).
  { intros a Ha. apply list_elem_of_lookup in Ha as [i Hi]. destruct (Forall2_lookup_r _ _ _ _ _ Ew Hi) as (w & Hw & r & ->).
    apply list_elem_of_lookup_2 in Hw. specialize (Pw w Hw). cbn. destruct (_ =? _); lia. }
  assert (Hother : forall (k : nat) (l : list ClientAction), (k < 3 \/ 6 < k)%nat -> (forall a, a ∈ l -> phase a = k) ->
            forall a, a ∈ l -> acceptable p a /\ delta p t a = 0).
  { intros k l Hk Hl a Ha. split; [|apply delta_zero; by rewrite (Hl a Ha)].
    pose proof (other_acceptable l k Hk) as Hacc. rewrite !list.Forall_forall in Hacc. by apply Hacc. }
  pose proof (Hother 0%nat _ ltac:(lia) H0). pose proof (Hother 1%nat _ ltac:(lia) H1).
  pose proof (Hother 2%nat _ ltac:(lia) H2). pose proof (Hother 7%nat _ ltac:(lia) H7).
  pose proof (Hother 8%nat _ ltac:(lia) H8). clear Hother.
  rewrite flatten_split. split.
  - intros a. rewrite !elem_of_app. intros Ha. decompose [or] Ha;
      match goal with Hin : a ∈ ?l, Hl : forall a, a ∈ ?l -> _ /\ _ |- _ => by destruct (Hl a Hin) end.
  - eexists _, _. split; [done|]. split; intros a; rewrite !elem_of_app; intros Ha; decompose [or] Ha;
      match goal with Hin : a ∈ ?l, Hl : forall a, a ∈ ?l -> _ /\ _ |- _ => destruct (Hl a Hin); lia end.
Qed.
End Settlement.

(** ** From the batch to the pool *)

Section Compiled.
Context `{StarkCrypto} `{Platform} `{DiscoveryProvider}.

(** The parts of the batch that move tokens. *)
Definition same_transfers (a a' : Actions) : Prop :=
  deposits a' = deposits a /\ useNotes a' = useNotes a /\ createNotes a' = createNotes a /\ withdraws a' = withdraws a.

Lemma prepareActions_same u o pool needed a : same_transfers a (prepareActions u o pool needed a).
Proof.
  unfold prepareActions. set (registered := match getChannel u pool with Some _ => _ | None => _ end).
  set (a1 := if (autoRegister o && negb registered)%bool then _ else a).
  set (a2 := if (_ && autoSetup o)%bool then addOpenChannel u a1 else a1).
  assert (H2 : same_transfers a a2).
  { unfold a2, a1. repeat match goal with |- context [if ?b then _ else _] => destruct b end; by split_and!. }
  clearbody a2. revert a2 H2. induction (am_keys needed) as [|r l IH]; intros a2 H2; [exact H2|].
  cbn [fold_left]. apply IH. destruct (unopened _ && autoSetup o)%bool; [|exact H2].
  destruct H2 as (? & ? & ? & ?). by split_and!.
Qed.

Lemma same_transfers_net a a' : same_transfers a a' -> amounts_positive a -> amounts_positive a' /\ forall t, net t a' = net t a.
Proof.
  intros (Hd & Hu & Hc & Hw) Hp. unfold amounts_positive, net. rewrite Hd, Hu, Hc, Hw. by split.
Qed.

(** [emit_all] of a settled batch. *)
Lemma emitted_passes (p : MockPool) o pa actions pool n u s' :
  emit_all o pa actions {| t_pool := pool; t_out := no_ClientActions; t_draws := n |} = (Ok u, s') ->
  (forall t, net t actions = 0) -> amounts_positive actions ->
  Forall (fun d => dep_noteId d = None) (elems (deposits actions)) ->
  Forall (note_readable p) (elems (useNotes actions)) ->
  Forall (fun x => 0 <= note_amount (un_note x)) (elems (useNotes actions)) ->
  validateTokenTotals p (flatten (t_out s')) = Ok tt.
Proof.
  intros Hrun Hnet Hpos Hd Hr Hn. pose proof (emit_all_emitted _ _ _ _ _ _ _ Hrun) as He.
  assert (Ht : out_typed (t_out s')).
  { pose proof (emit_all_typed o pa actions {| t_pool := pool; t_out := no_ClientActions; t_draws := n |}) as Ht.
    rewrite Hrun in Ht. apply Ht. split_and!; constructor || done. }
  assert (Hz : forall t, running p t (flatten (t_out s')) = 0).
  { intros t. rewrite (flatten_running p t _ _ _ _ _ Ht He Hd Hr). specialize (Hnet t). unfold net in Hnet. lia. }
  apply validate_iff. split_and!; [| |done].
  - by destruct (flatten_signs p 0 actions s' Ht Hpos He Hr Hn).
  - intros t k. destruct (flatten_signs p t actions s' Ht Hpos He Hr Hn) as (_ & l1 & l2 & Hl & Hin1 & Hin2).
    unfold running. rewrite Hl. apply prefixes_nonneg; [done|done|]. rewrite <- Hl. apply Hz.
Qed.

(** The batch and the registry after [compileOnce], and what happened in between. *)
Lemma compileOnce_run u vk pa nf o c res c' :
  compileOnce u vk pa nf o c = (Ok res, c') ->
  let needed := getRecipientsNeeded u (c_actions c) in
  exists channels w rs pool t,
    resolveRecipientChannels u vk (c_actions c) o (c_registry c) needed (c_world c) = (Ok channels, w) /\
    resolveNotes u vk o {| rs_actions := c_actions c; rs_registry := c_registry c; rs_world := w |} = (Ok tt, rs) /\
    createPool u vk (rs_registry rs) channels.1 channels.2 = Ok pool /\
    c_actions c' = prepareActions u o pool needed (rs_actions rs) /\
    emit_all o pa (c_actions c') {| t_pool := pool; t_out := no_ClientActions; t_draws := 1 |} = (Ok tt, t) /\
    clientActions res = flatten (t_out t) /\ cr_registry res = updateRegistry (rs_registry rs) (t_pool t).
Proof.
  unfold compileOnce, resolve_both, transformToClientActions, mbind, stateE_bind, st_get, st_lift, st_modify.
  destruct (resolveRecipientChannels _ _ _ _ _ _ _) as [chans w].
  destruct (resolveNotes u vk o _) as [notes rs] eqn:Hr. destruct chans as [chans|e1], notes as [[]|e2]; try done.
  cbn [c_actions c_registry c_world].
  destruct (createPool _ _ _ _ _) as [pool|e] eqn:Hp; [|done].
  destruct (emit_all o pa _ _) as [[[]|e] t] eqn:He; [|done]. intros Heq. injection Heq as <- <-.
  exists chans, w, rs, pool, t. by split_and!.
Qed.

(** A settled batch is balanced in every token. *)
Lemma settled_batch u vk o s s' : surpluses (rs_actions s) <> None \/ autoSelectNotes o <> None ->
  resolveNotes u vk o s = (Ok tt, s') -> (forall t, net t (rs_actions s') = 0) /\ amounts_positive (rs_actions s').
Proof.
  intros Hon Hres. destruct (resolveNotes_loop u vk o s _ _ Hon Hres) as [(e & ? & _)|(b & s1 & Hb & Ha & _ & Hl)]; [done|].
  destruct (action_balances_net _ _ Hb) as [Hw Hnet]. rewrite <- Ha in Hnet.
  destruct (balances_entries _ _ Hw Hnet) as (Hnd & Hin & Hout). split.
  - intros t0. rewrite (resolve_loop_net _ _ _ _ _ _ Hnd Hin Hl). case_decide; [done|by apply Hout].
  - apply (extends_positive (rs_actions s1)); [rewrite Ha; by eapply action_balances_positive|by eapply loop_extends].
Qed.

(** The emission of a settled batch passes the check. *)
Lemma settled_passes (p : MockPool) u vk o pa s rs pool needed t :
  surpluses (rs_actions s) <> None \/ autoSelectNotes o <> None -> resolveNotes u vk o s = (Ok tt, rs) ->
  let a := prepareActions u o pool needed (rs_actions rs) in
  emit_all o pa a {| t_pool := pool; t_out := no_ClientActions; t_draws := 1 |} = (Ok tt, t) ->
  Forall (fun d => dep_noteId d = None) (elems (deposits a)) -> Forall (note_readable p) (elems (useNotes a)) ->
  Forall (fun x => 0 <= note_amount (un_note x)) (elems (useNotes a)) ->
  validateTokenTotals p (flatten (t_out t)) = Ok tt.
Proof.
  intros Hon Hres a He Hd Hr Hn. destruct (settled_batch _ _ _ _ _ Hon Hres) as [Hz Hpos].
  destruct (same_transfers_net _ _ (prepareActions_same u o pool needed (rs_actions rs)) Hpos) as [Hpos' Hnet'].
  eapply emitted_passes; [exact He| |done..]. intros t0. by rewrite Hnet'.
Qed.

(** When the compiler settles a batch (surpluses or note selection are requested) that deposits into
    no open note, and the pool decrypts the notes it uses to the amounts the batch states, the client
    actions it returns pass the pool's token check. *)
Theorem compiled_batch_passes_check (p : MockPool) u vk pa nf o c res c' :
  surpluses (c_actions c) <> None \/ autoSelectNotes o <> None ->
  compileOnce u vk pa nf o c = (Ok res, c') ->
  Forall (fun d => dep_noteId d = None) (elems (deposits (c_actions c'))) ->
  Forall (note_readable p) (elems (useNotes (c_actions c'))) ->
  Forall (fun x => 0 <= note_amount (un_note x)) (elems (useNotes (c_actions c'))) ->
  validateTokenTotals p (clientActions res) = Ok tt.
Proof.
  intros Hon Hrun Hd Hr Hn.
  destruct (compileOnce_run _ _ _ _ _ _ _ _ Hrun) as (chans & w & rs & pool & t & _ & Hres & _ & Hact & He & -> & _).
  rewrite Hact in *. by eapply settled_passes; [|exact Hres|exact He|..].
Qed.
End Compiled.

(** ** A settled batch *)

(** User [1] spends a note of [8] to withdraw [6] and keeps the rest as a new note. *)
Definition spent_note : Note :=
  {| note_id := BN_bigint (@compute_note_id toy_crypto 33 7 0); note_amount := 8; note_created := None;
     note_witness := {| w_channelKey := 33; w_nonce := 0; w_r := 4 |}; note_sender := 1; note_open := None |}.

Definition spending_state : @CompileState quiet_provider :=
  @Build_CompileState quiet_provider
    {| setViewingKey := None; openChannels := None; openTokenChannels := None; deposits := None;
       useNotes := None; createNotes := None;
       withdraws := Some [{| wd_recipient := 3; wd_token := 7; wd_amount := 6 |}];
       surpluses := Some [{| sp_recipient := 1; sp_token := 7; sp_withdraw := None |}];
       invoke := None; computeAndInvoke := None |}
    {| reg_channels := new_AddressMap None [(1, new_Channel 11 (Some 33) [(7, {| tokenIndex := 0; noteNonce := 1 |})])];
       reg_notes := new_AddressMap (Some (fun _ => [])) [(7, [spent_note])];
       reg_cursor := None |} tt.

(** The pool that holds the note. *)
Definition spending_pool : MockPool :=
  with_notes_map empty_MockPool
    {[ @compute_note_id toy_crypto 33 7 0 := EncryptedNote (@encryptNoteAmount toy_crypto 33 7 0 4 8) 7 0 ]}.

(** Its batch after the run uses the note, and what it emits is a use, a new note and a withdrawal. *)
Lemma spending_run_result :
  let r := @compileOnce toy_crypto toy_platform quiet_provider 1 2 77 false sample_options spending_state in
  ((match r.1 with Ok res => map action_type (clientActions res) | Err _ => [] end)
     = [TUseNote; TCreateEncNote; TWithdraw]) /\
  (elems (useNotes (c_actions r.2)) = [{| un_token := 7; un_note := spent_note |}]) /\
  (elems (deposits (c_actions r.2)) = []).
Proof. vm_compute. by split_and!. Qed.

Lemma spent_note_readable : @note_readable toy_crypto spending_pool {| un_token := 7; un_note := spent_note |}.
Proof. vm_compute. reflexivity. Qed.

Lemma compiled_batch_passes_check_witness :
  match (@compileOnce toy_crypto toy_platform quiet_provider 1 2 77 false sample_options spending_state).1 with
  | Ok res => @validateTokenTotals toy_crypto spending_pool (clientActions res) = Ok tt
  | Err _ => False
  end.
Proof.
  pose proof spending_run_result as (Hok & Hu & Hd).
  destruct (@compileOnce toy_crypto toy_platform quiet_provider 1 2 77 false sample_options spending_state)
    as [[res|e] c'] eqn:Hrun; [|discriminate Hok].
  cbn [fst snd] in *. clear Hok.
  apply (@compiled_batch_passes_check toy_crypto toy_platform quiet_provider spending_pool 1 2 77 false sample_options
           spending_state res c').
  - right. discriminate.
  - exact Hrun.
  - rewrite Hd. constructor.
  - rewrite Hu. constructor; [exact spent_note_readable|constructor].
  - rewrite Hu. constructor; [discriminate|constructor].
Defined.
