(* ===== verification/Jobs.v ===== *)
(** * Concurrent jobs of the event loop

    Discovery starts many asynchronous calls and waits until none is pending (the
    [Tracker] of [sdk/src/utils/scan.ts]). JavaScript runs the continuation of one
    answered call at a time, and the order of the answers is arbitrary: a job is a
    call that waits for its answer, [run] what its continuation does to the shared
    state and which calls it starts, and a step picks any pending job. *)
From Stdlib Require Import ZArith Lia.
From stdpp Require Import base tactics list relations numbers.
From S2P Require Import Prelude Scan.

Section Jobs.
Context {St Job : Type} (run : Job -> St -> St * list Job).

(** The shared state and the pending jobs. *)
Definition pool_of_jobs : Type := St * list Job.

Inductive job_step : pool_of_jobs -> pool_of_jobs -> Prop :=
| job_answered st l1 j l2 : job_step (st, l1 ++ j :: l2) ((run j st).1, l1 ++ l2 ++ (run j st).2).

(** [Tracker.wait] under the schedule [pick]: turn [k] runs the pending job number [pick k] modulo
    their number. [None]: out of fuel. *)
Fixpoint wait (fuel : nat) (pick : nat -> nat) (st : St) (jobs : list Job) : option St :=
  match jobs with
  | [] => Some st
  | j0 :: _ =>
      match fuel with
      | O => None
      | S fuel =>
          let i := (pick fuel mod length jobs)%nat in
          let j := nth i jobs j0 in
          wait fuel pick (run j st).1 (delete i jobs ++ (run j st).2)
      end
  end.

(** An invariant of the pending jobs, and a weight that every run job uses up. *)
Context (I : St -> list Job -> Prop) (weight : Job -> nat).
Context (I_perm : forall st l l', l ≡ₚ l' -> I st l -> I st l').
Context (I_run : forall st j rest, I st (j :: rest) -> I (run j st).1 ((run j st).2 ++ rest)).
Context (run_lighter : forall st j rest, I st (j :: rest) -> (sum_list_with weight (run j st).2 < weight j)%nat).

Lemma sum_weights_perm l l' : l ≡ₚ l' -> sum_list_with weight l = sum_list_with weight l'.
Proof. induction 1; cbn; lia. Qed.

Lemma job_step_invariant c c' : job_step c c' -> I c.1 c.2 -> I c'.1 c'.2.
Proof.
  intros [st l1 j l2] HI. cbn in *. apply (I_perm _ ((run j st).2 ++ l1 ++ l2)).
  { rewrite (app_assoc l1 l2). by rewrite Permutation_app_comm. }
  apply I_run. by apply (I_perm _ (l1 ++ j :: l2)); [rewrite Permutation_middle|].
Qed.

Lemma job_step_lighter c c' : job_step c c' -> I c.1 c.2 ->
  (sum_list_with weight c'.2 < sum_list_with weight c.2)%nat.
Proof.
  intros [st l1 j l2] HI. cbn in *.
  assert (Hj : (sum_list_with weight (run j st).2 < weight j)%nat).
  { apply (run_lighter st j (l1 ++ l2)). by apply (I_perm _ (l1 ++ j :: l2)); [rewrite Permutation_middle|]. }
  rewrite !sum_list_with_app. cbn. lia.
Qed.

Lemma delete_nth (d : Job) i l : (i < length l)%nat -> l = take i l ++ nth i l d :: drop (S i) l.
Proof.
  intros Hi. rewrite <- (take_drop i l) at 1. f_equal.
  rewrite (nth_lookup l i d). destruct (lookup_lt_is_Some_2 l i Hi) as [x Hx]. rewrite Hx. cbn.
  by apply drop_S.
Qed.

(** Every schedule comes to an end, with the invariant. *)
Lemma wait_terminates fuel pick st jobs : I st jobs -> (sum_list_with weight jobs <= fuel)%nat ->
  exists st', wait fuel pick st jobs = Some st' /\ I st' [].
Proof.
  revert st jobs. induction fuel as [|fuel IH]; intros st jobs HI Hf; destruct jobs as [|j0 jobs];
    [by exists st| |by exists st|].
  - pose proof (run_lighter st j0 jobs HI). cbn in Hf. lia.
  - cbn [wait]. set (l := j0 :: jobs) in *. set (i := (pick fuel mod length l)%nat). set (j := nth i l j0).
    assert (Hi : (i < length l)%nat) by (apply Nat.mod_upper_bound; unfold l; done).
    pose proof (delete_nth j0 i l Hi) as Hl. fold j in Hl.
    pose proof (job_answered st (take i l) j (drop (S i) l)) as Hs. rewrite <- Hl in Hs.
    rewrite app_assoc, <- delete_take_drop in Hs.
    apply IH.
    + by apply (job_step_invariant _ _ Hs).
    + pose proof (job_step_lighter _ _ Hs HI) as Hlt. cbn in Hlt, Hf. cbn. lia.
Qed.

(** A schedule is a sequence of steps. *)
Lemma wait_steps fuel pick st jobs st' : wait fuel pick st jobs = Some st' -> rtc job_step (st, jobs) (st', []).
Proof.
  revert st jobs. induction fuel as [|fuel IH]; intros st jobs; destruct jobs as [|j0 jobs]; cbn [wait];
    [intros [= ->]; done|done|intros [= ->]; done|].
  set (l := j0 :: jobs). set (i := (pick fuel mod length l)%nat). intros Hrun%IH.
  assert (Hi : (i < length l)%nat) by (apply Nat.mod_upper_bound; unfold l; done).
  pose proof (delete_nth j0 i l Hi) as Hl.
  eapply rtc_l; [|exact Hrun]. rewrite Hl at 1. rewrite delete_take_drop, <- app_assoc. apply job_answered.
Qed.

(** Every run, finished or not, keeps the invariant. *)
Lemma job_steps_invariant c c' : rtc job_step c c' -> I c.1 c.2 -> I c'.1 c'.2.
Proof. induction 1 as [|c1 c2 c3 Hs _ IH]; [done|]. intros HI. apply IH. by eapply job_step_invariant. Qed.
End Jobs.

(** ** Scans as jobs ([sdk/src/utils/scan.ts])

    [Scan] lists the probes of a whole scan. Here a scan is taken apart into what
    waits for the answer of one probe, so that the probes of many scans can be
    answered in any order, and the two views are related. *)

(** Waiting for a probe: in the loop of [scan], in [bisect], or in [touch]. *)
Inductive scan_at : Type :=
| Scanning (start offset step prev : Z)
| Bisecting (start end_ : Z)
| Touching (i : Z).

Definition probe_index (s : scan_at) : Z :=
  match s with
  | Scanning start offset _ _ => start + offset
  | Bisecting start end_ => (start + end_) / 2
  | Touching i => i
  end.

(** The argument [skipResult] of the probe. *)
Definition skipResult (s : scan_at) : bool := match s with Touching _ => true | _ => false end.

Definition start_scan (start : Z) : scan_at := Scanning start INITIAL_OFFSET INITIAL_STEP (-1).
Definition start_bisect (start end_ : Z) : list scan_at := if end_ <=? start then [] else [Bisecting start end_].
Definition start_touch (start end_ : Z) (lengthOnly : bool) : list scan_at :=
  if lengthOnly then [] else map Touching (seqZ start (end_ - start)).

(** What is started when the probe answers. *)
Definition advance (lengthOnly : bool) (s : scan_at) (present : bool) : list scan_at :=
  match s with
  | Scanning start offset step prev =>
      let index := start + offset in
      if present then Scanning start (offset + step) (step * 2) index :: start_touch (prev + 1) index lengthOnly
      else start_bisect (prev + 1) index
  | Bisecting start end_ =>
      let mid := (start + end_) / 2 in
      if present then start_touch start mid lengthOnly ++ start_bisect (mid + 1) end_
      else start_bisect start mid
  | Touching _ => []
  end.

(** ** The probes a pending scan still issues *)

Section Pending.
Context (present : Z -> bool) (n : Z) (lengthOnly : bool).
Context (Hn : 0 <= n) (Hp : prefix_of_length present n).

(** The scan has not lost an index, and its probe is within reach. *)
Definition scan_ok (s : scan_at) : Prop :=
  match s with
  | Scanning start offset step prev => 0 <= start /\ -1 <= prev < start + offset /\ 0 < step /\ prev < n
  | Bisecting start end_ => 0 <= start < end_ /\ start <= n <= end_
  | Touching i => 0 <= i < n
  end.

Definition pending_calls (s : scan_at) : list probe_call :=
  match s with
  | Scanning start offset step prev =>
      default [] (scan_loop present (S (Z.to_nat (n - (start + offset)))) start offset step prev lengthOnly)
  | Bisecting start end_ => default [] (bisect present (S (Z.to_nat (end_ - start))) start end_ lengthOnly)
  | Touching i => [(i, true)]
  end.

Lemma mid_bounds start end_ : start < end_ -> start <= (start + end_) / 2 < end_.
Proof. intros Hlt. split; [apply Z.div_le_lower_bound; lia|apply Z.div_lt_upper_bound; lia]. Qed.

Lemma bisect_total fuel start end_ : (Z.to_nat (end_ - start) < fuel)%nat ->
  exists calls, bisect present fuel start end_ lengthOnly = Some calls /\
    bisect present (S (Z.to_nat (end_ - start))) start end_ lengthOnly = Some calls.
Proof.
  revert start end_. induction fuel as [fuel IH] using lt_wf_ind. intros start end_ Hf.
  destruct fuel as [|fuel]; [lia|]. cbn. destruct (Z.leb_spec end_ start); [by eexists|].
  pose proof (mid_bounds start end_ ltac:(lia)) as Hmid. set (mid := (start + end_) / 2) in *.
  set (k := Z.to_nat (end_ - start)) in *.
  assert (Hk : forall a b, (Z.to_nat (b - a) < k)%nat -> exists calls,
            bisect present fuel a b lengthOnly = Some calls /\ bisect present k a b lengthOnly = Some calls).
  { intros a b Hab. destruct (IH fuel ltac:(lia) a b ltac:(lia)) as (c1 & H1 & H1').
    destruct (IH k ltac:(lia) a b ltac:(lia)) as (c2 & H2 & H2'). exists c1. split; congruence. }
  destruct (present mid).
  - destruct (Hk (mid + 1) end_ ltac:(lia)) as (calls & -> & ->). by eexists.
  - destruct (Hk start mid ltac:(lia)) as (calls & -> & ->). by eexists.
Qed.

Lemma scan_loop_more fuel fuel' start offset step prev calls : (fuel <= fuel')%nat ->
  scan_loop present fuel start offset step prev lengthOnly = Some calls ->
  scan_loop present fuel' start offset step prev lengthOnly = Some calls.
Proof.
  revert fuel' offset step prev calls. induction fuel as [|fuel IH]; intros fuel' offset step prev calls Hle; [done|].
  destruct fuel' as [|fuel']; [lia|]. cbn -[bisect].
  destruct (present (start + offset)); [|done].
  destruct (scan_loop present fuel start (offset + step) (step * 2) (start + offset) lengthOnly) eqn:Hl; [|done].
  erewrite IH; [done| |exact Hl]. lia.
Qed.

Lemma scan_loop_total fuel start offset step prev : 0 <= start + offset -> 0 < step ->
  (Z.to_nat (n - (start + offset)) < fuel)%nat ->
  is_Some (scan_loop present fuel start offset step prev lengthOnly).
Proof.
  revert offset step prev. induction fuel as [|fuel IH]; intros offset step prev Hi Hs Hf; [lia|]. cbn -[bisect].
  rewrite Hp by lia. destruct (Z.ltb_spec (start + offset) n).
  - destruct (IH (offset + step) (step * 2) (start + offset)) as [calls ->]; [lia..|]. by eexists.
  - destruct (bisect_total (S (Z.to_nat (start + offset - (prev + 1)))) (prev + 1) (start + offset) ltac:(lia))
      as (calls & -> & _). by eexists.
Qed.

Lemma pending_bisect start end_ : flat_map pending_calls (start_bisect start end_)
  = default [] (bisect present (S (Z.to_nat (end_ - start))) start end_ lengthOnly).
Proof.
  unfold start_bisect. destruct (Z.leb_spec end_ start).
  - cbn [flat_map bisect]. rewrite (proj2 (Z.leb_le end_ start)) by lia. done.
  - cbn [flat_map pending_calls]. by rewrite app_nil_r.
Qed.

Lemma pending_touch start end_ : flat_map pending_calls (start_touch start end_ lengthOnly) = touch start end_ lengthOnly.
Proof.
  unfold start_touch, touch. destruct lengthOnly; [done|].
  induction (seqZ start (end_ - start)) as [|i l IH]; [done|]. cbn. by f_equal.
Qed.

(** A pending scan is its next probe and what the answer starts. *)
Lemma pending_advance s : scan_ok s ->
  pending_calls s ≡ₚ (probe_index s, skipResult s) :: flat_map pending_calls (advance lengthOnly s (present (probe_index s))).
Proof.
  destruct s as [start offset step prev|start end_|i]; cbn [scan_ok]; intros Hok.
  - cbn [pending_calls probe_index advance skipResult scan_loop]. rewrite (Hp (start + offset)) by lia.
    destruct (Z.ltb_spec (start + offset) n).
    + cbn [flat_map pending_calls]. rewrite pending_touch.
      destruct (scan_loop_total (S (Z.to_nat (n - (start + (offset + step))))) start (offset + step) (step * 2)
        (start + offset)) as [calls Hc]; [lia..|].
      apply (scan_loop_more _ (Z.to_nat (n - (start + offset)))) in Hc as Hc'; [|lia]. rewrite Hc, Hc'.
      cbn. by rewrite Permutation_app_comm.
    + rewrite pending_bisect.
      destruct (bisect_total (S (Z.to_nat (start + offset - (prev + 1)))) (prev + 1) (start + offset) ltac:(lia))
        as (calls & -> & _). done.
  - cbn [pending_calls probe_index advance skipResult]. cbn [bisect]. rewrite (proj2 (Z.leb_gt end_ start)) by lia.
    pose proof (mid_bounds start end_ ltac:(lia)). set (mid := (start + end_) / 2) in *.
    destruct (present mid).
    + rewrite flat_map_app, pending_touch, pending_bisect.
      destruct (bisect_total (Z.to_nat (end_ - start)) (mid + 1) end_ ltac:(lia)) as (calls & -> & ->). done.
    + rewrite pending_bisect.
      destruct (bisect_total (Z.to_nat (end_ - start)) start mid ltac:(lia)) as (calls & -> & ->). done.
  - done.
Qed.

Lemma touch_ok start end_ : 0 <= start -> end_ <= n -> Forall scan_ok (start_touch start end_ lengthOnly).
Proof.
  intros Hs He. unfold start_touch. destruct lengthOnly; [constructor|]. apply list.Forall_forall.
  intros x (i & -> & Hi%elem_of_seqZ)%list_elem_of_fmap. cbn. lia.
Qed.

Lemma bisect_ok start end_ : 0 <= start -> start <= n <= end_ -> Forall scan_ok (start_bisect start end_).
Proof.
  intros Hs He. unfold start_bisect. destruct (Z.leb_spec end_ start); [constructor|]. repeat constructor; lia.
Qed.

Lemma advance_ok s : scan_ok s -> Forall scan_ok (advance lengthOnly s (present (probe_index s))).
Proof.
  destruct s as [start offset step prev|start end_|i]; cbn [scan_ok advance probe_index]; intros Hok.
  - rewrite Hp by lia. destruct (Z.ltb_spec (start + offset) n).
    + constructor; [cbn; lia|]. apply touch_ok; lia.
    + apply bisect_ok; lia.
  - pose proof (mid_bounds start end_ ltac:(lia)). rewrite Hp by lia. destruct (Z.ltb_spec ((start + end_) / 2) n).
    + apply Forall_app. split; [apply touch_ok|apply bisect_ok]; lia.
    + apply bisect_ok; lia.
  - constructor.
Qed.

(** A weight: every probe costs one, and what it finds costs [w]. *)
Definition calls_weight (w : Z -> nat) (calls : list probe_call) : nat :=
  sum_list_with (fun c => S (if present c.1 then w c.1 else 0)) calls.

Lemma calls_weight_app w l1 l2 : calls_weight w (l1 ++ l2) = (calls_weight w l1 + calls_weight w l2)%nat.
Proof. apply sum_list_with_app. Qed.

Lemma calls_weight_perm w l1 l2 : l1 ≡ₚ l2 -> calls_weight w l1 = calls_weight w l2.
Proof. unfold calls_weight. induction 1; cbn in *; lia. Qed.

Lemma calls_weight_flat w l :
  sum_list_with (fun s => calls_weight w (pending_calls s)) l = calls_weight w (flat_map pending_calls l).
Proof. induction l as [|s l IH]; [done|]. cbn [sum_list_with flat_map]. by rewrite calls_weight_app, IH. Qed.

Lemma advance_weight w s : scan_ok s ->
  calls_weight w (pending_calls s) = S ((if present (probe_index s) then w (probe_index s) else 0) +
    sum_list_with (fun s => calls_weight w (pending_calls s)) (advance lengthOnly s (present (probe_index s))))%nat.
Proof. intros Hok. rewrite calls_weight_flat, (calls_weight_perm w _ _ (pending_advance s Hok)). done. Qed.

(** The indices a pending scan still finds. *)
Definition finds (s : scan_at) : list Z := found present (pending_calls s).

Lemma finds_advance s : scan_ok s ->
  finds s ≡ₚ (if present (probe_index s) then [probe_index s] else [])
               ++ flat_map finds (advance lengthOnly s (present (probe_index s))).
Proof.
  intros Hok. unfold finds at 1. etrans.
  { unfold found. by rewrite (pending_advance s Hok). }
  change (filter (fun i => present i = true) ?l.*1) with (found present l). rewrite found_cons.
  assert (Hflat : forall l, found present (flat_map pending_calls l) = flat_map finds l).
  { induction l as [|x l IH]; [done|]. cbn [flat_map]. by rewrite found_app, IH. }
  rewrite Hflat. by destruct (present (probe_index s)).
Qed.
End Pending.

Lemma start_scan_ok n start : 0 <= n -> 0 <= start -> scan_ok n (start_scan start).
Proof. intros Hn Hs. cbn. unfold INITIAL_OFFSET, INITIAL_STEP. lia. Qed.

(** A scan from any start finds every index once. *)
Lemma start_scan_finds present n start : 0 <= n -> 0 <= start -> prefix_of_length present n ->
  finds present n false (start_scan start) ≡ₚ seqZ 0 n.
Proof.
  intros Hn Hs Hp. unfold finds, start_scan. cbn [pending_calls]. unfold INITIAL_OFFSET, INITIAL_STEP.
  destruct (scan_loop_found present n Hn Hp (S (Z.to_nat (n - (start + 8)))) start 8 8 (-1))
    as (calls & -> & Hc); [lia..|].
  cbn. rewrite Hc. change (-1 + 1) with 0. by rewrite Z.sub_0_r.
Qed.

Lemma start_bisect_finds present n start end_ : prefix_of_length present n -> 0 <= start <= n -> n <= end_ ->
  flat_map (finds present n false) (start_bisect start end_) ≡ₚ seqZ start (n - start).
Proof.
  intros Hp Hs He. unfold start_bisect. destruct (Z.leb_spec end_ start).
  - by rewrite seqZ_nil by lia.
  - cbn [flat_map]. rewrite app_nil_r. unfold finds. cbn [pending_calls].
    destruct (bisect_found present n Hp (S (Z.to_nat (end_ - start))) start end_) as (calls & -> & Hc); [lia..|done].
Qed.

(** A scan that only wants the length finds the last index. *)
Lemma start_scan_last present n lengthOnly : 0 < n -> prefix_of_length present n ->
  n - 1 ∈ finds present n lengthOnly (start_scan 0).
Proof.
  intros Hn Hp. destruct lengthOnly.
  2:{ rewrite start_scan_finds by (done || lia). apply elem_of_seqZ. lia. }
  unfold finds, start_scan. cbn [pending_calls]. unfold INITIAL_OFFSET, INITIAL_STEP. rewrite Z.add_0_l.
  set (k := Z.to_nat (n - 8)).
  assert (Hk : n <= 8 * 2 ^ Z.of_nat k).
  { unfold k. destruct (Z.leb_spec n 8); [pose proof (Z.pow_pos_nonneg 2 (Z.of_nat (Z.to_nat (n - 8)))); lia|].
    rewrite Z2Nat.id by lia. pose proof (Z.pow_gt_lin_r 2 (n - 8)). lia. }
  destruct (scan_loop_length_only present n Hp (S k) 8 (-1) k 4) as (calls & -> & _ & Hlast); [lia..|exact Hk|lia|].
  cbn [default]. destruct Hlast as [Heq|[b Hb]]; [lia|]. unfold found. apply list_elem_of_filter. split.
  - rewrite Hp by lia. apply Z.ltb_lt. lia.
  - apply list_elem_of_fmap. by exists (n - 1, b).
Qed.
