(* ===== verification/PoolViews.v ===== *)
(** * The views of the pool ([sdk/src/internal/pool-contract-interface.ts])

    What discovery may ask a pool: the class [PoolContract], with the answers after
    [toBigInt], and the views of the mock pool as an instance of it. *)
From Stdlib Require Import Ascii ZArith Lia.
From stdpp Require Import base tactics list gmap strings.
From S2P Require Import Prelude JsMap Convert Crypto Encryptions Interfaces Channel MockPool Scan Jobs.

Local Open Scope string_scope.
Local Open Scope Z_scope.

Record NoteData : Type := { packed_value : Z; nd_token : Z }.

Class PoolContract := {
  channel_exists : Z -> bool;
  get_num_of_channels : Z -> Z;
  get_channel_info : Z -> Z -> EncChannelInfo;
  subchannel_exists : Z -> bool;
  get_subchannel_info : Z -> EncSubchannelInfo;
  get_outgoing_channel_info : Z -> EncOutgoingChannelInfo;
  get_note : Z -> NoteData;
  nullifier_exists : Z -> bool;
  view_public_key : Z -> Z
}.

(** ** The views of [MockPoolContract] *)

Definition is_registered (address : Z) (p : MockPool) : bool := bool_decide (is_Some (publicKeys p !! address)).

Definition mock_num_of_channels (recipientAddr : Z) (p : MockPool) : Z :=
  match publicKeys p !! recipientAddr with
  | None => 0
  | Some pk => Z.of_nat (length (default [] (channels p !! channels_key recipientAddr pk)))
  end.

Definition no_channel_info : EncChannelInfo := {| ephemeral_pubkey := 0; enc_channel_key := 0; enc_sender_addr := 0 |}.

(** [list[index]]: [undefined] for a negative index. *)
Definition mock_channel_info (recipientAddr index : Z) (p : MockPool) : EncChannelInfo :=
  match publicKeys p !! recipientAddr with
  | None => no_channel_info
  | Some pk =>
      let channelList := default [] (channels p !! channels_key recipientAddr pk) in
      if index <? 0 then no_channel_info else default no_channel_info (channelList !! Z.to_nat index)
  end.

Definition mock_subchannel_info (subchannelId : Z) (p : MockPool) : EncSubchannelInfo :=
  default {| sub_salt := 0; enc_token := 0 |} (subchannels p !! subchannelId).

Definition mock_outgoing_channel_info (outgoingChannelId : Z) (p : MockPool) : EncOutgoingChannelInfo :=
  default {| out_salt := 0; enc_recipient_addr := 0 |} (outgoingChannels p !! outgoingChannelId).

Definition mock_note (noteId : Z) (p : MockPool) : NoteData :=
  match notes p !! noteId with
  | None => {| packed_value := 0; nd_token := 0 |}
  | Some (EncryptedNote packed _ _) => {| packed_value := packed; nd_token := 0 |}
  | Some (OpenNote _ amount token) => {| packed_value := packOpenNote amount; nd_token := token |}
  end.

Definition mock_views (p : MockPool) : PoolContract := {|
  channel_exists := fun channelMarker => bool_decide (channelMarker ∈ channelMarkers p);
  get_num_of_channels := fun recipientAddr => mock_num_of_channels recipientAddr p;
  get_channel_info := fun recipientAddr index => mock_channel_info recipientAddr index p;
  subchannel_exists := fun subchannelMarker => bool_decide (subchannelMarker ∈ subchannelMarkers p);
  get_subchannel_info := fun subchannelId => mock_subchannel_info subchannelId p;
  get_outgoing_channel_info := fun outgoingChannelId => mock_outgoing_channel_info outgoingChannelId p;
  get_note := fun noteId => mock_note noteId p;
  nullifier_exists := fun nullifier => bool_decide (nullifier ∈ nullifiers p);
  view_public_key := fun userAddr => get_public_key userAddr p |}.

Section Helpers.
Context `{StarkCrypto}.

(** [get_channels]: a public key of zero counts as absent. *)
Definition get_channels (address : Z) (p : MockPool) : list EncChannelInfo :=
  match publicKeys p !! address with
  | Some pk => if pk =? 0 then [] else default [] (channels p !! channels_key address pk)
  | None => []
  end.

Definition does_channel_exist (channelKey from to : Z) (p : MockPool) : bool :=
  match publicKeys p !! to with
  | Some pk => if pk =? 0 then false else bool_decide (compute_channel_marker channelKey from to pk ∈ channelMarkers p)
  | None => false
  end.

(** [None] is the source's [false]. *)
Definition get_token (channelKey nonce : Z) (p : MockPool) : option Z :=
  (fun encrypted => si_token (decryptSubchannelInfo encrypted channelKey nonce))
    <$> subchannels p !! compute_subchannel_id channelKey nonce.

Definition has_nullifier (witness : Witness) (token privateKey : Z) (p : MockPool) : bool :=
  bool_decide (compute_nullifier (w_channelKey witness) token (w_nonce witness) privateKey ∈ nullifiers p).
End Helpers.

(** ** What the views show

    The pool stores the subchannels of a channel and the notes of a subchannel at
    consecutive indices. The record [channel_holds] says so of a channel key, in terms
    of the views discovery reads. *)

Section Content.
Context `{StarkCrypto} `{PoolContract}.

Definition note_at (key token i : Z) : NoteData := get_note (compute_note_id key token i).
Definition subchannel_at (key k : Z) : EncSubchannelInfo := get_subchannel_info (compute_subchannel_id key k).

(** The tokens of a channel, in the order of its subchannels, and the number of notes of a token. *)
Context (subs : Z -> list Z) (count : Z -> Z -> Z).

Record channel_holds (key : Z) : Prop := {
  ch_subchannel : forall k token, subs key !! k = Some token ->
    sub_salt (subchannel_at key (Z.of_nat k)) <> 0 /\
    si_token (decryptSubchannelInfo (subchannel_at key (Z.of_nat k)) key (Z.of_nat k)) = token;
  ch_no_subchannel : forall k, Z.of_nat (length (subs key)) <= k -> sub_salt (subchannel_at key k) = 0;
  ch_count : forall token, 0 <= count key token;
  ch_note : forall token i, token ∈ subs key -> 0 <= i ->
    (packed_value (note_at key token i) = 0 <-> count key token <= i) }.

Definition present_sub (key k : Z) : bool := negb (sub_salt (subchannel_at key k) =? 0).
Definition present_note (key token i : Z) : bool := negb (packed_value (note_at key token i) =? 0).
Definition sub_count (key : Z) : Z := Z.of_nat (length (subs key)).

Lemma subs_prefix key : channel_holds key -> prefix_of_length (present_sub key) (sub_count key).
Proof.
  intros Hch k Hk. unfold present_sub, sub_count. destruct (Z.ltb_spec k (Z.of_nat (length (subs key)))).
  - destruct (lookup_lt_is_Some_2 (subs key) (Z.to_nat k) ltac:(lia)) as [t Ht].
    destruct (ch_subchannel _ Hch _ _ Ht) as [Hs _]. rewrite Z2Nat.id in Hs by lia.
    by destruct (Z.eqb_spec (sub_salt (subchannel_at key k)) 0).
  - by rewrite (ch_no_subchannel _ Hch k).
Qed.

Lemma notes_prefix key token : channel_holds key -> token ∈ subs key ->
  prefix_of_length (present_note key token) (count key token).
Proof.
  intros Hch Ht i Hi. unfold present_note. pose proof (ch_note _ Hch token i Ht Hi) as Hn.
  destruct (Z.eqb_spec (packed_value (note_at key token i)) 0) as [He|He], (Z.ltb_spec i (count key token)) as [Hl|Hl];
    try done; [apply Hn in He; lia|elim He; by apply Hn].
Qed.

(** The subchannel at a present index, as the code decrypts it. *)
Lemma present_token key k : channel_holds key -> 0 <= k -> present_sub key k = true ->
  exists token, subs key !! Z.to_nat k = Some token /\
    si_token (decryptSubchannelInfo (subchannel_at key k) key k) = token.
Proof.
  intros Hch Hk Hp. rewrite (subs_prefix _ Hch k Hk) in Hp. apply Z.ltb_lt in Hp. unfold sub_count in Hp.
  destruct (lookup_lt_is_Some_2 (subs key) (Z.to_nat k) ltac:(lia)) as [t Ht]. exists t. split; [done|].
  destruct (ch_subchannel _ Hch _ _ Ht) as [_ Hd]. by rewrite Z2Nat.id in Hd by lia.
Qed.
End Content.

Lemma probe_index_nonneg n s : scan_ok n s -> 0 <= probe_index s.
Proof. destruct s; cbn; [lia|pose proof (mid_bounds start end_); lia|lia]. Qed.
