(* ===== verification/Discovery.v ===== *)
(** * On-chain discovery ([sdk/src/internal/contract-discovery.ts])

    [NotesDiscovery] finds the notes of a user and [ChannelsDiscovery] the channels
    they opened, with many concurrent calls to the views of the pool. A job is a
    call that waits for its answer; its continuation updates the result and starts
    more jobs (file [Jobs]). The continuation of a scan after its probe starts new
    probes and nothing else, so the two are one step. The pool does not change
    while discovery runs. *)
From Stdlib Require Import ZArith Lia.
From stdpp Require Import base tactics list.
From S2P Require Import Prelude JsMap Convert Crypto Encryptions Scan Jobs Interfaces Channel MockPool PoolViews.

(** What the tracker records: a [TypeError], a point off the curve, or an index that became [NaN]
    (which the source stores and the model does not carry on with). *)
Inductive discovery_error : Type :=
| DiscoveryTypeError
| DiscoveryCrypto (e : crypto_error)
| IndexNaN.

(** ** Notes *)

(** The cursor's channel objects carry a number: a job that captured an object writes to that object,
    also when the map has another one by then. *)
Record NotesState : Type := {
  ns_incoming : AddressMap (nat * IncomingChannelCursor);
  ns_next : nat;
  ns_notes : AddressMap (list Note);
  ns_errors : list discovery_error }.

Definition with_incoming (st : NotesState) (m : AddressMap (nat * IncomingChannelCursor)) : NotesState :=
  {| ns_incoming := m; ns_next := ns_next st; ns_notes := ns_notes st; ns_errors := ns_errors st |}.
Definition with_found (st : NotesState) (m : AddressMap (list Note)) : NotesState :=
  {| ns_incoming := ns_incoming st; ns_next := ns_next st; ns_notes := m; ns_errors := ns_errors st |}.
Definition fail_notes (e : discovery_error) (st : NotesState) : NotesState :=
  {| ns_incoming := ns_incoming st; ns_next := ns_next st; ns_notes := ns_notes st; ns_errors := ns_errors st ++ [e] |}.

(** A call that waits: the number of channels, a channel, a subchannel of a captured channel object, a
    note, or the nullifier of a note that exists. *)
Inductive notes_job : Type :=
| CountChannels (start : Z)
| ProbeChannel (s : scan_at)
| ProbeSubchannel (sender : Z) (obj : nat) (channelKey : Z) (s : scan_at)
| ProbeNote (sender token channelKey : Z) (s : scan_at)
| CheckNullifier (sender token channelKey index : Z) (noteData : NoteData).

Definition incoming_of (sender : Z) (st : NotesState) : option (nat * IncomingChannelCursor) :=
  (am_get sender None (ns_incoming st)).1.

(** [discoverSubchannels] and [discoverNotes] up to their first probe. *)
Definition discoverSubchannels (sender : Z) (st : NotesState) : NotesState * list notes_job :=
  match incoming_of sender st with
  | None => (fail_notes DiscoveryTypeError st, [])
  | Some (obj, c) => (st, [ProbeSubchannel sender obj (icc_channelKey c) (start_scan (subchannelIdIndex c))])
  end.

Definition discoverNotes (sender token index : Z) (st : NotesState) : NotesState * list notes_job :=
  match incoming_of sender st with
  | None => (fail_notes DiscoveryTypeError st, [])
  | Some (_, c) => (st, [ProbeNote sender token (icc_channelKey c) (start_scan index)])
  end.

(** Writing to a channel object. *)
Definition write_object (obj : nat) (f : IncomingChannelCursor -> IncomingChannelCursor) (st : NotesState) : NotesState :=
  with_incoming st (with_map (ns_incoming st)
    (map (fun e => if Nat.eqb e.2.1 obj then (e.1, (obj, f e.2.2)) else e) (am_map (ns_incoming st)))).

Definition set_noteIndex (token index : Z) (c : IncomingChannelCursor) : IncomingChannelCursor :=
  {| icc_channelKey := icc_channelKey c; subchannelIdIndex := subchannelIdIndex c;
     noteIndexes := am_set token index (noteIndexes c); totalNoteCounts := totalNoteCounts c |}.
Definition raise_subchannelIdIndex (k : Z) (c : IncomingChannelCursor) : IncomingChannelCursor :=
  {| icc_channelKey := icc_channelKey c; subchannelIdIndex := Z.max (subchannelIdIndex c) k;
     noteIndexes := noteIndexes c; totalNoteCounts := totalNoteCounts c |}.

Definition new_incoming (channelKey : Z) : IncomingChannelCursor :=
  {| icc_channelKey := channelKey; subchannelIdIndex := 0;
     noteIndexes := new_AddressMap None []; totalNoteCounts := new_AddressMap None [] |}.

Section NotesDiscovery.
Context `{StarkCrypto} `{PoolContract}.
Context (address viewingKey : Z) (tokens : list Z).

(** The caller's tokens; no tokens ask for all. *)
Definition wanted (token : Z) : bool := match tokens with [] => true | _ => bool_decide (token ∈ tokens) end.

(** The note at an index, as it is reported. *)
Definition read_note (sender token channelKey index : Z) (noteData : NoteData) : Note :=
  let '(amount, salt, isOpenNote) := readPackedValue (packed_value noteData) channelKey token index in
  {| note_id := BN_bigint (compute_note_id channelKey token index); note_amount := amount; note_created := Some 0;
     note_witness := {| w_channelKey := channelKey; w_nonce := index; w_r := salt |};
     note_sender := sender; note_open := Some isOpenNote |}.

(** [addNoteIfNotSpent] after the nullifier check: the note is stored before the cursor moves. *)
Definition addNote (sender token channelKey index : Z) (noteData : NoteData) (st : NotesState) : NotesState :=
  let note := read_note sender token channelKey index noteData in
  let '(list, m) := am_get token None (ns_notes st) in
  match list with
  | None => fail_notes DiscoveryTypeError st
  | Some list =>
      let st := with_found st (am_set token (list ++ [note]) m) in
      match incoming_of sender st with
      | None => fail_notes DiscoveryTypeError st
      | Some (obj, c) =>
          match (am_get token None (noteIndexes c)).1 with
          | None => fail_notes IndexNaN st
          | Some m => write_object obj (set_noteIndex token (Z.max m (index + 1))) st
          end
      end
  end.

Definition isSpent (token channelKey index : Z) : bool :=
  nullifier_exists (compute_nullifier channelKey token index viewingKey).

(** What the answer to a job does. *)
Definition run_notes (j : notes_job) (st : NotesState) : NotesState * list notes_job :=
  match j with
  | CountChannels start => (st, map ProbeChannel (start_bisect start (get_num_of_channels address)))
  | ProbeChannel s =>
      match decryptChannelInfo (get_channel_info address (probe_index s)) viewingKey with
      | Err e => (fail_notes (DiscoveryCrypto e) st, [])
      | Ok channel =>
          let st := {| ns_incoming := am_set (ci_sender channel) (ns_next st, new_incoming (ci_key channel)) (ns_incoming st);
                       ns_next := S (ns_next st); ns_notes := ns_notes st; ns_errors := ns_errors st |} in
          let '(st, jobs) := discoverSubchannels (ci_sender channel) st in
          (st, jobs ++ map ProbeChannel (advance false s true))
      end
  | ProbeSubchannel sender obj channelKey s =>
      let k := probe_index s in
      let encSubchannel := get_subchannel_info (compute_subchannel_id channelKey k) in
      let next present := map (ProbeSubchannel sender obj channelKey) (advance false s present) in
      if sub_salt encSubchannel =? 0 then (st, next false)
      else
        let token := si_token (decryptSubchannelInfo encSubchannel channelKey k) in
        if wanted token then
          let st := write_object obj (fun c => raise_subchannelIdIndex k (set_noteIndex token 0 c)) st in
          let '(st, jobs) := discoverNotes sender token 0 st in
          (st, jobs ++ next true)
        else (st, next true)
  | ProbeNote sender token channelKey s =>
      let i := probe_index s in
      let noteData := get_note (compute_note_id channelKey token i) in
      let next present := map (ProbeNote sender token channelKey) (advance false s present) in
      if skipResult s then
        if isSpent token channelKey i then (st, next true)
        else if packed_value noteData =? 0 then (st, next false)
        else (addNote sender token channelKey i noteData st, next true)
      else if packed_value noteData =? 0 then (st, next false)
      else (st, CheckNullifier sender token channelKey i noteData :: next true)
  | CheckNullifier sender token channelKey index noteData =>
      (if isSpent token channelKey index then st else addNote sender token channelKey index noteData st, [])
  end.

(** The constructor: the cursor is copied, its objects are numbered. *)
Definition initial_notes (existingCursor : option NotesCursor) : NotesState :=
  let cloned := am_entries (incomingChannels (cloneNotesCursor existingCursor)) in
  {| ns_incoming := new_AddressMap None (zip_with (fun i e => (e.1, (i, e.2))) (seq 0 (length cloned)) cloned);
     ns_next := length cloned;
     ns_notes := new_AddressMap (Some (fun _ => [])) [];
     ns_errors := [] |}.

(** The calls [discover] starts, in order. *)
Definition initial_notes_jobs (existingCursor : option NotesCursor) : NotesState * list notes_job :=
  let st := initial_notes existingCursor in
  let existing := match existingCursor with Some c => am_entries (incomingChannels c) | None => [] end in
  fold_left (fun s e =>
    let '(st, jobs) := s in
    let '(st, subs) := discoverSubchannels e.1 st in
    let '(st, noteJobs) := fold_left (fun s t =>
        let '(st, jobs) := s in let '(st, js) := discoverNotes e.1 t.1 t.2 st in (st, jobs ++ js))
      (am_entries (noteIndexes e.2)) (st, []) in
    (st, jobs ++ subs ++ noteJobs))
    existing (st, [CountChannels (Z.of_nat (length existing))]).

(** The cursor [discover] returns; its block is the old one's. *)
Definition final_cursor (existingCursor : option NotesCursor) (st : NotesState) : NotesCursor :=
  {| blockId := blockId (cloneNotesCursor existingCursor);
     incomingChannels := with_map (new_AddressMap None []) (map (fun e => (e.1, e.2.2)) (am_map (ns_incoming st))) |}.

(** [discover] under a schedule; [None]: out of fuel. *)
Definition discover_all_notes (fuel : nat) (pick : nat -> nat) (existingCursor : option NotesCursor)
  : option (result discovery_error (AddressMap (list Note) * NotesCursor)) :=
  let '(st, jobs) := initial_notes_jobs existingCursor in
  st ← wait run_notes fuel pick st jobs;
  Some (match ns_errors st with
        | [] => Ok (ns_notes st, final_cursor existingCursor st)
        | e :: _ => Err e
        end).
End NotesDiscovery.
