(* ===== verification/DiscoveryNotes.v ===== *)
(** * Discovery finds the unspent notes

    Theorems on [discover_all_notes] (file [Discovery]): when the pool holds channels,
    subchannels and notes at consecutive indices, discovery ends under every schedule
    of the answers, and reports every unspent note of a wanted token once. *)
From Stdlib Require Import ZArith Lia.
From stdpp Require Import base tactics list gmap fin_maps.
From S2P Require Import Prelude JsMap Convert Crypto Encryptions Scan Jobs Interfaces Channel MockPool PoolViews Discovery.

(** ** Reading and writing the cursor *)

(** The maps of the state are keyed by the bigints themselves, and no exception happened. *)
Definition state_ok (st : NotesState) : Prop :=
  ns_errors st = [] /\
  keyConverter (ns_incoming st) = (fun k => k) /\ defaultFactory (ns_incoming st) = None /\
  keyConverter (ns_notes st) = (fun k => k) /\ defaultFactory (ns_notes st) = Some (fun _ => []).

Definition senders_of (st : NotesState) : list Z := map_keys (am_map (ns_incoming st)).

(** The sender's channel object, and whether it has an index for a token. *)
Definition known (sender : Z) (obj : nat) (key : Z) (st : NotesState) : Prop :=
  exists c, map_get sender (am_map (ns_incoming st)) = Some (obj, c) /\ icc_channelKey c = key.
Definition indexed (sender token : Z) (st : NotesState) : Prop :=
  exists obj c, map_get sender (am_map (ns_incoming st)) = Some (obj, c) /\ am_has token (noteIndexes c) = true.

(** What is known stays known. *)
Definition cursor_grows (st st' : NotesState) : Prop :=
  (forall s o k, known s o k st -> known s o k st') /\ (forall s t, indexed s t st -> indexed s t st').

Lemma incoming_of_eq sender st : state_ok st -> incoming_of sender st = map_get sender (am_map (ns_incoming st)).
Proof.
  intros (_ & Hc & Hf & _). unfold incoming_of, am_get. rewrite Hc, Hf. by destruct (map_has _ _).
Qed.

Lemma map_get_values {V W} (f : V -> W) k (m : jsmap Z V) :
  map_get k (map (fun e => (e.1, f e.2)) m) = f <$> map_get k m.
Proof. induction m as [|[k0 v0] m IH]; [done|]. cbn. by case_decide. Qed.

Definition written (obj : nat) (f : IncomingChannelCursor -> IncomingChannelCursor) (v : nat * IncomingChannelCursor)
  : nat * IncomingChannelCursor := if Nat.eqb v.1 obj then (obj, f v.2) else v.

Lemma write_object_map obj f st : am_map (ns_incoming (write_object obj f st))
  = map (fun e => (e.1, written obj f e.2)) (am_map (ns_incoming st)).
Proof. cbn. apply map_ext. unfold written. intros [s [o c]]. cbn. by destruct (Nat.eqb o obj). Qed.

Lemma write_object_get obj f st s o c : map_get s (am_map (ns_incoming st)) = Some (o, c) ->
  map_get s (am_map (ns_incoming (write_object obj f st))) = Some (o, if Nat.eqb o obj then f c else c).
Proof.
  intros Hs. rewrite write_object_map, map_get_values, Hs. cbn. unfold written. cbn.
  destruct (Nat.eqb_spec o obj); [by subst|done].
Qed.

Lemma write_object_senders obj f st : senders_of (write_object obj f st) = senders_of st.
Proof. unfold senders_of, map_keys. rewrite write_object_map, <- list_fmap_compose. done. Qed.

(** A write that keeps the key of the channel and its indices. *)
Definition mild (f : IncomingChannelCursor -> IncomingChannelCursor) : Prop :=
  forall c, icc_channelKey (f c) = icc_channelKey c /\
    forall t, am_has t (noteIndexes c) = true -> am_has t (noteIndexes (f c)) = true.

Lemma write_object_grows obj f st : mild f -> cursor_grows st (write_object obj f st).
Proof.
  intros Hf. split.
  - intros s o k (c & Hs & <-). exists (if Nat.eqb o obj then f c else c). split; [by apply write_object_get|].
    destruct (Nat.eqb o obj); [apply Hf|done].
  - intros s t (o & c & Hs & Ht). exists o, (if Nat.eqb o obj then f c else c). split; [by apply write_object_get|].
    destruct (Nat.eqb o obj); [by apply Hf|done].
Qed.

Lemma am_has_set {V} t t' (v : V) (m : AddressMap V) : am_has t m = true \/ t = t' -> am_has t (am_set t' v m) = true.
Proof.
  unfold am_has, am_set. cbn. intros Ht. apply map_has_true. rewrite map_keys_set.
  destruct (map_has (keyConverter m t') (am_map m)) eqn:Hh.
  - destruct Ht as [Ht%map_has_true| ->]; [done|by apply map_has_true].
  - rewrite elem_of_app, list_elem_of_singleton. destruct Ht as [Ht%map_has_true| ->]; [by left|by right].
Qed.

Lemma set_noteIndex_mild t i : mild (set_noteIndex t i).
Proof. intros c. split; [done|]. intros t' Ht'. cbn. apply am_has_set. by left. Qed.

Lemma found_token_mild k t i : mild (fun c => raise_subchannelIdIndex k (set_noteIndex t i c)).
Proof. intros c. split; [done|]. intros t' Ht'. cbn. apply am_has_set. by left. Qed.

Lemma am_get_has {V} t (m : AddressMap V) : am_has t m = true -> is_Some (am_get t None m).1.
Proof. unfold am_has, am_get, map_has. intros Ht. destruct (map_get (keyConverter m t) (am_map m)) eqn:Hm; [|done]. cbn. by rewrite Hm. Qed.

Section Notes.
Context `{StarkCrypto} `{PoolContract}.
Context (address viewingKey : Z) (tokens : list Z).

(** What the pool holds for the user: the senders with the keys of their channels, the tokens of a
    channel, and the number of notes of a token. *)
Context (incoming : list (Z * Z)) (subs : Z -> list Z) (count : Z -> Z -> Z).

Record pool_holds : Prop := {
  ph_num : get_num_of_channels address = Z.of_nat (length incoming);
  ph_channel : forall i sender key, incoming !! i = Some (sender, key) ->
    decryptChannelInfo (get_channel_info address (Z.of_nat i)) viewingKey = Ok {| ci_key := key; ci_sender := sender |};
  ph_senders : NoDup incoming.*1;
  ph_content : forall sender key, (sender, key) ∈ incoming -> channel_holds subs count key }.

(** The unspent notes among the given indices, as they are reported. *)
Definition unspent (sender token key : Z) (l : list Z) : list Note :=
  map (fun i => read_note sender token key i (note_at key token i))
    (filter (fun i => isSpent viewingKey token key i = false) l).

Definition unspent_of_token (t sender key token : Z) : list Note :=
  if (wanted tokens token && (token =? t))%bool then unspent sender t key (seqZ 0 (count key t)) else [].
Definition unspent_of_channel (t : Z) (e : Z * Z) : list Note :=
  flat_map (unspent_of_token t e.1 e.2) (subs e.2).

(** The unspent notes of a token. *)
Definition expected_notes (t : Z) : list Note := flat_map (unspent_of_channel t) incoming.

(** The notes of a token in a result. *)
Definition note_list (t : Z) (m : AddressMap (list Note)) : list Note := default [] (map_get t (am_map m)).

Context (Hpool : pool_holds).

(** ** What is present at which index *)

Definition present_channel (i : Z) : bool := i <? Z.of_nat (length incoming).
Lemma present_channel_prefix : prefix_of_length present_channel (Z.of_nat (length incoming)).
Proof. by intros i Hi. Qed.

Lemma present_sub_prefix sender key : (sender, key) ∈ incoming -> prefix_of_length (present_sub key) (sub_count subs key).
Proof. intros Hin. by apply (subs_prefix subs count), (ph_content Hpool sender). Qed.

Lemma present_note_prefix sender key token : (sender, key) ∈ incoming -> token ∈ subs key ->
  prefix_of_length (present_note key token) (count key token).
Proof. intros Hin Ht. by apply (notes_prefix subs count); [apply (ph_content Hpool sender)|]. Qed.

(** ** What a job still contributes *)

Definition num_incoming : Z := Z.of_nat (length incoming).
Definition owed_channel (t c : Z) : list Note :=
  match incoming !! Z.to_nat c with Some e => unspent_of_channel t e | None => [] end.
Definition owed_sub (t sender key k : Z) : list Note :=
  match subs key !! Z.to_nat k with Some token => unspent_of_token t sender key token | None => [] end.
Definition channel_finds (s : scan_at) : list Z := finds present_channel num_incoming false s.
Definition sub_finds (key : Z) (s : scan_at) : list Z := finds (present_sub key) (sub_count subs key) false s.
Definition note_finds (key token : Z) (s : scan_at) : list Z :=
  finds (present_note key token) (count key token) false s.

Definition owed (t : Z) (j : notes_job) : list Note :=
  match j with
  | CountChannels start => flat_map (owed_channel t) (seqZ start (num_incoming - start))
  | ProbeChannel s => flat_map (owed_channel t) (channel_finds s)
  | ProbeSubchannel sender _ key s => flat_map (owed_sub t sender key) (sub_finds key s)
  | ProbeNote sender token key s => if token =? t then unspent sender t key (note_finds key token s) else []
  | CheckNullifier sender token key i _ => if token =? t then unspent sender t key [i] else []
  end.

(** The senders whose channels are still to be found. *)
Definition sender_at (c : Z) : list Z := match incoming !! Z.to_nat c with Some e => [e.1] | None => [] end.
Definition owed_senders (j : notes_job) : list Z :=
  match j with
  | CountChannels start => flat_map sender_at (seqZ start (num_incoming - start))
  | ProbeChannel s => flat_map sender_at (channel_finds s)
  | _ => []
  end.

(** A bisection of the channels stays below their number. *)
Definition within_channels (s : scan_at) : Prop :=
  match s with Scanning _ _ _ _ => False | Bisecting _ end_ => end_ <= num_incoming | Touching _ => True end.

Definition job_ok (st : NotesState) (j : notes_job) : Prop :=
  match j with
  | CountChannels start => 0 <= start <= num_incoming
  | ProbeChannel s => scan_ok num_incoming s /\ within_channels s
  | ProbeSubchannel sender obj key s => scan_ok (sub_count subs key) s /\ (sender, key) ∈ incoming /\ known sender obj key st
  | ProbeNote sender token key s =>
      scan_ok (count key token) s /\ (sender, key) ∈ incoming /\ token ∈ subs key /\ indexed sender token st
  | CheckNullifier sender token key i nd =>
      0 <= i < count key token /\ nd = note_at key token i /\ indexed sender token st
  end.

(** The number of answers a job waits for, with those of the jobs it starts. *)
Definition note_weight (key token : Z) (s : scan_at) : nat :=
  calls_weight (present_note key token) (fun _ => 1%nat) (pending_calls (present_note key token) (count key token) false s).
Definition sub_weight (key : Z) (s : scan_at) : nat :=
  calls_weight (present_sub key)
    (fun k => match subs key !! Z.to_nat k with Some token => note_weight key token (start_scan 0) | None => 0%nat end)
    (pending_calls (present_sub key) (sub_count subs key) false s).
Definition channel_weight (s : scan_at) : nat :=
  calls_weight present_channel
    (fun c => match incoming !! Z.to_nat c with Some e => sub_weight e.2 (start_scan 0) | None => 0%nat end)
    (pending_calls present_channel num_incoming false s).
Definition weight (j : notes_job) : nat :=
  match j with
  | CountChannels start => S (sum_list_with channel_weight (start_bisect start num_incoming))
  | ProbeChannel s => channel_weight s
  | ProbeSubchannel _ _ key s => sub_weight key s
  | ProbeNote _ token key s => note_weight key token s
  | CheckNullifier _ _ _ _ _ => 1
  end.

(** What running one job must do. *)
Definition step_ok (st : NotesState) (j : notes_job) (r : NotesState * list notes_job) : Prop :=
  state_ok r.1 /\ cursor_grows st r.1 /\
  senders_of r.1 ++ flat_map owed_senders r.2 ≡ₚ senders_of st ++ owed_senders j /\
  Forall (job_ok r.1) r.2 /\
  (forall t, note_list t (ns_notes r.1) ++ flat_map (owed t) r.2 ≡ₚ note_list t (ns_notes st) ++ owed t j) /\
  (sum_list_with weight r.2 < weight j)%nat.

Lemma cursor_grows_refl st : cursor_grows st st.
Proof. by split. Qed.

Lemma found_notes_get token st : state_ok st ->
  exists m, am_get token None (ns_notes st) = (Some (note_list token (ns_notes st)), m) /\
    keyConverter m = (fun k => k) /\ defaultFactory m = Some (fun _ => []) /\
    forall t, note_list t m = note_list t (ns_notes st).
Proof.
  intros (_ & _ & _ & Hc & Hf). unfold am_get, note_list. rewrite Hc, Hf.
  destruct (map_has token (am_map (ns_notes st))) eqn:Hh; (eexists; split; [f_equal|]).
  - unfold map_has in Hh. by destruct (map_get token (am_map (ns_notes st))).
  - by split_and!.
  - cbn. apply map_has_false in Hh. by rewrite map_get_set_eq, Hh.
  - split_and!; [done..|]. intros t. cbn. rewrite map_get_set. apply map_has_false in Hh.
    case_decide; [by subst; rewrite Hh|done].
Qed.

Lemma addNote_ok sender token key i nd st : state_ok st -> indexed sender token st ->
  let st' := addNote sender token key i nd st in
  state_ok st' /\ cursor_grows st st' /\ senders_of st' = senders_of st /\
  forall t, note_list t (ns_notes st')
    = note_list t (ns_notes st) ++ (if token =? t then [read_note sender token key i nd] else []).
Proof.
  intros Hok (o & c & Hc & Ht). pose proof Hok as (He & Hci & Hfi & Hcn & Hfn). unfold addNote.
  set (note := read_note sender token key i nd).
  destruct (found_notes_get token st Hok) as (m & -> & Hcm & Hfm & Hlist).
  set (st1 := with_found st _).
  assert (Hok1 : state_ok st1) by (unfold state_ok, st1; cbn; by split_and!).
  rewrite (incoming_of_eq sender st1 Hok1). change (ns_incoming st1) with (ns_incoming st). rewrite Hc.
  destruct (am_get_has token (noteIndexes c) Ht) as [v Hv]. rewrite Hv.
  destruct (write_object_grows o (set_noteIndex token (Z.max v (i + 1))) st1 (set_noteIndex_mild _ _)) as [Hg1 Hg2].
  split; [exact Hok1|]. split; [by split|]. split; [by rewrite write_object_senders|].
  intros t. change (ns_notes (write_object o _ st1)) with (am_set token (note_list token (ns_notes st) ++ [note]) m).
  unfold note_list at 1, am_set. cbn. rewrite Hcm, map_get_set.
  destruct (Z.eqb_spec token t) as [->|Hne]; case_decide; try congruence; [done|].
  rewrite app_nil_r. apply Hlist.
Qed.

(** ** Notes of a token *)

Lemma unspent_app sender t key l1 l2 : unspent sender t key (l1 ++ l2) = unspent sender t key l1 ++ unspent sender t key l2.
Proof. unfold unspent. by rewrite list.filter_app, map_app. Qed.

Lemma unspent_perm sender t key l1 l2 : l1 ≡ₚ l2 -> unspent sender t key l1 ≡ₚ unspent sender t key l2.
Proof. intros Hl. unfold unspent. apply fmap_Permutation. by rewrite Hl. Qed.

Lemma unspent_flat sender t key {A} (f : A -> list Z) l :
  flat_map (fun x => unspent sender t key (f x)) l = unspent sender t key (flat_map f l).
Proof. induction l as [|x l IH]; [done|]. cbn [flat_map]. by rewrite unspent_app, IH. Qed.

Lemma unspent_one sender t key i :
  unspent sender t key [i] = if isSpent viewingKey t key i then [] else [read_note sender t key i (note_at key t i)].
Proof. unfold unspent. rewrite filter_cons. by destruct (isSpent viewingKey t key i) eqn:Hs; case_decide; try done. Qed.

Lemma note_owed t sender token key s : (sender, key) ∈ incoming -> token ∈ subs key -> scan_ok (count key token) s ->
  let p := present_note key token (probe_index s) in
  owed t (ProbeNote sender token key s)
    ≡ₚ (if token =? t then unspent sender t key (if p then [probe_index s] else []) else [])
        ++ flat_map (owed t) (map (ProbeNote sender token key) (advance false s p)).
Proof.
  intros Hin Ht Hs. cbn [owed]. rewrite flat_map_map. destruct (token =? t) eqn:Htt.
  - etrans; [apply (unspent_perm _ _ _ _ _ (finds_advance _ _ _ (present_note_prefix _ _ _ Hin Ht) s Hs))|].
    rewrite unspent_app. apply Permutation_app_head. cbn [owed]. rewrite Htt. by rewrite <- unspent_flat.
  - rewrite flat_map_nil; [done|]. intros x _. cbn [owed]. by rewrite Htt.
Qed.

Lemma note_lighter sender token key s : (sender, key) ∈ incoming -> token ∈ subs key -> scan_ok (count key token) s ->
  let p := present_note key token (probe_index s) in
  note_weight key token s
    = S ((if p then 1 else 0) + sum_list_with weight (map (ProbeNote sender token key) (advance false s p)))%nat.
Proof.
  intros Hin Ht Hs. cbn zeta. rewrite sum_list_with_map. unfold note_weight.
  rewrite (advance_weight _ _ _ (present_note_prefix _ _ _ Hin Ht) _ s Hs). done.
Qed.

Lemma note_next_ok st sender token key s : (sender, key) ∈ incoming -> token ∈ subs key ->
  indexed sender token st -> scan_ok (count key token) s ->
  Forall (job_ok st) (map (ProbeNote sender token key) (advance false s (present_note key token (probe_index s)))) /\
  flat_map owed_senders (map (ProbeNote sender token key) (advance false s (present_note key token (probe_index s)))) = [].
Proof.
  intros Hin Ht Hi Hs. split.
  - apply list.Forall_fmap. eapply Forall_impl;
      [exact (advance_ok _ _ _ (present_note_prefix _ _ _ Hin Ht) s Hs)|]. done.
  - rewrite flat_map_map. by apply flat_map_nil.
Qed.

Lemma run_note_ok st sender token key s : state_ok st -> job_ok st (ProbeNote sender token key s) ->
  step_ok st (ProbeNote sender token key s) (run_notes address viewingKey tokens (ProbeNote sender token key s) st).
Proof.
  intros Hok (Hs & Hin & Ht & Hi).
  pose proof (fun t => note_owed t sender token key s Hin Ht Hs) as Howed.
  pose proof (note_lighter sender token key s Hin Ht Hs) as Hw.
  destruct (note_next_ok st sender token key s Hin Ht Hi Hs) as [Hnext Hsend].
  cbn zeta in Howed, Hw. cbn [run_notes]. fold (note_at key token (probe_index s)).
  unfold present_note in *. set (i := probe_index s) in *. set (next := map (ProbeNote sender token key)) in *.
  destruct (skipResult s) eqn:Hskip.
  - destruct s as [| |j]; try done. subst i. cbn [probe_index advance] in *.
    pose proof (present_note_prefix _ _ _ Hin Ht j ltac:(cbn in Hs; lia)) as Hp.
    rewrite (proj2 (Z.ltb_lt j _)) in Hp by (cbn in Hs; lia). apply negb_true_iff in Hp.
    rewrite Hp in *. cbn [negb] in *. unfold step_ok.
    destruct (isSpent viewingKey token key j) eqn:Hsp.
    + split_and!; [done|by apply cursor_grows_refl|done|done| |cbn in *; lia].
      intros t. rewrite (Howed t). rewrite unspent_one. destruct (Z.eqb_spec token t) as [->|]; [by rewrite Hsp|done].
    + destruct (addNote_ok sender token key j (note_at key token j) st Hok Hi) as (Hok' & Hg & Hse & Hl).
      split_and!; [done|done|cbn [fst snd map]; by rewrite Hse|done| |cbn in *; lia].
      intros t. cbn [fst snd map]. rewrite (Hl t), (Howed t), unspent_one. rewrite app_nil_r.
      destruct (Z.eqb_spec token t) as [->|]; [by rewrite Hsp, app_nil_r|done].
  - unfold step_ok. destruct (packed_value (note_at key token i) =? 0) eqn:Hp; cbn [negb] in *.
    + split_and!; [done|by apply cursor_grows_refl|cbn [fst snd]; by rewrite Hsend|done| |].
      * intros t. rewrite (Howed t). by destruct (token =? t).
      * cbn [snd weight]. rewrite Hw. lia.
    + split_and!; [done|by apply cursor_grows_refl|cbn [fst snd flat_map owed_senders app]; by rewrite Hsend| | |].
      * constructor; [|exact Hnext]. split; [|by split].
        pose proof (present_note_prefix _ _ _ Hin Ht i) as Hpre. unfold present_note in Hpre. rewrite Hp in Hpre.
        assert (0 <= i). { subst i. destruct s; cbn in *; [lia|pose proof (mid_bounds start end_); lia|lia]. }
        split; [done|]. apply Z.ltb_lt. by rewrite <- Hpre.
      * intros t. rewrite (Howed t). cbn [snd fst flat_map owed]. by destruct (token =? t).
      * cbn [snd weight sum_list_with]. rewrite Hw. lia.
Qed.

Lemma run_check_ok st sender token key i nd : state_ok st -> job_ok st (CheckNullifier sender token key i nd) ->
  step_ok st (CheckNullifier sender token key i nd)
    (run_notes address viewingKey tokens (CheckNullifier sender token key i nd) st).
Proof.
  intros Hok (Hi & -> & Hix). cbn [run_notes]. unfold step_ok. cbn [fst snd flat_map owed owed_senders weight].
  destruct (isSpent viewingKey token key i) eqn:Hsp.
  - split_and!; [done|by apply cursor_grows_refl|done|done| |cbn; lia].
    intros t. rewrite unspent_one. destruct (Z.eqb_spec token t) as [->|]; [by rewrite Hsp|done].
  - destruct (addNote_ok sender token key i (note_at key token i) st Hok Hix) as (Hok' & Hg & Hse & Hl).
    split_and!; [done|done|by rewrite Hse|done| |cbn; lia].
    intros t. rewrite (Hl t), unspent_one, app_nil_r. destruct (Z.eqb_spec token t) as [->|]; [by rewrite Hsp|done].
Qed.

(** ** Subchannels *)

(** The scan of a new token owes all its notes. *)
Lemma owed_new_token t sender key token : (sender, key) ∈ incoming -> token ∈ subs key -> wanted tokens token = true ->
  owed t (ProbeNote sender token key (start_scan 0)) ≡ₚ unspent_of_token t sender key token.
Proof.
  intros Hin Ht Hw. cbn [owed]. unfold unspent_of_token. rewrite Hw. destruct (token =? t) eqn:Htt; [|done].
  apply Z.eqb_eq in Htt as ->. apply unspent_perm, start_scan_finds; [apply (ch_count _ _ _ (ph_content Hpool _ _ Hin))|lia|].
  by apply (present_note_prefix sender).
Qed.

Lemma sub_owed t sender obj key s : (sender, key) ∈ incoming -> scan_ok (sub_count subs key) s ->
  let p := present_sub key (probe_index s) in
  owed t (ProbeSubchannel sender obj key s)
    ≡ₚ (if p then owed_sub t sender key (probe_index s) else [])
        ++ flat_map (owed t) (map (ProbeSubchannel sender obj key) (advance false s p)).
Proof.
  intros Hin Hs. cbn [owed]. rewrite flat_map_map. unfold sub_finds at 1.
  rewrite (finds_advance _ _ _ (present_sub_prefix _ _ Hin) s Hs), flat_map_app.
  apply Permutation_app; [|by rewrite flat_map_flat_map].
  destruct (present_sub key (probe_index s)); [|done]. cbn. by rewrite app_nil_r.
Qed.

Lemma sub_next_ok st sender obj key s : (sender, key) ∈ incoming -> known sender obj key st ->
  scan_ok (sub_count subs key) s ->
  Forall (job_ok st) (map (ProbeSubchannel sender obj key) (advance false s (present_sub key (probe_index s)))) /\
  flat_map owed_senders (map (ProbeSubchannel sender obj key) (advance false s (present_sub key (probe_index s)))) = [].
Proof.
  intros Hin Hk Hs. split.
  - apply list.Forall_fmap. eapply Forall_impl; [exact (advance_ok _ _ _ (present_sub_prefix _ _ Hin) s Hs)|]. done.
  - rewrite flat_map_map. by apply flat_map_nil.
Qed.

Lemma sub_lighter sender obj key s : (sender, key) ∈ incoming -> scan_ok (sub_count subs key) s ->
  let p := present_sub key (probe_index s) in
  sub_weight key s
    = S ((if p then match subs key !! Z.to_nat (probe_index s) with
                    | Some token => note_weight key token (start_scan 0) | None => 0%nat end else 0)
         + sum_list_with weight (map (ProbeSubchannel sender obj key) (advance false s p)))%nat.
Proof.
  intros Hin Hs. cbn zeta. rewrite sum_list_with_map. unfold sub_weight at 1.
  rewrite (advance_weight _ _ _ (present_sub_prefix _ _ Hin) _ s Hs). done.
Qed.

Lemma known_incoming_of sender obj key st : state_ok st -> known sender obj key st ->
  exists c, incoming_of sender st = Some (obj, c) /\ icc_channelKey c = key.
Proof. intros Hok (c & Hc & Hkey). exists c. by rewrite incoming_of_eq. Qed.

(** Finding a wanted token: its index is reset and its notes are scanned. *)
Lemma found_token_ok st sender obj key token k : state_ok st -> known sender obj key st ->
  let st' := write_object obj (fun c => raise_subchannelIdIndex k (set_noteIndex token 0 c)) st in
  discoverNotes sender token 0 st' = (st', [ProbeNote sender token key (start_scan 0)]) /\
  state_ok st' /\ cursor_grows st st' /\ senders_of st' = senders_of st /\ indexed sender token st' /\ known sender obj key st'.
Proof.
  intros Hok Hk. set (st' := write_object _ _ _).
  assert (Hok' : state_ok st') by done.
  pose proof (write_object_grows obj _ st (found_token_mild k token 0)) as Hg. fold st' in Hg.
  assert (Hk' : known sender obj key st') by (by apply Hg).
  destruct (known_incoming_of _ _ _ _ Hok' Hk') as (c & Hc & Hkey).
  split_and!; [|done|exact Hg|by apply write_object_senders| |done].
  - unfold discoverNotes. by rewrite Hc, Hkey.
  - destruct Hk as (c0 & Hc0 & _). eexists obj, _. split; [by apply write_object_get|].
    rewrite Nat.eqb_refl. cbn. apply am_has_set. by right.
Qed.

Lemma run_sub_ok st sender obj key s : state_ok st -> job_ok st (ProbeSubchannel sender obj key s) ->
  step_ok st (ProbeSubchannel sender obj key s)
    (run_notes address viewingKey tokens (ProbeSubchannel sender obj key s) st).
Proof.
  intros Hok (Hs & Hin & Hk).
  pose proof (fun t => sub_owed t sender obj key s Hin Hs) as Howed.
  pose proof (sub_lighter sender obj key s Hin Hs) as Hw.
  pose proof (fun st' Hk' => proj1 (sub_next_ok st' sender obj key s Hin Hk' Hs)) as Hnext.
  pose proof (proj2 (sub_next_ok st sender obj key s Hin Hk Hs)) as Hsend.
  pose proof (present_token subs count key _ (ph_content Hpool sender key Hin) (probe_index_nonneg _ s Hs)) as Htok.
  cbn zeta in Howed, Hw. cbn [run_notes]. fold (subchannel_at key (probe_index s)).
  unfold present_sub in *. set (k := probe_index s) in *. set (next := map (ProbeSubchannel sender obj key)) in *.
  unfold step_ok. cbn [weight]. rewrite Hw.
  destruct (sub_salt (subchannel_at key k) =? 0); cbn [negb] in *.
  { split_and!; [done|by apply cursor_grows_refl|cbn [fst snd]; by rewrite Hsend|by apply Hnext| |cbn; lia].
    intros t. by rewrite (Howed t). }
  destruct (Htok eq_refl) as (token & Htoken & ->). rewrite Htoken in *. clear Htok.
  assert (Hts : token ∈ subs key) by (by eapply list_elem_of_lookup_2).
  destruct (wanted tokens token) eqn:Hwt; cbn zeta.
  - destruct (found_token_ok st sender obj key token k Hok Hk) as (-> & Hok' & Hg & Hse & Hix & Hk').
    set (st' := write_object _ _ _) in *. cbn [fst snd app].
    split_and!; [done|done| | | |].
    + cbn [flat_map owed_senders app]. by rewrite Hsend, Hse.
    + constructor; [|by apply Hnext]. split; [apply start_scan_ok; [apply (ch_count _ _ _ (ph_content Hpool _ _ Hin))|lia]|by split_and!].
    + intros t. rewrite (Howed t). unfold owed_sub. fold k. rewrite Htoken. cbn [flat_map].
      by rewrite (owed_new_token t sender key token Hin Hts Hwt).
    + cbn [sum_list_with weight]. lia.
  - split_and!; [done|by apply cursor_grows_refl|cbn [fst snd]; by rewrite Hsend|by apply Hnext| |cbn; lia].
    intros t. rewrite (Howed t). unfold owed_sub, unspent_of_token. fold k. by rewrite Htoken, Hwt.
Qed.

(** ** Channels *)

Lemma start_bisect_within start : Forall within_channels (start_bisect start num_incoming).
Proof. unfold start_bisect. destruct (num_incoming <=? start); [constructor|]. constructor; [cbn; lia|constructor]. Qed.

Lemma advance_within s : scan_ok num_incoming s -> within_channels s -> probe_index s < num_incoming /\
  Forall within_channels (advance false s true).
Proof.
  destruct s as [| start end_|i]; cbn; intros Hs Hb; [done| |split; [lia|constructor]].
  pose proof (mid_bounds start end_ ltac:(lia)). split; [lia|]. apply Forall_app. split.
  - apply list.Forall_fmap. by apply Forall_true.
  - unfold start_bisect. destruct (_ <=? _); constructor; [done|constructor].
Qed.

Lemma channel_next s : scan_ok num_incoming s -> within_channels s ->
  let next := map ProbeChannel (advance false s true) in
  exists e, incoming !! Z.to_nat (probe_index s) = Some e /\
    (forall t, owed t (ProbeChannel s) ≡ₚ unspent_of_channel t e ++ flat_map (owed t) next) /\
    owed_senders (ProbeChannel s) ≡ₚ e.1 :: flat_map owed_senders next /\
    channel_weight s = S (sub_weight e.2 (start_scan 0) + sum_list_with weight next) /\
    (forall st, Forall (job_ok st) next).
Proof.
  intros Hs Hb. destruct (advance_within s Hs Hb) as [Hi Hwithin]. pose proof (probe_index_nonneg _ s Hs) as H0i.
  unfold num_incoming in Hi. destruct (lookup_lt_is_Some_2 incoming (Z.to_nat (probe_index s)) ltac:(lia)) as [e He].
  assert (Hp : present_channel (probe_index s) = true) by (apply Z.ltb_lt; lia).
  pose proof (finds_advance _ _ false present_channel_prefix s Hs) as Hf.
  pose proof (advance_weight _ _ false present_channel_prefix (fun c => match incoming !! Z.to_nat c with
    Some e => sub_weight e.2 (start_scan 0) | None => 0%nat end) s Hs) as Hw.
  pose proof (advance_ok _ _ false present_channel_prefix s Hs) as Hadv. rewrite Hp in *.
  exists e. split; [done|]. split_and!.
  - intros t. cbn [owed]. unfold channel_finds at 1. rewrite Hf, flat_map_app. cbn [flat_map].
    unfold owed_channel at 1. rewrite He, app_nil_r, flat_map_map, flat_map_flat_map. done.
  - cbn [owed_senders]. unfold channel_finds at 1. rewrite Hf, flat_map_app. cbn [flat_map].
    unfold sender_at at 1. rewrite He, flat_map_map, flat_map_flat_map. done.
  - unfold channel_weight at 1. unfold num_incoming. rewrite Hw, He, sum_list_with_map. done.
  - intros st. apply list.Forall_fmap. rewrite list.Forall_forall in *. intros x Hx. split; [by apply Hadv|by apply Hwithin].
Qed.

Lemma run_channel_ok st s : state_ok st -> NoDup (senders_of st ++ owed_senders (ProbeChannel s)) ->
  job_ok st (ProbeChannel s) ->
  step_ok st (ProbeChannel s) (run_notes address viewingKey tokens (ProbeChannel s) st).
Proof.
  intros Hok Hnd (Hs & Hb). pose proof (probe_index_nonneg _ s Hs) as H0i.
  destruct (channel_next s Hs Hb) as ([sender key] & He & Howed & Hsend & Hw & Hnext).
  pose proof (list_elem_of_lookup_2 _ _ _ He) as Hin. cbn [run_notes fst snd] in *.
  pose proof (ph_channel Hpool _ _ _ He) as Hd. rewrite Z2Nat.id in Hd by lia. rewrite Hd. cbn [ci_sender ci_key].
  set (st' := {| ns_incoming := _; ns_next := _; ns_notes := _; ns_errors := _ |}).
  assert (Hfresh : sender ∉ senders_of st).
  { rewrite Hsend in Hnd. intros Hs'. apply NoDup_app in Hnd as (_ & Hdis & _). apply (Hdis sender Hs'). by left. }
  pose proof Hok as (_ & Hci & _).
  assert (Hok' : state_ok st') by done.
  assert (Hget : forall x, map_get x (am_map (ns_incoming st'))
      = if decide (x = sender) then Some (ns_next st, new_incoming key) else map_get x (am_map (ns_incoming st))).
  { intros x. unfold st', am_set. cbn. rewrite Hci. apply map_get_set. }
  assert (Hold : forall x v, map_get x (am_map (ns_incoming st)) = Some v -> map_get x (am_map (ns_incoming st')) = Some v).
  { intros x v Hx. rewrite Hget. case_decide as Hxs; [|done]. subst. exfalso. apply Hfresh.
    unfold senders_of, map_keys. apply list_elem_of_fmap. exists (sender, v). split; [done|by apply map_get_in]. }
  unfold discoverSubchannels. rewrite (incoming_of_eq sender st' Hok'), Hget, decide_True by done.
  unfold step_ok. cbn [fst snd app subchannelIdIndex icc_channelKey new_incoming]. split_and!; [done| | | | |].
  - split; [intros x o k (c & Hx%Hold & ?); by exists c|intros x t (o & c & Hx%Hold & ?); by exists o, c].
  - rewrite Hsend. cbn [flat_map owed_senders app].
    assert (Hse : senders_of st' = senders_of st ++ [sender]).
    { unfold senders_of, st', am_set. cbn [ns_incoming with_map am_map]. rewrite Hci, map_keys_set.
      destruct (map_has sender _) eqn:Hh; [by apply map_has_true in Hh|done]. }
    rewrite Hse, <- app_assoc. done.
  - constructor; [|by apply Hnext]. split; [apply start_scan_ok; unfold sub_count; lia|]. split; [done|].
    exists (new_incoming key). by rewrite Hget, decide_True.
  - intros t. rewrite (Howed t). cbn [flat_map]. apply Permutation_app_head, Permutation_app_tail.
    cbn [owed subchannelIdIndex new_incoming]. unfold sub_finds.
    rewrite (start_scan_finds (present_sub key) (sub_count subs key) 0 ltac:(unfold sub_count; lia) ltac:(lia) (present_sub_prefix _ _ Hin)).
    apply Permutation_refl', (flat_map_index (unspent_of_token t sender key)).
  - cbn [sum_list_with weight subchannelIdIndex icc_channelKey new_incoming]. rewrite Hw. lia.
Qed.

Lemma run_count_ok st start : state_ok st -> job_ok st (CountChannels start) ->
  step_ok st (CountChannels start) (run_notes address viewingKey tokens (CountChannels start) st).
Proof.
  intros Hok Hst. cbn in Hst. cbn [run_notes]. rewrite (ph_num Hpool). fold num_incoming.
  pose proof (start_bisect_finds present_channel num_incoming start num_incoming present_channel_prefix
    ltac:(lia) ltac:(lia)) as Hf.
  unfold step_ok. cbn [fst snd]. split_and!; [done|by apply cursor_grows_refl| | | |].
  - rewrite flat_map_map. cbn [owed_senders]. rewrite <- Hf. unfold channel_finds. by rewrite flat_map_flat_map.
  - apply list.Forall_fmap. pose proof (bisect_ok num_incoming start num_incoming ltac:(lia) ltac:(lia)) as Hb.
    pose proof (start_bisect_within start) as Hw. rewrite list.Forall_forall in *. intros x Hx.
    split; [by apply Hb|by apply Hw].
  - intros t. rewrite flat_map_map. cbn [owed]. rewrite <- Hf. unfold channel_finds. by rewrite flat_map_flat_map.
  - rewrite sum_list_with_map. apply Nat.lt_succ_diag_r.
Qed.

(** ** The invariant of a run *)

(** [reported t] is what a whole run reports for the token [t]. *)
Definition notes_inv (reported : Z -> list Note) (st : NotesState) (jobs : list notes_job) : Prop :=
  state_ok st /\ Forall (job_ok st) jobs /\
  senders_of st ++ flat_map owed_senders jobs ≡ₚ incoming.*1 /\
  forall t, note_list t (ns_notes st) ++ flat_map (owed t) jobs ≡ₚ reported t.

Lemma job_ok_grows st st' j : cursor_grows st st' -> job_ok st j -> job_ok st' j.
Proof.
  intros [Hk Hi]. destruct j; cbn; [done|done| | |].
  - intros (? & ? & ?%Hk). by split_and!.
  - intros (? & ? & ? & ?%Hi). by split_and!.
  - intros ([? ?] & ? & ?%Hi). by split_and!.
Qed.

Lemma run_job_ok R st j rest : notes_inv R st (j :: rest) -> step_ok st j (run_notes address viewingKey tokens j st).
Proof.
  intros (Hok & Hj & Hs & _). apply Forall_cons in Hj as [Hj _].
  assert (Hnd : NoDup (senders_of st ++ owed_senders j)).
  { cbn in Hs. rewrite app_assoc in Hs. pose proof (ph_senders Hpool) as Hd. rewrite <- Hs in Hd. by apply NoDup_app in Hd as [? _]. }
  destruct j.
  - by apply run_count_ok.
  - by apply run_channel_ok.
  - by apply run_sub_ok.
  - by apply run_note_ok.
  - by apply run_check_ok.
Qed.

Lemma notes_inv_run R st j rest : notes_inv R st (j :: rest) ->
  notes_inv R (run_notes address viewingKey tokens j st).1 ((run_notes address viewingKey tokens j st).2 ++ rest).
Proof.
  intros Hinv. pose proof (run_job_ok _ _ _ _ Hinv) as (Hok' & Hg & Hse & Hjs & Hl & _).
  destruct Hinv as (Hok & Hj & Hs & Hn). apply Forall_cons in Hj as [Hj Hrest].
  split_and!; [done| | |].
  - apply Forall_app. split; [done|]. eapply Forall_impl; [exact Hrest|]. intros x. by apply job_ok_grows.
  - rewrite flat_map_app, app_assoc, Hse, <- app_assoc. exact Hs.
  - intros t. rewrite flat_map_app, app_assoc, (Hl t), <- app_assoc. apply Hn.
Qed.

Lemma notes_inv_perm R st l l' : l ≡ₚ l' -> notes_inv R st l -> notes_inv R st l'.
Proof.
  intros Hl (Hok & Hj & Hs & Hn). split_and!; [done|by rewrite <- Hl|by rewrite <- Hl|].
  intros t. rewrite <- Hl. apply Hn.
Qed.

(** Discovery from any good initial state: it ends under every schedule and reports what its first jobs owe. *)
Lemma discover_reports cursor jobs R : initial_notes_jobs cursor = (initial_notes cursor, jobs) ->
  notes_inv R (initial_notes cursor) jobs ->
  exists fuel, forall pick, exists notes c,
    discover_all_notes address viewingKey tokens fuel pick cursor = Some (Ok (notes, c)) /\
    forall t, note_list t notes ≡ₚ R t.
Proof.
  intros Hjobs Hinv. exists (sum_list_with weight jobs). intros pick.
  destruct (wait_terminates (run_notes address viewingKey tokens) (notes_inv R) weight (notes_inv_perm R) (notes_inv_run R))
    with (fuel := sum_list_with weight jobs) (pick := pick) (st := initial_notes cursor) (jobs := jobs)
    as (st & Hrun & (Hok & _) & _ & _ & Hn); [|done|done|].
  { intros st j rest Hi. by apply run_job_ok in Hi as (_ & _ & _ & _ & _ & ?). }
  exists (ns_notes st), (final_cursor cursor st). split.
  - unfold discover_all_notes. rewrite Hjobs. cbv beta iota zeta. rewrite Hrun. cbn. by rewrite Hok.
  - intros t. rewrite <- (Hn t). by rewrite app_nil_r.
Qed.

Lemma initial_inv : notes_inv expected_notes (initial_notes None) [CountChannels 0].
Proof.
  split_and!; [done|constructor; [cbn; unfold num_incoming; lia|constructor]| |].
  - cbn [flat_map owed_senders]. rewrite app_nil_r, Z.sub_0_r. change (senders_of (initial_notes None)) with (@nil Z).
    unfold sender_at, num_incoming. rewrite (flat_map_index (fun e => [e.1]) incoming). cbn [app].
    clear. induction incoming as [|e l IH]; [done|]. cbn. by rewrite IH.
  - intros t. cbn [flat_map owed]. rewrite app_nil_r, Z.sub_0_r. unfold owed_channel, num_incoming.
    by rewrite (flat_map_index (unspent_of_channel t) incoming).
Qed.
End Notes.

(** C18: on a pool that holds channels, subchannels and notes at consecutive indices, with every note's
    packed value non-zero, discovery without a cursor ends under every schedule of the answers within a
    number of turns that does not depend on the schedule, no call throws, and what it returns for each
    token is, up to order, the list of the unspent notes of the user in that token, or nothing for a
    token that was not asked for. *)
Theorem discovery_finds_unspent `{StarkCrypto} `{PoolContract} (address viewingKey : Z) (tokens : list Z)
  (incoming : list (Z * Z)) (subs : Z -> list Z) (count : Z -> Z -> Z) :
  pool_holds address viewingKey incoming subs count ->
  exists fuel, forall pick, exists notes cursor,
    discover_all_notes address viewingKey tokens fuel pick None = Some (Ok (notes, cursor)) /\
    forall t, note_list t notes ≡ₚ expected_notes viewingKey tokens incoming subs count t.
Proof.
  intros Hpool. by apply (discover_reports _ _ _ _ _ _ Hpool None [CountChannels 0]), initial_inv.
Qed.

(** ** A mock pool with two notes, one of them spent *)

Section SamplePool.
#[local] Existing Instance toy_crypto.

Definition sample_channel_info : EncChannelInfo :=
  {| ephemeral_pubkey := 9;
     enc_channel_key := (compute_enc_channel_key_hash 18 + 33) mod FIELD_PRIME;
     enc_sender_addr := (compute_enc_sender_addr_hash 18 + 5) mod FIELD_PRIME |}.

Definition sample_mock : MockPool :=
  {| publicKeys := {[1 := 2]};
     channels := {[channels_key 1 2 := [sample_channel_info]]};
     channelMarkers := ∅;
     subchannels := {[compute_subchannel_id 33 0 := encryptSubchannelInfo 33 0 7 3]};
     subchannelMarkers := ∅;
     notes := {[compute_note_id 33 7 0 := EncryptedNote (encryptNoteAmount 33 7 0 4 8) 7 0;
                compute_note_id 33 7 1 := EncryptedNote (encryptNoteAmount 33 7 1 5 9) 7 1]};
     nullifiers := {[compute_nullifier 33 7 1 2]};
     outgoingChannels := ∅ |}.

Definition sample_incoming : list (Z * Z) := [(5, 33)].
Definition sample_subs (_ : Z) : list Z := [7].
Definition sample_count (_ _ : Z) : Z := 2.

Lemma toy_note_id_ne k t i j : i <> j -> compute_note_id k t i <> compute_note_id k t j.
Proof.
  intros Hij Heq. apply (@run_hash_call_inj toy_crypto toy_collision_free (NoteId k t i) (NoteId k t j)) in Heq. congruence.
Qed.
Lemma toy_subchannel_id_ne k i j : i <> j -> compute_subchannel_id k i <> compute_subchannel_id k j.
Proof.
  intros Hij Heq. apply (@run_hash_call_inj toy_crypto toy_collision_free (SubchannelId k i) (SubchannelId k j)) in Heq.
  congruence.
Qed.

Lemma sample_note_present i : 0 <= i ->
  packed_value (mock_note (compute_note_id 33 7 i) sample_mock) = 0 <-> 2 <= i.
Proof.
  intros Hi. unfold mock_note, sample_mock. cbn [notes]. destruct (decide (i = 0)) as [->|H0].
  { rewrite lookup_insert_eq. cbn [packed_value]. split; [vm_compute; discriminate|lia]. }
  rewrite lookup_insert_ne by (by apply toy_note_id_ne; congruence). destruct (decide (i = 1)) as [->|H1].
  { rewrite lookup_singleton_eq. cbn [packed_value]. split; [vm_compute; discriminate|lia]. }
  rewrite lookup_singleton_ne by (by apply toy_note_id_ne; congruence). split; [lia|done].
Qed.

Lemma sample_channel_holds : @channel_holds toy_crypto (mock_views sample_mock) sample_subs sample_count 33.
Proof.
  split.
  - intros [|k] token; [|done]. intros [= <-]. vm_compute. split; [discriminate|reflexivity].
  - intros k Hk. cbn in Hk. unfold subchannel_at. cbn [get_subchannel_info mock_views].
    unfold mock_subchannel_info, sample_mock. cbn [subchannels].
    rewrite lookup_singleton_ne; [done|]. apply toy_subchannel_id_ne. lia.
  - done.
  - intros token i Ht Hi. apply list_elem_of_singleton in Ht as ->. by apply sample_note_present.
Qed.

Lemma sample_pool_holds : @pool_holds toy_crypto (mock_views sample_mock) 1 2 sample_incoming sample_subs sample_count.
Proof.
  split.
  - vm_compute. reflexivity.
  - intros [|i] sender key; [|done]. intros [= <- <-]. vm_compute. reflexivity.
  - apply NoDup_singleton.
  - intros sender key [= -> ->]%list_elem_of_singleton. apply sample_channel_holds.
Qed.

Lemma discovery_finds_unspent_witness :
  exists fuel, forall pick, exists notes cursor,
    @discover_all_notes toy_crypto (mock_views sample_mock) 1 2 [] fuel pick None = Some (Ok (notes, cursor)) /\
    forall t, note_list t notes
      ≡ₚ @expected_notes toy_crypto (mock_views sample_mock) 2 [] sample_incoming sample_subs sample_count t.
Proof. exact (@discovery_finds_unspent toy_crypto (mock_views sample_mock) 1 2 [] _ _ _ sample_pool_holds). Defined.

(** The unspent note of the sample. *)
Example sample_discovered :
  map note_amount (@expected_notes toy_crypto (mock_views sample_mock) 2 [] sample_incoming sample_subs sample_count 7) = [8].
Proof. vm_compute. reflexivity. Qed.
End SamplePool.

(** ** Resuming

    A scan probes every index below its start again (file [Scan]). The theorem says
    what that means for [discover_all_notes] (file [Discovery]) with the cursor of an
    earlier discovery. *)

(** The first jobs of a known channel. *)
Definition resume_jobs (obj : nat) (e : Z * IncomingChannelCursor) : list notes_job :=
  ProbeSubchannel e.1 obj (icc_channelKey e.2) (start_scan (subchannelIdIndex e.2)) ::
  map (fun t => ProbeNote e.1 t.1 (icc_channelKey e.2) (start_scan t.2)) (am_entries (noteIndexes e.2)).

(** The copy of a cursor keeps the tokens it has indices for. *)
Lemma cloned_index t icc : t ∈ am_keys (noteIndexes icc) ->
  am_has t (noteIndexes (cloneIncomingChannelCursor icc)) = true.
Proof.
  cbn. unfold new_AddressMap, am_new, am_entries, am_keys, map_keys. set (m0 := {| keyConverter := _; defaultFactory := _; am_map := _ |}).
  assert (Hgen : forall (l : list (Z * Z)) (m : AddressMap Z), t ∈ l.*1 \/ am_has t m = true ->
    am_has t (fold_left (fun m e => am_set e.1 e.2 m) l m) = true).
  { induction l as [|e l IH]; intros m Ht; cbn in *; [by destruct Ht as [[]%elem_of_nil|]|]. apply IH.
    destruct Ht as [[->|Ht]%elem_of_cons|Ht]; [right; apply am_has_set; by right|by left|right; apply am_has_set; by left]. }
  intros Ht. apply Hgen. by left.
Qed.

Section Resume.
Context `{StarkCrypto} `{PoolContract}.
Context (address viewingKey : Z) (tokens : list Z).
Context (incoming : list (Z * Z)) (subs : Z -> list Z) (count : Z -> Z -> Z).
Context (Hpool : pool_holds address viewingKey incoming subs count).

(** The cursor knows every channel and, of every channel, every wanted token. *)
Record cursor_covers (c : NotesCursor) : Prop := {
  cc_channels_known : map (fun e => (e.1, icc_channelKey e.2)) (am_entries (incomingChannels c)) ≡ₚ incoming;
  cc_tokens_known : forall e, e ∈ am_entries (incomingChannels c) -> 0 <= subchannelIdIndex e.2 /\
    am_keys (noteIndexes e.2) ≡ₚ filter (fun t => wanted tokens t = true) (subs (icc_channelKey e.2)) /\
    Forall (fun i => 0 <= i) (am_values (noteIndexes e.2)) }.

Context (c : NotesCursor) (Hc : cursor_covers c).

Definition existing : list (Z * IncomingChannelCursor) := am_entries (incomingChannels c).

Lemma existing_keys : existing.*1 ≡ₚ incoming.*1.
Proof. rewrite <- (cc_channels_known c Hc), <- list_fmap_compose. done. Qed.

Lemma existing_NoDup : NoDup existing.*1.
Proof. rewrite existing_keys. apply (ph_senders _ _ _ _ _ Hpool). Qed.

(** Numbering the objects keeps the senders. *)
Definition numbered (i : nat) (l : list (Z * IncomingChannelCursor)) : list (Z * (nat * IncomingChannelCursor)) :=
  zip_with (fun i e => (e.1, (i, cloneIncomingChannelCursor e.2))) (seq i (length l)) l.

Lemma numbered_keys i l : (numbered i l).*1 = l.*1.
Proof. revert i. induction l as [|e l IH]; intros i; [done|]. cbn. f_equal. apply IH. Qed.

Lemma numbered_get i l e : NoDup l.*1 -> e ∈ l ->
  exists obj, map_get e.1 (numbered i l) = Some (obj, cloneIncomingChannelCursor e.2).
Proof.
  revert i. induction l as [|e0 l IH]; intros i Hnd Hin; [by apply elem_of_nil in Hin|]. cbn in *.
  apply NoDup_cons in Hnd as [Hne Hnd]. apply elem_of_cons in Hin as [->|Hin].
  - exists i. by rewrite decide_True.
  - rewrite decide_False; [by apply IH|]. intros Heq. apply Hne. rewrite <- Heq. by apply list_elem_of_fmap_2.
Qed.

Lemma initial_incoming : am_map (ns_incoming (initial_notes (Some c))) = numbered 0 existing /\
  state_ok (initial_notes (Some c)).
Proof.
  pose proof existing_NoDup as Hnd.
  assert (Hcl : am_entries (incomingChannels (cloneNotesCursor (Some c)))
    = map (fun e => (e.1, cloneIncomingChannelCursor e.2)) existing).
  { cbn. unfold am_entries. rewrite new_AddressMap_map; [done|]. unfold map_wf, map_keys. rewrite <- list_fmap_compose. exact Hnd. }
  unfold initial_notes. rewrite Hcl, length_map.
  assert (Hz : forall i l, zip_with (fun (i : nat) (e : Z * IncomingChannelCursor) => (e.1, (i, e.2))) (seq i (length l))
    (map (fun e => (e.1, cloneIncomingChannelCursor e.2)) l) = numbered i l).
  { intros i l. revert i. induction l as [|e l IH]; intros i; [done|]. cbn. f_equal. apply IH. }
  rewrite Hz. assert (Hwf : map_wf (numbered 0 existing)) by (unfold map_wf, map_keys; by rewrite numbered_keys).
  split; [by apply new_AddressMap_map|]. unfold state_ok. cbn. unfold new_AddressMap, am_new. rewrite am_set_entries by done.
  by split_and!.
Qed.

Definition object_of (e : Z * IncomingChannelCursor) : nat := from_option fst 0%nat (incoming_of e.1 (initial_notes (Some c))).

Lemma existing_incoming_of e : e ∈ existing ->
  incoming_of e.1 (initial_notes (Some c)) = Some (object_of e, cloneIncomingChannelCursor e.2).
Proof.
  intros He. destruct initial_incoming as [Hm Hok]. unfold object_of.
  destruct (numbered_get 0 existing e existing_NoDup He) as [o Ho].
  by rewrite incoming_of_eq, Hm, Ho.
Qed.

(** The calls a resumed discovery starts with. *)
Lemma initial_resume_jobs : initial_notes_jobs (Some c)
  = (initial_notes (Some c),
     CountChannels (Z.of_nat (length existing)) :: flat_map (fun e => resume_jobs (object_of e) e) existing).
Proof.
  unfold initial_notes_jobs. fold existing. set (st := initial_notes (Some c)).
  assert (Hall : forall e, e ∈ existing -> incoming_of e.1 st = Some (object_of e, cloneIncomingChannelCursor e.2))
    by exact existing_incoming_of.
  match goal with |- fold_left ?f _ _ = _ => set (F := f) end.
  assert (Hgen : forall l acc, (forall e, e ∈ l -> e ∈ existing) ->
    fold_left F l (st, acc) = (st, acc ++ flat_map (fun e => resume_jobs (object_of e) e) l)).
  { induction l as [|e l IH]; intros acc Hl; [by rewrite app_nil_r|]. cbn [fold_left flat_map].
    unfold F at 2, discoverSubchannels. rewrite (Hall e) by (apply Hl; by left).
    assert (Hin : forall ts js, fold_left (fun s t => let '(st, jobs) := s in
        let '(st, js) := discoverNotes e.1 t.1 t.2 st in (st, jobs ++ js)) ts (st, js)
      = (st, js ++ map (fun t => ProbeNote e.1 t.1 (icc_channelKey e.2) (start_scan t.2)) ts)).
    { induction ts as [|t ts IHt]; intros js; [by rewrite app_nil_r|]. cbn [fold_left map].
      unfold discoverNotes at 2. rewrite (Hall e) by (apply Hl; by left). rewrite IHt, <- app_assoc. done. }
    rewrite Hin. cbn [app]. rewrite IH by (intros e' He'; apply Hl; by right). by rewrite <- app_assoc. }
  by apply Hgen.
Qed.

(** What the first calls for a known channel report: its unspent notes, twice. *)
Lemma resume_owed t e : e ∈ existing ->
  flat_map (owed viewingKey tokens incoming subs count t) (resume_jobs (object_of e) e)
    ≡ₚ unspent_of_channel viewingKey tokens subs count t (e.1, icc_channelKey e.2)
        ++ unspent_of_channel viewingKey tokens subs count t (e.1, icc_channelKey e.2).
Proof.
  intros He. destruct (cc_tokens_known c Hc e He) as (Hs & Hkeys & Hpos). set (key := icc_channelKey e.2) in *.
  assert (Hin : (e.1, key) ∈ incoming).
  { rewrite <- (cc_channels_known c Hc). by apply (list_elem_of_fmap_2 (fun e => (e.1, icc_channelKey e.2))). }
  unfold resume_jobs. cbn [flat_map]. fold key. apply Permutation_app.
  - cbn [owed]. unfold sub_finds. rewrite start_scan_finds; [|unfold sub_count; lia|done|by eapply present_sub_prefix].
    apply Permutation_refl', (flat_map_index (unspent_of_token viewingKey tokens count t e.1 key)).
  - rewrite flat_map_map. unfold unspent_of_channel. cbn [fst snd].
    set (f := unspent_of_token viewingKey tokens count t e.1 key).
    assert (Hf : flat_map f (subs key) = flat_map f (filter (fun t => wanted tokens t = true) (subs key))).
    { generalize (subs key) as l. induction l as [|t' l IH]; [done|]. rewrite filter_cons. cbn [flat_map]. rewrite IH.
      case_decide as Hw; [done|]. unfold f at 1, unspent_of_token. by destruct (wanted tokens t'). }
    rewrite Hf, <- Hkeys. unfold am_keys, map_keys. rewrite (flat_map_map f fst).
    apply flat_map_pointwise. intros [t' i] Hti.
    assert (Ht' : t' ∈ filter (fun t => wanted tokens t = true) (subs key)).
    { rewrite <- Hkeys. by apply (list_elem_of_fmap_2 fst) in Hti. }
    apply list_elem_of_filter in Ht' as [Hw Ht']. cbn [owed fst snd]. unfold f, unspent_of_token. rewrite Hw. cbn [andb].
    destruct (Z.eqb_spec t' t) as [->|]; [|done]. apply unspent_perm, start_scan_finds.
    + apply (ch_count _ _ _ (ph_content _ _ _ _ _ Hpool _ _ Hin)).
    + rewrite list.Forall_forall in Hpos. apply Hpos. by apply (list_elem_of_fmap_2 snd) in Hti.
    + by eapply present_note_prefix.
Qed.

Lemma resume_jobs_ok e : e ∈ existing ->
  Forall (job_ok incoming subs count (initial_notes (Some c))) (resume_jobs (object_of e) e) /\
  flat_map (owed_senders incoming) (resume_jobs (object_of e) e) = [].
Proof.
  intros He. destruct (cc_tokens_known c Hc e He) as (Hs & Hkeys & Hpos). set (key := icc_channelKey e.2) in *.
  assert (Hin : (e.1, key) ∈ incoming).
  { rewrite <- (cc_channels_known c Hc). by apply (list_elem_of_fmap_2 (fun e => (e.1, icc_channelKey e.2))). }
  pose proof (existing_incoming_of e He) as Hget. rewrite incoming_of_eq in Hget by apply initial_incoming.
  unfold resume_jobs. fold key. split.
  - constructor.
    + split; [apply start_scan_ok; [unfold sub_count; lia|done]|]. split; [done|]. by eexists.
    + apply list.Forall_fmap, list.Forall_forall. intros [t i] Hti.
      assert (Ht : t ∈ am_keys (noteIndexes e.2)) by (by apply (list_elem_of_fmap_2 fst) in Hti).
      pose proof Ht as Hf. rewrite Hkeys in Hf. apply list_elem_of_filter in Hf as [_ Hf].
      rewrite list.Forall_forall in Hpos.
      split; [apply start_scan_ok; [apply (ch_count _ _ _ (ph_content _ _ _ _ _ Hpool _ _ Hin))|]|].
      { apply Hpos. by apply (list_elem_of_fmap_2 snd) in Hti. }
      split_and!; [done|done|]. eexists _, _. split; [exact Hget|]. by apply cloned_index.
  - cbn [flat_map owed_senders app]. rewrite flat_map_map. by apply flat_map_nil.
Qed.

Lemma resume_inv : notes_inv viewingKey tokens incoming subs count
  (fun t => expected_notes viewingKey tokens incoming subs count t ++ expected_notes viewingKey tokens incoming subs count t)
  (initial_notes (Some c))
  (CountChannels (Z.of_nat (length existing)) :: flat_map (fun e => resume_jobs (object_of e) e) existing).
Proof.
  destruct initial_incoming as [Hm Hok].
  assert (Hlen : length existing = length incoming).
  { rewrite <- (Permutation_length (cc_channels_known c Hc)). unfold existing. by rewrite length_map. }
  assert (Hnone : seqZ (Z.of_nat (length existing)) (num_incoming incoming - Z.of_nat (length existing)) = []).
  { apply seqZ_nil. unfold num_incoming. lia. }
  split_and!; [done| | |].
  - constructor; [cbn; unfold num_incoming; lia|]. apply list.Forall_forall. intros j Hj.
    apply list_elem_of_In, in_flat_map in Hj as (e & He%list_elem_of_In & Hj%list_elem_of_In).
    destruct (resume_jobs_ok e He) as [Hjobs _]. rewrite list.Forall_forall in Hjobs. by apply Hjobs.
  - cbn [flat_map owed_senders]. rewrite Hnone. cbn [flat_map app]. rewrite flat_map_flat_map, flat_map_nil.
    + rewrite app_nil_r. unfold senders_of. rewrite Hm. unfold map_keys. rewrite numbered_keys. apply existing_keys.
    + intros e He. by apply resume_jobs_ok.
  - intros t. change (note_list t (ns_notes (initial_notes (Some c)))) with (@nil Note). cbn [app flat_map owed].
    rewrite Hnone. cbn [flat_map app]. rewrite flat_map_flat_map.
    rewrite (flat_map_pointwise _ _ _ (fun e He => resume_owed t e He)), flat_map_twice.
    assert (He : flat_map (fun e => unspent_of_channel viewingKey tokens subs count t (e.1, icc_channelKey e.2)) existing
      ≡ₚ expected_notes viewingKey tokens incoming subs count t).
    { unfold expected_notes. rewrite <- (cc_channels_known c Hc). by rewrite flat_map_map. }
    by rewrite He.
Qed.
End Resume.

(** Discovery that resumes with a cursor which knows the channels and the wanted tokens of the user
    reports every unspent note twice, under every schedule of the answers: the resumed scan of the
    subchannels finds every token again and scans its notes from the first one, and so does the resumed
    scan of the notes. The interface promises the unspent notes. *)
Theorem resumed_discovery_repeats `{StarkCrypto} `{PoolContract} (address viewingKey : Z) (tokens : list Z)
  (incoming : list (Z * Z)) (subs : Z -> list Z) (count : Z -> Z -> Z) (c : NotesCursor) :
  pool_holds address viewingKey incoming subs count ->
  cursor_covers tokens incoming subs c ->
  exists fuel, forall pick, exists notes c',
    discover_all_notes address viewingKey tokens fuel pick (Some c) = Some (Ok (notes, c')) /\
    forall t, note_list t notes ≡ₚ expected_notes viewingKey tokens incoming subs count t
                                  ++ expected_notes viewingKey tokens incoming subs count t.
Proof.
  intros Hpool Hc. eapply (discover_reports _ _ _ _ _ _ Hpool).
  - exact (initial_resume_jobs _ _ _ _ _ _ Hpool c Hc).
  - exact (resume_inv _ _ _ _ _ _ Hpool c Hc).
Qed.

(** ** The sample pool again *)

Definition sample_cursor : NotesCursor :=
  {| blockId := BN_number 0;
     incomingChannels := new_AddressMap None
       [(5, {| icc_channelKey := 33; subchannelIdIndex := 0; noteIndexes := new_AddressMap None [(7, 1)];
               totalNoteCounts := new_AddressMap None [] |})] |}.

(** The cursor is the one a first discovery returns. *)
Example sample_cursor_returned :
  (match @discover_all_notes toy_crypto (mock_views sample_mock) 1 2 [] 40 (fun _ => 0%nat) None with
   | Some (Ok (_, c)) => Some (map (fun e => (e.1, icc_channelKey e.2, subchannelIdIndex e.2, am_entries (noteIndexes e.2)))
                                (am_entries (incomingChannels c)))
   | _ => None
   end) = Some (map (fun e => (e.1, icc_channelKey e.2, subchannelIdIndex e.2, am_entries (noteIndexes e.2)))
                 (am_entries (incomingChannels sample_cursor))).
Proof. vm_compute. reflexivity. Qed.

Lemma resumed_discovery_repeats_witness :
  exists fuel, forall pick, exists notes c',
    @discover_all_notes toy_crypto (mock_views sample_mock) 1 2 [] fuel pick (Some sample_cursor) = Some (Ok (notes, c')) /\
    forall t, note_list t notes
      ≡ₚ @expected_notes toy_crypto (mock_views sample_mock) 2 [] sample_incoming sample_subs sample_count t
          ++ @expected_notes toy_crypto (mock_views sample_mock) 2 [] sample_incoming sample_subs sample_count t.
Proof.
  apply (@resumed_discovery_repeats toy_crypto (mock_views sample_mock) 1 2 [] _ _ _ sample_cursor sample_pool_holds).
  split; [done|]. intros e He. apply list_elem_of_singleton in He as ->. split_and!; [done|done|].
  repeat constructor. discriminate.
Defined.
