(* ===== verification/ChannelsDiscovery.v ===== *)
(** * Discovery of outgoing channels ([ChannelsDiscovery] of [sdk/src/internal/contract-discovery.ts])

    The second class of the file, as jobs: the outgoing channels of the user, the
    public key of a recipient, the marker of a channel, its subchannels and the number
    of its notes. *)
From Stdlib Require Import ZArith Lia.
From stdpp Require Import base tactics list.
From S2P Require Import Prelude JsMap Convert Crypto Encryptions Scan Jobs Interfaces Channel MockPool PoolViews Discovery.

Record ChannelsState : Type := {
  cs_channels : option (AddressMap Channel);
  cs_total : option Z;
  cs_errors : list discovery_error }.

Definition with_cs_channels (st : ChannelsState) (m : AddressMap Channel) : ChannelsState :=
  {| cs_channels := Some m; cs_total := cs_total st; cs_errors := cs_errors st |}.
Definition fail_channels (e : discovery_error) (st : ChannelsState) : ChannelsState :=
  {| cs_channels := cs_channels st; cs_total := cs_total st; cs_errors := cs_errors st ++ [e] |}.

(** A call that waits. A scan of subchannels or notes keeps the key the channel had when it started;
    a channel whose key is set never gets another one. *)
Inductive channels_job : Type :=
| ProbeOutgoing (s : scan_at)
| FetchPublicKey (recipient : Z)
| CheckMarker (recipient publicKey : Z)
| ProbeToken (recipient : Z) (key : option Z) (s : scan_at)
| ProbeNonce (recipient key token : Z) (s : scan_at).

Definition channel_in (recipient : Z) (st : ChannelsState) : option Channel :=
  m ← cs_channels st; (am_get recipient None m).1.

(** Writing to the channel object of the map. *)
Definition update_channel (recipient : Z) (f : Channel -> Channel) (st : ChannelsState) : ChannelsState :=
  match cs_channels st with
  | None => fail_channels DiscoveryTypeError st
  | Some m =>
      match (am_get recipient None m).1 with
      | None => fail_channels DiscoveryTypeError st
      | Some c => with_cs_channels st (am_set recipient (f c) m)
      end
  end.

Definition set_token (token k : Z) (c : Channel) : Channel :=
  with_tokens c (am_set token {| tokenIndex := k; noteNonce := 0 |} (ch_tokens c)).
(** [nonces.noteNonce = Math.max(nonces.noteNonce, i + 1)]. *)
Definition raise_nonce (token i : Z) (c : Channel) : Channel :=
  let '(nonces, c) := tokens_get token c in
  with_tokens c (am_set token {| tokenIndex := tokenIndex nonces; noteNonce := Z.max (noteNonce nonces) (i + 1) |} (ch_tokens c)).

(** [discoverSubchannels(recipient, channel)] up to its first probe. *)
Definition scan_tokens (recipient : Z) (channel : Channel) : channels_job :=
  ProbeToken recipient (ch_key channel) (start_scan (Z.of_nat (am_size (ch_tokens channel)))).

(** [discoverChannel] from the public key on. *)
Definition with_public_key (recipient publicKey : Z) (st : ChannelsState) : ChannelsState * list channels_job :=
  if publicKey =? 0 then (st, [])
  else
    match cs_channels st with
    | None => (fail_channels DiscoveryTypeError st, [])
    | Some m =>
        (with_cs_channels st (am_get recipient (Some (fun _ => new_Channel publicKey None [])) m).2,
         [CheckMarker recipient publicKey])
    end.

(** [discoverChannel] up to its first wait. A channel without a key passes the test
    [channel.key !== 0n]. *)
Definition discoverChannel (recipient : Z) (st : ChannelsState) : ChannelsState * list channels_job :=
  match cs_channels st with
  | None => (fail_channels DiscoveryTypeError st, [])
  | Some m =>
      match (am_get recipient None m).1 with
      | Some channel =>
          if bool_decide (ch_key channel = Some 0) then with_public_key recipient (ch_publicKey channel) st
          else (st, [scan_tokens recipient channel])
      | None => (st, [FetchPublicKey recipient])
      end
  end.

Section ChannelsDiscovery.
Context `{StarkCrypto} `{PoolContract}.
Context (address viewingKey : Z) (recipients : RecipientsFilter).

Definition total_only : bool := match recipients with TotalOnly => true | _ => false end.

Definition run_channels (j : channels_job) (st : ChannelsState) : ChannelsState * list channels_job :=
  match j with
  | ProbeOutgoing s =>
      let i := probe_index s in
      let info := get_outgoing_channel_info (compute_outgoing_channel_id address viewingKey i) in
      let next present := map ProbeOutgoing (advance total_only s present) in
      if out_salt info =? 0 then (st, next false)
      else
        let '(st, jobs) :=
          if total_only then (st, [])
          else discoverChannel (oi_recipientAddr (decryptOutgoingChannelInfo info address viewingKey i)) st in
        ({| cs_channels := cs_channels st; cs_total := Some (Z.max (default 0 (cs_total st)) (i + 1)); cs_errors := cs_errors st |},
         jobs ++ next true)
  | FetchPublicKey recipient => with_public_key recipient (view_public_key recipient) st
  | CheckMarker recipient publicKey =>
      let channelKey := compute_channel_key address viewingKey recipient publicKey in
      if channel_exists (compute_channel_marker channelKey address recipient publicKey) then
        let st := update_channel recipient (fun c => with_key c (Some channelKey)) st in
        match channel_in recipient st with
        | Some channel => (st, [scan_tokens recipient channel])
        | None => (st, [])
        end
      else (st, [])
  | ProbeToken recipient key s =>
      match key with
      | None => (fail_channels DiscoveryTypeError st, [])
      | Some key' =>
          let k := probe_index s in
          let encSubchannel := get_subchannel_info (compute_subchannel_id key' k) in
          let next present := map (ProbeToken recipient key) (advance false s present) in
          if sub_salt encSubchannel =? 0 then (st, next false)
          else
            let token := si_token (decryptSubchannelInfo encSubchannel key' k) in
            (update_channel recipient (set_token token k) st, ProbeNonce recipient key' token (start_scan 0) :: next true)
      end
  | ProbeNonce recipient key token s =>
      let i := probe_index s in
      let next present := map (ProbeNonce recipient key token) (advance true s present) in
      if packed_value (get_note (compute_note_id key token i)) =? 0 then (st, next false)
      else (update_channel recipient (raise_nonce token i) st, next true)
  end.

Definition initial_channels (cursor : option ChannelCursor) : ChannelsState :=
  let c := cloneChannelCursor cursor in
  {| cs_channels := cc_channels c; cs_total := cc_total c; cs_errors := [] |}.

(** The calls [discover] starts for the recipients, and for the channels of the cursor. *)
Definition recipient_jobs (st : ChannelsState) : ChannelsState * list channels_job :=
  match recipients with
  | Recipients l =>
      fold_left (fun s r => let '(st, jobs) := s in let '(st, js) := discoverChannel r st in (st, jobs ++ js)) l (st, [])
  | _ => (st, [ProbeOutgoing (start_scan (default 0 (cs_total st)))])
  end.

Definition cursor_jobs (cursor : option ChannelCursor) : list channels_job :=
  flat_map (fun e =>
    match ch_key e.2 with
    | Some key =>
        if key =? 0 then []
        else scan_tokens e.1 e.2 :: map (fun t => ProbeNonce e.1 key t.1 (start_scan (noteNonce t.2))) (am_entries (ch_tokens e.2))
    | None => []
    end) (default [] (am_entries <$> (cursor ≫= cc_channels))).

(** [discover] under a schedule; [None]: out of fuel. *)
Definition discover_all_channels (fuel : nat) (pick : nat -> nat) (cursor : option ChannelCursor)
  : option (result discovery_error ChannelCursor) :=
  let '(st, jobs) := recipient_jobs (initial_channels cursor) in
  st ← wait run_channels fuel pick st (jobs ++ cursor_jobs cursor);
  Some (match cs_errors st with
        | [] => Ok {| cc_channels := cs_channels st; cc_total := cs_total st |}
        | e :: _ => Err e
        end).
End ChannelsDiscovery.

(** [discoverRequirement] of [abstract-discovery.ts], from the channels found for the recipient. *)
Definition requirement_of (recipient token : Z) (found : ChannelCursor) : SetupRequirement :=
  match (cc_channels found ≫= fun m => (am_get recipient None m).1) with
  | Some channel => toSetupRequirement token channel
  | None => Register
  end.

(** A cursor with a channel that is not open yet: looking for its recipient again throws. *)
Example unopened_channel_throws :
  @discover_all_channels toy_crypto (mock_views empty_MockPool) 1 2 (Recipients [5]) 20 (fun _ => 0%nat)
    (Some {| cc_channels := Some (new_AddressMap None [(5, new_Channel 11 None [])]); cc_total := None |})
    = Some (Err DiscoveryTypeError).
Proof. vm_compute. reflexivity. Qed.
