(* ===== verification/ChannelsFound.v ===== *)
(** * Discovery finds the channels

    Theorems on [discover_all_channels] (file [ChannelsDiscovery]): without a cursor,
    discovery ends under every schedule of the answers and returns, for every recipient
    asked for, the channel the pool holds, with the index of every subchannel and the
    number of its notes. *)
From Stdlib Require Import ZArith Lia.
From stdpp Require Import base tactics list gmap fin_maps.
From S2P Require Import Prelude JsMap Convert Crypto Encryptions Scan Jobs Interfaces Channel MockPool PoolViews.
From S2P Require Import Discovery DiscoveryNotes ChannelsDiscovery.

Lemma am_get_plain {V} (m : AddressMap V) r : keyConverter m = (fun k => k) -> defaultFactory m = None ->
  (am_get r None m).1 = map_get r (am_map m).
Proof. intros Hc Hf. unfold am_get. rewrite Hc, Hf. by destruct (map_has r (am_map m)). Qed.

Section Found.
Context `{StarkCrypto} `{PoolContract}.
Context (address viewingKey : Z) (recipients : RecipientsFilter).
Context (subs : Z -> list Z) (count : Z -> Z -> Z) (out : list Z).

(** The public key of a recipient, the key of the user's channel to them, and whether it is open. *)
Definition pk (r : Z) : Z := view_public_key r.
Definition key_of (r : Z) : Z := compute_channel_key address viewingKey r (pk r).
Definition opened (r : Z) : bool := channel_exists (compute_channel_marker (key_of r) address r (pk r)).
Definition outgoing_at (i : Z) : EncOutgoingChannelInfo :=
  get_outgoing_channel_info (compute_outgoing_channel_id address viewingKey i).

(** The recipients whose channels are asked for. *)
Definition asked : list Z := match recipients with Recipients l => l | AllRecipients => out | TotalOnly => [] end.

Definition by_list : bool := match recipients with Recipients _ => true | _ => false end.

(** The pool holds the channels of the recipients, with distinct tokens, and lists the user's outgoing
    channels in [out] (when they are asked for). *)
Record outgoing_holds : Prop := {
  oh_content : forall r, opened r = true -> channel_holds subs count (key_of r);
  oh_tokens : forall r, opened r = true -> NoDup (subs (key_of r));
  oh_outgoing : forall i r, out !! i = Some r -> out_salt (outgoing_at (Z.of_nat i)) <> 0 /\
    oi_recipientAddr (decryptOutgoingChannelInfo (outgoing_at (Z.of_nat i)) address viewingKey (Z.of_nat i)) = r;
  oh_no_outgoing : forall i, Z.of_nat (length out) <= i -> out_salt (outgoing_at i) = 0;
  oh_distinct : NoDup out }.

(** What is found for a recipient. *)
Definition found_channel (r : Z) (c : Channel) : Prop :=
  ch_publicKey c = pk r /\ ch_key c = (if opened r then Some (key_of r) else None) /\
  (opened r = false -> am_map (ch_tokens c) = []) /\
  (opened r = true -> forall t, map_get t (am_map (ch_tokens c))
    = (fun e => {| tokenIndex := Z.of_nat e.1; noteNonce := count (key_of r) t |}) <$> list_find (fun x => x = t) (subs (key_of r))).

Context (Hpool : outgoing_holds).

(** ** What the scans find *)

Definition present_out (i : Z) : bool := negb (out_salt (outgoing_at i) =? 0).
Definition num_out : Z := Z.of_nat (length out).
Definition out_finds (s : scan_at) : list Z := finds present_out num_out (total_only recipients) s.
Definition token_finds (key : Z) (s : scan_at) : list Z := finds (present_sub key) (sub_count subs key) false s.
Definition nonce_finds (key t : Z) (s : scan_at) : list Z := finds (present_note key t) (count key t) true s.

Lemma out_prefix : prefix_of_length present_out num_out.
Proof.
  intros i Hi. unfold present_out, num_out. destruct (Z.ltb_spec i (Z.of_nat (length out))).
  - destruct (lookup_lt_is_Some_2 out (Z.to_nat i) ltac:(lia)) as [r Hr].
    destruct (oh_outgoing Hpool _ _ Hr) as [Hs _]. rewrite Z2Nat.id in Hs by lia.
    by destruct (Z.eqb_spec (out_salt (outgoing_at i)) 0).
  - by rewrite (oh_no_outgoing Hpool i).
Qed.

(** ** The invariant *)

Definition nonce_pending (jobs : list channels_job) (r t : Z) : Prop :=
  exists s, ProbeNonce r (key_of r) t s ∈ jobs /\ count (key_of r) t - 1 ∈ nonce_finds (key_of r) t s.
Definition token_pending (jobs : list channels_job) (r k : Z) : Prop :=
  exists s, ProbeToken r (Some (key_of r)) s ∈ jobs /\ k ∈ token_finds (key_of r) s.

Record tokens_ok (jobs : list channels_job) (r : Z) (c : Channel) : Prop := {
  tk_sound : forall t tc, map_get t (am_map (ch_tokens c)) = Some tc ->
    exists k, subs (key_of r) !! k = Some t /\ tokenIndex tc = Z.of_nat k /\ 0 <= noteNonce tc <= count (key_of r) t /\
      (noteNonce tc = count (key_of r) t \/ nonce_pending jobs r t);
  tk_complete : forall k t, subs (key_of r) !! k = Some t ->
    is_Some (map_get t (am_map (ch_tokens c))) \/ token_pending jobs r (Z.of_nat k) }.

Definition chan_ok (jobs : list channels_job) (r : Z) (c : Channel) : Prop :=
  channel_wf c /\ pk r <> 0 /\ ch_publicKey c = pk r /\
  ((ch_key c = None /\ am_map (ch_tokens c) = [] /\ (opened r = true -> CheckMarker r (pk r) ∈ jobs)) \/
   (opened r = true /\ ch_key c = Some (key_of r) /\ tokens_ok jobs r c)).

(** Everything a job relies on. *)
Definition job_ok (m : jsmap Z Channel) (j : channels_job) : Prop :=
  match j with
  | ProbeOutgoing s => by_list = false /\ scan_ok num_out s
  | FetchPublicKey r => r ∈ asked
  | CheckMarker r p => p = pk r /\ is_Some (map_get r m)
  | ProbeToken r key s => key = Some (key_of r) /\ opened r = true /\ scan_ok (sub_count subs (key_of r)) s /\
      exists c, map_get r m = Some c /\ ch_key c = Some (key_of r)
  | ProbeNonce r key t s => key = key_of r /\ opened r = true /\ t ∈ subs key /\ scan_ok (count key t) s /\
      exists c, map_get r m = Some c /\ ch_key c = Some (key_of r) /\ is_Some (map_get t (am_map (ch_tokens c)))
  end.

(** The recipients the outgoing scan still finds. *)
Definition out_at (i : Z) : list Z := match out !! Z.to_nat i with Some r => [r] | None => [] end.
Definition owed_out (j : channels_job) : list Z :=
  match j with ProbeOutgoing s => if total_only recipients then [] else flat_map out_at (out_finds s) | _ => [] end.

Definition reached (m : jsmap Z Channel) (jobs : list channels_job) (r : Z) : Prop :=
  pk r = 0 \/ is_Some (map_get r m) \/ FetchPublicKey r ∈ jobs \/ r ∈ flat_map owed_out jobs.

Definition total_ok (st : ChannelsState) (jobs : list channels_job) : Prop :=
  if by_list then cs_total st = None
  else
    (match cs_total st with None => True | Some v => 0 < v <= num_out end) /\
    (num_out = 0 \/ cs_total st = Some num_out \/ exists s, ProbeOutgoing s ∈ jobs /\ num_out - 1 ∈ out_finds s).

Record inv (am : AddressMap Channel) (st : ChannelsState) (jobs : list channels_job) : Prop := {
  i_map : cs_channels st = Some am;
  i_errors : cs_errors st = [];
  i_keys : keyConverter am = (fun k => k) /\ defaultFactory am = None;
  i_channels : forall r c, map_get r (am_map am) = Some c -> chan_ok jobs r c /\ r ∈ asked;
  i_reached : forall r, r ∈ asked -> reached (am_map am) jobs r;
  i_jobs : Forall (job_ok (am_map am)) jobs;
  i_distinct : NoDup (flat_map owed_out jobs);
  i_new : forall r, r ∈ flat_map owed_out jobs -> map_get r (am_map am) = None /\ (FetchPublicKey r ∉ jobs) /\ r ∈ asked;
  i_total : total_ok st jobs }.

(** ** Steps at one channel *)

(** The jobs that belong to a channel of the map. *)
Definition plain_at (r : Z) (j : channels_job) : Prop :=
  match j with
  | CheckMarker r' _ | ProbeToken r' _ _ | ProbeNonce r' _ _ _ => r' = r
  | _ => False
  end.

Lemma plain_witness r0 r j (js rest : list channels_job) x :
  plain_at r0 j -> r <> r0 -> plain_at r x -> x ∈ j :: rest -> x ∈ js ++ rest.
Proof.
  intros Hj Hr Hx [->|Hin]%elem_of_cons; [|apply elem_of_app; by right].
  exfalso. destruct j; cbn in *; congruence || done.
Qed.

Lemma chan_ok_keep r jobs jobs' c : (forall x, plain_at r x -> x ∈ jobs -> x ∈ jobs') -> chan_ok jobs r c -> chan_ok jobs' r c.
Proof.
  intros Hw (Hwf & Hpk & Hp & Hk).
  split_and!; [done..|]. destruct Hk as [(Hk & Ht & Ho)|(Ho & Hk & [Hs Hcm])].
  - left. split_and!; [done..|]. intros Hop. by apply Hw, Ho.
  - right. split_and!; [done..|]. split.
    + intros t tc Htc. destruct (Hs t tc Htc) as (k & H1 & H2 & H3 & H4). exists k. repeat (split; [assumption|]).
      destruct H4 as [?|(s & Hin & ?)]; [by left|right]. exists s. split; [by apply Hw|done].
    + intros k t Ht. destruct (Hcm k t Ht) as [?|(s & Hin & ?)]; [by left|right]. exists s. split; [by apply Hw|done].
Qed.

Lemma chan_ok_other r0 r j js rest c : plain_at r0 j -> r <> r0 -> chan_ok (j :: rest) r c -> chan_ok (js ++ rest) r c.
Proof. intros Hj Hr. apply chan_ok_keep. intros x Hx Hin. by apply (plain_witness r0 r j). Qed.

(** A job that belongs to no channel is no witness. *)
Lemma chan_ok_not_plain r j js rest c : (forall r, ~ plain_at r j) -> chan_ok (j :: rest) r c -> chan_ok (js ++ rest) r c.
Proof.
  intros Hj. apply chan_ok_keep. intros x Hx [->|Hin]%elem_of_cons; [by destruct (Hj r)|apply elem_of_app; by right].
Qed.

Lemma plain_owed r js : Forall (plain_at r) js -> flat_map owed_out js = [] /\ (forall x, FetchPublicKey x ∉ js) /\
  (forall s, ProbeOutgoing s ∉ js).
Proof.
  rewrite list.Forall_forall. intros Hjs. split_and!.
  - apply flat_map_nil. intros j Hj%Hjs. by destruct j.
  - intros x Hx%Hjs. done.
  - intros x Hx%Hjs. done.
Qed.

(** One channel keeps its key and its tokens. *)
Definition channel_grows (c c' : Channel) : Prop :=
  (forall k, ch_key c = Some k -> ch_key c' = Some k) /\
  (forall t, is_Some (map_get t (am_map (ch_tokens c))) -> is_Some (map_get t (am_map (ch_tokens c')))).

Lemma channel_job_ok_grows m r0 c0 c1 j : map_get r0 m = Some c0 -> channel_grows c0 c1 -> job_ok m j -> job_ok (map_set r0 c1 m) j.
Proof.
  intros Hr0 [Hk Ht].
  assert (Hget : forall r c, map_get r m = Some c -> exists c', map_get r (map_set r0 c1 m) = Some c' /\ channel_grows c c').
  { intros r c Hc. rewrite map_get_set. case_decide; [|by exists c]. subst. rewrite Hr0 in Hc. injection Hc as <-. by exists c1. }
  destruct j; cbn; try done.
  - intros [? [c Hc]]. destruct (Hget _ _ Hc) as (c' & -> & _). done.
  - intros (? & ? & ? & c & Hc & ?). split_and!; try done. destruct (Hget _ _ Hc) as (c' & ? & Hk' & _). exists c'. auto.
  - intros (? & ? & ? & ? & c & Hc & ? & ?). split_and!; try done. destruct (Hget _ _ Hc) as (c' & ? & Hk' & Ht').
    exists c'. auto.
Qed.

Lemma map_get_set_none (m : jsmap Z Channel) r r0 c0 c1 : map_get r0 m = Some c0 ->
  map_get r (map_set r0 c1 m) = None <-> map_get r m = None.
Proof. intros Hr0. rewrite map_get_set. case_decide; [|done]. subst. by rewrite Hr0. Qed.

(** A job of one channel that writes to that channel only keeps the invariant. *)
Lemma inv_plain am st j rest st' js r0 c0 c1 :
  inv am st (j :: rest) -> plain_at r0 j -> Forall (plain_at r0) js ->
  map_get r0 (am_map am) = Some c0 -> channel_grows c0 c1 ->
  cs_channels st' = Some (am_set r0 c1 am) -> cs_total st' = cs_total st -> cs_errors st' = [] ->
  chan_ok (js ++ rest) r0 c1 -> Forall (job_ok (map_set r0 c1 (am_map am))) js ->
  inv (am_set r0 c1 am) st' (js ++ rest).
Proof.
  intros Hinv Hj Hjs Hr0 Hg Hch Htot Herr Hc1 Hjobs. destruct (i_keys _ _ _ Hinv) as [Hconv Hfac].
  assert (Hm : am_map (am_set r0 c1 am) = map_set r0 c1 (am_map am)) by (unfold am_set; cbn; by rewrite Hconv).
  destruct (plain_owed r0 js Hjs) as (Hout & Hfetch & _).
  destruct (plain_owed r0 [j] ltac:(by constructor)) as (Hjout & Hjfetch & Hjo). cbn [flat_map] in Hjout.
  rewrite app_nil_r in Hjout.
  assert (Howed : flat_map owed_out (js ++ rest) = flat_map owed_out (j :: rest)).
  { rewrite flat_map_app, Hout. cbn [flat_map]. by rewrite Hjout. }
  assert (Hfe : forall x, FetchPublicKey x ∈ js ++ rest <-> FetchPublicKey x ∈ j :: rest).
  { intros x. rewrite elem_of_app, elem_of_cons. specialize (Hfetch x). specialize (Hjfetch x).
    rewrite list_elem_of_singleton in Hjfetch. split; [intros [?|?]; [done|by right]|].
    intros [<-|?]; [by destruct Hjfetch|by right]. }
  destruct (i_channels _ _ _ Hinv r0 c0 Hr0) as [_ Hask].
  split; [done|done|done| | | | | |]; rewrite ?Hm, ?Howed.
  - intros r c. rewrite map_get_set. case_decide as Hr.
    + intros [= <-]. by subst.
    + intros Hc. destruct (i_channels _ _ _ Hinv r c Hc) as [Hok ?]. split; [by eapply chan_ok_other|done].
  - intros r Hr. unfold reached. rewrite Howed, Hfe. destruct (i_reached _ _ _ Hinv r Hr) as [?|[?|?]]; [by left| |by right; right].
    right; left. rewrite map_get_set. by case_decide.
  - apply Forall_app. split; [done|]. pose proof (i_jobs _ _ _ Hinv) as Hrest. apply Forall_cons in Hrest as [_ Hrest].
    eapply Forall_impl; [exact Hrest|]. intros x. by eapply channel_job_ok_grows.
  - apply (i_distinct _ _ _ Hinv).
  - intros r Hr. rewrite (map_get_set_none _ _ _ c0), Hfe by done. by apply (i_new _ _ _ Hinv).
  - pose proof (i_total _ _ _ Hinv) as Ht. unfold total_ok in *. rewrite Htot. destruct by_list; [done|].
    destruct Ht as [? [?|[?|(s & Hs & ?)]]]; (split; [done|]); [by left|by right; left|right; right].
    exists s. split; [|done]. apply elem_of_cons in Hs as [<-|Hs]; [exfalso; apply (Hjo s); by left|apply elem_of_app; by right].
Qed.

(** The same when the channel is not written. *)
Lemma inv_plain_read am st j rest js r0 c0 :
  inv am st (j :: rest) -> plain_at r0 j -> Forall (plain_at r0) js -> map_get r0 (am_map am) = Some c0 ->
  chan_ok (js ++ rest) r0 c0 -> Forall (job_ok (am_map am)) js -> inv am st (js ++ rest).
Proof.
  intros Hinv Hj Hjs Hr0 Hc Hjobs. destruct (i_keys _ _ _ Hinv) as [Hconv _].
  assert (Hid : map_set r0 c0 (am_map am) = am_map am).
  { clear -Hr0. induction (am_map am) as [|[k v] m IH]; [done|]. cbn in *.
    repeat case_decide; simplify_eq; try done. by rewrite IH. }
  assert (Ham : am_set r0 c0 am = am).
  { unfold am_set. rewrite Hconv, Hid. by destruct am. }
  rewrite <- Ham. eapply (inv_plain am st j rest st js r0 c0 c0); try done.
  - rewrite Ham. apply (i_map _ _ _ Hinv).
  - apply (i_errors _ _ _ Hinv).
  - by rewrite Hid.
Qed.

(** ** Writing to a channel *)

Lemma update_channel_eq am st jobs r f c : inv am st jobs -> map_get r (am_map am) = Some c ->
  update_channel r f st = with_cs_channels st (am_set r (f c) am).
Proof.
  intros Hinv Hc. unfold update_channel. rewrite (i_map _ _ _ Hinv). destruct (i_keys _ _ _ Hinv) as [Hconv Hfac].
  by rewrite am_get_plain, Hc.
Qed.

(** The tokens of a channel after a write at one token. *)
Definition rewritten (c c' : Channel) (t : Z) (tc : TokenChannel) : Prop :=
  channel_wf c' /\ ch_publicKey c' = ch_publicKey c /\ ch_key c' = ch_key c /\
  am_map (ch_tokens c') = map_set t tc (am_map (ch_tokens c)).

Lemma set_token_rewritten c t k : channel_wf c -> rewritten c (set_token t k c) t {| tokenIndex := k; noteNonce := 0 |}.
Proof.
  intros (Hc & Hf & Hwf). unfold rewritten, channel_wf, am_wf, set_token, am_set. cbn. rewrite Hc.
  split_and!; try done. by apply map_set_wf.
Qed.

Lemma raise_nonce_rewritten c t i tc : channel_wf c -> map_get t (am_map (ch_tokens c)) = Some tc ->
  rewritten c (raise_nonce t i c) t {| tokenIndex := tokenIndex tc; noteNonce := Z.max (noteNonce tc) (i + 1) |}.
Proof.
  intros Hwf Ht. unfold rewritten, raise_nonce. rewrite tokens_get_eq by done. unfold entry_of, map_has. rewrite Ht.
  destruct Hwf as (_ & _ & Hwf). unfold channel_wf, am_wf. cbn. split_and!; try done.
  apply map_set_wf. destruct (map_get t (am_map (ch_tokens c))); done.
Qed.

Lemma rewritten_grows c c' t tc : rewritten c c' t tc -> channel_grows c c'.
Proof.
  intros (_ & _ & Hk & Hm). split; [by rewrite Hk|]. intros t' Ht'. rewrite Hm, map_get_set. by case_decide.
Qed.

(** An open channel of the invariant. *)
Lemma open_channel am st jobs r c : inv am st jobs -> map_get r (am_map am) = Some c -> ch_key c = Some (key_of r) ->
  channel_wf c /\ pk r <> 0 /\ ch_publicKey c = pk r /\ tokens_ok jobs r c.
Proof.
  intros Hinv Hc Hk. destruct (i_channels _ _ _ Hinv r c Hc) as [(Hwf & Hpk & Hp & [(Hn & _)|(_ & _ & Ht)]) _]; [congruence|].
  done.
Qed.

(** Pending witnesses move to what a probe starts. *)
Lemma nonce_pending_advance r t key t' s js rest r' : opened r = true -> t' ∈ subs key -> key = key_of r ->
  scan_ok (count key t') s ->
  let p := present_note key t' (probe_index s) in
  (forall x, x ∈ map (ProbeNonce r key t') (advance true s p) -> x ∈ js) ->
  nonce_pending (ProbeNonce r key t' s :: rest) r' t ->
  nonce_pending (js ++ rest) r' t \/ (r' = r /\ t' = t /\ p = true /\ probe_index s = count key t - 1).
Proof.
  intros Ho Ht' -> Hs p Hjs (s0 & [Heq|Hin]%elem_of_cons & Hf).
  2:{ left. exists s0. split; [apply elem_of_app; by right|done]. }
  injection Heq as -> _ -> ->. unfold nonce_finds in Hf.
  rewrite (finds_advance _ _ _ (notes_prefix subs count _ _ (oh_content Hpool _ Ho) Ht') s Hs) in Hf. fold p in Hf.
  apply elem_of_app in Hf as [Hf|Hf].
  - right. destruct p; [|by apply elem_of_nil in Hf]. apply list_elem_of_singleton in Hf. by split_and!.
  - left. apply list_elem_of_In, in_flat_map in Hf as (s' & Hs' & Hf). exists s'. split.
    + apply elem_of_app. left. apply Hjs, list_elem_of_fmap_2. by apply list_elem_of_In.
    + by apply list_elem_of_In.
Qed.

Lemma token_pending_other r k j js rest : (forall s, j <> ProbeToken r (Some (key_of r)) s) ->
  token_pending (j :: rest) r k -> token_pending (js ++ rest) r k.
Proof.
  intros Hj (s & [Heq|Hin]%elem_of_cons & Hf); [by destruct (Hj s)|].
  exists s. split; [apply elem_of_app; by right|done].
Qed.

(** The notes of one token. *)
Lemma run_nonce_inv am st r key t s rest : inv am st (ProbeNonce r key t s :: rest) ->
  let res := run_channels address viewingKey recipients (ProbeNonce r key t s) st in
  exists am', inv am' res.1 (res.2 ++ rest).
Proof.
  intros Hinv. pose proof (i_jobs _ _ _ Hinv) as Hj. apply Forall_cons in Hj as [(-> & Ho & Ht & Hs & c & Hc & Hk & [tc Htc]) _].
  destruct (open_channel _ _ _ _ _ Hinv Hc Hk) as (Hwf & Hpk & Hp & Hsound & Hcompl).
  pose proof (notes_prefix subs count _ _ (oh_content Hpool _ Ho) Ht) as Hpre.
  pose proof (advance_ok _ _ true Hpre s Hs) as Hadv.
  set (p := present_note (key_of r) t (probe_index s)) in *. set (js := map (ProbeNonce r (key_of r) t) (advance true s p)).
  assert (Hplain : Forall (plain_at r) js) by (apply list.Forall_fmap, list.Forall_forall; by intros x _).
  assert (Hok : forall m' c', map_get r m' = Some c' -> ch_key c' = Some (key_of r) ->
    is_Some (map_get t (am_map (ch_tokens c'))) -> Forall (job_ok m') js).
  { intros m' c' Hg Hk' Ht'. apply list.Forall_fmap. eapply Forall_impl; [exact Hadv|]. intros x Hx. split_and!; try done. by exists c'. }
  assert (Hpend : forall t', nonce_pending (ProbeNonce r (key_of r) t s :: rest) r t' ->
    nonce_pending (js ++ rest) r t' \/ (t = t' /\ p = true /\ probe_index s = count (key_of r) t - 1)).
  { intros t' Hn. destruct (nonce_pending_advance r t' _ t s js rest r Ho Ht eq_refl Hs (fun x Hx => Hx) Hn)
      as [?|(_ & <- & ? & ?)]; [by left|by right]. }
  assert (Htokp : forall k, token_pending (ProbeNonce r (key_of r) t s :: rest) r k -> token_pending (js ++ rest) r k)
    by (intros k; by apply token_pending_other).
  cbn [run_channels]. fold (note_at (key_of r) t (probe_index s)). unfold present_note in p.
  destruct (packed_value (note_at (key_of r) t (probe_index s)) =? 0) eqn:Hpv; subst p; cbn [negb fst snd] in *.
  - exists am. eapply inv_plain_read; [exact Hinv|done|exact Hplain|exact Hc| |].
    + split_and!; [done..|]. right. split_and!; [done..|]. split.
      * intros t' tc' Ht'. destruct (Hsound t' tc' Ht') as (k & ? & ? & ? & Hor). exists k. repeat (split; [done|]).
        destruct Hor as [?|[?|(_ & ? & _)]%Hpend]; [by left|by right|done].
      * intros k t' Ht'. destruct (Hcompl k t' Ht') as [?|?%Htokp]; [by left|by right].
    + by eapply Hok.
  - assert (Hi : probe_index s < count (key_of r) t).
    { pose proof (Hpre (probe_index s) (probe_index_nonneg _ s Hs)) as Hi. unfold present_note in Hi. rewrite Hpv in Hi.
      by apply Z.ltb_lt. }
    pose proof (probe_index_nonneg _ s Hs) as H0i.
    destruct (raise_nonce_rewritten c t (probe_index s) tc Hwf Htc) as (Hwf' & Hp' & Hk' & Hm').
    pose proof (rewritten_grows _ _ _ _ (raise_nonce_rewritten c t (probe_index s) tc Hwf Htc)) as Hg.
    rewrite (update_channel_eq am st _ r _ c Hinv Hc).
    exists (am_set r (raise_nonce t (probe_index s) c) am).
    eapply inv_plain; [exact Hinv|done|exact Hplain|exact Hc|exact Hg|done|done|exact (i_errors _ _ _ Hinv)| |].
    + split_and!; [done|done|congruence|]. right. split_and!; [done|congruence|]. split.
      * intros t' tc'. rewrite Hm', map_get_set. case_decide as Htt; [intros [= <-]; subst t'|intros Ht'].
        -- destruct (Hsound t tc Htc) as (k & ? & ? & ? & Hor). exists k. cbn [tokenIndex noteNonce].
           split; [done|]. split; [done|]. split; [lia|]. destruct Hor as [?|[?|(_ & _ & ?)]%Hpend]; [left; lia|by right|left; lia].
        -- destruct (Hsound t' tc' Ht') as (k & ? & ? & ? & Hor). exists k. repeat (split; [done|]).
           destruct Hor as [?|[?|(? & _)]%Hpend]; [by left|by right|congruence].
      * intros k t' Ht'. destruct (Hcompl k t' Ht') as [?|?%Htokp]; [left|by right]. by apply Hg.
    + eapply Hok; [apply map_get_set_eq|congruence|]. apply Hg. by exists tc.
Qed.

Lemma nonce_pending_other r t j js rest : (forall t s, j <> ProbeNonce r (key_of r) t s) ->
  nonce_pending (j :: rest) r t -> nonce_pending (js ++ rest) r t.
Proof.
  intros Hj (s & [Heq|Hin]%elem_of_cons & Hf); [by destruct (Hj t s)|].
  exists s. split; [apply elem_of_app; by right|done].
Qed.

Lemma token_pending_advance r k s js rest : opened r = true -> scan_ok (sub_count subs (key_of r)) s ->
  let p := present_sub (key_of r) (probe_index s) in
  (forall x, x ∈ map (ProbeToken r (Some (key_of r))) (advance false s p) -> x ∈ js) ->
  token_pending (ProbeToken r (Some (key_of r)) s :: rest) r k ->
  token_pending (js ++ rest) r k \/ (p = true /\ probe_index s = k).
Proof.
  intros Ho Hs p Hjs (s0 & [Heq|Hin]%elem_of_cons & Hf).
  2:{ left. exists s0. split; [apply elem_of_app; by right|done]. }
  injection Heq as ->. unfold token_finds in Hf.
  rewrite (finds_advance _ _ _ (subs_prefix subs count _ (oh_content Hpool _ Ho)) s Hs) in Hf. fold p in Hf.
  apply elem_of_app in Hf as [Hf|Hf].
  - right. destruct p; [|by apply elem_of_nil in Hf]. apply list_elem_of_singleton in Hf. by split.
  - left. apply list_elem_of_In, in_flat_map in Hf as (s' & Hs' & Hf). exists s'. split.
    + apply elem_of_app. left. apply Hjs, list_elem_of_fmap_2. by apply list_elem_of_In.
    + by apply list_elem_of_In.
Qed.

Lemma token_jobs_ok r m c l : opened r = true -> map_get r m = Some c -> ch_key c = Some (key_of r) ->
  Forall (scan_ok (sub_count subs (key_of r))) l -> Forall (job_ok m) (map (ProbeToken r (Some (key_of r))) l).
Proof.
  intros Ho Hc Hk Hl. apply list.Forall_fmap. eapply Forall_impl; [exact Hl|]. intros x Hx. split_and!; try done. by exists c.
Qed.

(** A new token has all its notes to be counted. *)
Lemma new_nonce_pending r t jobs : opened r = true -> t ∈ subs (key_of r) ->
  ProbeNonce r (key_of r) t (start_scan 0) ∈ jobs -> 0 = count (key_of r) t \/ nonce_pending jobs r t.
Proof.
  intros Ho Ht Hin. pose proof (ch_count _ _ _ (oh_content Hpool _ Ho) t) as Hcount.
  destruct (decide (count (key_of r) t = 0)) as [->|Hne]; [by left|right]. exists (start_scan 0). split; [done|].
  apply start_scan_last; [lia|]. by apply (notes_prefix subs count); [apply (oh_content Hpool)|].
Qed.

(** The subchannels of one channel. *)
Lemma run_token_inv am st r key s rest : inv am st (ProbeToken r key s :: rest) ->
  let res := run_channels address viewingKey recipients (ProbeToken r key s) st in
  exists am', inv am' res.1 (res.2 ++ rest).
Proof.
  intros Hinv. pose proof (i_jobs _ _ _ Hinv) as Hj. apply Forall_cons in Hj as [(-> & Ho & Hs & c & Hc & Hk) _].
  destruct (open_channel _ _ _ _ _ Hinv Hc Hk) as (Hwf & Hpk & Hp & Hsound & Hcompl).
  pose proof (oh_content Hpool _ Ho) as Hch. pose proof (advance_ok _ _ false (subs_prefix _ _ _ Hch) s Hs) as Hadv.
  pose proof (present_token subs count _ _ Hch (probe_index_nonneg _ s Hs)) as Htok.
  pose proof (fun k js => token_pending_advance r k s js rest Ho Hs) as Hpend. cbn zeta in Hpend.
  assert (Hnon : forall t js, nonce_pending (ProbeToken r (Some (key_of r)) s :: rest) r t -> nonce_pending (js ++ rest) r t)
    by (intros t js; by apply nonce_pending_other).
  cbn [run_channels]. fold (subchannel_at (key_of r) (probe_index s)). unfold present_sub in *.
  set (k := probe_index s) in *. set (next := map (ProbeToken r (Some (key_of r)))) in *.
  destruct (sub_salt (subchannel_at (key_of r) k) =? 0); cbn [negb fst snd] in *.
  - exists am. eapply inv_plain_read; [exact Hinv|done| |exact Hc| |by eapply token_jobs_ok].
    { apply list.Forall_fmap, list.Forall_forall. by intros x _. }
    split_and!; [done..|]. right. split_and!; [done..|]. split.
    + intros t tc Ht. destruct (Hsound t tc Ht) as (n & ? & ? & ? & Hor). exists n. repeat (split; [done|]).
      destruct Hor as [?|?]; [by left|right; by apply Hnon].
    + intros n t Ht. destruct (Hcompl n t Ht) as [?|Hpt]; [by left|right].
      by destruct (Hpend _ (next (advance false s false)) (fun x Hx => Hx) Hpt) as [?|[? _]].
  - destruct (Htok eq_refl) as (t & Ht & ->). pose proof (list_elem_of_lookup_2 _ _ _ Ht) as Hts.
    pose proof (probe_index_nonneg _ s Hs : 0 <= k) as H0k.
    destruct (set_token_rewritten c t k Hwf) as (Hwf' & Hp' & Hk' & Hm').
    pose proof (rewritten_grows _ _ _ _ (set_token_rewritten c t k Hwf)) as Hg.
    rewrite (update_channel_eq am st _ r _ c Hinv Hc). exists (am_set r (set_token t k c) am).
    set (js := ProbeNonce r (key_of r) t (start_scan 0) :: next (advance false s true)) in *.
    eapply inv_plain; [exact Hinv|done| |exact Hc|exact Hg|done|done|exact (i_errors _ _ _ Hinv)| |].
    { constructor; [done|]. apply list.Forall_fmap, list.Forall_forall. by intros x _. }
    + split_and!; [done|done|congruence|]. right. split_and!; [done|congruence|]. split.
      * intros t' tc'. rewrite Hm', map_get_set. case_decide as Htt; [intros [= <-]; subst t'|intros Ht'].
        -- exists (Z.to_nat k). cbn [tokenIndex noteNonce]. split; [done|]. split; [lia|].
           split; [pose proof (ch_count _ _ _ Hch t); lia|]. apply new_nonce_pending; [done|done|by left].
        -- destruct (Hsound t' tc' Ht') as (n & ? & ? & ? & Hor). exists n. repeat (split; [done|]).
           destruct Hor as [?|?]; [by left|right; by apply Hnon].
      * intros n t' Ht'. destruct (Hcompl n t' Ht') as [?|Hpt]; [left; by apply Hg|].
        destruct (Hpend _ js ltac:(intros x Hx; by right) Hpt) as [?|[_ Hkn]]; [by right|left].
        assert (t' = t) as -> by (rewrite Hkn, Nat2Z.id in Ht; congruence). rewrite Hm', map_get_set_eq. done.
    + constructor.
      * split_and!; try done; [by apply start_scan_ok; [apply (ch_count _ _ _ Hch)|]|].
        exists (set_token t k c). rewrite map_get_set_eq, Hm', map_get_set_eq. split_and!; [done|congruence|done].
      * eapply token_jobs_ok; [done|apply map_get_set_eq|congruence|done].
Qed.

(** The marker of one channel. *)
Lemma run_marker_inv am st r p rest : inv am st (CheckMarker r p :: rest) ->
  let res := run_channels address viewingKey recipients (CheckMarker r p) st in
  exists am', inv am' res.1 (res.2 ++ rest).
Proof.
  intros Hinv. pose proof (i_jobs _ _ _ Hinv) as Hj. apply Forall_cons in Hj as [[-> [c Hc]] _].
  destruct (i_channels _ _ _ Hinv r c Hc) as [(Hwf & Hpk & Hp & Hor) _].
  cbn [run_channels]. fold (key_of r). fold (opened r). destruct (opened r) eqn:Ho; cbn [fst snd].
  2:{ exists am. destruct Hor as [(Hk & Ht & _)|(? & _)]; [|done].
    eapply inv_plain_read; [exact Hinv|done|constructor|exact Hc| |constructor].
    split_and!; [done..|]. left. split_and!; [done..|]. by rewrite Ho. }
  rewrite (update_channel_eq am st _ r _ c Hinv Hc). set (c1 := with_key c (Some (key_of r))).
  destruct (i_keys _ _ _ Hinv) as [Hconv Hfac].
  assert (Hm : map_get r (am_map (am_set r c1 am)) = Some c1) by (unfold am_set; cbn; rewrite Hconv; apply map_get_set_eq).
  assert (Hin : channel_in r (with_cs_channels st (am_set r c1 am)) = Some c1).
  { unfold channel_in. cbn [cs_channels with_cs_channels mbind option_bind]. by rewrite am_get_plain. }
  rewrite Hin. cbn [fst snd]. exists (am_set r c1 am). pose proof (oh_content Hpool _ Ho) as Hch.
  assert (Hs : scan_ok (sub_count subs (key_of r)) (start_scan (Z.of_nat (am_size (ch_tokens c1))))).
  { apply start_scan_ok; unfold sub_count; lia. }
  eapply inv_plain; [exact Hinv|done| |exact Hc| |done|done|exact (i_errors _ _ _ Hinv)| |].
  - by constructor.
  - split; [|done]. intros k Hk. destruct Hor as [(? & _)|(_ & ? & _)]; [congruence|].
    change (Some (key_of r) = Some k). congruence.
  - split_and!; [done..|]. right. split_and!; [done..|]. split.
    + intros t tc Ht. destruct Hor as [(_ & He & _)|(_ & _ & Hsound & _)]; [cbn in Ht; by rewrite He in Ht|].
      destruct (Hsound t tc Ht) as (n & ? & ? & ? & Hor). exists n. repeat (split; [done|]).
      destruct Hor as [?|?]; [by left|right].
      by apply (nonce_pending_other r t (CheckMarker r (pk r)) [scan_tokens r c1]).
    + intros k t Ht. right. exists (start_scan (Z.of_nat (am_size (ch_tokens c1)))). split; [by left|].
      unfold token_finds. rewrite start_scan_finds; [|unfold sub_count; lia|lia|by apply (subs_prefix subs count)].
      apply lookup_lt_Some in Ht. apply elem_of_seqZ. unfold sub_count. lia.
  - constructor; [|constructor]. split_and!; [done..|]. exists c1. rewrite map_get_set_eq. done.
Qed.

Lemma job_ok_sub m m' j : (forall r c, map_get r m = Some c -> map_get r m' = Some c) -> job_ok m j -> job_ok m' j.
Proof.
  intros Hm. destruct j; cbn; try done.
  - intros [? [c Hc]]. by rewrite (Hm _ _ Hc).
  - intros (? & ? & ? & c & Hc & ?). split_and!; try done. exists c. auto.
  - intros (? & ? & ? & ? & c & Hc & ? & ?). split_and!; try done. exists c. auto.
Qed.

(** The public key of a recipient. *)
Lemma run_fetch_inv am st r rest : inv am st (FetchPublicKey r :: rest) ->
  let res := run_channels address viewingKey recipients (FetchPublicKey r) st in
  exists am', inv am' res.1 (res.2 ++ rest).
Proof.
  intros Hinv. pose proof (i_jobs _ _ _ Hinv) as Hj. apply Forall_cons in Hj as [Hask Hrest].
  destruct (i_keys _ _ _ Hinv) as [Hconv Hfac]. cbn [run_channels]. fold (pk r). unfold with_public_key.
  rewrite (i_map _ _ _ Hinv).
  set (m' := if map_has r (am_map am) then am_map am else map_set r (new_Channel (pk r) None []) (am_map am)).
  assert (Hget : (am_get r (Some (fun _ => new_Channel (pk r) None [])) am).2 = with_map am m').
  { unfold am_get, m'. rewrite Hconv. destruct (map_has r (am_map am)); [by destruct am|done]. }
  rewrite Hget. assert (Hold : forall x c, map_get x (am_map am) = Some c -> map_get x m' = Some c).
  { intros x c Hx. unfold m'. destruct (map_has r (am_map am)) eqn:Hh; [done|]. apply map_has_false in Hh.
    rewrite map_get_set. case_decide; [congruence|done]. }
  assert (Hnew : forall x c, map_get x m' = Some c -> map_get x (am_map am) = Some c \/ (x = r /\ c = new_Channel (pk r) None [])).
  { intros x c. unfold m'. destruct (map_has r (am_map am)); [by left|]. rewrite map_get_set.
    case_decide; [intros [= <-]; by right|by left]. }
  pose proof (fun x c js => chan_ok_not_plain x (FetchPublicKey r) js rest c ltac:(by intros ? [])) as Hkeep.
  pose proof (i_total _ _ _ Hinv) as Htot.
  assert (Htot' : forall st' js, cs_total st' = cs_total st -> total_ok st' (js ++ rest)).
  { intros st' js Hst. unfold total_ok in *. rewrite Hst. destruct by_list; [done|].
    destruct Htot as [? [?|[?|(s & Hs & ?)]]]; (split; [done|]); [by left|by right; left|right; right].
    exists s. split; [|done]. apply elem_of_cons in Hs as [|Hs]; [done|apply elem_of_app; by right]. }
  destruct (Z.eqb_spec (pk r) 0) as [Hpk|Hpk]; cbn [fst snd app].
  - exists am. split; try (by apply Hinv); [| |done| |by apply (Htot' st [])].
    + intros x c Hx. destruct (i_channels _ _ _ Hinv x c Hx) as [Hok ?]. split; [by apply (Hkeep x c [])|done].
    + intros x Hx. destruct (i_reached _ _ _ Hinv x Hx) as [?|[?|[[Heq|?]%elem_of_cons|?]]];
        [by left|by right; left|left; congruence|by right; right; left|by right; right; right].
    + intros x Hx. destruct (i_new _ _ _ Hinv x Hx) as (? & Hf & ?). split_and!; [done| |done].
      intros Hin. apply Hf. by right.
  - exists (with_map am m'). split; try done; cbn [am_map with_map].
    + exact (i_errors _ _ _ Hinv).
    + intros x c [Hx|[-> ->]]%Hnew.
      * destruct (i_channels _ _ _ Hinv x c Hx) as [Hok ?]. split; [by apply (Hkeep x c [CheckMarker r (pk r)])|done].
      * split; [|done]. rewrite new_Channel_eq by constructor. split_and!; [|done|done|left; split_and!; try done; intros _; by left].
        unfold channel_wf, am_wf. split_and!; [done..|constructor].
    + intros x Hx. destruct (i_reached _ _ _ Hinv x Hx) as [?|[[c Hc]|[[Heq|Hin]%elem_of_cons|?]]];
        [by left|right; left; by rewrite (Hold _ _ Hc)|right; left|right; right; left; by right|by right; right; right].
      injection Heq as ->. unfold m'. destruct (map_has r (am_map am)) eqn:Hh; [|by rewrite map_get_set_eq].
      unfold map_has in Hh. by destruct (map_get r (am_map am)).
    + constructor; [split; [done|]|].
      * unfold m'. destruct (map_has r (am_map am)) eqn:Hh; [|by rewrite map_get_set_eq].
        unfold map_has in Hh. by destruct (map_get r (am_map am)).
      * eapply Forall_impl; [exact Hrest|]. intros x. by apply job_ok_sub.
    + apply (i_distinct _ _ _ Hinv).
    + intros x Hx. destruct (i_new _ _ _ Hinv x Hx) as (Hn & Hf & ?). split_and!; [| |done].
      * destruct (map_get x m') eqn:Hm'; [|done]. apply Hnew in Hm' as [?|[-> _]]; [congruence|]. destruct Hf. by left.
      * intros [?|Hin]%elem_of_cons; [done|]. apply Hf. by right.
    + by apply (Htot' _ [CheckMarker r (pk r)]).
Qed.

(** ** The outgoing channels *)

Lemma owed_advance s : scan_ok num_out s -> total_only recipients = false ->
  let p := present_out (probe_index s) in
  owed_out (ProbeOutgoing s)
    ≡ₚ (if p then out_at (probe_index s) else []) ++ flat_map owed_out (map ProbeOutgoing (advance false s p)).
Proof.
  intros Hs Ht p. cbn [owed_out]. rewrite Ht, flat_map_map. unfold out_finds at 1. rewrite Ht.
  rewrite (finds_advance _ _ _ out_prefix s Hs), flat_map_app. fold p. apply Permutation_app.
  - destruct p; [|done]. cbn. by rewrite app_nil_r.
  - rewrite flat_map_flat_map. apply flat_map_pointwise. intros x _. cbn [owed_out]. unfold out_finds. by rewrite Ht.
Qed.

Lemma owed_total_only l : total_only recipients = true -> flat_map owed_out (map ProbeOutgoing l) = [].
Proof. intros Ht. rewrite flat_map_map. apply flat_map_nil. intros x _. cbn. by rewrite Ht. Qed.

(** What is found so far and what is pending give the number of outgoing channels. *)
Lemma total_advance st s js rest : by_list = false -> scan_ok num_out s -> total_ok st (ProbeOutgoing s :: rest) ->
  let p := present_out (probe_index s) in
  (forall x, x ∈ map ProbeOutgoing (advance (total_only recipients) s p) -> x ∈ js) ->
  forall st', cs_total st' = (if p then Some (Z.max (default 0 (cs_total st)) (probe_index s + 1)) else cs_total st) ->
  total_ok st' (js ++ rest).
Proof.
  intros Hby Hs Ht p Hjs st' Hst'. unfold total_ok in *. rewrite Hby in *. destruct Ht as [Hv Hp].
  pose proof (probe_index_nonneg _ s Hs) as H0i. pose proof (out_prefix (probe_index s) H0i) as Hpre. fold p in Hpre.
  assert (Hpend : forall s0, ProbeOutgoing s0 ∈ ProbeOutgoing s :: rest -> num_out - 1 ∈ out_finds s0 ->
    (p = true /\ probe_index s = num_out - 1) \/ exists s1, ProbeOutgoing s1 ∈ js ++ rest /\ num_out - 1 ∈ out_finds s1).
  { intros s0 [[= ->]|Hin]%elem_of_cons Hf; [|right; exists s0; split; [apply elem_of_app; by right|done]].
    unfold out_finds in Hf. rewrite (finds_advance _ _ _ out_prefix s Hs) in Hf. fold p in Hf.
    apply elem_of_app in Hf as [Hf|Hf].
    - left. destruct p; [|by apply elem_of_nil in Hf]. apply list_elem_of_singleton in Hf. by split.
    - right. apply list_elem_of_In, in_flat_map in Hf as (s' & Hs' & Hf). exists s'. split.
      + apply elem_of_app. left. apply Hjs, list_elem_of_fmap_2. by apply list_elem_of_In.
      + by apply list_elem_of_In. }
  rewrite Hst'. destruct p.
  - symmetry in Hpre. apply Z.ltb_lt in Hpre. split; [destruct (cs_total st); cbn; lia|].
    destruct Hp as [?|[->|(s0 & Hin & Hf)]]; [by left|right; left; cbn; f_equal; lia|].
    destruct (Hpend s0 Hin Hf) as [[_ Hi]|?]; [right; left|by right; right].
    destruct (cs_total st); cbn in *; f_equal; lia.
  - split; [done|]. destruct Hp as [?|[?|(s0 & Hin & Hf)]]; [by left|by right; left|right; right].
    by destruct (Hpend s0 Hin Hf) as [[? _]|?].
Qed.

(** A state with the same channels and jobs that keep what was owed. *)
Lemma inv_outgoing am st s rest st' js new :
  inv am st (ProbeOutgoing s :: rest) -> cs_channels st' = cs_channels st -> cs_errors st' = [] ->
  total_ok st' (js ++ rest) -> Forall (job_ok (am_map am)) js ->
  owed_out (ProbeOutgoing s) ≡ₚ new ++ flat_map owed_out js ->
  (forall r, r ∈ new -> FetchPublicKey r ∈ js) -> (forall r, FetchPublicKey r ∈ js -> r ∈ new) ->
  inv am st' (js ++ rest).
Proof.
  intros Hinv Hch Herr Htot Hjs Howed Hnew Hnew'. pose proof (i_distinct _ _ _ Hinv) as Hnd. cbn [flat_map] in Hnd.
  rewrite Howed, <- app_assoc in Hnd. apply NoDup_app in Hnd as (_ & Hdis & Hnd).
  assert (Hold : forall r, r ∈ flat_map owed_out (ProbeOutgoing s :: rest) <-> r ∈ new \/ r ∈ flat_map owed_out (js ++ rest)).
  { intros r. cbn [flat_map]. rewrite Howed, flat_map_app, !elem_of_app. tauto. }
  split; [by rewrite Hch, (i_map _ _ _ Hinv)|done|apply (i_keys _ _ _ Hinv)| | | | | |done].
  - intros r c Hc. destruct (i_channels _ _ _ Hinv r c Hc) as [Hok ?]. split; [|done].
    apply (chan_ok_not_plain r (ProbeOutgoing s)); [by intros ? []|done].
  - intros r Hr. destruct (i_reached _ _ _ Hinv r Hr) as [?|[?|[[?|?]%elem_of_cons|[?|?]%Hold]]];
      [by left|by right; left|done|right; right; left|right; right; left|by right; right; right].
    + apply elem_of_app. by right.
    + apply elem_of_app. left. by apply Hnew.
  - apply Forall_app. split; [done|]. pose proof (i_jobs _ _ _ Hinv) as Hrest. by apply Forall_cons in Hrest as [_ ?].
  - by rewrite flat_map_app.
  - intros r Hr. destruct (i_new _ _ _ Hinv r ltac:(apply Hold; by right)) as (? & Hf & ?). split_and!; [done| |done].
    intros [Hin|Hin]%elem_of_app; [|apply Hf; by right].
    apply (Hdis r); [by apply Hnew'|]. by rewrite flat_map_app in Hr.
Qed.

Lemma run_outgoing_inv am st s rest : inv am st (ProbeOutgoing s :: rest) ->
  let res := run_channels address viewingKey recipients (ProbeOutgoing s) st in
  exists am', inv am' res.1 (res.2 ++ rest).
Proof.
  intros Hinv. pose proof (i_jobs _ _ _ Hinv) as Hj. apply Forall_cons in Hj as [[Hby Hs] _]. exists am.
  pose proof (advance_ok _ _ (total_only recipients) out_prefix s Hs) as Hadv.
  pose proof (fun js => total_advance st s js rest Hby Hs (i_total _ _ _ Hinv)) as Htot. cbn zeta in Htot.
  pose proof (owed_advance s Hs) as Howed. cbn zeta in Howed.
  pose proof (out_prefix (probe_index s) (probe_index_nonneg _ s Hs)) as Hpre.
  cbn [run_channels]. fold (outgoing_at (probe_index s)). unfold present_out in *. set (i := probe_index s) in *.
  set (next := map ProbeOutgoing) in *.
  assert (Hnext : forall b, Forall (scan_ok num_out) (advance (total_only recipients) s b) ->
    Forall (job_ok (am_map am)) (next (advance (total_only recipients) s b))).
  { intros b Hb. apply list.Forall_fmap. eapply Forall_impl; [exact Hb|]. done. }
  assert (Hnf : forall r l, FetchPublicKey r ∉ next l) by (by intros r l (? & ? & _)%list_elem_of_fmap).
  destruct (out_salt (outgoing_at i) =? 0); cbn [negb fst snd] in *.
  - eapply (inv_outgoing am st s rest _ _ []); [exact Hinv|done|exact (i_errors _ _ _ Hinv)|by apply Htot|by apply Hnext| | |].
    + destruct (total_only recipients) eqn:Ht; [|by apply Howed]. cbn [app]. unfold next. rewrite owed_total_only by done.
      cbn. by rewrite Ht.
    + by intros r []%elem_of_nil.
    + intros r Hr. by apply Hnf in Hr.
  - destruct (total_only recipients) eqn:Ht.
    + cbn [app fst snd]. eapply (inv_outgoing am st s rest _ _ []); [exact Hinv|done|exact (i_errors _ _ _ Hinv)|by apply Htot|by apply Hnext| | |].
      * cbn [app]. unfold next. rewrite owed_total_only by done. cbn. by rewrite Ht.
      * by intros r []%elem_of_nil.
      * intros r Hr. by apply Hnf in Hr.
    + symmetry in Hpre. apply Z.ltb_lt in Hpre. unfold num_out in Hpre.
      pose proof (probe_index_nonneg _ s Hs : 0 <= i) as H0i.
      destruct (lookup_lt_is_Some_2 out (Z.to_nat i) ltac:(lia)) as [r Hr].
      destruct (oh_outgoing Hpool _ _ Hr) as [_ Hd]. rewrite Z2Nat.id in Hd by lia. rewrite Hd.
      specialize (Howed eq_refl). unfold out_at at 1 in Howed. rewrite Hr in Howed.
      destruct (i_new _ _ _ Hinv r) as (Hn & _ & Hask).
      { cbn [flat_map]. rewrite Howed. apply elem_of_app. left. by left. }
      unfold discoverChannel. rewrite (i_map _ _ _ Hinv). destruct (i_keys _ _ _ Hinv) as [Hconv Hfac].
      rewrite am_get_plain, Hn by done. cbn [app fst snd].
      apply (inv_outgoing am st s rest _ (FetchPublicKey r :: next (advance false s true)) [r]); [exact Hinv|done|exact (i_errors _ _ _ Hinv)| | | | |].
      * apply (Htot (FetchPublicKey r :: next (advance false s true))); [|done]. intros x Hx. by right.
      * constructor; [done|by apply Hnext].
      * exact Howed.
      * intros r' ->%list_elem_of_singleton. by left.
      * intros r' [[= ->]|Hin]%elem_of_cons; [by left|]. by apply Hnf in Hin.
Qed.

(** ** Every schedule ends *)

Definition nonce_weight (key t : Z) (s : scan_at) : nat :=
  calls_weight (present_note key t) (fun _ => 0%nat) (pending_calls (present_note key t) (count key t) true s).
Definition token_weight (key : Z) (s : scan_at) : nat :=
  calls_weight (present_sub key)
    (fun k => match subs key !! Z.to_nat k with Some t => nonce_weight key t (start_scan 0) | None => 0%nat end)
    (pending_calls (present_sub key) (sub_count subs key) false s).
(** The scan of the tokens starts at the number of tokens known by then. *)
Definition marker_weight (r : Z) : nat :=
  S (max_list (map (fun size => token_weight (key_of r) (start_scan size)) (seqZ 0 (sub_count subs (key_of r) + 1)))).
Definition out_weight (s : scan_at) : nat :=
  calls_weight present_out (fun i => match out !! Z.to_nat i with Some r => S (marker_weight r) | None => 0%nat end)
    (pending_calls present_out num_out (total_only recipients) s).
Definition channels_weight (j : channels_job) : nat :=
  match j with
  | ProbeOutgoing s => out_weight s
  | FetchPublicKey r => S (marker_weight r)
  | CheckMarker r _ => marker_weight r
  | ProbeToken r _ s => token_weight (key_of r) s
  | ProbeNonce _ key t s => nonce_weight key t s
  end.

(** A channel has at most as many tokens as subchannels. *)
Lemma tokens_bound jobs r c : chan_ok jobs r c -> 0 <= Z.of_nat (am_size (ch_tokens c)) <= sub_count subs (key_of r).
Proof.
  intros ((_ & _ & Hwf) & _ & _ & [(_ & He & _)|(_ & _ & Hsound & _)]); unfold am_size, sub_count.
  - rewrite He. cbn. lia.
  - assert (Hsub : map_keys (am_map (ch_tokens c)) ⊆+ subs (key_of r)).
    { apply NoDup_submseteq; [exact Hwf|]. intros t Ht. apply map_has_true in Ht. unfold map_has in Ht.
      destruct (map_get t (am_map (ch_tokens c))) as [tc|] eqn:Hg; [|done].
      destruct (Hsound t tc Hg) as (k & Hk & _). by eapply list_elem_of_lookup_2. }
    apply submseteq_length in Hsub. unfold map_keys in Hsub. rewrite length_fmap in Hsub. lia.
Qed.

Lemma marker_lighter r size : 0 <= size <= sub_count subs (key_of r) ->
  (token_weight (key_of r) (start_scan size) < marker_weight r)%nat.
Proof.
  intros Hs. unfold marker_weight. apply Nat.lt_succ_r, max_list_elem_of_le.
  apply (list_elem_of_fmap_2 (fun size => token_weight (key_of r) (start_scan size))), elem_of_seqZ. lia.
Qed.

Lemma out_lighter s : scan_ok num_out s ->
  let p := present_out (probe_index s) in
  out_weight s = S ((if p then match out !! Z.to_nat (probe_index s) with Some r => S (marker_weight r) | None => 0%nat end else 0)
    + sum_list_with channels_weight (map ProbeOutgoing (advance (total_only recipients) s p)))%nat.
Proof. intros Hs. cbn zeta. rewrite sum_list_with_map. unfold out_weight at 1. rewrite (advance_weight _ _ _ out_prefix _ s Hs). done. Qed.

Lemma run_lighter am st j rest : inv am st (j :: rest) ->
  (sum_list_with channels_weight (run_channels address viewingKey recipients j st).2 < channels_weight j)%nat.
Proof.
  intros Hinv. pose proof (i_jobs _ _ _ Hinv) as Hj. apply Forall_cons in Hj as [Hj _].
  destruct j as [s|r|r p|r key s|r key t s]; cbn [run_channels channels_weight].
  - destruct Hj as [_ Hs]. pose proof (out_lighter s Hs) as Hw. cbn zeta in Hw. rewrite Hw. clear Hw.
    pose proof (probe_index_nonneg _ s Hs) as H0i. pose proof (out_prefix (probe_index s) H0i) as Hpre.
    pose proof (owed_advance s Hs) as Howed. cbn zeta in Howed.
    fold (outgoing_at (probe_index s)). unfold present_out in *.
    destruct (out_salt (outgoing_at (probe_index s)) =? 0); cbn [negb snd] in *; [lia|].
    symmetry in Hpre. apply Z.ltb_lt in Hpre. unfold num_out in Hpre.
    destruct (lookup_lt_is_Some_2 out (Z.to_nat (probe_index s)) ltac:(lia)) as [r Hr]. rewrite Hr.
    destruct (total_only recipients) eqn:Ht; cbn [snd app]; [lia|].
    destruct (oh_outgoing Hpool _ _ Hr) as [_ Hd]. rewrite Z2Nat.id in Hd by lia. rewrite Hd.
    destruct (i_new _ _ _ Hinv r) as (Hn & _ & _).
    { cbn [flat_map]. rewrite (Howed eq_refl). unfold out_at at 1. rewrite Hr. apply elem_of_app. left. by left. }
    unfold discoverChannel. rewrite (i_map _ _ _ Hinv). destruct (i_keys _ _ _ Hinv) as [Hconv Hfac].
    rewrite am_get_plain, Hn by done. cbn [snd app sum_list_with channels_weight]. lia.
  - unfold with_public_key. fold (pk r). rewrite (i_map _ _ _ Hinv). destruct (pk r =? 0); cbn [snd sum_list_with channels_weight]; lia.
  - destruct Hj as [-> [c Hc]]. fold (key_of r). fold (opened r). destruct (opened r); [|cbn [snd sum_list_with]; unfold marker_weight; lia].
    rewrite (update_channel_eq am st _ r _ c Hinv Hc). destruct (channel_in r _) as [c1|] eqn:Hin; [|cbn [snd sum_list_with]; unfold marker_weight; lia].
    destruct (i_channels _ _ _ Hinv r c Hc) as [Hok _]. destruct (i_keys _ _ _ Hinv) as [Hconv Hfac].
    unfold channel_in in Hin. cbn [cs_channels with_cs_channels mbind option_bind] in Hin. rewrite am_get_plain in Hin by done.
    unfold am_set in Hin. cbn in Hin. rewrite Hconv, map_get_set_eq in Hin. injection Hin as <-.
    cbn [snd sum_list_with channels_weight scan_tokens]. rewrite Nat.add_0_r. apply marker_lighter. by apply (tokens_bound _ r c) in Hok.
  - destruct Hj as (-> & Ho & Hs & _). unfold token_weight.
    pose proof (oh_content Hpool _ Ho) as Hch. rewrite (advance_weight _ _ _ (subs_prefix _ _ _ Hch) _ s Hs).
    pose proof (present_token subs count _ _ Hch (probe_index_nonneg _ s Hs)) as Htok.
    fold (subchannel_at (key_of r) (probe_index s)). unfold present_sub in *.
    destruct (sub_salt (subchannel_at (key_of r) (probe_index s)) =? 0); cbn [negb snd] in *.
    { rewrite sum_list_with_map. apply Nat.lt_succ_r. done. }
    destruct (Htok eq_refl) as (t & Ht & ->). rewrite Ht. cbn [sum_list_with channels_weight]. rewrite sum_list_with_map.
    apply Nat.lt_succ_r. done.
  - destruct Hj as (-> & Ho & Ht & Hs & _). unfold nonce_weight.
    rewrite (advance_weight _ _ _ (notes_prefix subs count _ _ (oh_content Hpool _ Ho) Ht) _ s Hs).
    fold (note_at (key_of r) t (probe_index s)). 
    change (present_note (key_of r) t (probe_index s)) with (negb (packed_value (note_at (key_of r) t (probe_index s)) =? 0)).
    destruct (packed_value (note_at (key_of r) t (probe_index s)) =? 0); cbn [negb snd]; rewrite sum_list_with_map;
      apply Nat.lt_succ_r; done.
Qed.

(** ** From the first jobs to the result *)

Lemma flat_map_singletons {A} (l : list A) : flat_map (fun x => [x]) l = l.
Proof. induction l as [|x l IH]; [done|]. cbn. by rewrite IH. Qed.

Lemma inv_perm am st l l' : l ≡ₚ l' -> inv am st l -> inv am st l'.
Proof.
  intros Hl Hinv. assert (Hin : forall x, x ∈ l -> x ∈ l') by (intros x; by rewrite Hl).
  split; try (by apply Hinv); try (rewrite <- Hl; by apply Hinv).
  - intros r c Hc. destruct (i_channels _ _ _ Hinv r c Hc) as [Hok ?]. split; [|done].
    apply (chan_ok_keep r l l'); [|done]. intros x _. apply Hin.
  - intros r Hr. unfold reached. rewrite <- Hl. by apply (i_reached _ _ _ Hinv).
  - intros r. rewrite <- !Hl. by apply (i_new _ _ _ Hinv).
  - pose proof (i_total _ _ _ Hinv) as Ht. unfold total_ok in *. destruct by_list; [done|].
    destruct Ht as [? [?|[?|(s & Hs & ?)]]]; (split; [done|]); [by left|by right; left|right; right].
    exists s. split; [by apply Hin|done].
Qed.

Definition some_inv (st : ChannelsState) (jobs : list channels_job) : Prop := exists am, inv am st jobs.

Lemma some_inv_run st j rest : some_inv st (j :: rest) ->
  some_inv (run_channels address viewingKey recipients j st).1 ((run_channels address viewingKey recipients j st).2 ++ rest).
Proof.
  intros [am Hinv]. destruct j; [by eapply run_outgoing_inv|by eapply run_fetch_inv|by eapply run_marker_inv
    |by eapply run_token_inv|by eapply run_nonce_inv].
Qed.

Definition first_jobs : list channels_job :=
  match recipients with Recipients l => map FetchPublicKey l | _ => [ProbeOutgoing (start_scan 0)] end.

Lemma recipient_jobs_first : recipient_jobs recipients (initial_channels None) = (initial_channels None, first_jobs).
Proof.
  unfold recipient_jobs, first_jobs. destruct recipients as [l| |]; [|done|done].
  assert (Hgen : forall acc, fold_left (fun s r => let '(st, jobs) := s in
      let '(st, js) := ChannelsDiscovery.discoverChannel r st in (st, jobs ++ js)) l (initial_channels None, acc)
    = (initial_channels None, acc ++ map FetchPublicKey l)); [|exact (Hgen [])].
  induction l as [|r l IH]; intros acc; [by rewrite app_nil_r|]. cbn [fold_left map].
  change (ChannelsDiscovery.discoverChannel r (initial_channels None)) with (initial_channels None, [FetchPublicKey r]).
  cbv beta iota. by rewrite IH, <- app_assoc.
Qed.

Lemma first_inv : inv (new_AddressMap None []) (initial_channels None) first_jobs.
Proof.
  assert (Hscan : scan_ok num_out (start_scan 0)) by (apply start_scan_ok; unfold num_out; lia).
  assert (Hfetch : forall l, flat_map owed_out (map FetchPublicKey l) = [])
    by (intros l; rewrite flat_map_map; by apply flat_map_nil).
  assert (Howed : total_only recipients = false -> owed_out (ProbeOutgoing (start_scan 0)) ≡ₚ out).
  { intros Ht. cbn [owed_out]. unfold out_finds. rewrite Ht. rewrite start_scan_finds; [|unfold num_out; lia|lia|exact out_prefix].
    unfold num_out, out_at. by rewrite (flat_map_index (fun r => [r]) out), flat_map_singletons. }
  assert (Hlast : 0 < num_out -> num_out - 1 ∈ out_finds (start_scan 0)).
  { intros Hn. apply start_scan_last; [done|exact out_prefix]. }
  assert (Hpend : num_out = 0 \/ (exists s, ProbeOutgoing s ∈ [ProbeOutgoing (start_scan 0)] /\ num_out - 1 ∈ out_finds s)).
  { destruct (decide (num_out = 0)); [by left|right]. exists (start_scan 0). split; [by left|]. apply Hlast. unfold num_out in *. lia. }
  assert (Hfirst : flat_map owed_out first_jobs ≡ₚ (if by_list then [] else asked)).
  { unfold first_jobs, asked, by_list. destruct recipients eqn:Hr; [by rewrite Hfetch|cbn [flat_map]; by rewrite app_nil_r, Howed|].
    cbn [flat_map owed_out]. by rewrite Hr. }
  split; [done|done|done|done| | | | |].
  - intros r Hr. unfold reached. destruct by_list eqn:Hby.
    + right; right; left. unfold by_list, asked, first_jobs in *. destruct recipients; [|done|done]. by apply list_elem_of_fmap_2.
    + right; right; right. by rewrite Hfirst.
  - unfold first_jobs, job_ok, by_list, asked. destruct recipients as [l| |];
      [apply list.Forall_fmap; by apply list.Forall_forall|by apply list.Forall_singleton|by apply list.Forall_singleton].
  - rewrite Hfirst. unfold by_list, asked. destruct recipients; [constructor|apply (oh_distinct Hpool)|constructor].
  - intros r Hr. rewrite Hfirst in Hr. split; [done|]. unfold by_list, asked, first_jobs in *.
    destruct recipients; [by apply elem_of_nil in Hr| |by apply elem_of_nil in Hr]. split; [|done].
    by intros ?%list_elem_of_singleton.
  - unfold total_ok, by_list, first_jobs. destruct recipients; [done| |]; (split; [done|]); destruct Hpend; auto.
Qed.

(** With nothing pending, the channels are what the pool holds. *)
Lemma final_found r c : chan_ok [] r c -> found_channel r c.
Proof.
  intros (_ & Hpk & Hp & [(Hk & He & Ho)|(Ho & Hk & Hsound & Hcompl)]).
  - destruct (opened r) eqn:Hop; [by apply elem_of_nil in Ho|]. unfold found_channel. rewrite Hop. by split_and!.
  - unfold found_channel. rewrite Ho. split_and!; [done..|]. intros _ t.
    assert (Hval : forall tc, map_get t (am_map (ch_tokens c)) = Some tc -> exists k, subs (key_of r) !! k = Some t /\
      tc = {| tokenIndex := Z.of_nat k; noteNonce := count (key_of r) t |}).
    { intros tc Htc. destruct (Hsound t tc Htc) as (k & Hsk & Hi & _ & [Hn|(s & []%elem_of_nil & _)]).
      exists k. split; [done|]. destruct tc as [i n]. cbn in *. by subst. }
    destruct (list_find (fun x => x = t) (subs (key_of r))) as [[k t']|] eqn:Hf; cbn [fmap option_fmap option_map fst].
    + apply list_find_Some in Hf as (Hkt & -> & _).
      destruct (Hcompl k t Hkt) as [[tc Htc]|(s & []%elem_of_nil & _)]. rewrite Htc.
      destruct (Hval tc Htc) as (k' & Hk' & ->). by rewrite (NoDup_lookup _ _ _ _ (oh_tokens Hpool _ Ho) Hkt Hk').
    + destruct (map_get t (am_map (ch_tokens c))) as [tc|] eqn:Htc; [|done]. destruct (Hval tc eq_refl) as (k & Hkt & _).
      apply list_find_None in Hf. rewrite list.Forall_forall in Hf. exfalso. by apply (Hf t); [eapply list_elem_of_lookup_2|].
Qed.

Definition expected_total : option Z := if by_list then None else if num_out =? 0 then None else Some num_out.

Lemma final_total st : total_ok st [] -> cs_total st = expected_total.
Proof.
  unfold total_ok, expected_total. destruct by_list; [done|]. intros [Hv Ht].
  destruct (Z.eqb_spec num_out 0) as [Hn|Hn]; [destruct (cs_total st); [lia|done]|].
  by destruct Ht as [?|[?|(s & []%elem_of_nil & _)]].
Qed.

(** ** The map stays a map *)

Definition map_kept (st : ChannelsState) : Prop := forall m, cs_channels st = Some m -> am_wf m.

Lemma update_channel_kept r f st : map_kept st -> map_kept (update_channel r f st).
Proof.
  intros Hst m. unfold update_channel. destruct (cs_channels st) as [m0|] eqn:Hm; [|cbn; congruence].
  destruct (am_get r None m0).1; [|cbn; rewrite Hm; intros [= <-]; by apply Hst].
  intros [= <-]. apply map_set_wf. exact (Hst m0 Hm).
Qed.

Lemma with_public_key_kept r p st : map_kept st -> map_kept (with_public_key r p st).1.
Proof.
  intros Hst m. unfold with_public_key. destruct (p =? 0); [apply Hst|]. destruct (cs_channels st) as [m0|] eqn:Hm; cbn; [|congruence].
  intros [= <-]. specialize (Hst m0 Hm). unfold am_get. destruct (map_has _ _); [exact Hst|]. by apply map_set_wf.
Qed.

Lemma discoverChannel_kept r st : map_kept st -> map_kept (discoverChannel r st).1.
Proof.
  intros Hst. unfold discoverChannel. destruct (cs_channels st) as [m0|] eqn:Hm; [|by intros m; cbn; rewrite Hm].
  destruct (am_get r None m0).1 as [c|]; [|done]. case_bool_decide; [by apply with_public_key_kept|done].
Qed.

Lemma run_channels_kept j st : map_kept st -> map_kept (run_channels address viewingKey recipients j st).1.
Proof.
  intros Hst. destruct j as [s|r|r p|r key s|r key t s]; cbn [run_channels].
  - destruct (_ =? 0); [done|]. destruct (total_only recipients); [done|].
    match goal with |- context [discoverChannel ?r st] => pose proof (discoverChannel_kept r st Hst) as Hd; destruct (discoverChannel r st) end.
    exact Hd.
  - by apply with_public_key_kept.
  - destruct (channel_exists _); [|done]. set (f := fun c => with_key c _). pose proof (update_channel_kept r f st Hst). by destruct (channel_in _ _).
  - destruct key as [key|]; [|done]. destruct (_ =? 0); [done|]. by apply update_channel_kept.
  - destruct (_ =? 0); [done|]. by apply update_channel_kept.
Qed.

(** ** The whole run *)

Definition channels_fuel : nat := sum_list_with channels_weight first_jobs.

(** With that fuel every schedule ends, with the channels of the pool. *)
Lemma channels_of_pool pick : exists m,
  discover_all_channels address viewingKey recipients channels_fuel pick None
    = Some (Ok {| cc_channels := Some m; cc_total := expected_total |}) /\
  keyConverter m = (fun k => k) /\ defaultFactory m = None /\ am_wf m /\
  (forall r c, map_get r (am_map m) = Some c -> r ∈ asked /\ channel_wf c /\ pk r <> 0 /\ found_channel r c) /\
  (forall r, r ∈ asked -> pk r <> 0 -> is_Some (map_get r (am_map m))).
Proof.
  set (I := fun st jobs => some_inv st jobs /\ map_kept st).
  destruct (wait_terminates (run_channels address viewingKey recipients) I channels_weight) with
    (fuel := channels_fuel) (pick := pick) (st := initial_channels None) (jobs := first_jobs) as (st & Hrun & [am Hinv] & Hkept).
  - intros st l l' Hl [[am Hinv] Hk]. split; [exists am; by eapply inv_perm|done].
  - intros st j rest [Hi Hk]. split; [by apply some_inv_run|by apply run_channels_kept].
  - intros st j rest [[am Hinv] _]. by eapply run_lighter.
  - split; [eexists; by apply first_inv|]. intros m [= <-]. apply NoDup_nil_2.
  - done.
  - pose proof (i_map _ _ _ Hinv) as Hm. pose proof (i_keys _ _ _ Hinv) as [Hk Hf]. exists am. split_and!; [|done|done|by apply Hkept| |].
    + unfold discover_all_channels. rewrite recipient_jobs_first. cbv beta iota zeta. cbn [cursor_jobs].
      change (cursor_jobs None) with (@nil channels_job). rewrite app_nil_r, Hrun. cbn.
      rewrite (i_errors _ _ _ Hinv), Hm. pose proof (i_total _ _ _ Hinv) as Ht. apply final_total in Ht. by rewrite Ht.
    + intros r c Hc. destruct (i_channels _ _ _ Hinv r c Hc) as [Hok ?]. pose proof Hok as (? & ? & _). split_and!; try done. by apply final_found.
    + intros r Hr Hpk. destruct (i_reached _ _ _ Hinv r Hr) as [?|[?|[[]%elem_of_nil|[]%elem_of_nil]]]; done.
Qed.
End Found.

(** C19: without a cursor, the discovery of channels ends under every schedule of the answers within a
    number of turns that does not depend on the schedule, and no call throws. The channels it returns
    are those of the recipients asked for that have a public key; each has that key, the channel key
    exactly if the channel is open, and of every token the index of its subchannel and the number of
    its notes. The total is the number of the user's outgoing channels when they were counted. *)
Theorem discovery_finds_channels `{StarkCrypto} `{PoolContract} (address viewingKey : Z) (recipients : RecipientsFilter)
  (subs : Z -> list Z) (count : Z -> Z -> Z) (out : list Z) :
  outgoing_holds address viewingKey subs count out ->
  exists fuel, forall pick, exists m,
    discover_all_channels address viewingKey recipients fuel pick None
      = Some (Ok {| cc_channels := Some m; cc_total := expected_total recipients out |}) /\
    (forall r c, map_get r (am_map m) = Some c ->
       r ∈ asked recipients out /\ found_channel address viewingKey subs count r c) /\
    (forall r, r ∈ asked recipients out -> pk r <> 0 -> is_Some (map_get r (am_map m))).
Proof.
  intros Hpool. exists (channels_fuel address viewingKey recipients subs count out). intros pick.
  destruct (channels_of_pool address viewingKey recipients subs count out Hpool pick) as (m & Hrun & _ & _ & _ & Hc & Hr).
  exists m. split_and!; [done| |done]. intros r c Hrc. destruct (Hc r c Hrc) as (? & _ & _ & ?). by split.
Qed.

(** ** A mock pool with one outgoing channel, one token and one note *)

Section SampleOutgoing.
#[local] Existing Instance toy_crypto.

Definition sample_key : Z := compute_channel_key 1 2 5 11.

Definition outgoing_mock : MockPool :=
  {| publicKeys := {[1 := 2; 5 := 11]};
     channels := ∅;
     channelMarkers := {[compute_channel_marker sample_key 1 5 11]};
     subchannels := {[compute_subchannel_id sample_key 0 := encryptSubchannelInfo sample_key 0 7 3]};
     subchannelMarkers := ∅;
     notes := {[compute_note_id sample_key 7 0 := EncryptedNote (encryptNoteAmount sample_key 7 0 4 8) 7 0]};
     nullifiers := ∅;
     outgoingChannels := {[compute_outgoing_channel_id 1 2 0 := encryptOutgoingChannelInfo 1 2 0 5 3]} |}.

Definition one_note (_ _ : Z) : Z := 1.

Lemma outgoing_content : @channel_holds toy_crypto (mock_views outgoing_mock) sample_subs one_note sample_key.
Proof.
  split.
  - intros [|k] token; [|done]. intros [= <-]. vm_compute. split; [discriminate|reflexivity].
  - intros k Hk. cbn in Hk. unfold subchannel_at. cbn [get_subchannel_info mock_views].
    unfold mock_subchannel_info, outgoing_mock. cbn [subchannels].
    rewrite lookup_singleton_ne; [done|]. apply toy_subchannel_id_ne. lia.
  - done.
  - intros token i Ht Hi. apply list_elem_of_singleton in Ht as ->. unfold note_at. cbn [get_note mock_views].
    unfold mock_note, outgoing_mock, one_note. cbn [notes]. destruct (decide (i = 0)) as [->|H0].
    { rewrite lookup_singleton_eq. cbn [packed_value]. split; [vm_compute; discriminate|lia]. }
    rewrite lookup_singleton_ne by (by apply toy_note_id_ne; congruence). split; [lia|done].
Qed.

(** Only the channel to 5 has a marker. *)
Lemma outgoing_opened r : @opened toy_crypto (mock_views outgoing_mock) 1 2 r = true -> r = 5.
Proof.
  unfold opened. cbn [channel_exists mock_views]. unfold outgoing_mock. cbn [channelMarkers].
  rewrite bool_decide_eq_true. intros Heq%elem_of_singleton.
  apply (@run_hash_call_inj toy_crypto toy_collision_free (ChannelMarker _ 1 r _) (ChannelMarker _ 1 5 11)) in Heq. congruence.
Qed.

Lemma sample_outgoing_holds :
  @outgoing_holds toy_crypto (mock_views outgoing_mock) 1 2 sample_subs one_note [5].
Proof.
  split.
  - intros r ->%outgoing_opened. apply outgoing_content.
  - intros r _. apply NoDup_singleton.
  - intros [|i] r; [|done]. intros [= <-]. vm_compute. split; [discriminate|reflexivity].
  - intros i Hi. unfold outgoing_at. cbn [get_outgoing_channel_info mock_views].
    unfold mock_outgoing_channel_info, outgoing_mock. cbn [outgoingChannels].
    rewrite lookup_singleton_ne; [done|]. intros Heq.
    apply (@run_hash_call_inj toy_crypto toy_collision_free (OutgoingChannelId 1 2 0) (OutgoingChannelId 1 2 i)) in Heq.
    injection Heq as Heq. cbn in Hi. lia.
  - apply NoDup_singleton.
Qed.

Lemma discovery_finds_channels_witness :
  exists fuel, forall pick, exists m,
    @discover_all_channels toy_crypto (mock_views outgoing_mock) 1 2 AllRecipients fuel pick None
      = Some (Ok {| cc_channels := Some m; cc_total := expected_total AllRecipients [5] |}) /\
    (forall r c, map_get r (am_map m) = Some c -> r ∈ asked AllRecipients [5] /\
       @found_channel toy_crypto (mock_views outgoing_mock) 1 2 sample_subs one_note r c) /\
    (forall r, r ∈ asked AllRecipients [5] -> @pk (mock_views outgoing_mock) r <> 0 -> is_Some (map_get r (am_map m))).
Proof.
  exact (@discovery_finds_channels toy_crypto (mock_views outgoing_mock) 1 2 AllRecipients _ _ _ sample_outgoing_holds).
Defined.
End SampleOutgoing.
