(* ===== verification/Json.v ===== *)
(** * JSON values, hexadecimal felts and caches

    The values that [JSON.parse] gives, as the services read them, and the check of a hexadecimal
    felt that [screening-interceptor.ts] and [elliptic-proxy/src/felt.ts] share; and the interface of the caches of the services. *)
From Stdlib Require Import Ascii ZArith QArith Lia.
From stdpp Require Import base tactics list strings.
From S2P Require Import Prelude JsMap Convert Crypto.

Local Open Scope string_scope.
Local Open Scope Z_scope.

(** ** JSON *)

(** The values of [response.json()]; a number is finite or not ([1e999] reads as [Infinity]). *)
#[warnings="-register-all"]
Inductive json : Type :=
| JNull
| JBool (b : bool)
| JNumber (n : option Q)
| JString (s : string)
| JArray (l : list json)
| JObject (fields : jsmap string json).

(** [typeof value === "object" && value !== null], then reading a field; [None] is [undefined]. *)
Definition is_object (value : json) : bool := match value with JArray _ | JObject _ => true | _ => false end.
Definition field (name : string) (value : json) : option json :=
  match value with JObject fields => map_get name fields | _ => None end.

(** ** Hexadecimal felts *)

(** [/^0x[0-9a-fA-F]{1,64}$/]. *)
Definition HEX_FELT (s : string) : bool :=
  match s with
  | String "0" (String "x" digits) =>
      (1 <=? String.length digits)%nat && (String.length digits <=? 64)%nat && all_hex digits
  | _ => false
  end.

(** ** LRU caches

    The interface of the caches that the services keep: what the package documents of [get],
    [has] and [set] on a cache with a time to live and a bound on its entries. Time passes only as an
    argument. *)

Class LruCache (V : Type) := {
  lru : Type;
  lru_new : Z -> lru;
  lru_get : Z -> string -> lru -> option V * lru;
  lru_set : Z -> string -> V -> lru -> lru;
  lru_has : Z -> string -> lru -> bool;
  (** Changing in place the object that is stored for a key. *)
  lru_mutate : string -> V -> lru -> lru;
  lru_size : lru -> nat
}.

(** [holds c k v t]: the cache may serve [v] for [k], which was set at the time [t]. A cache serves what
    was last set, no longer than its time to live; it may forget an entry at any time. *)
Class LruLaws (V : Type) `{LruCache V} := {
  ttl_of : lru -> Z;
  holds : lru -> string -> V -> Z -> Prop;
  holds_new : forall ttl k v t, ~ holds (lru_new ttl) k v t;
  ttl_new : forall ttl, ttl_of (lru_new ttl) = ttl;
  holds_set : forall c k v t k' v' t', holds (lru_set t k v c) k' v' t' ->
    (k' = k /\ v' = v /\ t' = t) \/ (k' <> k /\ holds c k' v' t');
  ttl_set : forall c k v t, ttl_of (lru_set t k v c) = ttl_of c;
  holds_get : forall c k t k' v' t', holds (lru_get t k c).2 k' v' t' -> holds c k' v' t';
  ttl_get : forall c k t, ttl_of (lru_get t k c).2 = ttl_of c;
  get_holds : forall c k t v, (lru_get t k c).1 = Some v ->
    exists t0, holds c k v t0 /\ holds (lru_get t k c).2 k v t0 /\ t - t0 <= ttl_of c;
  has_holds : forall c k t, lru_has t k c = true -> exists v t0, holds c k v t0 /\ t - t0 <= ttl_of c;
  holds_mutate : forall c k v k' v' t', holds (lru_mutate k v c) k' v' t' ->
    (k' = k /\ v' = v /\ exists v0, holds c k v0 t') \/ (k' <> k /\ holds c k' v' t');
  ttl_mutate : forall c k v, ttl_of (lru_mutate k v c) = ttl_of c
}.

(** ** A cache without a bound *)

Section Plain.
Context (V : Type).

(** The time to live and the entries with the times they were set at. *)
Definition plain_lru : LruCache V := {|
  lru := Z * jsmap string (V * Z);
  lru_new ttl := (ttl, []);
  lru_get t k c := ((e ← map_get k c.2; if t - e.2 <=? c.1 then Some e.1 else None), c);
  lru_set t k v c := (c.1, map_set k (v, t) c.2);
  lru_has t k c := match map_get k c.2 with Some e => t - e.2 <=? c.1 | None => false end;
  lru_mutate k v c := (c.1, match map_get k c.2 with Some e => map_set k (v, e.2) c.2 | None => c.2 end);
  lru_size c := length c.2 |}.

Definition plain_lru_laws : @LruLaws V plain_lru.
Proof.
  refine {| ttl_of := fun c : @lru V plain_lru => c.1; holds := fun c k v t => map_get k c.2 = Some (v, t) |}; try done.
  - intros c k v t k' v' t'. cbn. rewrite map_get_set. case_decide as Hk; [intros [= <- <-]; by left|by right].
  - intros c k t v. cbn. destruct (map_get k c.2) as [[w t0]|] eqn:Hk; [|done]. cbn.
    destruct (Z.leb_spec (t - t0) c.1) as [Ht|Ht]; [|done]. intros [= ->]. by exists t0.
  - intros c k t. cbn. destruct (map_get k c.2) as [[w t0]|] eqn:Hk; [|done]. cbn. intros Ht%Z.leb_le. by exists w, t0.
  - intros c k v k' v' t'. cbn. destruct (map_get k c.2) as [[w t0]|] eqn:Hk.
    + rewrite map_get_set. case_decide as Hkk; [|by right]. intros [= <- <-]. subst. left. split_and!; [done..|]. by exists w.
    + destruct (decide (k' = k)) as [->|]; [by rewrite Hk|by right].
Defined.
End Plain.
