(* ===== verification/PoolTransaction.v ===== *)
(** * Pool calls of a prove request ([proof-interceptor/src/pool-transaction.ts])

    The interceptor reads the calldata of an untrusted transaction: it compares felts by a
    canonical spelling, recognises a single direct call to the pool, and decodes its client
    actions. The ABI decoder of starknet.js is the class [PoolCoder]. Strings are ASCII. *)
From Stdlib Require Import Ascii ZArith Lia.
From stdpp Require Import base tactics list strings.
From S2P Require Import Prelude Convert.

Local Open Scope string_scope.
Local Open Scope Z_scope.

(** ** Felts *)

(** [String.prototype.toLowerCase]. *)
Definition lower (c : ascii) : ascii :=
  let n := nat_of_ascii c in
  if ((65 <=? n) && (n <=? 90))%nat then ascii_of_nat (n + 32) else c.

Fixpoint toLowerCase (s : string) : string :=
  match s with EmptyString => EmptyString | String c s => String (lower c) (toLowerCase s) end.

(** [hex.replace(/^0+/, "")]. *)
Fixpoint strip_zeros (s : string) : string :=
  match s with String "0" s => strip_zeros s | _ => s end.

(** [lower.startsWith("0x") ? lower.slice(2) : lower]. *)
Definition strip_prefix (s : string) : string :=
  match s with String "0" (String "x" hex) => hex | _ => s end.

Definition normalizeFelt (value : string) : string :=
  "0x" +:+ (match strip_zeros (strip_prefix (toLowerCase value)) with EmptyString => "0" | hex => hex end).

(** [BigInt(value)], with [null] for the exception. *)
Definition parseFelt (value : string) : option Z := BigInt_of_string value.

(** ** [parseInt(value, 16)] *)

(** The hexadecimal digits a string starts with. *)
Fixpoint hex_prefix (s : string) : string :=
  match s with
  | String c s => match char_digit c with Some _ => String c (hex_prefix s) | None => EmptyString end
  | EmptyString => EmptyString
  end.

(** White space, a sign, an optional prefix, then the digits up to the first other character; [None] is [NaN]. *)
Definition parseInt16 (value : string) : option Z :=
  let s := trim_start value in
  let '(sign, s) := match s with String "-" s => (-1, s) | String "+" s => (1, s) | _ => (1, s) end in
  let s := match s with String "0" (String "x" s) | String "0" (String "X" s) => s | _ => s end in
  Z.mul sign <$> parse_radix 16 (hex_prefix s).

(** ** The decoder *)

(** A [CairoCustomEnum] of the pool's [ClientAction]: the variants the interceptor tells apart, with the
    fields it reads. *)
Inductive PoolAction : Type :=
| PDeposit
| PCreateOpenNote
| PInvokeExternal (contract_address : Z)
| PComputeAndInvoke (contract_address : Z) (compute_additional_data invoke_additional_data : list Z)
| POther.

#[export] Instance PoolAction_eq_dec : EqDecision PoolAction.
Proof. solve_decision. Defined.

(** starknet.js: [poolCallData] and [anonymizerDecoder] decode felts against an ABI ([None] when they
    throw; of the last one only the number of open notes is read), [num.toHex] spells a felt, and
    [calculateContractAddressFromHash] derives an address (as the number it spells). *)
Class PoolCoder := {
  decode_actions : list string -> option (list PoolAction);
  decode_compute_arguments : list string -> option (Z * Z);
  decode_open_notes : list string -> option nat;
  num_toHex : Z -> string;
  calculateContractAddressFromHash : Z -> Z -> list Z -> Z -> Z
}.

(** ** The transaction *)

(** The fields of [ProveTxnV3] that are read. *)
Record ProveTxnV3 : Type := { tx_calldata : list string }.

Definition isSinglePoolCall (transaction : ProveTxnV3) (poolAddress : string) : bool :=
  match tx_calldata transaction with
  | call_count :: contract_address :: rest =>
      if (7 <=? length (tx_calldata transaction))%nat && bool_decide (normalizeFelt call_count = "0x1")
      then bool_decide (normalizeFelt contract_address = normalizeFelt poolAddress)
      else false
  | _ => false
  end.

Record PoolCallActions : Type := {
  userAddress : string;
  viewingKey : option Z;
  pc_actions : list PoolAction }.

Definition slice {A} (start end_ : nat) (l : list A) : list A := take (end_ - start) (drop start l).

Definition decodeClientActions `{PoolCoder} (transaction : ProveTxnV3) (poolAddress : string) : option PoolCallActions :=
  if isSinglePoolCall transaction poolAddress then
    let calldata := tx_calldata transaction in
    innerCalldataLength ← calldata !! 3%nat ≫= parseInt16;
    if innerCalldataLength <? 3 then None
    else
      let innerCalldata := slice 4 (4 + Z.to_nat innerCalldataLength) calldata in
      actions ← decode_actions (drop 2 innerCalldata);
      user ← innerCalldata !! 0%nat;
      key ← innerCalldata !! 1%nat;
      Some {| userAddress := normalizeFelt user; viewingKey := parseFelt key; pc_actions := actions |}
  else None.

(** ** The canonical spelling *)

(** A hexadecimal spelling: an optional prefix in either case, then digits in either case. *)
Definition hex_digits (s : string) : string :=
  match s with String "0" (String "x" hex) | String "0" (String "X" hex) => hex | _ => s end.
Definition hex_value (s : string) : option Z := parse_digits 16 (hex_digits s) 0.

Lemma char_digit_lower c : char_digit (lower c) = char_digit c.
Proof. destruct c as [[] [] [] [] [] [] [] []]; reflexivity. Qed.

Lemma lower_digit c d : char_digit c = Some d -> lower c = digit_char d /\ 0 <= d < 16.
Proof.
  destruct c as [[] [] [] [] [] [] [] []]; intros Hc; vm_compute in Hc; try discriminate Hc;
    injection Hc as <-; (split; [reflexivity|lia]).
Qed.

Lemma parse_digits_lower s a : parse_digits 16 (toLowerCase s) a = parse_digits 16 s a.
Proof.
  revert a. induction s as [|c s IH]; intros a; [done|]. cbn. rewrite char_digit_lower.
  destruct (char_digit c) as [d|]; [|done]. destruct (d <? 16); [apply IH|done].
Qed.

Lemma strip_prefix_lower s : strip_prefix (toLowerCase s) = toLowerCase (hex_digits s).
Proof.
  destruct s as [|c s]; [done|]. destruct c as [[] [] [] [] [] [] [] []]; try reflexivity.
  destruct s as [|d s]; [done|]. destruct d as [[] [] [] [] [] [] [] []]; reflexivity.
Qed.

Lemma strip_zeros_value s : parse_digits 16 (strip_zeros s) 0 = parse_digits 16 s 0.
Proof.
  induction s as [|c s IH]; [done|]. destruct c as [[] [] [] [] [] [] [] []]; try reflexivity. exact IH.
Qed.

(** The digits of a number do not depend on the fuel. *)
Lemma to_digits_fuel f g b n acc : 1 < b -> 0 <= n < b ^ Z.of_nat f -> n < b ^ Z.of_nat g ->
  (0 < f)%nat -> (0 < g)%nat -> to_digits f b n acc = to_digits g b n acc.
Proof.
  intros Hb. revert g n acc. induction f as [|f IH]; [lia|]. intros [|g] n acc Hn Hg _ Hg0; [lia|]. cbn.
  destruct (Z.eqb_spec (n / b) 0) as [Hq|Hq]; [done|].
  rewrite !Nat2Z.inj_succ, Z.pow_succ_r in * by lia.
  assert (Hf : 0 <= n / b < b ^ Z.of_nat f).
  { split; [apply Z.div_pos; lia|]. apply Z.div_lt_upper_bound; lia. }
  assert (Hg' : n / b < b ^ Z.of_nat g) by (apply Z.div_lt_upper_bound; lia).
  assert (0 < n / b) by (assert (0 <= n / b) by lia; lia).
  apply IH; [done|done| |].
  - destruct f; [change (b ^ Z.of_nat 0) with 1 in Hf; lia|lia].
  - destruct g; [change (b ^ Z.of_nat 0) with 1 in Hg'; lia|lia].
Qed.

(** Digits read onto a non-zero number come out again after its own. *)
Lemma digits_of_parse s a v acc : 0 < a -> parse_digits 16 (toLowerCase s) a = Some v ->
  a <= v /\ forall f g, v < 16 ^ Z.of_nat f -> a < 16 ^ Z.of_nat g -> (0 < f)%nat -> (0 < g)%nat ->
    to_digits f 16 v acc = to_digits g 16 a (toLowerCase s +:+ acc).
Proof.
  revert a. induction s as [|c s IH]; intros a Ha; cbn.
  { intros [= <-]. split; [lia|]. intros f g Hf Hg Hf0 Hg0. apply to_digits_fuel; lia. }
  destruct (char_digit (lower c)) as [d|] eqn:Hc; [|done]. rewrite char_digit_lower in Hc.
  apply lower_digit in Hc as [Hl Hd]. rewrite (proj2 (Z.ltb_lt d 16)) by lia. intros Hp.
  destruct (IH (a * 16 + d) ltac:(lia) Hp) as [Hle Hdig]. split; [lia|]. intros f g Hf Hg Hf0 Hg0.
  assert (Hpow : a * 16 + d < 16 ^ Z.of_nat (S g)) by (rewrite Nat2Z.inj_succ, Z.pow_succ_r; lia).
  rewrite (Hdig f (S g) Hf Hpow Hf0 ltac:(lia)). cbn [to_digits].
  rewrite (Z.add_comm (a * 16)), Z.div_add, Z.mod_add, Z.div_small, Z.mod_small, Z.add_0_l by lia.
  rewrite (proj2 (Z.eqb_neq a 0)) by lia. by rewrite Hl.
Qed.


Lemma strip_zeros_lower s : strip_zeros (toLowerCase s) = EmptyString \/
  exists c r, strip_zeros (toLowerCase s) = toLowerCase (String c r) /\ lower c <> "0"%char.
Proof.
  induction s as [|c s IH]; [by left|]. cbn. destruct (decide (lower c = "0"%char)) as [->|Hc]; [exact IH|].
  right. exists c, s. split; [|done]. cbn. destruct (lower c) as [[] [] [] [] [] [] [] []]; try reflexivity. done.
Qed.

(** Canonical spellings are canonical. *)
Lemma toLowerCase_idem s : toLowerCase (toLowerCase s) = toLowerCase s.
Proof.
  induction s as [|c s IH]; [done|]. cbn. rewrite IH. f_equal. destruct c as [[] [] [] [] [] [] [] []]; reflexivity.
Qed.

Lemma strip_zeros_idem s : strip_zeros (strip_zeros s) = strip_zeros s.
Proof. induction s as [|c s IH]; [done|]. destruct c as [[] [] [] [] [] [] [] []]; try reflexivity. exact IH. Qed.

Lemma normalizeFelt_idem s : normalizeFelt (normalizeFelt s) = normalizeFelt s.
Proof.
  unfold normalizeFelt. rewrite !(strip_prefix_lower s).
  destruct (strip_zeros_lower (hex_digits s)) as [->|(c & r & Hs & Hc)]; [reflexivity|].
  pose proof (strip_zeros_idem (toLowerCase (hex_digits s))) as Hidem. rewrite Hs in *.
  change (toLowerCase (String c r)) with (String (lower c) (toLowerCase r)) in *.
  assert (Hl : toLowerCase (String (lower c) (toLowerCase r)) = String (lower c) (toLowerCase r))
    by exact (toLowerCase_idem (String c r)).
  change ("0x" +:+ match strip_zeros (toLowerCase (String (lower c) (toLowerCase r))) with
                   | EmptyString => "0" | hex => hex end = "0x" +:+ String (lower c) (toLowerCase r)).
  by rewrite Hl, Hidem.
Qed.

(** The canonical spelling of the spelling of a number. *)
Lemma normalizeFelt_value s v : hex_value s = Some v -> 0 <= v /\ normalizeFelt s = toHex v.
Proof.
  intros Hv. unfold hex_value in Hv. unfold normalizeFelt. rewrite strip_prefix_lower.
  rewrite <- parse_digits_lower, <- strip_zeros_value in Hv.
  destruct (strip_zeros_lower (hex_digits s)) as [He|(c & r & Hs & Hc)].
  - rewrite He in Hv |- *. injection Hv as <-. split; [lia|reflexivity].
  - rewrite Hs in *. cbn [toLowerCase parse_digits] in Hv. rewrite char_digit_lower in Hv.
    destruct (char_digit c) as [d|] eqn:Hd; [|done]. apply lower_digit in Hd as [Hl Hd].
    rewrite (proj2 (Z.ltb_lt d 16)) in Hv by lia. rewrite Z.add_0_l in Hv.
    assert (Hd0 : 0 < d). { destruct (decide (d = 0)) as [->|]; [by rewrite Hl in Hc|lia]. }
    destruct (digits_of_parse r d v "" Hd0 Hv) as [Hle Hdig]. split; [lia|].
    unfold toHex, bigint_toString. rewrite (proj2 (Z.ltb_ge v 0)), Z.abs_eq by lia. f_equal.
    rewrite (Hdig _ 1%nat); [|apply digits_fuel; lia|cbn; lia|lia|lia]. cbn [to_digits toLowerCase].
    rewrite Z.div_small, Z.mod_small by lia. rewrite Hl. cbn. f_equal.
    symmetry. apply append_empty.
Qed.

Lemma normalizeFelt_toHex z : 0 <= z -> normalizeFelt (toHex z) = toHex z.
Proof.
  intros Hz. apply normalizeFelt_value. change (parse_digits 16 (bigint_toString 16 z) 0 = Some z).
  apply parse_bigint_toString; lia.
Qed.

(** The canonical spelling of a felt is [toHex] of its value, whatever prefix, case and leading
    zeros it is written with, so two hexadecimal felts compare equal exactly when they are the same number. *)
Theorem normalizeFelt_canonical (s t : string) (v w : Z) :
  hex_value s = Some v -> hex_value t = Some w ->
  normalizeFelt s = toHex v /\ (normalizeFelt s = normalizeFelt t <-> v = w).
Proof.
  intros Hs Ht. destruct (normalizeFelt_value s v Hs) as [Hv ->], (normalizeFelt_value t w Ht) as [Hw ->]. split; [done|].
  split; [|by intros ->]. intros Heq. pose proof (BigInt_toHex v Hv) as Hb. rewrite Heq, BigInt_toHex in Hb by done.
  congruence.
Qed.

Lemma normalizeFelt_canonical_witness :
  normalizeFelt "0X00aBc" = toHex 2748 /\ (normalizeFelt "0X00aBc" = normalizeFelt "abC" <-> 2748 = 2748).
Proof. apply (normalizeFelt_canonical "0X00aBc" "abC" 2748 2748); reflexivity. Defined.

Example parseInt16_ex : parseInt16 " 0x1Fz" = Some 31 /\ parseInt16 "-a" = Some (-10) /\ parseInt16 "0x" = None.
Proof. by vm_compute. Qed.
