(* ===== verification/ScreenedAddress.v ===== *)
(** * Whom a prove request is screened for ([proof-interceptor/src/screened-address.ts], [shadow-account.ts])

    A deposit is screened on its depositor; an open note on the contract that funds it, by the
    policy the pool holds for that contract. The policy is an argument (file [ScreeningPolicy]
    models the client that reads it). The derivation of a shadow account is that of the SDK
    ([sdk/src/internal/shadow-account-address.ts]). *)
From Stdlib Require Import Ascii ZArith Lia.
From stdpp Require Import base tactics list strings.
From S2P Require Import Prelude Convert Crypto PoolTransaction.

Local Open Scope string_scope.
Local Open Scope Z_scope.

Inductive OpenNoteScreeningPolicy : Type := Required | Exempt | Delegated.

#[export] Instance OpenNoteScreeningPolicy_eq_dec : EqDecision OpenNoteScreeningPolicy.
Proof. solve_decision. Defined.

(** The only exception of the path: [BigInt] of a spelling that is no number. *)
Inductive interceptor_error : Type := InterceptorSyntaxError.

Inductive ScreenedAddress : Type :=
| SNone
| SOne (address : string)
| SConflict
| SUnreadablePolicy
| SUndeterminedShadowAccount.

#[export] Instance ScreenedAddress_eq_dec : EqDecision ScreenedAddress.
Proof. solve_decision. Defined.

Section ScreenedAddress.
Context `{StarkCrypto} `{PoolCoder}.

(** ** Shadow accounts *)

Definition PRIMER_CLASS_HASH : Z := 0x00123e6bc1c14ae9934e933d3f64916a6116dd6b036a922b2b1f0815e0d1d300.

Definition poseidonHash (values : list Z) : Z := default 0 (hash (map BN_bigint values)).

Definition shadowAccountPartialCommitment (user viewingKey anonymizerAddress dappName : Z) : Z :=
  poseidonHash [compute_identity_key user viewingKey anonymizerAddress; dappName].
Definition shadowAccountCommitment (partialCommitment nonce : Z) : Z := poseidonHash [partialCommitment; nonce].
Definition shadowAccountAddress (commitment anonymizerAddress : Z) : string :=
  toHex (calculateContractAddressFromHash commitment PRIMER_CLASS_HASH [] anonymizerAddress).

(** The felts of [privacy_compute] after the identity key, in the anonymizer's ABI. *)
Definition COMPUTE_ARGUMENT_TYPES_length : nat := 2.

Record ShadowAccountInteraction : Type := { dappName : Z; sa_nonce : Z }.

Definition shadowAccountInteraction (compute_additional_data : list Z) : option ShadowAccountInteraction :=
  if Nat.eqb (length compute_additional_data) COMPUTE_ARGUMENT_TYPES_length then
    (fun p => {| dappName := p.1; sa_nonce := p.2 |}) <$> decode_compute_arguments (map num_toHex compute_additional_data)
  else None.

Fixpoint getShadowAccountInteraction (actions : list PoolAction) (anonymizerAddress : string) : option ShadowAccountInteraction :=
  match actions with
  | [] => None
  | PComputeAndInvoke contract_address compute _ :: actions =>
      if bool_decide (normalizeFelt (num_toHex contract_address) <> normalizeFelt anonymizerAddress)
      then getShadowAccountInteraction actions anonymizerAddress
      else shadowAccountInteraction compute
  | _ :: actions => getShadowAccountInteraction actions anonymizerAddress
  end.

Definition getShadowAccountAddress (poolCall : PoolCallActions) (anonymizerAddress : string)
  : result interceptor_error (option string) :=
  match viewingKey poolCall with
  | None => Ok None
  | Some key =>
      match getShadowAccountInteraction (pc_actions poolCall) anonymizerAddress with
      | None => Ok None
      | Some interaction =>
          match parseFelt (userAddress poolCall) with
          | None => Ok None
          | Some user =>
              match BigInt_of_string (normalizeFelt anonymizerAddress) with
              | None => Err InterceptorSyntaxError
              | Some anonymizer =>
                  let commitment := shadowAccountCommitment
                    (shadowAccountPartialCommitment user key anonymizer (dappName interaction)) (sa_nonce interaction) in
                  Ok (Some (shadowAccountAddress commitment anonymizer))
              end
          end
      end
  end.

Definition createsOpenNotes (invoke_additional_data : list Z) : bool :=
  match decode_open_notes (map num_toHex invoke_additional_data) with
  | Some openNotes => (0 <? openNotes)%nat
  | None => false
  end.

(** ** The depositor of the open notes *)

(** The contract an invoke action calls. *)
Definition invoked (action : PoolAction) : option Z :=
  match action with PInvokeExternal c | PComputeAndInvoke c _ _ => Some c | _ => None end.

Record OpenNoteDepositor : Type := { od_address : string; od_action : PoolAction }.

Fixpoint first_invoke (actions : list PoolAction) : option OpenNoteDepositor :=
  match actions with
  | [] => None
  | action :: actions =>
      match invoked action with
      | Some contract_address => Some {| od_address := normalizeFelt (num_toHex contract_address); od_action := action |}
      | None => first_invoke actions
      end
  end.

Definition getOpenNoteDepositor (actions : list PoolAction) : option OpenNoteDepositor :=
  if bool_decide (PCreateOpenNote ∈ actions) then first_invoke actions else None.

Definition getDelegatedAddress (poolCall : PoolCallActions) (openNoteDepositor : OpenNoteDepositor)
  : result interceptor_error ScreenedAddress :=
  match od_action openNoteDepositor with
  | PComputeAndInvoke _ _ invoke_additional_data =>
      if createsOpenNotes invoke_additional_data then
        shadowAccount ← getShadowAccountAddress poolCall (od_address openNoteDepositor);
        Ok (match shadowAccount with None => SUndeterminedShadowAccount | Some address => SOne address end)
      else Ok SNone
  | _ => Ok SNone
  end.

(** ** The address to screen *)

(** [Set.prototype.add]. *)
Definition set_add (address : string) (addresses : list string) : list string :=
  if bool_decide (address ∈ addresses) then addresses else (addresses ++ [address])%list.

Definition verdict_of (addresses : list string) : ScreenedAddress :=
  match addresses with [] => SNone | [address] => SOne address | _ => SConflict end.

Definition getScreenedAddress (getPolicy : string -> option OpenNoteScreeningPolicy) (poolAddress : string)
  (transaction : ProveTxnV3) : result interceptor_error ScreenedAddress :=
  match decodeClientActions transaction poolAddress with
  | None => Ok SNone
  | Some poolCall =>
      let addresses := if bool_decide (PDeposit ∈ pc_actions poolCall) then [userAddress poolCall] else [] in
      match getOpenNoteDepositor (pc_actions poolCall) with
      | None => Ok (verdict_of addresses)
      | Some openNoteDepositor =>
          match getPolicy (od_address openNoteDepositor) with
          | Some Exempt => Ok (verdict_of addresses)
          | Some Required => Ok (verdict_of (set_add (od_address openNoteDepositor) addresses))
          | Some Delegated =>
              delegated ← getDelegatedAddress poolCall openNoteDepositor;
              Ok (match delegated with
                  | SOne address => verdict_of (set_add address addresses)
                  | SNone => verdict_of addresses
                  | other => other
                  end)
          | None => Ok SUnreadablePolicy
          end
      end
  end.

(** ** What the pool asks to be screened *)

(** The invoke that funds the open notes of a transaction: the first one, if it creates any. *)
Definition funds_open_notes (actions : list PoolAction) (action : PoolAction) (contract : Z) : Prop :=
  PCreateOpenNote ∈ actions /\ invoked action = Some contract /\
  exists before after, actions = (before ++ action :: after)%list /\ Forall (fun a => invoked a = None) before.

Definition address_of (contract : Z) : string := normalizeFelt (num_toHex contract).

(** The shadow account a compute-invoke runs through. *)
Definition shadow_account (poolCall : PoolCallActions) (contract : Z) (compute : list Z) (address : string) : Prop :=
  exists key user anonymizer dapp nonce,
    viewingKey poolCall = Some key /\ parseFelt (userAddress poolCall) = Some user /\
    BigInt_of_string (normalizeFelt (address_of contract)) = Some anonymizer /\
    length compute = 2%nat /\ decode_compute_arguments (map num_toHex compute) = Some (dapp, nonce) /\
    address = shadowAccountAddress
      (shadowAccountCommitment (shadowAccountPartialCommitment user key anonymizer dapp) nonce) anonymizer.

Context (getPolicy : string -> option OpenNoteScreeningPolicy).

Inductive screening_subject (poolCall : PoolCallActions) : string -> Prop :=
| SubjectDeposit : PDeposit ∈ pc_actions poolCall -> screening_subject poolCall (userAddress poolCall)
| SubjectRequired action contract :
    funds_open_notes (pc_actions poolCall) action contract -> getPolicy (address_of contract) = Some Required ->
    screening_subject poolCall (address_of contract)
| SubjectDelegated contract compute invoke address :
    funds_open_notes (pc_actions poolCall) (PComputeAndInvoke contract compute invoke) contract ->
    getPolicy (address_of contract) = Some Delegated -> createsOpenNotes invoke = true ->
    shadow_account poolCall contract compute address -> screening_subject poolCall address.

(** Every policy and shadow account that matters can be determined. *)
Definition determined (poolCall : PoolCallActions) : Prop :=
  (forall action contract, funds_open_notes (pc_actions poolCall) action contract -> getPolicy (address_of contract) <> None) /\
  (forall contract compute invoke,
     funds_open_notes (pc_actions poolCall) (PComputeAndInvoke contract compute invoke) contract ->
     getPolicy (address_of contract) = Some Delegated -> createsOpenNotes invoke = true ->
     exists address, shadow_account poolCall contract compute address).

(** ** The first invoke *)

Lemma first_invoke_spec actions action contract :
  (exists before after, actions = (before ++ action :: after)%list /\ Forall (fun a => invoked a = None) before) /\
    invoked action = Some contract <->
  first_invoke actions = Some {| od_address := address_of contract; od_action := action |} /\ invoked action = Some contract.
Proof.
  split; intros [Hf Hi]; (split; [|done]).
  - destruct Hf as (before & after & -> & Hb). induction Hb as [|a before Ha _ IH]; cbn; [by rewrite Hi|]. by rewrite Ha.
  - induction actions as [|a actions IH]; [done|]. cbn in Hf. destruct (invoked a) as [c|] eqn:Ha.
    + injection Hf as Hc <-. exists [], actions. by split.
    + destruct (IH Hf) as (before & after & -> & Hb). exists (a :: before), after. split; [done|]. by constructor.
Qed.

(** What the code finds is the invoke that funds the open notes. *)
Lemma depositor_spec actions action contract : funds_open_notes actions action contract <->
  getOpenNoteDepositor actions = Some {| od_address := address_of contract; od_action := action |} /\ invoked action = Some contract.
Proof.
  unfold funds_open_notes, getOpenNoteDepositor. pose proof (first_invoke_spec actions action contract) as Hf.
  case_bool_decide as Ho; [tauto|]. split; [tauto|]. by intros [? _].
Qed.

Lemma depositor_shape actions d : getOpenNoteDepositor actions = Some d ->
  exists contract, od_address d = address_of contract /\ invoked (od_action d) = Some contract /\
    funds_open_notes actions (od_action d) contract.
Proof.
  intros Hd. assert (Hi : exists c, invoked (od_action d) = Some c /\ od_address d = address_of c).
  { unfold getOpenNoteDepositor in Hd. case_bool_decide; [|done]. clear -Hd. induction actions as [|a l IH]; [done|].
    cbn in Hd. destruct (invoked a) as [c|] eqn:Ha; [|by apply IH]. injection Hd as <-. by exists c. }
  destruct Hi as (c & Hi & Ha). exists c. split; [done|]. split; [done|]. apply depositor_spec. split; [|done].
  rewrite Hd. f_equal. destruct d. cbn in *. by subst.
Qed.

(** At most one invoke funds the open notes. *)
Lemma funds_unique actions a c a' c' : funds_open_notes actions a c -> funds_open_notes actions a' c' -> a = a' /\ c = c'.
Proof.
  intros [Hd Hi]%depositor_spec [Hd' Hi']%depositor_spec. rewrite Hd in Hd'. injection Hd' as _ <-. split; congruence.
Qed.

(** Of the interactions with the depositor the first counts: the one of the first invoke. *)
Lemma interaction_first before contract compute invoke after :
  Forall (fun a => invoked a = None) before ->
  getShadowAccountInteraction (before ++ PComputeAndInvoke contract compute invoke :: after)%list (address_of contract)
    = shadowAccountInteraction compute.
Proof.
  induction 1 as [|a before Ha _ IH]; cbn.
  - unfold address_of. rewrite normalizeFelt_idem. by case_bool_decide.
  - by destruct a.
Qed.

Local Ltac no_shadow := split; [done|intros (? & ? & ? & ? & ? & ? & ? & ? & ? & ? & ?); simplify_eq].

Lemma shadow_account_spec poolCall contract compute invoke address :
  funds_open_notes (pc_actions poolCall) (PComputeAndInvoke contract compute invoke) contract ->
  getShadowAccountAddress poolCall (address_of contract) = Ok (Some address) <-> shadow_account poolCall contract compute address.
Proof.
  intros (_ & _ & before & after & Hact & Hb). unfold getShadowAccountAddress, shadow_account.
  rewrite Hact, (interaction_first before contract compute invoke after Hb). unfold shadowAccountInteraction.
  destruct (viewingKey poolCall) as [key|]; [|by no_shadow].
  destruct (Nat.eqb_spec (length compute) COMPUTE_ARGUMENT_TYPES_length) as [Hl|Hl]; [|by no_shadow].
  destruct (decode_compute_arguments (map num_toHex compute)) as [[dapp nonce]|]; cbn; [|by no_shadow].
  destruct (parseFelt (userAddress poolCall)) as [user|]; [|by no_shadow].
  destruct (BigInt_of_string (normalizeFelt (address_of contract))) as [anonymizer|]; [|by no_shadow].
  split.
  - intros [= <-]. by exists key, user, anonymizer, dapp, nonce.
  - intros (? & ? & ? & ? & ? & [= <-] & [= <-] & [= <-] & _ & [= <- <-] & ->). done.
Qed.

(** What follows from the addresses collected. *)
Lemma verdict_of_spec (addresses : list string) : NoDup addresses ->
  match verdict_of addresses with
  | SNone => forall x, x ∉ addresses
  | SOne a => forall x, x ∈ addresses <-> x = a
  | _ => exists x y, x <> y /\ x ∈ addresses /\ y ∈ addresses
  end.
Proof.
  intros Hnd. destruct addresses as [|a [|b l]]; cbn.
  - intros x. apply not_elem_of_nil.
  - intros x. apply list_elem_of_singleton.
  - exists a, b. apply NoDup_cons in Hnd as [Ha _]. split_and!; [|by left|by right; left].
    intros ->. apply Ha. by left.
Qed.

Lemma set_add_spec a (l : list string) : NoDup l -> NoDup (set_add a l) /\ forall x, x ∈ set_add a l <-> x ∈ l \/ x = a.
Proof.
  intros Hl. unfold set_add. case_bool_decide as Ha.
  - split; [done|]. intros x. split; [by left|by intros [?| ->]].
  - split; [apply NoDup_app; split_and!; [done|by intros x ? ->%list_elem_of_singleton|apply NoDup_singleton]|].
    intros x. by rewrite elem_of_app, list_elem_of_singleton.
Qed.
(** ** What is collected is what must be screened *)

Definition deposit_addresses (poolCall : PoolCallActions) : list string :=
  if bool_decide (PDeposit ∈ pc_actions poolCall) then [userAddress poolCall] else [].

Lemma deposit_addresses_spec poolCall :
  NoDup (deposit_addresses poolCall) /\
  forall x, x ∈ deposit_addresses poolCall <-> PDeposit ∈ pc_actions poolCall /\ x = userAddress poolCall.
Proof.
  unfold deposit_addresses. case_bool_decide as Hd.
  - split; [apply NoDup_singleton|]. intros x. rewrite list_elem_of_singleton. tauto.
  - split; [constructor|]. intros x. rewrite elem_of_nil. tauto.
Qed.

(** The subjects a transaction without an open-note depositor has, or one that needs no screening. *)
Lemma subjects_deposit poolCall x :
  (forall action contract, funds_open_notes (pc_actions poolCall) action contract ->
     getPolicy (address_of contract) = Some Exempt \/
     (getPolicy (address_of contract) = Some Delegated /\
      forall c compute invoke, action = PComputeAndInvoke c compute invoke -> createsOpenNotes invoke = false)) ->
  screening_subject poolCall x <-> x ∈ deposit_addresses poolCall.
Proof.
  intros Hno. rewrite (proj2 (deposit_addresses_spec poolCall)). split.
  - intros Hs. destruct Hs as [?|action contract Hf Hp|contract compute invoke a Hf Hp Hc Hs]; [done| |];
      destruct (Hno _ _ Hf) as [He|[He Hn]]; rewrite Hp in He; try done. by rewrite (Hn _ _ _ eq_refl) in Hc.
  - intros [Hd ->]. by apply SubjectDeposit.
Qed.

Lemma subjects_required poolCall action contract x :
  funds_open_notes (pc_actions poolCall) action contract -> getPolicy (address_of contract) = Some Required ->
  screening_subject poolCall x <-> x ∈ deposit_addresses poolCall \/ x = address_of contract.
Proof.
  intros Hf Hp. rewrite (proj2 (deposit_addresses_spec poolCall)). split.
  - intros Hs. destruct Hs as [?|action' contract' Hf' Hp'|contract' compute invoke a Hf' Hp' Hc Hs]; [by left|right|];
      destruct (funds_unique _ _ _ _ _ Hf Hf') as [_ <-]; [done|congruence].
  - intros [[Hd ->]| ->]; [by apply SubjectDeposit|by eapply SubjectRequired].
Qed.

Lemma subjects_delegated poolCall contract compute invoke a x :
  funds_open_notes (pc_actions poolCall) (PComputeAndInvoke contract compute invoke) contract ->
  getPolicy (address_of contract) = Some Delegated -> createsOpenNotes invoke = true ->
  getShadowAccountAddress poolCall (address_of contract) = Ok (Some a) ->
  screening_subject poolCall x <-> x ∈ deposit_addresses poolCall \/ x = a.
Proof.
  intros Hf Hp Hc Ha. rewrite (proj2 (deposit_addresses_spec poolCall)). split.
  - intros Hs. destruct Hs as [?|action' contract' Hf' Hp'|contract' compute' invoke' a' Hf' Hp' Hc' Hs]; [by left| |].
    + destruct (funds_unique _ _ _ _ _ Hf Hf') as [_ <-]. congruence.
    + destruct (funds_unique _ _ _ _ _ Hf Hf') as [[= <- <- <-] _]. right.
      apply (shadow_account_spec poolCall contract compute invoke a' Hf) in Hs. congruence.
  - intros [[Hd ->]| ->]; [by apply SubjectDeposit|]. eapply SubjectDelegated; try done.
    by apply (shadow_account_spec poolCall contract compute invoke a Hf).
Qed.

(** The verdict on the collected addresses. *)
Definition verdict_matches (poolCall : PoolCallActions) (r : result interceptor_error ScreenedAddress) : Prop :=
  match r with
  | Ok SNone => determined poolCall /\ forall x, ~ screening_subject poolCall x
  | Ok (SOne a) => determined poolCall /\ forall x, screening_subject poolCall x <-> x = a
  | Ok SConflict => determined poolCall /\ exists x y, x <> y /\ screening_subject poolCall x /\ screening_subject poolCall y
  | _ => ~ determined poolCall
  end.

Lemma verdict_collected poolCall addresses : determined poolCall -> NoDup addresses ->
  (forall x, screening_subject poolCall x <-> x ∈ addresses) -> verdict_matches poolCall (Ok (verdict_of addresses)).
Proof.
  intros Hd Hnd Hs. pose proof (verdict_of_spec addresses Hnd) as Hv.
  destruct addresses as [|a [|b l]]; cbn in Hv |- *; (split; [done|]).
  - intros x. by rewrite Hs.
  - intros x. by rewrite Hs.
  - destruct Hv as (x & y & ? & ? & ?). exists x, y. by rewrite !Hs.
Qed.

Lemma verdict_added poolCall a : determined poolCall ->
  (forall x, screening_subject poolCall x <-> x ∈ deposit_addresses poolCall \/ x = a) ->
  verdict_matches poolCall (Ok (verdict_of (set_add a (deposit_addresses poolCall)))).
Proof.
  intros Hd Hs. destruct (set_add_spec a (deposit_addresses poolCall)) as [Hnd Hadd].
  { apply deposit_addresses_spec. }
  apply verdict_collected; [done|done|]. intros x. by rewrite Hs, Hadd.
Qed.
Lemma determined_plain poolCall :
  (forall action contract, funds_open_notes (pc_actions poolCall) action contract ->
     getPolicy (address_of contract) <> None /\
     (getPolicy (address_of contract) = Some Delegated -> forall c compute invoke,
        action = PComputeAndInvoke c compute invoke -> createsOpenNotes invoke = false)) ->
  determined poolCall.
Proof.
  intros Hno. split.
  - intros action contract Hf. by destruct (Hno _ _ Hf).
  - intros contract compute invoke Hf Hp Hc. destruct (Hno _ _ Hf) as [_ Hn]. by rewrite (Hn Hp _ _ _ eq_refl) in Hc.
Qed.

(** A transaction whose open notes need no screening of their own. *)
Lemma verdict_deposit_only poolCall :
  (forall action contract, funds_open_notes (pc_actions poolCall) action contract ->
     getPolicy (address_of contract) = Some Exempt \/
     (getPolicy (address_of contract) = Some Delegated /\
      forall c compute invoke, action = PComputeAndInvoke c compute invoke -> createsOpenNotes invoke = false)) ->
  verdict_matches poolCall (Ok (verdict_of (deposit_addresses poolCall))).
Proof.
  intros Hno. apply verdict_collected; [|apply deposit_addresses_spec|].
  - apply determined_plain. intros action contract Hf. destruct (Hno _ _ Hf) as [Hp|[Hp Hn]]; rewrite Hp; by split.
  - intros x. by apply subjects_deposit.
Qed.

(** A delegated depositor. *)
Lemma verdict_delegated poolCall action contract :
  funds_open_notes (pc_actions poolCall) action contract -> getPolicy (address_of contract) = Some Delegated ->
  verdict_matches poolCall
    (delegated ← getDelegatedAddress poolCall {| od_address := address_of contract; od_action := action |};
     Ok (match delegated with
         | SOne address => verdict_of (set_add address (deposit_addresses poolCall))
         | SNone => verdict_of (deposit_addresses poolCall)
         | other => other
         end)).
Proof.
  intros Hf Hp. unfold getDelegatedAddress. cbn [od_action od_address].
  assert (Hplain : (forall c compute invoke, action = PComputeAndInvoke c compute invoke -> createsOpenNotes invoke = false) ->
    verdict_matches poolCall (Ok (verdict_of (deposit_addresses poolCall)))).
  { intros Hn. apply verdict_deposit_only. intros a c Hf'. destruct (funds_unique _ _ _ _ _ Hf Hf') as [<- <-]. by right. }
  destruct action as [| |c|c compute invoke|]; try (by apply Hplain).
  pose proof (proj1 (proj2 Hf)) as [= <-].
  destruct (createsOpenNotes invoke) eqn:Hc; [|by apply Hplain; intros ? ? ? [= <- <- <-]].
  pose proof (fun a => shadow_account_spec poolCall c compute invoke a Hf) as Hs.
  destruct (getShadowAccountAddress poolCall (address_of c)) as [[a|]|e] eqn:Ha; cbn.
  - apply verdict_added.
    + split.
      * intros a' c' Hf'. destruct (funds_unique _ _ _ _ _ Hf Hf') as [_ <-]. by rewrite Hp.
      * intros c' compute' invoke' Hf' _ _. destruct (funds_unique _ _ _ _ _ Hf Hf') as [[= <- <- <-] _].
        exists a. by apply Hs.
    + intros x. by eapply subjects_delegated.
  - intros [_ Hd]. destruct (Hd _ _ _ Hf Hp Hc) as [a Hsa]. by apply Hs in Hsa.
  - intros [_ Hd]. destruct (Hd _ _ _ Hf Hp Hc) as [a Hsa]. by apply Hs in Hsa.
Qed.
Lemma screened_address_verdict poolAddress transaction poolCall :
  decodeClientActions transaction poolAddress = Some poolCall ->
  verdict_matches poolCall (getScreenedAddress getPolicy poolAddress transaction).
Proof.
  intros Hdec. unfold getScreenedAddress. rewrite Hdec. fold (deposit_addresses poolCall).
  destruct (getOpenNoteDepositor (pc_actions poolCall)) as [d|] eqn:Hd.
  - destruct (depositor_shape _ _ Hd) as (c & Ha & Hi & Hf). destruct d as [addr action]. cbn in Ha, Hi, Hf |- *. subst addr.
    destruct (getPolicy (address_of c)) as [[]|] eqn:Hp.
    + apply verdict_added; [|intros x; by eapply subjects_required].
      apply determined_plain. intros a c' Hf'. destruct (funds_unique _ _ _ _ _ Hf Hf') as [_ <-]. by rewrite Hp.
    + apply verdict_deposit_only. intros a c' Hf'. destruct (funds_unique _ _ _ _ _ Hf Hf') as [_ <-]. by left.
    + by apply verdict_delegated.
    + intros [Hp' _]. by apply (Hp' _ _ Hf).
  - apply verdict_deposit_only. intros a c Hf. apply depositor_spec in Hf as [Hf _]. congruence.
Qed.
End ScreenedAddress.

(** C27: The address a decoded pool call is screened for is what the pool asks for: the depositor of a
    deposit, and the open-note depositor or the shadow account behind it, as its policy says. Nobody is
    screened exactly if there is no such address, one address exactly if it is the only one, several
    are a conflict; and a policy or a shadow account that cannot be determined is never screened past. *)
Theorem screened_address_spec `{StarkCrypto} `{PoolCoder} (getPolicy : string -> option OpenNoteScreeningPolicy)
  (poolAddress : string) (transaction : ProveTxnV3) (poolCall : PoolCallActions) :
  decodeClientActions transaction poolAddress = Some poolCall ->
  match getScreenedAddress getPolicy poolAddress transaction with
  | Ok SNone => determined getPolicy poolCall /\ forall x, ~ screening_subject getPolicy poolCall x
  | Ok (SOne a) => determined getPolicy poolCall /\ forall x, screening_subject getPolicy poolCall x <-> x = a
  | Ok SConflict => determined getPolicy poolCall /\
      exists x y, x <> y /\ screening_subject getPolicy poolCall x /\ screening_subject getPolicy poolCall y
  | _ => ~ determined getPolicy poolCall
  end.
Proof. exact (screened_address_verdict getPolicy poolAddress transaction poolCall). Qed.

(** ** A deposit and an open note in one transaction *)

(** A coder for one transaction: felts are spelled by [toHex], and the actions are fixed. *)
Definition toy_coder : PoolCoder := {|
  decode_actions _ := Some [PDeposit; PCreateOpenNote; PComputeAndInvoke 5 [7; 8] [1]];
  decode_compute_arguments _ := Some (7, 8);
  decode_open_notes _ := Some 1%nat;
  num_toHex := toHex;
  calculateContractAddressFromHash salt _ _ deployer := salt + deployer |}.

Definition sample_transaction : ProveTxnV3 :=
  {| tx_calldata := ["0x1"; "0X0Fe"; "0xselector"; "0x5"; "0x0A"; "0x2"; "0x0"; "0x1"; "0x2"] |}.
Definition sample_pool_call : PoolCallActions :=
  {| userAddress := "0xa"; viewingKey := Some 2; pc_actions := [PDeposit; PCreateOpenNote; PComputeAndInvoke 5 [7; 8] [1]] |}.

Lemma screened_address_spec_witness :
  @determined toy_crypto toy_coder (fun _ => Some Required) sample_pool_call /\
  exists x y, x <> y /\ @screening_subject toy_crypto toy_coder (fun _ => Some Required) sample_pool_call x /\
    @screening_subject toy_crypto toy_coder (fun _ => Some Required) sample_pool_call y.
Proof.
  exact (@screened_address_spec toy_crypto toy_coder (fun _ => Some Required) "0xfe" sample_transaction sample_pool_call eq_refl).
Defined.

(** With the user's shadow account behind the delegated contract. *)
Example delegated_subject :
  match @getScreenedAddress toy_crypto toy_coder (fun _ => Some Delegated) "0xfe"
          {| tx_calldata := tx_calldata sample_transaction |} with
  | Ok SConflict => True
  | _ => False
  end.
Proof. vm_compute. exact I. Qed.
