(* ===== verification/ScreeningInterceptor.v ===== *)
(** * The screening interceptor ([proof-interceptor/src/screening-interceptor.ts], [interceptor.ts])

    A prove request is screened by one [/screen] call that also signs: the call is retried
    within a deadline, its answer is validated as JSON, and whatever goes wrong blocks the
    transaction. The clock and the answers of the service are the class [ScreeningWorld];
    the HMAC headers of the request and the metrics are left out. *)
From Stdlib Require Import Ascii ZArith QArith Lia.
From stdpp Require Import base tactics list strings.
From S2P Require Import Prelude JsMap Convert Crypto Json PoolTransaction ScreenedAddress.

Local Open Scope string_scope.
Local Open Scope Z_scope.

(** ** The answer of the service *)

Record ScreeningSignature : Type := { issued_at : Q; sig_r : string; sig_s : string }.

(** [isScreeningSignature], returning the signature it accepts. *)
Definition isScreeningSignature (value : json) : option ScreeningSignature :=
  if is_object value then
    match field "issued_at" value, field "sig_r" value, field "sig_s" value with
    | Some (JNumber (Some at_)), Some (JString r), Some (JString s) =>
        if Qle_bool 0 at_ && HEX_FELT r && HEX_FELT s
        then Some {| issued_at := at_; sig_r := r; sig_s := s |} else None
    | _, _, _ => None
    end
  else None.

(** [isScreenResponse]: the [blocked] flag. *)
Definition isScreenResponse (value : json) : option bool :=
  if is_object value then match field "blocked" value with Some (JBool b) => Some b | _ => None end else None.

(** What [fetch] gives: an exception, or a status and a body that may not be JSON. *)
Inductive reply : Type :=
| FetchFails
| Response (ok : bool) (body : option json).

Inductive screen_result : Type := ScreenAllowed (signature : ScreeningSignature) | ScreenBlocked.

(** [callScreenEndpoint] on the service's reply; [None]: it throws. *)
Definition read_reply (r : reply) : option screen_result :=
  match r with
  | Response true (Some payload) =>
      blocked ← isScreenResponse payload;
      if (blocked : bool) then Some ScreenBlocked
      else ScreenAllowed <$> (field "signature" payload ≫= isScreeningSignature)
  | _ => None
  end.

(** ** Retrying *)

Record ScreeningConfig : Type := {
  timeoutMs : Z;
  maxRetries : Z;
  totalTimeoutMs : Z;
  sc_poolAddress : string;
  blockNonPoolTx : bool }.

(** The readings of [Date.now()], and the service: the reply to its n-th request, for an address. *)
Class ScreeningWorld := { now : nat -> Z; screen : nat -> string -> reply }.

(** What has happened: readings of the clock; of the requests sent and the waits, when and how long. *)
Record Trace : Type := { readings : nat; requests : list (Z * Z); sleeps : list (Z * Z) }.
Definition no_trace : Trace := {| readings := 0; requests := []; sleeps := [] |}.

Inductive SignOutcome : Type := Signed (signature : ScreeningSignature) | SignBlocked | SignUnavailable.

Definition exponentialBackoff (attempt : Z) : Z := Z.min (1000 * 2 ^ (attempt - 1)) 5000.

Section Interceptor.
Context {Hcrypto : StarkCrypto} {Hcoder : PoolCoder} {Hworld : ScreeningWorld}.
Context (config : ScreeningConfig).

Definition read_clock (t : Trace) : Z * Trace :=
  (now (readings t), {| readings := S (readings t); requests := requests t; sleeps := sleeps t |}).
Definition add_sleep (time ms : Z) (t : Trace) : Trace :=
  {| readings := readings t; requests := requests t; sleeps := sleeps t ++ [(time, ms)] |}.

(** One request at a time, with its timeout: the clock is read for the latency and for the HMAC timestamp. *)
Definition callScreenEndpoint (address : string) (time perCallTimeout : Z) (t : Trace) : option screen_result * Trace :=
  let '(_, t) := read_clock t in
  let '(_, t) := read_clock t in
  (read_reply (screen (length (requests t)) address),
   {| readings := readings t; requests := requests t ++ [(time, perCallTimeout)]; sleeps := sleeps t |}).

(** The wait before a retry; [None]: the deadline has passed. *)
Definition back_off (attempt deadline : Z) (t : Trace) : option Trace * Trace :=
  if 0 <? attempt then
    let '(time, t) := read_clock t in
    let remainingMs := deadline - time in
    if remainingMs <=? 0 then (None, t)
    else let t := add_sleep time (Z.min (exponentialBackoff attempt) remainingMs) t in (Some t, t)
  else (Some t, t).

(** The loop of [screenAndSign]; [n] is the number of attempts left. *)
Fixpoint attempts (n : nat) (attempt deadline : Z) (address : string) (t : Trace) : SignOutcome * Trace :=
  match n with
  | O => (SignUnavailable, t)
  | S n =>
      match back_off attempt deadline t with
      | (None, t) => (SignUnavailable, t)
      | (Some t, _) =>
          let '(time, t) := read_clock t in
          let remainingMs := deadline - time in
          if remainingMs <=? 0 then (SignUnavailable, t)
          else
            match callScreenEndpoint address time (Z.min (timeoutMs config) remainingMs) t with
            | (None, t) => attempts n (attempt + 1) deadline address t
            | (Some r, t) =>
                let '(_, t) := read_clock t in
                (match r with ScreenAllowed signature => Signed signature | ScreenBlocked => SignBlocked end, t)
            end
      end
  end.

Definition screenAndSign (address : string) : SignOutcome * Trace :=
  let '(time, t) := read_clock no_trace in
  attempts (Z.to_nat (maxRetries config + 1)) 0 (time + totalTimeoutMs config) address t.

(** ** The verdict *)

Inductive Verdict : Type :=
| Allow (signature : option ScreeningSignature)
| Block (reason : string).

Definition unresolved_reason (s : ScreenedAddress) : string :=
  match s with
  | SConflict => "multiple_screening_subjects"
  | SUnreadablePolicy => "screening_policy_unavailable"
  | _ => "shadow_account_undetermined"
  end.

Definition intercept (getPolicy : string -> option OpenNoteScreeningPolicy) (transaction : ProveTxnV3)
  : result interceptor_error Verdict :=
  if isSinglePoolCall transaction (sc_poolAddress config) then
    screened ← getScreenedAddress getPolicy (sc_poolAddress config) transaction;
    match screened with
    | SNone => Ok (Allow None)
    | SOne address =>
        Ok (match (screenAndSign address).1 with
            | SignBlocked => Block "address_blocked"
            | SignUnavailable => Block "screening_unavailable"
            | Signed signature => Allow (Some signature)
            end)
    | other => Ok (Block (unresolved_reason other))
    end
  else if blockNonPoolTx config then Ok (Block "transaction is not a direct call to the privacy pool")
  else Ok (Allow None).
End Interceptor.

(** ** Several interceptors ([runInterceptors]) *)

(** An exception blocks. *)
Definition settle (outcome : result interceptor_error Verdict) : Verdict :=
  match outcome with Ok v => v | Err _ => Block "interceptor_error" end.

(** The verdict when all allow: the first signature, in the order of the interceptors. *)
Fixpoint all_allow (verdicts : list Verdict) : Verdict :=
  match verdicts with
  | [] => Allow None
  | Allow (Some signature) :: _ => Allow (Some signature)
  | _ :: verdicts => all_allow verdicts
  end.

(** [Promise.race]: the interceptors settle in the given order; a block ends the race at once, the last
    one to settle ends it otherwise. [None]: some interceptor is still running. *)
Fixpoint race (verdicts : list Verdict) (settled : list nat) (order : list nat) : option Verdict :=
  match order with
  | [] => None
  | i :: order =>
      match verdicts !! i with
      | Some (Block reason) => Some (Block reason)
      | _ =>
          let settled := i :: settled in
          if forallb (fun k => bool_decide (k ∈ settled)) (seq 0 (length verdicts)) then Some (all_allow verdicts)
          else race verdicts settled order
      end
  end.

Definition runInterceptors (outcomes : list (result interceptor_error Verdict)) (order : list nat) : option Verdict :=
  match outcomes with
  | [] => Some (Allow None)
  | _ => race (map settle outcomes) [] order
  end.

(** The JSON-RPC answer of [createHandler] to a valid request ([proxy.ts]). *)
Definition TRANSACTION_REJECTED : Z := 10000.
Inductive rpc_answer : Type :=
| RpcError (code : Z) (message data : string)
| RpcAllowed (signature : option ScreeningSignature).
Definition answer (v : Verdict) : rpc_answer :=
  match v with
  | Block reason => RpcError TRANSACTION_REJECTED "Transaction rejected" reason
  | Allow signature => RpcAllowed signature
  end.
