(* ===== verification/ScreeningSafety.v ===== *)
(** * What the screening interceptor guarantees

    Theorems on the file [ScreeningInterceptor]: nothing is allowed that was not screened,
    the retries stay within the deadline, and one block is enough. *)
From Stdlib Require Import ZArith QArith Lia.
From stdpp Require Import base tactics list strings.
From S2P Require Import Prelude JsMap Convert Crypto Json PoolTransaction ScreenedAddress ScreeningInterceptor.

Local Open Scope string_scope.
Local Open Scope Z_scope.

(** ** The retries *)

Section Retries.
Context {Hworld : ScreeningWorld} (config : ScreeningConfig) (address : string).

(** The reply to the n-th request, as it is read. *)
Definition nth_reply (n : nat) : option screen_result := read_reply (screen n address).

(** What the trace of a run satisfies before the deadline. *)
Record trace_ok (deadline : Z) (t : Trace) : Prop := {
  t_requests : Forall (fun r => r.1 < deadline /\ r.2 <= timeoutMs config /\ r.1 + r.2 <= deadline) (requests t);
  t_sleeps : Forall (fun w => 0 < w.2 <= 5000 /\ w.1 + w.2 <= deadline) (sleeps t);
  t_failed : forall n, (n < length (requests t))%nat -> nth_reply n = None }.

(** How a run ends: the last request, if any, was answered as the outcome says and all before it failed. *)
Definition ends_with (o : SignOutcome) (requests_sent : nat) : Prop :=
  match o with
  | Signed s => exists n, requests_sent = S n /\ nth_reply n = Some (ScreenAllowed s)
  | SignBlocked => exists n, requests_sent = S n /\ nth_reply n = Some ScreenBlocked
  | SignUnavailable => forall n, (n < requests_sent)%nat -> nth_reply n = None
  end.

Definition run_ok (deadline : Z) (o : SignOutcome) (t : Trace) : Prop :=
  Forall (fun r => r.1 < deadline /\ r.2 <= timeoutMs config /\ r.1 + r.2 <= deadline) (requests t) /\
  Forall (fun w => 0 < w.2 <= 5000 /\ w.1 + w.2 <= deadline) (sleeps t) /\
  ends_with o (length (requests t)).

Lemma backoff_positive attempt : 0 < attempt -> 0 < exponentialBackoff attempt <= 5000.
Proof.
  intros Ha. unfold exponentialBackoff. pose proof (Z.pow_pos_nonneg 2 (attempt - 1) ltac:(lia) ltac:(lia)). lia.
Qed.

Lemma unavailable_ok deadline t : trace_ok deadline t -> run_ok deadline SignUnavailable t.
Proof. intros [Hr Hs Hf]. by split_and!. Qed.

(** The wait before a retry ends before the deadline. *)
Lemma back_off_ok attempt deadline t : trace_ok deadline t ->
  let '(o, t') := back_off attempt deadline t in
  trace_ok deadline t' /\ requests t' = requests t /\ match o with Some u => u = t' | None => True end.
Proof.
  intros [Hr Hs Hf]. unfold back_off. destruct (Z.ltb_spec 0 attempt) as [Ha|Ha]; [|done]. cbn [read_clock].
  destruct (Z.leb_spec (deadline - now (readings t)) 0) as [Hd|Hd]; [done|]. split; [|done]. split; [done| |done].
  cbn. apply Forall_app. split; [done|]. apply list.Forall_singleton. cbn. pose proof (backoff_positive attempt Ha). lia.
Qed.

Lemma attempts_ok n attempt deadline t : trace_ok deadline t -> 
  let '(o, t') := attempts config n attempt deadline address t in
  run_ok deadline o t' /\ (length (requests t') <= length (requests t) + n)%nat.
Proof.
  revert attempt t. induction n as [|n IH]; intros attempt t Ht; cbn [attempts].
  { split; [by apply unavailable_ok|lia]. }
  pose proof (back_off_ok attempt deadline t Ht) as Hb. destruct (back_off attempt deadline t) as [[u|] t1];
    destruct Hb as (Ht1 & Hreq & Hu); [subst u|split; [by apply unavailable_ok|rewrite Hreq; lia]].
  cbn [read_clock]. destruct (Z.leb_spec (deadline - now (readings t1)) 0) as [Hd|Hd].
  { split; [apply unavailable_ok; by destruct Ht1|cbn; rewrite Hreq; lia]. }
  unfold callScreenEndpoint. cbn [read_clock requests]. rewrite <- Hreq.
  destruct Ht1 as [Hr Hs Hf]. fold (nth_reply (length (requests t1))).
  set (entry := (now (readings t1), Z.min (timeoutMs config) (deadline - now (readings t1)))).
  assert (Hr' : Forall (fun r => r.1 < deadline /\ r.2 <= timeoutMs config /\ r.1 + r.2 <= deadline) (requests t1 ++ [entry])).
  { apply Forall_app. split; [done|]. apply list.Forall_singleton. cbn. lia. }
  destruct (nth_reply (length (requests t1))) as [r|] eqn:Hreply.
  - cbn [read_clock]. split; [|cbn; rewrite length_app; cbn; lia].
    unfold run_ok. cbn [requests sleeps]. rewrite length_app. cbn [length]. split_and!; [done|done|].
    destruct r; exists (length (requests t1)); (split; [lia|done]).
  - match goal with |- context [attempts config n (attempt + 1) deadline address ?u] =>
      specialize (IH (attempt + 1) u); assert (Hu2 : trace_ok deadline u) end.
    { split; cbn; [done|done|]. intros k. rewrite length_app. cbn. intros Hk.
      destruct (decide (k = length (requests t1))) as [->|]; [done|]. apply Hf. lia. }
    specialize (IH Hu2). destruct (attempts _ _ _ _ _ _) as [o t'] in IH |- *. destruct IH as [Hok Hlen].
    split; [done|]. revert Hlen. cbn. rewrite length_app. cbn. lia.
Qed.

Lemma screenAndSign_ok :
  let '(o, t) := screenAndSign config address in
  run_ok (now 0 + totalTimeoutMs config) o t /\ (length (requests t) <= Z.to_nat (maxRetries config + 1))%nat.
Proof.
  unfold screenAndSign. cbn [read_clock no_trace].
  pose proof (attempts_ok (Z.to_nat (maxRetries config + 1)) 0 (now 0 + totalTimeoutMs config)
    {| readings := 1; requests := []; sleeps := [] |}) as Hok. cbn [requests sleeps readings length] in *.
  apply Hok. split; [constructor|constructor|]. cbn. lia.
Qed.
End Retries.

(** C29: Screening an address sends at most [maxRetries + 1] requests; each of them starts before the
    deadline and times out by it and within [timeoutMs]; every wait is at most five seconds and ends by
    the deadline. The outcome is that of the last request: it was signed or blocked by it, after requests
    that all failed, and without such an answer the outcome is unavailable. *)
Theorem screening_within_deadline `{ScreeningWorld} (config : ScreeningConfig) (address : string) :
  let '(outcome, t) := screenAndSign config address in
  let deadline := now 0 + totalTimeoutMs config in
  (length (requests t) <= Z.to_nat (maxRetries config + 1))%nat /\
  Forall (fun r => r.1 < deadline /\ r.2 <= timeoutMs config /\ r.1 + r.2 <= deadline) (requests t) /\
  Forall (fun w => 0 < w.2 <= 5000 /\ w.1 + w.2 <= deadline) (sleeps t) /\
  match outcome with
  | Signed s => exists n, length (requests t) = S n /\ read_reply (screen n address) = Some (ScreenAllowed s)
  | SignBlocked => exists n, length (requests t) = S n /\ read_reply (screen n address) = Some ScreenBlocked
  | SignUnavailable => forall n, (n < length (requests t))%nat -> read_reply (screen n address) = None
  end.
Proof.
  pose proof (screenAndSign_ok config address) as Hok. destruct (screenAndSign config address) as [o t].
  destruct Hok as ((Hr & Hs & He) & Hlen). split_and!; [done..|]. by destruct o.
Qed.

(** A signature that was read has the shape the code asks for. *)
Lemma read_reply_shape r s : read_reply r = Some (ScreenAllowed s) ->
  HEX_FELT (sig_r s) = true /\ HEX_FELT (sig_s s) = true /\ (0 <= issued_at s)%Q.
Proof.
  destruct r as [|[] [payload|]]; try done. cbn. destruct (isScreenResponse payload) as [[]|]; try done. cbn.
  destruct (field "signature" payload) as [v|]; [|done]. cbn. unfold isScreeningSignature.
  destruct (is_object v); [|done].
  destruct (field "issued_at" v) as [[| |[q|]| | |]|]; try done.
  destruct (field "sig_r" v) as [[| | |x| |]|]; try done. destruct (field "sig_s" v) as [[| | |y| |]|]; try done.
  destruct (Qle_bool 0 q) eqn:Hq; [|done]. destruct (HEX_FELT x) eqn:Hx; [|done]. destruct (HEX_FELT y) eqn:Hy; [|done].
  intros [= <-]. cbn. split_and!; try done. by apply Qle_bool_iff.
Qed.

(** C7: A prove request is allowed only if it is no direct call to the pool and the deployment lets such
    requests pass, or its client actions do not decode, or everything that decides whom to screen could
    be determined and every address the pool asks for was screened: the service allowed it, and the
    verdict carries the signature of that very answer, which has the shape of a signature. A request
    with nobody to screen carries no signature. *)
Theorem allowed_only_if_screened `{StarkCrypto} `{PoolCoder} `{ScreeningWorld} (config : ScreeningConfig)
  (getPolicy : string -> option OpenNoteScreeningPolicy) (transaction : ProveTxnV3) (signature : option ScreeningSignature) :
  intercept config getPolicy transaction = Ok (Allow signature) ->
  (isSinglePoolCall transaction (sc_poolAddress config) = false /\ blockNonPoolTx config = false /\ signature = None) \/
  (isSinglePoolCall transaction (sc_poolAddress config) = true /\
   decodeClientActions transaction (sc_poolAddress config) = None /\ signature = None) \/
  exists poolCall, decodeClientActions transaction (sc_poolAddress config) = Some poolCall /\
    determined getPolicy poolCall /\
    ((signature = None /\ forall x, ~ screening_subject getPolicy poolCall x) \/
     exists s n address, signature = Some s /\ (forall x, screening_subject getPolicy poolCall x <-> x = address) /\
       read_reply (screen n address) = Some (ScreenAllowed s) /\
       HEX_FELT (sig_r s) = true /\ HEX_FELT (sig_s s) = true /\ (0 <= issued_at s)%Q).
Proof.
  unfold intercept. destruct (isSinglePoolCall _ _) eqn:Hpool.
  2:{ destruct (blockNonPoolTx config) eqn:Hb; [done|]. intros [= <-]. by left. }
  intros Hi. right. destruct (decodeClientActions transaction (sc_poolAddress config)) as [poolCall|] eqn:Hdec.
  2:{ left. unfold getScreenedAddress in Hi. rewrite Hdec in Hi. by injection Hi as <-. }
  right. exists poolCall. split; [done|].
  pose proof (screened_address_verdict getPolicy _ _ _ Hdec) as Hv. revert Hi.
  destruct (getScreenedAddress getPolicy (sc_poolAddress config) transaction) as [[|a| | |]|]; try done; cbn [mbind result_bind].
  - intros [= <-]. destruct Hv as [Hd Hn]. split; [done|]. by left.
  - pose proof (screenAndSign_ok config a) as Hs. destruct (screenAndSign config a) as [[s| |] t]; try done. cbn [fst].
    intros [= <-]. destruct Hv as [Hd Ha]. split; [done|right].
    destruct Hs as ((_ & _ & n & _ & Hr) & _). exists s, n, a. split_and!; try done; by apply read_reply_shape in Hr as (? & ? & ?).
Qed.

(** ** Several interceptors *)

Definition allows (outcome : result interceptor_error Verdict) : Prop := exists s, outcome = Ok (Allow s).

Lemma settle_block outcome : ~ allows outcome <-> exists r, settle outcome = Block r.
Proof.
  destruct outcome as [[s|r]|e]; cbn.
  - split; [intros Hn; elim Hn; by exists s|by intros [? ?]].
  - split; [by exists r|]. by intros _ [s Hs].
  - split; [by exists "interceptor_error"|]. by intros _ [s Hs].
Qed.

(** Outcomes that have not settled yet may be left: out-of-range indices do nothing. *)
Lemma race_spec verdicts settled order :
  (forall i v, i ∈ settled -> verdicts !! i = Some v -> exists s, v = Allow s) ->
  (forall i, (i < length verdicts)%nat -> i ∈ settled \/ i ∈ order) ->
  (exists i, (i < length verdicts)%nat /\ i ∉ settled) ->
  (exists i r, verdicts !! i = Some (Block r) /\ race verdicts settled order = Some (Block r)) \/
  ((forall i v, verdicts !! i = Some v -> exists s, v = Allow s) /\ race verdicts settled order = Some (all_allow verdicts)).
Proof.
  revert settled. induction order as [|i order IH]; intros settled Hs Hall (k & Hk & Hnk).
  { destruct (Hall k Hk) as [?|[]%elem_of_nil]; done. }
  assert (Hb : (exists r, verdicts !! i = Some (Block r)) \/ ~ exists r, verdicts !! i = Some (Block r)).
  { destruct (verdicts !! i) as [[s|r]|]; [right; by intros [? ?]|left; by exists r|right; by intros [? ?]]. }
  cbn [race]. destruct Hb as [[r Hr]|Hnb].
  { left. exists i, r. by rewrite Hr. }
  assert (Hs' : forall j v, j ∈ i :: settled -> verdicts !! j = Some v -> exists s, v = Allow s).
  { intros j v [->|Hj]%elem_of_cons Hv; [|by eapply Hs]. destruct v as [s|r]; [by exists s|]. elim Hnb. by exists r. }
  assert (Hgo : (match verdicts !! i with Some (Block reason) => Some (Block reason) | _ =>
      if forallb (fun k => bool_decide (k ∈ i :: settled)) (seq 0 (length verdicts)) then Some (all_allow verdicts)
      else race verdicts (i :: settled) order end)
    = (if forallb (fun k => bool_decide (k ∈ i :: settled)) (seq 0 (length verdicts)) then Some (all_allow verdicts)
       else race verdicts (i :: settled) order)).
  { destruct (verdicts !! i) as [[s|r]|]; try done. elim Hnb. by exists r. }
  rewrite Hgo. destruct (forallb _ _) eqn:Hdone.
  - right. split; [|done]. intros j v Hv. apply (Hs' j v); [|done].
    apply lookup_lt_Some in Hv as Hj. rewrite forallb_forall in Hdone.
    specialize (Hdone j). rewrite <- list_elem_of_In, elem_of_seq, bool_decide_eq_true in Hdone. apply Hdone. lia.
  - apply IH; [done| |].
    + intros j Hj. destruct (Hall j Hj) as [?|[->|?]%elem_of_cons]; [left; by right|left; by left|by right].
    + clear -Hdone. assert (Hex : Exists (fun k => k ∉ i :: settled) (seq 0 (length verdicts))).
      { apply not_Forall_Exists; [intros k; apply _|]. intros Hf. rewrite <- not_true_iff_false in Hdone. apply Hdone.
        apply forallb_forall. intros k Hk. apply bool_decide_eq_true. rewrite list.Forall_forall in Hf.
        by apply Hf, list_elem_of_In. }
      apply Exists_exists in Hex as (k & Hk & Hnk). rewrite elem_of_seq in Hk. exists k. split; [lia|done].
Qed.

(** The verdict of interceptors that all allow. *)
Lemma all_allow_spec outcomes : (forall i o, outcomes !! i = Some o -> allows o) ->
  match all_allow (map settle outcomes) with
  | Allow (Some s) => exists i, outcomes !! i = Some (Ok (Allow (Some s))) /\
      forall j, (j < i)%nat -> outcomes !! j = Some (Ok (Allow None))
  | Allow None => forall o, o ∈ outcomes -> o = Ok (Allow None)
  | Block _ => False
  end.
Proof.
  induction outcomes as [|o outcomes IH]; intros Hall; cbn.
  { by intros o ?%elem_of_nil. }
  destruct (Hall 0%nat o eq_refl) as [s ->]. cbn. destruct s as [s|].
  - exists 0%nat. split; [done|]. intros j Hj. lia.
  - specialize (IH (fun i => Hall (S i))). destruct (all_allow (map settle outcomes)) as [[s|]|r]; [| |done].
    + destruct IH as (i & Hi & Hlt). exists (S i). split; [done|]. intros [|j] Hj; [done|]. apply Hlt. lia.
    + intros o [->|Ho]%elem_of_cons; [done|by apply IH].
Qed.

(** Whatever order the interceptors settle in, the verdict is a block, with the reason of one that
    blocked or threw, as soon as one of them blocks; it is an allow only when all of them allow, with the
    first signature in the order of the interceptors, if there is one. *)
Theorem one_block_is_enough (outcomes : list (result interceptor_error Verdict)) (order : list nat) :
  (forall i, (i < length outcomes)%nat -> i ∈ order) ->
  match runInterceptors outcomes order with
  | Some (Block r) => exists o, o ∈ outcomes /\ settle o = Block r
  | Some (Allow (Some s)) => Forall allows outcomes /\
      exists i, outcomes !! i = Some (Ok (Allow (Some s))) /\ forall j, (j < i)%nat -> outcomes !! j = Some (Ok (Allow None))
  | Some (Allow None) => forall o, o ∈ outcomes -> o = Ok (Allow None)
  | None => False
  end.
Proof.
  intros Horder. destruct outcomes as [|o outcomes]; [by intros ? ?%elem_of_nil|]. unfold runInterceptors.
  set (os := o :: outcomes) in *.
  destruct (race_spec (map settle os) [] order) as [(i & r & Hi & ->)|[Hall ->]].
  - by intros ? ? ?%elem_of_nil.
  - intros i Hi. rewrite length_fmap in Hi. right. by apply Horder.
  - exists 0%nat. split; [cbn; lia|apply not_elem_of_nil].
  - rewrite list_lookup_fmap in Hi. destruct (os !! i) as [x|] eqn:Hx; [|done]. injection Hi as Hi.
    exists x. split; [by eapply list_elem_of_lookup_2|done].
  - assert (Hallows : forall i o, os !! i = Some o -> allows o).
    { intros i x Hx. destruct (Hall i (settle x)) as [s Hs]; [by rewrite list_lookup_fmap, Hx|].
      destruct x as [[s'|?]|?]; try done. by exists s'. }
    pose proof (all_allow_spec os Hallows) as Hv. destruct (all_allow (map settle os)) as [[s|]|r]; try done.
    split; [|done]. apply Forall_lookup. exact Hallows.
Qed.

Lemma one_block_is_enough_witness :
  exists o, o ∈ [Ok (Allow None); Err InterceptorSyntaxError; Ok (Block "address_blocked")] /\ settle o = Block "interceptor_error".
Proof.
  apply (one_block_is_enough [Ok (Allow None); Err InterceptorSyntaxError; Ok (Block "address_blocked")] [0; 1; 2]%nat).
  intros [|[|[|i]]] Hi; cbn in Hi; [by left|by right; left|by right; right; left|lia].
Defined.

(** ** A screened deposit *)

Definition sample_payload : json :=
  JObject [("blocked", JBool false); ("signature", JObject [("issued_at", JNumber (Some 3%Q)); ("sig_r", JString "0x1"); ("sig_s", JString "0x2")])].
(** The service fails once, then signs. *)
Definition sample_world : ScreeningWorld := {|
  now n := Z.of_nat n;
  screen n _ := match n with O => FetchFails | _ => Response true (Some sample_payload) end |}.
Definition sample_config : ScreeningConfig :=
  {| timeoutMs := 100; maxRetries := 2; totalTimeoutMs := 1000; sc_poolAddress := "0xfe"; blockNonPoolTx := false |}.
Definition sample_signature : ScreeningSignature := {| issued_at := 3%Q; sig_r := "0x1"; sig_s := "0x2" |}.

Lemma allowed_only_if_screened_witness :
  exists poolCall, @decodeClientActions toy_coder sample_transaction "0xfe" = Some poolCall /\
    exists s n address, Some sample_signature = Some s /\
      (forall x, @screening_subject toy_crypto toy_coder (fun _ => Some Exempt) poolCall x <-> x = address) /\
      read_reply (@screen sample_world n address) = Some (ScreenAllowed s).
Proof.
  destruct (@allowed_only_if_screened toy_crypto toy_coder sample_world sample_config (fun _ => Some Exempt)
    sample_transaction (Some sample_signature)) as [(? & ? & ?)|[(? & ? & ?)|(call & Hdec & _ & [[? ?]|(s & n & a & Hs & Ha & Hr & _)])]];
    [reflexivity|discriminate|discriminate|discriminate|].
  exists call. split; [exact Hdec|]. exists s, n, a. split; [exact Hs|]. split; [exact Ha|exact Hr].
Defined.
