(* ===== verification/ScreeningPolicy.v ===== *)
(** * The policy client ([proof-interceptor/src/screening-policy.ts])

    [OpenNoteScreeningPolicyClient] reads a depositor's policy from the pool, keeps it for a
    while, and lets concurrent callers for one address share one read. The cache of the
    package lru-cache is the class [PolicyCache], the decoder of starknet.js the class
    [PolicyDecoder]; an event is a call of [getPolicy] or the answer of the node. *)
From Stdlib Require Import Ascii ZArith Lia.
From stdpp Require Import base tactics list strings gmap.
From S2P Require Import Prelude JsMap Convert Crypto Json PoolTransaction ScreenedAddress ScreeningInterceptor.

Local Open Scope string_scope.
Local Open Scope Z_scope.

Definition MAX_CACHED_POLICIES : Z := 1024.
Definition DEFAULT_POLICY_TTL_MS : Z := 15 * 60 * 1000.
Definition DEFAULT_POLICY_TIMEOUT_MS : Z := 10000.

(** [poolCallData.decodeParameters(POLICY_TYPE, [felt])] and its active variant; [None] when it throws. *)
Class PolicyDecoder := { decode_policy : string -> option string }.

(** An LRU cache with a time to live: reading at a time may forget or reorder entries. *)
Class PolicyCache := {
  cache : Type;
  empty_cache : cache;
  cache_get : Z -> string -> cache -> option OpenNoteScreeningPolicy * cache;
  cache_set : Z -> string -> OpenNoteScreeningPolicy -> cache -> cache
}.

(** What lru-cache documents: a key reads as what was last set for it, no longer than the time to live after
    it was set. [remembers c k p t]: the cache may serve [p] for [k], set at the time [t]. *)
Class PolicyCacheLaws `{PolicyCache} (ttlMs : Z) := {
  remembers : cache -> string -> OpenNoteScreeningPolicy -> Z -> Prop;
  remembers_empty : forall k p t, ~ remembers empty_cache k p t;
  remembers_set : forall c k p t k' p' t', remembers (cache_set t k p c) k' p' t' ->
    (k' = k /\ p' = p /\ t' = t) \/ (k' <> k /\ remembers c k' p' t');
  remembers_get : forall c k t k' p' t', remembers (cache_get t k c).2 k' p' t' -> remembers c k' p' t';
  get_remembers : forall c k t p, (cache_get t k c).1 = Some p -> exists t0, remembers c k p t0 /\ t - t0 <= ttlMs
}.

(** The answer of [callContract]. *)
Inductive chain_answer : Type :=
| Felts (felts : json)
| EntrypointNotFound
| CallFails.

Definition isPolicy (variant : string) : option OpenNoteScreeningPolicy :=
  if String.eqb variant "Required" then Some Required
  else if String.eqb variant "Exempt" then Some Exempt
  else if String.eqb variant "Delegated" then Some Delegated
  else None.

Definition parsePolicy `{PolicyDecoder} (felts : json) : option OpenNoteScreeningPolicy :=
  match felts with
  | JArray [JString felt] => decode_policy felt ≫= isPolicy
  | _ => None
  end.

Definition readPolicy `{PolicyDecoder} (a : chain_answer) : option OpenNoteScreeningPolicy :=
  match a with
  | Felts felts => parsePolicy felts
  | EntrypointNotFound => Some Exempt
  | CallFails => None
  end.

(** ** The client *)

(** The cache, the callers that wait for the read in flight of an address, and what was observed: the
    answers given (to whom, for which address, when, what), the reads sent and the reads answered. *)
Record PolicyClient `{PolicyCache} : Type := {
  cachedPolicies : cache;
  pendingReads : jsmap string (list nat);
  answered : list (nat * string * Z * option OpenNoteScreeningPolicy);
  reads_sent : list string;
  reads_done : list (string * Z * option OpenNoteScreeningPolicy) }.

Inductive event : Type :=
| Call (caller : nat) (depositor : string) (time : Z)
| Settle (address : string) (a : chain_answer) (time : Z).

Section Client.
Context {Hcache : PolicyCache} {Hdecoder : PolicyDecoder}.

Definition new_PolicyClient : PolicyClient :=
  {| cachedPolicies := empty_cache; pendingReads := []; answered := []; reads_sent := []; reads_done := [] |}.

(** [readOnce]: join the read in flight, or send one. *)
Definition readOnce (caller : nat) (address : string) (c : PolicyClient) : PolicyClient :=
  match map_get address (pendingReads c) with
  | Some callers =>
      {| cachedPolicies := cachedPolicies c; pendingReads := map_set address (callers ++ [caller])%list (pendingReads c);
         answered := answered c; reads_sent := reads_sent c; reads_done := reads_done c |}
  | None =>
      {| cachedPolicies := cachedPolicies c; pendingReads := map_set address [caller] (pendingReads c);
         answered := answered c; reads_sent := (reads_sent c ++ [address])%list; reads_done := reads_done c |}
  end.

Definition getPolicy (caller : nat) (depositor : string) (time : Z) (c : PolicyClient) : PolicyClient :=
  let address := normalizeFelt depositor in
  let '(cached, cache') := cache_get time address (cachedPolicies c) in
  let c := {| cachedPolicies := cache'; pendingReads := pendingReads c; answered := answered c;
              reads_sent := reads_sent c; reads_done := reads_done c |} in
  match cached with
  | Some policy =>
      {| cachedPolicies := cachedPolicies c; pendingReads := pendingReads c;
         answered := (answered c ++ [(caller, address, time, Some policy)])%list;
         reads_sent := reads_sent c; reads_done := reads_done c |}
  | None => readOnce caller address c
  end.

(** A caller goes on: what was read is cached and returned. *)
Definition resume (address : string) (time : Z) (policy : option OpenNoteScreeningPolicy) (c : PolicyClient) (caller : nat)
  : PolicyClient :=
  {| cachedPolicies := match policy with Some p => cache_set time address p (cachedPolicies c) | None => cachedPolicies c end;
     pendingReads := pendingReads c;
     answered := (answered c ++ [(caller, address, time, policy)])%list;
     reads_sent := reads_sent c; reads_done := reads_done c |}.

(** The node answers: the read is no longer pending, and its callers go on. *)
Definition settle_read (address : string) (a : chain_answer) (time : Z) (c : PolicyClient) : PolicyClient :=
  match map_get address (pendingReads c) with
  | None => c
  | Some callers =>
      let policy := readPolicy a in
      fold_left (resume address time policy) callers
        {| cachedPolicies := cachedPolicies c; pendingReads := map_delete address (pendingReads c); answered := answered c;
           reads_sent := reads_sent c; reads_done := (reads_done c ++ [(address, time, policy)])%list |}
  end.

Definition handle (c : PolicyClient) (e : event) : PolicyClient :=
  match e with
  | Call caller depositor time => getPolicy caller depositor time c
  | Settle address a time => settle_read address a time c
  end.

Definition run_client (events : list event) : PolicyClient := fold_left handle events new_PolicyClient.

(** ** The invariant *)

Context {ttlMs : Z} {Hlaws : PolicyCacheLaws ttlMs}.

(** An answer is a failed read, or a policy that a read returned no longer than the time to live before. *)
Definition justified (c : PolicyClient) (e : nat * string * Z * option OpenNoteScreeningPolicy) : Prop :=
  let '(_, address, time, policy) := e in
  exists t0, (address, t0, policy) ∈ reads_done c /\ (policy = None -> t0 = time) /\ time - t0 <= Z.max 0 ttlMs.

Record client_ok (c : PolicyClient) : Prop := {
  c_pending : map_wf (pendingReads c);
  c_callers : forall a callers, map_get a (pendingReads c) = Some callers -> callers <> [];
  c_in_flight : forall a, length (filter (fun x => x = a) (reads_sent c))
    = (length (filter (fun r => r.1.1 = a) (reads_done c)) + (if map_has a (pendingReads c) then 1 else 0))%nat;
  c_cached : forall a p t, remembers (cachedPolicies c) a p t -> (a, t, Some p) ∈ reads_done c;
  c_answers : Forall (justified c) (answered c) }.

Lemma justified_mono c c' e : (forall r, r ∈ reads_done c -> r ∈ reads_done c') -> justified c e -> justified c' e.
Proof. destruct e as [[[? a] t] p]. intros Hr (t0 & ? & ? & ?). exists t0. auto. Qed.

Lemma new_client_ok : client_ok new_PolicyClient.
Proof. split; try done; [apply NoDup_nil_2|by intros ? ? ? ?%remembers_empty]. Qed.

Lemma readOnce_ok caller a c : client_ok c -> client_ok (readOnce caller a c).
Proof.
  intros [Hwf Hcallers Hfl Hc Ha]. unfold readOnce. destruct (map_get a (pendingReads c)) as [callers|] eqn:Hp;
    split; cbn; try done; try (by apply map_set_wf).
  - intros b l. rewrite map_get_set. case_decide; [intros [= <-]; by destruct callers|apply Hcallers].
  - intros b. rewrite Hfl. unfold map_has. rewrite map_get_set. case_decide; [subst; by rewrite Hp|done].
  - intros b l. rewrite map_get_set. case_decide; [by intros [= <-]|apply Hcallers].
  - intros b. rewrite filter_app, length_app, Hfl. unfold map_has. rewrite map_get_set. cbn [filter list_filter].
    destruct (decide (a = b)) as [->|Hab]; [rewrite Hp, decide_True by done; cbn; lia|].
    rewrite (decide_False (P := b = a)) by congruence. cbn. lia.
Qed.

Lemma getPolicy_ok caller depositor time c : client_ok c -> client_ok (getPolicy caller depositor time c).
Proof.
  intros Hok. unfold getPolicy. set (a := normalizeFelt depositor).
  pose proof (remembers_get (cachedPolicies c) a time) as Hforget.
  pose proof (get_remembers (cachedPolicies c) a time) as Hget.
  destruct (cache_get time a (cachedPolicies c)) as [[p|] cache']; cbn in Hforget, Hget.
  - destruct Hok as [Hwf Hcallers Hfl Hc Ha]. split; cbn; try done; [by eauto|]. apply Forall_app. split; [exact Ha|].
    apply list.Forall_singleton. destruct (Hget p eq_refl) as (t0 & Hr & Ht). exists t0. split; [by apply Hc|].
    split; [done|lia].
  - apply readOnce_ok. destruct Hok as [Hwf Hcallers Hfl Hc Ha]. split; cbn; try done. eauto.
Qed.

(** The callers of a read go on one after the other. *)
Lemma resume_ok a time policy callers c : client_ok c -> (a, time, policy) ∈ reads_done c ->
  client_ok (fold_left (resume a time policy) callers c).
Proof.
  revert c. induction callers as [|caller callers IH]; intros c Hok Hr; [done|]. cbn. apply IH; [|done].
  destruct Hok as [Hwf Hcallers Hfl Hc Ha]. split; cbn; try done.
  - destruct policy as [p|]; [|exact Hc]. intros b q t [(-> & -> & ->)|[_ Hb]]%remembers_set; [done|by apply Hc].
  - apply Forall_app. split; [exact Ha|]. apply list.Forall_singleton. exists time. split_and!; [done|done|lia].
Qed.

Lemma settle_ok a ans time c : client_ok c -> client_ok (settle_read a ans time c).
Proof.
  intros Hok. unfold settle_read. destruct (map_get a (pendingReads c)) as [callers|] eqn:Hp; [|done].
  apply resume_ok; [|cbn; apply elem_of_app; right; by left]. destruct Hok as [Hwf Hcallers Hfl Hc Ha]. split; cbn.
  - by apply map_delete_wf.
  - intros b l. rewrite map_get_delete by done. case_decide; [done|apply Hcallers].
  - intros b. rewrite Hfl, filter_app, length_app. unfold map_has. rewrite map_get_delete by done. cbn [filter list_filter].
    destruct (decide (b = a)) as [->|Hba].
    + rewrite Hp. cbn. destruct (decide (a = a)); [cbn; lia|done].
    + cbn. destruct (decide (a = b)); [congruence|cbn; lia].
  - intros b p t Hb. apply elem_of_app. left. by apply Hc.
  - eapply Forall_impl; [exact Ha|]. intros e. apply justified_mono. intros r Hr. cbn. apply elem_of_app. by left.
Qed.

Lemma run_client_ok events : client_ok (run_client events).
Proof.
  unfold run_client. generalize new_client_ok. generalize new_PolicyClient.
  induction events as [|e events IH]; intros c Hok; [done|]. cbn. apply IH.
  destruct e; [by apply getPolicy_ok|by apply settle_ok].
Qed.
End Client.

(** C33: In every run of the client, of each address at most one read is in flight: the reads sent exceed
    the reads answered by one exactly while the address is pending. Every answer is a read of that very
    address: a failure is the read that just failed, and a policy is what a read returned at most the
    time to live ago. *)
Theorem policies_are_fresh `{PolicyCache} `{PolicyDecoder} (ttlMs : Z) (Hlaws : PolicyCacheLaws ttlMs) (events : list event) :
  let c := run_client events in
  (forall a, length (filter (fun x => x = a) (reads_sent c))
     = (length (filter (fun r => r.1.1 = a) (reads_done c)) + (if map_has a (pendingReads c) then 1 else 0))%nat) /\
  (forall caller a time p, (caller, a, time, Some p) ∈ answered c ->
     exists t0, (a, t0, Some p) ∈ reads_done c /\ time - t0 <= Z.max 0 ttlMs) /\
  (forall caller a time, (caller, a, time, None) ∈ answered c -> (a, time, None) ∈ reads_done c).
Proof.
  intros c. destruct (run_client_ok events) as [_ _ Hfl _ Ha]. fold c in Hfl, Ha. rewrite list.Forall_forall in Ha.
  split_and!; [exact Hfl| |].
  - intros caller a time p Hin. destruct (Ha _ Hin) as (t0 & ? & _ & ?). by exists t0.
  - intros caller a time Hin. destruct (Ha _ Hin) as (t0 & Hr & Ht & _). by rewrite (Ht eq_refl) in Hr.
Qed.

(** ** A cache that keeps everything for its time to live *)

Definition list_cache : PolicyCache := {|
  cache := list (string * (OpenNoteScreeningPolicy * Z));
  empty_cache := [];
  cache_get t k c := ((e ← map_get k c; if t - e.2 <=? 100 then Some e.1 else None), c);
  cache_set t k p c := map_set k (p, t) c |}.

Definition list_cache_laws : @PolicyCacheLaws list_cache 100.
Proof.
  refine {| remembers := fun (c : @cache list_cache) k p t => map_get k c = Some (p, t) |}.
  - done.
  - intros c k p t k' p' t'. cbn. rewrite map_get_set. case_decide as Hk; [intros [= <- <-]; by left|by right].
  - done.
  - intros c k t p. cbn. destruct (map_get k c) as [[q t0]|] eqn:Hk; [|done]. cbn.
    destruct (Z.leb_spec (t - t0) 100) as [Ht|Ht]; [|done]. intros [= ->]. by exists t0.
Defined.

Definition toy_decoder : PolicyDecoder :=
  {| decode_policy felt := if String.eqb felt "0x0" then Some "Required" else if String.eqb felt "0x2" then Some "Delegated" else None |}.

(** Two callers share a read, the third is answered from the cache, a later one reads again. *)
Definition sample_events : list event :=
  [Call 1 "0x0A" 0; Call 2 "0xa" 1; Settle "0xa" (Felts (JArray [JString "0x2"])) 5; Call 3 "0xA" 50;
   Call 4 "0xa" 200; Settle "0xa" CallFails 210].

Lemma policies_are_fresh_witness :
  let c := @run_client list_cache toy_decoder sample_events in
  reads_sent c = ["0xa"; "0xa"] /\
  exists t0, ("0xa", t0, Some Delegated) ∈ reads_done c /\ 50 - t0 <= Z.max 0 100.
Proof.
  intros c. split; [reflexivity|].
  apply (proj1 (proj2 (@policies_are_fresh list_cache toy_decoder 100 list_cache_laws sample_events)) 3%nat "0xa" 50 Delegated).
  right; right; left.
Defined.
