(* ===== verification/RateLimiter.v ===== *)
(** * The rate limiter ([sdk/src/utils/rate-limiter.ts])

    [createLimiter] lets a number of calls run at once and queues the others; a call that
    ends wakes the oldest one. The woken call goes on in a later microtask, so a step of the
    relation is one microtask: a call, a woken call that goes on, or the end of a call.
    [withRetry] repeats a failed call with growing delays. *)
From Stdlib Require Import ZArith Lia.
From stdpp Require Import base tactics list relations.
From S2P Require Import Prelude.

(** ** The limiter *)

Section Limiter.
Context {task : Type} (concurrency : Z).

(** [active] and [queue] of the closure, and where the calls are: running, or woken and about to go on. *)
Record Limiter : Type := {
  active : Z;
  queue : list task;
  woken : list task;
  running : list task }.

Definition new_Limiter : Limiter := {| active := 0; queue := []; woken := []; running := [] |}.

(** [run] up to its first wait. *)
Definition run_task (t : task) (s : Limiter) : Limiter :=
  if concurrency <=? active s
  then {| active := active s; queue := queue s ++ [t]; woken := woken s; running := running s |}
  else {| active := active s + 1; queue := queue s; woken := woken s; running := running s ++ [t] |}.

(** The continuation of a call that waited in the queue. *)
Definition resume_task (s : Limiter) : option Limiter :=
  match woken s with
  | [] => None
  | t :: woken => Some {| active := active s + 1; queue := queue s; woken := woken; running := running s ++ [t] |}
  end.

(** The [finally] block, for the i-th running call. *)
Definition finish_task (i : nat) (s : Limiter) : option Limiter :=
  _ ← running s !! i;
  let s := {| active := active s - 1; queue := queue s; woken := woken s; running := delete i (running s) |} in
  Some (match queue s with
        | [] => s
        | t :: queue => {| active := active s; queue := queue; woken := woken s ++ [t]; running := running s |}
        end).

Inductive limiter_step : Limiter -> Limiter -> Prop :=
| StepRun t s : limiter_step s (run_task t s)
| StepResume s s' : resume_task s = Some s' -> limiter_step s s'
| StepFinish i s s' : finish_task i s = Some s' -> limiter_step s s'.

(** Steps where every woken call goes on before the next call is made. *)
Inductive prompt_step : Limiter -> Limiter -> Prop :=
| PromptRun t s : woken s = [] -> prompt_step s (run_task t s)
| PromptResume s s' : resume_task s = Some s' -> prompt_step s s'
| PromptFinish i s s' : finish_task i s = Some s' -> prompt_step s s'.

(** The limiter counts the running calls, and a call waits only while enough others run or are about to. *)
Record limiter_ok (s : Limiter) : Prop := {
  l_active : active s = Z.of_nat (length (running s));
  l_busy : queue s <> [] -> concurrency <= active s + Z.of_nat (length (woken s)) }.

Lemma finish_parts i s s' : finish_task i s = Some s' -> exists t,
  running s !! i = Some t /\ running s' = delete i (running s) /\ active s' = active s - 1 /\
  ((queue s = [] /\ queue s' = [] /\ woken s' = woken s) \/
   exists u q, queue s = u :: q /\ queue s' = q /\ woken s' = woken s ++ [u]).
Proof.
  unfold finish_task. destruct (running s !! i) as [t|]; [|done]. cbn. intros [= <-]. exists t. split; [done|].
  destruct (queue s) as [|u q] eqn:Hq; cbn; (split; [done|split; [done|]]); [by left|right]. by exists u, q.
Qed.

Lemma run_ok t s : limiter_ok s -> limiter_ok (run_task t s).
Proof.
  intros [Ha Hb]. unfold run_task. destruct (Z.leb_spec concurrency (active s)); split; cbn; rewrite ?length_app; cbn.
  - done.
  - lia.
  - lia.
  - intros Hq. specialize (Hb Hq). lia.
Qed.

Lemma resume_task_ok s s' : limiter_ok s -> resume_task s = Some s' -> limiter_ok s'.
Proof.
  intros [Ha Hb]. unfold resume_task. destruct (woken s) as [|t w]; [done|]. intros [= <-].
  split; cbn in *; rewrite ?length_app; cbn; [lia|]. intros Hq. specialize (Hb Hq). lia.
Qed.

Lemma finish_ok i s s' : limiter_ok s -> finish_task i s = Some s' -> limiter_ok s'.
Proof.
  intros [Ha Hb] (t & Ht & Hr & Hact & Hq)%finish_parts. pose proof (length_delete (running s) i ltac:(by eexists)) as Hlen.
  apply lookup_lt_Some in Ht. split.
  - rewrite Hr, Hact, Ha, Hlen. lia.
  - destruct Hq as [(_ & -> & _)|(u & q & Hq & -> & ->)]; [done|]. intros _. rewrite Hact, length_app. cbn.
    assert (queue s <> []) by (by rewrite Hq). specialize (Hb H). lia.
Qed.

Lemma step_ok s s' : limiter_ok s -> limiter_step s s' -> limiter_ok s'.
Proof. intros Hok Hs. destruct Hs; [by apply run_ok|by eapply resume_task_ok|by eapply finish_ok]. Qed.

(** Prompt steps keep the limit. *)
Definition within (s : Limiter) : Prop := active s + Z.of_nat (length (woken s)) <= concurrency.

Lemma prompt_within s s' : within s -> prompt_step s s' -> within s'.
Proof.
  unfold within. intros Hw Hs. revert Hw. destruct Hs as [t u Hwoken|u u' Hu|i u u' Hu]; intros Hw.
  - unfold run_task. rewrite Hwoken in Hw |- *. cbn in Hw. destruct (Z.leb_spec concurrency (active u)); cbn; rewrite ?Hwoken; cbn; lia.
  - unfold resume_task in Hu. destruct (woken u) as [|t w]; [done|]. injection Hu as <-. cbn in *. lia.
  - apply finish_parts in Hu as (t & _ & _ & -> & [(_ & _ & ->)|(v & q & _ & _ & ->)]); [lia|].
    rewrite length_app. cbn. lia.
Qed.

Lemma prompt_is_step s s' : prompt_step s s' -> limiter_step s s'.
Proof. intros Hs. destruct Hs as [t u _|u u' Hu|i u u' Hu]; by econstructor. Qed.
End Limiter.
Arguments Limiter : clear implicits.

(** In every run of the limiter, whatever the order of its microtasks, [active] is the number of
    running calls, and no call is forgotten: while calls wait in the queue, as many calls as the limit
    allows are running or woken. If every woken call goes on before the next call is made, at most
    [concurrency] calls run or are woken at any time. *)
Theorem limiter_bounds {task : Type} (concurrency : Z) (s : Limiter task) :
  (rtc (limiter_step concurrency) new_Limiter s ->
     active s = Z.of_nat (length (running s)) /\
     (queue s <> [] -> concurrency <= active s + Z.of_nat (length (woken s)))) /\
  (0 <= concurrency -> rtc (prompt_step concurrency) new_Limiter s ->
     Z.of_nat (length (running s)) + Z.of_nat (length (woken s)) <= concurrency).
Proof.
  assert (Hok : rtc (limiter_step concurrency) new_Limiter s -> limiter_ok concurrency s).
  { intros Hr. assert (H0 : limiter_ok concurrency (@new_Limiter task)) by (by split).
    revert H0. induction Hr as [|a b c Hs _ IH]; [done|]. intros Ha. apply IH. by eapply step_ok. }
  split; [intros Hr; by destruct (Hok Hr)|]. intros Hc Hr.
  assert (Hw : within concurrency s).
  { assert (H0 : within concurrency (@new_Limiter task)) by (unfold within; cbn; lia).
    clear Hok. revert H0. induction Hr as [|a b c Hs _ IH]; [done|]. intros Ha. apply IH. by eapply prompt_within. }
  assert (Hsteps : rtc (limiter_step concurrency) new_Limiter s).
  { clear -Hr. induction Hr as [|a b c Hs _ IH]; [done|]. eapply rtc_l; [by apply prompt_is_step|done]. }
  destruct (Hok Hsteps) as [<- _]. exact Hw.
Qed.

(** With a limit of one: a call ends, wakes the waiting one, and a new call starts before that goes on. *)
Definition overshoot : Limiter nat := {| active := 2; queue := []; woken := []; running := [3; 2]%nat |}.

Example limiter_overshoots : rtc (limiter_step 1) new_Limiter overshoot.
Proof.
  eapply rtc_l; [apply (StepRun 1 1%nat)|]. eapply rtc_l; [apply (StepRun 1 2%nat)|].
  eapply rtc_l; [eapply (StepFinish 1 0%nat); reflexivity|]. eapply rtc_l; [apply (StepRun 1 3%nat)|].
  eapply rtc_l; [eapply StepResume; reflexivity|]. apply rtc_refl.
Qed.

Lemma limiter_bounds_witness :
  Z.of_nat (length (running {| active := 1; queue := [2]; woken := []; running := [1] |})) + 0 <= 1.
Proof.
  apply (proj2 (@limiter_bounds nat 1 {| active := 1; queue := [2]%nat; woken := []; running := [1]%nat |})); [lia|].
  eapply rtc_l; [apply (PromptRun 1 1%nat); reflexivity|]. eapply rtc_l; [apply (PromptRun 1 2%nat); reflexivity|].
  apply rtc_refl.
Defined.

(** ** Retries *)

Section Retry.
Context {E A : Type} (fn : nat -> result E A) (baseDelayMs maxRetries : Z).

(** The loop of [withRetry]: the n-th call of [fn], and the delays. [None]: the error "Unreachable". *)
Fixpoint retry_loop (n : nat) (attempt : Z) (delays : list Z) : option (result E A) * list Z :=
  match n with
  | O => (None, delays)
  | S n =>
      match fn (Z.to_nat attempt) with
      | Ok a => (Some (Ok a), delays)
      | Err error =>
          if attempt =? maxRetries then (Some (Err error), delays)
          else retry_loop n (attempt + 1) (delays ++ [baseDelayMs * 2 ^ attempt])
      end
  end.

Definition withRetry : option (result E A) * list Z := retry_loop (Z.to_nat (maxRetries + 1)) 0 [].

(** The calls before an attempt failed. *)
Definition failed_before (n : nat) : Prop := forall k, (k < n)%nat -> exists e, fn k = Err e.

Lemma retry_loop_spec k n : 0 <= maxRetries -> Z.of_nat k + Z.of_nat n = maxRetries + 1 -> (0 < n)%nat -> failed_before k ->
  exists m, (k <= m)%nat /\ Z.of_nat m <= maxRetries /\ failed_before m /\
    retry_loop n (Z.of_nat k) (map (fun i => baseDelayMs * 2 ^ i) (seqZ 0 (Z.of_nat k)))
      = (Some (fn m), map (fun i => baseDelayMs * 2 ^ i) (seqZ 0 (Z.of_nat m))) /\
    (Z.of_nat m < maxRetries -> exists a, fn m = Ok a).
Proof.
  intros Hm. revert k. induction n as [|n IH]; intros k Hk Hn Hf; [lia|]. cbn [retry_loop]. rewrite Nat2Z.id.
  destruct (fn k) as [a|e] eqn:He.
  - exists k. rewrite He. split_and!; [lia|lia|done|done|by exists a].
  - destruct (Z.eqb_spec (Z.of_nat k) maxRetries) as [Hlast|Hlast].
    + exists k. rewrite He. split_and!; [lia|lia|done|done|lia].
    + destruct (IH (S k)) as (m & Hkm & Hmr & Hfm & Hrun & Hok); [lia|lia| |].
      { intros j Hj. destruct (decide (j = k)) as [->|]; [by exists e|]. apply Hf. lia. }
      exists m. split_and!; [lia|done|done| |done]. rewrite <- Hrun.
      replace (Z.of_nat (S k)) with (Z.of_nat k + 1) by lia. rewrite seqZ_app, fmap_app by lia. done.
Qed.
End Retry.

(** With retries, the call is made until it succeeds and at most [maxRetries + 1] times: the result is
    that of the last call made, all calls before it failed, it succeeded unless the retries were used
    up, and the n-th wait was [baseDelayMs * 2^n]. *)
Theorem withRetry_spec {E A : Type} (fn : nat -> result E A) (baseDelayMs maxRetries : Z) :
  0 <= maxRetries ->
  exists m, Z.of_nat m <= maxRetries /\ failed_before fn m /\
    withRetry fn baseDelayMs maxRetries
      = (Some (fn m), map (fun i => baseDelayMs * 2 ^ i) (seqZ 0 (Z.of_nat m))) /\
    (Z.of_nat m < maxRetries -> exists a, fn m = Ok a).
Proof.
  intros Hm. destruct (retry_loop_spec fn baseDelayMs maxRetries 0 (Z.to_nat (maxRetries + 1))) as (m & _ & H1 & H2 & H3 & H4);
    [done|lia|lia|by intros k ?; lia|]. by exists m.
Qed.

Lemma withRetry_spec_witness :
  exists m, Z.of_nat m <= 3 /\
    withRetry (fun n => if (n <? 2)%nat then Err n else Ok true) 100 3 = (Some (if (m <? 2)%nat then Err m else Ok true), map (fun i => 100 * 2 ^ i) (seqZ 0 (Z.of_nat m))).
Proof.
  destruct (withRetry_spec (fun n => if (n <? 2)%nat then Err n else Ok true) 100 3 ltac:(lia)) as (m & Hm & _ & Hr & _).
  by exists m.
Defined.

(** Without a retry budget of at least zero nothing is called at all. *)
Example withRetry_negative : withRetry (fun _ => @Ok unit bool true) 100 (-1) = (None, []).
Proof. reflexivity. Qed.
