(* ===== verification/History.v ===== *)
(** * Transaction history ([sdk/src/internal/history.ts], [action-classifier.ts])

    The history of a user as the indexer reports it: the cursor that asks for it, its wire
    format, and the classification of a transaction's raw events into actions. *)
From Stdlib Require Import Ascii ZArith Lia.
From stdpp Require Import base tactics list strings.
From S2P Require Import Prelude JsMap Convert Interfaces Channel.

Local Open Scope string_scope.
Local Open Scope Z_scope.

(** ** Types *)

(** [ChannelKind] is a string on the wire, and cast without a check. *)
Definition ChannelKind : Type := string.

Record HistorySubchannel : Type := {
  hs_channelKey : Z;
  hs_token : Z;
  hs_channelKind : ChannelKind;
  hs_counterparty : Z;
  hs_nextIndex : option Z }.

Record HistoryCursor : Type := {
  hc_subchannels : list HistorySubchannel;
  hc_beginBlockNumber : option Z;
  hc_historyComplete : bool }.

Record HistoryNote : Type := {
  hn_channelKind : ChannelKind;
  hn_token : Z;
  hn_noteIndex : Z;
  hn_noteId : Z;
  hn_counterparty : Z;
  hn_amount : Z;
  hn_salt : Z }.

Record HistoryDeposit : Type := { hd_fromAddress : Z; hd_token : Z; hd_amount : Z }.
Record HistoryWithdrawal : Type := { hw_toAddress : Z; hw_token : Z; hw_amount : Z }.
Record HistoryOpenNoteDeposit : Type := { ho_depositor : Z; ho_token : Z; ho_noteId : Z; ho_amount : Z }.

Record HistoryTransaction : Type := {
  ht_blockNumber : Z;
  ht_transactionHash : Z;
  ht_notes : list HistoryNote;
  ht_deposits : list HistoryDeposit;
  ht_withdrawals : list HistoryWithdrawal;
  ht_openNoteDeposits : list HistoryOpenNoteDeposit;
  ht_registeredPubkey : option Z }.

Record HistoryPage : Type := {
  hp_blockRef : BigNumberish;
  hp_transactions : list HistoryTransaction;
  hp_cursor : HistoryCursor }.

(** ** The wire format *)

Record ApiHistorySubchannel : Type := {
  as_channel_key : string;
  as_token : string;
  as_channel_kind : string;
  as_counterparty : string;
  as_next_index : option Z }.

Record ApiHistoryCursor : Type := {
  ac_subchannels : list ApiHistorySubchannel;
  ac_begin_block_number : option Z;
  ac_history_complete : bool }.

Record ApiHistoryNote : Type := {
  an_channel_kind : string;
  an_token : string;
  an_note_index : Z;
  an_note_id : string;
  an_counterparty : string;
  an_amount : string;
  an_salt : string }.

Record ApiHistoryDeposit : Type := { ad_user_address : string; ad_token : string; ad_amount : string }.
Record ApiHistoryWithdrawal : Type := { aw_to_address : string; aw_token : string; aw_amount : string }.
Record ApiHistoryOpenNoteDeposit : Type := { ao_depositor : string; ao_token : string; ao_note_id : string; ao_amount : string }.

Record ApiHistoryTransaction : Type := {
  at_block_number : Z;
  at_transaction_hash : string;
  at_notes : list ApiHistoryNote;
  at_deposits : list ApiHistoryDeposit;
  at_withdrawals : list ApiHistoryWithdrawal;
  at_open_note_deposits : list ApiHistoryOpenNoteDeposit;
  at_registered_pubkey : option string }.

Record ApiHistoryResponse : Type := {
  ar_block_ref : BigNumberish;
  ar_transactions : list ApiHistoryTransaction;
  ar_cursor : ApiHistoryCursor }.

(** ** The cursor *)

(** [index > 0 ? index - 1 : undefined]. *)
Definition previous_index (index : Z) : option Z := if 0 <? index then Some (index - 1) else None.

Definition incoming_subchannels (userAddress : Z) (notesCursor : NotesCursor) : list HistorySubchannel :=
  flat_map (fun e => map (fun t =>
      {| hs_channelKey := icc_channelKey e.2; hs_token := t.1;
         hs_channelKind := if e.1 =? userAddress then "self_channel" else "incoming";
         hs_counterparty := e.1; hs_nextIndex := previous_index t.2 |})
    (am_entries (noteIndexes e.2))) (am_entries (incomingChannels notesCursor)).

Definition outgoing_subchannels (userAddress : Z) (channelCursor : ChannelCursor) : list HistorySubchannel :=
  match cc_channels channelCursor with
  | None => []
  | Some channels =>
      flat_map (fun e =>
        match ch_key e.2 with
        | Some key =>
            if (key =? 0) || (e.1 =? userAddress) then []
            else map (fun t =>
              {| hs_channelKey := key; hs_token := t.1; hs_channelKind := "outgoing"; hs_counterparty := e.1;
                 hs_nextIndex := previous_index (noteNonce t.2) |}) (am_entries (ch_tokens e.2))
        | None => []
        end) (am_entries channels)
  end.

Definition buildHistoryCursor (userAddress : Z) (notesCursor : NotesCursor) (channelCursor : ChannelCursor) : HistoryCursor :=
  {| hc_subchannels := incoming_subchannels userAddress notesCursor ++ outgoing_subchannels userAddress channelCursor;
     hc_beginBlockNumber := None; hc_historyComplete := false |}.

Definition subchannelToApi (sc : HistorySubchannel) : ApiHistorySubchannel :=
  {| as_channel_key := toHex (hs_channelKey sc); as_token := toHex (hs_token sc); as_channel_kind := hs_channelKind sc;
     as_counterparty := toHex (hs_counterparty sc); as_next_index := hs_nextIndex sc |}.

Definition historyCursorToApi (cursor : HistoryCursor) : ApiHistoryCursor :=
  {| ac_subchannels := map subchannelToApi (hc_subchannels cursor); ac_begin_block_number := hc_beginBlockNumber cursor;
     ac_history_complete := hc_historyComplete cursor |}.

(** ** The response; [None] is the [SyntaxError] of [BigInt] *)

Definition subchannelOfApi (sc : ApiHistorySubchannel) : option HistorySubchannel :=
  key ← BigInt_of_string (as_channel_key sc);
  token ← BigInt_of_string (as_token sc);
  counterparty ← BigInt_of_string (as_counterparty sc);
  Some {| hs_channelKey := key; hs_token := token; hs_channelKind := as_channel_kind sc; hs_counterparty := counterparty;
          hs_nextIndex := as_next_index sc |}.

Definition cursorOfApi (cursor : ApiHistoryCursor) : option HistoryCursor :=
  subchannels ← mapM subchannelOfApi (ac_subchannels cursor);
  Some {| hc_subchannels := subchannels; hc_beginBlockNumber := ac_begin_block_number cursor;
          hc_historyComplete := ac_history_complete cursor |}.

Definition noteOfApi (note : ApiHistoryNote) : option HistoryNote :=
  token ← BigInt_of_string (an_token note);
  noteId ← BigInt_of_string (an_note_id note);
  counterparty ← BigInt_of_string (an_counterparty note);
  amount ← BigInt_of_string (an_amount note);
  salt ← BigInt_of_string (an_salt note);
  Some {| hn_channelKind := an_channel_kind note; hn_token := token; hn_noteIndex := an_note_index note; hn_noteId := noteId;
          hn_counterparty := counterparty; hn_amount := amount; hn_salt := salt |}.

Definition depositOfApi (deposit : ApiHistoryDeposit) : option HistoryDeposit :=
  from ← BigInt_of_string (ad_user_address deposit);
  token ← BigInt_of_string (ad_token deposit);
  amount ← BigInt_of_string (ad_amount deposit);
  Some {| hd_fromAddress := from; hd_token := token; hd_amount := amount |}.

Definition withdrawalOfApi (withdrawal : ApiHistoryWithdrawal) : option HistoryWithdrawal :=
  to ← BigInt_of_string (aw_to_address withdrawal);
  token ← BigInt_of_string (aw_token withdrawal);
  amount ← BigInt_of_string (aw_amount withdrawal);
  Some {| hw_toAddress := to; hw_token := token; hw_amount := amount |}.

Definition openNoteDepositOfApi (deposit : ApiHistoryOpenNoteDeposit) : option HistoryOpenNoteDeposit :=
  depositor ← BigInt_of_string (ao_depositor deposit);
  token ← BigInt_of_string (ao_token deposit);
  noteId ← BigInt_of_string (ao_note_id deposit);
  amount ← BigInt_of_string (ao_amount deposit);
  Some {| ho_depositor := depositor; ho_token := token; ho_noteId := noteId; ho_amount := amount |}.

(** [tx.registered_pubkey && {...}]: an empty string counts as absent. *)
Definition pubkeyOfApi (pubkey : option string) : option (option Z) :=
  match pubkey with
  | None | Some EmptyString => Some None
  | Some s => Some <$> BigInt_of_string s
  end.

Definition transactionOfApi (tx : ApiHistoryTransaction) : option HistoryTransaction :=
  hash ← BigInt_of_string (at_transaction_hash tx);
  notes ← mapM noteOfApi (at_notes tx);
  deposits ← mapM depositOfApi (at_deposits tx);
  withdrawals ← mapM withdrawalOfApi (at_withdrawals tx);
  openNoteDeposits ← mapM openNoteDepositOfApi (at_open_note_deposits tx);
  pubkey ← pubkeyOfApi (at_registered_pubkey tx);
  Some {| ht_blockNumber := at_block_number tx; ht_transactionHash := hash; ht_notes := notes; ht_deposits := deposits;
          ht_withdrawals := withdrawals; ht_openNoteDeposits := openNoteDeposits; ht_registeredPubkey := pubkey |}.

Definition apiResponseToHistoryPage (resp : ApiHistoryResponse) : option HistoryPage :=
  transactions ← mapM transactionOfApi (ar_transactions resp);
  cursor ← cursorOfApi (ar_cursor resp);
  Some {| hp_blockRef := ar_block_ref resp; hp_transactions := transactions; hp_cursor := cursor |}.

(** ** Round trip *)

Definition subchannel_felts (sc : HistorySubchannel) : Prop :=
  0 <= hs_channelKey sc /\ 0 <= hs_token sc /\ 0 <= hs_counterparty sc.

Lemma subchannel_roundtrip sc : subchannel_felts sc -> subchannelOfApi (subchannelToApi sc) = Some sc.
Proof.
  destruct sc as [key token kind counterparty index]. intros (Hk & Ht & Hc). cbn in Hk, Ht, Hc.
  unfold subchannelOfApi, subchannelToApi. cbn [as_channel_key as_token as_counterparty hs_channelKey hs_token hs_counterparty].
  by rewrite !BigInt_toHex by done.
Qed.

(** A history cursor that was sent to the indexer and comes back unchanged in the response is read as
    the same cursor: keys, tokens, counterparties, kinds, next indices, block and completeness. *)
Theorem history_cursor_roundtrip (cursor : HistoryCursor) (transactions : list HistoryTransaction)
  (resp : ApiHistoryResponse) :
  Forall subchannel_felts (hc_subchannels cursor) ->
  ar_cursor resp = historyCursorToApi cursor -> mapM transactionOfApi (ar_transactions resp) = Some transactions ->
  apiResponseToHistoryPage resp
    = Some {| hp_blockRef := ar_block_ref resp; hp_transactions := transactions; hp_cursor := cursor |}.
Proof.
  intros Hf Hc Ht. unfold apiResponseToHistoryPage. rewrite Ht, Hc. cbn. unfold cursorOfApi, historyCursorToApi. cbn.
  assert (Hm : mapM subchannelOfApi (map subchannelToApi (hc_subchannels cursor)) = Some (hc_subchannels cursor)).
  { induction Hf as [|sc l Hsc _ IH]; [done|]. cbn. rewrite subchannel_roundtrip by done. cbn. by rewrite IH. }
  rewrite Hm. by destruct cursor.
Qed.

Lemma history_cursor_roundtrip_witness :
  apiResponseToHistoryPage {| ar_block_ref := BN_number 7; ar_transactions := [];
    ar_cursor := historyCursorToApi {| hc_subchannels := [{| hs_channelKey := 255; hs_token := 3; hs_channelKind := "outgoing";
      hs_counterparty := 9; hs_nextIndex := Some 4 |}]; hc_beginBlockNumber := Some 12; hc_historyComplete := false |} |}
  = Some {| hp_blockRef := BN_number 7; hp_transactions := [];
    hp_cursor := {| hc_subchannels := [{| hs_channelKey := 255; hs_token := 3; hs_channelKind := "outgoing";
      hs_counterparty := 9; hs_nextIndex := Some 4 |}]; hc_beginBlockNumber := Some 12; hc_historyComplete := false |} |}.
Proof. apply history_cursor_roundtrip; [|reflexivity|reflexivity]. repeat constructor; cbn; lia. Defined.
