(* ===== verification/ActionClassifier.v ===== *)
(** * Classification of transactions ([sdk/src/internal/action-classifier.ts])

    [classifyTransaction] turns the raw events of a transaction into the actions a user sees:
    swaps, deposits, withdrawals, fees and transfers, the notes of a transfer added up. *)
From Stdlib Require Import Ascii ZArith Lia.
From stdpp Require Import base tactics list strings.
From S2P Require Import Prelude JsMap Convert Interfaces Channel History.

Local Open Scope string_scope.
Local Open Scope Z_scope.

Record SwapLeg : Type := { leg_token : Z; leg_amount : Z }.

Inductive HistoryAction : Type :=
| HDeposit (fromAddress token amount : Z)
| HWithdrawal (toAddress token amount : Z)
| HFee (toAddress token amount : Z)
| HTransferSent (toAddress token amount noteCount : Z)
| HTransferReceived (fromAddress token amount noteCount : Z)
| HSwap (executor : Z) (sent received : list SwapLeg)
| HTransferSelf (token amount noteCount : Z)
| HRegister (pubkey : Z).

Record ClassifiedTransaction : Type := {
  ct_blockNumber : Z;
  ct_transactionHash : Z;
  ct_actions : list HistoryAction }.

(** ** Swaps *)

(** The received legs by executor, in the order the executors first occur. *)
Definition add_received (swaps : jsmap Z (list SwapLeg)) (d : HistoryOpenNoteDeposit) : jsmap Z (list SwapLeg) :=
  map_set (ho_depositor d)
    ((default [] (map_get (ho_depositor d) swaps) ++ [{| leg_token := ho_token d; leg_amount := ho_amount d |}])%list) swaps.

Definition swapsByExecutor (ds : list HistoryOpenNoteDeposit) : jsmap Z (list SwapLeg) := fold_left add_received ds [].

Definition leg_of (w : HistoryWithdrawal) : SwapLeg := {| leg_token := hw_token w; leg_amount := hw_amount w |}.

(** The sent legs of an executor: the withdrawals to it from index [i] on that no swap has taken. *)
Fixpoint sent_legs (executor : Z) (i : nat) (withdrawals : list HistoryWithdrawal) (matched : list nat)
  : list SwapLeg * list nat :=
  match withdrawals with
  | [] => ([], matched)
  | w :: withdrawals =>
      if bool_decide (i ∈ matched) then sent_legs executor (S i) withdrawals matched
      else if hw_toAddress w =? executor then
        let '(legs, matched) := sent_legs executor (S i) withdrawals (matched ++ [i])%list in (leg_of w :: legs, matched)
      else sent_legs executor (S i) withdrawals matched
  end.

(** The swap actions and the indices of the withdrawals they take. *)
Fixpoint swap_actions (swaps : jsmap Z (list SwapLeg)) (withdrawals : list HistoryWithdrawal) (matched : list nat)
  : list HistoryAction * list nat :=
  match swaps with
  | [] => ([], matched)
  | (executor, received) :: swaps =>
      let '(sent, matched) := sent_legs executor 0 withdrawals matched in
      let '(actions, matched) := swap_actions swaps withdrawals matched in
      (HSwap executor sent received :: actions, matched)
  end.

(** ** Deposits, withdrawals and fees *)

Definition deposit_action (d : HistoryDeposit) : HistoryAction := HDeposit (hd_fromAddress d) (hd_token d) (hd_amount d).

Definition withdrawal_action (feeRecipients : list Z) (w : HistoryWithdrawal) : HistoryAction :=
  (if bool_decide (hw_toAddress w ∈ feeRecipients) then HFee else HWithdrawal) (hw_toAddress w) (hw_token w) (hw_amount w).

Fixpoint withdrawal_actions (feeRecipients : list Z) (i : nat) (withdrawals : list HistoryWithdrawal) (matched : list nat)
  : list HistoryAction :=
  match withdrawals with
  | [] => []
  | w :: withdrawals =>
      if bool_decide (i ∈ matched) then withdrawal_actions feeRecipients (S i) withdrawals matched
      else withdrawal_action feeRecipients w :: withdrawal_actions feeRecipients (S i) withdrawals matched
  end.

(** ** Notes *)

Definition aggregateKey (note : HistoryNote) : string :=
  hn_channelKind note +:+ ":" +:+ bigint_toString 10 (hn_counterparty note) +:+ ":" +:+ bigint_toString 10 (hn_token note).

Record NoteAggregate : Type := { ag_note : HistoryNote; ag_totalAmount : Z; ag_noteCount : Z }.

Definition is_self (note : HistoryNote) : bool := String.eqb (hn_channelKind note) "self_channel".
Definition is_outgoing (note : HistoryNote) : bool := String.eqb (hn_channelKind note) "outgoing".

Definition add_note (aggregates : jsmap string NoteAggregate) (note : HistoryNote) : jsmap string NoteAggregate :=
  if is_self note then aggregates
  else
    map_set (aggregateKey note)
      (match map_get (aggregateKey note) aggregates with
       | Some a => {| ag_note := ag_note a; ag_totalAmount := ag_totalAmount a + hn_amount note; ag_noteCount := ag_noteCount a + 1 |}
       | None => {| ag_note := note; ag_totalAmount := hn_amount note; ag_noteCount := 1 |}
       end) aggregates.

Definition add_self_note (aggregates : jsmap Z (Z * Z)) (note : HistoryNote) : jsmap Z (Z * Z) :=
  if is_self note then
    map_set (hn_token note)
      (match map_get (hn_token note) aggregates with
       | Some (totalAmount, noteCount) => (totalAmount + hn_amount note, noteCount + 1)
       | None => (hn_amount note, 1)
       end) aggregates
  else aggregates.

Definition noteAggregates (notes : list HistoryNote) : jsmap string NoteAggregate := fold_left add_note notes [].
Definition selfChannelAggregates (notes : list HistoryNote) : jsmap Z (Z * Z) := fold_left add_self_note notes [].

Definition transfer_action (a : NoteAggregate) : HistoryAction :=
  (if is_outgoing (ag_note a) then HTransferSent else HTransferReceived)
    (hn_counterparty (ag_note a)) (hn_token (ag_note a)) (ag_totalAmount a) (ag_noteCount a).

(** ** The classification *)

Definition is_fee (a : HistoryAction) : bool := match a with HFee _ _ _ => true | _ => false end.
Definition is_sent (a : HistoryAction) : bool := match a with HTransferSent _ _ _ _ => true | _ => false end.
Definition is_received (a : HistoryAction) : bool := match a with HTransferReceived _ _ _ _ => true | _ => false end.

(** Steps 1 to 3. *)
Definition event_actions (feeRecipients : list Z) (tx : HistoryTransaction) : list HistoryAction :=
  let '(swaps, matched) := swap_actions (swapsByExecutor (ht_openNoteDeposits tx)) (ht_withdrawals tx) [] in
  (swaps ++ map deposit_action (ht_deposits tx)
    ++ withdrawal_actions feeRecipients 0 (ht_withdrawals tx) matched
    ++ map transfer_action (map_values (noteAggregates (ht_notes tx))))%list.

(** Step 4: a transaction with nothing else moves notes within the user's own channel. *)
Definition with_self_transfers (tx : HistoryTransaction) (actions : list HistoryAction) : list HistoryAction :=
  match filter (fun a => is_fee a = false) actions with
  | [] => (actions ++ map (fun e => HTransferSelf e.1 e.2.1 e.2.2) (selfChannelAggregates (ht_notes tx)))%list
  | _ => actions
  end.

(** Step 5: the sender of an incoming transfer paid the fee. *)
Definition without_fees (actions : list HistoryAction) : list HistoryAction :=
  if existsb is_received actions && negb (existsb is_sent actions)
  then filter (fun a => is_fee a = false) actions else actions.

Definition classifyTransaction (transaction : HistoryTransaction) (feeRecipients : list Z) : ClassifiedTransaction :=
  {| ct_blockNumber := ht_blockNumber transaction;
     ct_transactionHash := ht_transactionHash transaction;
     ct_actions :=
       match ht_registeredPubkey transaction with
       | Some pubkey => [HRegister pubkey]
       | None => without_fees (with_self_transfers transaction (event_actions feeRecipients transaction))
       end |}.

(** ** Classified transactions account for every event

    The theorem on [classifyTransaction]: for every kind of event,
    counterparty and token, the actions add up to the events, in amounts and in numbers. *)

(** What is added up, and of which events. *)
Inductive quantity : Type := Amounts | Counts.
Definition measure (q : quantity) (amount count : Z) : Z := match q with Amounts => amount | Counts => count end.

Inductive flow : Type :=
| FDeposit (from token : Z)
| FOut (to token : Z)
| FSwapIn (executor token : Z)
| FSent (to token : Z)
| FReceived (from token : Z)
| FSelf (token : Z).

Definition when (b : bool) (v : Z) : Z := if b then v else 0.

Definition leg_flow (q : quantity) (token : Z) (l : SwapLeg) : Z := when (leg_token l =? token) (measure q (leg_amount l) 1).

(** The share of an action: a fee and the sent legs of a swap are withdrawals. *)
Definition action_flow (q : quantity) (f : flow) (a : HistoryAction) : Z :=
  match f, a with
  | FDeposit x t, HDeposit x' t' amount => when ((x' =? x) && (t' =? t)) (measure q amount 1)
  | FOut x t, (HWithdrawal x' t' amount | HFee x' t' amount) => when ((x' =? x) && (t' =? t)) (measure q amount 1)
  | FOut x t, HSwap x' sent _ => when (x' =? x) (sumZ (leg_flow q t) sent)
  | FSwapIn x t, HSwap x' _ received => when (x' =? x) (sumZ (leg_flow q t) received)
  | FSent x t, HTransferSent x' t' amount count => when ((x' =? x) && (t' =? t)) (measure q amount count)
  | FReceived x t, HTransferReceived x' t' amount count => when ((x' =? x) && (t' =? t)) (measure q amount count)
  | FSelf t, HTransferSelf t' amount count => when (t' =? t) (measure q amount count)
  | _, _ => 0
  end.

Definition note_flow (q : quantity) (f : flow) (n : HistoryNote) : Z :=
  match f with
  | FSent x t => when (negb (is_self n) && is_outgoing n && (hn_counterparty n =? x) && (hn_token n =? t)) (measure q (hn_amount n) 1)
  | FReceived x t =>
      when (negb (is_self n) && negb (is_outgoing n) && (hn_counterparty n =? x) && (hn_token n =? t)) (measure q (hn_amount n) 1)
  | FSelf t => when (is_self n && (hn_token n =? t)) (measure q (hn_amount n) 1)
  | _ => 0
  end.

Definition out_flow (q : quantity) (x t : Z) (w : HistoryWithdrawal) : Z :=
  when ((hw_toAddress w =? x) && (hw_token w =? t)) (measure q (hw_amount w) 1).

(** The transaction has nothing but fees and notes of the user's own channel. *)
Definition only_self (feeRecipients : list Z) (tx : HistoryTransaction) : bool :=
  match ht_deposits tx, ht_openNoteDeposits tx with
  | [], [] => forallb (fun w => bool_decide (hw_toAddress w ∈ feeRecipients)) (ht_withdrawals tx)
              && forallb is_self (ht_notes tx)
  | _, _ => false
  end.

(** The events of a transaction. *)
Definition event_flow (feeRecipients : list Z) (q : quantity) (f : flow) (tx : HistoryTransaction) : Z :=
  match f with
  | FDeposit x t => sumZ (fun d => when ((hd_fromAddress d =? x) && (hd_token d =? t)) (measure q (hd_amount d) 1)) (ht_deposits tx)
  | FOut x t => sumZ (out_flow q x t) (ht_withdrawals tx)
  | FSwapIn x t =>
      sumZ (fun d => when ((ho_depositor d =? x) && (ho_token d =? t)) (measure q (ho_amount d) 1)) (ht_openNoteDeposits tx)
  | FSent _ _ | FReceived _ _ => sumZ (note_flow q f) (ht_notes tx)
  | FSelf _ => when (only_self feeRecipients tx) (sumZ (note_flow q f) (ht_notes tx))
  end.

Lemma when_and a b v : when (a && b) v = when a (when b v).
Proof. by destruct a, b. Qed.
Lemma when_plus b v w : when b (v + w) = when b v + when b w.
Proof. by destruct b. Qed.
Lemma measure_plus q a c a' c' : measure q (a + a') (c + c') = measure q a c + measure q a' c'.
Proof. by destruct q. Qed.
Lemma sumZ_filter {A} (P : A -> Prop) `{!forall x, Decision (P x)} (f : A -> Z) l :
  sumZ f (filter P l) = sumZ (fun x => when (bool_decide (P x)) (f x)) l.
Proof.
  induction l as [|x l IH]; [done|]. rewrite filter_cons. cbn [sumZ]. rewrite <- IH.
  case_bool_decide; [rewrite decide_True by done|rewrite decide_False by done]; cbn; lia.
Qed.
Lemma sumZ_plus {A} (f g : A -> Z) l : sumZ (fun x => f x + g x) l = sumZ f l + sumZ g l.
Proof. induction l as [|x l IH]; cbn; [done|rewrite IH; lia]. Qed.

(** ** Swaps *)

Lemma add_received_wf swaps d : map_wf swaps -> map_wf (add_received swaps d).
Proof. apply map_set_wf. Qed.

Definition received_flow (q : quantity) (x t : Z) (e : Z * list SwapLeg) : Z := when (e.1 =? x) (sumZ (leg_flow q t) e.2).

Lemma add_received_flow q x t swaps d :
  sumZ (received_flow q x t) (add_received swaps d)
    = sumZ (received_flow q x t) swaps + when ((ho_depositor d =? x) && (ho_token d =? t)) (measure q (ho_amount d) 1).
Proof.
  unfold add_received. rewrite sumZ_map_set, when_and. unfold received_flow at 3. cbn [fst snd].
  rewrite sumZ_app, when_plus. cbn [sumZ]. rewrite Z.add_0_r. unfold leg_flow at 2. cbn [leg_token leg_amount].
  destruct (map_get (ho_depositor d) swaps) as [l|]; unfold received_flow; cbn; [lia|].
  destruct (ho_depositor d =? x); cbn; lia.
Qed.

Lemma swaps_spec q x t ds :
  map_wf (swapsByExecutor ds) /\ sumZ (received_flow q x t) (swapsByExecutor ds)
    = sumZ (fun d => when ((ho_depositor d =? x) && (ho_token d =? t)) (measure q (ho_amount d) 1)) ds.
Proof.
  unfold swapsByExecutor.
  assert (Hgen : forall m, map_wf m -> map_wf (fold_left add_received ds m) /\
    sumZ (received_flow q x t) (fold_left add_received ds m) = sumZ (received_flow q x t) m
      + sumZ (fun d => when ((ho_depositor d =? x) && (ho_token d =? t)) (measure q (ho_amount d) 1)) ds);
    [|destruct (Hgen []) as [? Hs]; [apply NoDup_nil_2|by split]].
  induction ds as [|d ds IH]; intros m Hm; cbn; [split; [done|lia]|].
  destruct (IH (add_received m d) (add_received_wf m d Hm)) as [Hwf ->]. split; [done|]. rewrite add_received_flow. lia.
Qed.

(** The indices from [i] on whose withdrawal goes to one of the executors. *)
Definition taken (es : list Z) (i : nat) (ws : list HistoryWithdrawal) (matched : list nat) : Prop :=
  forall j w, ws !! j = Some w -> (i + j)%nat ∈ matched <-> hw_toAddress w ∈ es.

Lemma taken_tail es i w ws matched : taken es i (w :: ws) matched -> taken es (S i) ws matched.
Proof. intros Ht j v Hj. replace (S i + j)%nat with (i + S j)%nat by lia. by apply Ht. Qed.

Lemma taken_head es i w ws matched : taken es i (w :: ws) matched -> i ∈ matched <-> hw_toAddress w ∈ es.
Proof. intros Ht. rewrite <- (Ht 0%nat w eq_refl). by rewrite Nat.add_0_r. Qed.

Lemma sent_legs_spec executor es i ws matched : taken es i ws matched -> executor ∉ es ->
  let '(legs, matched') := sent_legs executor i ws matched in
  legs = map leg_of (filter (fun w => hw_toAddress w = executor) ws) /\
  forall n, n ∈ matched' <-> n ∈ matched \/ exists j w, n = (i + j)%nat /\ ws !! j = Some w /\ hw_toAddress w = executor.
Proof.
  intros Ht He. revert i matched Ht. induction ws as [|w ws IH]; intros i matched Ht; cbn [sent_legs].
  { split; [done|]. intros n. split; [by left|]. by intros [?|(j & v & _ & Hj & _)]. }
  pose proof (taken_head _ _ _ _ _ Ht) as Hi. pose proof (taken_tail _ _ _ _ _ Ht) as Htl. rewrite filter_cons.
  assert (Hshift : forall n, (exists j v, n = (S i + j)%nat /\ ws !! j = Some v /\ hw_toAddress v = executor) ->
    exists j v, n = (i + j)%nat /\ (w :: ws) !! j = Some v /\ hw_toAddress v = executor).
  { intros n (j & v & -> & Hj & Hv). exists (S j), v. split_and!; [lia|done|done]. }
  assert (Hback : forall n, (exists j v, n = (i + j)%nat /\ (w :: ws) !! j = Some v /\ hw_toAddress v = executor) ->
    (n = i /\ hw_toAddress w = executor) \/ exists j v, n = (S i + j)%nat /\ ws !! j = Some v /\ hw_toAddress v = executor).
  { intros n ([|j] & v & -> & Hj & Hv); [injection Hj as <-; left; split; [lia|done]|right].
    exists j, v. split_and!; [lia|done|done]. }
  case_bool_decide as Hin.
  - assert (Hne : hw_toAddress w <> executor) by (intros <-; by apply He, Hi). rewrite decide_False by done.
    specialize (IH _ _ Htl). destruct (sent_legs _ _ _ _) as [legs matched']. destruct IH as [Hl Hm]. split; [done|].
    intros n. rewrite Hm. split; [intros [?|?]; [by left|right; by apply Hshift]|].
    intros [?|[[_ ?]|?]%Hback]; [by left|done|by right].
  - destruct (Z.eqb_spec (hw_toAddress w) executor) as [Hw|Hw].
    + rewrite decide_True by done. assert (Htl' : taken es (S i) ws (matched ++ [i])%list).
      { intros j v Hj. rewrite elem_of_app, list_elem_of_singleton, <- (Htl j v Hj). split; [intros [?|?]; [done|lia]|by left]. }
      specialize (IH _ _ Htl'). destruct (sent_legs _ _ _ _) as [legs matched']. destruct IH as [-> Hm]. split; [done|].
      intros n. rewrite Hm, elem_of_app, list_elem_of_singleton. split.
      * intros [[?| ->]|?]; [by left|right; exists 0%nat, w; split_and!; [lia|done|done]|right; by apply Hshift].
      * intros [?|[[-> _]|?]%Hback]; [left; by left|left; by right|by right].
    + rewrite decide_False by done. specialize (IH _ _ Htl). destruct (sent_legs _ _ _ _) as [legs matched'].
      destruct IH as [Hl Hm]. split; [done|]. intros n. rewrite Hm.
      split; [intros [?|?]; [by left|right; by apply Hshift]|].
      intros [?|[[_ ?]|?]%Hback]; [by left|done|by right].
Qed.

Lemma swap_actions_spec swaps ws es matched : taken es 0 ws matched -> NoDup (map_keys swaps) ->
  (forall e, e ∈ map_keys swaps -> e ∉ es) ->
  let '(actions, matched') := swap_actions swaps ws matched in
  actions = map (fun e => HSwap e.1 (map leg_of (filter (fun w => hw_toAddress w = e.1) ws)) e.2) swaps /\
  taken (map_keys swaps ++ es)%list 0 ws matched'.
Proof.
  revert es matched. induction swaps as [|[e received] swaps IH]; intros es matched Ht Hnd Hes; cbn [swap_actions]; [by split|].
  cbn in Hnd. apply NoDup_cons in Hnd as [He Hnd].
  pose proof (sent_legs_spec e es 0 ws matched Ht ltac:(apply Hes; by left)) as Hs.
  destruct (sent_legs e 0 ws matched) as [legs m1]. destruct Hs as [-> Hm].
  assert (Ht1 : taken (e :: es) 0 ws m1).
  { intros j w Hj. rewrite Hm, elem_of_cons, (Ht j w Hj). split.
    - intros [?|(k & v & Hk & Hv & He')]; [by right|left]. replace k with j in Hv by lia. congruence.
    - intros [Hwe|?]; [right; by exists j, w|by left]. }
  specialize (IH (e :: es) m1 Ht1 Hnd). destruct (swap_actions swaps ws m1) as [actions m2].
  destruct IH as [-> Hm2].
  { intros x Hx [->|Hin]%elem_of_cons; [done|]. apply (Hes x); [by right|done]. }
  split; [done|]. intros j w Hj. rewrite (Hm2 j w Hj). cbn. rewrite !elem_of_app, !elem_of_cons, elem_of_app. tauto.
Qed.

Lemma withdrawal_actions_spec fees es i ws matched : taken es i ws matched ->
  withdrawal_actions fees i ws matched = map (withdrawal_action fees) (filter (fun w => hw_toAddress w ∉ es) ws).
Proof.
  revert i. induction ws as [|w ws IH]; intros i Ht; [done|]. cbn [withdrawal_actions].
  rewrite (IH (S i)) by (by eapply taken_tail). rewrite filter_cons. pose proof (taken_head _ _ _ _ _ Ht) as Hi.
  case_bool_decide as Hin; [rewrite decide_False by (intros Hn; by apply Hn, Hi)|rewrite decide_True by (by intros ?%Hi)]; done.
Qed.

(** The withdrawals of all swaps are those to an executor. *)
Lemma swap_out_flow (f : HistoryWithdrawal -> Z) (x : Z) (swaps : jsmap Z (list SwapLeg)) ws :
  NoDup (map_keys swaps) -> (forall w, hw_toAddress w <> x -> f w = 0) ->
  sumZ (fun e => when (e.1 =? x) (sumZ f (filter (fun w => hw_toAddress w = e.1) ws))) swaps
    = when (bool_decide (x ∈ map_keys swaps)) (sumZ f ws).
Proof.
  intros Hnd Hf. induction swaps as [|[e l] swaps IH]; [done|]. cbn in Hnd. apply NoDup_cons in Hnd as [He Hnd].
  cbn [sumZ fst]. rewrite IH by done. cbn [map_keys]. destruct (Z.eqb_spec e x) as [->|Hx].
  - rewrite (bool_decide_eq_false_2 (x ∈ map_keys swaps)) by done. rewrite bool_decide_eq_true_2 by (by left). cbn.
    rewrite Z.add_0_r, sumZ_filter. apply sumZ_ext. intros w _. clear IH. case_bool_decide; [done|]. cbn. symmetry. by apply Hf.
  - cbn [when]. rewrite Z.add_0_l. f_equal. apply bool_decide_ext. cbn. rewrite elem_of_cons. split; [by right|]. by intros [?|?].
Qed.

(** ** Notes *)

(** An aggregate of the map stands for notes with its key. *)
Definition valid_kind (n : HistoryNote) : Prop :=
  hn_channelKind n = "incoming" \/ hn_channelKind n = "outgoing" \/ hn_channelKind n = "self_channel".

Definition aggregate_flow (q : quantity) (f : flow) (e : string * NoteAggregate) : Z := action_flow q f (transfer_action e.2).

Lemma split_kind k s : k = "incoming" \/ k = "outgoing" -> split_colon (k +:+ ":" +:+ s) = (k, s).
Proof. intros [-> | ->]; reflexivity. Qed.

(** Notes with the same key have the same kind, counterparty and token. *)
Lemma aggregateKey_inj n n' : valid_kind n -> valid_kind n' -> is_self n = false -> is_self n' = false ->
  aggregateKey n = aggregateKey n' ->
  is_outgoing n = is_outgoing n' /\ hn_counterparty n = hn_counterparty n' /\ hn_token n = hn_token n'.
Proof.
  assert (Hk : forall m, valid_kind m -> is_self m = false -> hn_channelKind m = "incoming" \/ hn_channelKind m = "outgoing").
  { intros m Hm Hs. unfold is_self in Hs. destruct Hm as [?|[?|Hm]]; [by left|by right|]. by rewrite Hm in Hs. }
  intros Hv Hv' Hs Hs' Heq. apply (f_equal split_colon) in Heq. unfold aggregateKey in Heq.
  rewrite !split_kind in Heq by auto. injection Heq as Hkind Hrest.
  apply (f_equal split_colon) in Hrest. rewrite !split_spelled in Hrest. injection Hrest as Hc Ht.
  apply (inj (bigint_toString 10)) in Hc, Ht. unfold is_outgoing. by rewrite Hkind.
Qed.

Definition aggregate_ok (e : string * NoteAggregate) : Prop :=
  e.1 = aggregateKey (ag_note e.2) /\ valid_kind (ag_note e.2) /\ is_self (ag_note e.2) = false.

(** Another note of the same key joins an aggregate. *)
Lemma joined_flow q f k n a : valid_kind n -> is_self n = false -> aggregate_ok (k, a) -> k = aggregateKey n ->
  aggregate_flow q f (k, {| ag_note := ag_note a; ag_totalAmount := ag_totalAmount a + hn_amount n; ag_noteCount := ag_noteCount a + 1 |})
    = aggregate_flow q f (k, a) + note_flow q f n.
Proof.
  intros Hv Hs (Hk & Hva & Hsa) Hkn. cbn in Hk, Hva, Hsa.
  destruct (aggregateKey_inj (ag_note a) n) as (Ho & Hc & Ht); try done; [congruence|].
  unfold aggregate_flow, transfer_action. cbn [snd ag_note ag_totalAmount ag_noteCount].
  destruct f; cbn; rewrite ?Hs, <- ?Ho, <- ?Hc, <- ?Ht; destruct (is_outgoing (ag_note a)); cbn;
    rewrite ?measure_plus, ?when_plus; lia.
Qed.

Lemma new_flow q f k n : is_self n = false ->
  aggregate_flow q f (k, {| ag_note := n; ag_totalAmount := hn_amount n; ag_noteCount := 1 |}) = note_flow q f n.
Proof.
  intros Hs. unfold aggregate_flow, transfer_action. cbn [snd ag_note ag_totalAmount ag_noteCount].
  destruct f; cbn; rewrite ?Hs; by destruct (is_outgoing n).
Qed.

Definition not_self (f : flow) : Prop := match f with FSelf _ => False | _ => True end.

Lemma add_note_flow q f m n : not_self f -> valid_kind n -> Forall aggregate_ok m ->
  Forall aggregate_ok (add_note m n) /\
  sumZ (aggregate_flow q f) (add_note m n) = sumZ (aggregate_flow q f) m + note_flow q f n.
Proof.
  intros Hf Hv Hm. unfold add_note. destruct (is_self n) eqn:Hs.
  { split; [done|]. assert (note_flow q f n = 0) as -> by (destruct f; cbn; by rewrite ?Hs). lia. }
  rewrite sumZ_map_set. destruct (map_get (aggregateKey n) m) as [a|] eqn:Ha.
  - assert (Hok : aggregate_ok (aggregateKey n, a)).
    { rewrite list.Forall_forall in Hm. by apply Hm, map_get_in. }
    rewrite joined_flow by done. split; [apply map_set_Forall; [done|exact Hok]|lia].
  - rewrite new_flow by done. split; [by apply map_set_Forall|lia].
Qed.

Lemma noteAggregates_flow q f notes : not_self f -> Forall valid_kind notes ->
  sumZ (action_flow q f) (map transfer_action (map_values (noteAggregates notes))) = sumZ (note_flow q f) notes.
Proof.
  intros Hf Hv. unfold map_values. rewrite !sumZ_map. fold (aggregate_flow q f). unfold noteAggregates.
  assert (Hgen : forall m, Forall aggregate_ok m ->
    sumZ (aggregate_flow q f) (fold_left add_note notes m) = sumZ (aggregate_flow q f) m + sumZ (note_flow q f) notes);
    [|apply Hgen; apply Forall_nil_2].
  induction Hv as [|n notes Hn _ IH]; intros m Hm; cbn; [lia|].
  destruct (add_note_flow q f m n Hf Hn Hm) as [Hok Hsum]. rewrite IH, Hsum by done. lia.
Qed.

Lemma selfAggregates_flow q t notes :
  sumZ (fun e => when (e.1 =? t) (measure q e.2.1 e.2.2)) (selfChannelAggregates notes) = sumZ (note_flow q (FSelf t)) notes.
Proof.
  unfold selfChannelAggregates.
  assert (Hgen : forall m, sumZ (fun e => when (e.1 =? t) (measure q e.2.1 e.2.2)) (fold_left add_self_note notes m)
    = sumZ (fun e => when (e.1 =? t) (measure q e.2.1 e.2.2)) m + sumZ (note_flow q (FSelf t)) notes); [|apply Hgen].
  induction notes as [|n notes IH]; intros m; cbn [fold_left sumZ]; [lia|]. rewrite IH. unfold add_self_note.
  cbn [note_flow]. destruct (is_self n); [|cbn; lia]. rewrite sumZ_map_set.
  destruct (map_get (hn_token n) m) as [[total count]|]; cbn [fst snd andb];
    rewrite ?measure_plus, ?when_plus; lia.
Qed.

(** ** Steps 1 to 3 *)

Lemma event_actions_eq fees tx :
  let swaps := swapsByExecutor (ht_openNoteDeposits tx) in
  event_actions fees tx =
    (map (fun e => HSwap e.1 (map leg_of (filter (fun w => hw_toAddress w = e.1) (ht_withdrawals tx))) e.2) swaps
     ++ map deposit_action (ht_deposits tx)
     ++ map (withdrawal_action fees) (filter (fun w => hw_toAddress w ∉ map_keys swaps) (ht_withdrawals tx))
     ++ map transfer_action (map_values (noteAggregates (ht_notes tx))))%list.
Proof.
  intros swaps. unfold event_actions. fold swaps.
  pose proof (swap_actions_spec swaps (ht_withdrawals tx) [] []) as Hs.
  destruct (swap_actions swaps (ht_withdrawals tx) []) as [actions matched]. destruct Hs as [-> Ht].
  - intros j w _. by rewrite !elem_of_nil.
  - apply (swaps_spec Amounts 0 0).
  - intros e _. apply not_elem_of_nil.
  - rewrite app_nil_r in Ht. by rewrite (withdrawal_actions_spec _ _ _ _ _ Ht).
Qed.

Lemma withdrawal_flow q f fees w :
  action_flow q f (withdrawal_action fees w) = match f with FOut x t => out_flow q x t w | _ => 0 end.
Proof. unfold withdrawal_action. case_bool_decide; by destruct f. Qed.

Lemma transfer_out q x t m : sumZ (action_flow q (FOut x t)) (map transfer_action m) = 0.
Proof. rewrite sumZ_map. apply sumZ_zero. intros a _. unfold transfer_action. by destruct (is_outgoing (ag_note a)). Qed.

(** The withdrawals: those of the swaps, and the others. *)
Lemma out_flows q x t fees (swaps : jsmap Z (list SwapLeg)) ws : NoDup (map_keys swaps) ->
  sumZ (action_flow q (FOut x t)) (map (fun e => HSwap e.1 (map leg_of (filter (fun w => hw_toAddress w = e.1) ws)) e.2) swaps)
    + sumZ (action_flow q (FOut x t)) (map (withdrawal_action fees) (filter (fun w => hw_toAddress w ∉ map_keys swaps) ws))
    = sumZ (out_flow q x t) ws.
Proof.
  intros Hnd.
  assert (Hout : forall w, hw_toAddress w <> x -> out_flow q x t w = 0).
  { intros w Hw. unfold out_flow. by rewrite (proj2 (Z.eqb_neq _ _) Hw). }
  rewrite !sumZ_map, (sumZ_filter (fun w => hw_toAddress w ∉ map_keys swaps)).
  transitivity (when (bool_decide (x ∈ map_keys swaps)) (sumZ (out_flow q x t) ws)
    + sumZ (fun w => when (bool_decide (hw_toAddress w ∉ map_keys swaps)) (out_flow q x t w)) ws).
  - f_equal; [|apply sumZ_ext; intros w _; by rewrite withdrawal_flow].
    rewrite <- (swap_out_flow _ x) by done. apply sumZ_ext. intros [e l] _. cbn [action_flow fst snd].
    destruct (Z.eqb_spec e x) as [->|He]; [cbn [when]|done]. rewrite sumZ_map, !sumZ_filter. apply sumZ_ext. intros w _.
    case_bool_decide as Hw; [|done]. cbn [when]. unfold leg_flow, out_flow. cbn. by rewrite Hw, Z.eqb_refl.
  - destruct (decide (x ∈ map_keys swaps)) as [Hx|Hx].
    + rewrite bool_decide_eq_true_2 by done. cbn [when]. rewrite (sumZ_zero (fun w => when _ _)); [lia|]. intros w _.
      case_bool_decide as Hw; [|done]. apply Hout. by intros <-.
    + rewrite bool_decide_eq_false_2 by done. cbn [when]. rewrite Z.add_0_l. apply sumZ_ext. intros w _.
      case_bool_decide as Hw; [done|]. cbn. symmetry. apply Hout. by intros <-.
Qed.

Lemma map_flow_zero {A} (f : HistoryAction -> Z) (g : A -> HistoryAction) l : (forall x, f (g x) = 0) -> sumZ f (map g l) = 0.
Proof. intros Hz. rewrite sumZ_map. apply sumZ_zero. auto. Qed.

Lemma event_actions_flow q f fees tx : not_self f -> Forall valid_kind (ht_notes tx) ->
  sumZ (action_flow q f) (event_actions fees tx) = event_flow fees q f tx.
Proof.
  intros Hf Hv. rewrite event_actions_eq, !sumZ_app. pose proof (noteAggregates_flow q f (ht_notes tx) Hf Hv) as Hnotes.
  destruct (swaps_spec q 0 0 (ht_openNoteDeposits tx)) as [Hnd _].
  set (swaps := swapsByExecutor (ht_openNoteDeposits tx)) in *.
  assert (Hw : match f with FOut _ _ => True | _ =>
    sumZ (action_flow q f) (map (withdrawal_action fees) (filter (fun w => hw_toAddress w ∉ map_keys swaps) (ht_withdrawals tx))) = 0 end).
  { destruct f; try done; apply map_flow_zero; intros w; apply withdrawal_flow. }
  destruct f as [x t|x t|x t|x t|x t|t]; [| | | | |done]; cbn [event_flow].
  - rewrite Hw, Hnotes, (map_flow_zero _ (fun e => HSwap _ _ _)) by done.
    rewrite (sumZ_zero (note_flow q (FDeposit x t))) by done. rewrite sumZ_map. cbn. lia.
  - pose proof (out_flows q x t fees swaps (ht_withdrawals tx) Hnd) as Hout.
    rewrite transfer_out, (map_flow_zero _ deposit_action) by done. lia.
  - rewrite Hw, Hnotes, (map_flow_zero _ deposit_action) by done.
    rewrite (sumZ_zero (note_flow q (FSwapIn x t))) by done. rewrite sumZ_map, !Z.add_0_r.
    destruct (swaps_spec q x t (ht_openNoteDeposits tx)) as [_ <-]. done.
  - rewrite Hw, Hnotes, (map_flow_zero _ deposit_action), (map_flow_zero _ (fun e => HSwap _ _ _)) by done. done.
  - rewrite Hw, Hnotes, (map_flow_zero _ deposit_action), (map_flow_zero _ (fun e => HSwap _ _ _)) by done. done.
Qed.

(** ** Steps 4 and 5 *)

Definition fees_known (fees : list Z) (a : HistoryAction) : Prop :=
  match a with HFee to _ _ => to ∈ fees | _ => True end.

Lemma event_actions_fees fees tx : Forall (fees_known fees) (event_actions fees tx).
Proof.
  rewrite event_actions_eq. repeat (apply Forall_app; split); apply list.Forall_fmap, Forall_true; intros x; cbn; try done.
  - unfold withdrawal_action. by case_bool_decide.
  - unfold transfer_action. by destruct (is_outgoing (ag_note x)).
Qed.

Lemma map_set_not_nil {K V} `{EqDecision K} k (v : V) (m : jsmap K V) : map_set k v m <> [].
Proof. destruct m as [|[k0 v0] m]; cbn; [done|]. by case_decide. Qed.

(** Folding writes never empties a map. *)
Lemma fold_not_nil {A B} (f : list B -> A -> list B) l m : (forall m x, m <> [] -> f m x <> []) -> m <> [] -> fold_left f l m <> [].
Proof. intros Hf. revert m. induction l as [|x l IH]; intros m Hm; [done|]. cbn. by apply IH, Hf. Qed.

Lemma swaps_nil ds : swapsByExecutor ds = [] <-> ds = [].
Proof.
  split; [|by intros ->]. unfold swapsByExecutor. destruct ds as [|d ds]; [done|]. cbn [fold_left]. intros Hn. exfalso. revert Hn.
  apply fold_not_nil; intros; apply map_set_not_nil.
Qed.

Lemma noteAggregates_nil notes : noteAggregates notes = [] <-> forallb is_self notes = true.
Proof.
  unfold noteAggregates. rewrite forallb_forall. induction notes as [|n notes IH]; [done|]. cbn [fold_left].
  unfold add_note at 2. destruct (is_self n) eqn:Hs.
  - rewrite IH. split; [|intros Hall x Hx; apply Hall; by right]. intros Hall x [<-|Hx]; [done|by apply Hall].
  - split.
    + intros Hn. exfalso. revert Hn. apply fold_not_nil; [|apply map_set_not_nil].
      intros m x Hm. unfold add_note. destruct (is_self x); [done|apply map_set_not_nil].
    + intros Hall. specialize (Hall n (or_introl eq_refl)). congruence.
Qed.

Lemma filter_map_nil {A} (g : A -> HistoryAction) l : filter (fun a => is_fee a = false) (map g l) = [] <->
  Forall (fun x => is_fee (g x) = true) l.
Proof.
  induction l as [|x l IH]; [by split|]. cbn [map]. rewrite filter_cons. destruct (is_fee (g x)) eqn:Hx.
  - rewrite decide_False by done. rewrite IH, Forall_cons, Hx. tauto.
  - rewrite decide_True by done. rewrite Forall_cons, Hx. split; [done|by intros [? _]].
Qed.

Lemma never_fee {A} (g : A -> HistoryAction) l : (forall x, is_fee (g x) = false) -> Forall (fun x => is_fee (g x) = true) l -> l = [].
Proof. intros Hg Hl. destruct Hl as [|x l Hx _]; [done|]. by rewrite Hg in Hx. Qed.

Lemma transfer_not_fee a : is_fee (transfer_action a) = false.
Proof. unfold transfer_action. by destruct (is_outgoing (ag_note a)). Qed.

Lemma only_self_spec fees tx : filter (fun a => is_fee a = false) (event_actions fees tx) = [] <-> only_self fees tx = true.
Proof.
  assert (Hfees : forall l, Forall (fun w => is_fee (withdrawal_action fees w) = true) l <->
    forallb (fun w => bool_decide (hw_toAddress w ∈ fees)) l = true).
  { intros l. rewrite forallb_forall, list.Forall_forall. split; intros Hl w Hw; specialize (Hl w ltac:(by apply list_elem_of_In));
      revert Hl; unfold withdrawal_action; by case_bool_decide. }
  rewrite event_actions_eq, !filter_app. unfold only_self. split.
  - intros [Hs%filter_map_nil [Hd%filter_map_nil [Hw Ht%filter_map_nil]%app_eq_nil]%app_eq_nil]%app_eq_nil.
    apply never_fee, swaps_nil in Hs; [|done]. apply never_fee in Hd; [|done]. apply never_fee in Ht; [|apply transfer_not_fee].
    rewrite Hs, Hd in *. cbn in Hw. rewrite filter_map_nil, filter_all in Hw by (apply Forall_true; intros w; apply not_elem_of_nil).
    apply Hfees in Hw. rewrite Hw. cbn. apply noteAggregates_nil. unfold map_values in Ht. by apply fmap_nil_inv in Ht.
  - destruct (ht_deposits tx), (ht_openNoteDeposits tx); try done. intros [Hw Hn]%andb_prop. cbn.
    apply noteAggregates_nil in Hn. rewrite Hn. cbn. rewrite app_nil_r. apply filter_map_nil, Hfees.
    rewrite filter_all; [done|]. apply Forall_true. intros w. apply not_elem_of_nil.
Qed.

Lemma with_self_flow q f fees tx : Forall valid_kind (ht_notes tx) ->
  sumZ (action_flow q f) (with_self_transfers tx (event_actions fees tx)) = event_flow fees q f tx /\
  Forall (fees_known fees) (with_self_transfers tx (event_actions fees tx)).
Proof.
  intros Hv. unfold with_self_transfers. pose proof (event_actions_fees fees tx) as Hfees.
  pose proof (only_self_spec fees tx) as Hself.
  assert (Hev : sumZ (action_flow q f) (event_actions fees tx) = match f with FSelf _ => 0 | _ => event_flow fees q f tx end).
  { destruct f; try (by apply event_actions_flow). rewrite event_actions_eq, !sumZ_app, !map_flow_zero; try done.
    - intros a. unfold transfer_action. by destruct (is_outgoing (ag_note a)).
    - intros w. apply withdrawal_flow. }
  destruct (filter (fun a => is_fee a = false) (event_actions fees tx)) as [|a l].
  - split.
    + rewrite sumZ_app, Hev. destruct f; try (rewrite map_flow_zero by done; lia). cbn [event_flow].
      rewrite (proj1 Hself eq_refl), <- selfAggregates_flow, sumZ_map. done.
    + apply Forall_app. split; [done|]. apply list.Forall_fmap, Forall_true. done.
  - split; [|done]. rewrite Hev. destruct f; try done. cbn [event_flow]. destruct (only_self fees tx); [|done].
    by discriminate (proj2 Hself eq_refl).
Qed.

(** An incoming transfer: received, and nothing sent. *)
Definition incoming_transfer (actions : list HistoryAction) : bool := existsb is_received actions && negb (existsb is_sent actions).

Lemma existsb_filter (p : HistoryAction -> bool) l : (forall a, p a = true -> is_fee a = false) ->
  existsb p (filter (fun a => is_fee a = false) l) = existsb p l.
Proof.
  intros Hp. induction l as [|a l IH]; [done|]. rewrite filter_cons. cbn. rewrite <- IH. destruct (decide (is_fee a = false)); [done|].
  destruct (p a) eqn:Ha; [|done]. elim n. by apply Hp.
Qed.

(** The actions of a classified transaction account for every event: for every counterparty and token,
    the deposits, the withdrawals (as withdrawals, fees or the sent legs of swaps), the received legs of
    swaps and the notes sent and received add up to those of the transaction, in amounts and in numbers;
    notes to oneself are reported exactly if there is nothing else but fees. The one exception is the
    fees of an incoming transfer, which are left out. *)
Theorem classification_accounts (tx : HistoryTransaction) (fees : list Z) :
  ht_registeredPubkey tx = None -> Forall valid_kind (ht_notes tx) ->
  let actions := ct_actions (classifyTransaction tx fees) in
  (forall q f, (incoming_transfer actions = true -> match f with FOut x _ => x ∉ fees | _ => True end) ->
     sumZ (action_flow q f) actions = event_flow fees q f tx) /\
  (incoming_transfer actions = true -> Forall (fun a => is_fee a = false) actions).
Proof.
  intros Hr Hv. unfold classifyTransaction. cbn [ct_actions]. rewrite Hr. cbn zeta.
  set (all := with_self_transfers tx (event_actions fees tx)). unfold without_fees. fold (incoming_transfer all).
  destruct (incoming_transfer all) eqn:Hin.
  - assert (Hin' : incoming_transfer (filter (fun a => is_fee a = false) all) = true).
    { unfold incoming_transfer in *. rewrite !existsb_filter; [done| |]; by intros []. }
    rewrite Hin'. split; [|intros _; apply list.Forall_forall; by intros a [? _]%list_elem_of_filter].
    intros q f Hf. specialize (Hf eq_refl). destruct (with_self_flow q f fees tx Hv) as [<- Hfees]. fold all in Hfees |- *.
    rewrite sumZ_filter. apply sumZ_ext. intros a Ha. rewrite list.Forall_forall in Hfees. specialize (Hfees a Ha).
    case_bool_decide as Hfee; [done|]. cbn [when]. destruct a as [| |to token amount| | | | |]; try done. cbn in Hfees.
    destruct f as [|x t| | | |]; try done. cbn. rewrite (proj2 (Z.eqb_neq to x)); [done|]. by intros ->.
  - rewrite Hin. split; [|done]. intros q f _. by apply with_self_flow.
Qed.

(** A swap: two withdrawals to the executor, one fee, one open note. *)
Definition sample_history : HistoryTransaction :=
  {| ht_blockNumber := 5; ht_transactionHash := 77;
     ht_notes := [{| hn_channelKind := "incoming"; hn_token := 2; hn_noteIndex := 0; hn_noteId := 9; hn_counterparty := 8; hn_amount := 30; hn_salt := 1 |};
                  {| hn_channelKind := "incoming"; hn_token := 2; hn_noteIndex := 1; hn_noteId := 10; hn_counterparty := 8; hn_amount := 12; hn_salt := 1 |}];
     ht_deposits := [];
     ht_withdrawals := [{| hw_toAddress := 40; hw_token := 1; hw_amount := 5 |}; {| hw_toAddress := 99; hw_token := 1; hw_amount := 1 |}];
     ht_openNoteDeposits := [{| ho_depositor := 40; ho_token := 2; ho_noteId := 9; ho_amount := 6 |}];
     ht_registeredPubkey := None |}.

Lemma classification_accounts_witness :
  ct_actions (classifyTransaction sample_history [99])
    = [HSwap 40 [{| leg_token := 1; leg_amount := 5 |}] [{| leg_token := 2; leg_amount := 6 |}]; HTransferReceived 8 2 42 2] /\
  sumZ (action_flow Amounts (FReceived 8 2)) (ct_actions (classifyTransaction sample_history [99])) = 42.
Proof.
  split; [vm_compute; reflexivity|].
  transitivity (event_flow [99] Amounts (FReceived 8 2) sample_history); [|reflexivity].
  apply (proj1 (classification_accounts sample_history [99] eq_refl ltac:(repeat constructor))). done.
Defined.
