(* ===== verification/Builders.v ===== *)
(** * The builders ([sdk/src/internal/builders.ts], [shadow-accounts.ts])

    A batch is put together by chained calls on a builder and on one sub-builder per token;
    [collectActionsAndOptions] gathers them into the [Actions] that the compiler takes. A call
    is a value of [builder_op] and changes the builder's state; addresses are bigints after
    [toBigInt]. *)
From Stdlib Require Import ZArith Lia.
From stdpp Require Import base tactics list strings.
From S2P Require Import Prelude JsMap Convert Interfaces.

(** ** The sub-builder of a token *)

Record DepositInput : Type := { in_recipient : option Z; in_amount : Z }.
Record WithdrawOutput : Type := { out_recipient : option Z; out_amount : Z }.
Record TransferOutput : Type := { to_recipient : Z; to_amount : AmountOrOpen }.

Record TokenOperationsBuilder : Type := {
  tb_token : Z;
  tb_openTokenChannels : list OpenTokenChannelAction;
  tb_useNotes : list UseNoteAction;
  tb_deposits : list DepositAction;
  tb_createNotes : list CreateNoteAction;
  tb_withdraws : list WithdrawAction;
  tb_surplusAction : option SurplusAction }.

Definition new_TokenOperationsBuilder (token : Z) : TokenOperationsBuilder :=
  {| tb_token := token; tb_openTokenChannels := []; tb_useNotes := []; tb_deposits := []; tb_createNotes := [];
     tb_withdraws := []; tb_surplusAction := None |}.

Inductive token_op : Type :=
| TSetup (recipient : Z)
| TInputs (notes : list Note)
| TDeposit (inputs : list DepositInput)
| TWithdraw (outputs : list WithdrawOutput)
| TTransfer (outputs : list TransferOutput)
| TSurplusTo (recipient : Z) (withdraw : option bool).

Definition deposit_input (token : Z) (i : DepositInput) : DepositAction :=
  {| dep_token := token; dep_amount := in_amount i; dep_noteId := None |}.
(** A deposit with a recipient is an explicit transfer too. *)
Definition deposit_note (token : Z) (i : DepositInput) : list CreateNoteAction :=
  match in_recipient i with
  | Some recipient => [{| cn_recipient := recipient; cn_token := token; cn_amount := AnAmount (in_amount i) |}]
  | None => []
  end.
Definition withdraw_output (userAddress token : Z) (o : WithdrawOutput) : WithdrawAction :=
  {| wd_recipient := default userAddress (out_recipient o); wd_token := token; wd_amount := out_amount o |}.
Definition transfer_output (token : Z) (o : TransferOutput) : CreateNoteAction :=
  {| cn_recipient := to_recipient o; cn_token := token; cn_amount := if isOpen (to_amount o) then Open else to_amount o |}.

Definition run_token_op (userAddress : Z) (op : token_op) (b : TokenOperationsBuilder) : TokenOperationsBuilder :=
  let token := tb_token b in
  match op with
  | TSetup recipient =>
      {| tb_token := token; tb_openTokenChannels := tb_openTokenChannels b ++ [{| otc_recipient := recipient; otc_token := token |}];
         tb_useNotes := tb_useNotes b; tb_deposits := tb_deposits b; tb_createNotes := tb_createNotes b;
         tb_withdraws := tb_withdraws b; tb_surplusAction := tb_surplusAction b |}
  | TInputs notes =>
      {| tb_token := token; tb_openTokenChannels := tb_openTokenChannels b;
         tb_useNotes := tb_useNotes b ++ map (fun n => {| un_token := token; un_note := n |}) notes;
         tb_deposits := tb_deposits b; tb_createNotes := tb_createNotes b;
         tb_withdraws := tb_withdraws b; tb_surplusAction := tb_surplusAction b |}
  | TDeposit inputs =>
      {| tb_token := token; tb_openTokenChannels := tb_openTokenChannels b; tb_useNotes := tb_useNotes b;
         tb_deposits := tb_deposits b ++ map (deposit_input token) inputs;
         tb_createNotes := tb_createNotes b ++ flat_map (deposit_note token) inputs;
         tb_withdraws := tb_withdraws b; tb_surplusAction := tb_surplusAction b |}
  | TWithdraw outputs =>
      {| tb_token := token; tb_openTokenChannels := tb_openTokenChannels b; tb_useNotes := tb_useNotes b;
         tb_deposits := tb_deposits b; tb_createNotes := tb_createNotes b;
         tb_withdraws := tb_withdraws b ++ map (withdraw_output userAddress token) outputs; tb_surplusAction := tb_surplusAction b |}
  | TTransfer outputs =>
      {| tb_token := token; tb_openTokenChannels := tb_openTokenChannels b; tb_useNotes := tb_useNotes b;
         tb_deposits := tb_deposits b; tb_createNotes := tb_createNotes b ++ map (transfer_output token) outputs;
         tb_withdraws := tb_withdraws b; tb_surplusAction := tb_surplusAction b |}
  | TSurplusTo recipient withdraw =>
      {| tb_token := token; tb_openTokenChannels := tb_openTokenChannels b; tb_useNotes := tb_useNotes b;
         tb_deposits := tb_deposits b; tb_createNotes := tb_createNotes b; tb_withdraws := tb_withdraws b;
         tb_surplusAction := Some {| sp_recipient := recipient; sp_token := token; sp_withdraw := withdraw |} |}
  end.

(** ** Options *)

(** [ExecuteOptions] with its fields optional; an absent field leaves the earlier one. *)
Record OptionsInput : Type := {
  oi_autoRegister : option bool;
  oi_notes : option NotesDiscoveryLevel;
  oi_channels : option DiscoveryLevel;
  oi_autoSetup : option bool;
  oi_autoSelectNotes : option AutoSelectionStrategy;
  oi_registryConst : option bool;
  oi_provingBlockId : option BigNumberish }.

Definition no_options : OptionsInput :=
  {| oi_autoRegister := None; oi_notes := None; oi_channels := None; oi_autoSetup := None; oi_autoSelectNotes := None;
     oi_registryConst := None; oi_provingBlockId := None |}.

(** [{ ...later }] over [{ ...earlier }] of one field. *)
Definition spread {A} (earlier later : option A) : option A := match later with Some _ => later | None => earlier end.

Definition merge_options (buildOptions options : OptionsInput) : ExecuteOptions :=
  {| autoRegister := default false (spread (oi_autoRegister buildOptions) (oi_autoRegister options));
     autoDiscover_notes := spread (oi_notes buildOptions) (oi_notes options);
     autoDiscover_channels := spread (oi_channels buildOptions) (oi_channels options);
     autoSetup := default false (spread (oi_autoSetup buildOptions) (oi_autoSetup options));
     autoSelectNotes := spread (oi_autoSelectNotes buildOptions) (oi_autoSelectNotes options);
     registryConst := default false (spread (oi_registryConst buildOptions) (oi_registryConst options));
     provingBlockId := spread (oi_provingBlockId buildOptions) (oi_provingBlockId options) |}.

(** ** The builder *)

Record PrivateTransfersBuilder : Type := {
  b_setViewingKey : option SetViewingKeyAction;
  b_openChannels : list OpenChannelAction;
  b_invokeExternal : option InvokeAction;
  b_computeAndInvoke : option ComputeAndInvokeAction;
  b_tokenBuilders : AddressMap TokenOperationsBuilder;
  (** The recipient and the flag of the default surplus action; its token is [undefined]. *)
  b_defaultSurplus : option (Z * option bool) }.

Definition new_PrivateTransfersBuilder : PrivateTransfersBuilder :=
  {| b_setViewingKey := None; b_openChannels := []; b_invokeExternal := None; b_computeAndInvoke := None;
     b_tokenBuilders := new_AddressMap (Some new_TokenOperationsBuilder) []; b_defaultSurplus := None |}.

Inductive builder_op : Type :=
| BRegister
| BSetup (recipient : Z)
| BInvoke (callBuilder : InvokeAction)
| BComputeAndInvoke (callBuilder : ComputeAndInvokeAction)
| BSurplusTo (recipient : Z) (withdraw : option bool)
| BWith (token : Z) (ops : list token_op).

Section Builder.
Context (userAddress : Z).

Definition assertNoInvokePhaseAction (b : PrivateTransfersBuilder) : result sdk_error unit :=
  match b_invokeExternal b, b_computeAndInvoke b with
  | None, None => Ok tt
  | _, _ => Err TwoInvokePhaseActions
  end.

Definition run_token_ops (ops : list token_op) (t : TokenOperationsBuilder) : TokenOperationsBuilder :=
  fold_left (fun t op => run_token_op userAddress op t) ops t.

(** [with(token)]: the sub-builder is made on demand, and the calls change the object in the map. *)
Definition with_token (token : Z) (ops : list token_op) (b : PrivateTransfersBuilder) : PrivateTransfersBuilder :=
  let '(tokenBuilder, builders) := am_get token None (b_tokenBuilders b) in
  {| b_setViewingKey := b_setViewingKey b; b_openChannels := b_openChannels b; b_invokeExternal := b_invokeExternal b;
     b_computeAndInvoke := b_computeAndInvoke b;
     b_tokenBuilders :=
       match tokenBuilder with Some t => am_set token (run_token_ops ops t) builders | None => builders end;
     b_defaultSurplus := b_defaultSurplus b |}.

Definition run_op (b : PrivateTransfersBuilder) (op : builder_op) : result sdk_error PrivateTransfersBuilder :=
  match op with
  | BRegister =>
      Ok {| b_setViewingKey := Some {| svk_random := None |}; b_openChannels := b_openChannels b;
            b_invokeExternal := b_invokeExternal b; b_computeAndInvoke := b_computeAndInvoke b;
            b_tokenBuilders := b_tokenBuilders b; b_defaultSurplus := b_defaultSurplus b |}
  | BSetup recipient =>
      Ok {| b_setViewingKey := b_setViewingKey b; b_openChannels := b_openChannels b ++ [{| oc_recipient := recipient |}];
            b_invokeExternal := b_invokeExternal b; b_computeAndInvoke := b_computeAndInvoke b;
            b_tokenBuilders := b_tokenBuilders b; b_defaultSurplus := b_defaultSurplus b |}
  | BInvoke callBuilder =>
      _ ← assertNoInvokePhaseAction b;
      Ok {| b_setViewingKey := b_setViewingKey b; b_openChannels := b_openChannels b;
            b_invokeExternal := Some callBuilder; b_computeAndInvoke := b_computeAndInvoke b;
            b_tokenBuilders := b_tokenBuilders b; b_defaultSurplus := b_defaultSurplus b |}
  | BComputeAndInvoke callBuilder =>
      _ ← assertNoInvokePhaseAction b;
      Ok {| b_setViewingKey := b_setViewingKey b; b_openChannels := b_openChannels b;
            b_invokeExternal := b_invokeExternal b; b_computeAndInvoke := Some callBuilder;
            b_tokenBuilders := b_tokenBuilders b; b_defaultSurplus := b_defaultSurplus b |}
  | BSurplusTo recipient withdraw =>
      Ok {| b_setViewingKey := b_setViewingKey b; b_openChannels := b_openChannels b;
            b_invokeExternal := b_invokeExternal b; b_computeAndInvoke := b_computeAndInvoke b;
            b_tokenBuilders := b_tokenBuilders b; b_defaultSurplus := Some (recipient, withdraw) |}
  | BWith token ops => Ok (with_token token ops b)
  end.

Definition run_builder (ops : list builder_op) : result sdk_error PrivateTransfersBuilder :=
  fold_result run_op ops new_PrivateTransfersBuilder.

(** The surplus action of a token: its own, or the default one. *)
Definition surplus_of (b : PrivateTransfersBuilder) (token : Z) (t : TokenOperationsBuilder) : list SurplusAction :=
  match tb_surplusAction t, b_defaultSurplus b with
  | Some s, _ => [{| sp_recipient := sp_recipient s; sp_token := token; sp_withdraw := sp_withdraw s |}]
  | None, Some (recipient, withdraw) => [{| sp_recipient := recipient; sp_token := token; sp_withdraw := withdraw |}]
  | None, None => []
  end.

Definition collectActions (b : PrivateTransfersBuilder) : Actions :=
  let entries := am_entries (b_tokenBuilders b) in
  {| setViewingKey := b_setViewingKey b;
     openChannels := Some (b_openChannels b);
     openTokenChannels := Some (flat_map (fun e => tb_openTokenChannels e.2) entries);
     deposits := Some (flat_map (fun e => tb_deposits e.2) entries);
     useNotes := Some (flat_map (fun e => tb_useNotes e.2) entries);
     createNotes := Some (flat_map (fun e => tb_createNotes e.2) entries);
     withdraws := Some (flat_map (fun e => tb_withdraws e.2) entries);
     surpluses := Some (flat_map (fun e => surplus_of b e.1 e.2) entries);
     invoke := b_invokeExternal b;
     computeAndInvoke := b_computeAndInvoke b |}.

Definition collectActionsAndOptions (buildOptions options : OptionsInput) (b : PrivateTransfersBuilder) : Actions * ExecuteOptions :=
  (collectActions b, merge_options buildOptions options).

(** ** What a call adds *)

Definition adds_openTokenChannels (token : Z) (op : token_op) : list OpenTokenChannelAction :=
  match op with TSetup recipient => [{| otc_recipient := recipient; otc_token := token |}] | _ => [] end.
Definition adds_useNotes (token : Z) (op : token_op) : list UseNoteAction :=
  match op with TInputs notes => map (fun n => {| un_token := token; un_note := n |}) notes | _ => [] end.
Definition adds_deposits (token : Z) (op : token_op) : list DepositAction :=
  match op with TDeposit inputs => map (deposit_input token) inputs | _ => [] end.
Definition adds_createNotes (token : Z) (op : token_op) : list CreateNoteAction :=
  match op with
  | TDeposit inputs => flat_map (deposit_note token) inputs
  | TTransfer outputs => map (transfer_output token) outputs
  | _ => []
  end.
Definition adds_withdraws (token : Z) (op : token_op) : list WithdrawAction :=
  match op with TWithdraw outputs => map (withdraw_output userAddress token) outputs | _ => [] end.

(** What the calls of a whole chain ask for at one token. *)
Definition asked_for {X} (adds : Z -> token_op -> list X) (token : Z) (op : builder_op) : list X :=
  match op with BWith token' ops => if decide (token' = token) then flat_map (adds token) ops else [] | _ => [] end.

(** The sub-builders are keyed by their tokens. *)
Record builders_ok (b : PrivateTransfersBuilder) : Prop := {
  bo_keys : keyConverter (b_tokenBuilders b) = (fun k => k);
  bo_factory : defaultFactory (b_tokenBuilders b) = Some new_TokenOperationsBuilder;
  bo_wf : map_wf (am_map (b_tokenBuilders b));
  bo_token : forall k t, map_get k (am_map (b_tokenBuilders b)) = Some t -> tb_token t = k }.

Lemma new_builder_ok : builders_ok new_PrivateTransfersBuilder.
Proof. split; try done. apply NoDup_nil_2. Qed.

Definition token_builder (k : Z) (b : PrivateTransfersBuilder) : TokenOperationsBuilder :=
  default (new_TokenOperationsBuilder k) (map_get k (am_map (b_tokenBuilders b))).

Lemma run_token_ops_token ops t : tb_token (run_token_ops ops t) = tb_token t.
Proof. revert t. induction ops as [|op ops IH]; intros t; [done|]. cbn. rewrite IH. by destruct op. Qed.

Lemma with_token_map token ops b : builders_ok b ->
  builders_ok (with_token token ops b) /\
  am_map (b_tokenBuilders (with_token token ops b)) =
    map_set token (run_token_ops ops (token_builder token b)) (am_map (b_tokenBuilders b)).
Proof.
  intros [Hk Hf Hwf Ht]. unfold with_token, token_builder.
  assert (Hget : am_get token None (b_tokenBuilders b) =
    (Some (default (new_TokenOperationsBuilder token) (map_get token (am_map (b_tokenBuilders b)))),
     with_map (b_tokenBuilders b) (map_set token (default (new_TokenOperationsBuilder token) (map_get token (am_map (b_tokenBuilders b))))
       (am_map (b_tokenBuilders b))))).
  { unfold am_get. rewrite Hk, Hf. unfold map_has. destruct (map_get token (am_map (b_tokenBuilders b))) as [t|] eqn:Hg; cbn.
    - rewrite Hg. f_equal. unfold with_map. destruct (b_tokenBuilders b) as [kc df m]. cbn in *. f_equal.
      clear -Hg. induction m as [|[k v] m IH]; [done|]. cbn in *. repeat case_decide; simplify_eq; [done|]. by rewrite <- IH.
    - by rewrite map_get_set_eq. }
  rewrite Hget. cbn [b_tokenBuilders]. set (t0 := default _ _).
  assert (Hm : am_map (am_set token (run_token_ops ops t0) (with_map (b_tokenBuilders b) (map_set token t0 (am_map (b_tokenBuilders b)))))
    = map_set token (run_token_ops ops t0) (am_map (b_tokenBuilders b))).
  { unfold am_set. cbn. rewrite Hk. apply map_set_set. }
  split; [|exact Hm]. split; [done|done| |].
  - cbn [b_tokenBuilders]. rewrite Hm. by apply map_set_wf.
  - cbn [b_tokenBuilders]. rewrite Hm. intros k t. rewrite map_get_set. case_decide as Hkt; [|apply Ht].
    intros [= <-]. subst k. rewrite run_token_ops_token. unfold t0.
    destruct (map_get token (am_map (b_tokenBuilders b))) as [u|] eqn:Hu; [by apply Ht|done].
Qed.

(** The maps of the other calls do not change. *)
Lemma run_op_tokens b op b' : run_op b op = Ok b' ->
  match op with BWith token ops => b' = with_token token ops b | _ => b_tokenBuilders b' = b_tokenBuilders b end.
Proof.
  destruct op; cbn; try (by intros [= <-]).
  all: destruct (assertNoInvokePhaseAction b); [|done]; cbn; by intros [= <-].
Qed.

Lemma run_op_ok b op b' : builders_ok b -> run_op b op = Ok b' -> builders_ok b'.
Proof.
  intros [Hk Hf Hwf Ht] Hrun. pose proof (run_op_tokens _ _ _ Hrun) as Hb. destruct op as [| | | | |token ops].
  6:{ subst b'. by apply with_token_map. }
  all: split; by rewrite Hb.
Qed.

(** One kind of action at one token, through a chain of calls. *)
Section Kind.
Context {X : Type} (proj : TokenOperationsBuilder -> list X) (adds : Z -> token_op -> list X) (token_of : X -> Z).
Context (proj_run : forall t op, proj (run_token_op userAddress op t) = proj t ++ adds (tb_token t) op).
Context (proj_new : forall token, proj (new_TokenOperationsBuilder token) = []).
Context (adds_token : forall token op, Forall (fun x => token_of x = token) (adds token op)).

Lemma proj_run_ops ops t : proj (run_token_ops ops t) = proj t ++ flat_map (adds (tb_token t)) ops.
Proof.
  revert t. induction ops as [|op ops IH]; intros t; cbn; [by rewrite app_nil_r|].
  rewrite IH, proj_run, <- app_assoc. f_equal. f_equal. by destruct op.
Qed.

Lemma proj_run_op token b op b' : builders_ok b -> run_op b op = Ok b' ->
  proj (token_builder token b') = proj (token_builder token b) ++ asked_for adds token op.
Proof.
  intros Hok Hrun. pose proof (run_op_tokens _ _ _ Hrun) as Hb. unfold token_builder.
  destruct op as [| | | | |token' ops]; try (rewrite Hb; cbn; by rewrite app_nil_r).
  subst b'. destruct (with_token_map token' ops b Hok) as [_ ->]. cbn. rewrite map_get_set.
  destruct (decide (token' = token)) as [<-|Hne].
  - rewrite decide_True by done. cbn. rewrite proj_run_ops. f_equal. f_equal. unfold token_builder.
    destruct (map_get token' (am_map (b_tokenBuilders b))) as [t|] eqn:Ht; [|done]. cbn. by rewrite (bo_token _ Hok _ _ Ht).
  - rewrite decide_False by congruence. by rewrite app_nil_r.
Qed.

(** All entries of a sub-builder are of its token. *)
Definition entries_ok (b : PrivateTransfersBuilder) : Prop :=
  forall token, Forall (fun x => token_of x = token) (proj (token_builder token b)).

Lemma collected_at token b : builders_ok b -> entries_ok b ->
  filter (fun x => token_of x = token) (flat_map (fun e => proj e.2) (am_entries (b_tokenBuilders b))) = proj (token_builder token b).
Proof.
  intros [_ _ Hwf _] He. unfold entries_ok, token_builder, am_entries in *. revert Hwf He.
  generalize (am_map (b_tokenBuilders b)). intros m. induction m as [|[k t] m IH]; intros Hwf He; cbn; [by rewrite proj_new|].
  unfold map_wf in Hwf. cbn in Hwf. apply NoDup_cons in Hwf as [Hk Hwf]. rewrite filter_app.
  assert (Hm : forall j, j ∉ map_keys m -> map_get j m = None).
  { intros j Hj. destruct (map_get j m) as [v|] eqn:Hv; [|done]. elim Hj. apply (list_elem_of_fmap_2 fst m (j, v)). by apply map_get_in. }
  assert (He' : forall j, Forall (fun x => token_of x = j) (proj (default (new_TokenOperationsBuilder j) (map_get j m)))).
  { intros j. destruct (decide (j = k)) as [->|Hjk]; [rewrite (Hm k) by done; cbn; rewrite proj_new; by constructor|].
    specialize (He j). cbn in He. by rewrite decide_False in He. }
  rewrite IH by done. pose proof (He k) as Hek. cbn in Hek. rewrite decide_True in Hek by done. cbn in Hek.
  destruct (decide (token = k)) as [->|Hne].
  - rewrite Hm, filter_all by done. cbn. by rewrite proj_new, app_nil_r.
  - assert (filter (fun x => token_of x = token) (proj t) = []) as ->; [|done]. clear -Hek Hne.
    induction Hek as [|x l Hx _ IHl]; [done|]. rewrite filter_cons_False by congruence. done.
Qed.

Lemma run_collects ops b b' token : builders_ok b -> entries_ok b -> fold_result run_op ops b = Ok b' ->
  filter (fun x => token_of x = token) (flat_map (fun e => proj e.2) (am_entries (b_tokenBuilders b')))
    = proj (token_builder token b) ++ flat_map (asked_for adds token) ops.
Proof.
  revert b. induction ops as [|op ops IH]; intros b Hok He Hrun.
  { injection Hrun as <-. cbn. rewrite app_nil_r. by apply collected_at. }
  cbn in Hrun. destruct (run_op b op) as [b1|e] eqn:Hop; [|done]. cbn in Hrun.
  rewrite (IH b1); [|by eapply run_op_ok| |exact Hrun].
  - rewrite (proj_run_op token b op b1 Hok Hop). cbn. by rewrite app_assoc.
  - intros k. rewrite (proj_run_op k b op b1 Hok Hop). apply Forall_app. split; [apply He|].
    destruct op as [| | | | |token' tops]; cbn; try done. case_decide; [|done]. subst. clear -adds_token.
    induction tops as [|o tops IH]; [done|]. cbn. apply Forall_app. split; [apply adds_token|done].
Qed.
End Kind.

(** The invoke-phase calls of a chain. *)
Definition invoke_calls (op : builder_op) : nat := match op with BInvoke _ | BComputeAndInvoke _ => 1 | _ => 0 end.
Definition queued (b : PrivateTransfersBuilder) : nat :=
  (match b_invokeExternal b with Some _ => 1 | None => 0 end + match b_computeAndInvoke b with Some _ => 1 | None => 0 end)%nat.

Lemma run_op_queued b op : (queued b <= 1)%nat ->
  match run_op b op with
  | Ok b' => queued b' = (queued b + invoke_calls op)%nat /\ (queued b' <= 1)%nat
  | Err e => e = TwoInvokePhaseActions /\ (queued b + invoke_calls op = 2)%nat
  end.
Proof.
  unfold queued. destruct op; cbn; try lia; unfold assertNoInvokePhaseAction.
  all: try (destruct (b_invokeExternal b), (b_computeAndInvoke b); cbn; split; done || lia).
Qed.

(** A chain of calls runs to the end exactly when it queues at most one invoke-phase action. *)
Lemma run_ops_queued ops b : (queued b <= 1)%nat ->
  match fold_result run_op ops b with
  | Ok b' => queued b' = (queued b + list_sum (map invoke_calls ops))%nat /\ (queued b' <= 1)%nat
  | Err e => e = TwoInvokePhaseActions /\ (2 <= queued b + list_sum (map invoke_calls ops))%nat
  end.
Proof.
  revert b. induction ops as [|op ops IH]; intros b Hq; cbn; [lia|].
  pose proof (run_op_queued b op Hq) as Hop. destruct (run_op b op) as [b1|e]; cbn.
  - destruct Hop as [Heq Hle]. specialize (IH b1 Hle). unfold list_sum in IH. destruct (fold_result run_op ops b1); intuition lia.
  - destruct Hop as [-> Hsum]. split; [done|lia].
Qed.

Lemma run_op_openChannels b op b' : run_op b op = Ok b' ->
  b_openChannels b' = b_openChannels b ++ match op with BSetup recipient => [{| oc_recipient := recipient |}] | _ => [] end.
Proof.
  destruct op; cbn; try (destruct (assertNoInvokePhaseAction b); [cbn|done]); intros [= <-]; cbn; by rewrite ?app_nil_r.
Qed.

Definition asked_setups (op : builder_op) : list OpenChannelAction :=
  match op with BSetup recipient => [{| oc_recipient := recipient |}] | _ => [] end.

Lemma run_ops_openChannels ops b b' : fold_result run_op ops b = Ok b' ->
  b_openChannels b' = b_openChannels b ++ flat_map asked_setups ops.
Proof.
  revert b. induction ops as [|op ops IH]; intros b Hrun; cbn in *; [injection Hrun as <-; by rewrite app_nil_r|].
  destruct (run_op b op) as [b1|e] eqn:Hop; [|done]. cbn in Hrun.
  by rewrite (IH b1 Hrun), (run_op_openChannels _ _ _ Hop), app_assoc.
Qed.

(** What the actions hold at a token is what the calls asked for at that token, in order. *)
Definition collects_at (token : Z) (ops : list builder_op) (a : Actions) : Prop :=
  filter (fun x => otc_token x = token) (default [] (openTokenChannels a)) = flat_map (asked_for adds_openTokenChannels token) ops /\
  filter (fun x => un_token x = token) (default [] (useNotes a)) = flat_map (asked_for adds_useNotes token) ops /\
  filter (fun x => dep_token x = token) (default [] (deposits a)) = flat_map (asked_for adds_deposits token) ops /\
  filter (fun x => cn_token x = token) (default [] (createNotes a)) = flat_map (asked_for adds_createNotes token) ops /\
  filter (fun x => wd_token x = token) (default [] (withdraws a)) = flat_map (asked_for adds_withdraws token) ops.

Lemma run_collects_new {X} (proj : TokenOperationsBuilder -> list X) adds token_of token ops b :
  (forall t op, proj (run_token_op userAddress op t) = proj t ++ adds (tb_token t) op) ->
  (forall token, proj (new_TokenOperationsBuilder token) = []) ->
  (forall token op, Forall (fun x => token_of x = token) (adds token op)) ->
  run_builder ops = Ok b ->
  filter (fun x => token_of x = token) (flat_map (fun e => proj e.2) (am_entries (b_tokenBuilders b)))
    = flat_map (asked_for adds token) ops.
Proof.
  intros Hr Hn Ha Hrun.
  rewrite (run_collects proj adds token_of Hr Hn Ha ops new_PrivateTransfersBuilder b token new_builder_ok); [| |exact Hrun].
  - unfold token_builder. cbn. by rewrite Hn.
  - intros k. unfold token_builder. cbn. rewrite Hn. constructor.
Qed.

Lemma run_token_op_adds t op :
  tb_openTokenChannels (run_token_op userAddress op t) = tb_openTokenChannels t ++ adds_openTokenChannels (tb_token t) op /\
  tb_useNotes (run_token_op userAddress op t) = tb_useNotes t ++ adds_useNotes (tb_token t) op /\
  tb_deposits (run_token_op userAddress op t) = tb_deposits t ++ adds_deposits (tb_token t) op /\
  tb_createNotes (run_token_op userAddress op t) = tb_createNotes t ++ adds_createNotes (tb_token t) op /\
  tb_withdraws (run_token_op userAddress op t) = tb_withdraws t ++ adds_withdraws (tb_token t) op.
Proof. destruct op; cbn; rewrite ?app_nil_r; done. Qed.

Lemma adds_of_token token op :
  Forall (fun x => otc_token x = token) (adds_openTokenChannels token op) /\
  Forall (fun x => un_token x = token) (adds_useNotes token op) /\
  Forall (fun x => dep_token x = token) (adds_deposits token op) /\
  Forall (fun x => cn_token x = token) (adds_createNotes token op) /\
  Forall (fun x => wd_token x = token) (adds_withdraws token op).
Proof.
  destruct op as [r|ns|ins|outs|outs|r w]; cbn; repeat split; repeat constructor.
  1,2,4,5: by apply list.Forall_fmap, Forall_true.
  induction ins as [|[[r|] x] ins IH]; cbn; repeat constructor; done.
Qed.

Lemma collected_at_token ops b token : run_builder ops = Ok b -> collects_at token ops (collectActions b).
Proof.
  intros Hrun. split_and!.
  all: apply run_collects_new; [intros; apply run_token_op_adds|done|intros; apply adds_of_token|exact Hrun].
Qed.

(** A chain of calls on a builder either runs to the end and the actions it hands to the
    compiler hold, for every token and in call order, exactly the channels, notes, deposits,
    transfers and withdrawals that the calls asked for, the recipients of [setup], and at most
    one invoke-phase action; or it asked for two invoke-phase actions and throws. *)
Theorem collected_actions (ops : list builder_op) :
  match run_builder ops with
  | Ok b =>
      let a := collectActions b in
      (forall token, collects_at token ops a) /\ openChannels a = Some (flat_map asked_setups ops) /\
      (list_sum (map invoke_calls ops) <= 1)%nat /\ (invoke a = None \/ computeAndInvoke a = None)
  | Err e => e = TwoInvokePhaseActions /\ (2 <= list_sum (map invoke_calls ops))%nat
  end.
Proof.
  pose proof (run_ops_queued ops new_PrivateTransfersBuilder ltac:(cbn; lia)) as Hq.
  unfold run_builder in *. destruct (fold_result run_op ops new_PrivateTransfersBuilder) as [b|e] eqn:Hrun; [|exact Hq].
  cbn zeta. split_and!.
  - intros token. by apply collected_at_token.
  - cbn. f_equal. by rewrite (run_ops_openChannels _ _ _ Hrun).
  - cbn in Hq. lia.
  - destruct Hq as [_ Hq]. unfold queued in Hq. cbn. destruct (b_invokeExternal b), (b_computeAndInvoke b); cbn in Hq; auto; lia.
Qed.
End Builder.
