(* ===== verification/Http.v ===== *)
(** * Transports of the SDK ([sdk/src/internal/ohttp-client.ts], the [get] and [post] of [indexer-discovery.ts])

    A request goes out by [fetch], or encapsulated by the OHTTP client, which fetches the key
    configuration of the gateway when it has none. The answers of the network are oracles
    numbered by the requests; the functions of [ohttp-ts] are the class [OhttpLibrary]. *)
From Stdlib Require Import ZArith Lia.
From stdpp Require Import base tactics list strings.
From S2P Require Import Prelude PoolTransaction.

(** HTTP 409: the discovery service returns this exclusively for block reorgs. *)
Definition REORG_STATUS : Z := 409.

(** [response.ok]. *)
Definition status_ok (status : Z) : bool := (200 <=? status) && (status <=? 299).

Inductive http_error : Type :=
| FetchRejected
| BlockReorged (path : string)
| RequestFailed (path : string) (status : Z)
| InnerFailed (path : string) (status : Z)
| DecapsulationFailed
| KeyConfigFailed (status : Z)
| KeyConfigUnreadable
| KeyConfigEmpty
| EncapsulationFailed
| EnvelopeUnreadable
| UnsupportedEncoding (encoding : string)
| BodyUnreadable
| InvalidJson.

#[export] Instance http_error_eq_dec : EqDecision http_error.
Proof. solve_decision. Defined.

(** ** Plain requests *)

(** What [fetch] brings: a rejection, or a status and the text of the body, if it can be read. *)
Record HttpResponse : Type := { res_status : Z; res_text : option string }.

Section Plain.
Context {J : Type} (parse : string -> option J).

(** [resp.json()]. *)
Definition response_json (resp : HttpResponse) : result http_error J :=
  match res_text resp with
  | None => Err BodyUnreadable
  | Some text => match parse text with Some json => Ok json | None => Err InvalidJson end
  end.

Definition plain_get (path : string) (fetched : option HttpResponse) : result http_error J :=
  match fetched with
  | None => Err FetchRejected
  | Some resp => if status_ok (res_status resp) then response_json resp else Err (RequestFailed path (res_status resp))
  end.

Definition plain_post (path : string) (fetched : option HttpResponse) : result http_error J :=
  match fetched with
  | None => Err FetchRejected
  | Some resp =>
      if status_ok (res_status resp) then response_json resp
      else if res_status resp =? REORG_STATUS then Err (BlockReorged path)
      else Err (RequestFailed path (res_status resp))
  end.
End Plain.

(** ** OHTTP *)

(** The response inside an envelope; its text depends on the decompression asked for. *)
Record InnerResponse : Type := {
  ir_status : Z;
  ir_encoding : option string;
  ir_hasBody : bool;
  ir_text : option string -> option string }.

(** The outer response, and what decapsulating it gives in the context of its request. *)
Record OuterResponse : Type := {
  or_status : Z;
  or_contentType : option string;
  or_inner : option InnerResponse }.

Class OhttpLibrary := {
  KeyConfig : Type;
  parseMultiple : list Z -> option (list KeyConfig);
  (** Whether the request can be encapsulated for the key. *)
  encapsulates : KeyConfig -> string -> bool
}.

(** The answers to the numbered requests for keys and to the numbered encapsulated requests. *)
Class OhttpNetwork `{OhttpLibrary} := {
  fetch_keys : nat -> option (Z * option (list Z));
  fetch_outer : nat -> KeyConfig -> option OuterResponse
}.

Definition ENCODING_TO_FORMAT (encoding : string) : option string :=
  if String.eqb encoding "gzip" then Some "gzip"
  else if String.eqb encoding "x-gzip" then Some "gzip"
  else if String.eqb encoding "deflate" then Some "deflate"
  else None.

Definition readResponseText (response : InnerResponse) : result http_error string :=
  let read format := match ir_text response format with Some text => Ok text | None => Err BodyUnreadable end in
  match option_map toLowerCase (ir_encoding response) with
  | None | Some EmptyString => read None
  | Some encoding =>
      if (negb (ir_hasBody response) || String.eqb encoding "identity")%bool then read None
      else match ENCODING_TO_FORMAT encoding with
           | None => Err (UnsupportedEncoding encoding)
           | Some format => read (Some format)
           end
  end.

Section Ohttp.
Context `{OhttpNetwork} {J : Type} (parse : string -> option J) (pinnedKeyConfig : option (list Z)).

(** The cached client, and how many requests were made. *)
Record OhttpClient : Type := {
  ohttpClient : option KeyConfig;
  keyFetches : nat;
  outerFetches : nat }.

Definition new_OhttpClient : OhttpClient := {| ohttpClient := None; keyFetches := 0; outerFetches := 0 |}.

Definition raw_config (s : OhttpClient) : result http_error (list Z) * OhttpClient :=
  match pinnedKeyConfig with
  | Some raw => (Ok raw, s)
  | None =>
      let s' := {| ohttpClient := ohttpClient s; keyFetches := S (keyFetches s); outerFetches := outerFetches s |} in
      (match fetch_keys (keyFetches s) with
       | None => Err FetchRejected
       | Some (status, raw) =>
           if status_ok status then match raw with Some raw => Ok raw | None => Err BodyUnreadable end
           else Err (KeyConfigFailed status)
       end, s')
  end.

Definition ensureClient (s : OhttpClient) : result http_error KeyConfig * OhttpClient :=
  match ohttpClient s with
  | Some key => (Ok key, s)
  | None =>
      let '(raw, s) := raw_config s in
      match raw with
      | Err e => (Err e, s)
      | Ok raw =>
          match parseMultiple raw with
          | None => (Err KeyConfigUnreadable, s)
          | Some [] => (Err KeyConfigEmpty, s)
          | Some (key :: _) => (Ok key, {| ohttpClient := Some key; keyFetches := keyFetches s; outerFetches := outerFetches s |})
          end
      end
  end.

Definition invalidate (s : OhttpClient) : OhttpClient :=
  {| ohttpClient := None; keyFetches := keyFetches s; outerFetches := outerFetches s |}.

(** What [send] does with the decapsulated response. *)
Definition inner_result (path : string) (response : InnerResponse) : result http_error J :=
  innerBody ← readResponseText response;
  if ir_status response =? REORG_STATUS then Err (BlockReorged path)
  else if negb (ir_status response =? 200) then Err (InnerFailed path (ir_status response))
  else match parse innerBody with Some json => Ok json | None => Err InvalidJson end.

Definition is_encapsulated (response : OuterResponse) : bool :=
  match or_contentType response with Some t => String.eqb t "message/ohttp-res" | None => false end.

Definition outer_result (path : string) (response : OuterResponse) : result http_error J :=
  if or_status response =? 422 then Err DecapsulationFailed
  else if (negb (status_ok (or_status response)) && negb (is_encapsulated response))%bool then
    if or_status response =? REORG_STATUS then Err (BlockReorged path)
    else Err (RequestFailed path (or_status response))
  else match or_inner response with
       | None => Err EnvelopeUnreadable
       | Some inner => inner_result path inner
       end.

Definition send (path : string) (s : OhttpClient) : result http_error J * OhttpClient :=
  let '(key, s) := ensureClient s in
  match key with
  | Err e => (Err e, s)
  | Ok key =>
      if encapsulates key path then
        let s' := {| ohttpClient := ohttpClient s; keyFetches := keyFetches s; outerFetches := S (outerFetches s) |} in
        match fetch_outer (outerFetches s) key with
        | None => (Err FetchRejected, s')
        | Some response =>
            (outer_result path response, if or_status response =? 422 then invalidate s' else s')
        end
      else (Err EncapsulationFailed, s)
  end.
End Ohttp.
