(* ===== verification/IndexerCursor.v ===== *)
(** * Cursors of the indexer ([sdk/src/internal/indexer-discovery.ts])

    The wire format of the discovery service and its conversion from and to the cursors of the
    SDK. A JSON object used as a record of named entries is a [jsmap] of its keys, which are
    hexadecimal and so keep their order of insertion; an absent and a [null] field are [None]. *)
From Stdlib Require Import ZArith Lia.
From stdpp Require Import base tactics list strings.
From S2P Require Import Prelude JsMap Convert Interfaces Channel Http.

(** ** Wire types *)

Record ApiSubchannelCursor : Type := {
  note_discovery_complete : bool;
  last_note_index : option Z;
  total_n_notes : option Z }.

Record ApiChannelCursor : Type := {
  channel_key : option string;
  subchannel_discovery_complete : bool;
  last_subchannel_index : option Z;
  subchannels : option (jsmap string ApiSubchannelCursor) }.

Record ApiDiscoveryCursor : Type := {
  channel_discovery_complete : bool;
  total_n_channels : option Z;
  last_channel_index : option Z;
  channels : option (jsmap string ApiChannelCursor) }.

(** [{}]. *)
Definition empty_cursor : ApiDiscoveryCursor :=
  {| channel_discovery_complete := false; total_n_channels := None; last_channel_index := None; channels := None |}.

(** ** Completeness *)

Definition subchannel_complete (ch : ApiChannelCursor) : bool :=
  (subchannel_discovery_complete ch &&
   match subchannels ch with None => true | Some scs => forallb note_discovery_complete (map_values scs) end)%bool.

Definition isApiCursorComplete (cursor : ApiDiscoveryCursor) : bool :=
  if channel_discovery_complete cursor then
    match channels cursor with None => true | Some chs => forallb subchannel_complete (map_values chs) end
  else false.

(** [pruneCompleteCursor] on the subchannels of one channel: the complete ones are deleted. *)
Definition prune_subchannels (scs : jsmap string ApiSubchannelCursor) : jsmap string ApiSubchannelCursor :=
  fold_left (fun m e => if note_discovery_complete e.2 then map_delete e.1 m else m) scs scs.

Definition with_subchannels (ch : ApiChannelCursor) (scs : jsmap string ApiSubchannelCursor) : ApiChannelCursor :=
  {| channel_key := channel_key ch; subchannel_discovery_complete := subchannel_discovery_complete ch;
     last_subchannel_index := last_subchannel_index ch; subchannels := Some scs |}.

Definition with_channels (cursor : ApiDiscoveryCursor) (chs : jsmap string ApiChannelCursor) : ApiDiscoveryCursor :=
  {| channel_discovery_complete := channel_discovery_complete cursor; total_n_channels := total_n_channels cursor;
     last_channel_index := last_channel_index cursor; channels := Some chs |}.

Definition prune_channel (chs : jsmap string ApiChannelCursor) (e : string * ApiChannelCursor) : jsmap string ApiChannelCursor :=
  match subchannel_discovery_complete e.2, subchannels e.2 with
  | true, Some scs =>
      let scs := prune_subchannels scs in
      match scs with [] => map_delete e.1 chs | _ => map_set e.1 (with_subchannels e.2 scs) chs end
  | _, _ => chs
  end.

Definition pruneCompleteCursor (cursor : ApiDiscoveryCursor) : ApiDiscoveryCursor :=
  match channels cursor with
  | None => cursor
  | Some chs => with_channels cursor (fold_left prune_channel chs chs)
  end.

(** ** From the SDK to the service *)

(** [last_note_index], [last_subchannel_index]: the index before the next one. *)
Definition index_before (next : Z) : option Z := if 0 <? next then Some (next - 1) else None.

Definition in_filter (tokenFilter : option (list Z)) (token : Z) : bool :=
  match tokenFilter with None => true | Some tokens => bool_decide (token ∈ tokens) end.

Definition buildSubchannelCursors (noteIndexes : list (Z * Z)) (tokenFilter : option (list Z)) (totals : option (AddressMap Z))
  : jsmap string ApiSubchannelCursor :=
  fold_left (fun m e =>
    if in_filter tokenFilter e.1 then
      map_set (toHex e.1)
        {| note_discovery_complete := false; last_note_index := index_before e.2;
           total_n_notes := match totals with Some t => (am_get e.1 None t).1 | None => None end |} m
    else m) noteIndexes [].

(** [tokenFilter.size]: a [Set] holds every token once. *)
Definition set_size (tokens : list Z) : nat := length (remove_dups tokens).

Definition incoming_to_api (tokenFilter : option (list Z)) (icc : IncomingChannelCursor) : ApiChannelCursor :=
  let scs := buildSubchannelCursors (am_entries (noteIndexes icc)) tokenFilter (Some (totalNoteCounts icc)) in
  {| channel_key := Some (toHex (icc_channelKey icc));
     subchannel_discovery_complete :=
       match tokenFilter with None => false | Some tokens => (set_size tokens =? length scs)%nat end;
     last_subchannel_index := index_before (subchannelIdIndex icc);
     subchannels := Some scs |}.

Definition notesCursorToApiCursor (cursor : NotesCursor) (tokenFilter : option (list Z)) : ApiDiscoveryCursor :=
  let incoming := am_entries (incomingChannels cursor) in
  {| channel_discovery_complete := false; total_n_channels := None;
     last_channel_index := index_before (Z.of_nat (length incoming));
     channels := Some (fold_left (fun m e => map_set (toHex e.1) (incoming_to_api tokenFilter e.2) m) incoming []) |}.

Definition channel_to_api (key : Z) (tokens : list (Z * TokenChannel)) : ApiChannelCursor :=
  {| channel_key := Some (toHex key); subchannel_discovery_complete := false; last_subchannel_index := None;
     subchannels := Some (buildSubchannelCursors (map (fun e => (e.1, noteNonce e.2)) tokens) None None) |}.

Definition channelMapToApiCursor (chs : option (AddressMap Channel)) (channelDiscoveryComplete : bool) : ApiDiscoveryCursor :=
  {| channel_discovery_complete := channelDiscoveryComplete; total_n_channels := None; last_channel_index := None;
     channels := Some (fold_left (fun m e =>
       match ch_key e.2 with
       | Some key => if key =? 0 then m else map_set (toHex e.1) (channel_to_api key (am_entries (ch_tokens e.2))) m
       | None => m
       end) (match chs with Some am => am_entries am | None => [] end) []) |}.

(** ** From the service to the SDK *)

(** [BigInt(s)], which throws a [SyntaxError]. *)
Definition BigInt (s : string) : result sdk_error Z :=
  match BigInt_of_string s with Some z => Ok z | None => Err JsSyntaxError end.

Definition next_index (last : option Z) : Z := default (-1) last + 1.

Definition read_subchannel (acc : AddressMap Z * AddressMap Z) (e : string * ApiSubchannelCursor)
  : result sdk_error (AddressMap Z * AddressMap Z) :=
  token ← BigInt e.1;
  Ok (am_set token (next_index (last_note_index e.2)) acc.1,
      match total_n_notes e.2 with Some n => am_set token n acc.2 | None => acc.2 end).

Definition incoming_of_api (ch : ApiChannelCursor) : result sdk_error IncomingChannelCursor :=
  key ← match channel_key ch with None | Some EmptyString => Ok 0 | Some s => BigInt s end;
  maps ← fold_result read_subchannel (default [] (subchannels ch)) (new_AddressMap None [], new_AddressMap None []);
  Ok {| icc_channelKey := key; subchannelIdIndex := next_index (last_subchannel_index ch);
        noteIndexes := maps.1; totalNoteCounts := maps.2 |}.

Definition read_channel (acc : AddressMap IncomingChannelCursor) (e : string * ApiChannelCursor)
  : result sdk_error (AddressMap IncomingChannelCursor) :=
  icc ← incoming_of_api e.2;
  sender ← BigInt e.1;
  Ok (am_set sender icc acc).

Definition apiCursorToNotesCursor (apiCursor : ApiDiscoveryCursor) (blockRef : BigNumberish) : result sdk_error NotesCursor :=
  incoming ← fold_result read_channel (default [] (channels apiCursor)) (new_AddressMap None []);
  Ok {| blockId := blockRef; incomingChannels := incoming |}.

(** ** Objects keyed by hexadecimal numbers *)

Lemma toHex_inj a b : 0 <= a -> 0 <= b -> toHex a = toHex b -> a = b.
Proof. intros Ha Hb Heq. apply (f_equal BigInt_of_string) in Heq. rewrite !BigInt_toHex in Heq by done. congruence. Qed.

Lemma BigInt_toHex_ok a : 0 <= a -> BigInt (toHex a) = Ok a.
Proof. intros Ha. unfold BigInt. by rewrite BigInt_toHex. Qed.

Section Keyed.
Context {A B : Type}.

(** Filling an object from distinct numbers lists them in order. *)
Lemma fill_keyed (keep : Z * A -> bool) (f : Z * A -> B) (l : list (Z * A)) (m : jsmap string B) :
  NoDup (map_keys l) -> Forall (fun e => 0 <= e.1) l -> (forall e, e ∈ l -> toHex e.1 ∉ map_keys m) ->
  fold_left (fun m e => if keep e then map_set (toHex e.1) (f e) m else m) l m
    = m ++ map (fun e => (toHex e.1, f e)) (filter (fun e => keep e = true) l).
Proof.
  revert m. induction l as [|[a x] l IH]; intros m Hnd Hpos Hm; [cbn; by rewrite app_nil_r|].
  unfold map_keys in Hnd. cbn in Hnd. apply NoDup_cons in Hnd as [Ha Hnd]. apply Forall_cons in Hpos as [Ha0 Hpos].
  cbn [fold_left]. rewrite filter_cons. destruct (keep (a, x)) eqn:Hk.
  - rewrite decide_True by done. cbn [map fst]. rewrite IH; [|done|done|].
    + assert (Hset : map_set (toHex a) (f (a, x)) m = m ++ [(toHex a, f (a, x))]).
      { clear -Hm. assert (Hn : toHex a ∉ map_keys m) by (apply (Hm (a, x)); by left). clear Hm.
        induction m as [|[k v] m IH]; [done|]. unfold map_keys in Hn. cbn in Hn. apply not_elem_of_cons in Hn as [? ?].
        cbn. rewrite decide_False by done. by rewrite IH. }
      by rewrite Hset, <- app_assoc.
    + intros e He. rewrite map_keys_set. destruct (map_has _ m); [apply Hm; by right|].
      rewrite not_elem_of_app, list_elem_of_singleton. split; [apply Hm; by right|]. intros Heq.
      rewrite list.Forall_forall in Hpos. apply toHex_inj in Heq; [|by apply Hpos|done]. apply Ha.
      rewrite <- Heq. by apply list_elem_of_fmap_2.
  - rewrite decide_False by congruence. apply IH; [done|done|]. intros e He. apply Hm. by right.
Qed.

End Keyed.

(** ** A notes cursor there and back *)

(** A map made without a factory, as the cursors' maps are. *)
Definition plain_map {V} (am : AddressMap V) : Prop := am = new_AddressMap None (am_map am) /\ map_wf (am_map am).

Lemma plain_new {V} (m : jsmap Z V) : map_wf m -> plain_map (new_AddressMap None m).
Proof. intros Hm. unfold plain_map. by rewrite new_AddressMap_map. Qed.

Lemma plain_fields {V} (am : AddressMap V) : plain_map am -> keyConverter am = (fun k => k) /\ defaultFactory am = None.
Proof.
  intros [-> _]. unfold new_AddressMap, am_new. generalize (am_map am). intros m.
  assert (Hgen : forall (l : list (Z * V)) (a : AddressMap V),
    keyConverter (fold_left (fun am e => am_set e.1 e.2 am) l a) = keyConverter a /\
    defaultFactory (fold_left (fun am e => am_set e.1 e.2 am) l a) = defaultFactory a).
  { induction l as [|e l IH]; intros a; [done|]. cbn. by destruct (IH (am_set e.1 e.2 a)) as [-> ->]. }
  by destruct (Hgen m {| keyConverter := fun k => k; defaultFactory := None; am_map := [] |}) as [-> ->].
Qed.

Lemma plain_get {V} (am : AddressMap V) t : plain_map am -> (am_get t None am).1 = map_get t (am_map am).
Proof.
  intros Hp. destruct (plain_fields am Hp) as [Hk Hf]. unfold am_get. rewrite Hk, Hf. by destruct (map_has t (am_map am)).
Qed.

Lemma plain_with {V} (am : AddressMap V) (m : jsmap Z V) : plain_map am -> map_wf m -> plain_map (with_map am m).
Proof.
  intros [Hk Hf]%plain_fields Hwf. split; [|done]. cbn [with_map am_map]. pose proof (new_AddressMap_map None _ Hwf) as Hnew.
  destruct (plain_fields _ (plain_new _ Hwf)) as [Hk' Hf']. unfold with_map. rewrite Hk, Hf.
  destruct (new_AddressMap None m) as [kc df m']. cbn in Hnew, Hk', Hf'. by subst.
Qed.

Lemma plain_set {V} (am : AddressMap V) t v : plain_map am ->
  plain_map (am_set t v am) /\ am_map (am_set t v am) = map_set t v (am_map am).
Proof.
  intros Hp. destruct (plain_fields am Hp) as [Hk _]. unfold am_set. rewrite Hk. split; [|done].
  apply plain_with; [done|]. apply map_set_wf, Hp.
Qed.

Record incoming_ok (icc : IncomingChannelCursor) : Prop := {
  io_key : 0 <= icc_channelKey icc;
  io_subchannels : 0 <= subchannelIdIndex icc;
  io_notes : plain_map (noteIndexes icc);
  io_entries : Forall (fun e => 0 <= e.1 /\ 0 <= e.2) (am_entries (noteIndexes icc));
  io_totals : plain_map (totalNoteCounts icc);
  io_counted : forall t, t ∈ am_keys (totalNoteCounts icc) -> t ∈ am_keys (noteIndexes icc) }.

Record cursor_ok (cursor : NotesCursor) : Prop := {
  co_plain : plain_map (incomingChannels cursor);
  co_senders : Forall (fun e => 0 <= e.1) (am_entries (incomingChannels cursor));
  co_channels : Forall (fun e => incoming_ok e.2) (am_entries (incomingChannels cursor)) }.

Lemma next_index_before n : 0 <= n -> next_index (index_before n) = n.
Proof. intros Hn. unfold next_index, index_before. destruct (Z.ltb_spec 0 n); cbn; lia. Qed.

Definition sent_subchannel (totals : AddressMap Z) (e : Z * Z) : ApiSubchannelCursor :=
  {| note_discovery_complete := false; last_note_index := index_before e.2; total_n_notes := (am_get e.1 None totals).1 |}.

Lemma built_subchannels entries tokenFilter totals : map_wf entries -> Forall (fun e => 0 <= e.1 /\ 0 <= e.2) entries ->
  buildSubchannelCursors entries tokenFilter (Some totals)
    = map (fun e => (toHex e.1, sent_subchannel totals e)) (filter (fun e => in_filter tokenFilter e.1 = true) entries).
Proof.
  intros Hwf Hpos. unfold buildSubchannelCursors.
  rewrite (fill_keyed (fun e => in_filter tokenFilter e.1) (sent_subchannel totals)); [done|done| |].
  - eapply Forall_impl; [exact Hpos|]. by intros e [? _].
  - intros e _. apply not_elem_of_nil.
Qed.

(** The note counts that are read back. *)
Definition counts_of (totals : AddressMap Z) (l : list (Z * Z)) (acc : AddressMap Z) : AddressMap Z :=
  fold_left (fun acc e => match (am_get e.1 None totals).1 with Some n => am_set e.1 n acc | None => acc end) l acc.

Lemma counts_of_get totals l acc : plain_map acc ->
  plain_map (counts_of totals l acc) /\
  forall t, map_get t (am_map (counts_of totals l acc))
    = match (if decide (t ∈ map_keys l) then (am_get t None totals).1 else None) with
      | Some n => Some n | None => map_get t (am_map acc) end.
Proof.
  unfold map_keys. revert acc. induction l as [|e l IH]; intros acc Hacc; [done|].
  assert (Hstep : plain_map (match (am_get e.1 None totals).1 with Some n => am_set e.1 n acc | None => acc end)).
  { destruct (am_get e.1 None totals).1; [by apply plain_set|done]. }
  destruct (IH _ Hstep) as [Hp Hget]. split; [exact Hp|]. intros t. cbn [fmap list_fmap]. unfold counts_of in *. cbn [fold_left].
  rewrite Hget. destruct (decide (t ∈ l.*1)) as [Hl|Hl].
  - rewrite (decide_True (P := t ∈ e.1 :: l.*1)) by (by right). destruct (am_get t None totals).1 as [n|] eqn:Hn; [done|].
    destruct (decide (t = e.1)) as [->|Hne]; [by rewrite Hn|]. destruct (am_get e.1 None totals).1; [|done].
    destruct (plain_set acc e.1 z Hacc) as [_ ->]. by rewrite map_get_set_ne.
  - destruct (decide (t = e.1)) as [->|Hne].
    + rewrite decide_True by (by left). destruct (am_get e.1 None totals).1 as [n|]; [|done].
      destruct (plain_set acc e.1 n Hacc) as [_ ->]. by rewrite map_get_set_eq.
    + rewrite decide_False by (rewrite elem_of_cons; tauto). destruct (am_get e.1 None totals).1 as [n|]; [|done].
      destruct (plain_set acc e.1 n Hacc) as [_ ->]. by rewrite map_get_set_ne.
Qed.

Lemma am_set_snoc {V} (k : Z) (v : V) m : am_set k v (new_AddressMap None m) = new_AddressMap None (m ++ [(k, v)]).
Proof. unfold new_AddressMap, am_new. by rewrite fold_left_app. Qed.

Lemma read_subchannels (totals : AddressMap Z) (l m : list (Z * Z)) (acc : AddressMap Z) :
  Forall (fun e => 0 <= e.1 /\ 0 <= e.2) l ->
  fold_result read_subchannel (map (fun e => (toHex e.1, sent_subchannel totals e)) l) (new_AddressMap None m, acc)
    = Ok (new_AddressMap None (m ++ l), counts_of totals l acc).
Proof.
  revert m acc. induction l as [|[a n] l IH]; intros m acc Hpos; [cbn; by rewrite app_nil_r|].
  apply Forall_cons in Hpos as [[Ha Hn] Hpos]. cbn [fst snd] in Ha, Hn. cbn [map fold_result].
  assert (Hstep : read_subchannel (new_AddressMap None m, acc) (toHex a, sent_subchannel totals (a, n)) =
    Ok (new_AddressMap None (m ++ [(a, n)]), counts_of totals [(a, n)] acc)).
  { unfold read_subchannel. cbn [fst snd]. rewrite BigInt_toHex_ok by done. cbn [mbind result_bind sent_subchannel last_note_index].
    cbn [fst snd]. by rewrite next_index_before, am_set_snoc. }
  cbn [fst]. rewrite Hstep. cbn [mbind result_bind]. rewrite IH by done. by rewrite <- app_assoc.
Qed.

(** What comes back of one incoming channel. *)
Definition same_incoming (tokenFilter : option (list Z)) (icc icc' : IncomingChannelCursor) : Prop :=
  icc_channelKey icc' = icc_channelKey icc /\ subchannelIdIndex icc' = subchannelIdIndex icc /\
  am_entries (noteIndexes icc') = filter (fun e => in_filter tokenFilter e.1 = true) (am_entries (noteIndexes icc)) /\
  forall t, (am_get t None (totalNoteCounts icc')).1 = if in_filter tokenFilter t then (am_get t None (totalNoteCounts icc)).1 else None.

Lemma incoming_roundtrip tokenFilter icc : incoming_ok icc ->
  exists icc', incoming_of_api (incoming_to_api tokenFilter icc) = Ok icc' /\ same_incoming tokenFilter icc icc'.
Proof.
  intros [Hkey Hsub [_ Hwf] Hent Ht Hc]. unfold incoming_to_api, incoming_of_api.
  cbn [channel_key subchannels last_subchannel_index default].
  rewrite built_subchannels by done. unfold am_entries in *. set (l := filter _ _).
  assert (Hl : Forall (fun e => 0 <= e.1 /\ 0 <= e.2) l).
  { rewrite list.Forall_forall in Hent |- *. by intros e [_ He%Hent]%list_elem_of_filter. }
  assert (Hk : match toHex (icc_channelKey icc) with EmptyString => Ok 0 | String _ _ => BigInt (toHex (icc_channelKey icc)) end
    = Ok (icc_channelKey icc)) by exact (BigInt_toHex_ok _ Hkey).
  rewrite Hk. unfold id. cbn [mbind result_bind]. rewrite read_subchannels by done. cbn [mbind result_bind fst snd app].
  eexists. split; [reflexivity|]. unfold same_incoming. cbn [icc_channelKey subchannelIdIndex noteIndexes totalNoteCounts].
  assert (Hlwf : map_wf l) by (by apply map_filter_wf).
  split_and!; [done|by apply next_index_before|by apply new_AddressMap_map|]. intros t.
  assert (Hnil : plain_map (@new_AddressMap Z None [])) by (apply plain_new, NoDup_nil_2).
  destruct (counts_of_get (totalNoteCounts icc) l _ Hnil) as [Hp Hget]. rewrite plain_get, Hget by done.
  rewrite (plain_get (totalNoteCounts icc)) in * by done. cbn [new_AddressMap am_new fold_left am_map map_get].
  destruct (map_get t (am_map (totalNoteCounts icc))) as [n|] eqn:Hn; [|by repeat case_decide; destruct (in_filter _ _)].
  assert (Hin : t ∈ am_keys (noteIndexes icc)). { apply Hc. apply list_elem_of_fmap. exists (t, n). split; [done|by apply map_get_in]. }
  assert (Hiff : t ∈ map_keys l <-> in_filter tokenFilter t = true).
  { unfold map_keys, l. rewrite list_elem_of_fmap. split.
    - by intros (e & -> & He%list_elem_of_filter%proj1).
    - intros Hf. unfold am_keys, map_keys in Hin. apply list_elem_of_fmap in Hin as (e & -> & He). exists e.
      split; [done|]. by apply list_elem_of_filter. }
  destruct (in_filter tokenFilter t); case_decide as Hd; tauto || (apply Hiff in Hd; done).
Qed.

Lemma read_channels tokenFilter (l : list (Z * IncomingChannelCursor)) m :
  NoDup (map_keys (m ++ l)) -> Forall (fun e => 0 <= e.1) l -> Forall (fun e => incoming_ok e.2) l ->
  exists l', fold_result read_channel (map (fun e => (toHex e.1, incoming_to_api tokenFilter e.2)) l) (new_AddressMap None m)
      = Ok (new_AddressMap None (m ++ l')) /\
    Forall2 (fun e e' => e'.1 = e.1 /\ same_incoming tokenFilter e.2 e'.2) l l'.
Proof.
  revert m. induction l as [|[a icc] l IH]; intros m Hnd Hpos Hok.
  { exists []. split; [cbn; by rewrite app_nil_r|constructor]. }
  apply Forall_cons in Hpos as [Ha Hpos]. apply Forall_cons in Hok as [Hicc Hok]. cbn [fst snd] in Ha, Hicc.
  destruct (incoming_roundtrip tokenFilter icc Hicc) as (icc' & Hread & Hsame).
  assert (Hstep : read_channel (new_AddressMap None m) (toHex a, incoming_to_api tokenFilter icc) = Ok (new_AddressMap None (m ++ [(a, icc')]))).
  { unfold read_channel. cbn [fst snd]. rewrite Hread. cbn [mbind result_bind]. rewrite BigInt_toHex_ok by done.
    cbn [mbind result_bind]. by rewrite am_set_snoc. }
  destruct (IH (m ++ [(a, icc')])) as (l' & Hl' & Hf); [|done|done|].
  { unfold map_keys in *. rewrite !fmap_app in *. cbn in *. by rewrite <- app_assoc. }
  exists ((a, icc') :: l'). split; [|by constructor]. cbn [map fold_result fst snd]. rewrite Hstep. cbn [mbind result_bind].
  by rewrite Hl', <- app_assoc.
Qed.

(** Two lists without duplicates, one inside the other, of one length. *)
Lemma same_length_contains (l k : list Z) : NoDup l -> NoDup k -> (forall x, x ∈ l -> x ∈ k) ->
  length k = length l <-> forall x, x ∈ k -> x ∈ l.
Proof.
  intros Hl Hk Hin. assert (Hsub : l ⊆+ k) by (by apply NoDup_submseteq). split.
  - intros Hlen. apply submseteq_length_Permutation in Hsub; [|lia]. intros x Hx. by rewrite Hsub.
  - intros Hback. assert (Hsub' : k ⊆+ l) by (by apply NoDup_submseteq).
    apply submseteq_length in Hsub, Hsub'. lia.
Qed.

Lemma filter_flag tokens icc : incoming_ok icc ->
  subchannel_discovery_complete (incoming_to_api (Some tokens) icc) = true <->
  forall t, t ∈ tokens -> t ∈ am_keys (noteIndexes icc).
Proof.
  intros [_ _ [_ Hwf] Hent _ _]. unfold incoming_to_api. cbn [subchannel_discovery_complete].
  rewrite built_subchannels by done. unfold am_entries, am_keys in *. rewrite length_map, Nat.eqb_eq. unfold set_size.
  set (l := filter _ _). rewrite <- (length_fmap fst l).
  assert (Hl : forall x, x ∈ l.*1 <-> x ∈ tokens /\ x ∈ map_keys (am_map (noteIndexes icc))).
  { intros x. unfold l, map_keys. rewrite !list_elem_of_fmap. split.
    - intros (e & -> & [Hf He]%list_elem_of_filter). cbn in Hf. apply bool_decide_eq_true in Hf. split; [done|]. by exists e.
    - intros (Ht & e & -> & He). exists e. split; [done|]. apply list_elem_of_filter. split; [|done]. cbn. by apply bool_decide_eq_true. }
  rewrite same_length_contains; [|by apply map_filter_wf|apply NoDup_remove_dups|].
  - split; intros Hall t Ht.
    + exact (proj2 (proj1 (Hl t) (Hall t (proj2 (elem_of_remove_dups _ _) Ht)))).
    + rewrite elem_of_remove_dups in Ht. apply Hl. split; [done|by apply Hall].
  - intros x Hx. rewrite elem_of_remove_dups. exact (proj1 (proj1 (Hl x) Hx)).
Qed.

(** A notes cursor that is sent to the service, for all tokens or for a filter, is read back with the same
    senders in the same order, their channel keys and subchannel counts, and the note indices and note
    counts of the tokens asked for; a channel is announced as complete exactly if every token of the
    filter is already known in it. *)
Theorem notes_cursor_roundtrip (cursor : NotesCursor) (tokenFilter : option (list Z)) (blockRef : BigNumberish) :
  cursor_ok cursor ->
  exists cursor', apiCursorToNotesCursor (notesCursorToApiCursor cursor tokenFilter) blockRef = Ok cursor' /\
    blockId cursor' = blockRef /\
    Forall2 (fun e e' => e'.1 = e.1 /\ same_incoming tokenFilter e.2 e'.2)
      (am_entries (incomingChannels cursor)) (am_entries (incomingChannels cursor')) /\
    Forall (fun e => subchannel_discovery_complete (incoming_to_api tokenFilter e.2) = true <->
      match tokenFilter with None => False | Some tokens => forall t, t ∈ tokens -> t ∈ am_keys (noteIndexes e.2) end)
      (am_entries (incomingChannels cursor)).
Proof.
  intros [[_ Hwf] Hpos Hok]. unfold apiCursorToNotesCursor, notesCursorToApiCursor, am_entries in *. cbn [channels].
  rewrite (fill_keyed (fun _ => true) (fun e => incoming_to_api tokenFilter e.2)); [|exact Hwf|exact Hpos|intros; apply not_elem_of_nil].
  rewrite filter_all by (by apply Forall_true).
  destruct (read_channels tokenFilter (am_map (incomingChannels cursor)) []) as (l' & Hread & Hf); [done|done|done|].
  exists {| blockId := blockRef; incomingChannels := new_AddressMap None l' |}. cbn [app default id from_option] in *.
  unfold id. rewrite Hread. cbn [mbind result_bind blockId incomingChannels].
  assert (Hwf' : map_wf l').
  { unfold map_wf, map_keys in *. replace (l'.*1) with ((am_map (incomingChannels cursor)).*1); [done|].
    clear -Hf. induction Hf as [|e e' l l' [He _] _ IH]; [done|]. cbn. by rewrite He, IH. }
  rewrite new_AddressMap_map by done. split_and!; [done|done|done|].
  eapply Forall_impl; [exact Hok|]. intros e He. destruct tokenFilter as [tokens|]; [by apply filter_flag|].
  cbn. split; done.
Qed.

(** A cursor with two senders, one of them with a filter-relevant token. *)
Definition sample_cursor : NotesCursor :=
  {| blockId := BN_number 7;
     incomingChannels := new_AddressMap None [(17, {| icc_channelKey := 5; subchannelIdIndex := 2;
       noteIndexes := new_AddressMap None [(3, 4); (8, 0)]; totalNoteCounts := new_AddressMap None [(3, 6)] |})] |}.

Lemma sample_cursor_ok : cursor_ok sample_cursor.
Proof.
  split; [split; [reflexivity|apply NoDup_singleton]|repeat constructor; cbn; lia|]. constructor; [|constructor].
  split; cbn; try lia.
  - split; [reflexivity|]. by apply (bool_decide_unpack (NoDup [3; 8])).
  - repeat constructor; cbn; lia.
  - split; [reflexivity|apply NoDup_singleton].
  - intros t ->%list_elem_of_singleton. by left.
Qed.

Lemma notes_cursor_roundtrip_witness :
  exists cursor', apiCursorToNotesCursor (notesCursorToApiCursor sample_cursor (Some [3])) (BN_number 9) = Ok cursor' /\
    blockId cursor' = BN_number 9.
Proof.
  destruct (notes_cursor_roundtrip sample_cursor (Some [3]) (BN_number 9) sample_cursor_ok) as (c & Hc & Hb & _).
  by exists c.
Defined.

(** ** Pruning *)

Section Prune.
Context {V : Type}.

(** Deleting the entries that satisfy a condition, one by one, filters the map. *)
Lemma delete_entries (p : V -> bool) (l m0 : jsmap string V) : map_wf (m0 ++ l) ->
  fold_left (fun m e => if p e.2 then map_delete e.1 m else m) l (m0 ++ l) = m0 ++ filter (fun e => p e.2 = false) l.
Proof.
  revert m0. induction l as [|[k v] l IH]; intros m0 Hwf; [done|]. cbn [fold_left fst snd]. rewrite (filter_cons (A := string * V)). cbn [snd].
  destruct (p v) eqn:Hp.
  - rewrite decide_False by done.
    assert (Hdel : map_delete k (m0 ++ (k, v) :: l) = m0 ++ l).
    { clear -Hwf. unfold map_wf, map_keys in Hwf. rewrite fmap_app in Hwf. apply NoDup_app in Hwf as (_ & Hd & _).
      induction m0 as [|[k0 v0] m0 IH]; cbn; [by rewrite decide_True|].
      rewrite decide_False; [|intros ->; apply (Hd k0); [by left|by left]].
      f_equal. apply IH. intros x Hx. apply Hd. by right. }
    rewrite Hdel. apply IH. unfold map_wf, map_keys in *. rewrite fmap_app in *. cbn in Hwf.
    apply NoDup_app in Hwf as (H1 & H2 & H3). apply NoDup_cons in H3 as [_ H3]. apply NoDup_app. split_and!; [done| |done].
    intros x Hx Hl. apply (H2 x Hx). by right.
  - rewrite decide_True by done. change (m0 ++ (k, v) :: l) with (m0 ++ [(k, v)] ++ l). rewrite app_assoc, IH; [by rewrite <- app_assoc|].
    by rewrite <- app_assoc.
Qed.
End Prune.

Lemma prune_subchannels_filter scs : map_wf scs ->
  prune_subchannels scs = filter (fun e => note_discovery_complete e.2 = false) scs.
Proof. intros Hwf. exact (delete_entries note_discovery_complete scs [] Hwf). Qed.

(** What is left of a channel. *)
Definition pruned (ch : ApiChannelCursor) : option ApiChannelCursor :=
  match subchannel_discovery_complete ch, subchannels ch with
  | true, Some scs =>
      match filter (fun e => note_discovery_complete e.2 = false) scs with [] => None | l => Some (with_subchannels ch l) end
  | _, _ => Some ch
  end.

Definition channel_cursor_wf (ch : ApiChannelCursor) : Prop := match subchannels ch with Some scs => map_wf scs | None => True end.

Record api_cursor_wf (cursor : ApiDiscoveryCursor) : Prop := {
  aw_channels : map_wf (default [] (channels cursor));
  aw_subchannels : Forall (fun e => channel_cursor_wf e.2) (default [] (channels cursor)) }.

Definition keep_pruned (e : string * ApiChannelCursor) : list (string * ApiChannelCursor) :=
  match pruned e.2 with Some ch => [(e.1, ch)] | None => [] end.

Lemma prune_channel_at m0 e l : map_wf (m0 ++ e :: l) -> channel_cursor_wf e.2 ->
  prune_channel (m0 ++ e :: l) e = m0 ++ keep_pruned e ++ l.
Proof.
  destruct e as [k ch]. intros Hwf Hch. unfold prune_channel, keep_pruned, pruned. cbn [fst snd] in *.
  destruct (subchannel_discovery_complete ch); [|done]. unfold channel_cursor_wf in Hch.
  destruct (subchannels ch) as [scs|]; [|done]. rewrite prune_subchannels_filter by done.
  assert (Hk : k ∉ map_keys m0).
  { unfold map_wf, map_keys in *. rewrite fmap_app in Hwf. apply NoDup_app in Hwf as (_ & Hd & _).
    intros Hin. apply (Hd k Hin). by left. }
  destruct (filter _ scs) as [|x f].
  - clear -Hk. unfold map_keys in Hk. induction m0 as [|[k0 v0] m0 IH]; cbn in *; [by rewrite decide_True|].
    apply not_elem_of_cons in Hk as [? ?]. rewrite decide_False by done. f_equal. by apply IH.
  - clear -Hk. unfold map_keys in Hk. induction m0 as [|[k0 v0] m0 IH]; cbn in *; [by rewrite decide_True|].
    apply not_elem_of_cons in Hk as [? ?]. rewrite decide_False by done. f_equal. by apply IH.
Qed.

Lemma keep_pruned_keys e : (keep_pruned e).*1 `sublist_of` [e.1].
Proof. unfold keep_pruned. destruct (pruned e.2); cbn; [done|apply sublist_nil_l]. Qed.

Lemma prune_channels l m0 : map_wf (m0 ++ l) -> Forall (fun e => channel_cursor_wf e.2) l ->
  fold_left prune_channel l (m0 ++ l) = m0 ++ flat_map keep_pruned l.
Proof.
  revert m0. induction l as [|e l IH]; intros m0 Hwf Hch; [done|]. apply Forall_cons in Hch as [He Hch].
  cbn [fold_left flat_map]. rewrite prune_channel_at by done. rewrite app_assoc, IH; [by rewrite <- app_assoc| |done].
  unfold map_wf, map_keys in *. rewrite !fmap_app in *. rewrite <- app_assoc. eapply sublist_NoDup; [exact Hwf|].
  apply sublist_app; [done|]. cbn. change (e.1 :: l.*1) with ([e.1] ++ l.*1). apply sublist_app; [apply keep_pruned_keys|done].
Qed.

(** Pruning the cursor between two pages deletes, of every channel whose subchannels are all known, the
    subchannels whose notes are all known, and the channel when none is left; everything else stays as
    it is and in order, and the cursor is complete after pruning exactly if it was before. *)
Theorem prune_keeps_the_incomplete (cursor : ApiDiscoveryCursor) :
  api_cursor_wf cursor ->
  channels (pruneCompleteCursor cursor) = option_map (flat_map keep_pruned) (channels cursor) /\
  channel_discovery_complete (pruneCompleteCursor cursor) = channel_discovery_complete cursor /\
  total_n_channels (pruneCompleteCursor cursor) = total_n_channels cursor /\
  isApiCursorComplete (pruneCompleteCursor cursor) = isApiCursorComplete cursor.
Proof.
  intros [Hwf Hch]. unfold pruneCompleteCursor. destruct (channels cursor) as [chs|] eqn:Hc; [|by rewrite Hc].
  cbn [default from_option id] in *. unfold id in *. pose proof (prune_channels chs [] Hwf Hch) as Hp. cbn [app] in Hp. rewrite Hp.
  split_and!; [done..|]. unfold isApiCursorComplete. cbn [with_channels channel_discovery_complete channels]. rewrite Hc.
  destruct (channel_discovery_complete cursor); [|done]. clear. unfold map_values.
  induction chs as [|[k ch] chs IH]; [done|]. cbn [flat_map]. rewrite fmap_app, forallb_app, IH. cbn. f_equal. clear.
  unfold keep_pruned, pruned. cbn [fst snd]. unfold subchannel_complete.
  destruct (subchannel_discovery_complete ch) eqn:Hd; [|cbn; by rewrite Hd]. destruct (subchannels ch) as [scs|] eqn:Hs; [|cbn; by rewrite Hd, Hs].
  assert (Hall : forallb note_discovery_complete (map_values scs)
    = forallb note_discovery_complete (map_values (filter (fun e => note_discovery_complete e.2 = false) scs))).
  { clear. unfold map_values. induction scs as [|[t sc] scs IH]; [done|]. rewrite (filter_cons (A := string * ApiSubchannelCursor)). cbn [snd].
    cbn. rewrite IH. destruct (note_discovery_complete sc) eqn:Hn; [by rewrite decide_False|]. rewrite decide_True by done.
    cbn. by rewrite Hn. }
  rewrite Hall. destruct (filter _ scs) as [|x f] eqn:Hf; [done|]. cbn. by rewrite Hd, andb_true_r.
Qed.

Lemma prune_keeps_the_incomplete_witness :
  let sc b := {| note_discovery_complete := b; last_note_index := Some 3; total_n_notes := None |} in
  let ch l := {| channel_key := None; subchannel_discovery_complete := true; last_subchannel_index := None; subchannels := Some l |} in
  let cursor := {| channel_discovery_complete := true; total_n_channels := None; last_channel_index := None;
                   channels := Some [("0x1", ch [("0x5", sc true)]); ("0x2", ch [("0x5", sc true); ("0x6", sc false)])] |} in
  channels (pruneCompleteCursor cursor) = Some [("0x2", ch [("0x6", sc false)])].
Proof.
  intros sc ch cursor.
  destruct (prune_keeps_the_incomplete cursor) as [Hc _]; [|rewrite Hc; reflexivity].
  split; cbn; [by apply (bool_decide_unpack (NoDup ["0x1"; "0x2"]%string))|].
  constructor; [apply NoDup_singleton|constructor; [|constructor]].
  by apply (bool_decide_unpack (NoDup ["0x5"; "0x6"]%string)).
Defined.

(** ** The pages

    The loop that the three sync requests of the indexer share: ask for a page from the cursor of
    the page before, read it, and stop at a complete cursor. The service is an oracle that answers
    the numbered requests, by either transport of [Http]; the loop takes fuel, because a service
    that never reports completion keeps it going. *)

Inductive indexer_error : Type :=
| IHttp (e : http_error)
| ISdk (e : sdk_error)
| IMissingChannelKey (sender : string)
| INoTotal.

#[export] Instance indexer_error_eq_dec : EqDecision indexer_error.
Proof. solve_decision. Defined.

Definition of_sdk {A} (r : result sdk_error A) : result indexer_error A :=
  match r with Ok a => Ok a | Err e => Err (ISdk e) end.
Definition of_http {A} (r : result http_error A) : result indexer_error A :=
  match r with Ok a => Ok a | Err e => Err (IHttp e) end.

(** Whether a block identifier is truthy. *)
Definition bn_truthy (b : BigNumberish) : bool :=
  match b with BN_string s => negb (String.eqb s "") | BN_number z => negb (z =? 0) | BN_bigint z => negb (z =? 0) end.

(** [if (blockRef)]. *)
Definition is_pinned (blockRef : option BigNumberish) : bool := match blockRef with Some b => bn_truthy b | None => false end.

(** The block of a request: that of the page before, or the one asked for. *)
Definition pin (blockRef blockIdentifier : option BigNumberish) : option BigNumberish :=
  if is_pinned blockRef then blockRef else blockIdentifier.

Section Paging.
Context {Resp S : Type}.
Context (post : nat -> ApiDiscoveryCursor -> option BigNumberish -> result http_error Resp).
Context (block_of : Resp -> BigNumberish) (cursor_of : Resp -> ApiDiscoveryCursor).
(** What is sent back of an incomplete cursor, and what a page changes. *)
Context (next : ApiDiscoveryCursor -> ApiDiscoveryCursor) (read : S -> Resp -> result indexer_error S).

Fixpoint page_loop (fuel n : nat) (apiCursor : ApiDiscoveryCursor) (blockRef : option BigNumberish) (s : S)
  : option (result indexer_error (S * ApiDiscoveryCursor * BigNumberish)) :=
  match fuel with
  | O => None
  | Datatypes.S fuel =>
      match post n apiCursor blockRef with
      | Err e => Some (Err (IHttp e))
      | Ok resp =>
          match read s resp with
          | Err e => Some (Err e)
          | Ok s =>
              if isApiCursorComplete (cursor_of resp) then Some (Ok (s, cursor_of resp, block_of resp))
              else page_loop fuel (Datatypes.S n) (next (cursor_of resp)) (Some (block_of resp)) s
          end
      end
  end.

(** What the service says from the n-th request on: pages that are not complete, and then a complete
    one or a failure. Every request but the first goes to the block of the page before. *)
Inductive talk : nat -> ApiDiscoveryCursor -> option BigNumberish -> list Resp -> option http_error -> Prop :=
| talk_fails n apiCursor blockRef e : post n apiCursor blockRef = Err e -> talk n apiCursor blockRef [] (Some e)
| talk_ends n apiCursor blockRef resp : post n apiCursor blockRef = Ok resp ->
    isApiCursorComplete (cursor_of resp) = true -> talk n apiCursor blockRef [resp] None
| talk_goes_on n apiCursor blockRef resp pages e : post n apiCursor blockRef = Ok resp ->
    isApiCursorComplete (cursor_of resp) = false ->
    talk (Datatypes.S n) (next (cursor_of resp)) (Some (block_of resp)) pages e ->
    talk n apiCursor blockRef (resp :: pages) e.

(** The loop reads the pages in order, whatever they are, and stops at the first error. *)
Lemma page_loop_spec n apiCursor blockRef pages e : talk n apiCursor blockRef pages e ->
  forall fuel s, (length pages < fuel)%nat ->
  match fold_result read pages s, e with
  | Err e, _ => page_loop fuel n apiCursor blockRef s = Some (Err e)
  | Ok _, Some e => page_loop fuel n apiCursor blockRef s = Some (Err (IHttp e))
  | Ok s', None => exists resp, last pages = Some resp /\
      page_loop fuel n apiCursor blockRef s = Some (Ok (s', cursor_of resp, block_of resp))
  end.
Proof.
  induction 1 as [n ac br e Hp|n ac br resp Hp Hc|n ac br resp pages e Hp Hc Ht IH]; intros fuel s Hf;
    (destruct fuel as [|fuel]; [cbn in Hf; lia|]); cbn [page_loop fold_result]; rewrite Hp; [done| |].
  - destruct (read s resp) as [s'|e]; cbn [mbind result_bind]; [|done]. rewrite Hc. by exists resp.
  - destruct (read s resp) as [s'|e']; cbn [mbind result_bind]; [|done]. rewrite Hc. cbn in Hf.
    specialize (IH fuel s' ltac:(lia)). destruct (fold_result read pages s'); [|done]. destruct e; [done|].
    destruct IH as (r & Hl & Hrun). exists r. split; [|done]. destruct pages; [done|exact Hl].
Qed.

(** The reverse: a run that returned saw such pages. *)
Lemma page_loop_talks fuel n apiCursor blockRef s r : page_loop fuel n apiCursor blockRef s = Some (Ok r) ->
  exists pages, talk n apiCursor blockRef pages None /\ fold_result read pages s = Ok r.1.1.
Proof.
  revert n apiCursor blockRef s. induction fuel as [|fuel IH]; intros n ac br s; [done|]. cbn [page_loop].
  destruct (post n ac br) as [resp|e] eqn:Hp; [|done]. destruct (read s resp) as [s'|e] eqn:Hr; [|done].
  destruct (isApiCursorComplete (cursor_of resp)) eqn:Hc.
  - intros [= <-]. exists [resp]. split; [by apply talk_ends|]. cbn. by rewrite Hr.
  - intros Hrun. destruct (IH _ _ _ _ Hrun) as (pages & Ht & Hf). exists (resp :: pages).
    split; [by apply talk_goes_on|]. cbn. by rewrite Hr.
Qed.
End Paging.
