(* ===== verification/IndexerNotes.v ===== *)
(** * Note discovery by the indexer ([sdk/src/internal/indexer-discovery.ts], [discoverNotes])

    The provider asks the service for page after page until the cursor that comes back is
    complete, groups the notes of the pages by token and merges their cursors. *)
From Stdlib Require Import ZArith Lia.
From stdpp Require Import base tactics list strings.
From S2P Require Import Prelude JsMap Convert Interfaces Channel Http IndexerCursor.

(** ** Wire types *)

Record ApiIncomingChannel : Type := { aic_channel_key : string; aic_sender_addr : string }.

Record ApiIncomingNoteInfo : Type := {
  ain_sender_addr : string;
  ain_token : string;
  ain_index : Z;
  ain_note_id : string;
  ain_amount : string;
  ain_salt : string;
  ain_block_number : Z }.

Record ApiIncomingSyncResponse : Type := {
  in_block_ref : BigNumberish;
  in_channels : list ApiIncomingChannel;
  in_notes : list ApiIncomingNoteInfo;
  in_cursor : ApiDiscoveryCursor }.

(** The body of a request to [/v1/sync/incoming_state]. *)
Record IncomingBody : Type := {
  ib_contract_address : string;
  ib_recipient_address : string;
  ib_viewing_key : string;
  ib_cursor : ApiDiscoveryCursor;
  ib_block_ref : option BigNumberish;
  ib_last_known_block : option BigNumberish }.

(** ** The notes of a page *)

Definition channel_keys (chs : list ApiIncomingChannel) : result indexer_error (jsmap string Z) :=
  fold_result (fun m ch => key ← of_sdk (BigInt (aic_channel_key ch)); Ok (map_set (aic_sender_addr ch) key m)) chs [].

(** The key a note is read with: this page's channel, or the channel of an earlier page. *)
Definition key_for (channelKeyMap : jsmap string Z) (existingChannels : AddressMap IncomingChannelCursor) (sender_addr : string) (sender : Z)
  : option Z :=
  match map_get sender_addr channelKeyMap with
  | Some key => Some key
  | None => option_map icc_channelKey (am_get sender None existingChannels).1
  end.

(** One note; [None] if the filter drops its token. *)
Definition convertIncomingNote (channelKeyMap : jsmap string Z) (existingChannels : AddressMap IncomingChannelCursor)
  (tokenFilter : option (list Z)) (n : ApiIncomingNoteInfo) : result indexer_error (option (Z * Note)) :=
  token ← of_sdk (BigInt (ain_token n));
  if in_filter tokenFilter token then
    sender ← of_sdk (BigInt (ain_sender_addr n));
    match key_for channelKeyMap existingChannels (ain_sender_addr n) sender with
    | None => Err (IMissingChannelKey (ain_sender_addr n))
    | Some channelKey =>
        amount ← of_sdk (BigInt (ain_amount n));
        salt ← of_sdk (BigInt (ain_salt n));
        Ok (Some (token, {| note_id := BN_string (ain_note_id n); note_amount := amount; note_created := Some (ain_block_number n);
                            note_witness := {| w_channelKey := channelKey; w_nonce := ain_index n; w_r := salt |};
                            note_sender := sender; note_open := Some (String.eqb (ain_salt n) "1") |}))
    end
  else Ok None.

(** [get(token)!.push(...)] on a map whose factory makes empty lists. *)
Definition push_notes (token : Z) (notes : list Note) (m : AddressMap (list Note)) : AddressMap (list Note) :=
  let '(old, m) := am_get token None m in am_set token (default [] old ++ notes) m.

Definition empty_notes : AddressMap (list Note) := new_AddressMap (Some (fun _ => [])) [].

Definition convertIncomingNotes (apiNotes : list ApiIncomingNoteInfo) (channelKeyMap : jsmap string Z)
  (existingChannels : AddressMap IncomingChannelCursor) (tokenFilter : option (list Z)) : result indexer_error (AddressMap (list Note)) :=
  fold_result (fun result n =>
    converted ← convertIncomingNote channelKeyMap existingChannels tokenFilter n;
    Ok (match converted with Some (token, note) => push_notes token [note] result | None => result end)) apiNotes empty_notes.

(** ** The loop *)

Section Sync.
Context (incoming_state : nat -> IncomingBody -> result http_error ApiIncomingSyncResponse).
Context (contractAddress address viewingKey : Z) (cursor : option NotesCursor) (tokens : option (list Z)) (blockIdentifier : option BigNumberish).

(** The accumulators: [allNotes] and [incomingChannels]. *)
Definition IncomingState : Type := AddressMap (list Note) * AddressMap IncomingChannelCursor.

Definition first_cursor : ApiDiscoveryCursor := match cursor with Some c => notesCursorToApiCursor c tokens | None => empty_cursor end.

(** The request: pinned to the block of the page before, or to the asked-for block, or with the
    last known block for the detection of a reorg. *)
Definition incoming_body (apiCursor : ApiDiscoveryCursor) (blockRef : option BigNumberish) : IncomingBody :=
  let lastKnownBlock := match cursor with Some c => if bn_truthy (blockId c) then Some (blockId c) else None | None => None end in
  {| ib_contract_address := toHex contractAddress; ib_recipient_address := toHex address; ib_viewing_key := toHex viewingKey;
     ib_cursor := apiCursor;
     ib_block_ref := pin blockRef blockIdentifier;
     ib_last_known_block :=
       if is_pinned blockRef then None else match blockIdentifier with Some _ => None | None => lastKnownBlock end |}.

(** What the answer of one page changes. *)
Definition read_page (st : IncomingState) (resp : ApiIncomingSyncResponse) : result indexer_error IncomingState :=
  channelKeyMap ← channel_keys (in_channels resp);
  notesByToken ← convertIncomingNotes (in_notes resp) channelKeyMap st.2 tokens;
  updatedCursor ← of_sdk (apiCursorToNotesCursor (in_cursor resp) (in_block_ref resp));
  Ok (fold_left (fun m e => push_notes e.1 e.2 m) (am_entries notesByToken) st.1,
      fold_left (fun m e => am_set e.1 e.2 m) (am_entries (incomingChannels updatedCursor)) st.2).

Definition incoming_post (n : nat) (apiCursor : ApiDiscoveryCursor) (blockRef : option BigNumberish)
  : result http_error ApiIncomingSyncResponse := incoming_state n (incoming_body apiCursor blockRef).

(** The timestamp, the notes and the cursor. *)
Definition discoverNotes (fuel : nat) : option (result indexer_error (BigNumberish * AddressMap (list Note) * NotesCursor)) :=
  match page_loop incoming_post in_block_ref in_cursor (fun c => c) read_page fuel 0 first_cursor None
          (empty_notes, new_AddressMap None []) with
  | None => None
  | Some (Err e) => Some (Err e)
  | Some (Ok (st, _, blockIdentifier)) =>
      Some (Ok (blockIdentifier, st.1, {| blockId := blockIdentifier; incomingChannels := st.2 |}))
  end.
End Sync.

(** ** Specification: the pages as one list of notes *)

Section Spec.
Context (tokens : option (list Z)).

(** The notes of a page, in order, with their tokens. *)
Definition page_notes (known : AddressMap IncomingChannelCursor) (resp : ApiIncomingSyncResponse) : result indexer_error (list (Z * Note)) :=
  keys ← channel_keys (in_channels resp);
  fold_result (fun l n => c ← convertIncomingNote keys known tokens n; Ok (l ++ option_list c)) (in_notes resp) [].

(** All pages: their notes one after the other, and their cursors merged. *)
Fixpoint pages_notes (known : AddressMap IncomingChannelCursor) (pages : list ApiIncomingSyncResponse)
  : result indexer_error (list (Z * Note) * AddressMap IncomingChannelCursor) :=
  match pages with
  | [] => Ok ([], known)
  | resp :: pages =>
      l ← page_notes known resp;
      updated ← of_sdk (apiCursorToNotesCursor (in_cursor resp) (in_block_ref resp));
      rest ← pages_notes (fold_left (fun m e => am_set e.1 e.2 m) (am_entries (incomingChannels updated)) known) pages;
      Ok (l ++ rest.1, rest.2)
  end.
End Spec.

(** The notes of a token in a list. *)
Definition of_token (t : Z) (l : list (Z * Note)) : list Note := map snd (filter (fun e => e.1 = t) l).

Lemma of_token_app t l1 l2 : of_token t (l1 ++ l2) = of_token t l1 ++ of_token t l2.
Proof. unfold of_token. by rewrite filter_app, map_app. Qed.

(** A map that groups a list by token: no token without notes. *)
Record groups (l : list (Z * Note)) (m : AddressMap (list Note)) : Prop := {
  gr_conv : keyConverter m = (fun k => k);
  gr_factory : defaultFactory m = Some (fun _ => []);
  gr_wf : map_wf (am_map m);
  gr_get : forall t, map_get t (am_map m) = match of_token t l with [] => None | ns => Some ns end }.

Lemma groups_nil : groups [] empty_notes.
Proof. split; try done. apply NoDup_nil_2. Qed.

Lemma push_groups l m token notes : groups l m -> notes <> [] ->
  groups (l ++ map (fun n => (token, n)) notes) (push_notes token notes m).
Proof.
  intros [Hc Hf Hwf Hg] Hne.
  assert (Hadd : forall t, of_token t (map (fun n => (token, n)) notes) = if decide (token = t) then notes else []).
  { intros t. unfold of_token. clear. induction notes as [|n notes IH]; [by case_decide|]. cbn [map].
    rewrite filter_cons. cbn [fst]. destruct (decide (token = t)); [|exact IH]. cbn [map]. by rewrite IH. }
  assert (Hpush : am_map (push_notes token notes m) = map_set token (of_token token l ++ notes) (am_map m) /\
    keyConverter (push_notes token notes m) = (fun k => k) /\ defaultFactory (push_notes token notes m) = Some (fun _ => [])).
  { unfold push_notes, am_get, map_has. rewrite Hc, Hf, Hg. destruct (of_token token l) as [|x f] eqn:Ho; cbn [with_map am_map].
    - rewrite map_get_set_eq. unfold am_set. cbn. rewrite Hc. by rewrite map_set_set.
    - rewrite Hg, Ho. unfold am_set. cbn. by rewrite Hc. }
  destruct Hpush as (Hm & Hc1 & Hf1). split; [done|done|rewrite Hm; by apply map_set_wf|].
  intros t. rewrite Hm, map_get_set, of_token_app, Hadd, Hg.
  destruct (decide (t = token)) as [->|Ht].
  - rewrite decide_True by done. destruct (of_token token l ++ notes) eqn:Happ; [|done].
    by apply app_nil in Happ as [_ ->].
  - rewrite decide_False by congruence. by rewrite app_nil_r.
Qed.

Lemma convert_groups apiNotes keys known tokens l m : groups l m ->
  match fold_result (fun l n => c ← convertIncomingNote keys known tokens n; Ok (l ++ option_list c)) apiNotes l,
        fold_result (fun result n => converted ← convertIncomingNote keys known tokens n;
          Ok (match converted with Some (token, note) => push_notes token [note] result | None => result end)) apiNotes m with
  | Ok l', Ok m' => groups l' m'
  | Err e, Err e' => e = e'
  | _, _ => False
  end.
Proof.
  revert l m. induction apiNotes as [|n ns IH]; intros l m Hg; [exact Hg|]. cbn [fold_result].
  destruct (convertIncomingNote keys known tokens n) as [[[t note]|]|e]; cbn [mbind result_bind option_list].
  - apply IH. by apply (push_groups l m t [note]).
  - rewrite app_nil_r. by apply IH.
  - done.
Qed.

(** Appending the groups of a page to the groups of the pages before. *)
Lemma push_all_groups l m (es : list (Z * list Note)) : groups l m -> Forall (fun e => e.2 <> []) es ->
  groups (l ++ flat_map (fun e => map (fun n => (e.1, n)) e.2) es) (fold_left (fun m e => push_notes e.1 e.2 m) es m).
Proof.
  revert l m. induction es as [|[t ns] es IH]; intros l m Hg Hne; cbn; [by rewrite app_nil_r|].
  apply Forall_cons in Hne as [Hn Hne]. rewrite app_assoc. apply IH; [|done]. by apply push_groups.
Qed.

(** Only what every token's notes are matters. *)
Lemma groups_same l l' m : (forall t, of_token t l = of_token t l') -> groups l m -> groups l' m.
Proof. intros Heq [Hc Hf Hwf Hg]. split; try done. intros t. by rewrite <- Heq. Qed.

Lemma regroup l m : groups l m ->
  Forall (fun e => e.2 <> []) (am_entries m) /\
  forall t, of_token t (flat_map (fun e => map (fun n => (e.1, n)) e.2) (am_entries m)) = of_token t l.
Proof.
  intros [_ _ Hwf Hg]. unfold am_entries. split.
  - apply list.Forall_forall. intros [t ns] Hin. cbn. apply (map_in_get _ _ _ Hwf) in Hin. rewrite Hg in Hin.
    intros ->. by destruct (of_token t l).
  - intros t. transitivity (default [] (map_get t (am_map m))); [|rewrite Hg; by destruct (of_token t l)].
    clear Hg. revert Hwf. generalize (am_map m). clear. intros m. unfold map_wf, map_keys.
    induction m as [|[k ns] m IH]; [done|]. rewrite fmap_cons. intros [Hk Hm]%NoDup_cons. cbn [flat_map map_get fst snd]. rewrite of_token_app, (IH Hm).
    assert (Hns : of_token t (map (fun n => (k, n)) ns) = if decide (t = k) then ns else []).
    { unfold of_token. clear. induction ns as [|n ns IH]; [by case_decide|]. cbn [map]. rewrite filter_cons. cbn [fst].
      destruct (decide (t = k)) as [->|Ht]; [rewrite decide_True by done; cbn; by rewrite IH|].
      rewrite decide_False by congruence. exact IH. }
    rewrite Hns. destruct (decide (t = k)) as [->|]; [|done].
    rewrite (proj2 (map_get_None k m)) by done. cbn. by rewrite app_nil_r.
Qed.

(** ** Discovery reads what the service tells *)

Section Correct.
Context (incoming_state : nat -> IncomingBody -> result http_error ApiIncomingSyncResponse).
Context (contractAddress address viewingKey : Z) (cursor : option NotesCursor) (tokens : option (list Z)) (blockIdentifier : option BigNumberish).

Lemma read_page_spec st resp l : groups l st.1 ->
  match page_notes tokens st.2 resp, apiCursorToNotesCursor (in_cursor resp) (in_block_ref resp) with
  | Ok ns, Ok updated => exists st', read_page tokens st resp = Ok st' /\ groups (l ++ ns) st'.1 /\
      st'.2 = fold_left (fun m e => am_set e.1 e.2 m) (am_entries (incomingChannels updated)) st.2
  | Err e, _ => read_page tokens st resp = Err e
  | Ok _, Err e => read_page tokens st resp = Err (ISdk e)
  end.
Proof.
  intros Hg. unfold page_notes, read_page. destruct (channel_keys (in_channels resp)) as [keys|e]; [|done].
  cbn [mbind result_bind]. unfold convertIncomingNotes.
  pose proof (convert_groups (in_notes resp) keys st.2 tokens [] empty_notes groups_nil) as Hc.
  destruct (fold_result _ (in_notes resp) []) as [ns|e]; destruct (fold_result _ (in_notes resp) empty_notes) as [m|e'];
    [|done|done|by subst]. cbn [mbind result_bind].
  destruct (apiCursorToNotesCursor _ _) as [updated|e]; [|done]. cbn [of_sdk mbind result_bind].
  eexists. split; [reflexivity|]. cbn [fst snd]. split; [|done]. destruct (regroup ns m Hc) as [Hne Hsame].
  eapply groups_same; [|apply (push_all_groups l st.1 _ Hg Hne)]. intros t. by rewrite !of_token_app, Hsame.
Qed.

Lemma read_pages_spec pages st l : groups l st.1 ->
  match pages_notes tokens st.2 pages with
  | Ok (ns, known) => exists st', fold_result (read_page tokens) pages st = Ok st' /\ groups (l ++ ns) st'.1 /\ st'.2 = known
  | Err e => fold_result (read_page tokens) pages st = Err e
  end.
Proof.
  revert st l. induction pages as [|resp pages IH]; intros st l Hg; cbn [pages_notes fold_result].
  { exists st. by rewrite app_nil_r. }
  pose proof (read_page_spec st resp l Hg) as Hr.
  destruct (page_notes tokens _ resp) as [ns|e]; cbn [mbind result_bind]; [|by rewrite Hr].
  destruct (apiCursorToNotesCursor _ _) as [updated|e]; cbn [of_sdk mbind result_bind]; [|by rewrite Hr].
  destruct Hr as (st' & -> & Hg' & Hi). specialize (IH st' (l ++ ns) Hg'). rewrite Hi in IH. cbn [mbind result_bind].
  destruct (pages_notes tokens _ pages) as [[ms known]|e]; cbn [mbind result_bind fst snd]; [|done]. by rewrite app_assoc.
Qed.

(** C21: Whatever pages the service answers with, note discovery ends with the last of them and returns, for
    every token that passes the filter, the notes of all pages in order, each with the key of its
    channel from its page or an earlier one, the block of the last page, and the merged cursors; if a
    request fails, for instance because of a reorg, or a page cannot be read, it fails with the first
    such error. *)
Theorem indexer_notes_are_the_pages (pages : list ApiIncomingSyncResponse) (e : option http_error) (fuel : nat) :
  talk (incoming_post incoming_state contractAddress address viewingKey cursor blockIdentifier) in_block_ref in_cursor (fun c => c)
    0 (first_cursor cursor tokens) None pages e -> (length pages < fuel)%nat ->
  match pages_notes tokens (new_AddressMap None []) pages, e with
  | Err e, _ => discoverNotes incoming_state contractAddress address viewingKey cursor tokens blockIdentifier fuel = Some (Err e)
  | Ok _, Some e =>
      discoverNotes incoming_state contractAddress address viewingKey cursor tokens blockIdentifier fuel = Some (Err (IHttp e))
  | Ok (ns, known), None => exists resp notes, last pages = Some resp /\
      discoverNotes incoming_state contractAddress address viewingKey cursor tokens blockIdentifier fuel
        = Some (Ok (in_block_ref resp, notes, {| blockId := in_block_ref resp; incomingChannels := known |})) /\
      forall t, map_get t (am_map notes) = match of_token t ns with [] => None | l => Some l end
  end.
Proof.
  intros Ht Hf. unfold discoverNotes.
  pose proof (page_loop_spec _ _ _ _ (read_page tokens) _ _ _ _ _ Ht fuel (empty_notes, new_AddressMap None []) Hf) as Hl.
  pose proof (read_pages_spec pages (empty_notes, new_AddressMap None []) [] groups_nil) as Hr. cbn [snd] in Hr.
  destruct (pages_notes tokens _ pages) as [[ns known]|e']; [|by rewrite Hr in Hl; rewrite Hl].
  destruct Hr as (st' & Hr & [_ _ _ Hg] & Hk). rewrite Hr in Hl. destruct e as [e|]; [by rewrite Hl|].
  destruct Hl as (resp & Hlast & ->). exists resp, st'.1. rewrite Hk. split_and!; [done|done|exact Hg].
Qed.
End Correct.

(** ** Two pages *)

(** A service with one sender: the second page spells the key of the channel only in the cursor of the first. *)
Definition sample_note (index : Z) : ApiIncomingNoteInfo :=
  {| ain_sender_addr := "0x11"; ain_token := "0x3"; ain_index := index; ain_note_id := "0xabc"; ain_amount := "0x5";
     ain_salt := "1"; ain_block_number := 4 |}.

Definition sample_page (complete : bool) (chs : list ApiIncomingChannel) (index : Z) : ApiIncomingSyncResponse :=
  {| in_block_ref := BN_string "0xb1"; in_channels := chs; in_notes := [sample_note index];
     in_cursor := {| channel_discovery_complete := complete; total_n_channels := None; last_channel_index := None;
       channels := Some [("0x11", {| channel_key := Some "0x7"; subchannel_discovery_complete := true;
                                     last_subchannel_index := None; subchannels := Some [] |})] |} |}.

Definition two_pages (n : nat) (body : IncomingBody) : result http_error ApiIncomingSyncResponse :=
  match n with
  | O => Ok (sample_page false [{| aic_channel_key := "0x7"; aic_sender_addr := "0x11" |}] 0)
  | _ => Ok (sample_page true [] 1)
  end.

Lemma indexer_notes_are_the_pages_witness :
  exists notes cursor', discoverNotes two_pages 1 2 3 None None None 3 = Some (Ok (BN_string "0xb1", notes, cursor')) /\
    option_map length (map_get 3 (am_map notes)) = Some 2%nat.
Proof.
  assert (Ht : talk (incoming_post two_pages 1 2 3 None None) in_block_ref in_cursor (fun c => c) 0 (first_cursor None None) None
    [sample_page false [{| aic_channel_key := "0x7"; aic_sender_addr := "0x11" |}] 0; sample_page true [] 1] None).
  { apply talk_goes_on; [reflexivity|reflexivity|]. apply talk_ends; reflexivity. }
  pose proof (indexer_notes_are_the_pages two_pages 1 2 3 None None None _ None 3 Ht ltac:(cbn; lia)) as Hp.
  destruct (pages_notes None _ _) as [[ns known]|er] eqn:Hns; [|vm_compute in Hns; discriminate].
  destruct Hp as (resp & notes & Hlast & Hrun & Hget). injection Hlast as <-. eexists notes, _. split; [exact Hrun|].
  rewrite (Hget 3). vm_compute in Hns. injection Hns as <- <-. reflexivity.
Defined.
