(* ===== verification/IndexerChannels.v ===== *)
(** * Channel discovery by the indexer ([sdk/src/internal/indexer-discovery.ts])

    [discoverChannels] reads the outgoing channels page by page, prefers a channel that exists
    over a precomputed one, collects the subchannels of every recipient in the order the service
    reports them, and builds the channels of the SDK from both. Also [discoverRequirement],
    [fetchHistory] and the health checks. *)
From Stdlib Require Import ZArith Lia.
From stdpp Require Import base tactics list strings.
From S2P Require Import Prelude JsMap Convert Interfaces Channel Http IndexerCursor History.

(** ** Wire types *)

Record ApiOutgoingChannel : Type := {
  aoc_recipient_addr : string;
  aoc_recipient_public_key : string;
  aoc_channel_key : string;
  aoc_precomputed : bool }.

Record ApiOutgoingSubchannelInfo : Type := {
  aos_recipient_addr : string;
  aos_token : string;
  aos_last_note_index : option Z }.

Record ApiOutgoingSyncResponse : Type := {
  out_block_ref : BigNumberish;
  out_channels : list ApiOutgoingChannel;
  out_subchannels : list ApiOutgoingSubchannelInfo;
  out_cursor : ApiDiscoveryCursor }.

Record OutgoingBody : Type := {
  ob_contract_address : string;
  ob_sender_address : string;
  ob_viewing_key : string;
  ob_cursor : ApiDiscoveryCursor;
  ob_block_ref : option BigNumberish;
  ob_recipients : option (list string) }.

(** ** Accumulating the pages *)

Record ChannelInfo : Type := { inf_publicKey : Z; inf_channelKey : Z }.

(** The maps of [discoverChannels], keyed by the spellings of the service. *)
Record Outgoing : Type := {
  createdChannelMap : jsmap string ChannelInfo;
  subchannelsByRecipient : jsmap string (jsmap string (Z * option Z));
  nonCreatedChannelMap : jsmap string ChannelInfo }.

Definition new_Outgoing : Outgoing := {| createdChannelMap := []; subchannelsByRecipient := []; nonCreatedChannelMap := [] |}.

Definition add_channel (acc : Outgoing) (ch : ApiOutgoingChannel) : result sdk_error Outgoing :=
  publicKey ← BigInt (aoc_recipient_public_key ch);
  channelKey ← BigInt (aoc_channel_key ch);
  let info := {| inf_publicKey := publicKey; inf_channelKey := channelKey |} in
  let r := aoc_recipient_addr ch in
  Ok (if aoc_precomputed ch then
        if map_has r (createdChannelMap acc) then acc
        else {| createdChannelMap := createdChannelMap acc; subchannelsByRecipient := subchannelsByRecipient acc;
                nonCreatedChannelMap := map_set r info (nonCreatedChannelMap acc) |}
      else {| createdChannelMap := map_set r info (createdChannelMap acc); subchannelsByRecipient := subchannelsByRecipient acc;
              nonCreatedChannelMap := map_delete r (nonCreatedChannelMap acc) |}).

Definition add_subchannel (acc : Outgoing) (sc : ApiOutgoingSubchannelInfo) : result sdk_error Outgoing :=
  let r := aos_recipient_addr sc in
  let tokenMap := default [] (map_get r (subchannelsByRecipient acc)) in
  tokenMap ←
    (match map_get (aos_token sc) tokenMap, aos_last_note_index sc with
     | Some _, None => Ok tokenMap
     | _, last => token ← BigInt (aos_token sc); Ok (map_set (aos_token sc) (token, last) tokenMap)
     end);
  Ok {| createdChannelMap := createdChannelMap acc; subchannelsByRecipient := map_set r tokenMap (subchannelsByRecipient acc);
        nonCreatedChannelMap := nonCreatedChannelMap acc |}.

Definition accumulateOutgoingResponse (acc : Outgoing) (resp : ApiOutgoingSyncResponse) : result indexer_error Outgoing :=
  of_sdk (acc ← fold_result add_channel (out_channels resp) acc; fold_result add_subchannel (out_subchannels resp) acc).

(** ** The channel map *)

(** The tokens of a recipient, numbered in the order of their reports. *)
Fixpoint index_tokens (i : Z) (subs : list (string * (Z * option Z))) (tokens : AddressMap TokenChannel) : AddressMap TokenChannel :=
  match subs with
  | [] => tokens
  | (_, (token, last)) :: subs =>
      index_tokens (i + 1) subs
        (am_set token {| tokenIndex := i; noteNonce := match last with Some l => l + 1 | None => 0 end |} tokens)
  end.

Definition created_channel (subs : jsmap string (jsmap string (Z * option Z))) (e : string * ChannelInfo) : Channel :=
  new_Channel (inf_publicKey e.2) (Some (inf_channelKey e.2))
    (am_entries (match map_get e.1 subs with Some s => index_tokens 0 s (new_AddressMap None []) | None => new_AddressMap None [] end)).

Definition buildChannelMap (acc : Outgoing) : result indexer_error (AddressMap Channel) :=
  created ← fold_result (fun channels e =>
    addr ← of_sdk (BigInt e.1); Ok (am_set addr (created_channel (subchannelsByRecipient acc) e) channels))
    (createdChannelMap acc) (new_AddressMap None []);
  fold_result (fun channels e =>
    addr ← of_sdk (BigInt e.1);
    Ok (if am_has addr channels then channels else am_set addr (new_Channel (inf_publicKey e.2) None []) channels))
    (nonCreatedChannelMap acc) created.

(** ** Discovery *)

Section Sync.
Context (outgoing_state : nat -> OutgoingBody -> result http_error ApiOutgoingSyncResponse).
Context (contractAddress address viewingKey : Z) (blockIdentifier : option BigNumberish).

Definition outgoing_post (recipients : option (list string)) (n : nat) (apiCursor : ApiDiscoveryCursor) (blockRef : option BigNumberish)
  : result http_error ApiOutgoingSyncResponse :=
  outgoing_state n
    {| ob_contract_address := toHex contractAddress; ob_sender_address := toHex address; ob_viewing_key := toHex viewingKey;
       ob_cursor := apiCursor; ob_block_ref := pin blockRef blockIdentifier; ob_recipients := recipients |}.

(** [recipients === "total-only"]: the pages are read for their count alone. *)
Definition discoverTotal (fuel : nat) : option (result indexer_error (BigNumberish * Z)) :=
  match page_loop (outgoing_post None) out_block_ref out_cursor pruneCompleteCursor (fun s _ => Ok s) fuel 0 empty_cursor None tt with
  | None => None
  | Some (Err e) => Some (Err e)
  | Some (Ok (_, apiCursor, blockRef)) =>
      Some (match total_n_channels apiCursor with None => Err INoTotal | Some total => Ok (blockRef, total) end)
  end.

(** The channel of the caller's cursor, if it has a key. *)
Definition resolved (cursorMap : option (AddressMap Channel)) (r : Z) : option (Channel * Z) :=
  match cursorMap with
  | None => None
  | Some m => match (am_get r None m).1 with
              | Some ch => match ch_key ch with Some key => if key =? 0 then None else Some (ch, key) | None => None end
              | None => None
              end
  end.

(** The first cursor: everything, or the subchannels of the recipients if all their channels are known. *)
Definition targeted_cursor (cursorMap : option (AddressMap Channel)) (recipients : list Z) : ApiDiscoveryCursor :=
  if forallb (fun r => match resolved cursorMap r with Some _ => true | None => false end) recipients then
    {| channel_discovery_complete := true; total_n_channels := None; last_channel_index := None;
       channels := Some (fold_left (fun m r =>
         match resolved cursorMap r with
         | Some (ch, key) => map_set (toHex r) (channel_to_api key (am_entries (ch_tokens ch))) m
         | None => m
         end) recipients []) |}
  else with_channels empty_cursor [].

Definition delete_others (requested : list Z) (channels : AddressMap Channel) : AddressMap Channel :=
  fold_left (fun m key => if bool_decide (key ∈ requested) then m else (am_delete key m).2) (am_keys channels) channels.

(** [recipients] is [None] for ["all"]. The answer: the block, the channels and the total. *)
Definition discoverChannels (recipients : option (list Z)) (cursor : option (AddressMap Channel)) (fuel : nat)
  : option (result indexer_error (BigNumberish * AddressMap Channel * option Z)) :=
  let apiCursor := match recipients with None => channelMapToApiCursor cursor false | Some rs => targeted_cursor cursor rs end in
  match page_loop (outgoing_post (option_map (map toHex) recipients)) out_block_ref out_cursor pruneCompleteCursor
          accumulateOutgoingResponse fuel 0 apiCursor None new_Outgoing with
  | None => None
  | Some (Err e) => Some (Err e)
  | Some (Ok (acc, apiCursor, blockRef)) =>
      Some (channels ← buildChannelMap acc;
            Ok (blockRef, match recipients with None => channels | Some rs => delete_others rs channels end, total_n_channels apiCursor))
  end.
End Sync.

(** ** The other requests *)

Record PreflightReply : Type := { sender_registered : bool; channel_exists : bool; subchannel_exists : bool }.

Definition discoverRequirement (reply : result http_error PreflightReply) : result http_error SetupRequirement :=
  resp ← reply;
  Ok (if negb (sender_registered resp) then Register
      else if negb (channel_exists resp) then SetupChannel
      else if negb (subchannel_exists resp) then SetupToken
      else Ready).

Record HistoryBody : Type := {
  hb_contract_address : string;
  hb_user_address : string;
  hb_max_transactions : Z;
  hb_cursor : ApiHistoryCursor;
  hb_block_ref : option BigNumberish;
  hb_last_known_block : option string }.

Record HistoryOptions : Type := {
  ho_maxTransactions : option Z;
  ho_lastKnownBlock : option string;
  ho_blockIdentifier : option BigNumberish;
  ho_historyCursor : option HistoryCursor }.

Definition history_body (contractAddress userAddress : Z) (notesCursor : NotesCursor) (channelCursor : ChannelCursor) (options : HistoryOptions)
  : HistoryBody :=
  {| hb_contract_address := toHex contractAddress; hb_user_address := toHex userAddress;
     hb_max_transactions := default 50 (ho_maxTransactions options);
     hb_cursor := historyCursorToApi (default (buildHistoryCursor userAddress notesCursor channelCursor) (ho_historyCursor options));
     hb_block_ref := ho_blockIdentifier options;
     hb_last_known_block :=
       match ho_blockIdentifier options, ho_lastKnownBlock options with
       | None, Some b => if String.eqb b "" then None else Some b
       | _, _ => None
       end |}.

Definition fetchHistory (history : HistoryBody -> result http_error ApiHistoryResponse) (contractAddress userAddress : Z)
  (notesCursor : NotesCursor) (channelCursor : ChannelCursor) (options : HistoryOptions) : result indexer_error HistoryPage :=
  resp ← of_http (history (history_body contractAddress userAddress notesCursor channelCursor options));
  match apiResponseToHistoryPage resp with Some page => Ok page | None => Err (ISdk JsSyntaxError) end.

(** The health of the service: its [status] field, or any failure. *)
Definition isHealthy (health : result http_error string) : bool :=
  match health with Ok status => String.eqb status "OK" | Err _ => false end.
