(* ===== verification/IndexerOutgoing.v ===== *)
(** * The channels that the indexer reports

    Theorems on [IndexerChannels]: what [discoverChannels] makes of the pages of a service that
    spells felts canonically, in terms of what the service reported and in which order. *)
From Stdlib Require Import ZArith Lia.
From stdpp Require Import base tactics list strings.
From S2P Require Import Prelude JsMap Convert Interfaces Channel Http IndexerCursor IndexerChannels.

(** ** Reports *)

Record ReportedChannel : Type := { rc_recipient : Z; rc_publicKey : Z; rc_key : Z; rc_precomputed : bool }.
Record ReportedSubchannel : Type := { rs_recipient : Z; rs_token : Z; rs_last : option Z }.
Record ReportedPage : Type := {
  rp_block : BigNumberish;
  rp_channels : list ReportedChannel;
  rp_subchannels : list ReportedSubchannel;
  rp_cursor : ApiDiscoveryCursor }.

Definition spell_channel (c : ReportedChannel) : ApiOutgoingChannel :=
  {| aoc_recipient_addr := toHex (rc_recipient c); aoc_recipient_public_key := toHex (rc_publicKey c);
     aoc_channel_key := toHex (rc_key c); aoc_precomputed := rc_precomputed c |}.
Definition spell_subchannel (s : ReportedSubchannel) : ApiOutgoingSubchannelInfo :=
  {| aos_recipient_addr := toHex (rs_recipient s); aos_token := toHex (rs_token s); aos_last_note_index := rs_last s |}.
Definition spell_page (p : ReportedPage) : ApiOutgoingSyncResponse :=
  {| out_block_ref := rp_block p; out_channels := map spell_channel (rp_channels p);
     out_subchannels := map spell_subchannel (rp_subchannels p); out_cursor := rp_cursor p |}.

Definition channel_felts (c : ReportedChannel) : Prop := 0 <= rc_recipient c /\ 0 <= rc_publicKey c /\ 0 <= rc_key c.
Definition subchannel_felts (s : ReportedSubchannel) : Prop := 0 <= rs_recipient s /\ 0 <= rs_token s.
Definition page_felts (p : ReportedPage) : Prop := Forall channel_felts (rp_channels p) /\ Forall subchannel_felts (rp_subchannels p).

(** ** What the reports say *)

(** Every element once, where it occurs first. *)
Definition firsts (l : list Z) : list Z := fold_left (fun acc t => if decide (t ∈ acc) then acc else acc ++ [t]) l [].

(** The last report of a channel that exists, and of one that is precomputed. *)
Definition last_report (pre : bool) (a : Z) (cs : list ReportedChannel) : option ReportedChannel :=
  last (filter (fun c => rc_recipient c = a /\ rc_precomputed c = pre) cs).

Definition tokens_reported (a : Z) (ss : list ReportedSubchannel) : list Z :=
  map rs_token (filter (fun s => rs_recipient s = a) ss).

(** The last note index that was reported for a token; [None] while only [null] was. *)
Definition last_index (a t : Z) (ss : list ReportedSubchannel) : option Z :=
  last (omap rs_last (filter (fun s => rs_recipient s = a /\ rs_token s = t) ss)).

Definition reported_token (a : Z) (ss : list ReportedSubchannel) (i : nat) (t : Z) : Z * TokenChannel :=
  (t, {| tokenIndex := Z.of_nat i; noteNonce := match last_index a t ss with Some l => l + 1 | None => 0 end |}).

Definition reported_channel (a : Z) (cs : list ReportedChannel) (ss : list ReportedSubchannel) : option Channel :=
  match last_report false a cs, last_report true a cs with
  | Some c, _ => Some (new_Channel (rc_publicKey c) (Some (rc_key c)) (imap (reported_token a ss) (firsts (tokens_reported a ss))))
  | None, Some c => Some (new_Channel (rc_publicKey c) None [])
  | None, None => None
  end.

(** ** Lemmas on first occurrences *)

Lemma firsts_snoc l t : firsts (l ++ [t]) = if decide (t ∈ firsts l) then firsts l else firsts l ++ [t].
Proof. unfold firsts. by rewrite fold_left_app. Qed.

Lemma elem_of_firsts l x : x ∈ firsts l <-> x ∈ l.
Proof.
  induction l as [|t l IH] using rev_ind; [done|]. rewrite firsts_snoc, elem_of_app, list_elem_of_singleton, <- IH.
  case_decide as Ht; [|by rewrite elem_of_app, list_elem_of_singleton]. split; [tauto|]. intros [?| ->]; done.
Qed.

Lemma NoDup_firsts l : NoDup (firsts l).
Proof.
  induction l as [|t l IH] using rev_ind; [apply NoDup_nil_2|]. rewrite firsts_snoc. case_decide as Ht; [done|].
  apply NoDup_app. split_and!; [done| |apply NoDup_singleton]. by intros x Hx ->%list_elem_of_singleton.
Qed.

(** ** The token maps *)

Definition reports (a : Z) (ss : list ReportedSubchannel) : jsmap string (Z * option Z) :=
  map (fun t => (toHex t, (t, last_index a t ss))) (firsts (tokens_reported a ss)).

Lemma map_get_hex {V} (f : Z -> V) (l : list Z) t : Forall (fun x => 0 <= x) l -> 0 <= t ->
  map_get (toHex t) (map (fun x => (toHex x, f x)) l) = if decide (t ∈ l) then Some (f t) else None.
Proof.
  intros Hl Ht. induction Hl as [|x l Hx _ IH]; cbn; [by rewrite decide_False by apply not_elem_of_nil|].
  destruct (decide (t = x)) as [->|Hne].
  - rewrite !decide_True; [done|by left|done].
  - rewrite (decide_False (P := toHex t = toHex x)), IH; [|by intros ?%toHex_inj].
    destruct (decide (t ∈ l)); [by rewrite decide_True by (by right)|]. rewrite decide_False; [done|].
    rewrite elem_of_cons. tauto.
Qed.

Lemma map_set_hex {V} (f g : Z -> V) (l : list Z) t : Forall (fun x => 0 <= x) l -> 0 <= t -> NoDup l ->
  (forall x, x <> t -> g x = f x) ->
  map_set (toHex t) (g t) (map (fun x => (toHex x, f x)) l) = map (fun x => (toHex x, g x)) (if decide (t ∈ l) then l else l ++ [t]).
Proof.
  intros Hl Ht Hnd Hfg. induction Hl as [|x l Hx Hl IH]; cbn; [by rewrite decide_False by apply not_elem_of_nil|].
  apply NoDup_cons in Hnd as [Hxl Hnd]. destruct (decide (t = x)) as [->|Hne].
  - rewrite decide_True by done. rewrite (decide_True (P := x ∈ x :: l)) by (by left). cbn. f_equal.
    apply map_ext_in. intros y Hy%list_elem_of_In. rewrite Hfg; [done|]. by intros ->.
  - rewrite (decide_False (P := toHex t = toHex x)) by (by intros ?%toHex_inj). rewrite IH by done.
    destruct (decide (t ∈ l)) as [Hin|Hin].
    + rewrite decide_True by (by right). cbn. by rewrite Hfg.
    + rewrite decide_False by (rewrite elem_of_cons; tauto). cbn. by rewrite Hfg.
Qed.

Lemma last_index_snoc a t ss s : last_index a t (ss ++ [s]) =
  if decide (rs_recipient s = a /\ rs_token s = t) then match rs_last s with Some l => Some l | None => last_index a t ss end
  else last_index a t ss.
Proof.
  unfold last_index. rewrite filter_app, filter_cons, filter_nil. case_decide; [|by rewrite app_nil_r].
  rewrite omap_app. cbn. destruct (rs_last s); [by rewrite last_snoc|by rewrite app_nil_r].
Qed.

Lemma tokens_reported_snoc a ss s : tokens_reported a (ss ++ [s]) =
  tokens_reported a ss ++ (if decide (rs_recipient s = a) then [rs_token s] else []).
Proof.
  unfold tokens_reported. rewrite filter_app, map_app, filter_cons, filter_nil. by case_decide.
Qed.

Lemma tokens_nonneg a ss : Forall subchannel_felts ss -> Forall (fun t => 0 <= t) (firsts (tokens_reported a ss)).
Proof.
  intros Hss. apply list.Forall_forall. intros t Ht. rewrite elem_of_firsts in Ht. unfold tokens_reported in Ht.
  apply list_elem_of_fmap in Ht as (s & -> & [_ Hs]%list_elem_of_filter). rewrite list.Forall_forall in Hss. by apply Hss.
Qed.

(** ** The accumulators hold the reports *)

Definition info (c : ReportedChannel) : ChannelInfo := {| inf_publicKey := rc_publicKey c; inf_channelKey := rc_key c |}.
Definition hex_keys {V} (m : jsmap string V) : Prop := Forall (fun k => exists a, 0 <= a /\ k = toHex a) (map_keys m).

Record accumulated (cs : list ReportedChannel) (ss : list ReportedSubchannel) (acc : Outgoing) : Prop := {
  ac_wf : map_wf (createdChannelMap acc);
  ac_wf' : map_wf (nonCreatedChannelMap acc);
  ac_hex : hex_keys (createdChannelMap acc);
  ac_hex' : hex_keys (nonCreatedChannelMap acc);
  ac_created : forall a, 0 <= a -> map_get (toHex a) (createdChannelMap acc) = option_map info (last_report false a cs);
  ac_nonCreated : forall a, 0 <= a -> map_get (toHex a) (nonCreatedChannelMap acc) =
    match last_report false a cs with Some _ => None | None => option_map info (last_report true a cs) end;
  ac_subchannels : forall a, 0 <= a -> map_get (toHex a) (subchannelsByRecipient acc) =
    match reports a ss with [] => None | l => Some l end }.

Lemma accumulated_nil : accumulated [] [] new_Outgoing.
Proof. split; try done; try apply NoDup_nil_2; apply Forall_nil_2. Qed.

Lemma last_report_snoc pre a cs c : last_report pre a (cs ++ [c]) =
  if eqb (rc_precomputed c) pre then if decide (rc_recipient c = a) then Some c else last_report pre a cs
  else last_report pre a cs.
Proof.
  unfold last_report. rewrite filter_app, filter_cons, filter_nil. destruct (eqb (rc_precomputed c) pre) eqn:He.
  - apply eqb_prop in He. destruct (decide (rc_recipient c = a)).
    + by rewrite decide_True, last_snoc.
    + rewrite decide_False by (by intros [? _]). by rewrite app_nil_r.
  - apply eqb_false_iff in He. rewrite decide_False by (by intros [_ ?]). by rewrite app_nil_r.
Qed.

Lemma hex_keys_set {V} (m : jsmap string V) a v : 0 <= a -> hex_keys m -> hex_keys (map_set (toHex a) v m).
Proof.
  unfold hex_keys. intros Ha Hm. rewrite map_keys_set. destruct (map_has _ m); [done|]. apply Forall_app. split; [done|].
  apply list.Forall_singleton. by exists a.
Qed.

Lemma hex_keys_delete {V} (m : jsmap string V) k : hex_keys m -> hex_keys (map_delete k m).
Proof.
  unfold hex_keys. rewrite !list.Forall_forall. intros Hm x Hx. apply Hm.
  eapply elem_of_submseteq; [exact Hx|]. apply sublist_submseteq, map_keys_delete.
Qed.

Lemma add_channel_ok cs ss acc c : accumulated cs ss acc -> channel_felts c ->
  exists acc', add_channel acc (spell_channel c) = Ok acc' /\ accumulated (cs ++ [c]) ss acc'.
Proof.
  intros [Hwf Hwf' Hh Hh' Hc Hn Hs] (Hr & Hp & Hk). unfold add_channel, spell_channel.
  cbn [aoc_recipient_addr aoc_recipient_public_key aoc_channel_key aoc_precomputed].
  rewrite !BigInt_toHex_ok by done. cbn [mbind result_bind]. eexists. split; [reflexivity|].
  destruct (rc_precomputed c) eqn:Hpre.
  - unfold map_has. rewrite Hc by done. destruct (last_report false (rc_recipient c) cs) as [c0|] eqn:Hl; cbn [option_map].
    + split; try done; intros a Ha; rewrite !last_report_snoc, Hpre; cbn [eqb]; [by apply Hc|]. rewrite Hn by done.
      destruct (decide (rc_recipient c = a)) as [<-|]; [by rewrite Hl|done].
    + split; cbn [createdChannelMap nonCreatedChannelMap subchannelsByRecipient]; try done;
        [by apply map_set_wf|by apply hex_keys_set| |]; intros a Ha; rewrite !last_report_snoc, Hpre; cbn [eqb]; [by apply Hc|].
      rewrite map_get_set, Hn by done. destruct (decide (rc_recipient c = a)) as [<-|Hne].
      * rewrite decide_True by done. by rewrite Hl.
      * rewrite decide_False; [done|]. intros ?%toHex_inj; congruence.
  - split; cbn [createdChannelMap nonCreatedChannelMap subchannelsByRecipient]; try done;
      [by apply map_set_wf|by apply map_delete_wf|by apply hex_keys_set|by apply hex_keys_delete| |]; intros a Ha;
      rewrite !last_report_snoc, Hpre; cbn [eqb].
    + rewrite map_get_set, Hc by done. destruct (decide (rc_recipient c = a)) as [<-|Hne].
      * by rewrite decide_True.
      * rewrite decide_False; [done|]. intros ?%toHex_inj; congruence.
    + rewrite map_get_delete, Hn by done. destruct (decide (rc_recipient c = a)) as [<-|Hne].
      * by rewrite decide_True.
      * rewrite decide_False; [done|]. intros ?%toHex_inj; congruence.
Qed.

Lemma reports_snoc_other a ss s : rs_recipient s <> a -> reports a (ss ++ [s]) = reports a ss.
Proof.
  intros Ha. unfold reports. rewrite tokens_reported_snoc, decide_False, app_nil_r by done. apply map_ext_in. intros t _.
  by rewrite last_index_snoc, decide_False by (by intros [? _]).
Qed.

Lemma reports_snoc a ss s : rs_recipient s = a -> Forall subchannel_felts ss -> subchannel_felts s ->
  reports a (ss ++ [s]) = match map_get (toHex (rs_token s)) (reports a ss), rs_last s with
    | Some _, None => reports a ss
    | _, last => map_set (toHex (rs_token s)) (rs_token s, last) (reports a ss)
    end.
Proof.
  intros Ha Hss [_ Ht]. pose proof (tokens_nonneg a ss Hss) as Hpos. set (l := firsts (tokens_reported a ss)) in *.
  assert (Hnd : NoDup l) by apply NoDup_firsts. unfold reports. fold l.
  rewrite tokens_reported_snoc, decide_True, firsts_snoc by done. fold l.
  rewrite (map_get_hex (fun t => (t, last_index a t ss))) by done.
  assert (Hlast : forall t, last_index a t (ss ++ [s]) =
    if decide (rs_token s = t) then match rs_last s with Some i => Some i | None => last_index a t ss end else last_index a t ss).
  { intros t. rewrite last_index_snoc. destruct (decide (rs_token s = t)) as [Hd|Hd].
    - by rewrite (decide_True (P := rs_recipient s = a /\ rs_token s = t)).
    - rewrite decide_False; [done|]. by intros [_ ?]. }
  set (t0 := rs_token s) in *. set (g := fun t => (t, last_index a t (ss ++ [s]))).
  assert (Hset : (t0 ∈ l -> rs_last s <> None) ->
    map (fun t => (toHex t, g t)) (if decide (t0 ∈ l) then l else l ++ [t0])
      = map_set (toHex t0) (t0, rs_last s) (map (fun t => (toHex t, (t, last_index a t ss))) l)).
  { intros Hne. rewrite <- (map_set_hex (fun t => (t, last_index a t ss)) g) by
      (try done; intros x Hx; unfold g; by rewrite Hlast, decide_False by congruence).
    f_equal. unfold g. f_equal. rewrite Hlast, decide_True by done. destruct (rs_last s) as [i|]; [done|].
    destruct (decide (t0 ∈ l)) as [Hin|Hin]; [by elim (Hne Hin)|]. unfold last_index.
    assert (Hnone : filter (fun s => rs_recipient s = a /\ rs_token s = t0) ss = []); [|by rewrite Hnone].
    unfold l in Hin. rewrite elem_of_firsts in Hin. unfold tokens_reported in Hin. destruct (filter (fun s => rs_recipient s = a /\ rs_token s = t0) ss) as [|x f] eqn:Hf; [done|].
    assert (Hx : x ∈ filter (fun s => rs_recipient s = a /\ rs_token s = t0) ss) by (rewrite Hf; by left).
    apply list_elem_of_filter in Hx as [[Hx1 Hx2] Hx]. elim Hin. apply list_elem_of_fmap. exists x.
    split; [done|]. by apply list_elem_of_filter. }
  destruct (decide (t0 ∈ l)) as [Hin|Hin].
  - destruct (rs_last s) as [i|] eqn:Hi; [by apply Hset|]. apply map_ext_in. intros t _. rewrite Hlast. by case_decide.
  - apply Hset. done.
Qed.

Lemma add_subchannel_ok cs ss acc s : accumulated cs ss acc -> Forall subchannel_felts ss -> subchannel_felts s ->
  exists acc', add_subchannel acc (spell_subchannel s) = Ok acc' /\ accumulated cs (ss ++ [s]) acc'.
Proof.
  intros [Hwf Hwf' Hh Hh' Hc Hn Hs] Hss Hf. pose proof Hf as [Ha Ht]. unfold add_subchannel, spell_subchannel.
  cbn [aos_recipient_addr aos_token aos_last_note_index]. rewrite Hs by done.
  replace (default [] _) with (reports (rs_recipient s) ss) by (by destruct (reports (rs_recipient s) ss)).
  rewrite BigInt_toHex_ok by done.
  assert (Hfin : accumulated cs (ss ++ [s]) {| createdChannelMap := createdChannelMap acc;
    subchannelsByRecipient := map_set (toHex (rs_recipient s)) (reports (rs_recipient s) (ss ++ [s])) (subchannelsByRecipient acc);
    nonCreatedChannelMap := nonCreatedChannelMap acc |}).
  { split; cbn [createdChannelMap nonCreatedChannelMap subchannelsByRecipient]; try done.
    intros a Ha0. rewrite map_get_set. destruct (decide (rs_recipient s = a)) as [<-|Hne].
    - rewrite decide_True by done. destruct (reports (rs_recipient s) (ss ++ [s])) eqn:Hr; [|done]. exfalso.
      unfold reports in Hr. apply map_eq_nil in Hr. rewrite tokens_reported_snoc, decide_True, firsts_snoc in Hr by done.
      case_decide as Hd; [by rewrite Hr in Hd; apply elem_of_nil in Hd|]. by destruct (firsts _).
    - rewrite decide_False by (intros ?%toHex_inj; congruence). by rewrite reports_snoc_other, Hs. }
  rewrite (reports_snoc (rs_recipient s) ss s) in Hfin by done.
  destruct (map_get (toHex (rs_token s)) (reports (rs_recipient s) ss)), (rs_last s); cbn [mbind result_bind];
    eexists; (split; [reflexivity|exact Hfin]).
Qed.

Lemma fold_add_channels cs0 cs ss acc : accumulated cs0 ss acc -> Forall channel_felts cs ->
  exists acc', fold_result add_channel (map spell_channel cs) acc = Ok acc' /\ accumulated (cs0 ++ cs) ss acc'.
Proof.
  revert cs0 acc. induction cs as [|c cs IH]; intros cs0 acc Hacc Hf; [exists acc; by rewrite app_nil_r|].
  apply Forall_cons in Hf as [Hc Hf]. destruct (add_channel_ok _ _ _ c Hacc Hc) as (acc1 & Hadd & Hacc1).
  destruct (IH _ _ Hacc1 Hf) as (acc2 & Hrun & Hacc2). exists acc2. rewrite <- app_assoc in Hacc2. split; [|done].
  cbn [map fold_result]. rewrite Hadd. exact Hrun.
Qed.

Lemma fold_add_subchannels cs ss0 ss acc : accumulated cs ss0 acc -> Forall subchannel_felts (ss0 ++ ss) ->
  exists acc', fold_result add_subchannel (map spell_subchannel ss) acc = Ok acc' /\ accumulated cs (ss0 ++ ss) acc'.
Proof.
  revert ss0 acc. induction ss as [|s ss IH]; intros ss0 acc Hacc Hf; [exists acc; by rewrite app_nil_r|].
  pose proof Hf as [Hf0 [Hs _]%Forall_cons]%Forall_app. destruct (add_subchannel_ok _ _ _ s Hacc Hf0 Hs) as (acc1 & Hadd & Hacc1).
  change (s :: ss) with ([s] ++ ss) in *. rewrite app_assoc in Hf |- *.
  destruct (IH _ _ Hacc1 Hf) as (acc2 & Hrun & Hacc2). exists acc2. split; [|done].
  cbn [map app fold_result]. rewrite Hadd. exact Hrun.
Qed.

Lemma pages_accumulated pages cs ss acc : accumulated cs ss acc -> Forall subchannel_felts ss -> Forall page_felts pages ->
  exists acc', fold_result accumulateOutgoingResponse (map spell_page pages) acc = Ok acc' /\
    accumulated (cs ++ flat_map rp_channels pages) (ss ++ flat_map rp_subchannels pages) acc'.
Proof.
  revert cs ss acc. induction pages as [|p pages IH]; intros cs ss acc Hacc Hss Hp; [exists acc; by rewrite !app_nil_r|].
  apply Forall_cons in Hp as [[Hpc Hps] Hp]. destruct (fold_add_channels _ _ _ _ Hacc Hpc) as (acc1 & H1 & Hacc1).
  assert (Hss' : Forall subchannel_felts (ss ++ rp_subchannels p)) by (by apply Forall_app).
  destruct (fold_add_subchannels _ _ _ _ Hacc1 Hss') as (acc2 & H2 & Hacc2).
  destruct (IH _ _ _ Hacc2 Hss' Hp) as (acc3 & H3 & Hacc3). rewrite <- !app_assoc in Hacc3. exists acc3. split; [|exact Hacc3].
  assert (Hstep : accumulateOutgoingResponse acc (spell_page p) = Ok acc2).
  { unfold accumulateOutgoingResponse. cbn [spell_page out_channels out_subchannels]. rewrite H1. cbn [mbind result_bind]. by rewrite H2. }
  cbn [map fold_result]. rewrite Hstep. exact H3.
Qed.

(** ** The channel map holds the reported channels *)

Lemma read_hex {V W} (f : string * V -> W) (over : bool) (m : jsmap string V) (chs : AddressMap W) :
  map_wf m -> hex_keys m -> plain_map chs ->
  exists chs', fold_result (fun channels e => addr ← of_sdk (BigInt e.1);
      Ok (if negb over && am_has addr channels then channels else am_set addr (f e) channels)) m chs = Ok chs' /\ plain_map chs' /\
    forall a, 0 <= a -> map_get a (am_map chs') =
      match map_get (toHex a) m, map_get a (am_map chs) with
      | Some v, None => Some (f (toHex a, v))
      | Some v, Some c => Some (if over then f (toHex a, v) else c)
      | None, c => c
      end.
Proof.
  unfold hex_keys, map_wf, map_keys. revert chs. induction m as [|[k v] m IH]; intros chs Hwf Hh Hp.
  { exists chs. by cbn. }
  rewrite fmap_cons in Hwf, Hh. apply NoDup_cons in Hwf as [Hk Hwf]. apply Forall_cons in Hh as [(b & Hb & Hkb) Hh].
  cbn [fst] in Hk, Hkb. subst k.
  cbn [fold_result fst]. rewrite BigInt_toHex_ok by done. cbn [of_sdk mbind result_bind].
  destruct (plain_set chs b (f (toHex b, v)) Hp) as [Hps Hset]. destruct (plain_fields chs Hp) as [Hconv _].
  set (chs1 := if negb over && am_has b chs then chs else am_set b (f (toHex b, v)) chs).
  assert (Hp1 : plain_map chs1) by (unfold chs1; by destruct (negb over && am_has b chs)).
  destruct (IH chs1 Hwf Hh Hp1) as (chs' & Hrun & Hp' & Hget). exists chs'. split_and!; [exact Hrun|done|]. intros a Ha.
  rewrite Hget by done. cbn [map_get].
  assert (Hone : map_get a (am_map chs1) = if decide (a = b) then
    match map_get b (am_map chs) with Some c => Some (if over then f (toHex b, v) else c) | None => Some (f (toHex b, v)) end
    else map_get a (am_map chs)).
  { unfold chs1, am_has, map_has. rewrite Hconv. destruct over; cbn [negb andb].
    - rewrite Hset, map_get_set. case_decide; [by case_match|done].
    - destruct (map_get b (am_map chs)) eqn:Hbc; [case_decide; [by subst|done]|].
      rewrite Hset, map_get_set. by case_decide. }
  rewrite Hone. destruct (decide (a = b)) as [->|Hne].
  - rewrite decide_True by done. rewrite (proj2 (map_get_None (toHex b) m) Hk). by case_match.
  - rewrite decide_False; [done|]. by intros ?%toHex_inj.
Qed.

Lemma index_tokens_reported a ss (l done : list Z) :
  index_tokens (Z.of_nat (length done)) (map (fun t => (toHex t, (t, last_index a t ss))) l)
      (new_AddressMap None (imap (reported_token a ss) done))
    = new_AddressMap None (imap (reported_token a ss) (done ++ l)).
Proof.
  revert done. induction l as [|t l IH]; intros done; cbn [map index_tokens]; [by rewrite app_nil_r|].
  rewrite am_set_snoc. specialize (IH (done ++ [t])). rewrite length_app, <- app_assoc in IH. cbn [length app] in IH.
  rewrite <- IH. f_equal; [lia|]. f_equal. rewrite imap_app. cbn. unfold reported_token at 3. by rewrite Nat.add_0_r.
Qed.

Lemma imap_keys a ss i l : (imap (fun n => reported_token a ss (i + n)) l).*1 = l.
Proof.
  revert i. induction l as [|t l IH]; intros i; [done|]. cbn. f_equal. rewrite <- (IH (S i)) at 2. f_equal.
  apply imap_ext. intros n x _. cbn. by rewrite Nat.add_succ_r.
Qed.

Lemma created_is_reported a cs ss acc v : 0 <= a -> accumulated cs ss acc ->
  created_channel (subchannelsByRecipient acc) (toHex a, v)
    = new_Channel (inf_publicKey v) (Some (inf_channelKey v)) (imap (reported_token a ss) (firsts (tokens_reported a ss))).
Proof.
  intros Ha Hacc. unfold created_channel. cbn [fst snd]. f_equal. rewrite (ac_subchannels _ _ _ Hacc a Ha).
  assert (Hr : reports a ss = map (fun t => (toHex t, (t, last_index a t ss))) (firsts (tokens_reported a ss))) by done.
  destruct (firsts (tokens_reported a ss)) as [|t l] eqn:Hl; [by rewrite Hr|].
  transitivity (am_entries (index_tokens 0 (reports a ss) (new_AddressMap None []))); [by destruct (reports a ss)|].
  rewrite Hr. pose proof (index_tokens_reported a ss (t :: l) []) as Hi. change (Z.of_nat (length [])) with 0 in Hi. cbn [app] in Hi.
  change (imap (reported_token a ss) []) with (@nil (Z * TokenChannel)) in Hi. rewrite Hi. unfold am_entries.
  apply new_AddressMap_map. unfold map_wf, map_keys. rewrite (imap_keys a ss 0). rewrite <- Hl. apply NoDup_firsts.
Qed.

Lemma build_reported cs ss acc : accumulated cs ss acc ->
  exists channels, buildChannelMap acc = Ok channels /\ plain_map channels /\
    forall a, 0 <= a -> map_get a (am_map channels) = reported_channel a cs ss.
Proof.
  intros Hacc. pose proof Hacc as [Hwf Hwf' Hh Hh' Hc Hn _].
  destruct (read_hex (created_channel (subchannelsByRecipient acc)) true _ (new_AddressMap None []) Hwf Hh (plain_new [] NoDup_nil_2))
    as (chs & Hrun & Hp & Hget).
  destruct (read_hex (fun e => new_Channel (inf_publicKey e.2) None []) false _ chs Hwf' Hh' Hp) as (chs' & Hrun' & Hp' & Hget').
  exists chs'. split_and!; [|done|].
  - unfold buildChannelMap. cbn [negb andb] in Hrun, Hrun'. rewrite Hrun. exact Hrun'.
  - intros a Ha. rewrite Hget', Hget, Hn, Hc by done. unfold reported_channel.
    destruct (last_report false a cs) as [c|]; cbn [option_map].
    + by rewrite (created_is_reported a cs ss acc).
    + by destruct (last_report true a cs).
Qed.

Lemma delete_list (p : Z -> bool) (ks : list Z) {V} (am : AddressMap V) : plain_map am ->
  plain_map (fold_left (fun m key => if p key then m else (am_delete key m).2) ks am) /\
  forall a, map_get a (am_map (fold_left (fun m key => if p key then m else (am_delete key m).2) ks am))
    = if decide (a ∈ ks /\ p a = false) then None else map_get a (am_map am).
Proof.
  revert am. induction ks as [|k ks IH]; intros am Hp; cbn [fold_left].
  { split; [done|]. intros a. rewrite decide_False; [done|]. by intros [?%elem_of_nil _]. }
  destruct (p k) eqn:Hk.
  - destruct (IH am Hp) as [Hp' Hget]. split; [done|]. intros a. rewrite Hget.
    destruct (decide (a ∈ ks /\ p a = false)) as [[? ?]|Hn].
    + by rewrite decide_True by (split; [by right|done]).
    + rewrite decide_False; [done|]. intros [[->|?]%elem_of_cons ?]; [congruence|tauto].
  - assert (Hd : plain_map (am_delete k am).2 /\ am_map (am_delete k am).2 = map_delete k (am_map am)).
    { destruct (plain_fields am Hp) as [Hc _]. unfold am_delete. cbn [snd]. rewrite Hc. split; [|done].
      apply plain_with; [done|]. apply map_delete_wf, Hp. }
    destruct Hd as [Hpd Hmd]. destruct (IH _ Hpd) as [Hp' Hget]. split; [done|]. intros a. rewrite Hget, Hmd.
    rewrite map_get_delete by (by destruct Hp). destruct (decide (a ∈ ks /\ p a = false)) as [[? ?]|Hn].
    + by rewrite decide_True by (split; [by right|done]).
    + destruct (decide (a = k)) as [->|Hak].
      * by rewrite decide_True by (split; [by left|done]).
      * rewrite decide_False; [done|]. intros [[->|?]%elem_of_cons ?]; [done|tauto].
Qed.

Lemma delete_others_get rs (am : AddressMap Channel) a : plain_map am ->
  map_get a (am_map (delete_others rs am)) = if decide (a ∈ rs) then map_get a (am_map am) else None.
Proof.
  intros Hp. unfold delete_others. destruct (delete_list (fun k => bool_decide (k ∈ rs)) (am_keys am) am Hp) as [_ ->].
  destruct (decide (a ∈ rs)) as [Hin|Hin].
  - rewrite decide_False; [done|]. intros [_ Hb]. by apply bool_decide_eq_false in Hb.
  - case_decide as Hd; [done|]. apply map_get_None. intros Hk. apply Hd. split; [done|]. by apply bool_decide_eq_false.
Qed.

(** ** Channel discovery *)

(** C20: Whatever pages the service answers with, in its canonical spelling of felts, channel discovery ends
    with the last of them and returns, for every recipient asked for, the channel as it was last reported
    if it exists, and else as it was last precomputed, in whatever order and on whatever pages; an existing
    channel has the tokens in the order in which they were first reported, each with the number after
    its last reported note index. The count is that of the last page; a request that fails is the error. *)
Theorem indexer_channels_are_reported
  (outgoing_state : nat -> OutgoingBody -> result http_error ApiOutgoingSyncResponse)
  (contractAddress address viewingKey : Z) (blockIdentifier : option BigNumberish)
  (recipients : option (list Z)) (cursor : option (AddressMap Channel)) (pages : list ReportedPage) (e : option http_error) (fuel : nat) :
  Forall page_felts pages -> (length pages < fuel)%nat ->
  talk (outgoing_post outgoing_state contractAddress address viewingKey blockIdentifier (option_map (map toHex) recipients))
    out_block_ref out_cursor pruneCompleteCursor 0
    (match recipients with None => channelMapToApiCursor cursor false | Some rs => targeted_cursor cursor rs end) None
    (map spell_page pages) e ->
  let run := discoverChannels outgoing_state contractAddress address viewingKey blockIdentifier recipients cursor fuel in
  match e with
  | Some e => run = Some (Err (IHttp e))
  | None => exists p channels, last pages = Some p /\ run = Some (Ok (rp_block p, channels, total_n_channels (rp_cursor p))) /\
      forall a, 0 <= a -> map_get a (am_map channels) =
        if match recipients with None => true | Some rs => bool_decide (a ∈ rs) end
        then reported_channel a (flat_map rp_channels pages) (flat_map rp_subchannels pages) else None
  end.
Proof.
  intros Hp Hf Ht run. unfold run, discoverChannels.
  pose proof (page_loop_spec _ _ _ _ accumulateOutgoingResponse _ _ _ _ _ Ht fuel new_Outgoing) as Hl.
  rewrite length_map in Hl. specialize (Hl Hf).
  destruct (pages_accumulated pages [] [] new_Outgoing accumulated_nil (Forall_nil_2 _) Hp) as (acc & Hacc & Hok).
  cbn [app] in Hok. rewrite Hacc in Hl. destruct e as [e|]; [by rewrite Hl|]. destruct Hl as (resp & Hlast & ->).
  change (map spell_page pages) with (spell_page <$> pages) in Hlast. rewrite fmap_last in Hlast. destruct (last pages) as [p|]; [|done]. injection Hlast as <-.
  destruct (build_reported _ _ _ Hok) as (channels & Hb & Hpl & Hget). rewrite Hb. cbn [mbind result_bind].
  eexists p, _. split_and!; [done|reflexivity|]. intros a Ha. destruct recipients as [rs|]; [|by apply Hget].
  rewrite delete_others_get by done. case_bool_decide; [rewrite decide_True by done; by apply Hget|by rewrite decide_False].
Qed.

(** ** A precomputed channel that turns out to exist *)

Definition first_page : ReportedPage :=
  {| rp_block := BN_string "0xb1"; rp_channels := [{| rc_recipient := 9; rc_publicKey := 4; rc_key := 1; rc_precomputed := true |}];
     rp_subchannels := []; rp_cursor := empty_cursor |}.
Definition second_page : ReportedPage :=
  {| rp_block := BN_string "0xb1"; rp_channels := [{| rc_recipient := 9; rc_publicKey := 4; rc_key := 6; rc_precomputed := false |}];
     rp_subchannels := [{| rs_recipient := 9; rs_token := 3; rs_last := None |}; {| rs_recipient := 9; rs_token := 3; rs_last := Some 4 |}];
     rp_cursor := {| channel_discovery_complete := true; total_n_channels := Some 1; last_channel_index := None; channels := None |} |}.

Definition two_outgoing_pages (n : nat) (body : OutgoingBody) : result http_error ApiOutgoingSyncResponse :=
  Ok (spell_page (match n with O => first_page | _ => second_page end)).

Lemma indexer_channels_are_reported_witness :
  exists channels, discoverChannels two_outgoing_pages 1 2 3 None (Some [9]) None 3 = Some (Ok (BN_string "0xb1", channels, Some 1)) /\
    map_get 9 (am_map channels) = Some (new_Channel 4 (Some 6) [(3, {| tokenIndex := 0; noteNonce := 5 |})]).
Proof.
  assert (Hp : Forall page_felts [first_page; second_page]) by (repeat constructor; cbn; lia).
  assert (Ht : talk (outgoing_post two_outgoing_pages 1 2 3 None (Some (map toHex [9]))) out_block_ref out_cursor pruneCompleteCursor 0
    (targeted_cursor None [9]) None (map spell_page [first_page; second_page]) None).
  { apply talk_goes_on; [reflexivity|reflexivity|]. apply talk_ends; reflexivity. }
  destruct (indexer_channels_are_reported two_outgoing_pages 1 2 3 None (Some [9]) None _ None 3 Hp ltac:(cbn; lia) Ht)
    as (p & channels & Hlast & Hrun & Hget).
  injection Hlast as <-. exists channels. split; [exact Hrun|]. rewrite Hget by lia. reflexivity.
Defined.
