(* ===== verification/EllipticScoring.v ===== *)
(** * Scoring of Elliptic responses ([elliptic-proxy/src/scoring.ts])

    The rules, the aggregation of matched elements and the block decision. JavaScript numbers
    are IEEE doubles, computed by [SpecFloat] with 53 bits of precision; a decimal literal is the
    quotient of two integers, correctly rounded. [RULES] is an object literal, so a rule id that
    names a property of [Object.prototype] finds a value that is no rule. *)
From Stdlib Require Import ZArith Floats.SpecFloat Lia.
From stdpp Require Import base tactics list strings.
From S2P Require Import Prelude.

(** ** Numbers *)

Definition number : Type := spec_float.
Definition num_add : number -> number -> number := SFadd 53 1024.
Definition num_mul : number -> number -> number := SFmul 53 1024.
Definition num_div : number -> number -> number := SFdiv 53 1024.
Definition num (z : Z) : number := binary_normalize 53 1024 z 0 false.
(** The literal [n / 10^k]. *)
Definition decimal (n : Z) (k : Z) : number := num_div (num n) (num (10 ^ k)).
(** [a > b], [a >= b]. *)
Definition num_gt (a b : number) : bool := SFltb b a.
Definition num_ge (a b : number) : bool := SFleb b a.

(** ** Responses *)

Record MatchedElement : Type := {
  contribution_percentage : number;
  contribution_usd : option number;
  counterparty_percentage : option number;
  counterparty_usd : option number }.

Record Evaluation : Type := {
  rule_id : string;
  risk_score : option number;
  matched_elements : option (list MatchedElement) }.

Record EllipticResponse : Type := {
  process_status : option string;
  evaluation_source : option (list Evaluation);
  evaluation_destination : option (list Evaluation) }.

(** What [JSON.parse] gives: [null], a value without properties, or a response. *)
Inductive EllipticBody : Type :=
| BodyNull
| BodyPrimitive
| BodyObject (r : EllipticResponse).

(** ** Rules *)

Record RuleThresholds : Type := {
  rule_counterpartyPercentage : number;
  rule_counterpartyUsd : number;
  rule_contributionPercentage : number;
  rule_contributionUsd : number;
  rule_hardBlockUsd : option number }.

Definition ILLICIT_ACTIVITY : string := "8f023e48-b9c2-41c6-8c8a-42a936eee86d".
Definition SANCTIONED_ENTITY : string := "1f86dce1-166a-4749-a5df-3972fae7635a".
Definition OBFUSCATING : string := "1e24a6cf-620a-4c89-b423-5e43b2f13614".
Definition DPRK_BYBIT_EXPLOIT : string := "090208b1-18e3-4da0-94d3-23e7eca5fd92".

Definition RULES : list (string * RuleThresholds) :=
  [(ILLICIT_ACTIVITY, {| rule_counterpartyPercentage := decimal 1 1; rule_counterpartyUsd := num 0;
      rule_contributionPercentage := decimal 1 1; rule_contributionUsd := num 10; rule_hardBlockUsd := Some (num 5000) |});
   (SANCTIONED_ENTITY, {| rule_counterpartyPercentage := num 0; rule_counterpartyUsd := num 0;
      rule_contributionPercentage := decimal 1 1; rule_contributionUsd := num 10; rule_hardBlockUsd := Some (num 5000) |});
   (OBFUSCATING, {| rule_counterpartyPercentage := decimal 1 1; rule_counterpartyUsd := num 0;
      rule_contributionPercentage := decimal 1 1; rule_contributionUsd := num 10; rule_hardBlockUsd := None |});
   (DPRK_BYBIT_EXPLOIT, {| rule_counterpartyPercentage := decimal 1 5; rule_counterpartyUsd := num 0;
      rule_contributionPercentage := decimal 1 1; rule_contributionUsd := num 10; rule_hardBlockUsd := None |})].

Definition HARD_BLOCK_RULES : list string := [ILLICIT_ACTIVITY; SANCTIONED_ENTITY].

Definition ALLOWED_RISK_EXPOSURE : number := decimal 1 2.

(** The properties every object inherits. *)
Definition OBJECT_PROTOTYPE : list string :=
  ["constructor"; "hasOwnProperty"; "isPrototypeOf"; "propertyIsEnumerable"; "toLocaleString"; "toString"; "valueOf";
   "__proto__"; "__defineGetter__"; "__defineSetter__"; "__lookupGetter__"; "__lookupSetter__"].

(** [RULES[id]]: a rule, an inherited property, or [undefined]. *)
Inductive rule_entry : Type := Rule (r : RuleThresholds) | Inherited.

Fixpoint find_rule (id : string) (rules : list (string * RuleThresholds)) : option RuleThresholds :=
  match rules with
  | [] => None
  | (id', r) :: rules => if String.eqb id id' then Some r else find_rule id rules
  end.

Definition RULES_get (id : string) : option rule_entry :=
  match find_rule id RULES with
  | Some r => Some (Rule r)
  | None => if existsb (String.eqb id) OBJECT_PROTOTYPE then Some Inherited else None
  end.

(** ** Aggregation *)

Record Aggregated : Type := {
  agg_counterpartyPercentage : number;
  agg_counterpartyUsd : number;
  agg_contributionPercentage : number;
  agg_contributionUsd : number }.

Definition add_element (a : Aggregated) (e : MatchedElement) : Aggregated :=
  {| agg_counterpartyPercentage :=
       num_add (agg_counterpartyPercentage a)
         (num_mul (num_div (contribution_percentage e) (num 100)) (default (num 0) (counterparty_percentage e)));
     agg_counterpartyUsd := num_add (agg_counterpartyUsd a) (default (num 0) (counterparty_usd e));
     agg_contributionPercentage := num_add (agg_contributionPercentage a) (contribution_percentage e);
     agg_contributionUsd := num_add (agg_contributionUsd a) (default (num 0) (contribution_usd e)) |}.

Definition aggregateElements (elements : list MatchedElement) : Aggregated :=
  fold_left add_element elements
    {| agg_counterpartyPercentage := num 0; agg_counterpartyUsd := num 0; agg_contributionPercentage := num 0; agg_contributionUsd := num 0 |}.

(** [rule.hardBlockUsd != null && aggregated.contributionUsd >= rule.hardBlockUsd]. *)
Definition hard_block (a : Aggregated) (r : RuleThresholds) : bool :=
  match rule_hardBlockUsd r with Some usd => num_ge (agg_contributionUsd a) usd | None => false end.

Definition shouldFilter (a : Aggregated) (r : RuleThresholds) : bool :=
  if hard_block a r then true
  else
    let contributionExceeded :=
      num_gt (agg_contributionUsd a) (rule_contributionUsd r) && num_gt (agg_contributionPercentage a) (rule_contributionPercentage r) in
    let counterpartyExceeded :=
      num_gt (agg_counterpartyUsd a) (rule_counterpartyUsd r) && num_gt (agg_counterpartyPercentage a) (rule_counterpartyPercentage r) in
    contributionExceeded || counterpartyExceeded.

(** ** Triggers *)

Record Trigger : Type := { tr_ruleId : string; tr_percentage : number; tr_riskScore : option number }.

Definition build_trigger (e : Evaluation) : list Trigger :=
  let aggregated := aggregateElements (default [] (matched_elements e)) in
  let rule := RULES_get (rule_id e) in
  let riskScore :=
    match rule with
    | Some (Rule r) =>
        if (existsb (String.eqb (rule_id e)) HARD_BLOCK_RULES && hard_block aggregated r)%bool then Some (num 10) else risk_score e
    | _ => risk_score e
    end in
  let trigger := {| tr_ruleId := rule_id e; tr_percentage := agg_contributionPercentage aggregated; tr_riskScore := riskScore |} in
  match rule with
  | None => [trigger]
  | Some (Rule r) => if shouldFilter aggregated r then [trigger] else []
  | Some Inherited => []  (* every comparison with undefined is false *)
  end.

Definition filterAndBuildTriggers (evaluations : list Evaluation) : list Trigger := flat_map build_trigger evaluations.

Definition fired (t : Trigger) : bool := num_gt (default (tr_percentage t) (tr_riskScore t)) ALLOWED_RISK_EXPOSURE.

(** ** The decision *)

Inductive scoring_reason : Type := Clean | MalformedJson | Incomplete | RuleTriggered | UnknownRule.
#[export] Instance scoring_reason_eq_dec : EqDecision scoring_reason.
Proof. solve_decision. Defined.

Record ScoringResult : Type := { sr_blocked : bool; sr_reason : scoring_reason; sr_triggeringRuleIds : list string }.

(** [new Set(l)] and its elements: each once, where it occurs first. *)
Definition set_of (l : list string) : list string :=
  fold_left (fun acc s => if existsb (String.eqb s) acc then acc else acc ++ [s]) l [].

Definition evaluations (r : EllipticResponse) : list Evaluation :=
  default [] (evaluation_source r) ++ default [] (evaluation_destination r).

(** [scoreResponse]; [parsed] is [None] when [JSON.parse] throws, the result when reading a property
    of [null] throws. *)
Definition scoreResponse (parsed : option EllipticBody) : option ScoringResult :=
  match parsed with
  | None => Some {| sr_blocked := true; sr_reason := MalformedJson; sr_triggeringRuleIds := [] |}
  | Some BodyNull => None
  | Some BodyPrimitive => Some {| sr_blocked := false; sr_reason := Incomplete; sr_triggeringRuleIds := [] |}
  | Some (BodyObject r) =>
      if match process_status r with Some s => String.eqb s "complete" | None => false end then
        let triggers := filterAndBuildTriggers (default [] (evaluation_source r)) ++ filterAndBuildTriggers (default [] (evaluation_destination r)) in
        let firedTriggers := filter (fun t => fired t = true) triggers in
        match firedTriggers with
        | [] => Some {| sr_blocked := false; sr_reason := Clean; sr_triggeringRuleIds := [] |}
        | _ =>
            let ids := set_of (map tr_ruleId firedTriggers) in
            let hasUnknownRule := existsb (fun id => match RULES_get id with None => true | Some _ => false end) ids in
            Some {| sr_blocked := true; sr_reason := if hasUnknownRule then UnknownRule else RuleTriggered; sr_triggeringRuleIds := ids |}
        end
      else Some {| sr_blocked := false; sr_reason := Incomplete; sr_triggeringRuleIds := [] |}
  end.

(** ** Specification *)

(** An evaluation blocks: its rule is known and its exposure passes the thresholds, or its rule is
    unknown; and its risk, which is 10 for a hard block, is above what is allowed. *)
Definition risk_of (e : Evaluation) (a : Aggregated) : number := default (agg_contributionPercentage a) (risk_score e).

Definition blocks (e : Evaluation) : Prop :=
  let a := aggregateElements (default [] (matched_elements e)) in
  match RULES_get (rule_id e) with
  | None => num_gt (risk_of e a) ALLOWED_RISK_EXPOSURE = true
  | Some (Rule r) =>
      hard_block a r = true \/
      shouldFilter a r = true /\ num_gt (risk_of e a) ALLOWED_RISK_EXPOSURE = true
  | Some Inherited => False
  end.

(** Only the rules that override the risk have a hard block. *)
Lemma hard_block_rules id r : RULES_get id = Some (Rule r) -> rule_hardBlockUsd r <> None -> existsb (String.eqb id) HARD_BLOCK_RULES = true.
Proof.
  unfold RULES_get. cbn [find_rule RULES existsb HARD_BLOCK_RULES].
  destruct (String.eqb id ILLICIT_ACTIVITY) eqn:H1; [done|]. destruct (String.eqb id SANCTIONED_ENTITY) eqn:H2; [done|].
  destruct (String.eqb id OBFUSCATING); [by intros [= <-]|]. destruct (String.eqb id DPRK_BYBIT_EXPLOIT); [by intros [= <-]|].
  by destruct (existsb _ _).
Qed.

Lemma ten_is_above : num_gt (num 10) ALLOWED_RISK_EXPOSURE = true.
Proof. vm_compute. reflexivity. Qed.

Lemma build_trigger_spec e :
  (exists t, t ∈ build_trigger e /\ fired t = true) <-> blocks e.
Proof.
  unfold build_trigger, blocks. set (a := aggregateElements _). cbv zeta. destruct (RULES_get (rule_id e)) as [[r|]|] eqn:Hr.
  - unfold shouldFilter. destruct (hard_block a r) eqn:Hh.
    + assert (Hin : existsb (String.eqb (rule_id e)) HARD_BLOCK_RULES = true).
      { apply (hard_block_rules _ _ Hr). unfold hard_block in Hh. by destruct (rule_hardBlockUsd r). }
      rewrite Hin. cbn [andb]. split; [by left|]. intros _. eexists. split; [by left|]. exact ten_is_above.
    + rewrite andb_false_r. destruct (_ || _) eqn:Hs.
      * split; [intros (t & ->%list_elem_of_singleton & Ht); right; by split|]. intros [?|[_ Ht]]; [done|].
        eexists. split; [by left|]. exact Ht.
      * split; [by intros (t & ?%elem_of_nil & _)|]. intros [?|[? _]]; done.
  - split; [by intros (t & ?%elem_of_nil & _)|done].
  - split; [by intros (t & ->%list_elem_of_singleton & Ht)|]. intros Ht. eexists. split; [by left|]. exact Ht.
Qed.

Lemma build_trigger_id e t : t ∈ build_trigger e -> tr_ruleId t = rule_id e.
Proof.
  unfold build_trigger. destruct (RULES_get (rule_id e)) as [[r|]|]; [case_match|..].
  all: first [by intros ->%list_elem_of_singleton | by intros ?%elem_of_nil].
Qed.

Lemma set_of_spec l : NoDup (set_of l) /\ forall x, x ∈ set_of l <-> x ∈ l.
Proof.
  assert (Hmem : forall x acc, existsb (String.eqb x) acc = true <-> x ∈ acc).
  { intros x acc. induction acc as [|y acc IH]; cbn; [split; [done|by intros ?%elem_of_nil]|].
    rewrite orb_true_iff, IH, String.eqb_eq, elem_of_cons. done. }
  induction l as [|x l [IHn IH]] using rev_ind; [split; [apply NoDup_nil_2|done]|].
  unfold set_of in *. rewrite fold_left_app. cbn [fold_left]. set (acc := fold_left _ l []) in *.
  destruct (existsb (String.eqb x) acc) eqn:Hx.
  - apply Hmem in Hx. split; [done|]. intros y. rewrite elem_of_app, list_elem_of_singleton, <- IH. split; [tauto|].
    intros [?| ->]; done.
  - assert (Hn : x ∉ acc) by (by intros Hin%Hmem; congruence). split.
    + apply NoDup_app. split_and!; [done| |apply NoDup_singleton]. by intros y Hy ->%list_elem_of_singleton.
    + intros y. by rewrite !elem_of_app, IH.
Qed.

(** C28: A complete response is blocked exactly if one of its source or destination evaluations blocks; the
    rules it reports are those of the blocking evaluations, each once, and the reason tells whether one of
    them is unknown. Exposure of a hard-block rule of 5000 dollars or more always blocks. *)
Theorem scoring_blocks_exactly (r : EllipticResponse) :
  process_status r = Some "complete" ->
  exists s, scoreResponse (Some (BodyObject r)) = Some s /\
    (sr_blocked s = true <-> exists e, e ∈ evaluations r /\ blocks e) /\
    NoDup (sr_triggeringRuleIds s) /\
    (forall id, id ∈ sr_triggeringRuleIds s <-> exists e, e ∈ evaluations r /\ blocks e /\ rule_id e = id) /\
    (sr_reason s = Clean <-> sr_blocked s = false) /\
    (sr_reason s = UnknownRule <-> exists e, e ∈ evaluations r /\ blocks e /\ RULES_get (rule_id e) = None).
Proof.
  intros Hp. unfold scoreResponse. rewrite Hp. cbn [String.eqb Ascii.eqb Bool.eqb]. unfold filterAndBuildTriggers.
  change (if String.eqb "complete" "complete" then ?a else ?b) with a. rewrite <- flat_map_app. fold (evaluations r).
  assert (Hfired : forall t, t ∈ filter (fun t => fired t = true) (flat_map build_trigger (evaluations r)) <->
    exists e, e ∈ evaluations r /\ t ∈ build_trigger e /\ fired t = true).
  { intros t. rewrite list_elem_of_filter, list_elem_of_In, in_flat_map. split.
    - intros (Hf & e & He & Ht). exists e. by rewrite !list_elem_of_In.
    - intros (e & He & Ht & Hf). split; [done|]. exists e. by rewrite <- !list_elem_of_In. }
  assert (Hids : forall id, id ∈ map tr_ruleId (filter (fun t => fired t = true) (flat_map build_trigger (evaluations r))) <->
    exists e, e ∈ evaluations r /\ blocks e /\ rule_id e = id).
  { intros id. change (map ?f ?l) with (f <$> l). rewrite list_elem_of_fmap. split.
    - intros (t & -> & (e & He & Ht & Hf)%Hfired). exists e. split_and!; [done| |symmetry; by apply build_trigger_id].
      apply build_trigger_spec. by exists t.
    - intros (e & He & (t & Ht & Hf)%build_trigger_spec & <-). exists t. split; [symmetry; by apply build_trigger_id|].
      apply Hfired. by exists e. }
  destruct (filter _ (flat_map build_trigger (evaluations r))) as [|t0 ts] eqn:Hts.
  - eexists. split; [reflexivity|]. cbn. cbn in Hids.
    assert (Hnone : ~ exists e, e ∈ evaluations r /\ blocks e).
    { intros (e & He & Hb). assert (Hin : rule_id e ∈ @nil string) by (apply Hids; by exists e). by apply elem_of_nil in Hin. }
    split_and!; [split; [done|tauto]|apply NoDup_nil_2|exact Hids|done|].
    split; [done|]. intros (e & He & Hb & _). elim Hnone. by exists e.
  - set (ids := set_of (map tr_ruleId (t0 :: ts))) in *. destruct (set_of_spec (map tr_ruleId (t0 :: ts))) as [Hnd Hset].
    fold ids in Hnd, Hset. eexists. split; [reflexivity|]. cbn [sr_blocked sr_triggeringRuleIds sr_reason].
    assert (Hsome : exists e, e ∈ evaluations r /\ blocks e).
    { destruct (proj1 (Hids (tr_ruleId t0)) ltac:(by left)) as (e & He & Hb & _). by exists e. }
    assert (Hex : existsb (fun id => match RULES_get id with None => true | Some _ => false end) ids = true <->
      exists e, e ∈ evaluations r /\ blocks e /\ RULES_get (rule_id e) = None).
    { rewrite existsb_exists. split.
      - intros (id & Hid & Hn). apply list_elem_of_In, Hset, Hids in Hid as (e & He & Hb & <-). exists e.
        split_and!; [done|done|]. by destruct (RULES_get (rule_id e)).
      - intros (e & He & Hb & Hn). exists (rule_id e). rewrite Hn. split; [|done]. apply list_elem_of_In, Hset, Hids. by exists e. }
    split_and!; [done|done|intros id; by rewrite Hset|destruct (existsb _ _); done|]. rewrite <- Hex. by destruct (existsb _ ids).
Qed.

(** ** Examples *)

Definition sample_evaluation (id : string) (risk : option number) (usd : Z) : Evaluation :=
  {| rule_id := id; risk_score := risk;
     matched_elements := Some [{| contribution_percentage := decimal 1 2; contribution_usd := Some (num usd);
                                  counterparty_percentage := None; counterparty_usd := None |}] |}.

Definition sample_response (es : list Evaluation) : EllipticResponse :=
  {| process_status := Some "complete"; evaluation_source := Some es; evaluation_destination := None |}.

(** A hard block without any reported risk. *)
Lemma scoring_blocks_exactly_witness :
  exists s, scoreResponse (Some (BodyObject (sample_response [sample_evaluation SANCTIONED_ENTITY (Some (num 0)) 5000]))) = Some s /\
    sr_blocked s = true.
Proof.
  destruct (scoring_blocks_exactly (sample_response [sample_evaluation SANCTIONED_ENTITY (Some (num 0)) 5000]) eq_refl) as (s & Hs & Hb & _).
  exists s. split; [exact Hs|]. apply Hb. eexists. split; [by left|]. left. vm_compute. reflexivity.
Defined.

(** A rule id that every object has as a property is neither known nor passed through. *)
Example inherited_rule_is_dropped :
  option_map sr_blocked (scoreResponse (Some (BodyObject (sample_response [sample_evaluation "constructor" (Some (num 10)) 9000])))) = Some false /\
  option_map sr_blocked (scoreResponse (Some (BodyObject (sample_response [sample_evaluation "unknown" (Some (num 10)) 9000])))) = Some true.
Proof. vm_compute. done. Qed.

(** The body [null] is valid JSON, and reading its status throws. *)
Example null_body_throws : scoreResponse (Some BodyNull) = None.
Proof. done. Qed.
