(* ===== verification/EllipticConfig.v ===== *)
(** * Configuration of the screening proxy ([elliptic-proxy/src/config.ts], [felt.ts])

    The configuration is a JSON secret that is validated on every load and kept for its own time
    to live. A JSON number is a rational or infinite; a load is the answer of the secret manager with
    the times before and after it. *)
From Stdlib Require Import Ascii ZArith QArith Lia.
From stdpp Require Import base tactics list strings.
From S2P Require Import Prelude JsMap Convert Crypto Json PoolTransaction.

Local Open Scope string_scope.
Local Open Scope Z_scope.

(** ** Felts *)

Definition STARK_PRIME : Z := 2 ^ 251 + 17 * 2 ^ 192 + 1.

(** The value of a string that [HEX_FELT] accepts. *)
Definition felt_value (s : string) : Z := default 0 (BigInt_of_string s).

Definition isHexFelt (value : string) : bool := HEX_FELT value && (felt_value value <? STARK_PRIME).

Definition feltListIncludes (entries : option (list string)) (addressFelt : Z) : bool :=
  match entries with Some es => existsb (fun entry => felt_value entry =? addressFelt) es | None => false end.

(** ** The configuration *)

Record PartnerCredentials : Type := { hmacSecret : string; ellipticKey : string; ellipticSecret : string }.

Record Config : Type := {
  elliptic_url : string;
  elliptic_timeoutMs : Q;
  rateLimitPerMinute : Q;
  maxBodyBytes : Q;
  configCacheTtlSeconds : Q;
  blockedCacheTtlSeconds : Q;
  partners : jsmap string PartnerCredentials;
  additionalBlockedAddresses : option (list string);
  blockOverrideAddresses : option (list string);
  signingPrivateKey : string;
  chainId : string }.

(** 'SN_MAIN' as a big-endian short string. *)
Definition SN_MAIN_CHAIN_ID : Z := 0x534e5f4d41494e.

Definition isMockEllipticUrl (url : string) : bool := String.prefix "mock:" url.

Inductive config_error : Type :=
| SecretUnavailable
| NotJson
| NotAnObject (path : string)
| NotAString (path : string)
| NotANumber (path : string)
| NotPositive (path : string)
| NotAFelt (path : string)
| NotStrings (path : string)
| MockOnMainnet.

#[export] Instance config_error_eq_dec : EqDecision config_error.
Proof. solve_decision. Defined.

(** [typeof value === "object" && value !== null && !Array.isArray(value)], and its fields. *)
Definition requireObject (path : string) (value : option json) : result config_error (jsmap string json) :=
  match value with Some (JObject fields) => Ok fields | _ => Err (NotAnObject path) end.

Definition requireString (object : jsmap string json) (path : string) : result config_error string :=
  match map_get path object with
  | Some (JString value) => if String.eqb value "" then Err (NotAString path) else Ok value
  | _ => Err (NotAString path)
  end.

Definition requireNumber (object : jsmap string json) (path : string) : result config_error Q :=
  match map_get path object with Some (JNumber (Some value)) => Ok value | _ => Err (NotANumber path) end.

Definition requirePositiveNumber (object : jsmap string json) (path : string) : result config_error Q :=
  value ← requireNumber object path;
  if Qle_bool value 0 then Err (NotPositive path) else Ok value.

(** [value.every((a) => typeof a === "string")]. *)
Fixpoint all_strings (l : list json) : option (list string) :=
  match l with
  | [] => Some []
  | JString s :: l => option_map (cons s) (all_strings l)
  | _ :: _ => None
  end.

Definition parseLowercaseHexList (object : jsmap string json) (key : string) : result config_error (option (list string)) :=
  match map_get key object with
  | None => Ok None
  | Some (JArray l) =>
      match all_strings l with
      | None => Err (NotStrings key)
      | Some entries => if forallb isHexFelt entries then Ok (Some (map toLowerCase entries)) else Err (NotAFelt key)
      end
  | Some _ => Err (NotStrings key)
  end.

Definition parse_partner (value : json) (name : string) : result config_error PartnerCredentials :=
  entry ← requireObject name (Some value);
  hmac ← requireString entry "hmacSecret";
  key ← requireString entry "ellipticKey";
  secret ← requireString entry "ellipticSecret";
  Ok {| hmacSecret := hmac; ellipticKey := key; ellipticSecret := secret |}.

(** Assigning to [__proto__] makes no entry. *)
Definition add_partner (parsed : jsmap string PartnerCredentials) (e : string * json) : result config_error (jsmap string PartnerCredentials) :=
  credentials ← parse_partner e.2 e.1;
  Ok (if String.eqb e.1 "__proto__" then parsed else map_set e.1 credentials parsed).

Definition validateConfig (raw : json) : result config_error Config :=
  root ← requireObject "" (Some raw);
  elliptic ← requireObject "elliptic" (map_get "elliptic" root);
  entries ← requireObject "partners" (map_get "partners" root);
  parsedPartners ← fold_result add_partner entries [];
  ellipticUrl ← requireString elliptic "url";
  chain ← requireString root "chainId";
  let chain := toLowerCase chain in
  if negb (isHexFelt chain) then Err (NotAFelt "chainId")
  else if (isMockEllipticUrl ellipticUrl && (felt_value chain =? SN_MAIN_CHAIN_ID))%bool then Err MockOnMainnet
  else
    timeoutMs ← requirePositiveNumber elliptic "timeoutMs";
    rateLimit ← requirePositiveNumber root "rateLimitPerMinute";
    maxBody ← requirePositiveNumber root "maxBodyBytes";
    configTtl ← requirePositiveNumber root "configCacheTtlSeconds";
    blockedTtl ← requirePositiveNumber root "blockedCacheTtlSeconds";
    blocked ← parseLowercaseHexList root "additionalBlockedAddresses";
    override ← parseLowercaseHexList root "blockOverrideAddresses";
    key ← requireString root "signingPrivateKey";
    Ok {| elliptic_url := ellipticUrl; elliptic_timeoutMs := timeoutMs; rateLimitPerMinute := rateLimit; maxBodyBytes := maxBody;
          configCacheTtlSeconds := configTtl; blockedCacheTtlSeconds := blockedTtl; partners := parsedPartners;
          additionalBlockedAddresses := blocked; blockOverrideAddresses := override; signingPrivateKey := key; chainId := chain |}.

(** ** The loader *)

Record ConfigLoader : Type := { cached : option Config; cachedAt : Q; ttlMs : Q }.
Definition new_ConfigLoader : ConfigLoader := {| cached := None; cachedAt := 0; ttlMs := 0 |}.

(** The secret: a failure, or a text that may be no JSON. *)
Inductive secret : Type := SecretFails | SecretText (parsed : option json).

Definition load (s : secret) : result config_error Config :=
  match s with
  | SecretFails => Err SecretUnavailable
  | SecretText None => Err NotJson
  | SecretText (Some raw) => validateConfig raw
  end.

(** A fresh cached configuration; [None]: the secret is fetched. *)
Definition loader_hit (now : Q) (s : ConfigLoader) : option Config :=
  match cached s with
  | Some config => if negb (Qle_bool (ttlMs s) (now - cachedAt s)) then Some config else None
  | None => None
  end.

(** The fetched secret, at the time it arrives. *)
Definition loader_arrives (now : Q) (fetched : secret) (s : ConfigLoader) : result config_error Config * ConfigLoader :=
  match load fetched with
  | Err e => (Err e, s)
  | Ok config => (Ok config, {| cached := Some config; cachedAt := now; ttlMs := configCacheTtlSeconds config * 1000 |})
  end.

(** [get] as two steps, before and after the fetch, which may interleave with other calls. *)
Inductive loader_event : Type :=
| LoaderCall (now : Q)
| LoaderFetched (now : Q) (fetched : secret).

(** The configurations that were returned, with the time. *)
Definition loader_step (st : ConfigLoader * list (Q * Config)) (e : loader_event) : ConfigLoader * list (Q * Config) :=
  match e with
  | LoaderCall now => match loader_hit now st.1 with Some config => (st.1, st.2 ++ [(now, config)]) | None => st end
  | LoaderFetched now fetched =>
      match loader_arrives now fetched st.1 with
      | (Ok config, s) => (s, st.2 ++ [(now, config)])
      | (Err _, s) => (s, st.2)
      end
  end%list.

Definition run_loader (events : list loader_event) : ConfigLoader * list (Q * Config) :=
  fold_left loader_step events (new_ConfigLoader, []).

(** ** Valid configurations *)

Definition credentials_ok (c : PartnerCredentials) : Prop := hmacSecret c <> "" /\ ellipticKey c <> "" /\ ellipticSecret c <> "".

(** A list of the operator: canonical hexadecimal felts. *)
Definition felt_list_ok (l : option (list string)) : Prop :=
  match l with Some es => Forall (fun e => isHexFelt e = true /\ toLowerCase e = e) es | None => True end.

Record config_ok (c : Config) : Prop := {
  cfg_numbers : Forall (fun q => 0 < q)%Q
    [elliptic_timeoutMs c; rateLimitPerMinute c; maxBodyBytes c; configCacheTtlSeconds c; blockedCacheTtlSeconds c];
  cfg_partners : map_wf (partners c) /\ Forall (fun e => credentials_ok e.2) (partners c);
  cfg_lists : felt_list_ok (additionalBlockedAddresses c) /\ felt_list_ok (blockOverrideAddresses c);
  cfg_key : signingPrivateKey c <> "";
  cfg_chain : isHexFelt (chainId c) = true;
  cfg_mock : isMockEllipticUrl (elliptic_url c) = true -> felt_value (chainId c) <> SN_MAIN_CHAIN_ID }.

Lemma all_hex_lower s : all_hex (toLowerCase s) = all_hex s.
Proof. induction s as [|c s IH]; [done|]. cbn. rewrite char_digit_lower, IH. done. Qed.

Lemma length_lower s : String.length (toLowerCase s) = String.length s.
Proof. induction s as [|c s IH]; [done|]. cbn. by rewrite IH. Qed.

Lemma HEX_FELT_inv s : HEX_FELT s = true -> exists d, s = "0x" +:+ d /\ all_hex d = true /\ (1 <= String.length d <= 64)%nat.
Proof.
  unfold HEX_FELT. intros Hs. destruct s as [|c s]; [done|]. destruct c as [[] [] [] [] [] [] [] []]; try discriminate Hs.
  destruct s as [|c s]; [done|]. destruct c as [[] [] [] [] [] [] [] []]; try discriminate Hs.
  exists s. apply andb_true_iff in Hs as [[H1 H2]%andb_true_iff H3]. apply Nat.leb_le in H1, H2. done.
Qed.

Lemma all_hex_no_space d : all_hex d = true -> no_space d = true.
Proof.
  induction d as [|c d IH]; [done|]. cbn. destruct (char_digit c) eqn:Hc; [|done]. intros Hd. rewrite IH by done.
  destruct c as [[] [] [] [] [] [] [] []]; try discriminate Hc; reflexivity.
Qed.

Lemma felt_value_hex d : all_hex d = true -> felt_value ("0x" +:+ d) = default 0 (parse_radix 16 d).
Proof.
  intros Hd. unfold felt_value, BigInt_of_string. rewrite trim_no_space; [reflexivity|]. exact (all_hex_no_space d Hd).
Qed.

Lemma isHexFelt_lower s : isHexFelt s = true -> isHexFelt (toLowerCase s) = true /\ felt_value (toLowerCase s) = felt_value s.
Proof.
  unfold isHexFelt. intros [Hs Hv]%andb_true_iff. destruct (HEX_FELT_inv s Hs) as (d & -> & Hd & Hlen).
  change (toLowerCase ("0x" +:+ d)) with ("0x" +:+ toLowerCase d).
  assert (Hval : felt_value ("0x" +:+ toLowerCase d) = felt_value ("0x" +:+ d)).
  { rewrite !felt_value_hex by (rewrite ?all_hex_lower; done). f_equal. unfold parse_radix.
    destruct d as [|c d]; [done|]. exact (parse_digits_lower (String c d) 0). }
  rewrite Hval, Hv, andb_true_r. split; [|done].
  change (((1 <=? String.length (toLowerCase d))%nat && (String.length (toLowerCase d) <=? 64)%nat && all_hex (toLowerCase d))%bool = true).
  rewrite length_lower, all_hex_lower, Hd. rewrite (proj2 (Nat.leb_le 1 _)), (proj2 (Nat.leb_le _ 64)) by lia. done.
Qed.

Lemma toLowerCase_twice s : toLowerCase (toLowerCase s) = toLowerCase s.
Proof.
  induction s as [|c s IH]; [done|]. cbn. rewrite IH. f_equal. destruct c as [[] [] [] [] [] [] [] []]; reflexivity.
Qed.

Lemma requireString_ok o p v : requireString o p = Ok v -> v <> "".
Proof.
  unfold requireString. destruct (map_get p o) as [[]|]; try done. destruct (String.eqb s "") eqn:He; [done|].
  intros [= <-]. by apply String.eqb_neq.
Qed.

Lemma requirePositiveNumber_ok o p q : requirePositiveNumber o p = Ok q -> (0 < q)%Q.
Proof.
  unfold requirePositiveNumber. destruct (requireNumber o p) as [v|]; [|done]. cbn [mbind result_bind].
  destruct (Qle_bool v 0) eqn:Hv; [done|]. intros [= <-]. apply Qnot_le_lt. intros Hle. apply Qle_bool_iff in Hle. congruence.
Qed.

Lemma parseLowercaseHexList_ok o k l : parseLowercaseHexList o k = Ok l -> felt_list_ok l.
Proof.
  unfold parseLowercaseHexList. destruct (map_get k o) as [[]|]; try done; [|by intros [= <-]].
  destruct (all_strings _) as [es|]; [|done]. destruct (forallb isHexFelt es) eqn:Hes; [|done]. intros [= <-]. cbn.
  apply list.Forall_forall. intros e (x & -> & Hx)%list_elem_of_fmap. rewrite forallb_forall in Hes.
  split; [|apply toLowerCase_twice]. apply isHexFelt_lower, Hes. by apply list_elem_of_In.
Qed.

Lemma add_partner_ok m e m' : map_wf m /\ Forall (fun e => credentials_ok e.2) m -> add_partner m e = Ok m' ->
  map_wf m' /\ Forall (fun e => credentials_ok e.2) m'.
Proof.
  intros [Hwf Hf]. unfold add_partner, parse_partner, requireObject. destruct e.2 as [| | | | |entry]; try done.
  cbn [mbind result_bind]. destruct (requireString entry "hmacSecret") as [h|] eqn:Hh; [|done]. cbn [mbind result_bind].
  destruct (requireString entry "ellipticKey") as [k|] eqn:Hk; [|done]. cbn [mbind result_bind].
  destruct (requireString entry "ellipticSecret") as [s|] eqn:Hs; [|done]. cbn [mbind result_bind].
  destruct (String.eqb e.1 "__proto__"); intros [= <-]; [done|]. split; [by apply map_set_wf|].
  apply map_set_Forall; [done|]. split_and!; by eapply requireString_ok.
Qed.

Lemma validateConfig_ok raw c : validateConfig raw = Ok c -> config_ok c.
Proof.
  unfold validateConfig. destruct (requireObject "" (Some raw)) as [root|]; [|done]. cbn [mbind result_bind].
  destruct (requireObject "elliptic" _) as [elliptic|]; [|done]. cbn [mbind result_bind].
  destruct (requireObject "partners" _) as [entries|]; [|done]. cbn [mbind result_bind].
  destruct (fold_result add_partner entries []) as [ps|] eqn:Hps; [|done]. cbn [mbind result_bind].
  destruct (requireString elliptic "url") as [url|]; [|done]. cbn [mbind result_bind].
  destruct (requireString root "chainId") as [chain|]; [|done]. cbn [mbind result_bind].
  destruct (isHexFelt (toLowerCase chain)) eqn:Hchain; [|done]. cbn [negb].
  destruct (isMockEllipticUrl url && _) eqn:Hmock; [done|].
  destruct (requirePositiveNumber elliptic "timeoutMs") as [n1|] eqn:H1; [|done]. cbn [mbind result_bind].
  destruct (requirePositiveNumber root "rateLimitPerMinute") as [n2|] eqn:H2; [|done]. cbn [mbind result_bind].
  destruct (requirePositiveNumber root "maxBodyBytes") as [n3|] eqn:H3; [|done]. cbn [mbind result_bind].
  destruct (requirePositiveNumber root "configCacheTtlSeconds") as [n4|] eqn:H4; [|done]. cbn [mbind result_bind].
  destruct (requirePositiveNumber root "blockedCacheTtlSeconds") as [n5|] eqn:H5; [|done]. cbn [mbind result_bind].
  destruct (parseLowercaseHexList root "additionalBlockedAddresses") as [l1|] eqn:Hl1; [|done]. cbn [mbind result_bind].
  destruct (parseLowercaseHexList root "blockOverrideAddresses") as [l2|] eqn:Hl2; [|done]. cbn [mbind result_bind].
  destruct (requireString root "signingPrivateKey") as [key|] eqn:Hkey; [|done]. intros [= <-].
  split; cbn.
  - repeat apply Forall_cons_2; try apply Forall_nil_2; by eapply requirePositiveNumber_ok.
  - refine (fold_result_inv (fun m => map_wf m /\ Forall (fun e => credentials_ok e.2) m) add_partner entries [] ps _ _ Hps).
    + intros m e m' _ Hm. by apply add_partner_ok.
    + split; [apply NoDup_nil_2|constructor].
  - split; by eapply parseLowercaseHexList_ok.
  - by eapply requireString_ok.
  - done.
  - intros Hu. change (isMockEllipticUrl url = true) in Hu. rewrite Hu in Hmock. by apply Z.eqb_neq in Hmock.
Qed.

(** A configuration that a fetch at a time brought. *)
Definition loaded (evs : list loader_event) (at_ : Q) (c : Config) : Prop :=
  exists raw, LoaderFetched at_ (SecretText (Some raw)) ∈ evs /\ validateConfig raw = Ok c.

Lemma run_loader_inv evs :
  (forall c, cached (run_loader evs).1 = Some c ->
    loaded evs (cachedAt (run_loader evs).1) c /\ ttlMs (run_loader evs).1 = (configCacheTtlSeconds c * 1000)%Q) /\
  forall t c, (t, c) ∈ (run_loader evs).2 -> exists at_, loaded evs at_ c /\ (t == at_ \/ t - at_ < configCacheTtlSeconds c * 1000)%Q.
Proof.
  induction evs as [|e evs [IHc IHr]] using rev_ind; [split; [done|by intros t c ?%elem_of_nil]|].
  unfold run_loader in *. rewrite fold_left_app. cbn [fold_left]. set (st := fold_left loader_step evs _) in *.
  assert (Hmono : forall at_ c, loaded evs at_ c -> loaded (evs ++ [e])%list at_ c).
  { intros at_ c (raw & Hin & Hv). exists raw. split; [|done]. apply elem_of_app. by left. }
  destruct e as [t0|t0 fetched]; cbn [loader_step].
  - assert (Hr : forall t c, (t, c) ∈ st.2 -> exists at_, loaded (evs ++ [LoaderCall t0])%list at_ c /\
      (t == at_ \/ t - at_ < configCacheTtlSeconds c * 1000)%Q).
    { intros t c (at_ & Hl & Ht)%IHr. exists at_. split; [by apply Hmono|done]. }
    assert (Hc : forall c, cached st.1 = Some c ->
      loaded (evs ++ [LoaderCall t0])%list (cachedAt st.1) c /\ ttlMs st.1 = (configCacheTtlSeconds c * 1000)%Q).
    { intros c [Hl Ht]%IHc. split; [by apply Hmono|done]. }
    unfold loader_hit. destruct (cached st.1) as [c0|] eqn:Hc0; [|split; [by rewrite Hc0|done]].
    destruct (Qle_bool _ _) eqn:Hle; cbn [negb fst snd]; [split; [by rewrite Hc0|done]|]. split; [by rewrite Hc0|].
    intros t c [?|[= -> ->]%list_elem_of_singleton]%elem_of_app; [by apply Hr|]. destruct (Hc c0 eq_refl) as [Hl Ht].
    exists (cachedAt st.1). split; [done|]. right. rewrite <- Ht. apply Qnot_le_lt. intros Hn. apply Qle_bool_iff in Hn. congruence.
  - assert (Hkeep : forall t c, (t, c) ∈ st.2 -> exists at_, loaded (evs ++ [LoaderFetched t0 fetched])%list at_ c /\
      (t == at_ \/ t - at_ < configCacheTtlSeconds c * 1000)%Q).
    { intros t c (at_ & Hl & Ht)%IHr. exists at_. split; [by apply Hmono|done]. }
    unfold loader_arrives, load. destruct fetched as [|[raw|]]; cbn [fst snd].
    1,3: split; [|done]; intros c [Hl Ht]%IHc; split; [by apply Hmono|done].
    destruct (validateConfig raw) as [c0|e] eqn:Hv; cbn [fst snd].
    + assert (Hnew : loaded (evs ++ [LoaderFetched t0 (SecretText (Some raw))])%list t0 c0).
      { exists raw. split; [|done]. apply elem_of_app. right. by left. }
      split; [by intros c [= <-]|]. intros t c [?|[= -> ->]%list_elem_of_singleton]%elem_of_app; [by apply Hkeep|].
      exists t0. split; [done|]. by left.
    + split; [|done]. intros c [Hl Ht]%IHc. split; [by apply Hmono|done].
Qed.

(** C34: Whatever the secret manager answers and whenever, every configuration that the loader returns is
    valid: its numbers are positive, its credentials and key are there, its chain and its lists are
    felts, and a mock upstream never screens for mainnet; and it was loaded by a fetch less than its own
    time to live ago. *)
Theorem loader_serves_valid (events : list loader_event) (now : Q) (config : Config) :
  (now, config) ∈ (run_loader events).2 ->
  config_ok config /\ exists at_ raw, LoaderFetched at_ (SecretText (Some raw)) ∈ events /\ validateConfig raw = Ok config /\
    (now == at_ \/ now - at_ < configCacheTtlSeconds config * 1000)%Q.
Proof.
  intros Hin. destruct (run_loader_inv events) as [_ Hr]. destruct (Hr now config Hin) as (at_ & (raw & Hev & Hv) & Ht).
  split; [by eapply validateConfig_ok|]. by exists at_, raw.
Qed.

(** ** A configuration *)

Definition sample_config : json :=
  JObject [("elliptic", JObject [("url", JString "mock:"); ("timeoutMs", JNumber (Some 10%Q))]);
           ("partners", JObject [("p", JObject [("hmacSecret", JString "s"); ("ellipticKey", JString "k"); ("ellipticSecret", JString "t")])]);
           ("chainId", JString "0x534E5f5345504f4c4941"); ("rateLimitPerMinute", JNumber (Some 2%Q)); ("maxBodyBytes", JNumber (Some 100%Q));
           ("configCacheTtlSeconds", JNumber (Some 3%Q)); ("blockedCacheTtlSeconds", JNumber (Some 4%Q)); ("signingPrivateKey", JString "0x1")].

Lemma loader_serves_valid_witness :
  exists config, (5%Q, config) ∈ (run_loader [LoaderFetched 4 (SecretText (Some sample_config)); LoaderCall 5]).2 /\ config_ok config.
Proof.
  destruct (validateConfig sample_config) as [config|e] eqn:Hc; [|vm_compute in Hc; discriminate].
  assert (Hin : (5%Q, config) ∈ (run_loader [LoaderFetched 4 (SecretText (Some sample_config)); LoaderCall 5]).2).
  { vm_compute in Hc. injection Hc as <-. vm_compute. right. left. }
  exists config. split; [exact Hin|]. exact (proj1 (loader_serves_valid _ 5%Q config Hin)).
Defined.

(** The mock upstream is refused for mainnet, however its chain id is spelled. *)
Example mock_on_mainnet :
  validateConfig (match sample_config with JObject o => JObject (map_set "chainId" (JString "0X00534E5F4d41494E") o) | j => j end) = Err MockOnMainnet.
Proof. vm_compute. reflexivity. Qed.
