(* ===== verification/EllipticHandler.v ===== *)
(** * The screening proxy ([elliptic-proxy/src/handler.ts], [auth.ts], [rate-limit.ts], [cache.ts], [signing.ts], [mock-elliptic.ts])

    A request is authenticated by its HMAC, limited per partner, checked against the lists of the
    operator and the cache of blocked addresses, forwarded to Elliptic and scored; an allowed verdict
    is signed. The handler is two steps, before and after the upstream call, because other requests
    may come between. The functions of Node's crypto and of [@scure/starknet] are classes, the
    caches those of [LruCache]; the logs are left out. *)
From Stdlib Require Import Ascii ZArith QArith Qabs Lia.
From stdpp Require Import base tactics list strings.
From S2P Require Import Prelude JsMap Convert Crypto Json PoolTransaction EllipticScoring EllipticConfig.

Local Open Scope string_scope.
Local Open Scope Z_scope.

(** ** Requests *)

Inductive header : Type := NoHeader | OneHeader (s : string) | ManyHeaders (l : list string).

Definition firstValue (h : header) : option string :=
  match h with NoHeader => None | OneHeader s => Some s | ManyHeaders l => head l end.

Record Request : Type := {
  x_access_key : header;
  x_access_sign : header;
  x_access_timestamp : header;
  req_method : string;
  req_path : string;
  req_rawBody : option string;
  req_body : option json }.

(** [Number(s)] on ASCII text, as an exact rational; [None] is [NaN] or infinite. *)
Fixpoint decimal_prefix (s : string) : string * string :=
  match s with
  | EmptyString => (EmptyString, EmptyString)
  | String c r => if is_decimal c then let '(d, rest) := decimal_prefix r in (String c d, rest) else (EmptyString, s)
  end.

Definition digits_value (s : string) : Z := default 0 (parse_digits 10 s 0).

(** The exponent part of a literal: nothing, or [e], a sign and digits. *)
Definition read_exponent (s : string) : option Z :=
  let digits sign r := match decimal_prefix r with (EmptyString, _) => None | (d, EmptyString) => Some (sign * digits_value d) | _ => None end in
  match s with
  | EmptyString => Some 0
  | String "e" r | String "E" r =>
      match r with String "-" r => digits (-1) r | String "+" r => digits 1 r | r => digits 1 r end
  | _ => None
  end.

Definition scale (m e : Z) : Q := if 0 <=? e then inject_Z (m * 10 ^ e) else Qmake m (Z.to_pos (10 ^ (- e))).

Definition unsigned_literal (s : string) : option Q :=
  let '(whole, rest) := decimal_prefix s in
  let '(fraction, rest) := match rest with String "." r => decimal_prefix r | _ => (EmptyString, rest) end in
  if (String.eqb whole "" && String.eqb fraction "")%bool then None
  else e ← read_exponent rest;
       Some (scale (digits_value (whole +:+ fraction)) (e - Z.of_nat (String.length fraction))).

Definition js_Number (s : string) : option Q :=
  match trim_end (trim_start s) with
  | EmptyString => Some 0%Q
  | String "0" (String "x" r) | String "0" (String "X" r) => inject_Z <$> parse_radix 16 r
  | String "0" (String "o" r) | String "0" (String "O" r) => inject_Z <$> parse_radix 8 r
  | String "0" (String "b" r) | String "0" (String "B" r) => inject_Z <$> parse_radix 2 r
  | String "-" r => Qopp <$> unsigned_literal r
  | String "+" r => unsigned_literal r
  | r => unsigned_literal r
  end.

(** ** Authentication *)

(** Node's [Buffer] and [createHmac("sha256", ...)]. *)
Class ProxyCrypto := {
  base64_decode : string -> list Z;
  base64_encode : list Z -> string;
  hmac_sha256 : list Z -> string -> list Z
}.

Definition MAX_TIMESTAMP_DRIFT_MS : Z := 5 * 60 * 1000.

Inductive auth_reason : Type := MissingHeaders | TimestampExpired | UnknownPartner | InvalidSignature.

Record AuthResult : Type := { auth_partnerName : string; auth_secret : string }.

Section Auth.
Context `{ProxyCrypto}.

Definition computeHmacSignature (secretBase64 timestamp method path body : string) : string :=
  base64_encode (hmac_sha256 (base64_decode secretBase64) (timestamp +:+ method +:+ toLowerCase path +:+ body)).

(** Buffers of one length and with the same bytes. *)
Definition verifySignature (secretBase64 providedSignature timestamp method path body : string) : bool :=
  bool_decide (base64_decode (computeHmacSignature secretBase64 timestamp method path body) = base64_decode providedSignature).

Definition non_empty (v : option string) : option string :=
  match v with Some s => if String.eqb s "" then None else Some s | None => None end.

Definition authenticateRequest (now : Z) (req : Request) (config : Config) : result auth_reason AuthResult :=
  match non_empty (firstValue (x_access_key req)), non_empty (firstValue (x_access_sign req)), non_empty (firstValue (x_access_timestamp req)) with
  | Some partnerName, Some accessSign, Some accessTimestamp =>
      match js_Number accessTimestamp with
      | None => Err TimestampExpired
      | Some timestampMs =>
          if Qle_bool (Qabs (inject_Z now - timestampMs)) (inject_Z MAX_TIMESTAMP_DRIFT_MS) then
            match map_get partnerName (partners config) with
            | None => Err UnknownPartner
            | Some credentials =>
                if String.eqb (hmacSecret credentials) "" then Err UnknownPartner
                else if verifySignature (hmacSecret credentials) accessSign accessTimestamp (req_method req) (req_path req)
                          (default "" (req_rawBody req))
                then Ok {| auth_partnerName := partnerName; auth_secret := hmacSecret credentials |}
                else Err InvalidSignature
            end
          else Err TimestampExpired
      end
  | _, _, _ => Err MissingHeaders
  end.
End Auth.

(** ** The rate limiter *)

Definition WINDOW_MS : Z := 60000.

Record Window : Type := { w_count : Z; w_windowStart : Z }.

(** [check] at the date [now]; the cache has its own clock, which shows [perf]. *)
Definition check `{LruCache Window} (now perf : Z) (partnerName : string) (limitPerMinute : Q) (windows : lru) : bool * lru :=
  let '(window, windows) := lru_get perf partnerName windows in
  let fresh := (true, lru_set perf partnerName {| w_count := 1; w_windowStart := now |} windows) in
  match window with
  | None => fresh
  | Some w =>
      if WINDOW_MS <=? now - w_windowStart w then fresh
      else if Qle_bool limitPerMinute (inject_Z (w_count w)) then (false, windows)
      else (true, lru_mutate partnerName {| w_count := w_count w + 1; w_windowStart := w_windowStart w |} windows)
  end.

(** ** Attestations *)

(** [poseidonHashMany], [getStarkKey] and [sign]; the last two may throw. *)
Class ScreeningSigner := {
  poseidonHashMany : list Z -> Z;
  getStarkKey : string -> option Z;
  stark_sign : string -> string -> option (Z * Z)
}.

Record Attestation : Type := { att_issued_at : Z; att_sig_r : string; att_sig_s : string }.

(** "StarkNet Message" and "Screening" as short strings. *)
Definition STARKNET_MESSAGE : Z := 0x537461726b4e6574204d657373616765.
Definition DOMAIN_NAME : Z := 0x53637265656e696e67.
Definition STARKNET_DOMAIN_TYPE_HASH : Z := 0x1ff2f602e42168014d405a94f75e8a93d640751d71d16311266e140d8b0a210.
Definition DEPOSITOR_VALIDATION_TYPE_HASH : Z := 0x32d43b7372c9ea8a35daf12b02c5f6f74837910ecbaf2a3ecfe71fec901913d.
Definition DOMAIN_VERSION : Z := 2.
Definition DOMAIN_REVISION : Z := 1.

Definition computeScreeningMessageHash `{ScreeningSigner} (chain depositor issuedAt signerPublicKey : Z) : Z :=
  let domainHash := poseidonHashMany [STARKNET_DOMAIN_TYPE_HASH; DOMAIN_NAME; DOMAIN_VERSION; chain; DOMAIN_REVISION] in
  let messageStructHash := poseidonHashMany [DEPOSITOR_VALIDATION_TYPE_HASH; depositor; issuedAt] in
  poseidonHashMany [STARKNET_MESSAGE; domainHash; signerPublicKey; messageStructHash].

Definition signScreening `{ScreeningSigner} (privateKey : string) (chain depositor issuedAt : Z) : option Attestation :=
  signerPublicKey ← getStarkKey privateKey;
  '(r, s) ← stark_sign (toHex (computeScreeningMessageHash chain depositor issuedAt signerPublicKey)) privateKey;
  Some {| att_issued_at := issuedAt; att_sig_r := toHex r; att_sig_s := toHex s |}.

(** ** The handler *)

Definition ADDRESS_UPPER_BOUND : Z := 2 ^ 251.

Inductive proxy_response : Type :=
| Failure (status : Z) (error : string)
| Allowed (source : string) (signature : Attestation)
| Blocked (source : string).

(** A request that waits for Elliptic. *)
Record Pending : Type := { p_config : Config; p_partnerName : string; p_address : string; p_addressFelt : Z }.

Inductive start_outcome : Type :=
| Responds (r : proxy_response)
| Forwards (p : Pending)
| Throws.

(** The dates of a step, and the clock of the caches. *)
Record Times : Type := { t_auth : Z; t_limit : Z; t_sign : Z; t_perf : Z }.

Definition upstreamSource (config : Config) : string := if isMockEllipticUrl (elliptic_url config) then "mock" else "elliptic".

(** What the upstream call brings: an exception, or a status and a body. *)
Definition upstream_reply : Type := option (Z * option EllipticBody).

Definition empty_response : EllipticResponse :=
  {| process_status := None; evaluation_source := None; evaluation_destination := None |}.
Definition mockForward : upstream_reply := Some (404, Some (BodyObject empty_response)).
Definition mockableForwarder (config : Config) (live : upstream_reply) : upstream_reply :=
  if isMockEllipticUrl (elliptic_url config) then mockForward else live.

(** The address of the request body. *)
Definition body_address (req : Request) : option string :=
  match req_body req with Some body => match field "address" body with Some (JString s) => non_empty (Some s) | _ => None end | None => None end.

(** The time to live of a cache: lru-cache refuses a fraction of a millisecond. *)
Definition positive_integer (q : Q) : option Z := let r := Qred q in if (Qden r =? 1)%positive then Some (Qnum r) else None.

Section Handler.
Context `{ProxyCrypto} `{ScreeningSigner} {Hwindows : LruCache Window} {Hblocked : LruCache unit}.

Record ProxyState : Type := {
  ps_rateLimiter : option (@lru Window Hwindows);
  ps_blockedCache : option (@lru unit Hblocked);
  ps_currentCacheTtlMs : Q }.

Definition new_ProxyState : ProxyState := {| ps_rateLimiter := None; ps_blockedCache := None; ps_currentCacheTtlMs := 0 |}.

Definition sendAllowed (config : Config) (addressFelt : Z) (times : Times) (source : string) : proxy_response :=
  match signScreening (signingPrivateKey config) (felt_value (chainId config)) addressFelt (t_sign times / 1000) with
  | Some signature => Allowed source signature
  | None => Failure 503 "signing failed"
  end.

(** The caches after the configuration is known; [None]: the constructor throws. A rate limiter keeps entries for
    its window. *)
Definition prepare_caches (config : Config) (s : ProxyState) : ProxyState * option (@lru Window Hwindows * @lru unit Hblocked) :=
  let rateLimiter := default (lru_new WINDOW_MS) (ps_rateLimiter s) in
  let newCacheTtlMs := (blockedCacheTtlSeconds config * 1000)%Q in
  let s := {| ps_rateLimiter := Some rateLimiter; ps_blockedCache := ps_blockedCache s; ps_currentCacheTtlMs := ps_currentCacheTtlMs s |} in
  match ps_blockedCache s, Qeq_bool newCacheTtlMs (ps_currentCacheTtlMs s) with
  | Some cache, true => (s, Some (rateLimiter, cache))
  | _, _ =>
      match positive_integer newCacheTtlMs with
      | None => (s, None)
      | Some ttl =>
          let cache := lru_new ttl in
          ({| ps_rateLimiter := Some rateLimiter; ps_blockedCache := Some cache; ps_currentCacheTtlMs := newCacheTtlMs |}, Some (rateLimiter, cache))
      end
  end.

(** The checks on a request of an authenticated partner, once it is within its limit. *)
Definition screen_address (config : Config) (partnerName : string) (req : Request) (times : Times) (blockedCache : @lru unit Hblocked)
  : start_outcome :=
  match body_address req with
  | None => Responds (Failure 400 "missing address")
  | Some address =>
      if negb (isHexFelt address) then Responds (Failure 400 "invalid address format")
      else
        let address := toLowerCase address in
        let addressFelt := felt_value address in
        if ADDRESS_UPPER_BOUND <=? addressFelt then Responds (Failure 400 "invalid address")
        else if feltListIncludes (blockOverrideAddresses config) addressFelt then
          Responds (sendAllowed config addressFelt times "allowlist")
        else if feltListIncludes (additionalBlockedAddresses config) addressFelt then Responds (Blocked "blocklist")
        else if lru_has (t_perf times) address blockedCache then Responds (Blocked "cache")
        else Forwards {| p_config := config; p_partnerName := partnerName; p_address := address; p_addressFelt := addressFelt |}
  end.

(** Up to the upstream call. *)
Definition handler_start (loaded : result config_error Config) (req : Request) (times : Times) (s : ProxyState) : start_outcome * ProxyState :=
  match loaded with
  | Err _ => (Responds (Failure 503 "service unavailable"), s)
  | Ok config =>
      if match req_rawBody req with
         | Some raw => negb (Qle_bool (inject_Z (Z.of_nat (String.length raw))) (maxBodyBytes config))
         | None => false
         end
      then (Responds (Failure 413 "payload too large"), s)
      else
        match prepare_caches config s with
        | (s, None) => (Throws, s)
        | (s, Some (rateLimiter, blockedCache)) =>
            match authenticateRequest (t_auth times) req config with
            | Err _ => (Responds (Failure 401 "unauthorized"), s)
            | Ok auth =>
                let '(within, rateLimiter) := check (t_limit times) (t_perf times) (auth_partnerName auth) (rateLimitPerMinute config) rateLimiter in
                let s := {| ps_rateLimiter := Some rateLimiter; ps_blockedCache := ps_blockedCache s; ps_currentCacheTtlMs := ps_currentCacheTtlMs s |} in
                if within then (screen_address config (auth_partnerName auth) req times blockedCache, s)
                else (Responds (Failure 429 "too many requests"), s)
            end
        end
  end.

(** After the upstream call; [None]: the scoring throws. The cache is the current one. *)
Definition handler_finish (p : Pending) (reply : upstream_reply) (times : Times) (s : ProxyState) : option proxy_response * ProxyState :=
  let config := p_config p in
  match reply with
  | None => (Some (Failure 504 "upstream unreachable"), s)
  | Some (status, body) =>
      if status =? 404 then (Some (sendAllowed config (p_addressFelt p) times (upstreamSource config)), s)
      else if ((status <? 200) || (300 <=? status))%bool then (Some (Failure 502 "upstream error"), s)
      else
        match scoreResponse body with
        | None => (None, s)
        | Some scoring =>
            if decide (sr_reason scoring = MalformedJson) then (Some (Failure 502 "upstream error"), s)
            else if sr_blocked scoring then
              (Some (Blocked (upstreamSource config)),
               {| ps_rateLimiter := ps_rateLimiter s; ps_blockedCache := option_map (lru_set (t_perf times) (p_address p) tt) (ps_blockedCache s);
                  ps_currentCacheTtlMs := ps_currentCacheTtlMs s |})
            else (Some (sendAllowed config (p_addressFelt p) times (upstreamSource config)), s)
        end
  end.

(** ** Runs *)

Inductive proxy_event : Type :=
| Starts (id : nat) (loaded : result config_error Config) (req : Request) (times : Times)
| Replies (id : nat) (reply : upstream_reply) (times : Times).

Record Run : Type := {
  run_state : ProxyState;
  run_pending : list (nat * Pending);
  run_responses : list (nat * proxy_response) }.

Definition new_Run : Run := {| run_state := new_ProxyState; run_pending := []; run_responses := [] |}.

Fixpoint take_pending (id : nat) (l : list (nat * Pending)) : option (Pending * list (nat * Pending)) :=
  match l with
  | [] => None
  | (id', p) :: l => if (id =? id')%nat then Some (p, l) else '(q, l) ← take_pending id l; Some (q, (id', p) :: l)
  end.

Definition proxy_step (r : Run) (e : proxy_event) : Run :=
  match e with
  | Starts id loaded req times =>
      let '(outcome, s) := handler_start loaded req times (run_state r) in
      match outcome with
      | Responds response => {| run_state := s; run_pending := run_pending r; run_responses := run_responses r ++ [(id, response)] |}
      | Forwards p => {| run_state := s; run_pending := run_pending r ++ [(id, p)]; run_responses := run_responses r |}
      | Throws => {| run_state := s; run_pending := run_pending r; run_responses := run_responses r |}
      end
  | Replies id reply times =>
      match take_pending id (run_pending r) with
      | None => r
      | Some (p, rest) =>
          let '(response, s) := handler_finish p (mockableForwarder (p_config p) reply) times (run_state r) in
          {| run_state := s; run_pending := rest;
             run_responses := run_responses r ++ match response with Some response => [(id, response)] | None => [] end |}
      end
  end%list.

Definition run_proxy (events : list proxy_event) : Run := fold_left proxy_step events new_Run.
End Handler.
