(* ===== verification/EllipticSafety.v ===== *)
(** * What the screening proxy answers for

    Theorems on [EllipticHandler]: every verdict that leaves the proxy, in any interleaving of
    requests and upstream answers, is backed by a request, a list of the operator or an answer of
    the upstream. *)
From Stdlib Require Import Ascii ZArith QArith Qabs Lia.
From stdpp Require Import base tactics list strings.
From S2P Require Import Prelude JsMap Convert Crypto Json PoolTransaction EllipticScoring EllipticConfig EllipticHandler.

Local Open Scope string_scope.
Local Open Scope Z_scope.

(** An upstream answer that lets an address pass, and one that condemns it. *)
Definition clean (reply : upstream_reply) : Prop :=
  match reply with
  | None => False
  | Some (status, body) =>
      status = 404 \/ (200 <= status < 300 /\ exists s, scoreResponse body = Some s /\ sr_blocked s = false)
  end.

Definition condemned (reply : upstream_reply) : Prop :=
  match reply with
  | None => False
  | Some (status, body) =>
      200 <= status < 300 /\ exists s, scoreResponse body = Some s /\ sr_blocked s = true /\ sr_reason s <> MalformedJson
  end.

Lemma Qeq_bool_sym a b : Qeq_bool a b = true -> (b == a)%Q.
Proof. intros Hq%Qeq_bool_iff. by symmetry. Qed.

Lemma positive_integer_eq q z : positive_integer q = Some z -> (inject_Z z == q)%Q.
Proof.
  unfold positive_integer. cbv zeta. destruct (Qden (Qred q) =? 1)%positive eqn:Hd; [|done]. intros [= <-].
  apply Pos.eqb_eq in Hd. rewrite <- (Qred_correct q) at 2. destruct (Qred q) as [n d]. cbn in *. by subst.
Qed.

Section Safety.
Context `{ProxyCrypto} `{ScreeningSigner} {Hwindows : LruCache Window} {Hblocked : LruCache unit} {Hlaws : LruLaws unit}.
Implicit Types (events : list proxy_event).

(** The request [id] was accepted for screening an address under a configuration: it is authenticated, and
    the address is a felt below the bound, which no list of the operator decides on. *)
Definition vetted events (id : nat) (config : Config) (times : Times) (address : string) : Prop :=
  exists req auth raw, Starts id (Ok config) req times ∈ events /\ authenticateRequest (t_auth times) req config = Ok auth /\
    body_address req = Some raw /\ isHexFelt raw = true /\ address = toLowerCase raw /\ felt_value address < ADDRESS_UPPER_BOUND.

Definition undecided (config : Config) (address : string) : Prop :=
  feltListIncludes (blockOverrideAddresses config) (felt_value address) = false /\
  feltListIncludes (additionalBlockedAddresses config) (felt_value address) = false.

(** The upstream answered the request [id], which waited for the verdict on the address, at a time. *)
Definition answered events (id : nat) (config : Config) (address : string) (reply : upstream_reply) (perf : Z) : Prop :=
  (exists times, vetted events id config times address) /\ undecided config address /\
  exists live times, Replies id live times ∈ events /\ reply = mockableForwarder config live /\ t_perf times = perf.

Definition justified events (id : nat) (response : proxy_response) : Prop :=
  match response with
  | Failure _ _ => True
  | Allowed source signature => exists config times address t, vetted events id config times address /\
      signScreening (signingPrivateKey config) (felt_value (chainId config)) (felt_value address) t = Some signature /\
      ((source = "allowlist" /\ feltListIncludes (blockOverrideAddresses config) (felt_value address) = true) \/
       (source = upstreamSource config /\ exists reply perf, answered events id config address reply perf /\ clean reply))
  | Blocked source => exists config times address, vetted events id config times address /\
      feltListIncludes (blockOverrideAddresses config) (felt_value address) = false /\
      ((source = "blocklist" /\ feltListIncludes (additionalBlockedAddresses config) (felt_value address) = true) \/
       (source = "cache" /\ exists id' config' reply perf, answered events id' config' address reply perf /\ condemned reply /\
          (inject_Z (t_perf times - perf) <= blockedCacheTtlSeconds config * 1000)%Q) \/
       (source = upstreamSource config /\ exists reply perf, answered events id config address reply perf /\ condemned reply))
  end.

Lemma vetted_mono events e id config times address : vetted events id config times address -> vetted (events ++ [e])%list id config times address.
Proof. intros (req & auth & raw & Hin & ?). exists req, auth, raw. split; [|done]. apply elem_of_app. by left. Qed.

Lemma answered_mono events e id config address reply perf :
  answered events id config address reply perf -> answered (events ++ [e])%list id config address reply perf.
Proof.
  intros ((t & Hv) & Hu & live & times & Hin & ?). split_and!; [exists t; by apply vetted_mono|done|].
  exists live, times. split; [|done]. apply elem_of_app. by left.
Qed.

Lemma verdict_mono events e id response : justified events id response -> justified (events ++ [e])%list id response.
Proof.
  destruct response as [status error|source signature|source]; [done|..].
  - intros (config & times & address & t & Hv & Hs & Hc). exists config, times, address, t.
    split_and!; [by apply vetted_mono|done|]. destruct Hc as [Hc|(Hc & reply & perf & Ha & Hcl)]; [by left|right]. split; [done|].
    exists reply, perf. split; [by apply answered_mono|done].
  - intros (config & times & address & Hv & Ho & Hc). exists config, times, address. split_and!; [by apply vetted_mono|done|].
    destruct Hc as [Hc|[(Hc & id' & config' & reply & perf & Ha & Hcl)|(Hc & reply & perf & Ha & Hcl)]]; [by left|right; left|right; right];
      (split; [done|]).
    + exists id', config', reply, perf. split; [by apply answered_mono|done].
    + exists reply, perf. split; [by apply answered_mono|done].
Qed.

(** Who waits was vetted, and no list decides. *)
Definition waits events (id : nat) (p : Pending) : Prop :=
  p_addressFelt p = felt_value (p_address p) /\ undecided (p_config p) (p_address p) /\
  exists times, vetted events id (p_config p) times (p_address p).

Definition cache_ok events (s : ProxyState) : Prop :=
  match ps_blockedCache s with
  | None => True
  | Some c => (inject_Z (ttl_of c) == ps_currentCacheTtlMs s)%Q /\
      forall k v t, holds c k v t -> exists id config reply, answered events id config k reply t /\ condemned reply
  end.

Lemma cache_mono events e s : cache_ok events s -> cache_ok (events ++ [e])%list s.
Proof.
  unfold cache_ok. destruct (ps_blockedCache s); [|done]. intros [Ht Hh]. split; [done|]. intros k v t Hk.
  destruct (Hh k v t Hk) as (id & config & reply & Ha & Hc). exists id, config, reply. split; [by apply answered_mono|done].
Qed.

Record run_ok events (r : Run) : Prop := {
  ro_cache : cache_ok events (run_state r);
  ro_pending : Forall (fun e => waits events e.1 e.2) (run_pending r);
  ro_responses : Forall (fun e => justified events e.1 e.2) (run_responses r) }.

Lemma run_ok_mono events e r : run_ok events r -> run_ok (events ++ [e])%list r.
Proof.
  intros [Hc Hp Hr]. split; [by apply cache_mono|..]; eapply Forall_impl; try done; intros [id x].
  - intros (Hf & Hu & t & Hv). split_and!; [done|done|]. exists t. by apply vetted_mono.
  - apply verdict_mono.
Qed.

Lemma prepare_ok events config s : cache_ok events s ->
  cache_ok events (prepare_caches config s).1 /\
  match (prepare_caches config s).2 with
  | None => True
  | Some (_, c) => ps_blockedCache (prepare_caches config s).1 = Some c /\ (inject_Z (ttl_of c) == blockedCacheTtlSeconds config * 1000)%Q /\
      forall k v t, holds c k v t -> exists id config reply, answered events id config k reply t /\ condemned reply
  end.
Proof.
  unfold prepare_caches, cache_ok. cbv zeta. cbn [ps_blockedCache ps_currentCacheTtlMs].
  destruct (ps_blockedCache s) as [c|] eqn:Hc; [destruct (Qeq_bool _ (ps_currentCacheTtlMs s)) eqn:Hq|].
  - intros [Ht Hh]. cbn [fst snd ps_blockedCache ps_currentCacheTtlMs]. split; [done|]. split_and!; [done| |done].
    rewrite Ht. by apply Qeq_bool_sym.
  - intros Hold. destruct (positive_integer _) as [ttl|] eqn:Hp; cbn [fst snd ps_blockedCache ps_currentCacheTtlMs]; [|done].
    assert (Htt : (inject_Z (ttl_of (lru_new ttl : @lru unit Hblocked)) == blockedCacheTtlSeconds config * 1000)%Q).
    { rewrite ttl_new. by apply positive_integer_eq. }
    split_and!; [done| |done|done|]; intros k v t Hk; by apply holds_new in Hk.
  - intros _. destruct (positive_integer _) as [ttl|] eqn:Hp; cbn [fst snd ps_blockedCache ps_currentCacheTtlMs]; [|done].
    assert (Htt : (inject_Z (ttl_of (lru_new ttl : @lru unit Hblocked)) == blockedCacheTtlSeconds config * 1000)%Q).
    { rewrite ttl_new. by apply positive_integer_eq. }
    split_and!; [done| |done|done|]; intros k v t Hk; by apply holds_new in Hk.
Qed.

Lemma sendAllowed_justified events id config times times' address source :
  vetted events id config times address ->
  (source = "allowlist" /\ feltListIncludes (blockOverrideAddresses config) (felt_value address) = true) \/
  (source = upstreamSource config /\ exists reply perf, answered events id config address reply perf /\ clean reply) ->
  justified events id (sendAllowed config (felt_value address) times' source).
Proof.
  intros Hv Hc. unfold sendAllowed. destruct (signScreening _ _ _ _) as [signature|] eqn:Hs; [|done].
  exists config, times, address, (t_sign times' / 1000). done.
Qed.

Lemma handler_start_ok events id loaded req times s :
  cache_ok events s -> Starts id loaded req times ∈ events ->
  let '(outcome, s') := handler_start loaded req times s in
  cache_ok events s' /\
  match outcome with Responds response => justified events id response | Forwards p => waits events id p | Throws => True end.
Proof.
  intros Hc Hin. unfold handler_start. destruct loaded as [config|e]; [|done].
  destruct (match req_rawBody req with Some _ => _ | None => false end); [done|].
  destruct (prepare_ok events config s Hc) as [Hc1 Hcache]. destruct (prepare_caches config s) as [s1 [[rl c]|]]; cbn [fst snd] in *; [|done].
  destruct (authenticateRequest _ req config) as [auth|e] eqn:Hauth; [|done]. destruct (check _ _ _ _ rl) as [within rl'].
  destruct within; (split; [exact Hc1|]); [|done]. destruct Hcache as (_ & Htt & Hh).
  unfold screen_address. destruct (body_address req) as [raw|] eqn:Hraw; [|done].
  destruct (isHexFelt raw) eqn:Hhex; [|done]. cbn [negb]. destruct (Z.leb_spec ADDRESS_UPPER_BOUND (felt_value (toLowerCase raw))) as [|Hlt]; [done|].
  assert (Hv : vetted events id config times (toLowerCase raw)) by (by exists req, auth, raw).
  destruct (feltListIncludes (blockOverrideAddresses config) _) eqn:Hov; [eapply sendAllowed_justified; [exact Hv|by left]|].
  destruct (feltListIncludes (additionalBlockedAddresses config) _) eqn:Hden.
  { exists config, times, (toLowerCase raw). split_and!; [done|done|by left]. }
  destruct (lru_has _ _ c) eqn:Hhas.
  - apply has_holds in Hhas as ([] & t0 & Hk & Hage). exists config, times, (toLowerCase raw). split_and!; [done|done|].
    right; left. split; [done|]. destruct (Hh _ _ _ Hk) as (id' & config' & reply & Ha & Hcd). exists id', config', reply, t0.
    split_and!; [done|done|]. rewrite <- Htt. by rewrite <- Zle_Qle.
  - split_and!; [done|done|by exists times].
Qed.

Lemma handler_finish_ok events id p live times s :
  cache_ok events s -> waits events id p -> Replies id live times ∈ events ->
  let '(response, s') := handler_finish p (mockableForwarder (p_config p) live) times s in
  cache_ok events s' /\ match response with Some response => justified events id response | None => True end.
Proof.
  intros Hc (Hf & Hu & t & Hv) Hin. set (reply := mockableForwarder (p_config p) live).
  assert (Ha : answered events id (p_config p) (p_address p) reply (t_perf times)).
  { split_and!; [by exists t|done|]. by exists live, times. }
  unfold handler_finish. destruct reply as [[status body]|] eqn:Hr; [|done]. rewrite Hf.
  assert (Hallow : clean reply -> justified events id (sendAllowed (p_config p) (felt_value (p_address p)) times (upstreamSource (p_config p)))).
  { intros Hcl. eapply sendAllowed_justified; [exact Hv|]. right. split; [done|]. exists reply, (t_perf times). by rewrite Hr in *. }
  rewrite Hr in Hallow. destruct (Z.eqb_spec status 404) as [->|H404]; [split; [done|]; apply Hallow; by left|].
  destruct ((status <? 200) || (300 <=? status)) eqn:Hst; [done|]. apply orb_false_iff in Hst as [H2%Z.ltb_ge H3%Z.leb_gt].
  destruct (scoreResponse body) as [scoring|] eqn:Hsc; [|done]. destruct (decide _) as [|Hmal]; [done|].
  destruct (sr_blocked scoring) eqn:Hb.
  - assert (Hcd : condemned (Some (status, body))) by (split; [lia|by exists scoring]). split.
    + unfold cache_ok in *. cbn [ps_blockedCache ps_currentCacheTtlMs]. destruct (ps_blockedCache s) as [c|]; [|done]. cbn [option_map].
      destruct Hc as [Ht Hh]. split; [by rewrite ttl_set|]. intros k v t0 [(-> & -> & ->)|[_ Hk]]%holds_set; [|by apply (Hh k v)].
      by exists id, (p_config p), (Some (status, body)).
    + exists (p_config p), t, (p_address p). split_and!; [done|apply Hu|]. right; right. split; [done|]. by exists (Some (status, body)), (t_perf times).
  - split; [done|]. apply Hallow. right. split; [lia|]. by exists scoring.
Qed.

Lemma take_pending_in id l p rest : take_pending id l = Some (p, rest) -> (id, p) ∈ l /\ forall e, e ∈ rest -> e ∈ l.
Proof.
  revert p rest. induction l as [|[id' p'] l IH]; intros p rest; [done|]. cbn. destruct (Nat.eqb_spec id id') as [->|Hne].
  - intros [= -> ->]. split; [by left|]. intros e He. by right.
  - destruct (take_pending id l) as [[q l']|]; [|done]. cbn. intros [= -> <-]. destruct (IH p l' eq_refl) as [Hin Hr].
    split; [by right|]. intros e [->|He]%elem_of_cons; [by left|right; by apply Hr].
Qed.

Lemma run_proxy_ok events : run_ok events (run_proxy events).
Proof.
  induction events as [|e events IH] using rev_ind; [split; try apply Forall_nil_2; done|].
  unfold run_proxy in *. rewrite fold_left_app. cbn [fold_left]. set (r := fold_left proxy_step events new_Run) in *.
  apply (run_ok_mono events e) in IH as [Hc Hp Hr]. assert (Hin : e ∈ (events ++ [e])%list) by (apply elem_of_app; right; by left).
  destruct e as [id loaded req times|id live times]; cbn [proxy_step].
  - pose proof (handler_start_ok _ id loaded req times _ Hc Hin) as Hs. destruct (handler_start loaded req times _) as [outcome s].
    destruct Hs as [Hc' Ho]. destruct outcome; split; cbn [run_state run_pending run_responses]; try done.
    + apply Forall_app. split; [done|]. by apply list.Forall_singleton.
    + apply Forall_app. split; [done|]. by apply list.Forall_singleton.
  - destruct (take_pending id (run_pending r)) as [[p rest]|] eqn:Htake; [|by split].
    apply take_pending_in in Htake as [Hpin Hrest]. rewrite list.Forall_forall in Hp.
    pose proof (handler_finish_ok _ id p live times _ Hc (Hp _ Hpin) Hin) as Hf. destruct (handler_finish p _ times _) as [response s].
    destruct Hf as [Hc' Hj]. split; cbn [run_state run_pending run_responses]; [done|..].
    + apply list.Forall_forall. intros x Hx. apply Hp. by apply Hrest.
    + apply Forall_app. split; [done|]. destruct response; [by apply list.Forall_singleton|constructor].
Qed.
End Safety.

(** C8: In any interleaving of requests, configurations and upstream answers, every verdict that leaves the
    proxy is justified. An attestation is signed only for the address of an authenticated request, a felt
    below 2^251, that is on the allow list of the operator, or that no list decides on and the upstream
    cleared or did not know. A block comes from the deny list, from the upstream, or from the cache, and then
    the upstream condemned that address no longer ago than the time to live of the configuration; an
    address on the allow list is never blocked. *)
Theorem proxy_verdicts_are_justified `{ProxyCrypto} `{ScreeningSigner} {Hwindows : LruCache Window} {Hblocked : LruCache unit}
  {Hlaws : LruLaws unit} (events : list proxy_event) :
  Forall (fun e => justified events e.1 e.2) (run_responses (run_proxy events)).
Proof. exact (ro_responses _ _ (run_proxy_ok events)). Qed.

(** ** A run *)

(** Bytes for base64, the message for its HMAC, and a signature that shows what was signed. *)
Definition bytes_of (s : string) : list Z := map (fun c => Z.of_nat (nat_of_ascii c)) (String.list_ascii_of_string s).
Definition toy_crypto : ProxyCrypto :=
  {| base64_decode := bytes_of; base64_encode bs := String.string_of_list_ascii (map (fun z => ascii_of_nat (Z.to_nat z)) bs);
     hmac_sha256 key message := (key ++ bytes_of message)%list |}.
Definition toy_signer : ScreeningSigner :=
  {| poseidonHashMany l := fold_left (fun a x => a * 7 + x) l 0; getStarkKey := BigInt_of_string;
     stark_sign message key := Some (felt_value message, 1) |}.

Definition toy_config : Config :=
  {| elliptic_url := "https://e"; elliptic_timeoutMs := 10; rateLimitPerMinute := 2; maxBodyBytes := 100; configCacheTtlSeconds := 3;
     blockedCacheTtlSeconds := 4; partners := [("p", {| hmacSecret := "s"; ellipticKey := "k"; ellipticSecret := "t" |})];
     additionalBlockedAddresses := Some ["0x0d"]; blockOverrideAddresses := Some ["0x0d"; "0xa"]; signingPrivateKey := "0x5"; chainId := "0x1" |}.

Definition toy_request (address : string) : Request :=
  {| x_access_key := OneHeader "p"; x_access_sign := ManyHeaders ["s1e3POST/screen"]; x_access_timestamp := OneHeader "1e3";
     req_method := "POST"; req_path := "/Screen"; req_rawBody := None; req_body := Some (JObject [("address", JString address)]) |}.

Definition at_ms (n : Z) : Times := {| t_auth := n; t_limit := n; t_sign := n; t_perf := n |}.

(** The first address is condemned, and blocked from the cache while it lasts; the limit is two requests a
    minute, and the allow list wins over the deny list. *)
Definition toy_events : list proxy_event :=
  [Starts 0 (Ok toy_config) (toy_request "0xB") (at_ms 1000);
   Replies 0 (Some (200, Some (BodyObject (sample_response [sample_evaluation SANCTIONED_ENTITY None 5000])))) (at_ms 1100);
   Starts 1 (Ok toy_config) (toy_request "0xb") (at_ms 2000);
   Starts 2 (Ok toy_config) (toy_request "0xc") (at_ms 3000);
   Starts 3 (Ok toy_config) (toy_request "0x000D") (at_ms 61000)].

Definition toy_run : @Run (plain_lru Window) (plain_lru unit) := @run_proxy toy_crypto toy_signer (plain_lru Window) (plain_lru unit) toy_events.

Example toy_verdicts : map (fun e => (e.1, match e.2 with Allowed s _ | Blocked s => s | Failure _ s => s end)) (run_responses toy_run)
  = [(0%nat, "elliptic"); (1%nat, "cache"); (2%nat, "too many requests"); (3%nat, "allowlist")].
Proof. vm_compute. reflexivity. Qed.

Lemma proxy_verdicts_are_justified_witness :
  (1%nat, Blocked "cache") ∈ run_responses toy_run /\ @justified toy_crypto toy_signer toy_events 1 (Blocked "cache").
Proof.
  assert (Hin : (1%nat, Blocked "cache") ∈ run_responses toy_run) by (vm_compute; right; left). split; [exact Hin|].
  pose proof (@proxy_verdicts_are_justified toy_crypto toy_signer (plain_lru Window) (plain_lru unit) (plain_lru_laws unit) toy_events) as Hj.
  rewrite list.Forall_forall in Hj. exact (Hj _ Hin).
Defined.
