(* ===== verification/ProvingService.v ===== *)
(** * The proving service client ([sdk/src/internal/proving-service.ts], [errors.ts])

    A JSON-RPC call to the prover, by plain [fetch] or through the OHTTP client, its retries on
    transient failures, the validation of a proof, and the reading of the prover's errors as
    screening verdicts. The network and the clock are oracles numbered by the calls; the schema
    is zod's, written out. *)
From Stdlib Require Import Ascii ZArith QArith Lia.
From stdpp Require Import base tactics list strings.
From S2P Require Import Prelude JsMap Convert Json Http.

Local Open Scope string_scope.
Local Open Scope Z_scope.

Definition DEFAULT_REQUEST_TIMEOUT_MS : Z := 30000.
Definition DEFAULT_PROVE_MAX_RETRIES : Z := 3.
Definition DEFAULT_PROVE_BASE_DELAY_MS : Z := 1000.
Definition MAX_PROVE_BACKOFF_MS : Z := 30000.
Definition SERVICE_BUSY_CODE : Z := -32005.
Definition TRANSIENT_HTTP_STATUS (status : Z) : bool := status =? 503.

(** ** Errors *)

(** The errors of a call: the two classes of the file, and what the transport and the language throw.
    The fields of a JSON-RPC error are read from an untrusted body, so any of them may be missing. *)
Inductive prove_error : Type :=
| ProvingServiceError (code message : option json) (data : option string)
| ProvingServiceHttpError (status : Z) (body : string)
| TransportError (e : http_error)
| NullResponse
| NoResult
| InvalidResult.

(** A JSON value that is the given number. *)
Definition is_number (n : Z) (value : option json) : bool :=
  match value with Some (JNumber (Some q)) => Qeq_bool q (inject_Z n) | _ => false end.

Definition isTransientError (error : prove_error) : bool :=
  match error with
  | ProvingServiceError code _ _ => is_number SERVICE_BUSY_CODE code
  | ProvingServiceHttpError status _ => TRANSIENT_HTTP_STATUS status
  | _ => false
  end.

(** The typed errors of [errors.ts]. *)
Inductive screening_error : Type :=
| ScreeningRejected (reason : string)
| ScreeningUnavailable (reason : string).

Definition SCREENING_BLOCKED_REASON : string := "address_blocked".
Definition SCREENING_UNAVAILABLE_REASON : string := "screening_unavailable".
Definition SCREENING_POLICY_UNAVAILABLE_REASON : string := "screening_policy_unavailable".
Definition TRANSACTION_REJECTED_CODE : Z := 10000.

Definition screeningErrorFromProvingError (code : option json) (data : option string) : option screening_error :=
  if is_number TRANSACTION_REJECTED_CODE code then
    match data with
    | Some data =>
        if (String.eqb data SCREENING_UNAVAILABLE_REASON || String.eqb data SCREENING_POLICY_UNAVAILABLE_REASON)%bool
        then Some (ScreeningUnavailable data)
        else if String.eqb data SCREENING_BLOCKED_REASON then Some (ScreeningRejected data)
        else None
    | None => None
    end
  else None.

(** ** A response *)

(** Whether a JSON value is truthy. *)
Definition truthy_json (value : json) : bool :=
  match value with
  | JNull => false
  | JBool b => b
  | JNumber (Some q) => negb (Qeq_bool q 0)
  | JNumber None => true
  | JString s => negb (String.eqb s "")
  | JArray _ | JObject _ => true
  end.

Definition string_of_json (value : option json) : option string :=
  match value with Some (JString s) => Some s | _ => None end.

(** [callOnce] from [if (json.error)] on. *)
Definition read_json_rpc (value : json) : result prove_error json :=
  match value with
  | JNull => Err NullResponse
  | _ =>
      match field "error" value with
      | Some error =>
          if truthy_json error
          then Err (ProvingServiceError (field "code" error) (field "message" error) (string_of_json (field "data" error)))
          else match field "result" value with Some r => Ok r | None => Err NoResult end
      | None => match field "result" value with Some r => Ok r | None => Err NoResult end
      end
  end.

(** ** The result of [starknet_proveTransaction] *)

Record MessageToL1 : Type := { from_address : string; to_address : string; payload : list string }.
Record ScreeningSignature : Type := { issued_at : option Q; sig_r : string; sig_s : string }.
Record AdditionalData : Type := { signature : option ScreeningSignature }.
Record ProveTransactionResult : Type := {
  proof : string;
  proof_facts : list string;
  l2_to_l1_messages : list MessageToL1;
  additional_data : option AdditionalData }.

(** [z.object(shape).strict()] refuses any other key. *)
Definition strict_object (shape : list string) (value : json) : option (jsmap string json) :=
  match value with
  | JObject fields => if forallb (fun k => existsb (String.eqb k) shape) (map_keys fields) then Some fields else None
  | _ => None
  end.

(** [z.array(schema)]. *)
Fixpoint parse_all {A} (schema : json -> option A) (l : list json) : option (list A) :=
  match l with
  | [] => Some []
  | x :: l => a ← schema x; r ← parse_all schema l; Some (a :: r)
  end.
Definition array_schema {A} (schema : json -> option A) (value : option json) : option (list A) :=
  match value with Some (JArray l) => parse_all schema l | _ => None end.
Definition string_schema (value : json) : option string := match value with JString s => Some s | _ => None end.
(** [schema.optional()]. *)
Definition optional_schema {A} (schema : json -> option A) (value : option json) : option (option A) :=
  match value with None => Some None | Some v => Some <$> schema v end.

Definition MessageToL1Schema (value : json) : option MessageToL1 :=
  o ← strict_object ["from_address"; "to_address"; "payload"] value;
  from ← map_get "from_address" o ≫= string_schema;
  to ← map_get "to_address" o ≫= string_schema;
  payload ← array_schema string_schema (map_get "payload" o);
  Some {| from_address := from; to_address := to; payload := payload |}.

(** [z.number()] accepts [Infinity], the [None] of a number. *)
Definition ScreeningSignatureSchema (value : json) : option ScreeningSignature :=
  o ← strict_object ["issued_at"; "sig_r"; "sig_s"] value;
  match map_get "issued_at" o with
  | Some (JNumber at_) =>
      r ← map_get "sig_r" o ≫= string_schema;
      s ← map_get "sig_s" o ≫= string_schema;
      Some {| issued_at := at_; sig_r := r; sig_s := s |}
  | _ => None
  end.

Definition AdditionalDataSchema (value : json) : option AdditionalData :=
  o ← strict_object ["signature"] value;
  s ← optional_schema ScreeningSignatureSchema (map_get "signature" o);
  Some {| signature := s |}.

Definition ProveTransactionResultSchema (value : json) : option ProveTransactionResult :=
  o ← strict_object ["proof"; "proof_facts"; "l2_to_l1_messages"; "additional_data"] value;
  proof ← map_get "proof" o ≫= string_schema;
  if (1 <=? String.length proof)%nat then
    facts ← array_schema string_schema (map_get "proof_facts" o);
    messages ← array_schema MessageToL1Schema (map_get "l2_to_l1_messages" o);
    more ← optional_schema AdditionalDataSchema (map_get "additional_data" o);
    Some {| proof := proof; proof_facts := facts; l2_to_l1_messages := messages; additional_data := more |}
  else None.

(** ** The calls *)

(** The answers of plain requests, by number, the readings of [Date.now()], and [JSON.parse]. *)
Class ProverNetwork := {
  prover_fetch : nat -> option HttpResponse;
  prover_now : nat -> Z;
  json_parse : string -> option json
}.

(** The fields of [ProvingService] that its calls read; [requestTimeoutMs] only bounds the wait for an answer. *)
Record ProvingService : Type := { useOhttp : bool; maxRetries : Z; baseDelayMs : Z }.

(** [config.retry], and the constructor. *)
Record ProvingRetryOptions : Type := { retry_maxRetries : option Z; retry_baseDelayMs : option Z }.
Definition new_ProvingService (ohttp : bool) (retry : option ProvingRetryOptions) : ProvingService := {|
  useOhttp := ohttp;
  maxRetries := default DEFAULT_PROVE_MAX_RETRIES (retry ≫= retry_maxRetries);
  baseDelayMs := default DEFAULT_PROVE_BASE_DELAY_MS (retry ≫= retry_baseDelayMs) |}.

(** The body of a JSON-RPC request. *)
Record RpcBody : Type := { rb_id : Z; rb_method : string; rb_params : json }.

Section Calls.
Context `{OhttpNetwork} `{ProverNetwork} (pinnedKeyConfig : option (list Z)) (service : ProvingService).

(** The cached OHTTP client, the requests made and the waits between them. *)
Record Calls : Type := { client : OhttpClient; sent : list RpcBody; slept : list Z }.

Definition fetch_plain (n : nat) : result prove_error json :=
  match prover_fetch n with
  | None => Err (TransportError FetchRejected)
  | Some res =>
      match res_text res with
      | None => Err (TransportError BodyUnreadable)
      | Some text =>
          if status_ok (res_status res) then
            match json_parse text with Some value => Ok value | None => Err (TransportError InvalidJson) end
          else Err (ProvingServiceHttpError (res_status res) text)
      end
  end.

Definition callOnce (method : string) (params : json) : stateE Calls prove_error json := fun s =>
  let n := length (sent s) in
  let body := {| rb_id := prover_now n; rb_method := method; rb_params := params |} in
  let '(reply, client) :=
    if useOhttp service then
      let '(r, c) := send json_parse pinnedKeyConfig "" (client s) in
      (match r with Ok value => Ok value | Err e => Err (TransportError e) end, c)
    else (fetch_plain n, client s) in
  (value ← reply; read_json_rpc value, {| client := client; sent := sent s ++ [body]; slept := slept s |}).

Definition sleep (ms : Z) (s : Calls) : Calls :=
  {| client := client s; sent := sent s; slept := slept s ++ [ms] |}.

(** [Math.min(baseDelayMs * 2 ** attempt, MAX_PROVE_BACKOFF_MS)]. *)
Definition backoff (attempt : Z) : Z := Z.min (baseDelayMs service * 2 ^ attempt) MAX_PROVE_BACKOFF_MS.

(** The loop of [callWithRetry] has no bound of its own; [None]: it still runs when the fuel is used up. *)
Fixpoint retry_from (fuel : nat) (attempt : Z) (method : string) (params : json) (s : Calls)
  : option (result prove_error json * Calls) :=
  match fuel with
  | O => None
  | S fuel =>
      match callOnce method params s with
      | (Ok value, s) => Some (Ok value, s)
      | (Err error, s) =>
          if ((maxRetries service <=? attempt) || negb (isTransientError error))%bool then Some (Err error, s)
          else retry_from fuel (attempt + 1) method params (sleep (backoff attempt) s)
      end
  end.

Definition callWithRetry (fuel : nat) (method : string) (params : json) (s : Calls) :=
  retry_from fuel 0 method params s.

Definition getSpecVersion : stateE Calls prove_error json := callOnce "starknet_specVersion" (JArray []).

Definition isHealthy (s : Calls) : bool * Calls :=
  let '(r, s) := getSpecVersion s in (is_Ok r, s).

(** [BlockIdentifier]: a number, of either type, or a value that is sent as it is. *)
Inductive BlockIdentifier : Type := BlockNumber (n : Z) | BlockValue (value : json).

Definition blockIdParam (blockId : BlockIdentifier) : json :=
  match blockId with
  | BlockNumber n => JObject [("block_number", JNumber (Some (inject_Z n)))]
  | BlockValue value => value
  end.

(** [transaction] is the invocation, as JSON. *)
Definition prove_params (blockId : BlockIdentifier) (transaction : json) : json :=
  JObject [("block_id", blockIdParam blockId); ("transaction", transaction)].

Definition proveTransaction (fuel : nat) (blockId : BlockIdentifier) (transaction : json) (s : Calls)
  : option (result prove_error ProveTransactionResult * Calls) :=
  '(r, s) ← callWithRetry fuel "starknet_proveTransaction" (prove_params blockId transaction) s;
  Some (value ← r; match ProveTransactionResultSchema value with Some p => Ok p | None => Err InvalidResult end, s).
End Calls.

(** ** The retries *)

Section Retries.
Context `{OhttpNetwork} `{ProverNetwork} (pinnedKeyConfig : option (list Z)) (service : ProvingService)
  (method : string) (params : json).

(** The state before the k-th attempt, when all attempts before it are retried. *)
Fixpoint state_before (k : nat) (s : Calls) : Calls :=
  match k with
  | O => s
  | S k => sleep (backoff service (Z.of_nat k)) (callOnce pinnedKeyConfig service method params (state_before k s)).2
  end.

Definition attempt (k : nat) (s : Calls) : result prove_error json * Calls :=
  callOnce pinnedKeyConfig service method params (state_before k s).

Definition fails_transiently (k : nat) (s : Calls) : Prop :=
  exists e, (attempt k s).1 = Err e /\ isTransientError e = true.

Lemma callOnce_log s :
  let s' := (callOnce pinnedKeyConfig service method params s).2 in
  slept s' = slept s /\
  sent s' = (sent s ++ [{| rb_id := prover_now (length (sent s)); rb_method := method; rb_params := params |}])%list.
Proof.
  unfold callOnce. destruct (useOhttp service); [|done].
  by destruct (send json_parse pinnedKeyConfig "" (client s)).
Qed.

(** The bodies of [k] attempts from a state on. *)
Definition bodies (k : nat) (s : Calls) : list RpcBody :=
  map (fun i => {| rb_id := prover_now i; rb_method := method; rb_params := params |}) (seq (length (sent s)) k).

Lemma state_before_log k s :
  slept (state_before k s) = (slept s ++ map (backoff service) (seqZ 0 (Z.of_nat k)))%list /\
  sent (state_before k s) = (sent s ++ bodies k s)%list.
Proof.
  induction k as [|k [IHl IHs]]; [by cbn; rewrite !app_nil_r|].
  destruct (callOnce_log (state_before k s)) as [Hl Hs]. cbn [state_before sleep slept sent]. split.
  - rewrite Hl, IHl, <- app_assoc. f_equal. replace (Z.of_nat (S k)) with (Z.of_nat k + 1) by lia.
    rewrite seqZ_app, map_app by lia. done.
  - rewrite Hs, IHs, <- app_assoc, length_app. unfold bodies. rewrite length_map, length_seq, seq_S, map_app. done.
Qed.

Lemma retry_from_spec fuel k s :
  (forall j, (j < k)%nat -> fails_transiently j s) -> Z.of_nat k <= Z.max 0 (maxRetries service) ->
  Z.max 0 (maxRetries service) - Z.of_nat k < Z.of_nat fuel ->
  exists m, Z.of_nat m <= Z.max 0 (maxRetries service) /\ (forall j, (j < m)%nat -> fails_transiently j s) /\
    retry_from pinnedKeyConfig service fuel (Z.of_nat k) method params (state_before k s) = Some (attempt m s) /\
    (fails_transiently m s -> Z.of_nat m = Z.max 0 (maxRetries service)).
Proof.
  revert k. induction fuel as [|fuel IH]; intros k Hk Hmax Hfuel; [lia|]. cbn [retry_from].
  fold (attempt k s). destruct (attempt k s) as [[value|e] s'] eqn:Ha.
  { exists k. split_and!; [done|done|by rewrite Ha|]. unfold fails_transiently. rewrite Ha. by intros (e & [=] & _). }
  destruct (Z.leb_spec (maxRetries service) (Z.of_nat k)) as [Hlast|Hlast]; cbn [orb].
  { exists k. split_and!; [done|done|by rewrite Ha|intros _; lia]. }
  destruct (isTransientError e) eqn:He; cbn [negb].
  - replace (Z.of_nat k + 1) with (Z.of_nat (S k)) by lia.
    replace (sleep (backoff service (Z.of_nat k)) s') with (state_before (S k) s) by (cbn; fold (attempt k s); by rewrite Ha).
    apply IH; [|lia|lia]. intros j Hj. destruct (decide (j = k)) as [->|]; [|apply Hk; lia].
    exists e. by rewrite Ha.
  - exists k. split_and!; [done|done|by rewrite Ha|]. unfold fails_transiently. rewrite Ha.
    intros (e' & [= <-] & Ht). cbn in Ht. congruence.
Qed.
End Retries.

Lemma backoff_bounded service k : 0 <= baseDelayMs service -> 0 <= k -> 0 <= backoff service k <= MAX_PROVE_BACKOFF_MS.
Proof.
  intros Hb Hk. unfold backoff, MAX_PROVE_BACKOFF_MS. pose proof (Z.pow_nonneg 2 k ltac:(lia)). nia.
Qed.

(** C30: A prove request always settles: however large the fuel above [maxRetries], the loop stops after at most
    [maxRetries + 1] attempts, with the outcome of its last attempt. Every earlier attempt failed with
    a transient error (busy, or HTTP 503), the last one did not unless the retries were used up, so any
    other failure surfaces at once. All attempts send the same method and parameters, and the n-th wait
    is the base delay doubled n times, never more than thirty seconds. *)
Theorem proving_retries_settle `{OhttpNetwork} `{ProverNetwork} (pinnedKeyConfig : option (list Z))
  (service : ProvingService) (method : string) (params : json) (s : Calls) (fuel : nat) :
  0 <= maxRetries service -> 0 <= baseDelayMs service -> maxRetries service < Z.of_nat fuel ->
  exists m outcome s', callWithRetry pinnedKeyConfig service fuel method params s = Some (outcome, s') /\
    Z.of_nat m <= maxRetries service /\ attempt pinnedKeyConfig service method params m s = (outcome, s') /\
    (forall j, (j < m)%nat -> fails_transiently pinnedKeyConfig service method params j s) /\
    (Z.of_nat m < maxRetries service -> forall e, outcome = Err e -> isTransientError e = false) /\
    sent s' = (sent s ++ bodies method params (S m) s)%list /\
    slept s' = (slept s ++ map (fun i => Z.min (baseDelayMs service * 2 ^ i) MAX_PROVE_BACKOFF_MS) (seqZ 0 (Z.of_nat m)))%list /\
    Forall (fun ms => 0 <= ms <= 30000) (map (backoff service) (seqZ 0 (Z.of_nat m))).
Proof.
  intros Hmax Hbase Hfuel.
  destruct (retry_from_spec pinnedKeyConfig service method params fuel 0 s) as (m & Hm & Hf & Hrun & Hlast); [by intros j ?; lia|lia|lia|].
  change (callWithRetry pinnedKeyConfig service fuel method params s = Some (attempt pinnedKeyConfig service method params m s)) in Hrun.
  rewrite Hrun.
  destruct (attempt pinnedKeyConfig service method params m s) as [outcome s'] eqn:Ha. exists m, outcome, s'.
  destruct (state_before_log pinnedKeyConfig service method params m s) as [Hl Hs].
  destruct (callOnce_log pinnedKeyConfig service method params (state_before pinnedKeyConfig service method params m s)) as [Hl' Hs'].
  unfold attempt in Ha. rewrite Ha in Hl', Hs'. cbn [snd] in Hl', Hs'. split_and!; [done|lia|by unfold attempt|done| | | |].
  - intros Hlt e ->. destruct (isTransientError e) eqn:He; [|done]. exfalso.
    assert (Z.of_nat m = Z.max 0 (maxRetries service)); [|lia]. apply Hlast. exists e. unfold attempt. by rewrite Ha.
  - rewrite Hs', Hs, <- app_assoc, length_app. unfold bodies. rewrite length_map, length_seq, (seq_S m), map_app. done.
  - rewrite Hl', Hl. done.
  - apply list.Forall_forall. intros ms (k & -> & Hk%elem_of_seqZ)%list_elem_of_fmap.
    apply (backoff_bounded service k); lia.
Qed.

Section Witness.
(** A prover that is busy twice. *)
Definition busy_twice : ProverNetwork := {|
  prover_fetch := fun n => if (n <? 2)%nat then Some {| res_status := 503; res_text := Some "busy" |}
                           else Some {| res_status := 200; res_text := Some "ok" |};
  prover_now := Z.of_nat;
  json_parse := fun _ => Some (JObject [("result", JString "0.10.0")]) |}.
Definition no_library : OhttpLibrary := {| KeyConfig := unit; parseMultiple := fun _ => None; encapsulates := fun _ _ => false |}.
Definition no_network : @OhttpNetwork no_library := @Build_OhttpNetwork no_library (fun _ => None) (fun _ _ => None).
Definition no_calls : @Calls no_library := {| client := new_OhttpClient; sent := []; slept := [] |}.

Lemma proving_retries_settle_witness :
  exists m outcome (s' : @Calls no_library),
    @callWithRetry no_library no_network busy_twice None (new_ProvingService false None) 4 "starknet_specVersion" (JArray []) no_calls
      = Some (outcome, s') /\ Z.of_nat m <= 3 /\
    slept s' = map (fun i => Z.min (1000 * 2 ^ i) MAX_PROVE_BACKOFF_MS) (seqZ 0 (Z.of_nat m)).
Proof.
  destruct (@proving_retries_settle no_library no_network busy_twice None (new_ProvingService false None)
    "starknet_specVersion" (JArray []) no_calls 4 ltac:(done) ltac:(done) ltac:(done)) as (m & o & s' & Hr & Hm & _ & _ & _ & _ & Hl & _).
  by exists m, o, s'.
Defined.

Example busy_twice_settles :
  (fun r => (r.1, slept r.2, length (sent r.2))) <$>
    @callWithRetry no_library no_network busy_twice None (new_ProvingService false None) 4 "starknet_specVersion" (JArray []) no_calls
  = Some (Ok (JString "0.10.0"), [1000; 2000], 3%nat).
Proof. reflexivity. Qed.
End Witness.
