(* ===== verification/InterceptorServer.v ===== *)
(** * The JSON-RPC server of the interceptor ([proof-interceptor/src/rpc.ts], [proxy.ts])

    The validation of a [starknet_checkTransaction] request, the collection of a body of bounded
    size, and the handler of the HTTP server with everything it does to a response, as a list of
    effects. The schemas are zod's, written out; [JSON.parse] and the verdict of the interceptors
    are arguments. Bodies are ASCII. *)
From Stdlib Require Import Ascii ZArith QArith Lia.
From stdpp Require Import base tactics list strings.
From S2P Require Import Prelude JsMap Convert Json PoolTransaction ScreeningInterceptor ScreeningPolicy.

Local Open Scope string_scope.
Local Open Scope Z_scope.

(** ** Answers *)

(** [RequestIdSchema]: a string, a number or an explicit null. *)
Inductive RequestId : Type := IdString (s : string) | IdNumber (n : option Q) | IdNull.

Definition RequestIdSchema (value : option json) : option RequestId :=
  match value with
  | Some (JString s) => Some (IdString s)
  | Some (JNumber n) => Some (IdNumber n)
  | Some JNull => Some IdNull
  | _ => None
  end.

Definition id_json (id : RequestId) : json :=
  match id with IdString s => JString s | IdNumber n => JNumber n | IdNull => JNull end.

(** The [data] of an error: a text, or a prefix followed by the spelling [String(value)] of a value
    of the request ([None] is [undefined]). *)
Inductive error_data : Type := DataText (s : string) | DataGot (prefix : string) (value : option json).

Record JsonRpcError : Type := { je_id : RequestId; je_code : Z; je_message : string; je_data : option error_data }.

Definition jsonRpcError (id : RequestId) (code : Z) (message : string) (data : option error_data) : JsonRpcError :=
  {| je_id := id; je_code := code; je_message := message; je_data := data |}.

Definition INVALID_REQUEST : Z := -32600.
Definition METHOD_NOT_FOUND : Z := -32601.
Definition BLOCK_NOT_FOUND : Z := 24.
Definition UNSUPPORTED_TX_VERSION : Z := 61.
Definition INVOKE_TYPE : string := "INVOKE".
Definition INVOKE_VERSION : string := "0x3".

Inductive RpcErrorType : Type :=
| parse_error | invalid_request | method_not_found | block_not_found | unsupported_tx_version.

Inductive RpcVerdict : Type :=
| RpcOk (transaction : ProveTxnV3) (requestId : RequestId)
| RpcRefused (errorType : RpcErrorType) (response : JsonRpcError).

(** ** Schemas *)

Definition is_literal (s : string) (value : option json) : bool :=
  match value with Some (JString t) => String.eqb t s | _ => false end.

(** The id, the method and the params ([None]: absent) of a request. *)
Definition JsonRpcRequestSchema (value : json) : option (RequestId * string * option json) :=
  match value with
  | JObject fields =>
      if is_literal "2.0" (map_get "jsonrpc" fields) then
        id ← RequestIdSchema (map_get "id" fields);
        match map_get "method" fields with
        | Some (JString method) => Some (id, method, map_get "params" fields)
        | _ => None
        end
      else None
  | _ => None
  end.

(** The block and the transaction, positional or by name. *)
Definition CheckTransactionParamsSchema (params : option json) : option (json * json) :=
  match params with
  | Some (JArray (blockId :: transaction :: _)) => Some (blockId, transaction)
  | Some (JObject fields) =>
      match map_get "block_id" fields, map_get "transaction" fields with
      | Some blockId, Some transaction => Some (blockId, transaction)
      | _, _ => None
      end
  | _ => None
  end.

(** The type and the version of a transaction, whatever they are. *)
Definition TransactionKindSchema (value : json) : option (option json * option json) :=
  match value with
  | JObject fields => Some (map_get "type" fields, map_get "version" fields)
  | _ => None
  end.

Definition as_strings (l : list json) : option (list string) :=
  mapM (fun v => match v with JString s => Some s | _ => None end) l.

Definition ProveTxnV3Schema (value : json) : option ProveTxnV3 :=
  match value with
  | JObject fields =>
      if (is_literal INVOKE_TYPE (map_get "type" fields) && is_literal INVOKE_VERSION (map_get "version" fields))%bool then
        match map_get "calldata" fields with
        | Some (JArray l) => (fun calldata => {| tx_calldata := calldata |}) <$> as_strings l
        | _ => None
        end
      else None
  | _ => None
  end.

(** ** Validation *)

Definition requestIdOf (parsedBody : json) : RequestId := default IdNull (RequestIdSchema (field "id" parsedBody)).

Definition invalidRequest (requestId : RequestId) : RpcVerdict :=
  RpcRefused invalid_request (jsonRpcError requestId INVALID_REQUEST "Invalid Request" None).

Definition unsupportedTxVersion (requestId : RequestId) (data : error_data) : RpcVerdict :=
  RpcRefused unsupported_tx_version (jsonRpcError requestId UNSUPPORTED_TX_VERSION "Unsupported tx version" (Some data)).

Definition validateCheckTransaction (rawParams : option json) (requestId : RequestId) : RpcVerdict :=
  match CheckTransactionParamsSchema rawParams with
  | None => invalidRequest requestId
  | Some (blockId, transaction) =>
      if is_literal "pending" (Some blockId)
      then RpcRefused block_not_found (jsonRpcError requestId BLOCK_NOT_FOUND "Block not found" None)
      else
        match TransactionKindSchema transaction with
        | None => invalidRequest requestId
        | Some (type, version) =>
            if negb (is_literal INVOKE_TYPE type)
            then unsupportedTxVersion requestId (DataGot "Only INVOKE transactions are supported, got: " type)
            else if negb (is_literal INVOKE_VERSION version)
            then unsupportedTxVersion requestId (DataGot "Only version 0x3 is supported, got: " version)
            else match ProveTxnV3Schema transaction with
                 | None => invalidRequest requestId
                 | Some transaction => RpcOk transaction requestId
                 end
        end
  end.

(** [parsed] is [JSON.parse(body)], [None] when it throws. *)
Definition validateRpcRequest (parsed : option json) : RpcVerdict :=
  match parsed with
  | None => RpcRefused parse_error (jsonRpcError IdNull INVALID_REQUEST "Parse error" None)
  | Some parsedBody =>
      match JsonRpcRequestSchema parsedBody with
      | None => invalidRequest (requestIdOf parsedBody)
      | Some (id, method, params) =>
          if String.eqb method "starknet_checkTransaction" then validateCheckTransaction params id
          else RpcRefused method_not_found (jsonRpcError id METHOD_NOT_FOUND "Method not found" None)
      end
  end.

(** ** Reading the body *)

(** The events of an incoming request; [EvClose] says whether the message was complete. *)
Inductive req_event : Type := EvData (chunk : string) | EvEnd | EvError | EvClose (complete : bool).

(** The closure of [readBody]: what it has collected, how it settled, and whether it destroyed the request. *)
Inductive body_outcome : Type := Resolved (body : string) | Rejected.
Record BodyReader : Type := { chunks : list string; totalBytes : Z; settled : option body_outcome; destroyed : bool }.
Definition new_BodyReader : BodyReader := {| chunks := []; totalBytes := 0; settled := None; destroyed := false |}.

Definition settle_body (o : body_outcome) (r : BodyReader) : BodyReader :=
  match settled r with
  | Some _ => r
  | None => {| chunks := chunks r; totalBytes := totalBytes r; settled := Some o; destroyed := destroyed r |}
  end.

Definition on_event (maxBytes : Z) (r : BodyReader) (e : req_event) : BodyReader :=
  match e with
  | EvData chunk =>
      match settled r with
      | Some _ => r
      | None =>
          let totalBytes := totalBytes r + Z.of_nat (String.length chunk) in
          if maxBytes <? totalBytes
          then settle_body Rejected {| chunks := chunks r; totalBytes := totalBytes; settled := None; destroyed := true |}
          else {| chunks := (chunks r ++ [chunk])%list; totalBytes := totalBytes; settled := None; destroyed := destroyed r |}
      end
  | EvEnd => settle_body (Resolved (String.concat "" (chunks r))) r
  | EvError => settle_body Rejected r
  | EvClose complete => if complete then r else settle_body Rejected r
  end.

Definition readBody (events : list req_event) (maxBytes : Z) : BodyReader :=
  fold_left (on_event maxBytes) events new_BodyReader.

(** ** The handler *)

(** The leading digits of a text, and [parseInt(value, 10)]. *)
Fixpoint digits_prefix (s : string) : string :=
  match s with
  | String c s => if is_decimal c then String c (digits_prefix s) else EmptyString
  | EmptyString => EmptyString
  end.
Definition parseInt10 (value : string) : option Z :=
  let s := trim_start value in
  let '(sign, s) := match s with String "-" s => (-1, s) | String "+" s => (1, s) | _ => (1, s) end in
  Z.mul sign <$> parse_radix 10 (digits_prefix s).

(** [value.includes(part)]. *)
Fixpoint includes (part value : string) : bool :=
  (String.prefix part value || match value with String _ value => includes part value | EmptyString => false end)%bool.

Record HttpRequest : Type := {
  req_url : string;
  req_method : string;
  req_contentLength : option string;
  req_contentType : option string;
  req_events : list req_event }.

Definition isJsonContent (req : HttpRequest) : bool := includes "application/json" (default "" (req_contentType req)).

(** The bodies of the answers. *)
Inductive http_body : Type :=
| HealthOk
| Metrics
| HttpError (error : string)
| RpcErrorBody (response : JsonRpcError)
| RpcResult (id : RequestId) (signature : option ScreeningSignature).

(** What the handler does: it counts, it writes a head, it ends the response, it destroys the request. *)
Inductive effect : Type :=
| InFlight (delta : Z)
| CountError (type : string)
| CountRequest (action method : string)
| WriteHead (status : Z)
| EndResponse (body : http_body)
| DestroyRequest.

Definition error_type_name (t : RpcErrorType) : string :=
  match t with
  | parse_error => "parse_error"
  | invalid_request => "invalid_request"
  | method_not_found => "method_not_found"
  | block_not_found => "block_not_found"
  | unsupported_tx_version => "unsupported_tx_version"
  end.

Definition respond (status : Z) (body : http_body) : list effect := [WriteHead status; EndResponse body].
Definition refuse (type error : string) (status : Z) : list effect :=
  ([CountError type; InFlight (-1)] ++ respond status (HttpError error))%list.

Definition too_large (declared : option Z) (maxBodyBytes : Z) : bool :=
  match declared with Some n => maxBodyBytes <? n | None => false end.

(** [runInterceptors] on an accepted transaction, then the answer; no answer while interceptors run. *)
Definition check_with_interceptors (run : ProveTxnV3 -> option Verdict) (transaction : ProveTxnV3) (id : RequestId) : list effect :=
  CountRequest "check_with_interceptors" "starknet_checkTransaction" ::
  match run transaction with
  | None => []
  | Some (Block reason) =>
      InFlight (-1) :: respond 200 (RpcErrorBody (jsonRpcError id TRANSACTION_REJECTED "Transaction rejected" (Some (DataText reason))))
  | Some (Allow signature) => InFlight (-1) :: respond 200 (RpcResult id signature)
  end.

Definition handle_body (json_parse : string -> option json) (run : ProveTxnV3 -> option Verdict) (req : HttpRequest) (body : string)
  : list effect :=
  if (negb (String.eqb (req_method req) "POST") || negb (isJsonContent req))%bool
  then refuse "invalid_request" "only JSON-RPC POST requests accepted" 400
  else
    match validateRpcRequest (json_parse body) with
    | RpcRefused errorType response =>
        ([CountRequest "error" ""; CountError (error_type_name errorType); InFlight (-1)] ++ respond 200 (RpcErrorBody response))%list
    | RpcOk transaction id => check_with_interceptors run transaction id
    end.

(** [createHandler]: the effects of one request. *)
Definition handle (json_parse : string -> option json) (run : ProveTxnV3 -> option Verdict) (maxBodyBytes : Z) (req : HttpRequest)
  : list effect :=
  if (String.eqb (req_url req) "/health" && String.eqb (req_method req) "GET")%bool then respond 200 HealthOk
  else if (String.eqb (req_url req) "/metrics" && String.eqb (req_method req) "GET")%bool then respond 200 Metrics
  else
    InFlight 1 ::
    if too_large (parseInt10 (default "" (req_contentLength req))) maxBodyBytes
    then (refuse "payload_too_large" "payload too large" 413 ++ [DestroyRequest])%list
    else
      let reader := readBody (req_events req) maxBodyBytes in
      ((if destroyed reader then [DestroyRequest] else []) ++
       match settled reader with
       | None => []
       | Some Rejected => refuse "payload_too_large" "payload too large" 413
       | Some (Resolved body) => handle_body json_parse run req body
       end)%list.

(** ** The body *)

Definition data_of (e : req_event) : list string := match e with EvData chunk => [chunk] | _ => [] end.

Lemma settled_stays maxBytes events r o : settled r = Some o -> settled (fold_left (on_event maxBytes) events r) = Some o.
Proof.
  revert r. induction events as [|e events IH]; intros r Hr; [done|]. cbn. apply IH.
  destruct e as [c| | |[]]; cbn; unfold settle_body; by rewrite ?Hr.
Qed.



Lemma concat_cons c l : String.concat "" (c :: l) = c +:+ String.concat "" l.
Proof. destruct l; [by rewrite append_empty|done]. Qed.

Lemma concat_snoc l c : String.concat "" (l ++ [c])%list = String.concat "" l +:+ c.
Proof.
  induction l as [|d l IH]; [done|]. change ((d :: l) ++ [c])%list with (d :: (l ++ [c])%list).
  by rewrite !concat_cons, IH, <- append_assoc.
Qed.

(** The reader counts the bytes it holds, and holds no more than allowed. *)
Definition reader_ok (maxBytes : Z) (r : BodyReader) : Prop :=
  settled r = None /\ totalBytes r = Z.of_nat (String.length (String.concat "" (chunks r))) /\ totalBytes r <= maxBytes.

Lemma readBody_from maxBytes events r body : reader_ok maxBytes r ->
  settled (fold_left (on_event maxBytes) events r) = Some (Resolved body) ->
  exists before after, events = (before ++ EvEnd :: after)%list /\
    body = String.concat "" (chunks r ++ flat_map data_of before)%list /\ Z.of_nat (String.length body) <= maxBytes.
Proof.
  revert r. induction events as [|e events IH]; intros r (Hs & Ht & Hm); cbn; [by rewrite Hs|].
  destruct e as [c| | |complete]; cbn.
  - rewrite Hs. unfold settle_body. cbn. destruct (Z.ltb_spec maxBytes (totalBytes r + Z.of_nat (String.length c))) as [Hlt|Hle].
    { intros Hrun. by rewrite (settled_stays _ _ _ Rejected) in Hrun. }
    intros Hrun. apply IH in Hrun as (before & after & -> & -> & Hlen).
    + exists (EvData c :: before), after. cbn [chunks] in *. rewrite <- app_assoc in *. split_and!; [done|done|exact Hlen].
    + split_and!; [done| |done]. cbn. rewrite concat_snoc, length_append, Ht. lia.
  - unfold settle_body. rewrite Hs. intros Hrun. rewrite (settled_stays _ _ _ (Resolved (String.concat "" (chunks r)))) in Hrun by done.
    injection Hrun as <-. exists [], events. cbn. rewrite app_nil_r. split_and!; [done|done|lia].
  - unfold settle_body. rewrite Hs. intros Hrun. by rewrite (settled_stays _ _ _ Rejected) in Hrun.
  - destruct complete.
    + intros Hrun. apply IH in Hrun as (before & after & -> & -> & Hlen); [|by split_and!].
      exists (EvClose true :: before), after. by cbn.
    + unfold settle_body. rewrite Hs. intros Hrun. by rewrite (settled_stays _ _ _ Rejected) in Hrun.
Qed.

Lemma readBody_resolved maxBytes events body : 0 <= maxBytes -> settled (readBody events maxBytes) = Some (Resolved body) ->
  exists before after, events = (before ++ EvEnd :: after)%list /\
    body = String.concat "" (flat_map data_of before) /\ Z.of_nat (String.length body) <= maxBytes.
Proof. intros Hm Hr. by apply (readBody_from maxBytes events new_BodyReader body) in Hr. Qed.

(** ** The answers *)

Definition answers (effects : list effect) : list http_body :=
  omap (fun e => match e with EndResponse body => Some body | _ => None end) effects.
Definition gauge (effects : list effect) : Z := sumZ (fun e => match e with InFlight d => d | _ => 0 end) effects.

(** An accepted request: the accepted transaction is the one of the body, with the block, version and id as sent. *)
Definition accepted (parsedBody : json) (transaction : ProveTxnV3) (id : RequestId) : Prop :=
  exists fields params blockId tx, parsedBody = JObject fields /\
    map_get "jsonrpc" fields = Some (JString "2.0") /\ RequestIdSchema (map_get "id" fields) = Some id /\
    map_get "method" fields = Some (JString "starknet_checkTransaction") /\ map_get "params" fields = Some params /\
    ((exists rest, params = JArray (blockId :: JObject tx :: rest)) \/
     (exists named, params = JObject named /\ map_get "block_id" named = Some blockId /\
        map_get "transaction" named = Some (JObject tx))) /\
    blockId <> JString "pending" /\
    map_get "type" tx = Some (JString "INVOKE") /\ map_get "version" tx = Some (JString "0x3") /\
    map_get "calldata" tx = Some (JArray (map JString (tx_calldata transaction))).

Lemma is_literal_true s value : is_literal s value = true <-> value = Some (JString s).
Proof.
  destruct value as [[| | |t| |]|]; cbn; try (split; [discriminate|by intros [=]]).
  rewrite String.eqb_eq. by split; [intros ->|intros [= ->]].
Qed.

Lemma as_strings_spec l calldata : as_strings l = Some calldata <-> l = map JString calldata.
Proof.
  unfold as_strings. rewrite mapM_Some. revert calldata. induction l as [|x l IH]; intros calldata.
  - split; [by inversion 1|]. destruct calldata; [done|by intros [=]].
  - split.
    + inversion 1 as [|? y ? ys Hx Hr]; subst. destruct x; simplify_eq. cbn. f_equal. by apply IH.
    + destruct calldata as [|y calldata]; [by intros [=]|]. intros [= -> ->]. constructor; [done|]. by apply IH.
Qed.

Lemma params_schema params blockId tx : CheckTransactionParamsSchema params = Some (blockId, tx) <->
  exists p, params = Some p /\ ((exists rest, p = JArray (blockId :: tx :: rest)) \/
     (exists named, p = JObject named /\ map_get "block_id" named = Some blockId /\ map_get "transaction" named = Some tx)).
Proof.
  unfold CheckTransactionParamsSchema. split.
  - destruct params as [[| | | |[|b [|t l]]|named]|]; try done.
    + intros [= -> ->]. eexists. split; [done|]. left. by exists l.
    + destruct (map_get "block_id" named) eqn:Hb; [|done]. destruct (map_get "transaction" named) eqn:Ht; [|done].
      intros [= -> ->]. eexists. split; [done|]. right. by exists named.
  - intros (p & -> & [[rest ->]|(named & -> & Hb & Ht)]); [done|]. by rewrite Hb, Ht.
Qed.

Lemma prove_txn_schema value tx : ProveTxnV3Schema value = Some tx <->
  exists fields, value = JObject fields /\ map_get "type" fields = Some (JString "INVOKE") /\
    map_get "version" fields = Some (JString "0x3") /\ map_get "calldata" fields = Some (JArray (map JString (tx_calldata tx))).
Proof.
  unfold ProveTxnV3Schema. split.
  - destruct value as [| | | | |fields]; try done. destruct (_ && _)%bool eqn:Hl; [|done]. split_bool.
    destruct (map_get "calldata" fields) as [[| | | |l|]|] eqn:Hcd; try done. destruct (as_strings l) as [c|] eqn:Hc; [|done].
    intros [= <-]. apply as_strings_spec in Hc as ->. exists fields. by rewrite Hcd, <- !is_literal_true.
  - intros (fields & -> & Ht & Hv & ->). rewrite (proj2 (is_literal_true INVOKE_TYPE _) Ht), (proj2 (is_literal_true INVOKE_VERSION _) Hv). cbn [andb].
    rewrite (proj2 (as_strings_spec _ (tx_calldata tx))) by done. by destruct tx.
Qed.

Lemma validateRpcRequest_ok parsed tx id : validateRpcRequest parsed = RpcOk tx id <->
  exists body, parsed = Some body /\ accepted body tx id.
Proof.
  unfold validateRpcRequest, accepted. split.
  - destruct parsed as [body|]; [|done]. intros Hv. exists body. split; [done|]. revert Hv.
    destruct (JsonRpcRequestSchema body) as [[[id' method] params]|] eqn:Hreq; [|done].
    destruct (String.eqb_spec method "starknet_checkTransaction") as [->|]; [|done].
    unfold JsonRpcRequestSchema in Hreq. destruct body as [| | | | |fields]; try done.
    destruct (is_literal "2.0" (map_get "jsonrpc" fields)) eqn:Hv; [|done]. apply is_literal_true in Hv.
    destruct (RequestIdSchema (map_get "id" fields)) as [i|] eqn:Hid; [|done]. cbn in Hreq.
    destruct (map_get "method" fields) as [[| | |m| |]|] eqn:Hm; try done. injection Hreq as -> -> <-.
    unfold validateCheckTransaction. destruct (CheckTransactionParamsSchema _) as [[blockId t]|] eqn:Hp; [|done].
    destruct (is_literal "pending" (Some blockId)) eqn:Hpend; [done|].
    destruct (TransactionKindSchema t) as [[type version]|]; [|done].
    destruct (negb (is_literal INVOKE_TYPE type)); [done|]. destruct (negb (is_literal INVOKE_VERSION version)); [done|].
    destruct (ProveTxnV3Schema t) as [tx'|] eqn:Htx; [|done]. intros [= -> ->].
    apply prove_txn_schema in Htx as (txf & -> & H1 & H2 & H3). apply params_schema in Hp as (p & Hparams & Hp).
    exists fields, p, blockId, txf. split_and!; try done. intros ->. discriminate Hpend.
  - intros (body & -> & fields & params & blockId & tx' & -> & Hv & Hid & Hm & Hparams & Hp & Hpend & H1 & H2 & H3).
    unfold JsonRpcRequestSchema. rewrite (proj2 (is_literal_true "2.0" _) Hv), Hm, Hid. cbn [mbind option_bind]. rewrite String.eqb_refl.
    unfold validateCheckTransaction. rewrite (proj2 (params_schema _ blockId (JObject tx'))) by (rewrite Hparams; by exists params).
    destruct (is_literal "pending" (Some blockId)) eqn:Hl; [by apply is_literal_true in Hl as [= ->]|].
    cbn [TransactionKindSchema]. rewrite (proj2 (is_literal_true INVOKE_TYPE _) H1), (proj2 (is_literal_true INVOKE_VERSION _) H2). cbn [negb].
    by rewrite (proj2 (prove_txn_schema (JObject tx') tx)) by (exists tx'; done).
Qed.

(** The data chunks that the collected body is made of. *)
Definition received (req : HttpRequest) (maxBodyBytes : Z) (body : string) : Prop :=
  exists before after, req_events req = (before ++ EvEnd :: after)%list /\
    body = String.concat "" (flat_map data_of before) /\ Z.of_nat (String.length body) <= maxBodyBytes.

(** What the server may say of a transaction: it is allowed with that signature, or rejected for that reason,
    by interceptors that saw the transaction of the body. *)
Definition justified (json_parse : string -> option json) (run : ProveTxnV3 -> option Verdict) (maxBodyBytes : Z)
  (req : HttpRequest) (answer : http_body) : Prop :=
  let checked id verdict := exists body value transaction, received req maxBodyBytes body /\ json_parse body = Some value /\
    accepted value transaction id /\ run transaction = Some verdict in
  match answer with
  | RpcResult id signature => req_method req = "POST" /\ isJsonContent req = true /\ checked id (Allow signature)
  | RpcErrorBody e => je_code e = TRANSACTION_REJECTED ->
      exists reason, je_data e = Some (DataText reason) /\ checked (je_id e) (Block reason)
  | _ => True
  end.

Section Answers.
Context (json_parse : string -> option json) (run : ProveTxnV3 -> option Verdict) (maxBodyBytes : Z) (req : HttpRequest).

Definition answered_well (start : Z) (effects : list effect) : Prop :=
  (length (answers effects) <= 1)%nat /\ (answers effects <> [] -> start + gauge effects = 0) /\
  Forall (justified json_parse run maxBodyBytes req) (answers effects).

Lemma refuse_well type error status more : answers more = [] -> gauge more = 0 -> answered_well 1 (refuse type error status ++ more).
Proof.
  intros Ha Hg. unfold answered_well, answers, gauge in *. cbn. rewrite Ha, Hg. split_and!; [done|done|by repeat constructor].
Qed.

Lemma refused_is_unjudged parsed errorType response : validateRpcRequest parsed = RpcRefused errorType response ->
  je_code response <> TRANSACTION_REJECTED.
Proof.
  unfold validateRpcRequest. destruct parsed as [body|]; [|by intros [= _ <-]].
  destruct (JsonRpcRequestSchema body) as [[[id method] params]|]; [|by intros [= _ <-]].
  destruct (String.eqb method "starknet_checkTransaction"); [|by intros [= _ <-]].
  unfold validateCheckTransaction. destruct (CheckTransactionParamsSchema params) as [[b t]|]; [|by intros [= _ <-]].
  destruct (is_literal "pending" (Some b)); [by intros [= _ <-]|].
  destruct (TransactionKindSchema t) as [[type version]|]; [|by intros [= _ <-]].
  destruct (negb (is_literal INVOKE_TYPE type)); [by intros [= _ <-]|].
  destruct (negb (is_literal INVOKE_VERSION version)); [by intros [= _ <-]|].
  destruct (ProveTxnV3Schema t); [done|by intros [= _ <-]].
Qed.

Lemma handle_body_well body : received req maxBodyBytes body -> answered_well 1 (handle_body json_parse run req body).
Proof.
  intros Hrec. unfold handle_body.
  destruct (String.eqb_spec (req_method req) "POST") as [Hpost|Hpost], (isJsonContent req) eqn:Hjson; cbn [negb orb];
    try by apply (refuse_well _ _ _ []).
  destruct (validateRpcRequest (json_parse body)) as [transaction id|errorType response] eqn:Hv.
  - apply validateRpcRequest_ok in Hv as (value & Hparse & Hacc).
    assert (Hc : forall v, run transaction = Some v -> exists body value transaction, received req maxBodyBytes body /\
      json_parse body = Some value /\ accepted value transaction id /\ run transaction = Some v).
    { intros v Hrun. by exists body, value, transaction. }
    unfold check_with_interceptors. destruct (run transaction) as [[signature|reason]|].
    + split_and!; [done|done|]. apply list.Forall_singleton. split_and!; [done|done|by apply Hc].
    + split_and!; [done|done|]. apply list.Forall_singleton. intros _. exists reason. split; [done|by apply Hc].
    + split_and!; [cbn; lia|done|constructor].
  - split_and!; [done|done|]. apply list.Forall_singleton. intros Hcode. by apply refused_is_unjudged in Hv.
Qed.

Lemma handle_well : 0 <= maxBodyBytes -> answered_well 0 (handle json_parse run maxBodyBytes req).
Proof.
  intros Hmax. unfold handle.
  destruct (_ && _)%bool; [split_and!; [done|done|by repeat constructor]|].
  destruct (_ && _)%bool; [split_and!; [done|done|by repeat constructor]|].
  assert (Hin : forall effs, answered_well 1 effs -> answered_well 0 (InFlight 1 :: effs)).
  { intros effs (H1 & H2 & H3). split_and!; [done| |done]. intros Hne. specialize (H2 Hne). unfold gauge in *. cbn. lia. }
  apply Hin. destruct (too_large _ _); [by apply refuse_well|].
  assert (Hd : forall effs, answered_well 1 effs ->
    answered_well 1 ((if destroyed (readBody (req_events req) maxBodyBytes) then [DestroyRequest] else []) ++ effs)).
  { intros effs (H1 & H2 & H3). by destruct (destroyed _). }
  apply Hd. destruct (settled (readBody (req_events req) maxBodyBytes)) as [[body|]|] eqn:Hs.
  - apply handle_body_well. by apply readBody_resolved.
  - by apply (refuse_well _ _ _ []).
  - split_and!; [cbn; lia|done|constructor].
Qed.
End Answers.

(** C10: A request is answered at most once, and once it is answered the gauge of the running requests is
    back where it was. It is told that its transaction is allowed, with a signature or without, only if
    it is a JSON POST whose body, of at most [maxBodyBytes] bytes, is a version 2.0 request to check a
    version-3 invoke on a block that is not pending, with exactly this calldata and this id, and the
    interceptors allowed that transaction with that signature; it is told that the transaction is
    rejected only if they blocked it, for that reason. *)
Theorem server_answers (json_parse : string -> option json) (run : ProveTxnV3 -> option Verdict) (maxBodyBytes : Z)
  (req : HttpRequest) : 0 <= maxBodyBytes ->
  let effects := handle json_parse run maxBodyBytes req in
  (length (answers effects) <= 1)%nat /\
  (answers effects <> [] -> gauge effects = 0) /\
  Forall (justified json_parse run maxBodyBytes req) (answers effects).
Proof. exact (handle_well json_parse run maxBodyBytes req). Qed.

Definition sample_body : json := JObject [("jsonrpc", JString "2.0"); ("id", JNumber (Some 7%Q)); ("method", JString "starknet_checkTransaction");
  ("params", JObject [("block_id", JString "latest");
     ("transaction", JObject [("type", JString "INVOKE"); ("version", JString "0x3"); ("calldata", JArray [JString "0x1"; JString "0x2"])])])].
Definition sample_request : HttpRequest := {|
  req_url := "/"; req_method := "POST"; req_contentLength := Some "4"; req_contentType := Some "application/json; charset=utf-8";
  req_events := [EvData "ab"; EvData "cd"; EvEnd; EvClose true] |}.
Definition sample_parse (text : string) : option json := if String.eqb text "abcd" then Some sample_body else None.

Example sample_allowed :
  handle sample_parse (fun tx => if bool_decide (tx_calldata tx = ["0x1"; "0x2"]) then Some (Allow None) else None) 4 sample_request
  = [InFlight 1; CountRequest "check_with_interceptors" "starknet_checkTransaction"; InFlight (-1);
     WriteHead 200; EndResponse (RpcResult (IdNumber (Some 7%Q)) None)].
Proof. reflexivity. Qed.

(** One byte more than allowed: the request is destroyed and refused, and a declared length is not even read. *)
Example sample_too_large :
  answers (handle sample_parse (fun _ => Some (Allow None)) 3 {| req_url := "/"; req_method := "POST"; req_contentLength := None;
    req_contentType := req_contentType sample_request; req_events := req_events sample_request |}) = [HttpError "payload too large"] /\
  handle sample_parse (fun _ => Some (Allow None)) 3 sample_request
  = [InFlight 1; CountError "payload_too_large"; InFlight (-1); WriteHead 413; EndResponse (HttpError "payload too large"); DestroyRequest].
Proof. split; reflexivity. Qed.

Lemma server_answers_witness :
  justified sample_parse (fun _ => Some (Block "address_blocked")) 4 sample_request
    (RpcErrorBody (jsonRpcError (IdNumber (Some 7%Q)) TRANSACTION_REJECTED "Transaction rejected" (Some (DataText "address_blocked")))).
Proof.
  destruct (server_answers sample_parse (fun _ => Some (Block "address_blocked")) 4 sample_request ltac:(done)) as (_ & _ & Hj).
  exact (Forall_inv Hj).
Defined.

(** ** Configuration ([proof-interceptor/src/config.ts])

    The environment is parsed against two schemas; the first complaint is thrown. Screening is
    configured only when [SCREENING_URL] is set. *)

Definition DEFAULT_MAX_BODY_BYTES : Z := 5 * 1024 * 1024.

(** [process.env]: an unset variable reads as [undefined]. *)
Definition environment : Type := jsmap string string.
Definition env_get (name : string) (env : environment) : option string := map_get name env.

(** The parsers of [integerEnv], [requiredEnv] and [flagEnv], with the message of their complaint. *)
Definition integerEnv (name : string) (defaultValue : Z) (env : environment) : result string Z :=
  match parseInt10 (default (bigint_toString 10 defaultValue) (env_get name env)) with
  | Some n => Ok n
  | None => Err (name +:+ " must be a valid integer")
  end.

Definition requiredEnv (name : string) (env : environment) : result string string :=
  match env_get name env with
  | Some (String c s) => Ok (String c s)
  | _ => Err (name +:+ " env var is required")
  end.

Definition flagEnv (name : string) (env : environment) : bool :=
  match env_get name env with Some raw => String.eqb raw "true" | None => false end.

(** An environment variable counts as set when it is not empty. *)
Definition is_set (value : option string) : bool := match value with Some (String _ _) => true | _ => false end.

(** ** The server *)

Record ServerEnv : Type := { HOST : string; PORT : Z; MAX_BODY_BYTES : Z; TLS_CERT_PATH : option string; TLS_KEY_PATH : option string }.

Definition ServerEnvSchema (env : environment) : result string ServerEnv :=
  let host := default "0.0.0.0" (env_get "HOST" env) in
  port ← integerEnv "PORT" 8080 env;
  _ ← js_assert ((1 <=? port) && (port <=? 65535))%bool "PORT must be between 1 and 65535";
  maxBodyBytes ← integerEnv "MAX_BODY_BYTES" DEFAULT_MAX_BODY_BYTES env;
  _ ← js_assert (0 <? maxBodyBytes) "MAX_BODY_BYTES must be a positive integer";
  let cert := env_get "TLS_CERT_PATH" env in
  let key := env_get "TLS_KEY_PATH" env in
  _ ← js_assert (Bool.eqb (is_set cert) (is_set key)) "TLS_CERT_PATH and TLS_KEY_PATH must both be set or both absent";
  Ok {| HOST := host; PORT := port; MAX_BODY_BYTES := maxBodyBytes; TLS_CERT_PATH := cert; TLS_KEY_PATH := key |}.

(** ** Screening *)

Record ScreeningEnv : Type := {
  ellipticProxyUrl : string;
  partnerName : string;
  partnerSecret : string;
  poolAddress : string;
  rpcUrl : string;
  env_timeoutMs : Z;
  env_maxRetries : Z;
  env_totalTimeoutMs : Z;
  policyTtlMs : Z;
  policyTimeoutMs : Z;
  failOpen : bool;
  env_blockNonPoolTx : bool }.

Definition ScreeningEnvSchema (env : environment) : result string ScreeningEnv :=
  url ← requiredEnv "SCREENING_URL" env;
  name ← requiredEnv "SCREENING_PARTNER_NAME" env;
  secret ← requiredEnv "SCREENING_PARTNER_SECRET" env;
  pool ← requiredEnv "SCREENING_POOL_ADDRESS" env;
  rpc ← requiredEnv "SCREENING_RPC_URL" env;
  timeout ← integerEnv "SCREENING_TIMEOUT_MS" 10000 env;
  retries ← integerEnv "SCREENING_MAX_RETRIES" 2 env;
  total ← integerEnv "SCREENING_TOTAL_TIMEOUT_MS" 10000 env;
  ttl ← integerEnv "SCREENING_POLICY_TTL_MS" DEFAULT_POLICY_TTL_MS env;
  policyTimeout ← integerEnv "SCREENING_POLICY_TIMEOUT_MS" DEFAULT_POLICY_TIMEOUT_MS env;
  Ok {| ellipticProxyUrl := url; partnerName := name; partnerSecret := secret; poolAddress := pool; rpcUrl := rpc;
        env_timeoutMs := timeout; env_maxRetries := retries; env_totalTimeoutMs := total; policyTtlMs := ttl;
        policyTimeoutMs := policyTimeout; failOpen := flagEnv "SCREENING_FAIL_OPEN" env;
        env_blockNonPoolTx := flagEnv "SCREENING_BLOCK_NON_POOL_TX" env |}.

Record Config : Type := {
  host : string;
  port : Z;
  maxBodyBytes : Z;
  screening : option ScreeningEnv;
  tls : option (string * string) }.

Definition loadConfig (env : environment) : result string Config :=
  server ← ServerEnvSchema env;
  screening ← (if is_set (env_get "SCREENING_URL" env) then Some <$> ScreeningEnvSchema env else Ok None);
  Ok {| host := HOST server; port := PORT server; maxBodyBytes := MAX_BODY_BYTES server; screening := screening;
        tls := match TLS_CERT_PATH server, TLS_KEY_PATH server with
               | Some (String _ _ as cert), Some (String _ _ as key) => Some (cert, key)
               | _, _ => None
               end |}.

(** ** What a loaded configuration satisfies *)

Lemma requiredEnv_ok name env v : requiredEnv name env = Ok v -> env_get name env = Some v /\ v <> "".
Proof. unfold requiredEnv. destruct (env_get name env) as [[|c s]|]; try done. by intros [= <-]. Qed.

(** A service that starts listens on a valid port with a positive body limit, has a certificate exactly
    when it has a key, and screens exactly when [SCREENING_URL] is set; then nothing it needs to screen is
    missing. *)
Theorem loaded_config_is_valid (env : environment) (c : Config) : loadConfig env = Ok c ->
  1 <= port c <= 65535 /\ 0 < maxBodyBytes c /\
  (forall cert key, tls c = Some (cert, key) -> cert <> "" /\ key <> "") /\
  (is_set (env_get "TLS_CERT_PATH" env) = true -> exists key, tls c = Some (default "" (env_get "TLS_CERT_PATH" env), key)) /\
  match screening c with
  | None => is_set (env_get "SCREENING_URL" env) = false
  | Some s => env_get "SCREENING_URL" env = Some (ellipticProxyUrl s) /\
      Forall (fun v => v <> "") [ellipticProxyUrl s; partnerName s; partnerSecret s; poolAddress s; rpcUrl s]
  end.
Proof.
  unfold loadConfig. intros Hl. apply bind_ok in Hl as (server & Hserver & Hl). apply bind_ok in Hl as (scr & Hscr & Hl).
  injection Hl as <-. unfold ServerEnvSchema in Hserver. cbn [port maxBodyBytes tls screening].
  apply bind_ok in Hserver as (p & _ & Hserver). apply bind_ok in Hserver as ([] & Hp & Hserver).
  apply bind_ok in Hserver as (m & _ & Hserver). apply bind_ok in Hserver as ([] & Hm & Hserver).
  apply bind_ok in Hserver as ([] & Htls & Hserver). injection Hserver as <-. rewrite js_assert_ok in *. split_bool.
  cbn [PORT MAX_BODY_BYTES TLS_CERT_PATH TLS_KEY_PATH]. apply eqb_prop in Htls.
  split_and!; [lia|lia|lia| | |].
  - intros cert key Ht. destruct (env_get "TLS_CERT_PATH" env) as [[|a s]|], (env_get "TLS_KEY_PATH" env) as [[|b t]|]; try done.
    by injection Ht as <- <-.
  - intros Hset. rewrite Hset in Htls. destruct (env_get "TLS_CERT_PATH" env) as [[|a s]|]; try done.
    destruct (env_get "TLS_KEY_PATH" env) as [[|b t]|]; try done. by eexists.
  - destruct (is_set (env_get "SCREENING_URL" env)) eqn:Hset; [|by injection Hscr as <-].
    destruct (ScreeningEnvSchema env) as [s|e] eqn:Hs; [|done]. injection Hscr as <-. revert Hs. unfold ScreeningEnvSchema.
    intros (url & Hurl & Hs)%bind_ok. apply bind_ok in Hs as (name & Hname & Hs). apply bind_ok in Hs as (secret & Hsecret & Hs).
    apply bind_ok in Hs as (pool & Hpool & Hs). apply bind_ok in Hs as (rpc & Hrpc & Hs).
    do 5 (apply bind_ok in Hs as (? & _ & Hs)). injection Hs as <-. cbn.
    apply requiredEnv_ok in Hurl as [? ?], Hname as [_ ?], Hsecret as [_ ?], Hpool as [_ ?], Hrpc as [_ ?].
    split; [done|by repeat constructor].
Qed.

(** [parseInt] stops at the first other character: a size with a unit is accepted as a number of bytes. *)
Example unit_is_ignored : maxBodyBytes <$> loadConfig [("MAX_BODY_BYTES", "10MB")] = Ok 10.
Proof. reflexivity. Qed.

(** The first complaint, in the order of the schema. *)
Example first_complaint : loadConfig [("MAX_BODY_BYTES", "-1"); ("PORT", "web")] = Err "PORT must be a valid integer".
Proof. reflexivity. Qed.
