(* ===== verification/ScreeningVerdicts.v ===== *)
(** * The screening verdict, from the interceptor to the caller of the SDK

    The reasons with which [screening-interceptor.ts] blocks are read by [errors.ts] in the error that
    the prover relays: the two sides of one wire contract, composed. *)
From Stdlib Require Import ZArith QArith Lia.
From stdpp Require Import base tactics list strings.
From S2P Require Import Prelude JsMap Convert Crypto Json PoolTransaction ScreenedAddress ScreeningInterceptor ScreeningSafety ProvingService.

Local Open Scope string_scope.
Local Open Scope Z_scope.

(** The prover, between the two, answers a prove request that the interceptor rejected with the
    interceptor's own error. *)
Definition relays (prover : rpc_answer -> json) : Prop := forall code message data,
  field "error" (prover (RpcError code message data))
    = Some (JObject [("code", JNumber (Some (inject_Z code))); ("message", JString message); ("data", JString data)]).

(** What the SDK makes of a response: the typed screening error of a proving error, if it is one. *)
Definition screening_error_of (r : result prove_error json) : option screening_error :=
  match r with Err (ProvingServiceError code _ data) => screeningErrorFromProvingError code data | _ => None end.

Definition retried (r : result prove_error json) : bool :=
  match r with Err e => isTransientError e | Ok _ => false end.

Lemma read_relayed prover reason : relays prover ->
  read_json_rpc (prover (RpcError TRANSACTION_REJECTED "Transaction rejected" reason))
  = Err (ProvingServiceError (Some (JNumber (Some (inject_Z 10000)))) (Some (JString "Transaction rejected")) (Some reason)).
Proof.
  intros Hp. specialize (Hp TRANSACTION_REJECTED "Transaction rejected" reason). unfold read_json_rpc.
  destruct (prover _); try discriminate Hp. by rewrite Hp.
Qed.

Lemma screening_error_read prover reason : relays prover ->
  screening_error_of (read_json_rpc (prover (RpcError TRANSACTION_REJECTED "Transaction rejected" reason)))
  = if String.eqb reason "screening_unavailable" || String.eqb reason "screening_policy_unavailable"
    then Some (ScreeningUnavailable reason)
    else if String.eqb reason "address_blocked" then Some (ScreeningRejected reason) else None.
Proof. intros Hp. by rewrite read_relayed. Qed.

(** C9: When the interceptor blocks a transaction, the SDK never retries it, and tells its caller exactly
    what happened: the address is reported as rejected only if the screening service blocked the one address
    the pool asks to screen, screening is reported as unavailable only if the service gave no verdict on
    that address or the policy of the pool could not be read, and every other block, which says
    nothing about an address, is left as the error of the prover. *)
Theorem verdicts_reach_the_caller `{StarkCrypto} `{PoolCoder} `{ScreeningWorld} (config : ScreeningConfig)
  (getPolicy : string -> option OpenNoteScreeningPolicy) (transaction : ProveTxnV3) (reason : string) (prover : rpc_answer -> json) :
  relays prover ->
  intercept config getPolicy transaction = Ok (Block reason) ->
  let seen := read_json_rpc (prover (answer (Block reason))) in
  retried seen = false /\
  match screening_error_of seen with
  | Some (ScreeningRejected r) => r = reason /\ exists poolCall address n,
      decodeClientActions transaction (sc_poolAddress config) = Some poolCall /\
      (forall x, screening_subject getPolicy poolCall x <-> x = address) /\
      read_reply (screen n address) = Some ScreenBlocked
  | Some (ScreeningUnavailable r) => r = reason /\
      (getScreenedAddress getPolicy (sc_poolAddress config) transaction = Ok SUnreadablePolicy \/
       exists address, getScreenedAddress getPolicy (sc_poolAddress config) transaction = Ok (SOne address) /\
         (screenAndSign config address).1 = SignUnavailable)
  | None =>
      (isSinglePoolCall transaction (sc_poolAddress config) = false /\ blockNonPoolTx config = true) \/
      getScreenedAddress getPolicy (sc_poolAddress config) transaction = Ok SConflict \/
      getScreenedAddress getPolicy (sc_poolAddress config) transaction = Ok SUndeterminedShadowAccount
  end.
Proof.
  intros Hp Hi seen. subst seen. cbn [answer]. split; [by rewrite read_relayed|]. rewrite (screening_error_read prover reason Hp). revert Hi. unfold intercept.
  destruct (isSinglePoolCall _ _) eqn:Hpool.
  2:{ destruct (blockNonPoolTx config) eqn:Hb; [|done]. intros [= <-]. by left. }
  destruct (getScreenedAddress getPolicy (sc_poolAddress config) transaction) as [[|a| | |]|] eqn:Hs; try done; cbn [mbind result_bind].
  - pose proof (screenAndSign_ok config a) as Hsign. destruct (screenAndSign config a) as [[s| |] t] eqn:Ht; try done; cbn [fst]; intros [= <-].
    + split; [done|]. destruct Hsign as ((_ & _ & n & _ & Hr) & _).
      destruct (decodeClientActions transaction (sc_poolAddress config)) as [poolCall|] eqn:Hdec.
      2:{ unfold getScreenedAddress in Hs. by rewrite Hdec in Hs. }
      pose proof (screened_address_verdict getPolicy _ _ _ Hdec) as Hv. rewrite Hs in Hv. destruct Hv as [_ Ha].
      by exists poolCall, a, n.
    + split; [done|]. right. exists a. by rewrite Ht.
  - intros [= <-]. right. by left.
  - intros [= <-]. split; [done|]. by left.
  - intros [= <-]. right. by right.
Qed.

(** A prover that relays errors, and a service that blocks every address. *)
Definition sample_prover (a : rpc_answer) : json :=
  match a with
  | RpcError code message data =>
      JObject [("jsonrpc", JString "2.0"); ("id", JNull);
        ("error", JObject [("code", JNumber (Some (inject_Z code))); ("message", JString message); ("data", JString data)])]
  | RpcAllowed _ => JObject [("result", JNull)]
  end.
Definition blocking_world : ScreeningWorld := {|
  now n := Z.of_nat n;
  screen _ _ := Response true (Some (JObject [("blocked", JBool true)])) |}.

Lemma verdicts_reach_the_caller_witness :
  exists poolCall address n,
    @decodeClientActions toy_coder sample_transaction "0xfe" = Some poolCall /\
    (forall x, @screening_subject toy_crypto toy_coder (fun _ => Some Exempt) poolCall x <-> x = address) /\
    read_reply (@screen blocking_world n address) = Some ScreenBlocked.
Proof.
  destruct (@verdicts_reach_the_caller toy_crypto toy_coder blocking_world sample_config (fun _ => Some Exempt) sample_transaction
    "address_blocked" sample_prover (fun _ _ _ => eq_refl) eq_refl) as [_ [_ Hv]].
  exact Hv.
Defined.
