(* ===== verification/Bytes.v ===== *)
(** * Bytes and big-endian numbers

    The byte helpers that the signers and the viewing key of the client share: a number as
    big-endian bytes, bytes as a number, and the bytes of an ASCII text. *)
From Stdlib Require Import Ascii ZArith Lia.
From stdpp Require Import base tactics list numbers strings.
From S2P Require Import Prelude.

Local Open Scope Z_scope.

(** [for (const byte of bytes) x = (x << 8n) | BigInt(byte)], from [x]. *)
Definition push_bytes (x : Z) (bytes : list Z) : Z := fold_left (fun x byte => Z.lor (Z.shiftl x 8) byte) bytes x.

Definition bytesToBigInt (bytes : list Z) : Z := push_bytes 0 bytes.

(** The loop of [to32] over [n] positions from the last one, in front of what is already written. *)
Fixpoint be_loop (n : nat) (x : Z) (out : list Z) : list Z :=
  match n with
  | O => out
  | S n => be_loop n (Z.shiftr x 8) (Z.land x 255 :: out)
  end.
Definition be_bytes (n : nat) (x : Z) : list Z := be_loop n x [].
Definition to32 (x : Z) : list Z := be_bytes 32 x.

(** [new TextEncoder().encode(text)], for ASCII text. *)
Fixpoint text_bytes (s : string) : list Z :=
  match s with EmptyString => [] | String c s => Z.of_nat (nat_of_ascii c) :: text_bytes s end.

Definition is_byte (b : Z) : Prop := 0 <= b < 256.

(** ** Lemmas *)

Lemma push_byte (x b : Z) : is_byte b -> 0 <= x -> Z.lor (Z.shiftl x 8) b = x * 256 + b.
Proof.
  intros Hb Hx. unfold is_byte in Hb. rewrite Z.shiftl_mul_pow2 by lia.
  pose proof (Z.add_lor_land (x * 2 ^ 8) b) as Hsum. rewrite land_mul_pow2 in Hsum by lia. lia.
Qed.

Lemma push_bytes_value x bytes : Forall is_byte bytes -> 0 <= x ->
  push_bytes x bytes = x * 256 ^ Z.of_nat (length bytes) + bytesToBigInt bytes /\
  0 <= bytesToBigInt bytes < 256 ^ Z.of_nat (length bytes).
Proof.
  intros Hb. revert x. induction Hb as [|b bytes Hb Hbs IH]; intros x Hx; [cbn; lia|].
  pose proof Hb as Hb'. unfold is_byte in Hb'. unfold bytesToBigInt, push_bytes in *. cbn [fold_left length].
  rewrite (push_byte x b), (push_byte 0 b) by (done || lia).
  destruct (IH (x * 256 + b) ltac:(lia)) as [-> Hbound]. destruct (IH (0 * 256 + b) ltac:(lia)) as [-> _].
  rewrite Nat2Z.inj_succ, Z.pow_succ_r by lia. split; [lia|]. nia.
Qed.

Lemma bytesToBigInt_bound bytes : Forall is_byte bytes -> 0 <= bytesToBigInt bytes < 256 ^ Z.of_nat (length bytes).
Proof. intros Hb. by destruct (push_bytes_value 0 bytes Hb ltac:(lia)). Qed.

Lemma bytesToBigInt_app l1 l2 : Forall is_byte l1 -> Forall is_byte l2 ->
  bytesToBigInt (l1 ++ l2) = bytesToBigInt l1 * 256 ^ Z.of_nat (length l2) + bytesToBigInt l2.
Proof.
  intros H1 H2. pose proof (bytesToBigInt_bound l1 H1). unfold bytesToBigInt at 1, push_bytes. rewrite fold_left_app.
  fold (push_bytes 0 l1). fold (push_bytes (push_bytes 0 l1) l2). apply push_bytes_value; [done|]. by apply bytesToBigInt_bound.
Qed.

Lemma be_loop_app n x out : be_loop n x out = be_bytes n x ++ out.
Proof.
  unfold be_bytes. revert x out. induction n as [|n IH]; intros x out; [done|]. cbn [be_loop].
  rewrite (IH _ (Z.land x 255 :: out)), (IH _ [Z.land x 255]), <- app_assoc. done.
Qed.

Lemma be_bytes_S n x : be_bytes (S n) x = be_bytes n (Z.shiftr x 8) ++ [x mod 256].
Proof. unfold be_bytes at 1. cbn [be_loop]. rewrite be_loop_app. change 255 with (Z.ones 8). by rewrite Z.land_ones by lia. Qed.

Lemma length_be_bytes n x : length (be_bytes n x) = n.
Proof. revert x. induction n as [|n IH]; intros x; [done|]. rewrite be_bytes_S, length_app, IH. cbn. lia. Qed.

Lemma be_bytes_are_bytes n x : Forall is_byte (be_bytes n x).
Proof.
  revert x. induction n as [|n IH]; intros x; [constructor|]. rewrite be_bytes_S. apply Forall_app. split; [done|].
  apply list.Forall_singleton. apply Z.mod_pos_bound. lia.
Qed.

Lemma bytesToBigInt_snoc l b : Forall is_byte l -> is_byte b -> bytesToBigInt (l ++ [b]) = bytesToBigInt l * 256 + b.
Proof.
  intros Hl Hb. rewrite bytesToBigInt_app by (done || by apply list.Forall_singleton). cbn [length]. change (256 ^ Z.of_nat 1) with 256.
  done.
Qed.

Lemma be_bytes_value n x : bytesToBigInt (be_bytes n x) = x mod 256 ^ Z.of_nat n.
Proof.
  revert x. induction n as [|n IH]; intros x; [cbn; by rewrite Z.mod_1_r|].
  pose proof (Z.mod_pos_bound x 256 ltac:(lia)). rewrite be_bytes_S, bytesToBigInt_snoc, IH by (apply be_bytes_are_bytes || done).
  rewrite Z.shiftr_div_pow2 by lia. change (2 ^ 8) with 256. rewrite Nat2Z.inj_succ, Z.pow_succ_r by lia.
  rewrite (Z.rem_mul_r x 256 (256 ^ Z.of_nat n)) by lia. lia.
Qed.

Lemma be_bytes_small n x : 0 <= x < 256 ^ Z.of_nat n -> bytesToBigInt (be_bytes n x) = x.
Proof. intros Hx. rewrite be_bytes_value. by apply Z.mod_small. Qed.

Lemma be_bytes_of_bytes bytes : Forall is_byte bytes -> be_bytes (length bytes) (bytesToBigInt bytes) = bytes.
Proof.
  induction bytes as [|b bytes IH] using rev_ind; intros Hb; [done|].
  apply Forall_app in Hb as [Hb Hlast]. apply (proj1 (list.Forall_singleton _ _)) in Hlast. pose proof Hlast as Hlast'. unfold is_byte in Hlast'.
  rewrite length_app, Nat.add_comm. cbn [Nat.add length]. rewrite be_bytes_S, bytesToBigInt_snoc by done. f_equal.
  - rewrite Z.shiftr_div_pow2 by lia. change (2 ^ 8) with 256.
    rewrite (Z.add_comm _ b), Z.div_add, Z.div_small, Z.add_0_l by lia. by apply IH.
  - by rewrite (Z.add_comm _ b), Z.mod_add, Z.mod_small by lia.
Qed.

(** Big-endian bytes of one length spell different numbers differently. *)
Lemma bytesToBigInt_inj l1 l2 : Forall is_byte l1 -> Forall is_byte l2 -> length l1 = length l2 ->
  bytesToBigInt l1 = bytesToBigInt l2 -> l1 = l2.
Proof. intros H1 H2 Hl Hv. by rewrite <- (be_bytes_of_bytes l1), <- (be_bytes_of_bytes l2), Hl, Hv. Qed.

Lemma text_bytes_are_bytes s : Forall is_byte (text_bytes s).
Proof.
  induction s as [|c s IH]; constructor; [|done]. unfold is_byte. pose proof (nat_ascii_bounded c). lia.
Qed.

Lemma text_bytes_inj s t : text_bytes s = text_bytes t -> s = t.
Proof.
  revert t. induction s as [|c s IH]; intros [|d t]; try done. cbn. intros [= Hc Hs].
  apply Nat2Z.inj in Hc. apply (f_equal ascii_of_nat) in Hc. rewrite !ascii_nat_embedding in Hc. subst. f_equal. by apply IH.
Qed.
