(* ===== verification/StarknetCalls.v ===== *)
(** * Starknet calls ([client/src/calls.ts])

    The calls of starknet.js and their spelling on the strk20 wire, and what the client uses of
    starknet.js on felts: the spelling [num.toHex] and the selectors. *)
From Stdlib Require Import ZArith Lia.
From stdpp Require Import base tactics list strings.
From S2P Require Import Prelude Convert.

Local Open Scope string_scope.
Local Open Scope Z_scope.

(** starknet.js: [num.toHex] of a bigint and [hash.getSelectorFromName]. *)
Class StarknetNum := { sn_toHex : Z -> string; getSelectorFromName : string -> string }.

(** What is documented of [num.toHex]: it spells the number, with the prefix. *)
Class StarknetNumLaws `{StarknetNum} : Prop := sn_toHex_spells : forall z, 0 <= z -> BigInt_of_string (sn_toHex z) = Some z.

(** The [Call] of starknet.js; compiled calldata is a list of numbers of any spelling. *)
Record Call : Type := { contractAddress : string; entrypoint : string; calldata : option (list BigNumberish) }.

(** [Strk20WireCall]. *)
Record Strk20WireCall : Type := { contract_address : string; entry_point : string; wire_calldata : option (list BigNumberish) }.

Definition toStrk20Call (call : Call) : Strk20WireCall :=
  {| contract_address := contractAddress call; entry_point := entrypoint call; wire_calldata := Some (default [] (calldata call)) |}.

Definition toStarknetCall (call : Strk20WireCall) : Call :=
  {| contractAddress := contract_address call; entrypoint := entry_point call; calldata := wire_calldata call |}.

(** The felts of a call as the signers read it: target, selector and calldata; [None] when some [toBigInt] throws. *)
Definition call_felts `{StarknetNum} (call : Call) : option (Z * Z * list Z) :=
  to ← toBigInt (BN_string (contractAddress call));
  selector ← toBigInt (BN_string (getSelectorFromName (entrypoint call)));
  data ← mapM toBigInt (default [] (calldata call));
  Some (to, selector, data).

(** A call keeps its meaning on the wire: the round trip only makes its calldata explicit. *)
Lemma strk20_call_roundtrip call : toStarknetCall (toStrk20Call call)
  = {| contractAddress := contractAddress call; entrypoint := entrypoint call; calldata := Some (default [] (calldata call)) |}.
Proof. done. Qed.

Lemma mapM_toHex `{StarknetNumLaws} l : Forall (fun z => 0 <= z) l ->
  mapM (fun z => BigInt_of_string (sn_toHex z)) l = Some l.
Proof. induction 1 as [|z l Hz _ IH]; [done|]. cbn. by rewrite (sn_toHex_spells z Hz), IH. Qed.

(** Instances for examples: selectors are the lengths of the names. *)
Definition toy_num : StarknetNum := {| sn_toHex := toHex; getSelectorFromName := fun name => toHex (Z.of_nat (String.length name)) |}.
Lemma toy_num_laws : @StarknetNumLaws toy_num.
Proof. exact BigInt_toHex. Qed.
