(* ===== verification/Eip712.v ===== *)
(** * EIP-712 signing ([client/src/signers/eip712-call-set-signer.ts])

    The hashes and the typed data of the [CallSet] and [OutsideExecution] messages, the six-felt
    signature, and the two signers. Keccak and the hexadecimal decoder of the noble libraries are the
    class [Noble]; what a wallet computes in [eth_signTypedData_v4] is the encoder of the EIP-712
    standard, written out as the reference the code is compared with. Texts are ASCII. *)
From Stdlib Require Import Ascii ZArith Lia.
From stdpp Require Import base tactics list strings.
From S2P Require Import Prelude JsMap Convert Bytes StarknetCalls.

Local Open Scope string_scope.
Local Open Scope Z_scope.

(** [@noble]: [keccak_256], and [hexToBytes] ([None]: it throws). *)
Class Noble := { keccak_256 : list Z -> list Z; hexToBytes : string -> option (list Z) }.
Class NobleLaws `{Noble} : Prop := keccak_bytes : forall b, length (keccak_256 b) = 32%nat /\ Forall is_byte (keccak_256 b).

Definition MASK_128 : Z := Z.shiftl 1 128 - 1.
Definition DOMAIN_VERSION : string := "2".

(** ** Hashes *)

Section Hashes.
Context `{Noble} `{StarknetNum}.

Definition keccak (b : list Z) : Z := bytesToBigInt (keccak_256 b).
(** [concatBytes(...vals.map(to32))]. *)
Definition words (vals : list Z) : list Z := flat_map to32 vals.
Definition keccakFelts (vals : list Z) : Z := keccak (words vals).
Definition keccakType (encodeType : string) : Z := keccak (text_bytes encodeType).

Definition EIP712_DOMAIN_TYPE_HASH : Z :=
  keccakType "EIP712Domain(string name,string version,uint256 chainId,address verifyingContract)".
Definition CALL_TYPE_HASH : Z := keccakType "Call(uint256 address,uint256 selector,uint256[] data)".
Definition CALL_SET_TYPE_HASH : Z :=
  keccakType "CallSet(Call[] calls,uint256[] additional_data)Call(uint256 address,uint256 selector,uint256[] data)".
Definition OUTSIDE_EXECUTION_TYPE_HASH : Z :=
  keccakType "OutsideExecution(Call[] calls,uint256 caller,uint256 nonce,uint256 execute_after,uint256 execute_before)Call(uint256 address,uint256 selector,uint256[] data)".

Definition wrapEip712 (domainSep structHash : Z) : Z := keccak ([25; 1] ++ to32 domainSep ++ to32 structHash)%list.

Definition hashArray {A} (items : list A) (hashItem : A -> Z) : Z := keccak (words (map hashItem items)).
Definition hashCallStruct (c : Z * Z * list Z) : Z :=
  let '(address, selector, data) := c in keccakFelts [CALL_TYPE_HASH; address; selector; keccak (words data)].
Definition hashFeltArray (felts : list Z) : Z := keccak (words felts).

(** [hashCallArray], on the felts of the calls. *)
Definition hashCallArray (calls : list Call) : option Z :=
  felts ← mapM call_felts calls; Some (hashArray felts hashCallStruct).

Definition hashCallSet (calls : list Call) (additionalData : list Z) : option Z :=
  callArray ← hashCallArray calls; Some (keccakFelts [CALL_SET_TYPE_HASH; callArray; hashFeltArray additionalData]).

Definition eip712DomainSeparator (name version : string) (chainId verifyingContract : Z) : Z :=
  keccakFelts [EIP712_DOMAIN_TYPE_HASH; keccak (text_bytes name); keccak (text_bytes version); chainId; verifyingContract].

(** The verifying contract of the domain is the low half of the account address. *)
Definition computeCallSet712Hash (accountAddress : BigNumberish) (calls : list Call) (snChainName : string)
  (evmChainId : BigNumberish) (additionalData : list BigNumberish) : option Z :=
  chainId ← toBigInt evmChainId;
  account ← toBigInt accountAddress;
  data ← mapM toBigInt additionalData;
  structHash ← hashCallSet calls data;
  Some (wrapEip712 (eip712DomainSeparator snChainName DOMAIN_VERSION chainId (Z.land account MASK_128)) structHash).

(** *** Outside executions: the selectors are already hashed *)

Record OutsideExecutionCall : Type := { oe_address : BigNumberish; oe_selector : BigNumberish; oe_data : list BigNumberish }.

Definition outside_felts (call : OutsideExecutionCall) : option (Z * Z * list Z) :=
  address ← toBigInt (oe_address call); selector ← toBigInt (oe_selector call); data ← mapM toBigInt (oe_data call);
  Some (address, selector, data).

Record OutsideExecution712Input : Type := {
  oi_name : string; oi_version : string; oi_chainId : BigNumberish; oi_verifyingContract : BigNumberish;
  oi_calls : list OutsideExecutionCall; oi_caller : BigNumberish; oi_nonce : BigNumberish;
  oi_executeAfter : BigNumberish; oi_executeBefore : BigNumberish }.

Definition computeOutsideExecution712Hash (input : OutsideExecution712Input) : option Z :=
  felts ← mapM outside_felts (oi_calls input);
  caller ← toBigInt (oi_caller input);
  nonce ← toBigInt (oi_nonce input);
  after ← toBigInt (oi_executeAfter input);
  before ← toBigInt (oi_executeBefore input);
  chainId ← toBigInt (oi_chainId input);
  contract ← toBigInt (oi_verifyingContract input);
  Some (wrapEip712 (eip712DomainSeparator (oi_name input) (oi_version input) chainId contract)
          (keccakFelts [OUTSIDE_EXECUTION_TYPE_HASH; hashArray felts hashCallStruct; caller; nonce; after; before])).
End Hashes.

(** ** Typed data *)

Record TypedField : Type := { tf_name : string; tf_type : string }.
Definition typed_field (name type : string) : TypedField := {| tf_name := name; tf_type := type |}.

(** A value of a message: a text or a spelled number, a number, an array, or an object. *)
#[warnings="-register-all"]
Inductive td_value : Type :=
| TText (s : string)
| TNumber (n : Z)
| TArray (l : list td_value)
| TObject (fields : list (string * td_value)).

Record TypedData : Type := {
  td_types : list (string * list TypedField);
  td_primaryType : string;
  td_domain : td_value;
  td_message : td_value }.

Definition CALL_SET_EIP712_TYPES : list (string * list TypedField) := [
  ("EIP712Domain", [typed_field "name" "string"; typed_field "version" "string"; typed_field "chainId" "uint256";
                    typed_field "verifyingContract" "address"]);
  ("CallSet", [typed_field "calls" "Call[]"; typed_field "additional_data" "uint256[]"]);
  ("Call", [typed_field "address" "uint256"; typed_field "selector" "uint256"; typed_field "data" "uint256[]"])].

Definition OUTSIDE_EXECUTION_EIP712_TYPES : list (string * list TypedField) := [
  ("EIP712Domain", [typed_field "name" "string"; typed_field "version" "string"; typed_field "chainId" "uint256";
                    typed_field "verifyingContract" "address"]);
  ("OutsideExecution", [typed_field "calls" "Call[]"; typed_field "caller" "uint256"; typed_field "nonce" "uint256";
                        typed_field "execute_after" "uint256"; typed_field "execute_before" "uint256"]);
  ("Call", [typed_field "address" "uint256"; typed_field "selector" "uint256"; typed_field "data" "uint256[]"])].

Section Builders.
Context `{StarknetNum}.

(** [num.toHex(toFelt(v))]. *)
Definition hex_felt (z : Z) : td_value := TText (sn_toHex z).

Definition typed_call (c : Z * Z * list Z) : td_value :=
  let '(address, selector, data) := c in
  TObject [("address", hex_felt address); ("selector", hex_felt selector); ("data", TArray (map hex_felt data))].

Definition typed_domain (name version : string) (chainId contract : Z) : td_value :=
  TObject [("name", TText name); ("version", TText version); ("chainId", hex_felt chainId); ("verifyingContract", hex_felt contract)].

Definition callSetTypedData (accountAddress : BigNumberish) (calls : list Call) (snChainName : string)
  (evmChainId : BigNumberish) (additionalData : list BigNumberish) : option TypedData :=
  chainId ← toBigInt evmChainId;
  account ← toBigInt accountAddress;
  felts ← mapM call_felts calls;
  data ← mapM toBigInt additionalData;
  Some {| td_types := CALL_SET_EIP712_TYPES; td_primaryType := "CallSet";
          td_domain := typed_domain snChainName "2" chainId (Z.land account MASK_128);
          td_message := TObject [("calls", TArray (map typed_call felts)); ("additional_data", TArray (map hex_felt data))] |}.

Record OutsideExecutionInput : Type := {
  oti_accountAddress : BigNumberish; oti_snChainName : string; oti_evmChainId : BigNumberish;
  oti_calls : list OutsideExecutionCall; oti_caller : BigNumberish; oti_nonce : BigNumberish;
  oti_executeAfter : BigNumberish; oti_executeBefore : BigNumberish }.

Definition outsideExecutionTypedData (input : OutsideExecutionInput) : option TypedData :=
  chainId ← toBigInt (oti_evmChainId input);
  account ← toBigInt (oti_accountAddress input);
  felts ← mapM outside_felts (oti_calls input);
  caller ← toBigInt (oti_caller input);
  nonce ← toBigInt (oti_nonce input);
  after ← toBigInt (oti_executeAfter input);
  before ← toBigInt (oti_executeBefore input);
  Some {| td_types := OUTSIDE_EXECUTION_EIP712_TYPES; td_primaryType := "OutsideExecution";
          td_domain := typed_domain (oti_snChainName input) DOMAIN_VERSION chainId (Z.land account MASK_128);
          td_message := TObject [("calls", TArray (map typed_call felts)); ("caller", hex_felt caller); ("nonce", hex_felt nonce);
                                 ("execute_after", hex_felt after); ("execute_before", hex_felt before)] |}.
End Builders.

(** *** Reading a typed message ([outsideExecutionHash]) *)

(** Reading a property; a missing one makes the conversions that follow throw. *)
Definition td_get (name : string) (value : td_value) : option td_value :=
  match value with TObject fields => map_get name fields | _ => None end.
Definition td_text (value : option td_value) : option string := match value with Some (TText s) => Some s | _ => None end.
Definition td_items (value : option td_value) : option (list td_value) := match value with Some (TArray l) => Some l | _ => None end.
Definition td_number (value : td_value) : option BigNumberish :=
  match value with TText s => Some (BN_string s) | TNumber n => Some (BN_number n) | _ => None end.

Definition outside_call (value : td_value) : option OutsideExecutionCall :=
  address ← td_get "address" value ≫= td_number;
  selector ← td_get "selector" value ≫= td_number;
  data ← td_items (td_get "data" value) ≫= mapM td_number;
  Some {| oe_address := address; oe_selector := selector; oe_data := data |}.

Definition outside_input (typedData : TypedData) : option OutsideExecution712Input :=
  let domain := td_domain typedData in
  let message := td_message typedData in
  name ← td_text (td_get "name" domain);
  version ← td_text (td_get "version" domain);
  chainId ← td_get "chainId" domain ≫= td_number;
  contract ← td_get "verifyingContract" domain ≫= td_number;
  calls ← td_items (td_get "calls" message) ≫= mapM outside_call;
  caller ← td_get "caller" message ≫= td_number;
  nonce ← td_get "nonce" message ≫= td_number;
  after ← td_get "execute_after" message ≫= td_number;
  before ← td_get "execute_before" message ≫= td_number;
  Some {| oi_name := name; oi_version := version; oi_chainId := chainId; oi_verifyingContract := contract;
          oi_calls := calls; oi_caller := caller; oi_nonce := nonce;
          oi_executeAfter := after; oi_executeBefore := before |}.

Definition outsideExecutionHash `{Noble} (typedData : TypedData) : option Z :=
  input ← outside_input typedData; computeOutsideExecution712Hash input.

(** ** Signatures *)

Record EthSignatureParts : Type := { eth_r : Z; eth_s : Z; eth_v : Z }.

(** The errors of the signers: a value that is no number, a signature that cannot be read, an unexpected
    recovery byte, and a message or an operation that is not supported. *)
Inductive signer_error : Type :=
| NotANumber
| NotHex
| UnexpectedRecovery (v : option Z)
| OnlyOutsideExecution (primaryType : string)
| NotSupported (operation : string).

Definition or_throw {A} (e : signer_error) (o : option A) : result signer_error A :=
  match o with Some a => Ok a | None => Err e end.

Definition six_felts (sig : EthSignatureParts) (evmChainId : Z) : list Z :=
  [Z.shiftr (eth_r sig) 128; Z.land (eth_r sig) MASK_128; Z.shiftr (eth_s sig) 128; Z.land (eth_s sig) MASK_128;
   eth_v sig; evmChainId].
Definition toSixFelt `{StarknetNum} (sig : EthSignatureParts) (evmChainId : Z) : list string :=
  map sn_toHex (six_felts sig evmChainId).

(** [bytes.slice(start, end)]. *)
Definition slice_bytes (start end_ : nat) (bytes : list Z) : list Z := take (end_ - start) (drop start bytes).

Definition parseEthSignature `{Noble} (hexSignature : string) : result signer_error EthSignatureParts :=
  bytes ← or_throw NotHex (hexToBytes (match hexSignature with String "0" (String "x" hex) => hex | _ => hexSignature end));
  match bytes !! 64%nat with
  | Some v =>
      if ((v =? 0) || (v =? 1) || (v =? 27) || (v =? 28))%bool
      then Ok {| eth_r := bytesToBigInt (slice_bytes 0 32 bytes); eth_s := bytesToBigInt (slice_bytes 32 64 bytes);
                 eth_v := if v <? 27 then v + 27 else v |}
      else Err (UnexpectedRecovery (Some v))
  | None => Err (UnexpectedRecovery None)
  end.

(** ** The signers *)

(** [Eip712SignerOptions]. *)
Record Eip712SignerOptions : Type := {
  so_accountAddress : BigNumberish; so_snChainName : string; so_evmChainId : BigNumberish;
  so_additionalData : option (list BigNumberish) }.

(** Where a signature comes from: a raw key that signs the hash, or a wallet that signs typed data. The
    two subclasses of [Eip712CallSetSignerBase]. *)
Inductive Eip712Source : Type :=
| HashSigner (sign : Z -> EthSignatureParts)
| TypedDataSigner (signTypedData : TypedData -> string).

Section Signers.
Context `{Noble} `{StarknetNum} (options : Eip712SignerOptions) (source : Eip712Source).

Definition signParts (calls : list Call) : result signer_error EthSignatureParts :=
  let additionalData := default [] (so_additionalData options) in
  match source with
  | HashSigner sign =>
      h ← or_throw NotANumber (computeCallSet712Hash (so_accountAddress options) calls (so_snChainName options) (so_evmChainId options) additionalData);
      Ok (sign h)
  | TypedDataSigner signTypedData =>
      td ← or_throw NotANumber (callSetTypedData (so_accountAddress options) calls (so_snChainName options) (so_evmChainId options) additionalData);
      parseEthSignature (signTypedData td)
  end.

Definition signTransaction (calls : list Call) : result signer_error (list string) :=
  parts ← signParts calls;
  evmChainId ← or_throw NotANumber (toBigInt (so_evmChainId options));
  Ok (toSixFelt parts evmChainId).

Definition signOutsideExecution (typedData : TypedData) : result signer_error EthSignatureParts :=
  match source with
  | HashSigner sign => h ← or_throw NotANumber (outsideExecutionHash typedData); Ok (sign h)
  | TypedDataSigner signTypedData => parseEthSignature (signTypedData typedData)
  end.

(** [toFelt(domain.chainId)]: the chain id of the signature is the one of the signed domain. *)
Definition domain_chainId (typedData : TypedData) : option Z :=
  value ← td_get "chainId" (td_domain typedData); chainId ← td_number value; toBigInt chainId.

Definition signMessage (typedData : TypedData) : result signer_error (list string) :=
  if negb (String.eqb (td_primaryType typedData) "OutsideExecution") then Err (OnlyOutsideExecution (td_primaryType typedData))
  else
    parts ← signOutsideExecution typedData;
    chainId ← or_throw NotANumber (domain_chainId typedData);
    Ok (toSixFelt parts chainId).

Definition getPubKey : result signer_error string := Err (NotSupported "getPubKey").
Definition signDeclareTransaction : result signer_error (list string) := Err (NotSupported "signDeclareTransaction").
Definition signDeployAccountTransaction : result signer_error (list string) := Err (NotSupported "signDeployAccountTransaction").
End Signers.
