(* ===== verification/Eip712Spec.v ===== *)
(** * The EIP-712 digest of the typed data is the hash the code computes

    The reference is the encoder of the EIP-712 standard, generic in the types of the typed data:
    what [eth_signTypedData_v4] makes a wallet sign. The hand-written hashes of the signers are
    equal to it on the typed data that the code builds, so both signers sign the same message. *)
From Stdlib Require Import Ascii ZArith Lia.
From stdpp Require Import base tactics list strings.
From S2P Require Import Prelude JsMap Convert Bytes StarknetCalls Eip712.

Local Open Scope string_scope.
Local Open Scope Z_scope.

(** ** The standard *)

(** The element type of an array type. *)
Fixpoint array_of (type : string) : option string :=
  match type with
  | EmptyString => None
  | String "[" (String "]" EmptyString) => Some EmptyString
  | String c rest => String c <$> array_of rest
  end.
Definition base_type (type : string) : string := default type (array_of type).

Definition lookup_type (types : list (string * list TypedField)) (name : string) : option (list TypedField) := map_get name types.

(** [name(type1 field1,...)] *)
Definition encode_one (name : string) (fields : list TypedField) : string :=
  name +:+ "(" +:+ String.concat "," (map (fun f => tf_type f +:+ " " +:+ tf_name f) fields) +:+ ")".

(** The structs that a struct refers to, itself included, by a search of bounded depth. *)
Fixpoint referenced (depth : nat) (types : list (string * list TypedField)) (name : string) (seen : list string) : list string :=
  match depth with
  | O => seen
  | S depth =>
      match lookup_type types name with
      | Some fields =>
          if existsb (String.eqb name) seen then seen
          else fold_left (fun seen f => referenced depth types (base_type (tf_type f)) seen) fields (seen ++ [name])%list
      | None => seen
      end
  end.

Fixpoint insert_sorted (s : string) (l : list string) : list string :=
  match l with [] => [s] | t :: l' => if String.leb s t then s :: l else t :: insert_sorted s l' end.

(** [encodeType]: the struct, then those it refers to, in the order of their names. *)
Definition encodeType (types : list (string * list TypedField)) (name : string) : string :=
  let others := List.filter (fun t => negb (String.eqb t name)) (referenced (S (length types)) types name []) in
  String.concat "" (map (fun t => encode_one t (default [] (lookup_type types t))) (name :: foldr insert_sorted [] others)).

Section Encoder.
Context `{Noble} (types : list (string * list TypedField)).

Definition all_some {A} (l : list (option A)) : option (list A) := mapM id l.

(** An unsigned number below a bound, as a word. *)
Definition encode_number (bound : Z) (n : option Z) : option (list Z) :=
  z ← n; if (0 <=? z) && (z <? bound) then Some (to32 z) else None.

Definition number_of (value : td_value) : option Z := n ← td_number value; toBigInt n.

(** [hashStruct] of a struct whose fields are encoded by the given functions of their type. *)
Definition hash_struct (name : string) (fields : list (string * (string -> option (list Z)))) : option (list Z) :=
  declared ← lookup_type types name;
  encoded ← all_some (map (fun f => encode ← map_get (tf_name f) fields; encode (tf_type f)) declared);
  Some (keccak_256 (keccak_256 (text_bytes (encodeType types name)) ++ List.concat encoded)%list).

(** [encodeData] of one value, at a type. *)
Fixpoint encode_value (value : td_value) (type : string) {struct value} : option (list Z) :=
  match value with
  | TText s =>
      if String.eqb type "string" then Some (keccak_256 (text_bytes s))
      else if String.eqb type "uint256" then encode_number (2 ^ 256) (number_of value)
      else if String.eqb type "address" then encode_number (2 ^ 160) (number_of value)
      else None
  | TNumber _ =>
      if String.eqb type "uint256" then encode_number (2 ^ 256) (number_of value) else None
  | TArray l =>
      item ← array_of type;
      items ← all_some (map (fun v => encode_value v item) l);
      Some (keccak_256 (List.concat items))
  | TObject fields => hash_struct type (map (fun f => (f.1, encode_value f.2)) fields)
  end.
End Encoder.

(** The digest of typed data. *)
Definition eip712_digest `{Noble} (td : TypedData) : option (list Z) :=
  domain ← encode_value (td_types td) (td_domain td) "EIP712Domain";
  message ← encode_value (td_types td) (td_message td) (td_primaryType td);
  Some (keccak_256 ([25; 1] ++ domain ++ message)%list).

(** The types of the file are encoded to the constants of the file. *)
Example call_set_type : encodeType CALL_SET_EIP712_TYPES "CallSet"
  = "CallSet(Call[] calls,uint256[] additional_data)Call(uint256 address,uint256 selector,uint256[] data)".
Proof. reflexivity. Qed.
Example outside_execution_type : encodeType OUTSIDE_EXECUTION_EIP712_TYPES "OutsideExecution"
  = "OutsideExecution(Call[] calls,uint256 caller,uint256 nonce,uint256 execute_after,uint256 execute_before)Call(uint256 address,uint256 selector,uint256[] data)".
Proof. reflexivity. Qed.

(** ** The parts of a message *)

(** The types of the file declare calls and the domain alike. *)
Definition declares_calls (types : list (string * list TypedField)) : Prop :=
  lookup_type types "Call" = Some [typed_field "address" "uint256"; typed_field "selector" "uint256"; typed_field "data" "uint256[]"] /\
  encodeType types "Call" = "Call(uint256 address,uint256 selector,uint256[] data)" /\
  lookup_type types "EIP712Domain" = Some [typed_field "name" "string"; typed_field "version" "string";
    typed_field "chainId" "uint256"; typed_field "verifyingContract" "address"] /\
  encodeType types "EIP712Domain" = "EIP712Domain(string name,string version,uint256 chainId,address verifyingContract)".

Definition is_word (z : Z) : Prop := 0 <= z < 2 ^ 256.
Definition call_words (c : Z * Z * list Z) : Prop := is_word c.1.1 /\ is_word c.1.2 /\ Forall is_word c.2.

Section Parts.
Context `{NobleLaws} `{StarknetNumLaws} (types : list (string * list TypedField)).

Lemma to32_keccak b : to32 (keccak b) = keccak_256 b.
Proof. destruct (keccak_bytes b) as [Hl Hb]. unfold to32, keccak. rewrite <- Hl at 1. by apply be_bytes_of_bytes. Qed.

Lemma encode_hex z type bound : 0 <= z < bound ->
  (type = "uint256" /\ bound = 2 ^ 256) \/ (type = "address" /\ bound = 2 ^ 160) ->
  encode_value types (hex_felt z) type = Some (to32 z).
Proof.
  intros Hz Ht. assert (Hn : number_of (TText (sn_toHex z)) = Some z) by (apply sn_toHex_spells; lia).
  destruct Ht as [[-> ->]|[-> ->]]; cbn [encode_value hex_felt String.eqb]; cbn [Ascii.eqb Bool.eqb]; unfold encode_number; rewrite Hn;
    cbn [mbind option_bind]; by rewrite (proj2 (Z.leb_le _ _)), (proj2 (Z.ltb_lt _ _)) by lia.
Qed.

Lemma encode_word z : is_word z -> encode_value types (hex_felt z) "uint256" = Some (to32 z).
Proof. intros Hz. apply (encode_hex z "uint256" (2 ^ 256)); [done|by left]. Qed.

Lemma all_some_map {A B C} (f : A -> C) (g : C -> option B) (h : A -> B) l :
  (forall x, x ∈ l -> g (f x) = Some (h x)) -> all_some (map g (map f l)) = Some (map h l).
Proof.
  intros Hl. induction l as [|x l IH]; [done|]. unfold all_some in *. cbn. rewrite Hl by (by left). cbn.
  rewrite IH; [done|]. intros y Hy. apply Hl. by right.
Qed.

Lemma concat_words l : List.concat (map to32 l) = words l.
Proof. unfold words. by rewrite flat_map_concat_map. Qed.

Lemma encode_words l : Forall is_word l ->
  encode_value types (TArray (map hex_felt l)) "uint256[]" = Some (to32 (hashFeltArray l)).
Proof.
  intros Hl. cbn [encode_value]. change (array_of "uint256[]") with (Some "uint256"). cbn [mbind option_bind].
  rewrite (all_some_map hex_felt _ to32).
  { cbn [mbind option_bind]. unfold hashFeltArray. by rewrite to32_keccak, <- concat_words. }
  intros z Hz. apply encode_word. rewrite list.Forall_forall in Hl. by apply Hl.
Qed.

(** A struct, from the encodings of its declared fields. *)
Lemma encode_struct name declared fields encoded type_text :
  lookup_type types name = Some declared -> encodeType types name = type_text ->
  all_some (map (fun f => encode ← map_get (tf_name f) (map (fun f => (f.1, encode_value types f.2)) fields); encode (tf_type f)) declared)
    = Some encoded ->
  encode_value types (TObject fields) name = Some (keccak_256 (to32 (keccakType type_text) ++ List.concat encoded)%list).
Proof.
  intros Hd Ht He. cbn [encode_value]. unfold hash_struct. rewrite Hd. cbn [mbind option_bind]. rewrite He, Ht. cbn [mbind option_bind].
  unfold keccakType. by rewrite to32_keccak.
Qed.

Lemma encode_call c : declares_calls types -> call_words c -> encode_value types (typed_call c) "Call" = Some (to32 (hashCallStruct c)).
Proof.
  intros (Hd & Ht & _) (Ha & Hs & Hdata). destruct c as [[address selector] data]. cbn [fst snd] in *. cbn [typed_call].
  rewrite (encode_struct "Call" _ _ [to32 address; to32 selector; to32 (hashFeltArray data)] _ Hd Ht).
  - cbn [hashCallStruct]. unfold keccakFelts. rewrite to32_keccak. cbn [List.concat words flat_map]. by rewrite !app_nil_r.
  - change (all_some [encode_value types (hex_felt address) "uint256"; encode_value types (hex_felt selector) "uint256";
      encode_value types (TArray (map hex_felt data)) "uint256[]"] = Some [to32 address; to32 selector; to32 (hashFeltArray data)]).
    by rewrite (encode_word address Ha), (encode_word selector Hs), (encode_words data Hdata).
Qed.

Lemma encode_calls felts : declares_calls types -> Forall call_words felts ->
  encode_value types (TArray (map typed_call felts)) "Call[]" = Some (to32 (hashArray felts hashCallStruct)).
Proof.
  intros Hd Hf. cbn [encode_value]. change (array_of "Call[]") with (Some "Call"). cbn [mbind option_bind].
  rewrite (all_some_map typed_call _ (fun c => to32 (hashCallStruct c))).
  - cbn [mbind option_bind]. unfold hashArray. rewrite to32_keccak, <- concat_words, map_map. done.
  - intros c Hc. apply encode_call; [done|]. rewrite list.Forall_forall in Hf. by apply Hf.
Qed.

Lemma encode_domain name version chainId contract : declares_calls types -> is_word chainId -> 0 <= contract < 2 ^ 160 ->
  encode_value types (typed_domain name version chainId contract) "EIP712Domain"
    = Some (to32 (eip712DomainSeparator name version chainId contract)).
Proof.
  intros (_ & _ & Hd & Ht) Hc Ha. unfold typed_domain.
  rewrite (encode_struct "EIP712Domain" _ _ [to32 (keccak (text_bytes name)); to32 (keccak (text_bytes version)); to32 chainId; to32 contract] _ Hd Ht).
  - unfold eip712DomainSeparator, keccakFelts. rewrite (to32_keccak (words _)). cbn [List.concat words flat_map]. by rewrite !app_nil_r.
  - change (all_some [Some (keccak_256 (text_bytes name)); Some (keccak_256 (text_bytes version));
      encode_value types (hex_felt chainId) "uint256"; encode_value types (hex_felt contract) "address"]
      = Some [to32 (keccak (text_bytes name)); to32 (keccak (text_bytes version)); to32 chainId; to32 contract]).
    rewrite (encode_word chainId Hc), (encode_hex contract "address" (2 ^ 160) Ha) by (by right). by rewrite !to32_keccak.
Qed.
End Parts.

Lemma call_set_declares : declares_calls CALL_SET_EIP712_TYPES.
Proof. repeat split; reflexivity. Qed.
Lemma outside_declares : declares_calls OUTSIDE_EXECUTION_EIP712_TYPES.
Proof. repeat split; reflexivity. Qed.

Lemma low_half z : 0 <= Z.land z MASK_128 < 2 ^ 160.
Proof.
  change MASK_128 with (Z.ones 128). rewrite Z.land_ones by lia. pose proof (Z.mod_pos_bound z (2 ^ 128) ltac:(lia)).
  change (2 ^ 160) with (2 ^ 128 * 2 ^ 32). lia.
Qed.

(** ** The messages *)

(** The values of a signing request are numbers that fit a word. *)
Record signable `{StarknetNum} (options : Eip712SignerOptions) (calls : list Call) (chainId account : Z) (felts : list (Z * Z * list Z))
  (data : list Z) : Prop := {
  s_chainId : toBigInt (so_evmChainId options) = Some chainId;
  s_chain_word : is_word chainId;
  s_account : toBigInt (so_accountAddress options) = Some account;
  s_calls : mapM call_felts calls = Some felts;
  s_call_words : Forall call_words felts;
  s_data : mapM toBigInt (default [] (so_additionalData options)) = Some data;
  s_data_words : Forall is_word data }.

Section Messages.
Context `{NobleLaws} `{StarknetNumLaws}.

Lemma wrapped domain message : keccak_256 ([25; 1] ++ to32 domain ++ to32 message)%list = to32 (wrapEip712 domain message).
Proof. unfold wrapEip712. by rewrite to32_keccak. Qed.

Lemma wrap_value domain message : bytesToBigInt (to32 (wrapEip712 domain message)) = wrapEip712 domain message.
Proof. unfold wrapEip712. by rewrite to32_keccak. Qed.

(** The typed data of a call set, its digest and its hash. *)
Lemma call_set_digest options calls chainId account felts data : signable options calls chainId account felts data ->
  exists td h,
    callSetTypedData (so_accountAddress options) calls (so_snChainName options) (so_evmChainId options) (default [] (so_additionalData options)) = Some td /\
    computeCallSet712Hash (so_accountAddress options) calls (so_snChainName options) (so_evmChainId options) (default [] (so_additionalData options)) = Some h /\
    eip712_digest td = Some (to32 h) /\ bytesToBigInt (to32 h) = h.
Proof.
  intros [Hc Hcw Ha Hf Hfw Hd Hdw]. unfold callSetTypedData, computeCallSet712Hash, hashCallSet, hashCallArray.
  rewrite Hc, Ha, Hf, Hd. cbn [mbind option_bind].
  eexists _, _. split_and!; [reflexivity|reflexivity| |apply wrap_value].
  unfold eip712_digest. cbn [td_types td_domain td_message td_primaryType].
  rewrite encode_domain by (apply call_set_declares || done || apply low_half). cbn [mbind option_bind].
  rewrite (encode_struct CALL_SET_EIP712_TYPES "CallSet" _ _ [to32 (hashArray felts hashCallStruct); to32 (hashFeltArray data)] _ eq_refl call_set_type).
  - cbn [mbind option_bind]. rewrite <- wrapped. do 3 f_equal. unfold keccakFelts. rewrite to32_keccak.
    cbn [List.concat words flat_map]. by rewrite !app_nil_r.
  - change (all_some [encode_value CALL_SET_EIP712_TYPES (TArray (map typed_call felts)) "Call[]";
      encode_value CALL_SET_EIP712_TYPES (TArray (map hex_felt data)) "uint256[]"]
      = Some [to32 (hashArray felts hashCallStruct); to32 (hashFeltArray data)]).
    by rewrite (encode_calls _ felts call_set_declares Hfw), (encode_words _ data Hdw).
Qed.

(** A wallet answers a request for typed data with the 65 bytes of the signature that [sign] makes of the
    digest of the standard, with the recovery byte in either convention. *)
Definition standard_wallet (sign : Z -> EthSignatureParts) (wallet : TypedData -> string) : Prop :=
  forall td digest, eip712_digest td = Some digest -> exists hex v, wallet td = "0x" +:+ hex /\
    let parts := sign (bytesToBigInt digest) in
    (v = eth_v parts \/ v = eth_v parts - 27) /\
    hexToBytes hex = Some (to32 (eth_r parts) ++ to32 (eth_s parts) ++ [v])%list.

(** Signatures over secp256k1: two words and a recovery byte. *)
Definition secp256k1_signer (sign : Z -> EthSignatureParts) : Prop :=
  forall h, is_word (eth_r (sign h)) /\ is_word (eth_s (sign h)) /\ (eth_v (sign h) = 27 \/ eth_v (sign h) = 28).

Lemma parse_signature hex parts v : is_word (eth_r parts) -> is_word (eth_s parts) -> (eth_v parts = 27 \/ eth_v parts = 28) ->
  (v = eth_v parts \/ v = eth_v parts - 27) -> hexToBytes hex = Some (to32 (eth_r parts) ++ to32 (eth_s parts) ++ [v])%list ->
  parseEthSignature ("0x" +:+ hex) = Ok parts.
Proof.
  intros Hr Hs Hv Hv' Hhex. unfold parseEthSignature.
  change (match "0x" +:+ hex with String "0" (String "x" h) => h | _ => "0x" +:+ hex end) with hex. rewrite Hhex.
  pose proof (length_be_bytes 32 (eth_r parts)) as Hlr. pose proof (length_be_bytes 32 (eth_s parts)) as Hls.
  cbn [or_throw mbind result_bind]. fold (to32 (eth_r parts)) in Hlr. fold (to32 (eth_s parts)) in Hls.
  rewrite !lookup_app_r, Hlr, Hls by lia. cbn [Nat.sub lookup list_lookup].
  unfold slice_bytes. rewrite drop_0, take_app_length' by (by rewrite Hlr). rewrite drop_app_length' by (by rewrite Hlr).
  rewrite take_app_length' by (by rewrite Hls).
  assert (Hb : forall z, is_word z -> bytesToBigInt (to32 z) = z) by (intros z Hz; by apply be_bytes_small).
  rewrite !Hb by done. destruct parts as [r s w]. cbn in *.
  destruct Hv as [-> | ->], Hv' as [-> | ->]; reflexivity.
Qed.

Lemma high_low z : is_word z -> Z.shiftr z 128 * 2 ^ 128 + Z.land z MASK_128 = z /\
  0 <= Z.shiftr z 128 < 2 ^ 128 /\ 0 <= Z.land z MASK_128 < 2 ^ 128.
Proof.
  intros Hz. unfold is_word in Hz. change MASK_128 with (Z.ones 128). rewrite Z.land_ones, Z.shiftr_div_pow2 by lia.
  pose proof (Z.div_mod z (2 ^ 128) ltac:(lia)). pose proof (Z.mod_pos_bound z (2 ^ 128) ltac:(lia)).
  split; [lia|]. split; [|done]. split; [apply Z.div_pos; lia|]. apply Z.div_lt_upper_bound; [lia|].
  change (2 ^ 128 * 2 ^ 128) with (2 ^ 256). lia.
Qed.
End Messages.

(** C11: The server key and the browser wallet authorize the same message. For any calls whose values fit a
    word, the EIP-712 digest of the typed data handed to a wallet is the hash that the code computes
    itself, so a wallet that follows the standard and a raw key give one and the same six-felt
    signature: the halves of [r] and [s], each below [2^128], that make up the two numbers the key
    produced, the recovery byte 27 or 28 whichever convention the wallet uses, and the EVM chain id. *)
Theorem eip712_signers_agree `{NobleLaws} `{StarknetNumLaws} (options : Eip712SignerOptions) (calls : list Call)
  (chainId account : Z) (felts : list (Z * Z * list Z)) (data : list Z) (sign : Z -> EthSignatureParts) (wallet : TypedData -> string) :
  signable options calls chainId account felts data -> secp256k1_signer sign -> standard_wallet sign wallet ->
  exists td h,
    callSetTypedData (so_accountAddress options) calls (so_snChainName options) (so_evmChainId options) (default [] (so_additionalData options)) = Some td /\
    computeCallSet712Hash (so_accountAddress options) calls (so_snChainName options) (so_evmChainId options) (default [] (so_additionalData options)) = Some h /\
    bytesToBigInt <$> eip712_digest td = Some h /\
    signTransaction options (HashSigner sign) calls = Ok (toSixFelt (sign h) chainId) /\
    signTransaction options (TypedDataSigner wallet) calls = Ok (toSixFelt (sign h) chainId) /\
    match six_felts (sign h) chainId with
    | [rh; rl; sh; sl; v; chain] =>
        rh * 2 ^ 128 + rl = eth_r (sign h) /\ sh * 2 ^ 128 + sl = eth_s (sign h) /\
        Forall (fun x => 0 <= x < 2 ^ 128) [rh; rl; sh; sl] /\ (v = 27 \/ v = 28) /\ chain = chainId
    | _ => False
    end.
Proof.
  intros Hs Hkey Hw. destruct (call_set_digest options calls chainId account felts data Hs) as (td & h & Htd & Hh & Hdig & Hval).
  exists td, h. pose proof (Hkey h) as (Hr & Hss & Hv). destruct (Hw td _ Hdig) as (hex & v & Hwallet & Hv' & Hhex). rewrite Hval in Hv', Hhex.
  split_and!; [done|done|by rewrite Hdig; cbn [fmap option_fmap option_map]; rewrite Hval| | |].
  - unfold signTransaction, signParts. rewrite Hh, (s_chainId _ _ _ _ _ _ Hs). done.
  - unfold signTransaction, signParts. rewrite Htd. cbn [or_throw mbind result_bind].
    rewrite Hwallet, (parse_signature hex (sign h) v) by done. cbn [mbind result_bind]. rewrite (s_chainId _ _ _ _ _ _ Hs). done.
  - cbn [six_felts]. destruct (high_low _ Hr) as (? & ? & ?). destruct (high_low _ Hss) as (? & ? & ?).
    split; [done|]. split; [done|]. split; [by repeat (constructor; [done|])|]. done.
Qed.

(** ** Outside executions *)

Section Outside.
Context `{NobleLaws} `{StarknetNumLaws}.

Lemma read_word z : is_word z -> (v ← td_number (hex_felt z); toBigInt v) = Some z.
Proof. intros Hz. unfold is_word in Hz. cbn. apply sn_toHex_spells. lia. Qed.

Lemma mapM_map {A B C D} (f : A -> B) (g : B -> option C) (h : C -> option D) (r : A -> D) l :
  (forall x, x ∈ l -> exists c, g (f x) = Some c /\ h c = Some (r x)) ->
  exists cs, mapM g (map f l) = Some cs /\ mapM h cs = Some (map r l).
Proof.
  intros Hl. induction l as [|x l IH]; [by exists []|]. destruct (Hl x ltac:(by left)) as (c & Hg & Hh).
  destruct IH as (cs & Hm & Hr); [intros y Hy; apply Hl; by right|]. exists (c :: cs). cbn. by rewrite Hg, Hm, Hh, Hr.
Qed.

Lemma read_words l : Forall is_word l -> exists ns, mapM td_number (map hex_felt l) = Some ns /\ mapM toBigInt ns = Some l.
Proof.
  intros Hl. destruct (mapM_map hex_felt td_number toBigInt id l) as (ns & H1' & H2').
  - intros z Hz. rewrite list.Forall_forall in Hl. specialize (Hl z Hz). unfold is_word in Hl.
    exists (BN_string (sn_toHex z)). split; [done|]. exact (sn_toHex_spells z ltac:(lia)).
  - exists ns. by rewrite H2', list_fmap_id.
Qed.

Lemma read_call c : call_words c -> exists oc, outside_call (typed_call c) = Some oc /\ outside_felts oc = Some c.
Proof.
  destruct c as [[address selector] data]. intros (Ha & Hs & Hd). cbn [fst snd] in *.
  destruct (read_words data Hd) as (ns & Hr & Hn). unfold is_word in *.
  eexists. split.
  - change (outside_call (typed_call (address, selector, data))) with
      (ns ← mapM td_number (map hex_felt data);
       Some {| oe_address := BN_string (sn_toHex address); oe_selector := BN_string (sn_toHex selector); oe_data := ns |}).
    rewrite Hr. reflexivity.
  - unfold outside_felts. cbn [oe_address oe_selector oe_data toBigInt].
    rewrite (sn_toHex_spells address), (sn_toHex_spells selector), Hn by lia. done.
Qed.

(** The outside execution the paymaster hands over is signed as the standard says: the hash read back from the
    typed data is its digest. *)
Theorem outside_execution_digest (input : OutsideExecutionInput) (chainId account caller nonce after before : Z) (felts : list (Z * Z * list Z)) :
  toBigInt (oti_evmChainId input) = Some chainId -> toBigInt (oti_accountAddress input) = Some account ->
  mapM outside_felts (oti_calls input) = Some felts -> toBigInt (oti_caller input) = Some caller ->
  toBigInt (oti_nonce input) = Some nonce -> toBigInt (oti_executeAfter input) = Some after ->
  toBigInt (oti_executeBefore input) = Some before ->
  Forall is_word [chainId; caller; nonce; after; before] -> Forall call_words felts ->
  exists td h, outsideExecutionTypedData input = Some td /\ outsideExecutionHash td = Some h /\
    bytesToBigInt <$> eip712_digest td = Some h /\ domain_chainId td = Some chainId.
Proof.
  intros Hc Ha Hf Hcaller Hn Hafter Hbefore Hw Hfw.
  apply Forall_cons in Hw as [Hw1 Hw]. apply Forall_cons in Hw as [Hw2 Hw]. apply Forall_cons in Hw as [Hw3 Hw].
  apply Forall_cons in Hw as [Hw4 Hw]. apply Forall_cons in Hw as [Hw5 _].
  unfold outsideExecutionTypedData. rewrite Hc, Ha, Hf, Hcaller, Hn, Hafter, Hbefore. cbn [mbind option_bind].
  destruct (mapM_map typed_call outside_call outside_felts id felts) as (ocs & Hread & Hback).
  { intros c Hin. rewrite list.Forall_forall in Hfw. by apply read_call, Hfw. }
  rewrite map_id in Hback.
  eexists _, _. split; [reflexivity|]. pose proof (low_half account) as Hlow. unfold is_word in *. split_and!.
  - unfold outsideExecutionHash.
    match goal with |- (input ← outside_input ?td; _) = _ =>
      change (outside_input td) with
        (calls ← mapM outside_call (map typed_call felts);
         Some {| oi_name := oti_snChainName input; oi_version := DOMAIN_VERSION; oi_chainId := BN_string (sn_toHex chainId);
                 oi_verifyingContract := BN_string (sn_toHex (Z.land account MASK_128)); oi_calls := calls;
                 oi_caller := BN_string (sn_toHex caller); oi_nonce := BN_string (sn_toHex nonce);
                 oi_executeAfter := BN_string (sn_toHex after); oi_executeBefore := BN_string (sn_toHex before) |})
    end.
    rewrite Hread. cbn [mbind option_bind]. unfold computeOutsideExecution712Hash.
    cbn [oi_calls oi_caller oi_nonce oi_executeAfter oi_executeBefore oi_chainId oi_verifyingContract oi_name oi_version toBigInt].
    rewrite Hback, (sn_toHex_spells caller), (sn_toHex_spells nonce), (sn_toHex_spells after), (sn_toHex_spells before),
      (sn_toHex_spells chainId), (sn_toHex_spells (Z.land account MASK_128)) by lia. reflexivity.
  - unfold eip712_digest. cbn [td_types td_domain td_message td_primaryType].
    rewrite encode_domain by (apply outside_declares || done). cbn [mbind option_bind].
    rewrite (encode_struct OUTSIDE_EXECUTION_EIP712_TYPES "OutsideExecution" _ _
      [to32 (hashArray felts hashCallStruct); to32 caller; to32 nonce; to32 after; to32 before] _ eq_refl outside_execution_type).
    + cbn [mbind option_bind fmap option_fmap option_map]. f_equal. unfold wrapEip712, keccak. do 4 f_equal. unfold keccakFelts. rewrite to32_keccak.
      cbn [List.concat words flat_map]. by rewrite !app_nil_r.
    + change (all_some [encode_value OUTSIDE_EXECUTION_EIP712_TYPES (TArray (map typed_call felts)) "Call[]";
        encode_value OUTSIDE_EXECUTION_EIP712_TYPES (hex_felt caller) "uint256"; encode_value OUTSIDE_EXECUTION_EIP712_TYPES (hex_felt nonce) "uint256";
        encode_value OUTSIDE_EXECUTION_EIP712_TYPES (hex_felt after) "uint256"; encode_value OUTSIDE_EXECUTION_EIP712_TYPES (hex_felt before) "uint256"]
        = Some [to32 (hashArray felts hashCallStruct); to32 caller; to32 nonce; to32 after; to32 before]).
      by rewrite (encode_calls _ felts outside_declares Hfw), !encode_word by done.
  - unfold domain_chainId. cbn. apply sn_toHex_spells. lia.
Qed.
End Outside.

(** ** An instance *)

(** Two digits a byte. *)
Fixpoint bytes_hex (l : list Z) : string :=
  match l with [] => "" | b :: l => String (digit_char (b / 16)) (String (digit_char (b mod 16)) (bytes_hex l)) end.
Fixpoint hex_bytes (s : string) : option (list Z) :=
  match s with
  | EmptyString => Some []
  | String c (String d s) => x ← char_digit c; y ← char_digit d; l ← hex_bytes s; Some (x * 16 + y :: l)
  | _ => None
  end.

Lemma hex_bytes_hex l : Forall is_byte l -> hex_bytes (bytes_hex l) = Some l.
Proof.
  induction 1 as [|b l Hb _ IH]; [done|]. unfold is_byte in Hb. cbn [bytes_hex hex_bytes].
  pose proof (Z.mod_pos_bound b 16 ltac:(lia)). assert (0 <= b / 16 < 16) by (split; [apply Z.div_pos; lia|apply Z.div_lt_upper_bound; lia]).
  rewrite !char_digit_char by lia. cbn [mbind option_bind]. rewrite IH. cbn. do 2 f_equal. pose proof (Z.div_mod b 16 ltac:(lia)). lia.
Qed.

(** A stand-in for Keccak: the last bytes of the input. *)
Definition toy_noble : Noble := {| keccak_256 := fun b => to32 (bytesToBigInt b); hexToBytes := hex_bytes |}.
Lemma toy_noble_laws : @NobleLaws toy_noble.
Proof. intros b. split; [apply length_be_bytes|apply be_bytes_are_bytes]. Qed.

Definition toy_sign (h : Z) : EthSignatureParts := {| eth_r := h mod 2 ^ 256; eth_s := 5; eth_v := 28 |}.
Definition toy_wallet (td : TypedData) : string :=
  match @eip712_digest toy_noble td with
  | Some d => "0x" +:+ bytes_hex (to32 (bytesToBigInt d mod 2 ^ 256) ++ to32 5 ++ [1])%list
  | None => ""
  end.

Lemma toy_wallet_standard : @standard_wallet toy_noble toy_sign toy_wallet.
Proof.
  intros td d Hd. eexists _, 1. unfold toy_wallet. rewrite Hd. split; [reflexivity|]. split; [by right|].
  apply hex_bytes_hex. rewrite !Forall_app. split_and!; try apply be_bytes_are_bytes. apply list.Forall_singleton. done.
Qed.

Definition sample_options : Eip712SignerOptions :=
  {| so_accountAddress := BN_string "0x1234"; so_snChainName := "SN_SEPOLIA"; so_evmChainId := BN_number 1; so_additionalData := None |}.
Definition sample_call : Call := {| contractAddress := "0xabc"; entrypoint := "transfer"; calldata := Some [BN_bigint 7; BN_string "0x8"] |}.

Lemma eip712_signers_agree_witness :
  @signTransaction toy_noble toy_num sample_options (HashSigner toy_sign) [sample_call]
    = @signTransaction toy_noble toy_num sample_options (TypedDataSigner toy_wallet) [sample_call].
Proof.
  destruct (@eip712_signers_agree toy_noble toy_noble_laws toy_num toy_num_laws sample_options [sample_call] 1 0x1234
    [(0xabc, 8, [7; 8])] [] toy_sign toy_wallet) as (td & h & _ & _ & _ & H1 & H2 & _).
  - split; try reflexivity; repeat constructor; done.
  - intros h. split_and!; [|done|by right]. apply Z.mod_pos_bound. done.
  - exact toy_wallet_standard.
  - transitivity (Ok (E := signer_error) (@toSixFelt toy_num (toy_sign h) 1)); [exact H1|symmetry; exact H2].
Defined.
