(* ===== verification/Snip12.v ===== *)
(** * SNIP-12 signing ([client/src/signers/snip12-call-set-signer.ts])

    The hash of a [CallSet], by Poseidon, and the signer of legacy Starknet wallets. The typed-data
    hash of starknet.js, which signs arbitrary messages, is an argument. *)
From Stdlib Require Import Ascii ZArith Lia.
From stdpp Require Import base tactics list strings.
From S2P Require Import Prelude Convert Crypto StarknetCalls.

Local Open Scope string_scope.
Local Open Scope Z_scope.

(** [BigInt(shortString.encodeShortString(text))]. *)
Definition short_string (text : string) : Z := bytes_felt text 0.

Definition STARKNET_MESSAGE : Z := short_string "StarkNet Message".
Definition STARKNET_DOMAIN_TYPE_HASH : Z := 0x1ff2f602e42168014d405a94f75e8a93d640751d71d16311266e140d8b0a210.
Definition CALL_TYPE_HASH : Z := 0x3635c7f2a7ba93844c0d064e18e487f35ab90f7c39d00f186a781fc3f0c2ca9.
Definition CALL_SET_TYPE_HASH : Z := 0x308b7462f924efba15fc992e6827eb3a748fcc79f091914156756437fa22909.
Definition CALL_SET_DOMAIN_NAME : Z := short_string "CallSet".
Definition CALL_SET_DOMAIN_VERSION : Z := 1.
Definition DOMAIN_REVISION : Z := 1.

Section Hash.
Context `{StarkCrypto} `{StarknetNum}.

(** [hashCall], on the felts of a call. *)
Definition hash_call_felts (c : Z * Z * list Z) : Z :=
  let '(to, selector, data) := c in poseidonHashMany [CALL_TYPE_HASH; to; selector; poseidonHashMany data].

Definition hashCallSet (calls : list Call) (additionalData : list BigNumberish) : option Z :=
  felts ← mapM call_felts calls;
  data ← mapM toBigInt additionalData;
  Some (poseidonHashMany [CALL_SET_TYPE_HASH; poseidonHashMany (map hash_call_felts felts); poseidonHashMany data]).

Definition computeCallSetHash (accountAddress : BigNumberish) (calls : list Call) (chainId : BigNumberish) (additionalData : list BigNumberish)
  : option Z :=
  chain ← toBigInt chainId;
  account ← toBigInt accountAddress;
  callSet ← hashCallSet calls additionalData;
  Some (poseidonHashMany
    [STARKNET_MESSAGE;
     poseidonHashMany [STARKNET_DOMAIN_TYPE_HASH; CALL_SET_DOMAIN_NAME; CALL_SET_DOMAIN_VERSION; chain; DOMAIN_REVISION];
     account; callSet]).

(** *** The signer *)

Record Snip12CallSetSignerOptions : Type := {
  sn_accountAddress : BigNumberish; sn_chainId : BigNumberish; sn_additionalData : option (list BigNumberish) }.

Inductive snip12_error : Type := SnNotANumber | SnNotSupported (operation : string).

Context {signature message : Type} (getMessageHash : message -> string -> BigNumberish)
  (options : Snip12CallSetSignerOptions) (sign : Z -> signature).

Definition signTransaction (calls : list Call) : result snip12_error signature :=
  match computeCallSetHash (sn_accountAddress options) calls (sn_chainId options) (default [] (sn_additionalData options)) with
  | Some h => Ok (sign h)
  | None => Err SnNotANumber
  end.

Definition signMessage (m : message) (accountAddress : string) : result snip12_error signature :=
  match toBigInt (getMessageHash m accountAddress) with Some h => Ok (sign h) | None => Err SnNotANumber end.

Definition getPubKey : result snip12_error string := Err (SnNotSupported "getPubKey").
Definition signDeclareTransaction : result snip12_error signature := Err (SnNotSupported "signDeclareTransaction").
Definition signDeployAccountTransaction : result snip12_error signature := Err (SnNotSupported "signDeployAccountTransaction").
End Hash.

(** ** A signature authorizes one request *)

Section Binding.
Context `{StarkCrypto} `{StarknetNum}.

(** What a request asks for, as felts: the account, the chain, the calls and the additional data. *)
Definition request_felts (accountAddress : BigNumberish) (calls : list Call) (chainId : BigNumberish) (additionalData : list BigNumberish)
  : option (Z * Z * list (Z * Z * list Z) * list Z) :=
  chain ← toBigInt chainId;
  account ← toBigInt accountAddress;
  felts ← mapM call_felts calls;
  data ← mapM toBigInt additionalData;
  Some (account, chain, felts, data).

Lemma computeCallSetHash_felts accountAddress calls chainId additionalData :
  computeCallSetHash accountAddress calls chainId additionalData =
  ('(account, chain, felts, data) ← request_felts accountAddress calls chainId additionalData;
   Some (poseidonHashMany
     [STARKNET_MESSAGE; poseidonHashMany [STARKNET_DOMAIN_TYPE_HASH; CALL_SET_DOMAIN_NAME; CALL_SET_DOMAIN_VERSION; chain; DOMAIN_REVISION];
      account; poseidonHashMany [CALL_SET_TYPE_HASH; poseidonHashMany (map hash_call_felts felts); poseidonHashMany data]])).
Proof.
  unfold computeCallSetHash, hashCallSet, request_felts. destruct (toBigInt chainId); [|done]. cbn [mbind option_bind].
  destruct (toBigInt accountAddress); [|done]. cbn [mbind option_bind].
  destruct (mapM call_felts calls); [|done]. cbn [mbind option_bind]. by destruct (mapM toBigInt additionalData).
Qed.

#[export] Instance hash_call_felts_inj `{!CollisionFree} : Inj (=) (=) hash_call_felts.
Proof.
  intros [[a s] d] [[a' s'] d'] Heq. apply (inj poseidonHashMany) in Heq. injection Heq as -> -> Heq.
  by apply (inj poseidonHashMany) in Heq as ->.
Qed.
End Binding.

(** A SNIP-12 signature authorizes exactly one request: over a collision-free Poseidon, two requests are signed
    with the same hash only if they are for the same account and chain, the same calls in the same
    order, each with the same target, selector and calldata, and the same additional data. *)
Theorem snip12_hash_binds `{StarkCrypto} `{StarknetNum} (Hinj : CollisionFree)
  (account account' chainId chainId' : BigNumberish) (calls calls' : list Call) (data data' : list BigNumberish) (h : Z) :
  computeCallSetHash account calls chainId data = Some h ->
  computeCallSetHash account' calls' chainId' data' = Some h <->
    request_felts account' calls' chainId' data' = request_felts account calls chainId data.
Proof.
  rewrite !computeCallSetHash_felts. destruct (request_felts account calls chainId data) as [[[[a c] f] d]|]; [|done].
  cbn [mbind option_bind]. intros [= <-]. split.
  - destruct (request_felts account' calls' chainId' data') as [[[[a' c'] f'] d']|]; [|done]. cbn [mbind option_bind]. intros [= Heq].
    apply (inj poseidonHashMany) in Heq. injection Heq as Hchain -> Hset.
    apply (inj poseidonHashMany) in Hchain. injection Hchain as ->.
    apply (inj poseidonHashMany) in Hset. injection Hset as Hcalls Hdata.
    apply (inj poseidonHashMany) in Hcalls, Hdata. change (map hash_call_felts f') with (hash_call_felts <$> f') in Hcalls. apply (inj (fmap hash_call_felts)) in Hcalls. by subst.
  - by intros ->.
Qed.

Lemma snip12_hash_binds_witness :
  @computeCallSetHash toy_crypto toy_num (BN_string "0x1") [] (BN_number 2) [BN_bigint 3]
  <> @computeCallSetHash toy_crypto toy_num (BN_string "0x1") [] (BN_number 2) [BN_bigint 4].
Proof.
  intros Heq. destruct (@computeCallSetHash toy_crypto toy_num (BN_string "0x1") [] (BN_number 2) [BN_bigint 3]) as [h|] eqn:Hh; [|discriminate Hh].
  symmetry in Heq. apply (@snip12_hash_binds toy_crypto toy_num toy_collision_free _ _ _ _ _ _ _ _ _ Hh) in Heq. discriminate Heq.
Defined.
