(* ===== verification/ViewingKey.v ===== *)
(** * Viewing keys from a passphrase ([client/src/viewing-key.ts])

    The passphrase is packed into felts, salted with the account address, hashed a thousand times
    and folded into the range of keys that the pool accepts. Passphrases are ASCII. *)
From Stdlib Require Import Ascii ZArith Lia Znumtheory.
From stdpp Require Import base tactics list strings.
From S2P Require Import Prelude Convert Crypto Interfaces Bytes.

Local Open Scope Z_scope.

Definition CURVE_ORDER : Z := CURVE_N.
Definition HALF_ORDER : Z := Z.shiftr CURVE_ORDER 1.
Definition KDF_ROUNDS : Z := 1000.
Definition BYTES_PER_FELT : nat := 31.

(** The loop over the offsets: one limb for every 31 bytes; the fuel is the number of bytes. *)
Fixpoint limbs (fuel : nat) (bytes : list Z) : list Z :=
  match fuel, bytes with
  | S fuel, _ :: _ => bytesToBigInt (take BYTES_PER_FELT bytes) :: limbs fuel (drop BYTES_PER_FELT bytes)
  | _, _ => []
  end.

Definition passphraseToFelts (passphrase : string) : list Z :=
  let bytes := text_bytes passphrase in
  Z.of_nat (length bytes) :: limbs (length bytes) bytes.

(** [canonicalViewingKey]; the argument is a hash, so it is not negative. *)
Definition canonicalViewingKey (key : Z) : Z :=
  let scalar := js_rem key CURVE_ORDER in
  let scalar := if HALF_ORDER <=? scalar then CURVE_ORDER - scalar else scalar in
  if (scalar =? 0) || (HALF_ORDER <=? scalar) then 1 else scalar.

Section Derivation.
Context `{StarkCrypto}.

(** The rounds after the first. *)
Fixpoint kdf_rounds (n : nat) (salt key : Z) : Z :=
  match n with O => key | S n => kdf_rounds n salt (poseidonHashMany [key; salt]) end.

Definition kdf (passphrase : string) (salt : Z) : Z :=
  kdf_rounds (Z.to_nat (KDF_ROUNDS - 1)) salt (poseidonHashMany (passphraseToFelts passphrase ++ [salt])).

Definition deriveViewingKey (passphrase : string) (address : BigNumberish) : option Z :=
  salt ← toBigInt address; Some (canonicalViewingKey (kdf passphrase salt)).

(** [passphraseViewingKeyProvider]: the closure keeps the key it derived first. *)
Definition getViewingKey (passphrase : string) (address : BigNumberish) (cached : option Z) : option Z * option Z :=
  match cached with
  | Some key => (Some key, cached)
  | None => let key := deriveViewingKey passphrase address in (key, key)
  end.
End Derivation.

(** ** The packing is injective *)

Lemma limbs_inj fuel bytes bytes' : Forall is_byte bytes -> Forall is_byte bytes' -> length bytes = length bytes' ->
  (length bytes <= fuel)%nat -> limbs fuel bytes = limbs fuel bytes' -> bytes = bytes'.
Proof.
  revert bytes bytes'. induction fuel as [|fuel IH]; intros bytes bytes' Hb Hb' Hl Hf Heq.
  { destruct bytes, bytes'; cbn in *; done || lia. }
  destruct bytes as [|b bytes], bytes' as [|b' bytes']; [done|discriminate Hl..|].
  set (l := b :: bytes) in *. set (l' := b' :: bytes') in *.
  change (bytesToBigInt (take BYTES_PER_FELT l) :: limbs fuel (drop BYTES_PER_FELT l)
    = bytesToBigInt (take BYTES_PER_FELT l') :: limbs fuel (drop BYTES_PER_FELT l')) in Heq.
  injection Heq as Hhead Htail. rewrite <- (take_drop BYTES_PER_FELT l), <- (take_drop BYTES_PER_FELT l'). f_equal.
  - apply bytesToBigInt_inj; [by apply Forall_take..| |done]. by rewrite !length_take, Hl.
  - apply IH; [by apply Forall_drop..| | |done]; rewrite !length_drop; [by rewrite Hl|].
    subst l. cbn [length] in *. unfold BYTES_PER_FELT. lia.
Qed.

Lemma limbs_bounded fuel bytes : Forall is_byte bytes -> Forall (fun z => 0 <= z < 2 ^ 248) (limbs fuel bytes).
Proof.
  revert bytes. induction fuel as [|fuel IH]; intros bytes Hb; [constructor|]. destruct bytes as [|b l]; [constructor|].
  set (bytes := b :: l) in *. change (Forall (fun z => 0 <= z < 2 ^ 248) (bytesToBigInt (take BYTES_PER_FELT bytes) :: limbs fuel (drop BYTES_PER_FELT bytes))).
  constructor; [|by apply IH, Forall_drop].
  pose proof (bytesToBigInt_bound (take BYTES_PER_FELT bytes) ltac:(by apply Forall_take)) as Hv.
  assert (256 ^ Z.of_nat (length (take BYTES_PER_FELT bytes)) <= 2 ^ 248); [|lia].
  change (2 ^ 248) with (256 ^ 31). apply Z.pow_le_mono_r; [lia|]. rewrite length_take. unfold BYTES_PER_FELT. lia.
Qed.

#[export] Instance passphraseToFelts_inj : Inj (=) (=) passphraseToFelts.
Proof.
  intros s t. unfold passphraseToFelts. intros [= Hl Heq]. apply Nat2Z.inj in Hl. apply text_bytes_inj.
  rewrite <- Hl in Heq. by apply (limbs_inj (length (text_bytes s))); try apply text_bytes_are_bytes.
Qed.

(** ** The key *)

Lemma kdf_rounds_inj `{StarkCrypto} `{!CollisionFree} n salt salt' key key' :
  kdf_rounds n salt key = kdf_rounds n salt' key' -> (0 < n)%nat -> salt = salt' /\ key = key'.
Proof.
  revert key key'. induction n as [|n IH]; intros key key' Heq Hn; [lia|]. cbn in Heq.
  destruct n as [|n].
  - apply (inj poseidonHashMany) in Heq. by injection Heq as -> ->.
  - apply IH in Heq as [-> Heq]; [|lia]. apply (inj poseidonHashMany) in Heq. by injection Heq as ->.
Qed.

(** C32: A derived viewing key is one that the pool and the SDK accept, [1 <= key < HALF_ORDER], and it is the
    key of the derivation up to its sign modulo the order of the curve, which leaves the x-coordinate of its public
    key as it is; only three residues fall back to one. Before this folding the derivation tells all its
    inputs apart: over a collision-free Poseidon two derivations give one value only for the same
    passphrase and the same account, whatever the leading zero bytes of the passphrases. *)
Theorem viewing_key_derivation `{StarkCrypto} (Hinj : CollisionFree) (passphrase passphrase' : string) (salt salt' : Z) :
  (forall key, 0 <= key -> 1 <= canonicalViewingKey key < HALF_ORDER /\ HALF_ORDER <= MAX_VIEWING_KEY CURVE_N /\
     ((canonicalViewingKey key = 1 /\ (key mod CURVE_ORDER = 0 \/ key mod CURVE_ORDER = HALF_ORDER \/ key mod CURVE_ORDER = HALF_ORDER + 1)) \/
      (CURVE_ORDER | canonicalViewingKey key - key) \/ (CURVE_ORDER | canonicalViewingKey key + key))) /\
  (kdf passphrase salt = kdf passphrase' salt' -> passphrase = passphrase' /\ salt = salt').
Proof.
  split.
  - intros key Hkey. assert (Horder : CURVE_ORDER = 2 * HALF_ORDER + 1) by done.
    assert (Hpos : 1 < HALF_ORDER) by done. unfold canonicalViewingKey, js_rem. rewrite Z.rem_mod_nonneg by (done || lia).
    pose proof (Z.mod_pos_bound key CURVE_ORDER ltac:(lia)) as Hm. pose proof (Z.div_mod key CURVE_ORDER ltac:(lia)) as Hdm.
    set (s := key mod CURVE_ORDER) in *. set (q := key / CURVE_ORDER) in *.
    assert (Hmax : HALF_ORDER <= MAX_VIEWING_KEY CURVE_N) by (vm_compute; discriminate).
    destruct (Z.leb_spec HALF_ORDER s) as [Hh|Hh].
    + destruct (Z.eqb_spec (CURVE_ORDER - s) 0); [lia|]. destruct (Z.leb_spec HALF_ORDER (CURVE_ORDER - s)); cbn [orb].
      * split; [lia|]. split; [done|]. left. lia.
      * split; [lia|]. split; [done|]. right; right. exists (q + 1). rewrite Hdm. ring.
    + destruct (Z.eqb_spec s 0); cbn [orb].
      * split; [by vm_compute|]. split; [done|]. left. lia.
      * destruct (Z.leb_spec HALF_ORDER s); [lia|]. split; [lia|]. split; [done|]. right; left. exists (- q). rewrite Hdm. ring.
  - unfold kdf. intros [-> Heq]%kdf_rounds_inj; [|unfold KDF_ROUNDS; lia]. apply (inj poseidonHashMany) in Heq.
    apply (inj (fun l => l ++ [salt'])) in Heq. by apply (inj passphraseToFelts) in Heq.
Qed.

Lemma viewing_key_derivation_witness :
  1 <= canonicalViewingKey (CURVE_ORDER - 5) < HALF_ORDER /\
  (@kdf toy_crypto "a" 7 = @kdf toy_crypto (String Ascii.zero "a") 7 -> "a"%string = String Ascii.zero "a").
Proof.
  destruct (@viewing_key_derivation toy_crypto toy_collision_free "a" (String Ascii.zero "a") 7 7) as [Hc Hk].
  split; [apply (Hc (CURVE_ORDER - 5)); done|]. intros Heq. by apply Hk in Heq as [? _].
Defined.

(** Without the length, a leading zero byte would not count. *)
Example leading_zero : limbs 1 (text_bytes "a") = limbs 1 (take 2 (text_bytes (String Ascii.zero "a"))) /\
  passphraseToFelts "a" <> passphraseToFelts (String Ascii.zero "a").
Proof. split; [reflexivity|discriminate]. Qed.
