(* ===== verification/ShadowAccounts.v ===== *)
(** * Shadow accounts of the SDK ([sdk/src/internal/shadow-accounts.ts], [builders.ts])

    The namespace of a dapp: its interactions become the compute-and-invoke action of the batch,
    and its commitments name the shadow accounts. The encoder of the anonymizer's ABI and of short
    strings belong to starknet.js. *)
From Stdlib Require Import ZArith Lia.
From stdpp Require Import base tactics list strings.
From S2P Require Import Prelude JsMap Convert Crypto Interfaces Compiler Builders PoolTransaction ScreenedAddress StarknetCalls.

Local Open Scope Z_scope.

(** [CollectPolicy], and the enum it becomes. *)
Inductive CollectPolicy : Type := CollectAll | CollectDiff | CollectExact (amount : Z).

(** A call and an open note in the anonymizer's ABI. *)
Record AnonymizerCall : Type := { ac_to : string; ac_selector : string; ac_calldata : list BigNumberish }.
Record AnonymizerOpenNote : Type := { an_noteId : Z; an_token : Z; an_policy : CollectPolicy }.

(** starknet.js: [shortString.encodeShortString] and [CallData(ShadowAccountAnonymizerABI).compile] of
    [privacy_invoke_with_computation]; both may throw. *)
Class AnonymizerCoder := {
  encodeShortString : string -> option string;
  compile_privacy_invoke : Z -> list AnonymizerCall -> list AnonymizerOpenNote -> option (list BigNumberish)
}.

Inductive DappName : Type := DappText (s : string) | DappFelt (v : BigNumberish).

Section ShadowAccounts.
Context `{StarkCrypto} `{Platform} `{AnonymizerCoder} `{StarknetNum}.

Definition encodeDappName (dappName : DappName) : option Z :=
  match dappName with
  | DappText s => hex ← encodeShortString s; toBigInt (BN_string hex)
  | DappFelt v => toBigInt v
  end.

(** The fields of [ShadowAccountsBuilderImpl]; the viewing key is asked for when it is needed. *)
Record ShadowAccountsBuilder : Type := { sb_dappName : Z; sb_anonymizer : Z; sb_user : Z }.

(** [shadowAccounts(dappName)] of the builder. *)
Definition shadowAccounts (anonymizerAddress : option BigNumberish) (user : Z) (dappName : DappName) : result sdk_error ShadowAccountsBuilder :=
  match anonymizerAddress with
  | None => Err ShadowAccountsNotConfigured
  | Some address =>
      match encodeDappName dappName, toBigInt address with
      | Some name, Some anonymizer => Ok {| sb_dappName := name; sb_anonymizer := anonymizer; sb_user := user |}
      | _, _ => Err JsSyntaxError
      end
  end.

Definition anonymizer_call (call : Call) : AnonymizerCall :=
  {| ac_to := contractAddress call; ac_selector := getSelectorFromName (entrypoint call);
     ac_calldata := CallData_compile (default [] (calldata call)) |}.

(** The call builder that [invoke] queues: it runs when the batch is compiled, on the open notes of it. *)
Definition interaction (b : ShadowAccountsBuilder) (nonce : Z) (calls : list AnonymizerCall) (policy : CollectPolicy)
  : ComputeAndInvokeAction := fun args =>
  let openNotes := map (fun n => {| an_noteId := ion_noteId n; an_token := ion_token n; an_policy := policy |}) (args_openNotes args) in
  match compile_privacy_invoke 0 calls openNotes ≫= (fun data => mapM toBigInt (drop 1 data)) with
  | Some invokeAdditionalData =>
      Ok {| cai_contractAddress := BN_string (toHex (sb_anonymizer b));
            cai_computeAdditionalData := Some [BN_bigint (sb_dappName b); BN_bigint nonce];
            cai_invokeAdditionalData := Some (map BN_bigint invokeAdditionalData) |}
  | None => Err JsSyntaxError
  end.

Definition shadow_invoke (b : ShadowAccountsBuilder) (nonce : BigNumberish) (calls : list Call) (collectPolicy : option CollectPolicy)
  : result sdk_error builder_op :=
  match toBigInt nonce with
  | Some nonceFelt => Ok (BComputeAndInvoke (interaction b nonceFelt (map anonymizer_call calls) (default CollectAll collectPolicy)))
  | None => Err JsSyntaxError
  end.

Definition partialCommitment (b : ShadowAccountsBuilder) (viewingKey : Z) : Z :=
  shadowAccountPartialCommitment (sb_user b) viewingKey (sb_anonymizer b) (sb_dappName b).

Definition commitment (b : ShadowAccountsBuilder) (viewingKey : Z) (nonce : BigNumberish) : option Z :=
  shadowAccountCommitment (partialCommitment b viewingKey) <$> toBigInt nonce.
End ShadowAccounts.

(** ** The interceptor screens the account the interaction runs through *)

(** The anonymizer's compute arguments, two felts, decode to the felts they spell. *)
Definition decodes_felts `{PoolCoder} : Prop := forall dapp nonce, 0 <= dapp -> 0 <= nonce ->
  decode_compute_arguments (map num_toHex [dapp; nonce]) = Some (dapp, nonce).
(** Felts are spelled canonically. *)
Definition spells_felts `{PoolCoder} : Prop := forall z, 0 <= z -> num_toHex z = toHex z.

(** C12: An interaction built by the SDK runs through the shadow account that the interceptor screens: when the
    batch of a user whose compute-and-invoke the SDK built reaches the interceptor, with the user's
    address and viewing key, the address the interceptor derives from its compute data is that of the account
    with the SDK's own commitment for the dapp and the nonce. *)
Theorem interceptor_screens_the_shadow_account `{StarkCrypto} `{Platform} `{AnonymizerCoder} `{StarknetNum} `{PoolCoder}
  (b : ShadowAccountsBuilder) (nonce : BigNumberish) (calls : list Call) (policy : option CollectPolicy) (viewingKey : Z)
  (args : InvokeCalldataBuilderArgs) (callBuilder : ComputeAndInvokeAction) (details : ComputeAndInvokeDetails)
  (compute invoke : list Z) (before after : list PoolAction) (c : Z) :
  decodes_felts -> spells_felts ->
  0 <= sb_anonymizer b -> 0 <= sb_user b -> 0 <= sb_dappName b -> (forall n, toBigInt nonce = Some n -> 0 <= n) ->
  shadow_invoke b nonce calls policy = Ok (BComputeAndInvoke callBuilder) -> callBuilder args = Ok details ->
  mapM toBigInt (default [] (cai_computeAdditionalData details)) = Some compute ->
  (forall action, action ∈ before -> match action with PComputeAndInvoke _ _ _ => False | _ => True end) ->
  commitment b viewingKey nonce = Some c ->
  getShadowAccountAddress
    {| userAddress := toHex (sb_user b); PoolTransaction.viewingKey := Some viewingKey;
       pc_actions := before ++ PComputeAndInvoke (sb_anonymizer b) compute invoke :: after |} (toHex (sb_anonymizer b))
    = Ok (Some (shadowAccountAddress c (sb_anonymizer b))).
Proof.
  intros Hdec Hspell Ha Hu Hname Hnonce Hop Hdet Hcompute Hbefore Hc. unfold shadow_invoke in Hop. unfold commitment in Hc.
  destruct (toBigInt nonce) as [n|]; [|done]. injection Hop as <-. injection Hc as <-.
  unfold interaction in Hdet. destruct (compile_privacy_invoke _ _ _ ≫= _) as [data|]; [|done]. injection Hdet as <-.
  injection Hcompute as <-.
  assert (Hget : getShadowAccountInteraction (before ++ PComputeAndInvoke (sb_anonymizer b) [sb_dappName b; n] invoke :: after) (toHex (sb_anonymizer b))
    = Some {| dappName := sb_dappName b; sa_nonce := n |}).
  { induction before as [|a before IH]; cbn [app getShadowAccountInteraction].
    - rewrite Hspell by done. rewrite bool_decide_false by (by intros ?). unfold shadowAccountInteraction. cbn [length Nat.eqb COMPUTE_ARGUMENT_TYPES_length].
      by rewrite (Hdec (sb_dappName b) n Hname (Hnonce n eq_refl)).
    - assert (Hrest : forall action, action ∈ before -> match action with PComputeAndInvoke _ _ _ => False | _ => True end).
      { intros x Hx. apply Hbefore. by right. }
      specialize (IH Hrest). specialize (Hbefore a ltac:(by left)). destruct a; done. }
  unfold getShadowAccountAddress. cbn [PoolTransaction.viewingKey pc_actions userAddress]. rewrite Hget. unfold parseFelt.
  rewrite (BigInt_toHex _ Hu), (normalizeFelt_toHex _ Ha), (BigInt_toHex _ Ha). done.
Qed.

(** ** An instance *)

Definition toy_anonymizer : AnonymizerCoder := {|
  encodeShortString s := Some (toHex (bytes_felt s 0));
  compile_privacy_invoke _ calls notes := Some (BN_number 0 :: flat_map ac_calldata calls ++ map (fun n => BN_bigint (an_noteId n)) notes) |}.

(** A coder that reads two felts back. *)
Definition reading_coder : PoolCoder := {|
  decode_actions _ := None;
  decode_compute_arguments l := match mapM BigInt_of_string l with Some [a; b] => Some (a, b) | _ => None end;
  decode_open_notes _ := Some 1%nat;
  num_toHex := toHex;
  calculateContractAddressFromHash salt _ _ deployer := salt + deployer |}.

Lemma reading_coder_decodes : @decodes_felts reading_coder.
Proof.
  intros d n Hd Hn. cbn -[BigInt_of_string toHex]. by rewrite (BigInt_toHex d Hd), (BigInt_toHex n Hn).
Qed.

Definition sample_builder : ShadowAccountsBuilder := {| sb_dappName := 9; sb_anonymizer := 5; sb_user := 7 |}.
Definition sample_args : InvokeCalldataBuilderArgs := {| args_openNotes := []; args_withdrawals := []; args_poolAddress := 1 |}.

Lemma interceptor_screens_the_shadow_account_witness : exists c,
  @commitment toy_crypto sample_builder 3 (BN_number 2) = Some c /\
  @getShadowAccountAddress toy_crypto reading_coder
    {| userAddress := "0x7"; PoolTransaction.viewingKey := Some 3; pc_actions := [PDeposit; PComputeAndInvoke 5 [9; 2] []] |} "0x5"
    = Ok (Some (@shadowAccountAddress reading_coder c 5)).
Proof.
  destruct (@commitment toy_crypto sample_builder 3 (BN_number 2)) as [c|] eqn:Hc; [|discriminate Hc]. exists c. split; [reflexivity|].
  apply (@interceptor_screens_the_shadow_account toy_crypto toy_platform toy_anonymizer toy_num reading_coder sample_builder (BN_number 2)
    [] None 3 sample_args (@interaction toy_anonymizer sample_builder 2 [] CollectAll) _ [9; 2] [] [PDeposit] [] c
    reading_coder_decodes (fun z _ => eq_refl) ltac:(done) ltac:(done) ltac:(done) ltac:(by intros n [= <-]) eq_refl eq_refl eq_refl);
    [|exact Hc].
  intros a [->|[]%elem_of_nil]%elem_of_cons. exact I.
Defined.
