(* ===== verification/ClientBuilder.v ===== *)
(** * The builder and the client of a dapp ([client/src/builder.ts], [client.ts], [shadow-accounts.ts])

    Chained calls append the strk20 actions of one transaction; an invoke is built on placeholders for
    the open notes created so far. The client submits the actions through a wallet, and reads shadow
    accounts page by page from a view of the anonymizer. *)
From Stdlib Require Import ZArith Lia.
From stdpp Require Import base tactics list strings.
From S2P Require Import Prelude Convert StarknetCalls.

Local Open Scope string_scope.
Local Open Scope Z_scope.

(** ** Actions ([interfaces.ts]) *)

Inductive Strk20CollectPolicy : Type := SCollectAll | SCollectDiff | SCollectExact (amount : string).

Inductive Strk20Action : Type :=
| SDeposit (token amount : string)
| SWithdraw (token amount recipient : string)
| STransfer (token amount recipient : string)
| SInvoke (contract : string) (calldata : list string)
| SComputeAndInvoke (contract : string) (compute_calldata invoke_calldata : list string)
| SShadowAccountInvoke (dapp_name nonce : string) (calls : list Strk20WireCall) (collect_policy : Strk20CollectPolicy).

(** The amount of a transfer that creates an open note. *)
Definition OPEN : string := "OPEN".

Record PrivacyInvokeArgs : Type := { openNoteIds : list string; pi_poolAddress : string }.
Record InvokeDetails : Type := { id_contractAddress : BigNumberish; id_calldata : option (list string) }.
Record ComputeInvokeDetails : Type := { ci_contractAddress : string; ci_computeCalldata : list string; ci_invokeCalldata : list string }.

Inductive client_error : Type :=
| BadNumber
| OpenNoteAfterInvoke
| CallerThrew (code : Z).

(** The call builders are the dapp's functions and may throw. *)
Definition PrivacyInvokeCallBuilder : Type := PrivacyInvokeArgs -> result client_error InvokeDetails.
Definition PrivacyComputeInvokeCallBuilder : Type := PrivacyInvokeArgs -> result client_error ComputeInvokeDetails.

(** ** The builder *)

Record PrivacyBuilder : Type := { pb_actions : list Strk20Action; openNoteCount : nat; invoked : bool }.
Definition new_PrivacyBuilder : PrivacyBuilder := {| pb_actions := []; openNoteCount := 0; invoked := false |}.

Inductive client_op : Type :=
| CDeposit (token amount : BigNumberish)
| CWithdraw (token amount recipient : BigNumberish)
| CTransfer (token amount recipient : BigNumberish)
| COpenNote (token : BigNumberish)
| CInvoke (callBuilder : PrivacyInvokeCallBuilder)
| CInvokeWithComputation (callBuilder : PrivacyComputeInvokeCallBuilder)
| CShadowInvoke (dappName : string) (nonce : BigNumberish) (calls : list Call) (collectPolicy : option Strk20CollectPolicy).

(** The placeholders. *)
Definition openNotePlaceholder (index : nat) : string := "${openNoteIds[" +:+ bigint_toString 10 (Z.of_nat index) +:+ "]}".
Definition poolPlaceholder : string := "${poolAddress}".
Definition args_of (count : nat) : PrivacyInvokeArgs :=
  {| openNoteIds := map openNotePlaceholder (seq 0 count); pi_poolAddress := poolPlaceholder |}.

Section Builder.
Context `{StarknetNum} (userAddress : BigNumberish).

Definition building (A : Type) : Type := stateE PrivacyBuilder client_error A.

Definition toFelt (value : BigNumberish) : building string :=
  st_lift (match toBigInt value with Some z => Ok (sn_toHex z) | None => Err BadNumber end).

Definition append (action : Strk20Action) : building unit :=
  st_modify (fun b => {| pb_actions := (pb_actions b ++ [action])%list; openNoteCount := openNoteCount b; invoked := invoked b |}).

Definition mark_invoked : building unit :=
  st_modify (fun b => {| pb_actions := pb_actions b; openNoteCount := openNoteCount b; invoked := true |}).

Definition invokeArgs : building PrivacyInvokeArgs := fun b => (Ok (args_of (openNoteCount b)), b).

Definition appendOpenNote (token : string) : building unit :=
  b ← st_get;
  if (invoked b : bool) then st_throw OpenNoteAfterInvoke
  else
    _ ← st_modify (fun b => {| pb_actions := pb_actions b; openNoteCount := S (openNoteCount b); invoked := invoked b |});
    recipient ← toFelt userAddress;
    append (STransfer token OPEN recipient).

Definition run_client_op (op : client_op) : building unit :=
  match op with
  | CDeposit token amount => token ← toFelt token; amount ← toFelt amount; append (SDeposit token amount)
  | CWithdraw token amount recipient =>
      token ← toFelt token; amount ← toFelt amount; recipient ← toFelt recipient; append (SWithdraw token amount recipient)
  | CTransfer token amount recipient =>
      token ← toFelt token; amount ← toFelt amount; recipient ← toFelt recipient; append (STransfer token amount recipient)
  | COpenNote token => token ← toFelt token; appendOpenNote token
  | CInvoke callBuilder =>
      _ ← mark_invoked;
      args ← invokeArgs;
      details ← st_lift (callBuilder args);
      append (SInvoke (js_String (id_contractAddress details)) (default [] (id_calldata details)))
  | CInvokeWithComputation callBuilder =>
      _ ← mark_invoked;
      args ← invokeArgs;
      details ← st_lift (callBuilder args);
      append (SComputeAndInvoke (ci_contractAddress details) (ci_computeCalldata details) (ci_invokeCalldata details))
  | CShadowInvoke dappName nonce calls collectPolicy =>
      nonce ← toFelt nonce;
      _ ← mark_invoked;
      append (SShadowAccountInvoke dappName nonce (map toStrk20Call calls) (default SCollectAll collectPolicy))
  end.

(** A dapp may go on after an exception: the calls that threw keep what they changed. *)
Definition run_client (ops : list client_op) (b : PrivacyBuilder) : PrivacyBuilder :=
  fold_left (fun b op => (run_client_op op b).2) ops b.
End Builder.

(** ** Open notes and invokes *)

Definition is_open_note (action : Strk20Action) : bool :=
  match action with STransfer _ amount _ => String.eqb amount OPEN | _ => false end.
Definition is_invoke_phase (action : Strk20Action) : bool :=
  match action with SInvoke _ _ | SComputeAndInvoke _ _ _ | SShadowAccountInvoke _ _ _ _ => true | _ => false end.

(** An invoke of the transaction is what some call builder returned on the given placeholders. *)
Definition built_with (ops : list client_op) (args : PrivacyInvokeArgs) (action : Strk20Action) : Prop :=
  match action with
  | SInvoke contract calldata => exists callBuilder details, CInvoke callBuilder ∈ ops /\ callBuilder args = Ok details /\
      contract = js_String (id_contractAddress details) /\ calldata = default [] (id_calldata details)
  | SComputeAndInvoke contract compute invoke => exists callBuilder details, CInvokeWithComputation callBuilder ∈ ops /\
      callBuilder args = Ok details /\
      contract = ci_contractAddress details /\ compute = ci_computeCalldata details /\ invoke = ci_invokeCalldata details
  | _ => True
  end.

Section Invariant.
Context `{StarknetNum} (userAddress : BigNumberish) (ops : list client_op).
(** Felts are not spelled like the marker of open notes. *)
Hypothesis not_open : forall z, sn_toHex z <> OPEN.
Hypothesis valid_user : exists z, toBigInt userAddress = Some z.

Record builder_ok (b : PrivacyBuilder) : Prop := {
  bk_count : openNoteCount b = length (List.filter is_open_note (pb_actions b));
  bk_invoked : invoked b = false -> Forall (fun a => is_invoke_phase a = false) (pb_actions b);
  bk_order : forall i j a c, (i < j)%nat -> pb_actions b !! i = Some a -> pb_actions b !! j = Some c ->
    is_invoke_phase a = true -> is_open_note c = false;
  bk_built : Forall (built_with ops (args_of (openNoteCount b))) (pb_actions b) }.

Lemma plain_ok b action : builder_ok b -> is_open_note action = false -> is_invoke_phase action = false -> builder_ok (append action b).2.
Proof.
  intros [Hc Hi Ho Hb] Hnote Hphase. split; cbn [append st_modify snd pb_actions openNoteCount invoked].
  - by rewrite List.filter_app, length_app, Hc; cbn; rewrite Hnote; cbn; lia.
  - intros Hf. apply Forall_app. split; [by apply Hi|by apply list.Forall_singleton].
  - intros i j a c Hij Ha Hcc Hinv. apply lookup_snoc_Some in Hcc as [[Hj Hcc]|[-> <-]]; [|done].
    rewrite lookup_app_l in Ha by lia. by apply (Ho i j a c).
  - apply Forall_app. split; [done|]. apply list.Forall_singleton. by destruct action.
Qed.

Lemma invoke_ok b action : builder_ok b -> invoked b = true -> is_open_note action = false ->
  built_with ops (args_of (openNoteCount b)) action -> builder_ok (append action b).2.
Proof.
  intros [Hc Hi Ho Hb] Hinv Hnote Hbuilt. split; cbn [append st_modify snd pb_actions openNoteCount invoked].
  - by rewrite List.filter_app, length_app, Hc; cbn; rewrite Hnote; cbn; lia.
  - by rewrite Hinv.
  - intros i j a c Hij Ha Hcc Hp. apply lookup_snoc_Some in Hcc as [[Hj Hcc]|[-> <-]]; [|done].
    rewrite lookup_app_l in Ha by lia. by apply (Ho i j a c).
  - apply Forall_app. split; [done|]. by apply list.Forall_singleton.
Qed.

Lemma marked_ok b : builder_ok b -> builder_ok (mark_invoked b).2.
Proof. intros [Hc Hi Ho Hb]. by split. Qed.

Lemma note_ok b token recipient : builder_ok b -> invoked b = false ->
  builder_ok {| pb_actions := (pb_actions b ++ [STransfer token OPEN recipient])%list; openNoteCount := S (openNoteCount b); invoked := invoked b |}.
Proof.
  intros [Hc Hi Ho Hb] Hinv. specialize (Hi Hinv). split; cbn.
  - rewrite List.filter_app, length_app, Hc. cbn. lia.
  - intros _. apply Forall_app. split; [done|by apply list.Forall_singleton].
  - intros i j a c Hij Ha Hcc Hp. assert (Hlt : (i < length (pb_actions b))%nat).
    { apply lookup_lt_Some in Hcc. rewrite length_app in Hcc. cbn in Hcc. lia. }
    rewrite lookup_app_l in Ha by done. eapply Forall_lookup_1 in Hi; [|exact Ha]. by rewrite Hi in Hp.
  - apply Forall_app. split; [|by apply list.Forall_singleton].
    eapply Forall_impl; [exact Hi|]. intros [] Ha; cbn in *; done.
Qed.

(** A conversion leaves the builder as it is. *)
Lemma toFelt_bind {B} v (k : string -> building B) b :
  (exists s, (exists z, s = sn_toHex z) /\ (mbind k (toFelt v)) b = k s b) \/
  (mbind k (toFelt v)) b = (Err BadNumber, b).
Proof.
  unfold mbind, stateE_bind, toFelt, st_lift. destruct (toBigInt v) as [z|]; [left|by right].
  exists (sn_toHex z). split; [by exists z|done].
Qed.

Lemma run_client_op_ok op b : op ∈ ops -> builder_ok b -> builder_ok (run_client_op userAddress op b).2.
Proof.
  intros Hin Hb. destruct op as [t a|t a r|t a r|t|cb|cb|d n calls policy]; cbn [run_client_op].
  - destruct (toFelt_bind t (fun t => a ← toFelt a; append (SDeposit t a)) b) as [(s & _ & ->)| ->]; [|done].
    destruct (toFelt_bind a (fun a => append (SDeposit s a)) b) as [(s' & _ & ->)| ->]; [|done]. by apply plain_ok.
  - destruct (toFelt_bind t (fun t => a ← toFelt a; r ← toFelt r; append (SWithdraw t a r)) b) as [(s & _ & ->)| ->]; [|done].
    destruct (toFelt_bind a (fun a => r ← toFelt r; append (SWithdraw s a r)) b) as [(s' & _ & ->)| ->]; [|done].
    destruct (toFelt_bind r (fun r => append (SWithdraw s s' r)) b) as [(s'' & _ & ->)| ->]; [|done]. by apply plain_ok.
  - destruct (toFelt_bind t (fun t => a ← toFelt a; r ← toFelt r; append (STransfer t a r)) b) as [(s & _ & ->)| ->]; [|done].
    destruct (toFelt_bind a (fun a => r ← toFelt r; append (STransfer s a r)) b) as [(s' & (z & ->) & ->)| ->]; [|done].
    destruct (toFelt_bind r (fun r => append (STransfer s (sn_toHex z) r)) b) as [(s'' & _ & ->)| ->]; [|done].
    apply plain_ok; [done| |done]. cbn. apply String.eqb_neq, not_open.
  - destruct (toFelt_bind t (fun t => appendOpenNote userAddress t) b) as [(s & _ & ->)| ->]; [|done].
    unfold appendOpenNote, mbind, stateE_bind, st_get. destruct (invoked b) eqn:Hi; [done|].
    unfold toFelt. destruct valid_user as [z ->]. cbn. rewrite Hi. rewrite <- Hi. by apply note_ok.
  - unfold mbind, stateE_bind, mark_invoked, st_modify, invokeArgs, st_lift. cbn [openNoteCount].
    destruct (cb (args_of (openNoteCount b))) as [details|e] eqn:Hcb; [|by apply (marked_ok b)].
    apply (invoke_ok (mark_invoked b).2); [by apply marked_ok|done|done|]. by exists cb, details.
  - unfold mbind, stateE_bind, mark_invoked, st_modify, invokeArgs, st_lift. cbn [openNoteCount].
    destruct (cb (args_of (openNoteCount b))) as [details|e] eqn:Hcb; [|by apply (marked_ok b)].
    apply (invoke_ok (mark_invoked b).2); [by apply marked_ok|done|done|]. by exists cb, details.
  - match goal with |- builder_ok ((toFelt n ≫= ?k) b).2 => destruct (toFelt_bind n k b) as [(s & _ & ->)| ->] end; [|done].
    apply (invoke_ok (mark_invoked b).2); [by apply marked_ok|done|done|done].
Qed.
End Invariant.

(** C31: Whatever calls a dapp makes on a builder, whatever throws in between, in the transaction that results
    no open note comes after an invoke, and every invoke was built on one placeholder for each open note
    of the finished transaction, no fewer and no more, so that the indices it uses are those of notes that exist. *)
Theorem invokes_see_all_open_notes `{StarknetNum} (userAddress : BigNumberish) (ops : list client_op) :
  (forall z, sn_toHex z <> OPEN) -> (exists z, toBigInt userAddress = Some z) ->
  let b := run_client userAddress ops new_PrivacyBuilder in
  (forall i j a c, (i < j)%nat -> pb_actions b !! i = Some a -> pb_actions b !! j = Some c ->
     is_invoke_phase a = true -> is_open_note c = false) /\
  openNoteCount b = length (List.filter is_open_note (pb_actions b)) /\
  Forall (built_with ops (args_of (openNoteCount b))) (pb_actions b).
Proof.
  intros Hopen Huser b.
  assert (Hok : builder_ok ops b).
  { subst b. unfold run_client.
    assert (H0 : builder_ok ops new_PrivacyBuilder) by (split; cbn; done || constructor).
    assert (Hgo : forall l b, (forall op, op ∈ l -> op ∈ ops) -> builder_ok ops b -> builder_ok ops (fold_left (fun b op => (run_client_op userAddress op b).2) l b)).
    { induction l as [|op l IH]; intros b Hl Hb; [done|]. cbn. apply IH; [intros o Ho; apply Hl; by right|].
      apply run_client_op_ok; [done|done| |done]. apply Hl. by left. }
    by apply Hgo. }
  by destruct Hok.
Qed.

Lemma invokes_see_all_open_notes_witness :
  let ops := [COpenNote (BN_number 5); CInvoke (fun args => Ok {| id_contractAddress := BN_string "0x9"; id_calldata := Some (openNoteIds args) |});
              COpenNote (BN_number 6)] in
  Forall (built_with ops (args_of 1)) (pb_actions (@run_client toy_num (BN_number 7) ops new_PrivacyBuilder)).
Proof.
  intros ops. destruct (@invokes_see_all_open_notes toy_num (BN_number 7) ops) as (_ & _ & Hb);
    [by intros z Hz; destruct z|by exists 7|exact Hb].
Defined.

Example open_note_after_invoke :
  pb_actions (@run_client toy_num (BN_number 7)
    [COpenNote (BN_number 5); CInvoke (fun args => Ok {| id_contractAddress := BN_string "0x9"; id_calldata := Some (openNoteIds args) |});
     COpenNote (BN_number 6); CDeposit (BN_string "0x5") (BN_bigint 17)] new_PrivacyBuilder)
  = [STransfer "0x5" "OPEN" "0x7"; SInvoke "0x9" ["${openNoteIds[0]}"]; SDeposit "0x5" "0x11"].
Proof. reflexivity. Qed.

(** ** Submitting ([client.ts]) *)

(** What the client asks of its wallet, in order. *)
Inductive wallet_call {proof : Type} : Type :=
| InvokeTransaction (actions : list Strk20Action)
| PrepareInvoke (actions : list Strk20Action) (simulate : bool)
| ExecuteWithProof (calls : list Call) (p : proof)
| EstimateInvokeFee (calls : list Call).
Arguments wallet_call : clear implicits.

(** [PrivacyWallet]: it may reject, and [strk20PrepareInvoke] gives a call and its proof. *)
Class PrivacyWallet := {
  wallet_proof : Type;
  wallet_outcome : Type;
  wallet_error : Type;
  wallet_prepare : list Strk20Action -> bool -> result wallet_error (Strk20WireCall * wallet_proof);
  wallet_run : wallet_call wallet_proof -> result wallet_error wallet_outcome
}.

Record SubmitOptions : Type := { preCalls : list Call; postCalls : list Call; simulate : bool }.
Definition no_submit_options : SubmitOptions := {| preCalls := []; postCalls := []; simulate := false |}.

(** The result, and the calls made on the wallet. *)
Definition submit `{PrivacyWallet} (actions : list Strk20Action) (options : SubmitOptions)
  : result wallet_error wallet_outcome * list (wallet_call wallet_proof) :=
  match preCalls options, postCalls options, simulate options with
  | [], [], false => (wallet_run (InvokeTransaction actions), [InvokeTransaction actions])
  | pre, post, sim =>
      match wallet_prepare actions sim with
      | Err e => (Err e, [PrepareInvoke actions sim])
      | Ok (call, p) =>
          let calls := (pre ++ [toStarknetCall call] ++ post)%list in
          let last := if sim then EstimateInvokeFee calls else ExecuteWithProof calls p in
          (wallet_run last, [PrepareInvoke actions sim; last])
      end
  end.

(** [build().submit()] and [build().simulate()]. *)
Definition submit_built `{PrivacyWallet} (b : PrivacyBuilder) := submit (pb_actions b) no_submit_options.
Definition simulate_built `{PrivacyWallet} (b : PrivacyBuilder) :=
  submit (pb_actions b) {| preCalls := []; postCalls := []; simulate := true |}.

Definition broadcasts {proof} (c : wallet_call proof) : bool :=
  match c with InvokeTransaction _ | ExecuteWithProof _ _ => true | _ => false end.

(** A simulation broadcasts nothing; a submission broadcasts at most once, the given actions between the
    surrounding calls. *)
Theorem submit_broadcasts_once `{PrivacyWallet} actions options :
  let calls := (submit actions options).2 in
  (simulate options = true -> List.filter broadcasts calls = []) /\
  (length (List.filter broadcasts calls) <= 1)%nat /\
  (forall cs p, ExecuteWithProof cs p ∈ calls -> exists call, wallet_prepare actions false = Ok (call, p) /\
     cs = (preCalls options ++ [toStarknetCall call] ++ postCalls options)%list).
Proof.
  unfold submit. destruct options as [pre post sim]. cbn [preCalls postCalls simulate].
  assert (Hprep : let calls := (match wallet_prepare actions sim with
      | Err e => (Err e, [PrepareInvoke actions sim])
      | Ok (call, p) =>
          let calls := (pre ++ [toStarknetCall call] ++ post)%list in
          let last := if sim then EstimateInvokeFee calls else ExecuteWithProof calls p in
          (wallet_run last, [PrepareInvoke actions sim; last])
      end).2 in
    (sim = true -> List.filter broadcasts calls = []) /\ (length (List.filter broadcasts calls) <= 1)%nat /\
    (forall cs p, ExecuteWithProof cs p ∈ calls -> exists call, wallet_prepare actions false = Ok (call, p) /\
       cs = (pre ++ [toStarknetCall call] ++ post)%list)).
  { destruct (wallet_prepare actions sim) as [[call p]|e] eqn:Hp.
    - destruct sim; cbn; (split_and!; [done|lia|]).
      + intros cs q Hin. repeat (apply elem_of_cons in Hin as [[=]|Hin]). by apply elem_of_nil in Hin.
      + intros cs q Hin. apply elem_of_cons in Hin as [[=]|Hin]. apply elem_of_cons in Hin as [[= -> ->]|Hin]; [by exists call|].
        by apply elem_of_nil in Hin.
    - cbn. split_and!; [done|lia|]. intros cs q Hin. apply elem_of_cons in Hin as [[=]|Hin]. by apply elem_of_nil in Hin. }
  destruct pre, post, sim; try exact Hprep. cbn. split_and!; [done|lia|].
  intros cs q Hin. apply elem_of_cons in Hin as [[=]|Hin]. by apply elem_of_nil in Hin.
Qed.
