(* ===== verification/ShadowScan.v ===== *)
(** * Resolving shadow accounts ([client/src/shadow-accounts.ts])

    A range of nonces is resolved by successive calls of the anonymizer's view, each over a window of
    bounded size. The view is on chain: it is an argument, with what its contract documents as a hypothesis. *)
From Stdlib Require Import ZArith Lia.
From stdpp Require Import base tactics list numbers.
From S2P Require Import Prelude.

Local Open Scope Z_scope.

Definition MAX_SCAN_RANGE : Z := 1024.
Definition DEFAULT_ADDRESS_RANGE_END : Z := 100.

Record ShadowAccountInfo : Type := { si_nonce : Z; si_address : Z; is_deployed : bool }.

(** [AddressRange]. *)
Record AddressRange : Type := { range_start : option Z; range_end : option Z; range_untilUndeployed : option bool }.

Section Resolve.
(** [get_shadow_accounts] under the partial commitment: [None] when the call fails. *)
Context (get_shadow_accounts : Z -> Z -> bool -> option (list ShadowAccountInfo)).

(** The loop, with the windows asked for; the fuel bounds the number of windows. *)
Fixpoint resolve_loop (fuel : nat) (from end_ : Z) (untilUndeployed : bool) (infos : list ShadowAccountInfo) (asked : list (Z * Z))
  : option (option (list ShadowAccountInfo) * list (Z * Z)) :=
  if from <? end_ then
    match fuel with
    | O => None
    | S fuel =>
        let to := Z.min (from + MAX_SCAN_RANGE) end_ in
        let asked := asked ++ [(from, to)] in
        match get_shadow_accounts from to untilUndeployed with
        | None => Some (None, asked)
        | Some window =>
            let infos := infos ++ window in
            if (untilUndeployed && (Z.of_nat (length window) <? to - from))%bool then Some (Some infos, asked)
            else resolve_loop fuel (from + MAX_SCAN_RANGE) end_ untilUndeployed infos asked
        end
    end
  else Some (Some infos, asked).

Definition resolveShadowAccounts (fuel : nat) (range : AddressRange) : option (option (list ShadowAccountInfo) * list (Z * Z)) :=
  let start := default 0 (range_start range) in
  let end_ := default (start + DEFAULT_ADDRESS_RANGE_END) (range_end range) in
  resolve_loop fuel start end_ (default false (range_untilUndeployed range)) [] [].

(** ** What the range holds *)

Context (account : Z -> ShadowAccountInfo).

(** The accounts up to the first one that is not deployed. *)
Fixpoint deployed_prefix (l : list ShadowAccountInfo) : list ShadowAccountInfo :=
  match l with
  | [] => []
  | a :: l => if is_deployed a then a :: deployed_prefix l else []
  end.

Definition accounts (start end_ : Z) (untilUndeployed : bool) : list ShadowAccountInfo :=
  let l := map account (seqZ start (end_ - start)) in if untilUndeployed then deployed_prefix l else l.

(** What the view of the contract answers for a window that is not too large. *)
Definition view_answers : Prop := forall from to untilUndeployed, from <= to <= from + MAX_SCAN_RANGE ->
  get_shadow_accounts from to untilUndeployed = Some (accounts from to untilUndeployed).

Lemma deployed_prefix_app l k : deployed_prefix (l ++ k) =
  if forallb is_deployed l then l ++ deployed_prefix k else deployed_prefix l.
Proof. induction l as [|a l IH]; [done|]. cbn. destruct (is_deployed a); [|done]. rewrite IH. cbn. by destruct (forallb is_deployed l). Qed.

Lemma deployed_prefix_length l : (length (deployed_prefix l) <= length l)%nat /\
  ((length (deployed_prefix l) < length l)%nat <-> forallb is_deployed l = false) /\
  (forallb is_deployed l = true -> deployed_prefix l = l).
Proof.
  induction l as [|a l (Hle & Hlt & Heq)]; [cbn; split_and!; [lia|split; [lia|done]|done]|]. cbn [deployed_prefix forallb length].
  destruct (is_deployed a); cbn [length andb].
  - split_and!; [lia|rewrite <- Hlt; lia|intros H; by rewrite Heq].
  - split_and!; [lia|split; [done|lia]|done].
Qed.

(** A window and the rest of the range. *)
Lemma accounts_split from mid end_ : from <= mid <= end_ ->
  map account (seqZ from (end_ - from)) = map account (seqZ from (mid - from)) ++ map account (seqZ mid (end_ - mid)).
Proof.
  intros Hm. rewrite <- map_app. f_equal. replace (end_ - from) with ((mid - from) + (end_ - mid)) by lia.
  rewrite seqZ_app by lia. f_equal. f_equal. lia.
Qed.

Lemma resolve_loop_spec fuel from end_ untilUndeployed infos asked : view_answers ->
  end_ - from <= MAX_SCAN_RANGE * Z.of_nat fuel ->
  exists windows, resolve_loop fuel from end_ untilUndeployed infos asked
    = Some (Some (infos ++ accounts from end_ untilUndeployed), asked ++ windows) /\
    Forall (fun w => w.1 < w.2 <= w.1 + MAX_SCAN_RANGE /\ from <= w.1 /\ w.2 <= end_) windows /\
    (length windows <= fuel)%nat.
Proof.
  intros Hview. revert from infos asked. induction fuel as [|fuel IH]; intros from infos asked Hfuel; cbn [resolve_loop].
  - destruct (Z.ltb_spec from end_) as [Hlt|Hge]; [lia|]. exists []. unfold accounts. rewrite seqZ_nil by lia.
    split_and!; [by destruct untilUndeployed; cbn; rewrite !app_nil_r|constructor|cbn; lia].
  - destruct (Z.ltb_spec from end_) as [Hlt|Hge].
    2:{ exists []. unfold accounts. rewrite seqZ_nil by lia.
        split_and!; [by destruct untilUndeployed; cbn; rewrite !app_nil_r|constructor|cbn; lia]. }
    unfold MAX_SCAN_RANGE in *. set (to := Z.min (from + 1024) end_). assert (Hto : from < to <= from + 1024 /\ to <= end_) by lia.
    rewrite (Hview from to untilUndeployed) by (unfold MAX_SCAN_RANGE; lia).
    assert (Hlen : Z.of_nat (length (map account (seqZ from (to - from)))) = to - from) by (rewrite length_map, length_seqZ; lia).
    assert (Hsplit := accounts_split from to end_ ltac:(lia)).
    destruct (deployed_prefix_length (map account (seqZ from (to - from)))) as (Hple & Hplt & Hpeq).
    assert (Hrec : forall infos', infos' = infos ++ map account (seqZ from (to - from)) ->
      (untilUndeployed = true -> forallb is_deployed (map account (seqZ from (to - from))) = true) ->
      exists windows, resolve_loop fuel (from + 1024) end_ untilUndeployed infos' (asked ++ [(from, to)])
        = Some (Some (infos ++ accounts from end_ untilUndeployed), asked ++ windows) /\
        Forall (fun w => w.1 < w.2 <= w.1 + 1024 /\ from <= w.1 /\ w.2 <= end_) windows /\ (length windows <= S fuel)%nat).
    { intros infos' -> Hall. destruct (IH (from + 1024) (infos ++ map account (seqZ from (to - from))) (asked ++ [(from, to)])) as (ws & Hr & Hws & Hl); [lia|].
      exists ((from, to) :: ws). split_and!; [|constructor; [cbn; lia|]|cbn; lia].
      - rewrite Hr, <- !app_assoc. do 3 f_equal. unfold accounts. rewrite Hsplit.
        assert (Hrest : map account (seqZ (from + 1024) (end_ - (from + 1024))) = map account (seqZ to (end_ - to))).
        { destruct (decide (end_ <= from + 1024)); [by rewrite !seqZ_nil by lia|]. by replace to with (from + 1024) by lia. }
        rewrite Hrest. destruct untilUndeployed; [|done]. by rewrite deployed_prefix_app, Hall.
      - eapply Forall_impl; [|exact Hws]. cbn. intros w. lia. }
    destruct untilUndeployed; cbn [andb].
    + change (accounts from to true) with (deployed_prefix (map account (seqZ from (to - from)))). destruct (Z.ltb_spec (Z.of_nat (length (deployed_prefix (map account (seqZ from (to - from)))))) (to - from)) as [Hshort|Hfull].
      * exists [(from, to)]. split_and!; [|by apply list.Forall_singleton; cbn; lia|cbn; lia]. unfold accounts. rewrite Hsplit, deployed_prefix_app.
        rewrite (proj1 Hplt) by lia. done.
      * assert (Hd : forallb is_deployed (map account (seqZ from (to - from))) = true).
        { destruct (forallb is_deployed (map account (seqZ from (to - from)))); [done|]. pose proof (proj2 Hplt eq_refl). lia. }
        rewrite (Hpeq Hd). by apply Hrec.
    + by apply Hrec.
Qed.
End Resolve.

(** Paging does not show: when the view answers windows of at most [MAX_SCAN_RANGE] nonces as documented,
    resolving any range ends and returns what one view of the whole range would, every account of
    [start, end) in order, or the deployed ones up to the first that is not; and no window asked for is larger
    than the view allows or leaves the range. *)
Theorem resolved_accounts_are_the_range (get_shadow_accounts : Z -> Z -> bool -> option (list ShadowAccountInfo))
  (account : Z -> ShadowAccountInfo) (range : AddressRange) (fuel : nat) :
  view_answers get_shadow_accounts account ->
  let start := default 0 (range_start range) in
  let end_ := default (start + DEFAULT_ADDRESS_RANGE_END) (range_end range) in
  end_ - start <= MAX_SCAN_RANGE * Z.of_nat fuel ->
  exists windows, resolveShadowAccounts get_shadow_accounts fuel range
    = Some (Some (accounts account start end_ (default false (range_untilUndeployed range))), windows) /\
    Forall (fun w => w.1 < w.2 <= w.1 + MAX_SCAN_RANGE /\ start <= w.1 /\ w.2 <= end_) windows.
Proof.
  intros Hview start end_ Hfuel. unfold resolveShadowAccounts.
  destruct (resolve_loop_spec get_shadow_accounts account fuel start end_ (default false (range_untilUndeployed range)) [] [] Hview Hfuel)
    as (ws & Hr & Hws & _). exists ws. split; [exact Hr|exact Hws].
Qed.

Definition sample_account (n : Z) : ShadowAccountInfo := {| si_nonce := n; si_address := n + 100; is_deployed := n <? 1500 |}.
Lemma resolved_accounts_are_the_range_witness : exists windows,
  resolveShadowAccounts (fun from to u => Some (accounts sample_account from to u)) 3
    {| range_start := Some 10; range_end := Some 2500; range_untilUndeployed := Some true |}
  = Some (Some (accounts sample_account 10 2500 true), windows).
Proof.
  destruct (resolved_accounts_are_the_range (fun from to u => Some (accounts sample_account from to u)) sample_account
    {| range_start := Some 10; range_end := Some 2500; range_untilUndeployed := Some true |} 3) as (ws & Hr & _);
    [by intros ? ? ? _|cbn; unfold MAX_SCAN_RANGE; lia|]. by exists ws.
Defined.
