(* ===== verification/ClientProver.v ===== *)
(** * The prover of the client ([client/src/strk20-prover.ts])

    The strk20 actions of a transaction are replayed on the builder of the SDK; their placeholders
    are replaced when the batch is compiled. Proving itself is that of the core SDK, an argument. *)
From Stdlib Require Import Ascii ZArith Lia.
From stdpp Require Import base tactics list strings.
From S2P Require Import Prelude JsMap Convert Crypto Interfaces Compiler Builders PoolTransaction ScreenedAddress StarknetCalls ShadowAccounts ClientBuilder.

Local Open Scope string_scope.
Local Open Scope Z_scope.

(** ** Placeholders *)

(** [/^\$\{openNoteIds\[(\d+)\]\}$/]: the digits of an open-note placeholder. *)
Fixpoint until_bracket (s : string) : option string :=
  match s with
  | String "]" (String "}" EmptyString) => Some EmptyString
  | String c s => if is_decimal c then String c <$> until_bracket s else None
  | EmptyString => None
  end.
Definition OPEN_NOTE_PLACEHOLDER (item : string) : option string :=
  if String.prefix "${openNoteIds[" item then
    match until_bracket (String.substring 14 (String.length item) item) with
    | Some (String _ _ as digits) => Some digits
    | _ => None
    end
  else None.

Section Prover.
Context `{Platform} `{AnonymizerCoder} `{StarknetNum}.

(** [substitute]: the index is [Number(digits)]. *)
Definition substitute (item : string) (args : InvokeCalldataBuilderArgs) : result sdk_error string :=
  match OPEN_NOTE_PLACEHOLDER item with
  | Some digits =>
      match parse_digits 10 digits 0 with
      | Some index =>
          match args_openNotes args !! Z.to_nat index with
          | Some note => Ok (sn_toHex (ion_noteId note))
          | None => Err (ProviderError index)
          end
      | None => Err JsSyntaxError
      end
  | None =>
      if String.eqb item poolPlaceholder then Ok (sn_toHex (args_poolAddress args))
      else match toBigInt (BN_string item) with Some z => Ok (sn_toHex z) | None => Err JsSyntaxError end
  end.

Definition substitute_all (items : list string) (args : InvokeCalldataBuilderArgs) : result sdk_error (list BigNumberish) :=
  fold_result (fun acc item => s ← substitute item args; Ok (acc ++ [BN_string s])%list) items [].

(** ** Translation *)

Definition number (s : string) : result sdk_error Z := toBigInt_or_throw (BN_string s).

Definition collect_policy_of (policy : Strk20CollectPolicy) : result sdk_error CollectPolicy :=
  match policy with
  | SCollectAll => Ok CollectAll
  | SCollectDiff => Ok CollectDiff
  | SCollectExact amount => z ← number amount; Ok (CollectExact z)
  end.

(** The calls of [translate] on the core builder, one per action; [anonymizerAddress] and [user] are those the
    core was configured with. *)
Definition translate_action (anonymizerAddress : option BigNumberish) (user : Z) (action : Strk20Action) : result sdk_error builder_op :=
  match action with
  | SDeposit token amount =>
      token ← number token; amount ← number amount;
      Ok (BWith token [TDeposit [{| in_recipient := None; in_amount := amount |}]])
  | SWithdraw token amount recipient =>
      token ← number token; amount ← number amount; recipient ← number recipient;
      Ok (BWith token [TWithdraw [{| out_recipient := Some recipient; out_amount := amount |}]])
  | STransfer token amount recipient =>
      token ← number token;
      amount ← (if String.eqb amount OPEN then Ok Open else AnAmount <$> number amount);
      recipient ← number recipient;
      Ok (BWith token [TTransfer [{| to_recipient := recipient; to_amount := amount |}]])
  | SInvoke contract calldata =>
      Ok (BInvoke (fun args =>
        items ← substitute_all calldata args; Ok {| cd_contractAddress := BN_string contract; cd_calldata := Some items |}))
  | SComputeAndInvoke contract compute invoke =>
      Ok (BComputeAndInvoke (fun args =>
        compute ← substitute_all compute args;
        invoke ← substitute_all invoke args;
        Ok {| cai_contractAddress := BN_string contract; cai_computeAdditionalData := Some compute; cai_invokeAdditionalData := Some invoke |}))
  | SShadowAccountInvoke dapp nonce calls policy =>
      b ← shadowAccounts anonymizerAddress user (DappText dapp);
      policy ← collect_policy_of policy;
      shadow_invoke b (BN_string nonce) (map toStarknetCall calls) (Some policy)
  end.

(** [translate]: each action changes the builder before the next is read. *)
Definition translate (anonymizerAddress : option BigNumberish) (user : Z) (actions : list Strk20Action)
  : result sdk_error PrivateTransfersBuilder :=
  fold_result (fun b action => op ← translate_action anonymizerAddress user action; run_op user b op) actions new_PrivateTransfersBuilder.

(** The options of [prove]. *)
Definition prover_options : OptionsInput :=
  {| oi_autoRegister := Some true; oi_notes := Some (NotesLevel refresh); oi_channels := Some refresh; oi_autoSetup := Some true;
     oi_autoSelectNotes := Some SelectNaive; oi_registryConst := None; oi_provingBlockId := None |}.

(** [prove]: the core proves (or simulates) the collected actions on the stored registry; the registry that is
    saved, if any, is the second result. *)
Definition prove {R P : Type} (execute simulate : R -> Actions -> ExecuteOptions -> result sdk_error (P * R))
  (anonymizerAddress : option BigNumberish) (user : Z) (actions : list Strk20Action) (simulated : bool) (registry : R)
  : result sdk_error P * option R :=
  match translate anonymizerAddress user actions with
  | Err e => (Err e, None)
  | Ok b =>
      let '(collected, options) := collectActionsAndOptions prover_options no_options b in
      if simulated then
        match simulate registry collected options with Ok (p, _) => (Ok p, None) | Err e => (Err e, None) end
      else
        match execute registry collected options with Ok (p, r) => (Ok p, Some r) | Err e => (Err e, None) end
  end.
End Prover.

(** ** Placeholders are read back *)

Lemma until_bracket_digits s : all_decimal s = true -> until_bracket (s +:+ "]}") = Some s.
Proof.
  induction s as [|c s IH]; [done|]. cbn [all_decimal]. intros [Hc Hs]%andb_prop. specialize (IH Hs).
  change (String c s +:+ "]}") with (String c (s +:+ "]}")).
  destruct (decide (c = "]"%char)) as [->|Hne]; [discriminate Hc|].
  assert (Hgo : until_bracket (String c (s +:+ "]}")) = if is_decimal c then String c <$> until_bracket (s +:+ "]}") else None).
  { cbn. destruct c as [[] [] [] [] [] [] [] []]; try reflexivity; done. }
  by rewrite Hgo, Hc, IH.
Qed.

Lemma index_digits n : all_decimal (bigint_toString 10 (Z.of_nat n)) = true /\ bigint_toString 10 (Z.of_nat n) <> "" /\
  parse_digits 10 (bigint_toString 10 (Z.of_nat n)) 0 = Some (Z.of_nat n).
Proof.
  pose proof (parse_bigint_toString 10 (Z.of_nat n) ltac:(lia) ltac:(lia)) as Hp. revert Hp. unfold bigint_toString.
  rewrite (proj2 (Z.ltb_ge _ _)) by lia. intros Hp. split_and!; [by apply to_digits_decimal| |done].
  destruct (to_digits_cons (Z.to_nat (Z.log2 (Z.abs (Z.of_nat n)))) 10 (Z.abs (Z.of_nat n)) "") as (c & s & ->). done.
Qed.

Lemma substring_all s : String.substring 0 (String.length s) s = s.
Proof. induction s as [|c s IH]; [done|]. cbn. by rewrite IH. Qed.
Lemma substring_long n s : String.substring 0 (n + String.length s) s = s.
Proof.
  revert n. induction s as [|c s IH]; intros n; [by destruct n|]. rewrite Nat.add_comm. cbn. rewrite Nat.add_comm. by rewrite IH.
Qed.

Lemma substring_skip p s n : String.substring (String.length p) n (p +:+ s) = String.substring 0 n s.
Proof. induction p as [|c p IH]; [done|]. cbn [String.length String.append]. exact IH. Qed.

Lemma placeholder_digits n : OPEN_NOTE_PLACEHOLDER (openNotePlaceholder n) = Some (bigint_toString 10 (Z.of_nat n)).
Proof.
  destruct (index_digits n) as (Hd & Hne & _). unfold OPEN_NOTE_PLACEHOLDER, openNotePlaceholder.
  set (digits := bigint_toString 10 (Z.of_nat n)) in *.
  rewrite prefix_append.
  pose proof (substring_skip "${openNoteIds[" (digits +:+ "]}") (14 + String.length (digits +:+ "]}"))) as Hskip.
  rewrite substring_long in Hskip. rewrite length_append. change (String.length "${openNoteIds[") with 14%nat in *.
  rewrite Hskip, until_bracket_digits by done. by destruct digits.
Qed.

(** ** What is proved is what was asked for *)

(** The notes, deposits and withdrawals of an action at a token. *)
Definition numeric (s : string) : Z := default 0 (toBigInt (BN_string s)).
Definition action_notes (token : Z) (a : Strk20Action) : list CreateNoteAction :=
  match a with
  | STransfer t amount recipient =>
      if decide (numeric t = token)
      then [{| cn_recipient := numeric recipient; cn_token := token;
               cn_amount := if String.eqb amount OPEN then Open else AnAmount (numeric amount) |}] else []
  | _ => []
  end.
Definition action_deposits (token : Z) (a : Strk20Action) : list DepositAction :=
  match a with
  | SDeposit t amount => if decide (numeric t = token) then [{| dep_token := token; dep_amount := numeric amount; dep_noteId := None |}] else []
  | _ => []
  end.
Definition action_withdraws (token : Z) (a : Strk20Action) : list WithdrawAction :=
  match a with
  | SWithdraw t amount recipient =>
      if decide (numeric t = token) then [{| wd_recipient := numeric recipient; wd_token := token; wd_amount := numeric amount |}] else []
  | _ => []
  end.

Section Translation.
Context `{Platform} `{AnonymizerCoder} `{StarknetNum} (anonymizerAddress : option BigNumberish) (user : Z).

Lemma number_ok s z : number s = Ok z -> numeric s = z.
Proof. unfold number, toBigInt_or_throw, numeric. destruct (toBigInt (BN_string s)); [|done]. by intros [= ->]. Qed.

Local Ltac at_token t :=
  unfold asked_for, action_notes, action_deposits, action_withdraws, is_invoke_phase, invoke_calls;
  case_match; try congruence; subst; try done; repeat case_match; done.

Lemma translate_op a op token : translate_action anonymizerAddress user a = Ok op ->
  asked_for adds_createNotes token op = action_notes token a /\
  asked_for adds_deposits token op = action_deposits token a /\
  asked_for (adds_withdraws user) token op = action_withdraws token a /\
  invoke_calls op = (if is_invoke_phase a then 1 else 0)%nat.
Proof.
  destruct a as [t amount|t amount r|t amount r|c data|c cd data|d n calls policy]; cbn [translate_action].
  - intros (tz & <-%number_ok & Hop)%bind_ok. apply bind_ok in Hop as (az & <-%number_ok & [= <-]). at_token t.
  - intros (tz & <-%number_ok & Hop)%bind_ok. apply bind_ok in Hop as (az & <-%number_ok & Hop).
    apply bind_ok in Hop as (rz & <-%number_ok & [= <-]). at_token t.
  - intros (tz & <-%number_ok & Hop)%bind_ok. apply bind_ok in Hop as (az & Ha & Hop).
    apply bind_ok in Hop as (rz & <-%number_ok & [= <-]). cbn. destruct (String.eqb amount OPEN) eqn:Hopen.
    + injection Ha as <-. at_token t.
    + destruct (number amount) as [z|] eqn:Hz; [|done]. apply number_ok in Hz as <-. injection Ha as <-. at_token t.
  - by intros [= <-].
  - by intros [= <-].
  - intros (b & _ & Hop)%bind_ok. apply bind_ok in Hop as (p & _ & Hop). unfold shadow_invoke in Hop.
    destruct (toBigInt (BN_string n)); [|done]. by injection Hop as <-.
Qed.

(** Translating is running the translated calls. *)
Lemma translate_runs actions b b' :
  fold_result (fun b action => op ← translate_action anonymizerAddress user action; run_op user b op) actions b = Ok b' ->
  exists ops, Forall2 (fun a op => translate_action anonymizerAddress user a = Ok op) actions ops /\
    fold_result (run_op user) ops b = Ok b'.
Proof.
  revert b. induction actions as [|a actions IH]; intros b Hrun; cbn in Hrun.
  - exists []. split; [constructor|exact Hrun].
  - destruct (translate_action anonymizerAddress user a) as [op|] eqn:Hop; [|done]. cbn in Hrun.
    destruct (run_op user b op) as [b1|] eqn:Hb; [|done]. cbn in Hrun. destruct (IH _ Hrun) as (ops & Hops & Hr).
    exists (op :: ops). split; [by constructor|]. cbn. by rewrite Hb.
Qed.

Lemma asked_translated {X} (adds : Z -> token_op -> list X) (of_action : Z -> Strk20Action -> list X) token actions ops :
  (forall a op, translate_action anonymizerAddress user a = Ok op -> asked_for adds token op = of_action token a) ->
  Forall2 (fun a op => translate_action anonymizerAddress user a = Ok op) actions ops ->
  flat_map (asked_for adds token) ops = flat_map (of_action token) actions.
Proof. intros Hone. induction 1 as [|a op actions ops Hop _ IH]; [done|]. cbn. by rewrite IH, (Hone a op Hop). Qed.
End Translation.

(** C22: What the client proves is what the dapp asked for: when the actions translate, the batch that the core
    compiles holds for every token exactly the notes, deposits and withdrawals of the actions on that token, in
    their order, and at most one of the actions is an invoke. An open-note placeholder is replaced by the
    id of the open note at its index in the compiled batch, one past the last note throws, and the
    pool placeholder is replaced by the address of the pool. *)
Theorem client_batch_is_faithful `{Platform} `{AnonymizerCoder} `{StarknetNum}
  (anonymizerAddress : option BigNumberish) (user : Z) (actions : list Strk20Action) (b : PrivateTransfersBuilder) :
  translate anonymizerAddress user actions = Ok b ->
  let a := collectActions b in
  (forall token,
     filter (fun x => cn_token x = token) (default [] (createNotes a)) = flat_map (action_notes token) actions /\
     filter (fun x => dep_token x = token) (default [] (deposits a)) = flat_map (action_deposits token) actions /\
     filter (fun x => wd_token x = token) (default [] (withdraws a)) = flat_map (action_withdraws token) actions) /\
  (length (List.filter is_invoke_phase actions) <= 1)%nat /\
  (forall args n, match args_openNotes args !! n with
     | Some note => substitute (openNotePlaceholder n) args = Ok (sn_toHex (ion_noteId note))
     | None => exists e, substitute (openNotePlaceholder n) args = Err e
     end) /\
  (forall args, substitute poolPlaceholder args = Ok (sn_toHex (args_poolAddress args))).
Proof.
  intros Ht a. apply translate_runs in Ht as (ops & Hops & Hrun). split_and!.
  - intros token. destruct (collected_at_token user ops b token Hrun) as (_ & _ & Hd & Hc & Hw).
    subst a. rewrite Hd, Hc, Hw. split_and!; (eapply asked_translated; [|exact Hops]); intros x op Hx.
    all: by apply (translate_op _ _ x op token) in Hx as (? & ? & ? & _).
  - pose proof (run_ops_queued user ops new_PrivateTransfersBuilder ltac:(cbn; lia)) as Hq. rewrite Hrun in Hq. destruct Hq as [Heq Hle].
    assert (Hsum : list_sum (map invoke_calls ops) = length (List.filter is_invoke_phase actions)).
    { clear -Hops. induction Hops as [|x op actions ops Hop _ IH]; [done|]. apply (translate_op _ _ x op 0) in Hop as (_ & _ & _ & Hi).
      cbn. rewrite Hi. unfold list_sum in IH. destruct (is_invoke_phase x); cbn; lia. }
    cbn in Heq. lia.
  - intros args n. unfold substitute. rewrite placeholder_digits. destruct (index_digits n) as (_ & _ & ->). rewrite Nat2Z.id.
    destruct (args_openNotes args !! n); [done|by eexists].
  - done.
Qed.

(** A withdrawal of token 6, an open note of token 5, an open note of token 6 and an invoke that hands
    both placeholders to its contract. *)
Definition sample_client_ops : list client_op :=
  [CWithdraw (BN_number 6) (BN_number 1) (BN_number 9); COpenNote (BN_number 5); COpenNote (BN_number 6);
   CInvoke (fun args => Ok {| id_contractAddress := BN_string "0x9"; id_calldata := Some (openNoteIds args) |})].
Definition sample_actions : list Strk20Action := pb_actions (@run_client toy_num (BN_number 7) sample_client_ops new_PrivacyBuilder).
Definition sample_translation : result sdk_error PrivateTransfersBuilder :=
  @translate toy_platform toy_anonymizer toy_num None 7 sample_actions.

Lemma client_batch_is_faithful_witness : exists b, sample_translation = Ok b /\
  filter (fun x => cn_token x = 6) (default [] (createNotes (collectActions b))) = [{| cn_recipient := 7; cn_token := 6; cn_amount := Open |}].
Proof.
  destruct sample_translation as [b|e] eqn:Hb; [|discriminate Hb]. exists b. split; [done|].
  destruct (@client_batch_is_faithful toy_platform toy_anonymizer toy_num None 7 sample_actions b Hb) as [Hcollected _].
  destruct (Hcollected 6) as [-> _]. reflexivity.
Defined.

(** The client numbers open notes in the order of its calls, the core creates notes token by token, a token
    being placed where it is first mentioned: here [openNoteIds[0]] was handed out for the open note of
    token 5 and resolves to the note of token 6. *)
Example open_note_placeholders_swap : exists b, sample_translation = Ok b /\
  map (fun a => match a with STransfer token _ _ => Some token | _ => None end) (List.filter is_open_note sample_actions)
    = [Some "0x5"; Some "0x6"] /\
  map cn_token (default [] (createNotes (collectActions b))) = [6; 5].
Proof. destruct sample_translation as [b|e] eqn:Hb; [|discriminate Hb]. exists b. injection Hb as <-. by vm_compute. Qed.
