(* ===== verification/ProofInvocation.v ===== *)
(** * Proof invocations ([sdk/src/internal/proof-invocation-factory.ts], [serialization.ts])

    The transaction that the SDK hands to the prover: one signed [__execute__] that wraps one call of
    [compile_actions]. The ABI coder of starknet.js and the signer are classes. What the interceptor
    ([PoolTransaction.v]) and the mock prover read out of it is what the factory put in. *)
From Stdlib Require Import Ascii ZArith Lia QArith.
From stdpp Require Import base tactics list strings.
From S2P Require Import Prelude Convert Crypto Interfaces Compiler PoolTransaction StarknetCalls MockPool ProvingService.

Local Open Scope string_scope.
Local Open Scope Z_scope.

(** ** [toHex] of any spelling ([utils/convert.ts]) *)

(** [encode.buf2hex(encode.utf8ToArray(value))]: two digits per character. *)
Fixpoint text_hex (s : string) : string :=
  match s with
  | EmptyString => EmptyString
  | String c s => let n := Z.of_nat (nat_of_ascii c) in String (digit_char (n / 16)) (String (digit_char (n mod 16)) (text_hex s))
  end.

Definition spelled_like_a_number (s : string) : bool :=
  match s with
  | EmptyString => false
  | String "0" (String "x" _) | String "0" (String "X" _) => true
  | _ => all_decimal s
  end.

Definition toHex_of (v : BigNumberish) : result sdk_error string :=
  match v with
  | BN_bigint z | BN_number z => Ok (toHex z)
  | BN_string s => if spelled_like_a_number s then toHex <$> toBigInt_or_throw (BN_string s) else Ok ("0x" +:+ text_hex s)
  end.

(** ** Serialization *)

(** A [CairoCustomEnum]: its variants in order, [Some] for the active one. *)
Definition CairoEnum : Type := list (ClientActionType * option ClientAction).

Definition toCairoEnum (action : ClientAction) : CairoEnum :=
  map (fun variant => (variant, if bool_decide (variant = action_type action) then Some action else None)) CLIENT_ACTION_TYPES.
Definition serializeClientActions (actions : list ClientAction) : list CairoEnum := map toCairoEnum actions.

(** The active variants of an enum. *)
Definition active (e : CairoEnum) : list (ClientActionType * ClientAction) :=
  omap (fun v => (fun a => (v.1, a)) <$> v.2) e.

(** ** starknet.js *)

(** [new CallData(PrivacyPoolABI)].compile of the two entry points, which throw on what is no felt. *)
Class PoolAbi := {
  compile_compile_actions : Z -> Z -> list CairoEnum -> result sdk_error (list string);
  compile_execute : string -> string -> list string -> result sdk_error (list string)
}.

(** What is documented of them: the arguments are felts in their order, an array after its length. *)
Class PoolAbiLaws `{PoolAbi} `{StarknetNum} : Prop := {
  compile_actions_layout : forall user key actions data, compile_compile_actions user key actions = Ok data ->
    exists felts, felts <> [] /\ Forall (fun z => 0 <= z) felts /\ mapM BigInt_of_string data = Some (user :: key :: felts);
  execute_layout : forall to selector data out, compile_execute to selector data = Ok out ->
    exists t s felts, BigInt_of_string to = Some t /\ 0 <= s /\ mapM BigInt_of_string data = Some felts /\
      mapM BigInt_of_string out = Some (1 :: t :: s :: Z.of_nat (length data) :: felts);
  execute_spells : forall to selector data out, compile_execute to selector data = Ok out -> Forall (fun x => spelled_like_a_number x = true) out
}.

(** The action the interceptor's decoder reports for the active variant of an enum: its kind is that of
    the variant, its fields are those of the payload ([None] when the payload has no such fields). *)
Definition variant_action (v : ClientActionType * ClientAction) : option PoolAction :=
  match v with
  | (TDeposit, _) => Some PDeposit
  | (TCreateOpenNote, _) => Some PCreateOpenNote
  | (TInvokeExternal, AInvokeExternal contract _) => Some (PInvokeExternal contract)
  | (TComputeAndInvoke, AComputeAndInvoke contract compute invoke) => Some (PComputeAndInvoke contract compute invoke)
  | (TInvokeExternal, _) | (TComputeAndInvoke, _) => None
  | _ => Some POther
  end.

(** Of an enum, which has exactly one active variant. *)
Definition enum_action (e : CairoEnum) : option PoolAction :=
  match active e with [v] => variant_action v | _ => None end.

(** The coders of both sides work on the same ABI: the decoder reads from the felts after the user and the
    key the enums that were compiled, in their order. *)
Class PoolAbiRoundTrip `{PoolAbi} `{PoolCoder} : Prop :=
  enums_read_back : forall user key enums data felts, compile_compile_actions user key enums = Ok data ->
    mapM BigInt_of_string data = Some (user :: key :: felts) ->
    exists decoded, mapM enum_action enums = Some decoded /\ decode_actions (map toHex felts) = Some decoded.

(** ** The details *)

Record GasBounds : Type := { max_amount : Z; max_price_per_unit : Z }.
Record ResourceBounds : Type := { l1_gas : GasBounds; l2_gas : GasBounds; l1_data_gas : option GasBounds }.

(** [ProofInvocationFactoryDetails]. *)
Record ProofDetails : Type := {
  pd_nonce : option BigNumberish;
  pd_resourceBounds : option ResourceBounds;
  pd_tip : option BigNumberish;
  pd_paymasterData : option (list BigNumberish);
  pd_accountDeploymentData : option (list BigNumberish);
  pd_nonceDataAvailabilityMode : option string;
  pd_feeDataAvailabilityMode : option string;
  pd_skipValidate : bool;
  pd_chainId : string }.

Definition DEFAULT_L2_GAS_MAX_AMOUNT : Z := 100000000.
Definition PROOF_INVOCATION_NONCE : Z := 0.

Definition getDefaultProofDetails (chainId : string) : ProofDetails := {|
  pd_nonce := Some (BN_bigint PROOF_INVOCATION_NONCE);
  pd_resourceBounds := Some {|
    l1_gas := {| max_amount := 1; max_price_per_unit := 0 |};
    l2_gas := {| max_amount := DEFAULT_L2_GAS_MAX_AMOUNT; max_price_per_unit := 0 |};
    l1_data_gas := Some {| max_amount := 1; max_price_per_unit := 0 |} |};
  pd_tip := Some (BN_bigint 0);
  pd_paymasterData := Some [];
  pd_accountDeploymentData := Some [];
  pd_nonceDataAvailabilityMode := Some "L1";
  pd_feeDataAvailabilityMode := Some "L1";
  pd_skipValidate := true;
  pd_chainId := chainId |}.

(** [INVOKE_TXN_V3]; type and version are constants. *)
Record ProofInvocation : Type := {
  pi_type : string;
  sender_address : string;
  pi_calldata : list string;
  pi_signature : list string;
  pi_nonce : string;
  resource_bounds : (string * string) * (string * string) * (string * string);
  pi_tip : string;
  paymaster_data : list string;
  account_deployment_data : list string;
  nonce_data_availability_mode : string;
  fee_data_availability_mode : string;
  pi_version : string }.

(** ** The factory *)

(** What the signer is given: the call, the wallet it is for and the details. *)
Record SignRequest : Type := { sr_calls : list Call; sr_walletAddress : string; sr_nonce : Z; sr_details : ProofDetails }.

(** [SignerInterface.signTransaction] followed by [stark.formatSignature]. *)
Class ProofSigner := signTransaction : SignRequest -> result sdk_error (list string).

Definition hex_bounds (b : GasBounds) : string * string := (toHex (max_amount b), toHex (max_price_per_unit b)).
Definition no_gas : GasBounds := {| max_amount := 0; max_price_per_unit := 0 |}.
Definition no_bounds : ResourceBounds := {| l1_gas := no_gas; l2_gas := no_gas; l1_data_gas := Some no_gas |}.

Section Factory.
Context `{PoolAbi} `{StarknetNum} `{ProofSigner}.

Definition compileExecuteCalldata (poolAddress : string) (executeViewCalldata : list string) : result sdk_error (list string) :=
  compile_execute poolAddress (getSelectorFromName "compile_actions") executeViewCalldata.

(** [ProofUser]: the address as it is given; the signer is the class. *)
Definition create (address : BigNumberish) (viewingKey : Z) (poolAddress : BigNumberish) (clientActions : list ClientAction)
  (details : ProofDetails) : result sdk_error ProofInvocation :=
  let cairoActions := serializeClientActions clientActions in
  userAddress ← toBigInt_or_throw address;
  poolAddressHex ← toHex_of poolAddress;
  executeViewCalldata ← compile_compile_actions userAddress viewingKey cairoActions;
  compiled ← compileExecuteCalldata poolAddressHex executeViewCalldata;
  compiledCalldata ← mapM (fun v => toHex_of (BN_string v)) compiled;
  nonce ← toBigInt_or_throw (default (BN_bigint PROOF_INVOCATION_NONCE) (pd_nonce details));
  signature ← signTransaction {|
    sr_calls := [{| contractAddress := poolAddressHex; entrypoint := "compile_actions";
                    calldata := Some (map BN_string executeViewCalldata) |}];
    sr_walletAddress := poolAddressHex; sr_nonce := nonce; sr_details := details |};
  let rb := default no_bounds (pd_resourceBounds details) in
  tip ← toHex_of (default (BN_bigint 0) (pd_tip details));
  paymaster ← mapM toHex_of (default [] (pd_paymasterData details));
  deployment ← mapM toHex_of (default [] (pd_accountDeploymentData details));
  Ok {| pi_type := "INVOKE"; sender_address := poolAddressHex; pi_calldata := compiledCalldata; pi_signature := signature;
        pi_nonce := toHex nonce;
        resource_bounds := (hex_bounds (l1_gas rb), hex_bounds (l2_gas rb), hex_bounds (default no_gas (l1_data_gas rb)));
        pi_tip := tip; paymaster_data := paymaster; account_deployment_data := deployment;
        nonce_data_availability_mode := default "L1" (pd_nonceDataAvailabilityMode details);
        fee_data_availability_mode := default "L1" (pd_feeDataAvailabilityMode details);
        pi_version := "0x3" |}.
End Factory.

(** [Array.prototype.slice]: negative bounds count from the end. *)
Definition js_slice {A} (start end_ : Z) (l : list A) : list A :=
  let len := Z.of_nat (length l) in
  let clamp i := if i <? 0 then Z.max (len + i) 0 else Z.min i len in
  take (Z.to_nat (clamp end_ - clamp start)) (drop (Z.to_nat (clamp start)) l).

Definition extractExecuteViewCalldata (executeCalldata : list string) : result sdk_error (list string) :=
  match executeCalldata !! 3%nat with
  | None => Err JsTypeError
  | Some s => innerCalldataLength ← toBigInt_or_throw (BN_string s); Ok (js_slice 4 (4 + innerCalldataLength) executeCalldata)
  end.

(** ** Serialization keeps the action *)

Lemma toCairoEnum_active action : active (toCairoEnum action) = [(action_type action, action)].
Proof. by destruct action. Qed.

(** What the interceptor is to see of a client action. *)
Definition intercepted (action : ClientAction) : PoolAction :=
  match action with
  | ADeposit _ _ => PDeposit
  | ACreateOpenNote _ _ _ _ _ => PCreateOpenNote
  | AInvokeExternal contract _ => PInvokeExternal contract
  | AComputeAndInvoke contract compute invoke => PComputeAndInvoke contract compute invoke
  | _ => POther
  end.

Lemma serialized_actions actions : mapM enum_action (serializeClientActions actions) = Some (map intercepted actions).
Proof.
  assert (Hone : forall a, enum_action (toCairoEnum a) = Some (intercepted a)).
  { intros a. unfold enum_action. rewrite toCairoEnum_active. by destruct a. }
  induction actions as [|a l IH]; [done|]. unfold serializeClientActions in *. cbn [map mapM]. by rewrite Hone, IH.
Qed.

(** ** The calldata is read back *)

Lemma hex_prefix_digits s a v : parse_digits 16 s a = Some v -> hex_prefix s = s.
Proof.
  revert a. induction s as [|c s IH]; intros a Hp; [done|]. cbn in *. destruct (char_digit c) as [d|]; [|done].
  destruct (d <? 16); [|done]. by rewrite (IH _ Hp).
Qed.

Lemma parseInt16_toHex z : 0 <= z -> parseInt16 (toHex z) = Some z.
Proof.
  intros Hz. pose proof (parse_bigint_toString 16 z ltac:(lia) Hz) as Hp. unfold parseInt16, toHex.
  change (trim_start ("0x" +:+ bigint_toString 16 z)) with (String "0" (String "x" (bigint_toString 16 z))). cbv iota zeta beta.
  rewrite (hex_prefix_digits _ _ _ Hp). revert Hp. unfold bigint_toString. rewrite (proj2 (Z.ltb_ge z 0)) by lia.
  destruct (to_digits_cons (Z.to_nat (Z.log2 (Z.abs z))) 16 (Z.abs z) "") as (c & s & ->). intros Hp.
  change (parse_radix 16 (String c s)) with (parse_digits 16 (String c s) 0). rewrite Hp. cbn. by rewrite Z.mul_1_l.
Qed.

Lemma toHex_of_number s z : spelled_like_a_number s = true -> BigInt_of_string s = Some z -> toHex_of (BN_string s) = Ok (toHex z).
Proof. intros Hs Hz. unfold toHex_of, toBigInt_or_throw, toBigInt. by rewrite Hs, Hz. Qed.

Lemma mapM_toHex_of l zs : Forall (fun s => spelled_like_a_number s = true) l -> mapM BigInt_of_string l = Some zs ->
  mapM (fun v => toHex_of (BN_string v)) l = Ok (map toHex zs).
Proof.
  intros Hs. revert zs. induction Hs as [|s l Hs _ IH]; intros zs Hz; [by injection Hz as <-|].
  apply mapM_Some_1 in Hz. inversion Hz as [|? z ? zs' Hone Hrest]; subst. specialize (IH zs' (mapM_Some_2 _ _ _ Hrest)).
  cbn [mapM]. rewrite (toHex_of_number s z Hs Hone). cbn [mbind result_bind]. by rewrite IH.
Qed.

Lemma js_slice_inner {A} (before inner : list A) : 0 <= Z.of_nat (length before) ->
  js_slice (Z.of_nat (length before)) (Z.of_nat (length before) + Z.of_nat (length inner)) (before ++ inner) = inner.
Proof.
  intros _. unfold js_slice. rewrite length_app. rewrite (proj2 (Z.ltb_ge (Z.of_nat (length before)) 0)) by lia.
  rewrite (proj2 (Z.ltb_ge (_ + _) 0)) by lia. rewrite !Z.min_l by lia. rewrite Nat2Z.id, drop_app_length.
  apply take_ge. lia.
Qed.

Section ReadBack.
Context `{PoolAbiLaws} `{ProofSigner}.

(** What an invocation carries. *)
Lemma create_calldata address key pool actions details inv :
  create address key pool actions details = Ok inv ->
  exists user t s felts data, toBigInt address = Some user /\ felts <> [] /\ Forall (fun z => 0 <= z) felts /\ 0 <= s /\
    toHex_of pool = Ok (sender_address inv) /\ BigInt_of_string (sender_address inv) = Some t /\
    compile_compile_actions user key (serializeClientActions actions) = Ok data /\
    mapM BigInt_of_string data = Some (user :: key :: felts) /\
    pi_calldata inv = map toHex (1 :: t :: s :: Z.of_nat (2 + length felts) :: user :: key :: felts).
Proof.
  unfold create, compileExecuteCalldata. intros (user & Hu & Hc)%bind_ok. apply bind_ok in Hc as (to & Hto & Hc).
  apply bind_ok in Hc as (data & Hdata & Hc). apply bind_ok in Hc as (out & Hout & Hc).
  apply bind_ok in Hc as (compiled & Hcomp & Hc). apply bind_ok in Hc as (nonce & _ & Hc). apply bind_ok in Hc as (sig & _ & Hc).
  apply bind_ok in Hc as (tip & _ & Hc). apply bind_ok in Hc as (pm & _ & Hc). apply bind_ok in Hc as (dep & _ & Hc).
  injection Hc as <-. cbn [sender_address pi_calldata].
  destruct (compile_actions_layout _ _ _ _ Hdata) as (felts & Hne & Hpos & Hfelts).
  destruct (execute_layout _ _ _ _ Hout) as (t & s & inner & Ht & Hs & Hinner & Hlayout).
  rewrite Hfelts in Hinner. injection Hinner as <-.
  rewrite (mapM_toHex_of _ _ (execute_spells _ _ _ _ Hout) Hlayout) in Hcomp. injection Hcomp as <-.
  assert (Hlen : length data = (2 + length felts)%nat).
  { by apply length_mapM in Hfelts. }
  exists user, t, s, felts, data. split_and!; try done.
  - unfold toBigInt_or_throw in Hu. destruct (toBigInt address); congruence.
  - by rewrite Hlen.
Qed.
End ReadBack.

(** What the parties read of an invocation of the SDK. *)
Lemma invocation_reads_back `{PoolAbiLaws} `{ProofSigner} `{PoolCoder} (address pool : BigNumberish) (key : Z)
  (actions : list ClientAction) (details : ProofDetails) (inv : ProofInvocation) (user p : Z) (spelling : string) :
  create address key pool actions details = Ok inv ->
  toBigInt address = Some user -> 0 <= user -> 0 <= key ->
  toHex_of pool = Ok (toHex p) -> 0 <= p -> hex_value spelling = Some p ->
  exists felts data,
    compile_compile_actions user key (serializeClientActions actions) = Ok data /\
    mapM BigInt_of_string data = Some (user :: key :: felts) /\
    extractExecuteViewCalldata (pi_calldata inv) = Ok (map toHex (user :: key :: felts)) /\
    isSinglePoolCall {| tx_calldata := pi_calldata inv |} spelling = true /\
    decodeClientActions {| tx_calldata := pi_calldata inv |} spelling =
      (decoded ← decode_actions (map toHex felts);
       Some {| userAddress := toHex user; viewingKey := Some key; pc_actions := decoded |}).
Proof.
  intros Hc Hu Hu0 Hk0 Hp Hp0 Hsp.
  destruct (create_calldata _ _ _ _ _ _ Hc) as (user' & t & s & felts & data & Hu' & Hne & Hpos & Hs & Hto & Ht & Hdata & Hfelts & Hcd).
  rewrite Hu in Hu'. injection Hu' as <-. rewrite Hp in Hto. injection Hto as Hsender. rewrite <- Hsender, BigInt_toHex in Ht by done.
  injection Ht as <-. exists felts, data. rewrite Hcd.
  assert (Hinner : forall X (f : Z -> X), length (map f (user :: key :: felts)) = (2 + length felts)%nat) by (intros; cbn; by rewrite length_map).
  assert (Hsingle : isSinglePoolCall {| tx_calldata := map toHex (1 :: p :: s :: Z.of_nat (2 + length felts) :: user :: key :: felts) |} spelling = true).
  { unfold isSinglePoolCall. cbn [tx_calldata map]. rewrite !normalizeFelt_toHex by lia.
    destruct (normalizeFelt_value _ _ Hsp) as [_ ->]. rewrite (bool_decide_true (toHex p = toHex p)) by done.
    cbn [length]. rewrite length_map. destruct felts as [|z felts]; [done|]. reflexivity. }
  split_and!; [done|done| |exact Hsingle|].
  - unfold extractExecuteViewCalldata. cbn [map lookup list_lookup].
    unfold toBigInt_or_throw, toBigInt. rewrite BigInt_toHex by lia. unfold mbind, result_bind. f_equal.
    pose proof (js_slice_inner (map toHex [1; p; s; Z.of_nat (2 + length felts)]) (map toHex (user :: key :: felts)) ltac:(lia)) as Hsl.
    rewrite Hinner in Hsl. exact Hsl.
  - unfold decodeClientActions. rewrite Hsingle. cbn [tx_calldata map lookup list_lookup].
    change (Some (toHex (Z.of_nat (2 + length felts))) ≫= parseInt16) with (parseInt16 (toHex (Z.of_nat (2 + length felts)))).
    rewrite parseInt16_toHex by lia. unfold mbind at 1, option_bind at 1.
    destruct (Z.ltb_spec (Z.of_nat (2 + length felts)) 3) as [Hlt|_]; [destruct felts; [done|cbn in Hlt; lia]|].
    rewrite Nat2Z.id || rewrite Z2Nat.id by lia.
    assert (Hslice : slice 4 (4 + (2 + length felts)) (toHex 1 :: toHex p :: toHex s :: toHex (Z.of_nat (2 + length felts)) :: map toHex (user :: key :: felts))
      = map toHex (user :: key :: felts)).
    { unfold slice. cbn [drop]. rewrite take_ge; [done|]. rewrite drop_0, Hinner. lia. }
    cbn [map] in Hslice. rewrite Hslice. change (drop 2 (toHex user :: toHex key :: map toHex felts)) with (map toHex felts).
    destruct (decode_actions (map toHex felts)); [|done]. cbn [mbind option_bind lookup list_lookup].
    unfold parseFelt. by rewrite normalizeFelt_toHex, BigInt_toHex.
Qed.

(** C14: whatever the SDK has its prover prove, the parties that read the transaction read the client
    actions it was built from. The mock prover extracts from the [__execute__] calldata exactly the felts
    of [compile_actions]: the user, the viewing key and the encoded actions. The interceptor, however
    the operator spells the address of the pool, takes the transaction for a call of that pool and decodes
    from it the same user, the same key, and for every client action, in order and none left out, its kind
    and the fields it reads of that kind. The ABI coders of the SDK and of the interceptor are assumed to
    agree on the enums they are given; user, key and pool address are non-negative. *)
Theorem sdk_invocations_are_recognised `{PoolAbiLaws} `{ProofSigner} `{PoolCoder} `{!PoolAbiRoundTrip}
  (address pool : BigNumberish) (key : Z)
  (actions : list ClientAction) (details : ProofDetails) (inv : ProofInvocation) (user p : Z) (spelling : string) :
  create address key pool actions details = Ok inv ->
  toBigInt address = Some user -> 0 <= user -> 0 <= key ->
  toHex_of pool = Ok (toHex p) -> 0 <= p -> hex_value spelling = Some p ->
  (exists felts data,
    compile_compile_actions user key (serializeClientActions actions) = Ok data /\
    mapM BigInt_of_string data = Some (user :: key :: felts) /\
    extractExecuteViewCalldata (pi_calldata inv) = Ok (map toHex (user :: key :: felts)) /\
    decode_actions (map toHex felts) = Some (map intercepted actions)) /\
  isSinglePoolCall {| tx_calldata := pi_calldata inv |} spelling = true /\
  decodeClientActions {| tx_calldata := pi_calldata inv |} spelling =
    Some {| userAddress := toHex user; viewingKey := Some key; pc_actions := map intercepted actions |}.
Proof.
  intros Hc Hu Hu0 Hk0 Hp Hp0 Hsp.
  destruct (invocation_reads_back _ _ _ _ _ _ _ _ _ Hc Hu Hu0 Hk0 Hp Hp0 Hsp) as (felts & data & Hd & Hf & He & Hs & Hdec).
  destruct (enums_read_back _ _ _ _ _ Hd Hf) as (decoded & Hen & Hread). rewrite serialized_actions in Hen. injection Hen as <-.
  rewrite Hread in Hdec. split_and!; [|done|exact Hdec]. by exists felts, data.
Qed.

(** ** A coder that spells felts in hexadecimal *)

(** It writes the number of the actions, and of each its kind and the fields the interceptor reads. *)
Definition toy_write_action (a : PoolAction) : list Z :=
  match a with
  | PDeposit => [0]
  | PCreateOpenNote => [1]
  | PInvokeExternal c => [2; c]
  | PComputeAndInvoke c x y => (3 :: c :: Z.of_nat (length x) :: x ++ Z.of_nat (length y) :: y)%list
  | POther => [4]
  end.

Fixpoint toy_read_actions (count : nat) (felts : list Z) : option (list PoolAction) :=
  match count with
  | O => match felts with [] => Some [] | _ => None end
  | S count =>
      match felts with
      | 0 :: l => cons PDeposit <$> toy_read_actions count l
      | 1 :: l => cons PCreateOpenNote <$> toy_read_actions count l
      | 2 :: c :: l => cons (PInvokeExternal c) <$> toy_read_actions count l
      | 3 :: c :: n :: l =>
          match drop (Z.to_nat n) l with
          | m :: r => cons (PComputeAndInvoke c (take (Z.to_nat n) l) (take (Z.to_nat m) r)) <$> toy_read_actions count (drop (Z.to_nat m) r)
          | [] => None
          end
      | 4 :: l => cons POther <$> toy_read_actions count l
      | _ => None
      end
  end.

Lemma toy_read_written l : toy_read_actions (length l) (concat (map toy_write_action l)) = Some l.
Proof.
  induction l as [|a l IH]; [done|]. cbn [length map concat]. destruct a as [| |c|c x y|]; cbn -[Z.of_nat]; try by rewrite IH.
  rewrite <- app_assoc, Nat2Z.id, drop_app_length, take_app_length. cbn [app].
  by rewrite Nat2Z.id, drop_app_length, take_app_length, IH.
Qed.

Definition non_negative (l : list Z) : bool := forallb (fun z => 0 <=? z) l.
Definition toy_abi : PoolAbi := {|
  compile_compile_actions user key actions :=
    match mapM enum_action actions with
    | Some decoded =>
        let felts := user :: key :: Z.of_nat (length decoded) :: concat (map toy_write_action decoded) in
        if non_negative felts then Ok (map toHex felts) else Err JsTypeError
    | None => Err JsTypeError
    end;
  compile_execute to selector data :=
    match BigInt_of_string to, BigInt_of_string selector, mapM BigInt_of_string data with
    | Some t, Some s, Some felts =>
        if non_negative (t :: s :: felts) then Ok (map toHex (1 :: t :: s :: Z.of_nat (length data) :: felts)) else Err JsTypeError
    | _, _, _ => Err JsTypeError
    end |}.

Lemma mapM_BigInt_toHex l : Forall (fun z => 0 <= z) l -> mapM BigInt_of_string (map toHex l) = Some l.
Proof. induction 1 as [|z l Hz _ IH]; [done|]. cbn. rewrite BigInt_toHex by done. cbn. by rewrite IH. Qed.

Lemma non_negative_ok l : non_negative l = true -> Forall (fun z => 0 <= z) l.
Proof. intros Hl. apply list.Forall_forall. intros z Hz%list_elem_of_In. unfold non_negative in Hl. rewrite forallb_forall in Hl. by apply Z.leb_le, Hl. Qed.

Lemma toHex_spelled l : Forall (fun x => spelled_like_a_number x = true) (map toHex l).
Proof. induction l; by constructor. Qed.

Lemma toy_abi_laws : @PoolAbiLaws toy_abi toy_num.
Proof.
  split.
  - intros user key actions data. cbn [compile_compile_actions toy_abi]. destruct (mapM enum_action actions) as [decoded|]; [|done].
    destruct (non_negative _) eqn:Hn; [|done]. intros [= <-]. apply non_negative_ok in Hn.
    inversion Hn as [|? ? ? Hk]; subst. inversion Hk; subst. eexists. split_and!; [|eassumption|].
    + done.
    + exact (mapM_BigInt_toHex (user :: key :: Z.of_nat (length decoded) :: concat (map toy_write_action decoded)) Hn).
  - intros to selector data out. cbn [compile_execute toy_abi]. destruct (BigInt_of_string to) as [t|]; [|done].
    destruct (BigInt_of_string selector) as [s|]; [|done]. destruct (mapM BigInt_of_string data) as [felts|]; [|done].
    destruct (non_negative _) eqn:Hn; [|done]. intros [= <-]. apply non_negative_ok in Hn. inversion Hn as [|? ? ? Hk]; subst. inversion Hk; subst.
    exists t, s, felts. split_and!; [done|done|done|].
    apply (mapM_BigInt_toHex (1 :: t :: s :: Z.of_nat (length data) :: felts)). repeat constructor; done || lia.
  - intros to selector data out. cbn [compile_execute toy_abi]. destruct (BigInt_of_string to); [|done].
    destruct (BigInt_of_string selector); [|done]. destruct (mapM BigInt_of_string data); [|done].
    destruct (non_negative _); [|done]. intros [= <-]. apply (toHex_spelled (1 :: _ :: _ :: _ :: _)).
Qed.

Definition toy_pool_coder : PoolCoder := {|
  decode_actions strings :=
    felts ← mapM BigInt_of_string strings;
    match felts with count :: felts => toy_read_actions (Z.to_nat count) felts | [] => None end;
  decode_compute_arguments _ := None; decode_open_notes _ := None;
  num_toHex := toHex; calculateContractAddressFromHash _ _ _ _ := 0 |}.

Lemma toy_round_trip : @PoolAbiRoundTrip toy_abi toy_pool_coder.
Proof.
  intros user key enums data felts. cbn [compile_compile_actions toy_abi]. destruct (mapM enum_action enums) as [decoded|]; [|done].
  set (rest := Z.of_nat (length decoded) :: concat (map toy_write_action decoded)).
  destruct (non_negative _) eqn:Hn; [|done]. intros Hd%Ok_inj Hf. subst data. apply non_negative_ok in Hn.
  rewrite (mapM_BigInt_toHex (user :: key :: rest) Hn) in Hf. injection Hf as <-. exists decoded. split; [done|].
  inversion Hn as [|? ? _ Hn1]; subst. inversion Hn1 as [|? ? _ Hn2]; subst.
  cbn [decode_actions toy_pool_coder]. rewrite (mapM_BigInt_toHex rest Hn2). cbn [mbind option_bind rest].
  by rewrite Nat2Z.id, toy_read_written.
Qed.

Definition toy_signer : ProofSigner := fun request => Ok [toHex (sr_nonce request)].
Definition sample_invocation_of (actions : list ClientAction) : result sdk_error ProofInvocation :=
  @create toy_abi toy_num toy_signer (BN_string "0x7") 3 (BN_string "0x0Ab") actions (getDefaultProofDetails "SN_SEPOLIA").
Definition sample_invocation : result sdk_error ProofInvocation := sample_invocation_of [ADeposit 5 17].
Definition mixed_actions : list ClientAction := [ADeposit 5 17; AWithdraw 8 5 17 0; AComputeAndInvoke 9 [4] [6; 10]].

Lemma sdk_invocations_are_recognised_witness : exists inv,
  sample_invocation_of mixed_actions = Ok inv /\
  isSinglePoolCall {| tx_calldata := pi_calldata inv |} "0XAB" = true /\
  @decodeClientActions toy_pool_coder {| tx_calldata := pi_calldata inv |} "0XAB" =
    Some {| userAddress := "0x7"; viewingKey := Some 3; pc_actions := [PDeposit; POther; PComputeAndInvoke 9 [4] [6; 10]] |}.
Proof.
  destruct (sample_invocation_of mixed_actions) as [inv|e] eqn:Hinv; [|discriminate Hinv]. exists inv. split; [reflexivity|].
  apply (@sdk_invocations_are_recognised toy_abi toy_num toy_abi_laws toy_signer toy_pool_coder toy_round_trip
    (BN_string "0x7") (BN_string "0x0Ab") 3 mixed_actions (getDefaultProofDetails "SN_SEPOLIA") inv 7 171 "0XAB"
    Hinv eq_refl ltac:(done) ltac:(done) eq_refl ltac:(done) eq_refl).
Defined.

(** ** Proof facts and the attestation suffix ([sdk/src/utils/proof-facts.ts], [sdk/src/internal/screening-calldata.ts])

    What goes on chain beside the compiled actions: the nine felts that the pool and the blockifier
    check, and the attestation that follows the actions in the calldata. Poseidon is [StarkCrypto];
    Pedersen and the encoding of a Cairo option are starknet.js. *)

(** ** Constants *)

Definition felt_of (text : string) : Z := default 0 (shortStringToFelt text).
Definition PROOF_VERSION : Z := felt_of "PROOF0".
Definition VIRTUAL_SNOS : Z := felt_of "VIRTUAL_SNOS".
Definition VIRTUAL_SNOS0 : Z := felt_of "VIRTUAL_SNOS0".
Definition VIRTUAL_PROGRAM_HASH : string := "0x3e98c2d7703b03a7edb73ed7f075f97f1dcbaa8f717cdf6e1a57bf058265473".
Definition STRK_FEE_TOKEN_ADDRESS : string := "0x04718f5a0fc34cc1af16a1cdee98ffb20c31f5cd61d6ab07201858f4287c938d".
Definition STARKNET_OS_CONFIG_HASH_VERSION : string := "0x537461726b6e65744f73436f6e66696733".

Example constants_are_text : shortStringToFelt "PROOF0" = Some PROOF_VERSION /\ shortStringToFelt "VIRTUAL_SNOS" = Some VIRTUAL_SNOS /\
  shortStringToFelt "VIRTUAL_SNOS0" = Some VIRTUAL_SNOS0 /\
  BigInt_of_string STARKNET_OS_CONFIG_HASH_VERSION = shortStringToFelt "StarknetOsConfig3".
Proof. by vm_compute. Qed.

(** ** Proof facts *)

(** [hash.computeHashOnElements], spelled in hexadecimal. *)
Class PedersenHash := computeHashOnElements : list BigNumberish -> string.

Section Facts.
Context `{StarkCrypto} `{PedersenHash}.

Definition computeVirtualOsConfigHash (chainId strkFeeTokenAddress : BigNumberish) : string :=
  computeHashOnElements [BN_string STARKNET_OS_CONFIG_HASH_VERSION; chainId; strkFeeTokenAddress].

Definition buildMessagePayload (poolClassHash : BigNumberish) (serverActionsCalldata : list string) : result sdk_error (list string) :=
  class_hash ← toHex_of poolClassHash; Ok (class_hash :: serverActionsCalldata).

Definition computeMessageHash (poolAddress poolClassHash : BigNumberish) (serverActionsCalldata : list string) : result sdk_error Z :=
  messagePayload ← buildMessagePayload poolClassHash serverActionsCalldata;
  pool ← toBigInt_or_throw poolAddress;
  felts ← mapM (fun s => toBigInt_or_throw (BN_string s)) messagePayload;
  Ok (poseidonHashMany (pool :: 0 :: Z.of_nat (length messagePayload) :: felts)).

Definition buildProofFacts (poolAddress poolClassHash : BigNumberish) (serverActionsCalldata : list string) (blockNumber : Z)
  (blockHash chainId : BigNumberish) : result sdk_error (list string) :=
  messageHash ← computeMessageHash poolAddress poolClassHash serverActionsCalldata;
  let configHash := computeVirtualOsConfigHash chainId (BN_string STRK_FEE_TOKEN_ADDRESS) in
  blockHash ← toBigInt_or_throw blockHash;
  Ok [toHex PROOF_VERSION; toHex VIRTUAL_SNOS; VIRTUAL_PROGRAM_HASH; toHex VIRTUAL_SNOS0; toHex blockNumber; toHex blockHash;
      configHash; "0x1"; toHex messageHash].
End Facts.

(** ** The attestation *)

(** [CallData.compile] of one Cairo option: [None], or a time and a pair of felts. *)
Class OptionCoder := compile_attestation : option ProvingService.ScreeningSignature -> result sdk_error (list string).

(** What is documented of it: the variant, then the fields in their order. *)
Class OptionCoderLaws `{OptionCoder} : Prop := {
  no_attestation : compile_attestation None = Ok ["1"];
  an_attestation : forall s out, compile_attestation (Some s) = Ok out ->
    exists t r u, mapM BigInt_of_string out = Some [0; t; r; u] /\ issued_at s = Some (inject_Z t) /\
      BigInt_of_string (sig_r s) = Some r /\ BigInt_of_string (sig_s s) = Some u }.

Definition screeningCalldataSuffix `{OptionCoder} (additionalData : option AdditionalData) : result sdk_error (list string) :=
  felts ← compile_attestation (additionalData ≫= signature);
  mapM (fun felt => toHex <$> toBigInt_or_throw (BN_string felt)) felts.

Lemma or_throw_string s z : BigInt_of_string s = Some z -> toBigInt_or_throw (BN_string s) = Ok z.
Proof. intros Hz. unfold toBigInt_or_throw, toBigInt. by rewrite Hz. Qed.

Lemma mapM_toBigInt l zs : mapM BigInt_of_string l = Some zs -> mapM (fun s => toBigInt_or_throw (BN_string s)) l = Ok zs.
Proof.
  revert zs. induction l as [|s l IH]; intros zs Hz; [by injection Hz as <-|].
  apply mapM_Some_1 in Hz. inversion Hz as [|? z ? zs' Hone Hrest]; subst. specialize (IH zs' (mapM_Some_2 _ _ _ Hrest)).
  cbn [mapM]. cbv beta. rewrite (or_throw_string s z Hone). unfold mbind, result_bind in *. by rewrite IH.
Qed.

Lemma mapM_toBigInt_hex l zs : mapM BigInt_of_string l = Some zs ->
  mapM (fun felt => toHex <$> toBigInt_or_throw (BN_string felt)) l = Ok (map toHex zs).
Proof.
  revert zs. induction l as [|s l IH]; intros zs Hz; [by injection Hz as <-|].
  apply mapM_Some_1 in Hz. inversion Hz as [|? z ? zs' Hone Hrest]; subst. specialize (IH zs' (mapM_Some_2 _ _ _ Hrest)).
  cbn [mapM]. cbv beta. rewrite (or_throw_string s z Hone). cbn [fmap result_fmap]. unfold mbind, result_bind in *. by rewrite IH.
Qed.

(** The suffix is what the pool expects after the actions: one felt, or the attestation that the prover relayed. *)
Lemma screening_suffix `{OptionCoderLaws} additionalData suffix : screeningCalldataSuffix additionalData = Ok suffix ->
  attestation_ok suffix = true /\
  match additionalData ≫= signature with
  | None => suffix = ["0x1"]
  | Some s => exists t r u, suffix = map toHex [0; t; r; u] /\ issued_at s = Some (inject_Z t) /\
      BigInt_of_string (sig_r s) = Some r /\ BigInt_of_string (sig_s s) = Some u
  end.
Proof.
  unfold screeningCalldataSuffix. destruct (additionalData ≫= signature) as [s|].
  - intros (out & Hout & Hm)%bind_ok. destruct (an_attestation s out Hout) as (t & r & u & Hz & Ht & Hr & Hu).
    rewrite (mapM_toBigInt_hex _ _ Hz) in Hm. injection Hm as <-. split; [done|]. by exists t, r, u.
  - rewrite no_attestation. by intros [= <-].
Qed.

(** The last fact is the hash of the message that the submitted calldata is checked against. *)
Lemma proof_facts_commit `{StarkCrypto} `{PedersenHash} poolAddress classHash actions blockNumber blockHash chainId facts pool class felts :
  buildProofFacts poolAddress classHash actions blockNumber blockHash chainId = Ok facts ->
  toBigInt poolAddress = Some pool -> toHex_of classHash = Ok (toHex class) -> 0 <= class -> mapM BigInt_of_string actions = Some felts ->
  facts !! 7%nat = Some "0x1" /\
  facts !! 8%nat = Some (toHex (poseidonHashMany (pool :: 0 :: Z.of_nat (S (length actions)) :: class :: felts))).
Proof.
  intros Hb Hpool Hclass Hc0 Hf. unfold buildProofFacts in Hb. apply bind_ok in Hb as (mh & Hmh & Hb). apply bind_ok in Hb as (bh & _ & [= <-]).
  split; [done|]. cbn [lookup list_lookup]. f_equal. f_equal. unfold computeMessageHash, buildMessagePayload in Hmh. rewrite Hclass in Hmh.
  cbn [mbind result_bind] in Hmh. assert (Hp : toBigInt_or_throw poolAddress = Ok pool) by (unfold toBigInt_or_throw; by rewrite Hpool).
  rewrite Hp in Hmh. cbn [mbind result_bind] in Hmh.
  rewrite (mapM_toBigInt (toHex class :: actions) (class :: felts)) in Hmh.
  - by injection Hmh as <-.
  - cbn [mapM]. rewrite BigInt_toHex by done. cbn [mbind option_bind]. by rewrite Hf.
Qed.
