(* ===== verification/Proving.v ===== *)
(** * Proving and simulating ([sdk/src/internal/proving-service-provider.ts], [mock-proving.ts], [private-transfers.ts])

    A proof provider answers with what the pool compiled: the service, in the message that the proof
    carries; the mock, from a view call or a simulated transaction. [PrivateTransfers] makes the call
    of [apply_actions] out of either. *)
From Stdlib Require Import Ascii ZArith Lia QArith.
From stdpp Require Import base tactics list strings.
From S2P Require Import Prelude JsMap Convert Crypto Interfaces Compiler PoolTransaction StarknetCalls MockPool Json Http ProvingService ProofInvocation Builders.

Local Open Scope string_scope.
Local Open Scope Z_scope.

(** [Proof]. *)
Record Proof : Type := {
  pf_data : option string;
  pf_output : list string;
  pf_proofFacts : list string;
  pf_additionalData : option AdditionalData }.

Inductive flow_error : Type :=
| SdkError (e : sdk_error)
| ServiceError (e : prove_error)
| NodeError (code : Z)
| NodeUrlWithoutPool
| NoSimulateSupport
| NoServerMessage
| NotSupportedHere.

Definition lift_sdk {A} (r : result sdk_error A) : result flow_error A :=
  match r with Ok a => Ok a | Err e => Err (SdkError e) end.

(** [ProofProviderInterface], over the state it keeps. *)
Class ProofProvider := {
  pp_state : Type;
  getDefaultDetails : stateE pp_state flow_error ProofDetails;
  pp_prove : ProofInvocation -> option BlockIdentifier -> stateE pp_state flow_error Proof
}.

(** ** The proving service *)

(** The invocation as [JSON.stringify] writes it. *)
Definition bounds_json (b : string * string) : json := JObject [("max_amount", JString b.1); ("max_price_per_unit", JString b.2)].
Definition invocation_json (inv : ProofInvocation) : json := JObject [
  ("type", JString (pi_type inv)); ("sender_address", JString (sender_address inv));
  ("calldata", JArray (map JString (pi_calldata inv))); ("signature", JArray (map JString (pi_signature inv)));
  ("nonce", JString (pi_nonce inv));
  ("resource_bounds", JObject [("l1_gas", bounds_json (resource_bounds inv).1.1); ("l2_gas", bounds_json (resource_bounds inv).1.2);
                               ("l1_data_gas", bounds_json (resource_bounds inv).2)]);
  ("tip", JString (pi_tip inv)); ("paymaster_data", JArray (map JString (paymaster_data inv)));
  ("account_deployment_data", JArray (map JString (account_deployment_data inv)));
  ("nonce_data_availability_mode", JString (nonce_data_availability_mode inv));
  ("fee_data_availability_mode", JString (fee_data_availability_mode inv)); ("version", JString (pi_version inv))].

(** The fields of [ProvingServiceProofProvider]: [poolAddressHex] is present exactly if there is a node. *)
Record ServiceProvider : Type := {
  sv_service : ProvingService;
  sv_chainId : string;
  sv_blockIdentifier : BlockIdentifier;
  sv_poolAddressHex : option string }.

Definition new_ServiceProvider (service : ProvingService) (chainId : string) (blockIdentifier : option BlockIdentifier)
  (nodeUrl : option string) (poolAddress : option BigNumberish) : result flow_error ServiceProvider :=
  pool ← match nodeUrl with
         | Some _ => match poolAddress with None => Err NodeUrlWithoutPool | Some p => hex ← lift_sdk (toHex_of p); Ok (Some hex) end
         | None => Ok None
         end;
  Ok {| sv_service := service; sv_chainId := chainId; sv_blockIdentifier := default (BlockValue (JString "latest")) blockIdentifier;
        sv_poolAddressHex := pool |}.

(** [getNonceForAddress(address, "latest")] of the node, call by call. *)
Class NonceNode := nonce_of : nat -> string -> result flow_error string.

Section Service.
Context `{OhttpNetwork} `{ProverNetwork} `{NonceNode} (pinnedKeyConfig : option (list Z)) (provider : ServiceProvider).

(** The cached nonce, the nonces fetched and the calls to the service. *)
Record ServiceState : Type := { cachedNonce : option Z; nonce_fetches : nat; ss_calls : Calls }.

Definition invalidateNonceCache (s : ServiceState) : ServiceState :=
  {| cachedNonce := None; nonce_fetches := nonce_fetches s; ss_calls := ss_calls s |}.

Definition with_nonce (nonce : Z) (base : ProofDetails) : ProofDetails := {|
  pd_nonce := Some (BN_bigint nonce); pd_resourceBounds := pd_resourceBounds base; pd_tip := pd_tip base;
  pd_paymasterData := pd_paymasterData base; pd_accountDeploymentData := pd_accountDeploymentData base;
  pd_nonceDataAvailabilityMode := pd_nonceDataAvailabilityMode base; pd_feeDataAvailabilityMode := pd_feeDataAvailabilityMode base;
  pd_skipValidate := pd_skipValidate base; pd_chainId := pd_chainId base |}.

Definition service_details : stateE ServiceState flow_error ProofDetails := fun s =>
  let base := getDefaultProofDetails (sv_chainId provider) in
  match sv_poolAddressHex provider with
  | None => (Ok base, s)
  | Some pool =>
      match cachedNonce s with
      | Some nonce => (Ok (with_nonce nonce base), s)
      | None =>
          let r := text ← nonce_of (nonce_fetches s) pool; lift_sdk (toBigInt_or_throw (BN_string text)) in
          let s := {| cachedNonce := match r with Ok z => Some z | Err _ => None end; nonce_fetches := S (nonce_fetches s); ss_calls := ss_calls s |} in
          (nonce ← r; Ok (with_nonce nonce base), s)
      end
  end.

Definition same_address (a b : string) : bool := String.eqb (toLowerCase a) (toLowerCase b).

(** The attempts that [callWithRetry] makes at most. *)
Definition service_fuel : nat := S (Z.to_nat (maxRetries (sv_service provider))).

(** The proof of an answer: the output is the message of the pool. *)
Definition proof_of_result (inv : ProofInvocation) (r : ProveTransactionResult) : result flow_error Proof :=
  poolAddressHex ← lift_sdk (toHex_of (BN_string (sender_address inv)));
  let poolMessage := List.find (fun m => same_address (from_address m) poolAddressHex) (l2_to_l1_messages r) in
  Ok {| pf_data := Some (proof r); pf_output := match poolMessage with Some m => payload m | None => [] end;
        pf_proofFacts := proof_facts r; pf_additionalData := additional_data r |}.

Definition service_prove (inv : ProofInvocation) (blockIdentifier : option BlockIdentifier) : stateE ServiceState flow_error Proof := fun s =>
  let blockId := default (sv_blockIdentifier provider) blockIdentifier in
  match proveTransaction pinnedKeyConfig (sv_service provider) service_fuel blockId (invocation_json inv) (ss_calls s) with
  | None => (Err (ServiceError NoResult), s)
  | Some (r, calls) =>
      let s := {| cachedNonce := cachedNonce s; nonce_fetches := nonce_fetches s; ss_calls := calls |} in
      (match r with Ok r => proof_of_result inv r | Err e => Err (ServiceError e) end, s)
  end.

(** The fuel is enough: the first case does not occur. *)
Lemma retry_from_enough method params fuel attempt calls : maxRetries (sv_service provider) - attempt < Z.of_nat fuel -> (0 < fuel)%nat ->
  retry_from pinnedKeyConfig (sv_service provider) fuel attempt method params calls <> None.
Proof.
  revert attempt calls. induction fuel as [|fuel IH]; intros attempt calls Hf Hpos; [lia|]. cbn.
  destruct (callOnce pinnedKeyConfig (sv_service provider) method params calls) as [[v|e] c]; [done|].
  destruct (Z.leb_spec (maxRetries (sv_service provider)) attempt); cbn [orb]; [done|]. destruct (negb (isTransientError e)); [done|].
  apply IH; lia.
Qed.

Lemma service_fuel_enough blockId transaction calls :
  proveTransaction pinnedKeyConfig (sv_service provider) service_fuel blockId transaction calls <> None.
Proof.
  unfold proveTransaction, callWithRetry. pose proof (retry_from_enough "starknet_proveTransaction" (prove_params blockId transaction) service_fuel 0 calls) as Hr.
  destruct (retry_from pinnedKeyConfig (sv_service provider) service_fuel 0 "starknet_proveTransaction" (prove_params blockId transaction) calls) as [[r c]|]; [done|].
  exfalso. apply Hr; unfold service_fuel; [lia|lia|done].
Qed.
End Service.

(** ** The mock prover *)

Record TraceMessage : Type := { tm_to_address : string; tm_payload : list string }.
(** A message as it is, or wrapped with its order. *)
Inductive TraceMessageEntry : Type := Bare (m : TraceMessage) | Ordered (order : Z) (message : TraceMessage).
#[warnings="-register-all"]
Inductive TraceInvocation : Type := Invocation (messages : option (list TraceMessageEntry)) (calls : option (list TraceInvocation)).

Definition unwrapMessage (entry : TraceMessageEntry) : TraceMessage :=
  match entry with Bare m => m | Ordered _ m => m end.

Fixpoint collectMessages (invocation : TraceInvocation) : list TraceMessage :=
  match invocation with
  | Invocation messages calls =>
      (map unwrapMessage (default [] messages) ++ match calls with Some l => flat_map collectMessages l | None => [] end)%list
  end.

(** The node: views, blocks, simulation (if its channel has it) and the chain. *)
Class Node := {
  callContract : string -> list string -> option BlockIdentifier -> result flow_error (list string);
  getClassHashAt : string -> option BlockIdentifier -> result flow_error string;
  getBlock : BlockIdentifier -> result flow_error (Z * option string);
  (** The trace of the only transaction, [None] where the answer has none. *)
  simulateTransaction : option (ProofInvocation -> list string -> option BlockIdentifier -> result flow_error (option TraceInvocation));
  getChainId : result flow_error string
}.

Section Mock.
Context `{StarkCrypto} `{PedersenHash} `{Node} (chainId : string) (validateSignature : option bool).

(** [messages.find((message) => BigInt(message.to_address) === 0n)]. *)
Fixpoint find_server_message (messages : list TraceMessage) : result flow_error (option TraceMessage) :=
  match messages with
  | [] => Ok None
  | m :: messages =>
      z ← lift_sdk (toBigInt_or_throw (BN_string (tm_to_address m)));
      if z =? 0 then Ok (Some m) else find_server_message messages
  end.

(** [CompiledActions]: the class hash and the server actions. *)
Definition simulateExecute (inv : ProofInvocation) (signature : list string) (blockIdentifier : option BlockIdentifier)
  : result flow_error (string * list string) :=
  match simulateTransaction with
  | None => Err NoSimulateSupport
  | Some simulate =>
      trace ← simulate inv signature blockIdentifier;
      found ← find_server_message (match trace with Some t => collectMessages t | None => [] end);
      match found with
      | Some {| tm_payload := class_hash :: actions |} => Ok (class_hash, actions)
      | _ => Err NoServerMessage
      end
  end.

Definition compileActions (inv : ProofInvocation) (blockIdentifier : option BlockIdentifier) : result flow_error (string * list string) :=
  let signature := pi_signature inv in
  if (bool_decide (validateSignature = Some false) || bool_decide (signature = []))%bool then
    calldata ← lift_sdk (extractExecuteViewCalldata (pi_calldata inv));
    serverActions ← callContract (sender_address inv) calldata blockIdentifier;
    poolClassHash ← getClassHashAt (sender_address inv) blockIdentifier;
    Ok (poolClassHash, serverActions)
  else simulateExecute inv signature blockIdentifier.

Definition blocksBack : Z := 10.

Definition baseBlockNumber (blockIdentifier : option BlockIdentifier) : result flow_error Z :=
  match blockIdentifier with
  | Some b => block ← getBlock b; Ok block.1
  | None => latest ← getBlock (BlockValue (JString "latest")); Ok (if blocksBack <? latest.1 then latest.1 - blocksBack else 1)
  end.

Definition mock_prove (inv : ProofInvocation) (blockIdentifier : option BlockIdentifier) : result flow_error Proof :=
  compiled ← compileActions inv blockIdentifier;
  number ← baseBlockNumber blockIdentifier;
  baseBlock ← getBlock (BlockNumber number);
  proofFacts ← lift_sdk (buildProofFacts (BN_string (sender_address inv)) (BN_string compiled.1) compiled.2 number
                           (BN_string (default "0x0" baseBlock.2)) (BN_string chainId));
  output ← lift_sdk (buildMessagePayload (BN_string compiled.1) compiled.2);
  Ok {| pf_data := None; pf_output := output; pf_proofFacts := proofFacts; pf_additionalData := None |}.
End Mock.

(** ** [PrivateTransfers] *)

Record ProofInvocationResult : Type := { invocation : ProofInvocation; ir_registry : PrivateRegistry; ir_warnings : list Warning }.
Record ExecuteResult : Type := { er_call : Call; er_proof : Proof; er_registry : PrivateRegistry; er_warnings : list Warning }.

Section Transfers.
Context `{StarkCrypto} `{Platform} `{DiscoveryProvider} `{PoolAbi} `{StarknetNum} `{ProofSigner} `{OptionCoder}.
Context (address poolContractAddress : BigNumberish) (viewingKey : Z) (notes_first : bool).

(** What the user of the SDK holds, and the state of the proof provider. *)
Record FlowState {provider_state : Type} : Type := { fs_caller : CallerState; fs_provider : provider_state }.
Arguments FlowState : clear implicits.

Definition on_caller {S A} (m : stateE CallerState sdk_error A) : stateE (FlowState S) flow_error A := fun s =>
  let '(r, c) := m (fs_caller s) in (lift_sdk r, {| fs_caller := c; fs_provider := fs_provider s |}).
Definition on_provider {S A} (m : stateE S flow_error A) : stateE (FlowState S) flow_error A := fun s =>
  let '(r, p) := m (fs_provider s) in (r, {| fs_caller := fs_caller s; fs_provider := p |}).

Definition createProofInvocation `{ProofProvider} (options : ExecuteOptions) : stateE (FlowState pp_state) flow_error ProofInvocationResult :=
  user ← st_lift (lift_sdk (toBigInt_or_throw address));
  pool ← st_lift (lift_sdk (toBigInt_or_throw poolContractAddress));
  compiled ← on_caller (compile user viewingKey pool notes_first options);
  details ← on_provider getDefaultDetails;
  inv ← st_lift (lift_sdk (create address viewingKey poolContractAddress (clientActions compiled) details));
  mret {| invocation := inv; ir_registry := cr_registry compiled; ir_warnings := warnings compiled |}.

Definition buildExecuteResult (p : Proof) (registry : PrivateRegistry) (warnings : list Warning) : result flow_error ExecuteResult :=
  let serverActionsCalldata := drop 1 (pf_output p) in
  screeningSuffix ← lift_sdk (screeningCalldataSuffix (pf_additionalData p));
  pool ← lift_sdk (toHex_of poolContractAddress);
  Ok {| er_call := {| contractAddress := pool; entrypoint := "apply_actions";
                      calldata := Some (map BN_string (serverActionsCalldata ++ screeningSuffix)%list) |};
        er_proof := p; er_registry := registry; er_warnings := warnings |}.

Definition executeWithInvocation `{ProofProvider} (r : ProofInvocationResult) (provingBlockId : option BlockIdentifier)
  : stateE (FlowState pp_state) flow_error ExecuteResult :=
  p ← on_provider (pp_prove (invocation r) provingBlockId);
  st_lift (buildExecuteResult p (ir_registry r) (ir_warnings r)).

Definition execute `{ProofProvider} (options : ExecuteOptions) (provingBlockId : option BlockIdentifier) : stateE (FlowState pp_state) flow_error ExecuteResult :=
  r ← createProofInvocation options;
  executeWithInvocation r provingBlockId.

(** The part of [simulate] after the invocation was created; [validateSignature] defaults to false. *)
Definition simulate_invocation `{PedersenHash} `{Node} (r : ProofInvocationResult) (validateSignature : option bool)
  (provingBlockId : option BlockIdentifier) : result flow_error ExecuteResult :=
  chainId ← getChainId;
  p ← mock_prove chainId (Some (default false validateSignature)) (invocation r) provingBlockId;
  buildExecuteResult p (ir_registry r) (ir_warnings r).

Definition simulate `{PedersenHash} `{Node} `{ProofProvider} (options : ExecuteOptions) (validateSignature : option bool)
  (provingBlockId : option BlockIdentifier) : stateE (FlowState pp_state) flow_error ExecuteResult :=
  r ← createProofInvocation options;
  st_lift (simulate_invocation r validateSignature provingBlockId).
End Transfers.

(** ** Simulation

    The proving service and the mock prover answer for one invocation: what they let [PrivateTransfers]
    submit is the same call, up to the attestation that only the service can attach. *)

(** The provider of the proving service. *)
Definition service_provider `{OhttpNetwork} `{ProverNetwork} `{NonceNode} (pinnedKeyConfig : option (list Z)) (provider : ServiceProvider) : ProofProvider := {|
  pp_state := ServiceState;
  getDefaultDetails := service_details provider;
  pp_prove := service_prove pinnedKeyConfig provider |}.

(** The mock, as a provider without state. *)
Definition mock_provider `{StarkCrypto} `{PedersenHash} `{Node} (chainId : string) (validateSignature : option bool) : ProofProvider := {|
  pp_state := unit;
  getDefaultDetails := fun s => (Ok (getDefaultProofDetails chainId), s);
  pp_prove inv blockIdentifier := fun s => (mock_prove chainId validateSignature inv blockIdentifier, s) |}.

(** ** Honest answers *)

(** The node runs the pool: on the invocation, at the block, its view and its trace give the same actions. *)
Record honest_node `{Node} (inv : ProofInvocation) (block : option BlockIdentifier) (class_hash : string) (compiled : list string) : Prop := {
  hn_view : exists data, extractExecuteViewCalldata (pi_calldata inv) = Ok data /\ callContract (sender_address inv) data block = Ok compiled;
  hn_class : getClassHashAt (sender_address inv) block = Ok class_hash;
  hn_trace : forall sim, simulateTransaction = Some sim -> exists trace to, sim inv (pi_signature inv) block = Ok (Some trace) /\
    find_server_message (collectMessages trace) = Ok (Some {| tm_to_address := to; tm_payload := class_hash :: compiled |});
  hn_blocks : forall b, exists n h z, getBlock b = Ok (n, h) /\ BigInt_of_string (default "0x0" h) = Some z }.

(** The prover ran the pool: the message of the pool carries the class hash and the actions. *)
Definition honest_result (inv : ProofInvocation) (compiled : list string) (r : ProveTransactionResult) : Prop :=
  exists poolAddressHex m h, toHex_of (BN_string (sender_address inv)) = Ok poolAddressHex /\
    List.find (fun m => same_address (from_address m) poolAddressHex) (l2_to_l1_messages r) = Some m /\ payload m = h :: compiled.

(** ** The mock prover *)

Section MockProver.
Context `{StarkCrypto} `{PedersenHash} `{Node} (inv : ProofInvocation) (block : option BlockIdentifier) (compiled : list string)
  (class : Z) (felts : list Z) (pool : Z).
Hypotheses (Hnode : honest_node inv block (toHex class) compiled) (Hclass : 0 <= class)
  (Hfelts : mapM BigInt_of_string compiled = Some felts) (Hpool : BigInt_of_string (sender_address inv) = Some pool).

Lemma compileActions_honest validate :
  (validate = Some true -> pi_signature inv <> [] -> simulateTransaction <> None) -> validate <> None ->
  compileActions validate inv block = Ok (toHex class, compiled).
Proof.
  intros Hsim Hv. destruct Hnode as [(data & Hx & Hview) Hch Htrace _]. unfold compileActions.
  destruct (bool_decide (validate = Some false) || bool_decide (pi_signature inv = []))%bool eqn:Hplain.
  - rewrite Hx. cbn [lift_sdk mbind result_bind]. rewrite Hview. cbn [mbind result_bind]. by rewrite Hch.
  - apply orb_false_elim in Hplain as [Hf%bool_decide_eq_false Hs%bool_decide_eq_false].
    destruct validate as [[]|]; [|done|done]. unfold simulateExecute.
    destruct simulateTransaction as [sim|] eqn:Hs'; [|by destruct (Hsim eq_refl Hs)].
    destruct (Htrace sim eq_refl) as (trace & to & Hrun & Hfind). rewrite Hrun. cbn [mbind result_bind].
    by rewrite Hfind.
Qed.

Lemma baseBlockNumber_honest : exists n, baseBlockNumber block = Ok n.
Proof.
  unfold baseBlockNumber. destruct block as [b|].
  - destruct (hn_blocks _ _ _ _ Hnode b) as (n & h & z & -> & _). by exists n.
  - destruct (hn_blocks _ _ _ _ Hnode (BlockValue (JString "latest"))) as (n & h & z & -> & _). by eexists.
Qed.

(** The mock proof carries the compiled actions, and its facts commit to them. *)
Lemma mock_prove_honest chainId validate :
  (validate = Some true -> pi_signature inv <> [] -> simulateTransaction <> None) -> validate <> None ->
  exists p, mock_prove chainId validate inv block = Ok p /\ pf_output p = toHex class :: compiled /\ pf_additionalData p = None /\
    pf_proofFacts p !! 8%nat = Some (toHex (poseidonHashMany (pool :: 0 :: Z.of_nat (S (length compiled)) :: class :: felts))).
Proof.
  intros Hsim Hv. unfold mock_prove. rewrite (compileActions_honest validate Hsim Hv). cbn [mbind result_bind].
  destruct baseBlockNumber_honest as [n ->]. cbn [mbind result_bind].
  destruct (hn_blocks _ _ _ _ Hnode (BlockNumber n)) as (n' & h & z & -> & Hz). cbn [mbind result_bind fst snd].
  assert (Hhex : toHex_of (BN_string (toHex class)) = Ok (toHex class)) by (by apply toHex_of_number, BigInt_toHex).
  destruct (buildProofFacts (BN_string (sender_address inv)) (BN_string (toHex class)) compiled n (BN_string (default "0x0" h)) (BN_string chainId))
    as [facts|e] eqn:Hf.
  - cbn [lift_sdk mbind result_bind]. unfold buildMessagePayload. rewrite Hhex. cbn [lift_sdk mbind result_bind].
    eexists. split; [reflexivity|]. cbn. split_and!; [done|done|].
    by eapply proof_facts_commit.
  - exfalso. revert Hf. unfold buildProofFacts, computeMessageHash, buildMessagePayload. rewrite Hhex. cbn [mbind result_bind].
    rewrite (or_throw_string _ _ Hpool). cbn [mbind result_bind].
    rewrite (mapM_toBigInt (toHex class :: compiled) (class :: felts)).
    + cbn [mbind result_bind]. by rewrite (or_throw_string _ _ Hz).
    + cbn [mapM]. rewrite BigInt_toHex by done. cbn [mbind option_bind]. by rewrite Hfelts.
Qed.
End MockProver.

(** ** The call *)

Definition apply_actions_call (pool : string) (felts : list string) : Call :=
  {| contractAddress := pool; entrypoint := "apply_actions"; calldata := Some (map BN_string felts) |}.

Lemma buildExecuteResult_call `{OptionCoder} pool p registry ws e : buildExecuteResult pool p registry ws = Ok e ->
  exists suffix hex, screeningCalldataSuffix (pf_additionalData p) = Ok suffix /\ toHex_of pool = Ok hex /\
    er_call e = apply_actions_call hex (drop 1 (pf_output p) ++ suffix) /\ er_proof e = p /\ er_registry e = registry /\ er_warnings e = ws.
Proof.
  unfold buildExecuteResult. intros (suffix & Hs & He)%bind_ok. apply bind_ok in He as (hex & Hh & [= <-]).
  destruct (screeningCalldataSuffix (pf_additionalData p)); [|done]. injection Hs as ->.
  destruct (toHex_of pool); [|done]. injection Hh as ->. by exists suffix, hex.
Qed.

(** C13: A simulation shows the call that will be submitted. For one invocation, a node and a proving service that both ran
    the pool: simulating, with the signature checked or not, always succeeds, and its call applies
    exactly the actions that the pool compiled, followed by the felt that says there is no attestation; its
    proof facts commit to those actions under the address of the pool. Executing the invocation, if it succeeds,
    gives the same call with the same registry and warnings, except that the attestation is the one that
    the service relayed, in the form the pool accepts; without one the two calls are equal. *)
Theorem simulation_predicts_execution `{DiscoveryProvider} `{StarkCrypto} `{PedersenHash} `{Node} `{OptionCoderLaws} `{OhttpNetwork} `{ProverNetwork} `{NonceNode}
  (pinnedKeyConfig : option (list Z)) (provider : ServiceProvider) (poolContractAddress : BigNumberish) (r : ProofInvocationResult)
  (validate : option bool) (block : option BlockIdentifier) (compiled : list string) (class pool : Z) (felts : list Z) (chain : string) :
  honest_node (invocation r) block (toHex class) compiled -> 0 <= class -> mapM BigInt_of_string compiled = Some felts ->
  BigInt_of_string (sender_address (invocation r)) = Some pool -> toHex_of poolContractAddress = Ok (sender_address (invocation r)) ->
  (validate = Some true -> pi_signature (invocation r) <> [] -> simulateTransaction <> None) -> getChainId = Ok chain ->
  (forall calls res calls', proveTransaction pinnedKeyConfig (sv_service provider) (service_fuel provider) (default (sv_blockIdentifier provider) block)
     (invocation_json (invocation r)) calls = Some (Ok res, calls') -> honest_result (invocation r) compiled res) ->
  exists s, simulate_invocation poolContractAddress r validate block = Ok s /\
    er_call s = apply_actions_call (sender_address (invocation r)) (compiled ++ ["0x1"]) /\
    er_registry s = ir_registry r /\ er_warnings s = ir_warnings r /\
    pf_proofFacts (er_proof s) !! 8%nat = Some (toHex (poseidonHashMany (pool :: 0 :: Z.of_nat (S (length compiled)) :: class :: felts))) /\
    forall st e st', @executeWithInvocation _ _ poolContractAddress (service_provider pinnedKeyConfig provider) r block st = (Ok e, st') ->
      er_registry e = er_registry s /\ er_warnings e = er_warnings s /\
      exists suffix, attestation_ok suffix = true /\
        er_call e = apply_actions_call (sender_address (invocation r)) (compiled ++ suffix) /\
        (pf_additionalData (er_proof e) ≫= signature = None -> er_call e = er_call s).
Proof.
  intros Hnode Hclass Hfelts Hpool Hhex Hsim Hchain Hservice.
  destruct (mock_prove_honest (invocation r) block compiled class felts pool Hnode Hclass Hfelts Hpool chain (Some (default false validate)))
    as (p & Hp & Hout & Had & Hfacts); [|done|].
  { destruct validate as [[]|]; cbn; [|done|done]. intros _. by apply Hsim. }
  unfold simulate_invocation. rewrite Hchain. cbn [mbind result_bind]. rewrite Hp. cbn [mbind result_bind].
  assert (Hs : exists s, buildExecuteResult poolContractAddress p (ir_registry r) (ir_warnings r) = Ok s).
  { unfold buildExecuteResult, screeningCalldataSuffix. rewrite Had. cbn [mbind option_bind]. rewrite no_attestation. cbn.
    rewrite Hhex. by eexists. }
  destruct Hs as [s Hs]. exists s. split; [exact Hs|].
  destruct (buildExecuteResult_call _ _ _ _ _ Hs) as (suffix & hex & Hsuf & Hx & Hcall & Hproof & Hreg & Hws).
  rewrite Hhex in Hx. injection Hx as <-. rewrite Had in Hsuf. apply screening_suffix in Hsuf as [_ ->]. rewrite Hout in Hcall.
  cbn [drop] in Hcall. rewrite Hproof. split_and!; [done|done|done|done|].
  intros st e st' He. unfold executeWithInvocation, on_provider, st_lift in He. unfold mbind, stateE_bind in He.
  cbn [pp_prove service_provider] in He. unfold service_prove in He.
  destruct (proveTransaction _ _ _ _ _ _) as [[[res|err] calls']|] eqn:Hprove; [|done|done].
  destruct (Hservice _ _ _ Hprove) as (px & m & h & Hpx & Hfind & Hpay).
  unfold proof_of_result in He. rewrite Hpx in He. unfold lift_sdk at 1, mbind, result_bind in He. rewrite Hfind, Hpay in He.
  injection He as He _.
  destruct (buildExecuteResult_call _ _ _ _ _ He) as (suffix & hex & Hsuf' & Hx & Hcall' & Hproof' & Hreg' & Hws').
  rewrite Hhex in Hx. injection Hx as <-. cbn [pf_output pf_additionalData drop] in *.
  split; [congruence|]. split; [congruence|]. apply screening_suffix in Hsuf' as [Hok Hsuf']. exists suffix.
  split_and!; [done|done|]. rewrite Hproof'. cbn [pf_additionalData]. intros Hnone.
  assert (Hsuffix : suffix = ["0x1"]).
  { destruct (additional_data res) as [ad|]; cbn [mbind option_bind] in Hnone, Hsuf'; [by rewrite Hnone in Hsuf'|done]. }
  by rewrite Hcall', Hcall, Hsuffix.
Qed.

(** ** One invocation, one pool *)

Definition sample_result : ProofInvocationResult := {|
  invocation := match sample_invocation with Ok inv => inv | Err _ => {|
    pi_type := ""; sender_address := ""; pi_calldata := []; pi_signature := []; pi_nonce := ""; resource_bounds := ("", "", ("", ""), ("", ""));
    pi_tip := ""; paymaster_data := []; account_deployment_data := []; nonce_data_availability_mode := ""; fee_data_availability_mode := ""; pi_version := "" |} end;
  ir_registry := createEmptyRegistry; ir_warnings := [] |}.

(** A node whose pool has class 9 and compiles everything to two felts; the server message of a trace is nested. *)
Definition sample_node : Node := {|
  callContract := fun _ _ _ => Ok ["0x5"; "0x11"];
  getClassHashAt := fun _ _ => Ok "0x9";
  getBlock := fun _ => Ok (7, Some "0x7");
  simulateTransaction := Some (fun _ _ _ => Ok (Some (Invocation (Some [Bare {| tm_to_address := "0x1"; tm_payload := [] |}])
    (Some [Invocation None None; Invocation (Some [Ordered 0 {| tm_to_address := "0x0"; tm_payload := ["0x9"; "0x5"; "0x11"] |}]) None]))));
  getChainId := Ok "SN_SEPOLIA" |}.

Definition sample_message (from : string) : json :=
  JObject [("from_address", JString from); ("to_address", JString "0x0"); ("payload", JArray [JString "0x9"; JString "0x5"; JString "0x11"])].
Definition sample_prover (from : string) : ProverNetwork := {|
  prover_fetch := fun _ => Some {| res_status := 200; res_text := Some "proved" |};
  prover_now := Z.of_nat;
  json_parse := fun _ => Some (JObject [("result", JObject [("proof", JString "cHJvb2Y="); ("proof_facts", JArray []); ("l2_to_l1_messages", JArray [sample_message from])])]) |}.

Definition sample_provider : ServiceProvider := {|
  sv_service := new_ProvingService false None; sv_chainId := "SN_SEPOLIA"; sv_blockIdentifier := BlockValue (JString "latest"); sv_poolAddressHex := None |}.
Definition option_coder : OptionCoder := fun s => match s with None => Ok ["1"] | Some _ => Err JsTypeError end.

Lemma option_coder_laws : @OptionCoderLaws option_coder.
Proof. split; [done|]. intros s out Hs. discriminate Hs. Qed.

Lemma sample_node_honest : @honest_node sample_node (invocation sample_result) None (toHex 9) ["0x5"; "0x11"].
Proof.
  split; [by eexists|done| |].
  - intros sim [= <-]. by do 2 eexists.
  - intros b. by exists 7, (Some "0x7"), 7.
Qed.

(** The call that a prover answering for the given address leads to. *)
Definition submitted (from : string) : result flow_error Call :=
  er_call <$> (@executeWithInvocation quiet_provider option_coder (BN_string "0x0Ab")
    (@service_provider no_library no_network (sample_prover from) (fun _ _ => Err (NodeError 0)) None sample_provider) sample_result None
    {| fs_caller := @Build_CallerState quiet_provider (collectActions new_PrivateTransfersBuilder) None tt;
       fs_provider := {| cachedNonce := None; nonce_fetches := 0; ss_calls := no_calls |} |}).1.

Lemma simulation_predicts_execution_witness : exists s,
  @simulate_invocation toy_crypto option_coder (BN_string "0x0Ab") (fun _ => "0x0") sample_node sample_result (Some true) None = Ok s /\
  er_call s = apply_actions_call "0xab" ["0x5"; "0x11"; "0x1"] /\ submitted "0xAB" = Ok (er_call s).
Proof.
  destruct (@simulation_predicts_execution quiet_provider toy_crypto (fun _ => "0x0") sample_node option_coder option_coder_laws no_library no_network
    (sample_prover "0xAB") (fun _ _ => Err (NodeError 0)) None sample_provider (BN_string "0x0Ab") sample_result (Some true) None ["0x5"; "0x11"] 9 171 [5; 17] "SN_SEPOLIA"
    sample_node_honest ltac:(done) eq_refl eq_refl eq_refl ltac:(done) eq_refl) as (s & Hs & Hc & _).
  { intros calls res calls' Hr. injection Hr as <- _. exists "0xab". eexists _, _. split_and!; reflexivity. }
  exists s. split; [exact Hs|]. split; [exact Hc|]. rewrite Hc. reflexivity.
Defined.

(** The message is found by the text of its sender: with a leading zero it is missed, and the call
    applies no actions. *)
Example padded_sender_is_missed : submitted "0x0ab" = Ok (apply_actions_call "0xab" ["0x1"]).
Proof. reflexivity. Qed.

(** The nonce is fetched once, until it is invalidated. *)
Lemma nonce_is_cached `{OhttpLibrary} `{NonceNode} (provider : ServiceProvider) (s : ServiceState) d s' :
  service_details provider s = (Ok d, s') -> service_details provider s' = (Ok d, s') /\ (nonce_fetches s' <= S (nonce_fetches s))%nat.
Proof.
  unfold service_details. destruct (sv_poolAddressHex provider) as [pool|]; [|intros [= <- <-]; split; [done|lia]].
  destruct (cachedNonce s) as [nonce|] eqn:Hc.
  - intros [= <- <-]. rewrite Hc. split; [done|lia].
  - destruct (nonce_of (nonce_fetches s) pool) as [text|]; [|done]. cbn [mbind result_bind].
    destruct (toBigInt_or_throw (BN_string text)) as [z|]; [|done]. cbn. intros [= <- <-]. cbn. split; [done|lia].
Qed.
