(* ===== verification/SimpleTransfers.v ===== *)
(** * Simple transfers ([sdk/src/simple-private-transfers.ts])

    One call for a deposit, a withdrawal, a transfer or a swap: a fixed chain of builder calls, compiled and proved with every note of the
    token and a registry that the calls share. The theorem follows a call through builder, compiler and emission to the
    client actions. *)
From Stdlib Require Import ZArith Lia.
From stdpp Require Import base tactics list strings.
From S2P Require Import Prelude JsMap Convert Crypto Interfaces Channel PoolSimulator ResolveNotes Balancing Compiler Emission Settlement Builders StarknetCalls ProvingService ProofInvocation Proving.

(** [Amount | All]. *)
Inductive AmountOrAll : Type := SomeAmount (amount : Z) | All.

(** The options of every call; [registry] is the shared object. *)
Definition simple_options : OptionsInput :=
  {| oi_autoRegister := None; oi_notes := Some (NotesLevel refresh); oi_channels := Some refresh; oi_autoSetup := Some true;
     oi_autoSelectNotes := Some SelectAll; oi_registryConst := None; oi_provingBlockId := None |}.
Definition execute_options : ExecuteOptions := merge_options simple_options no_options.

(** ** The chains of builder calls *)

Section Chains.
Context (user : Z).

Definition deposit_chain (token amount : Z) : list builder_op := [BWith token [TDeposit [{| in_recipient := None; in_amount := amount |}]]].

Definition withdraw_chain (token recipient : Z) (amount : AmountOrAll) : list builder_op :=
  match amount with
  | All => [BWith token [TSurplusTo recipient (Some true)]]
  | SomeAmount a => [BWith token [TWithdraw [{| out_recipient := Some recipient; out_amount := a |}]; TSurplusTo user (Some false)]]
  end.

Definition transfer_chain (token recipient : Z) (amount : AmountOrAll) : list builder_op :=
  match amount with
  | All => [BWith token [TSurplusTo recipient (Some false)]]
  | SomeAmount a => [BWith token [TTransfer [{| to_recipient := recipient; to_amount := AnAmount a |}]; TSurplusTo user (Some false)]]
  end.

(** The executor is called with the tokens, the amount it was sent and the note it fills; indexing an empty array throws. *)
Definition swap_invoke (executor toToken : Z) : InvokeAction := fun args =>
  match args_withdrawals args, args_openNotes args with
  | w :: _, n :: _ =>
      Ok {| cd_contractAddress := BN_string (toHex executor);
            cd_calldata := Some [BN_bigint (iw_token w); BN_bigint toToken; BN_bigint (iw_amount w); BN_bigint (ion_noteId n)] |}
  | _, _ => Err JsTypeError
  end.
Definition swap_chain (fromToken fromAmount toToken executor : Z) : list builder_op :=
  [BWith fromToken [TWithdraw [{| out_recipient := Some executor; out_amount := fromAmount |}]; TSurplusTo user (Some false)];
   BWith toToken [TTransfer [{| to_recipient := user; to_amount := Open |}]];
   BInvoke (swap_invoke executor toToken)].
End Chains.

(** ** The calls *)

(** [this.registry.notes.clear()]. *)
Definition clear_notes (r : PrivateRegistry) : PrivateRegistry :=
  {| reg_channels := reg_channels r; reg_notes := am_clear (reg_notes r); reg_cursor := reg_cursor r |}.

Section Simple.
Context `{StarkCrypto} `{Platform} `{DiscoveryProvider} `{PoolAbi} `{StarknetNum} `{ProofSigner} `{OptionCoder} `{ProofProvider}.
Context (address poolContractAddress : BigNumberish) (user viewingKey : Z) (notes_first : bool).

(** [build(token)] with a chain and [execute]: the notes of the shared registry are cleared, the chain is collected and executed. *)
Definition run_chain (chain : list builder_op) : stateE (FlowState (provider_state := pp_state)) flow_error ExecuteResult :=
  _ ← st_modify (fun s =>
        {| fs_caller := {| cl_actions := cl_actions (fs_caller s); cl_registry := clear_notes <$> cl_registry (fs_caller s);
                           cl_world := cl_world (fs_caller s) |};
           fs_provider := fs_provider s |});
  b ← st_lift (lift_sdk (run_builder user chain));
  _ ← st_modify (fun s =>
        {| fs_caller := {| cl_actions := collectActions b; cl_registry := cl_registry (fs_caller s); cl_world := cl_world (fs_caller s) |};
           fs_provider := fs_provider s |});
  execute address poolContractAddress viewingKey notes_first execute_options None.

Definition simple_deposit (token amount : Z) := run_chain (deposit_chain token amount).
Definition simple_withdraw (token recipient : Z) (amount : AmountOrAll) := run_chain (withdraw_chain user token recipient amount).
Definition simple_transfer (token recipient : Z) (amount : AmountOrAll) := run_chain (transfer_chain user token recipient amount).
Definition simple_swap (fromToken fromAmount toToken executor : Z) := run_chain (swap_chain user fromToken fromAmount toToken executor).
End Simple.

(** ** What the chains ask for *)

Inductive simple_call : Type :=
| CallDeposit (amount : Z)
| CallWithdraw (recipient : Z) (amount : AmountOrAll)
| CallTransfer (recipient : Z) (amount : AmountOrAll).
Definition chain_of (user token : Z) (c : simple_call) : list builder_op :=
  match c with
  | CallDeposit amount => deposit_chain token amount
  | CallWithdraw recipient amount => withdraw_chain user token recipient amount
  | CallTransfer recipient amount => transfer_chain user token recipient amount
  end.

(** What a call puts in and pays out, before notes are selected; [All] is only a surplus. *)
Definition asked_deposits (token : Z) (c : simple_call) : list DepositAction :=
  match c with CallDeposit amount => [{| dep_token := token; dep_amount := amount; dep_noteId := None |}] | _ => [] end.
Definition asked_withdraws (token : Z) (c : simple_call) : list WithdrawAction :=
  match c with CallWithdraw recipient (SomeAmount a) => [{| wd_recipient := recipient; wd_token := token; wd_amount := a |}] | _ => [] end.
Definition asked_notes (token : Z) (c : simple_call) : list CreateNoteAction :=
  match c with CallTransfer recipient (SomeAmount a) => [{| cn_recipient := recipient; cn_token := token; cn_amount := AnAmount a |}] | _ => [] end.
Definition asked_surplus (user token : Z) (c : simple_call) : list SurplusAction :=
  match c with
  | CallDeposit _ => []
  | CallWithdraw recipient All => [{| sp_recipient := recipient; sp_token := token; sp_withdraw := Some true |}]
  | CallTransfer recipient All => [{| sp_recipient := recipient; sp_token := token; sp_withdraw := Some false |}]
  | _ => [{| sp_recipient := user; sp_token := token; sp_withdraw := Some false |}]
  end.
Definition simple_actions (user token : Z) (c : simple_call) : Actions :=
  {| setViewingKey := None; openChannels := Some []; openTokenChannels := Some []; deposits := Some (asked_deposits token c); useNotes := Some [];
     createNotes := Some (asked_notes token c); withdraws := Some (asked_withdraws token c); surpluses := Some (asked_surplus user token c);
     invoke := None; computeAndInvoke := None |}.

Lemma chain_collects user token c : exists b, run_builder user (chain_of user token c) = Ok b /\ collectActions b = simple_actions user token c.
Proof.
  assert (Hb : forall ops, am_map (b_tokenBuilders (with_token user token ops new_PrivateTransfersBuilder))
    = [(token, run_token_ops user ops (new_TokenOperationsBuilder token))]).
  { intros ops. by rewrite (proj2 (with_token_map user token ops _ new_builder_ok)). }
  destruct c as [amount|recipient [a|]|recipient [a|]]; eexists; (split; [reflexivity|]);
    unfold collectActions, am_entries; rewrite Hb; reflexivity.
Qed.

(** ** Settling a simple batch *)

(** What is left of a token comes back to the user as one note. *)
Definition change (user token rest : Z) : list CreateNoteAction :=
  if 0 <? rest then [{| cn_recipient := user; cn_token := token; cn_amount := AnAmount rest |}] else [].
(** What a call brings in, before notes are spent. *)
Definition brings (c : simple_call) : Z :=
  match c with
  | CallDeposit a => a
  | CallWithdraw _ (SomeAmount a) | CallTransfer _ (SomeAmount a) => - a
  | CallWithdraw _ All | CallTransfer _ All => 0
  end.
(** The calls that look for notes. *)
Definition spends (c : simple_call) : bool :=
  match c with CallWithdraw _ (SomeAmount _) | CallTransfer _ (SomeAmount _) => true | _ => false end.
Definition use_of (token : Z) (n : Note) : UseNoteAction := {| un_token := token; un_note := n |}.

Lemma select_all used notes b : am_map used = [] -> select_notes true used notes b = (notes, b + sumZ note_amount notes).
Proof.
  intros Hu. revert b. induction notes as [|n notes IH]; intros b; cbn [select_notes sumZ]; [by rewrite Z.add_0_r|].
  unfold am_has, map_has. rewrite Hu. cbn. rewrite andb_false_r, IH. f_equal. lia.
Qed.

Section Settle.
Context `{DiscoveryProvider} (user vk : Z).

(** The surplus of the token goes to the user: the batch says so, or it deposits the token. *)
Definition user_keeps (token : Z) (a : Actions) : Prop :=
  match find (fun sp => sp_token sp =? token) (elems (surpluses a)) with
  | Some sp => sp_recipient sp = user /\ sp_withdraw sp = Some false
  | None => existsb (fun d => dep_token d =? token) (elems (deposits a)) = true
  end.

Lemma settle_change token rest s s' : user_keeps token (rs_actions s) -> 0 < rest -> settle_surplus user token rest s = (Ok tt, s') ->
  deposits (rs_actions s') = deposits (rs_actions s) /\ useNotes (rs_actions s') = useNotes (rs_actions s) /\
  withdraws (rs_actions s') = withdraws (rs_actions s) /\
  elems (createNotes (rs_actions s')) = (elems (createNotes (rs_actions s)) ++ change user token rest)%list.
Proof.
  unfold user_keeps, settle_surplus, find_surplus. intros Hk Hr. unfold mbind, stateE_bind, st_get, change. rewrite (proj2 (Z.ltb_lt 0 rest) Hr).
  destruct (find _ _) as [sp|].
  - destruct Hk as [Hu Hw]. cbn. rewrite Hw, Hu. cbn. intros [= <-]. done.
  - rewrite Hk. cbn. intros [= <-]. done.
Qed.

Lemma resolve_one o used token b s s' : autoSelectNotes o = Some SelectAll -> am_map used = [] -> registry_wf (rs_registry s) ->
  user_keeps token (rs_actions s) -> resolve_token user o used (token, b) s = (Ok tt, s') ->
  let notes := sort_notes (reg_list token (rs_registry s)) in
  deposits (rs_actions s') = deposits (rs_actions s) /\ withdraws (rs_actions s') = withdraws (rs_actions s) /\
  elems (useNotes (rs_actions s')) = (elems (useNotes (rs_actions s)) ++ map (use_of token) notes)%list /\
  elems (createNotes (rs_actions s')) = (elems (createNotes (rs_actions s)) ++ change user token (b + sumZ note_amount notes))%list /\
  0 <= b + sumZ note_amount notes.
Proof.
  intros Ho Hu Hw Hk. destruct (registry_notes_spec token s Hw) as (s1 & He & _ & Ha).
  unfold resolve_token, cover_deficit, selects. rewrite Ho. rewrite (bool_decide_eq_true_2 (Some SelectAll = Some SelectAll)) by done. rewrite orb_true_r.
  unfold mbind at 1, stateE_bind at 1. unfold mbind at 1, stateE_bind at 1. rewrite He, select_all by done.
  unfold mbind at 1, stateE_bind at 1. cbn [modify_actions st_modify mret stateE_ret].
  set (notes := sort_notes _). set (rest := b + sumZ note_amount notes).
  destruct (Z.ltb_spec rest 0); [unfold mbind, stateE_bind; by destruct (registry_notes token _) as [[] ?]|].
  destruct (Z.ltb_spec 0 rest) as [Hpos|Hz].
  - intros Hs. apply settle_change in Hs as (Hd & Hun & Hwd & Hc); [|cbn; by rewrite Ha|done]. cbn in *.
    rewrite Hd, Hwd, Hun, Hc, Ha. split_and!; try done.
  - intros [= <-]. cbn. rewrite Ha. unfold change. rewrite (proj2 (Z.ltb_ge 0 rest)) by lia. rewrite app_nil_r. done.
Qed.

(** The registry after a discovery into cleared notes lists what was found. *)
Lemma fold_set_map {V} (l : list (Z * V)) (m : AddressMap V) : keyConverter m = (fun k => k) ->
  let m' := fold_left (fun m e => am_set e.1 e.2 m) l m in
  keyConverter m' = (fun k => k) /\ defaultFactory m' = defaultFactory m /\ am_map m' = fold_left (fun m e => map_set e.1 e.2 m) l (am_map m).
Proof.
  cbn zeta. revert m. induction l as [|e l IH]; intros m Hm; [done|]. cbn [fold_left]. destruct (IH (am_set e.1 e.2 m) Hm) as (-> & -> & ->). split_and!; [done|done|]. cbn. by rewrite Hm.
Qed.

Lemma cleared_wf r : registry_wf r -> registry_wf (clear_notes r) /\ forall token, reg_list token (clear_notes r) = [].
Proof. intros (Hc & Hf & _). split; [|done]. split_and!; [done|done|apply NoDup_nil_2]. Qed.

Lemma discovered_notes o tokens a r w s' : registry_wf r ->
  (forall u k cur ts bl w found cur' w', discoverNotes u k cur ts bl w = (Ok (found, cur'), w') -> am_wf found) ->
  discover_into_registry user vk o tokens {| rs_actions := a; rs_registry := clear_notes r; rs_world := w |} = (Ok tt, s') ->
  exists found cur w', discoverNotes user vk (reg_cursor r) tokens (provingBlockId o) w = (Ok (found, cur), w') /\ rs_actions s' = a /\
    registry_wf (rs_registry s') /\ forall token, reg_list token (rs_registry s') = default [] (map_get token (am_map found)).
Proof.
  intros (Hc & Hf & _) Hwf. unfold discover_into_registry. cbn.
  destruct (discoverNotes user vk (reg_cursor r) tokens (provingBlockId o) w) as [[[found cur]|e] w'] eqn:Hd; [|done]. intros [= <-].
  exists found, cur, w'. split; [done|]. split; [done|].
  destruct (fold_set_map (am_entries found) (am_clear (reg_notes r)) Hc) as (Hc' & Hf' & Hm).
  assert (Hmap : am_map (fold_left (fun m e => am_set e.1 e.2 m) (am_entries found) (am_clear (reg_notes r))) = am_map found).
  { rewrite Hm. apply map_of_entries_id. by eapply Hwf. }
  cbn. split.
  - split_and!; cbn; [done|rewrite Hf'; done|]. unfold am_wf. rewrite Hmap. by eapply Hwf.
  - intros token. unfold reg_list. cbn. by rewrite Hmap.
Qed.

(** The balances of a simple batch. *)
Lemma simple_balances token c b : action_balances (simple_actions user token c) = Ok b ->
  am_entries b = (if bool_decide (brings c = 0) then [] else [(token, brings c)]) /\ (spends c = true -> brings c < 0) /\ (forall a, c = CallDeposit a -> 0 < a).
Proof.
  unfold action_balances, add_deposit, add_withdraw, add_createNote, js_assert, update, elems. destruct c as [a|r [a|]|r [a|]]; cbn.
  3,5: intros Hb; injection Hb as <-; split; [reflexivity|split; intros; discriminate].
  all: destruct (Z.ltb_spec 0 a) as [Ha|]; [|done]; cbn; rewrite decide_True by done; intros Hb; injection Hb as <-; cbn;
    rewrite bool_decide_eq_false_2, decide_True by (done || lia); split_and!; [done|try done; lia|intros ? Heq; try discriminate Heq; injection Heq as <-; exact Ha].
Qed.

(** Unless all is asked for, what is left is the user's. *)
Lemma simple_keeps token c : brings c <> 0 -> user_keeps token (simple_actions user token c).
Proof. intros Hb. unfold user_keeps, elems. destruct c as [a|r [a|]|r [a|]]; cbn in *; rewrite ?Z.eqb_refl; done. Qed.

(** Only the calls that pay look for notes. *)
Lemma simple_tokens token c b r : action_balances (simple_actions user token c) = Ok b ->
  tokensToDiscover (NotesLevel refresh) execute_options (simple_actions user token c) r b = Some (if spends c then [token] else []).
Proof.
  intros Hb. destruct (simple_balances token c b Hb) as (He & Hneg & Hpos). unfold tokensToDiscover. rewrite He. f_equal.
  destruct c as [a|rc [a|]|rc [a|]]; cbn [spends brings] in *; try reflexivity.
  - specialize (Hpos a eq_refl). rewrite (bool_decide_eq_false_2 (a = 0)) by lia. rewrite filter_cons_False; [done|].
    cbn. by rewrite (proj2 (Z.ltb_ge a 0)) by lia.
  - specialize (Hneg eq_refl). rewrite (bool_decide_eq_false_2 (- a = 0)) by lia. rewrite filter_cons_True; [done|].
    cbn [fst snd]. by rewrite (proj2 (Z.ltb_lt (- a) 0)).
  - specialize (Hneg eq_refl). rewrite (bool_decide_eq_false_2 (- a = 0)) by lia. rewrite filter_cons_True; [done|].
    cbn [fst snd]. by rewrite (proj2 (Z.ltb_lt (- a) 0)).
Qed.

(** *** The batch after [resolveNotes] *)

Lemma simple_resolved token c r w s' : registry_wf r ->
  (forall u k cur ts bl w found cur' w', discoverNotes u k cur ts bl w = (Ok (found, cur'), w') -> am_wf found) ->
  resolveNotes user vk execute_options {| rs_actions := simple_actions user token c; rs_registry := clear_notes r; rs_world := w |} = (Ok tt, s') ->
  exists notes, deposits (rs_actions s') = Some (asked_deposits token c) /\ withdraws (rs_actions s') = Some (asked_withdraws token c) /\
    elems (useNotes (rs_actions s')) = map (use_of token) notes /\
    elems (createNotes (rs_actions s')) = (asked_notes token c ++ change user token (brings c + sumZ note_amount notes))%list /\
    0 <= brings c + sumZ note_amount notes /\
    (if spends c then exists found cur w', discoverNotes user vk (reg_cursor r) (Some [token]) None w = (Ok (found, cur), w') /\
                        notes = sort_notes (default [] (map_get token (am_map found)))
     else notes = []).
Proof.
  intros Hr Hfound Hrun. apply resolveNotes_loop in Hrun as [(e & ? & _)|(b & s1 & Hb & Ha & Hd & Hl)]; [done| |by left].
  cbn [rs_actions] in *. destruct (simple_balances token c b Hb) as (He & Hneg & Hpos). rewrite He in Hl.
  assert (Hreg : registry_wf (rs_registry s1) /\
    if spends c then exists found cur w', discoverNotes user vk (reg_cursor r) (Some [token]) None w = (Ok (found, cur), w') /\
                        reg_list token (rs_registry s1) = default [] (map_get token (am_map found))
    else reg_list token (rs_registry s1) = []).
  { unfold discover_notes in Hd. cbn [autoDiscover_notes execute_options merge_options simple_options oi_notes no_options spread] in Hd.
    unfold mbind at 1, stateE_bind at 1, st_get in Hd. cbn [rs_actions rs_registry] in Hd. rewrite (simple_tokens token c b _ Hb) in Hd. destruct (spends c).
    - apply discovered_notes in Hd as (found & cur & w' & Hd & _ & Hw & Hlist); [|done|done]. split; [done|]. by exists found, cur, w'.
    - injection Hd as <-. destruct (cleared_wf r Hr) as [Hwc Hlc]. split; [exact Hwc|apply Hlc]. }
  destruct Hreg as [Hw Hlist]. case_bool_decide as Hz.
  - injection Hl as <-. rewrite Ha. exists []. destruct c as [a|rc [a|]|rc [a|]]; cbn in Hz; try (specialize (Hpos a eq_refl); lia); try (specialize (Hneg eq_refl); cbn in Hneg; lia).
    all: done.
  - cbn [st_for] in Hl. unfold mbind, stateE_bind in Hl. destruct (resolve_token _ _ _ _ s1) as [[[]|e] s2] eqn:Hone; [|done]. injection Hl as <-.
    apply resolve_one in Hone as (Hd1 & Hw1 & Hu1 & Hc1 & Hle); [|done|done|done|rewrite Ha; by apply simple_keeps].
    rewrite Ha in *. exists (sort_notes (reg_list token (rs_registry s1))). split_and!; try done.
    destruct (spends c); [|by rewrite Hlist]. destruct Hlist as (found & cur & w' & Hf & Hl). exists found, cur, w'. by rewrite Hl.
Qed.
End Settle.

(** ** What a call compiles to *)

Section Compiled.
Context `{StarkCrypto} `{Platform} `{DiscoveryProvider}.

(** What [compileOnce] makes of a chain, in the fields of the emission. *)
Record pays_out (user vk token : Z) (c : simple_call) (r : PrivateRegistry) (out : ClientActions) : Prop := {
  po_deposits : ca_deposits out = map deposit_action (asked_deposits token c);
  po_withdraws : Forall2 withdraw_action (asked_withdraws token c) (ca_withdraws out);
  po_notes : exists notes,
    ca_useNotes out = map useNote_action (map (use_of token) notes) /\
    Forall2 createNote_action (asked_notes token c ++ change user token (brings c + sumZ note_amount notes)) (ca_createNotes out) /\
    0 <= brings c + sumZ note_amount notes /\
    if spends c then exists found cur w w', discoverNotes user vk (reg_cursor r) (Some [token]) None w = (Ok (found, cur), w') /\
                       notes = sort_notes (default [] (map_get token (am_map found)))
    else notes = [] }.

(** C38: What a simple call submits. A deposit becomes one deposit of the amount and one note of it for the user. A withdrawal and a transfer of an amount spend every
    note of the token that discovery finds, pay the recipient exactly the amount, and give the rest to the user as one note; if the notes do not
    cover the amount, they do not compile. A withdrawal and a transfer of everything submit nothing that moves tokens. *)
Theorem simple_calls_settle (user vk poolAddress : Z) (notes_first : bool) (token : Z) (c : simple_call) b (r : PrivateRegistry) w res c' :
  run_builder user (chain_of user token c) = Ok b -> registry_wf r ->
  (forall u k cur ts bl w found cur' w', discoverNotes u k cur ts bl w = (Ok (found, cur'), w') -> am_wf found) ->
  compileOnce user vk poolAddress notes_first execute_options
    {| c_actions := collectActions b; c_registry := clear_notes r; c_world := w |} = (Ok res, c') ->
  exists t, clientActions res = flatten (t_out t) /\ pays_out user vk token c r (t_out t).
Proof.
  intros Hb Hr Hfound Hrun. destruct (chain_collects user token c) as (b' & Hb' & Hcol). rewrite Hb in Hb'. injection Hb' as <-. rewrite Hcol in Hrun.
  destruct (compileOnce_run _ _ _ _ _ _ _ _ Hrun) as (channels & w1 & rs & pool & t & _ & Hnotes & _ & Hact & He & Hca & _).
  exists t. split; [done|]. cbn [c_actions c_registry] in *. apply simple_resolved in Hnotes as (notes & Hd & Hw & Hu & Hc & Hle & Hs); [|done|done].
  destruct (prepareActions_same user execute_options pool (getRecipientsNeeded user (simple_actions user token c)) (rs_actions rs)) as (Sd & Su & Sc & Sw).
  rewrite Hact in He. apply emit_all_emitted in He as (Ed & Eu & Ec & Ew).
  rewrite Sd, Hd in Ed. rewrite Su, Hu in Eu. rewrite Sc, Hc in Ec. rewrite Sw, Hw in Ew. split; [done|done|].
  exists notes. split_and!; try done. destruct (spends c); [|done]. destruct Hs as (found & cur & w' & Hf & Hn). by exists found, cur, w1, w'.
Qed.
End Compiled.

(** ** Swaps *)

Definition simple_swap_actions (user fromToken fromAmount toToken executor : Z) : Actions :=
  {| setViewingKey := None; openChannels := Some []; openTokenChannels := Some []; deposits := Some []; useNotes := Some [];
     createNotes := Some [{| cn_recipient := user; cn_token := toToken; cn_amount := Open |}];
     withdraws := Some [{| wd_recipient := executor; wd_token := fromToken; wd_amount := fromAmount |}];
     surpluses := Some [{| sp_recipient := user; sp_token := fromToken; sp_withdraw := Some false |}];
     invoke := Some (swap_invoke executor toToken); computeAndInvoke := None |}.

Lemma swap_collects user fromToken fromAmount toToken executor : fromToken <> toToken ->
  exists b, run_builder user (swap_chain user fromToken fromAmount toToken executor) = Ok b /\
    collectActions b = simple_swap_actions user fromToken fromAmount toToken executor.
Proof.
  intros Hne. set (ops1 := [TWithdraw [{| out_recipient := Some executor; out_amount := fromAmount |}]; TSurplusTo user (Some false)]).
  set (ops2 := [TTransfer [{| to_recipient := user; to_amount := Open |}]]).
  destruct (with_token_map user fromToken ops1 _ new_builder_ok) as [Hok1 Hm1]. set (b1 := with_token user fromToken ops1 new_PrivateTransfersBuilder) in *.
  destruct (with_token_map user toToken ops2 _ Hok1) as [Hok2 Hm2]. set (b2 := with_token user toToken ops2 b1) in *.
  assert (Hm : am_map (b_tokenBuilders b2) = [(fromToken, run_token_ops user ops1 (new_TokenOperationsBuilder fromToken));
                                              (toToken, run_token_ops user ops2 (new_TokenOperationsBuilder toToken))]).
  { rewrite Hm2. unfold token_builder. rewrite Hm1. cbn. rewrite !(decide_False (P := toToken = fromToken)) by congruence. done. }
  assert (Hf : forall token ops b, let b' := with_token user token ops b in b_setViewingKey b' = b_setViewingKey b /\ b_openChannels b' = b_openChannels b /\
    b_invokeExternal b' = b_invokeExternal b /\ b_computeAndInvoke b' = b_computeAndInvoke b /\ b_defaultSurplus b' = b_defaultSurplus b).
  { intros token ops b. unfold with_token. by destruct (am_get token None (b_tokenBuilders b)). }
  destruct (Hf toToken ops2 b1) as (F1 & F2 & F3 & F4 & F5). destruct (Hf fromToken ops1 new_PrivateTransfersBuilder) as (G1 & G2 & G3 & G4 & G5).
  fold b1 in G1, G2, G3, G4, G5. fold b2 in F1, F2, F3, F4, F5.
  unfold run_builder, swap_chain. cbn [fold_result run_op mbind result_bind]. fold ops1 ops2 b1 b2. unfold assertNoInvokePhaseAction. rewrite F3, G3, F4, G4.
  cbn [b_invokeExternal b_computeAndInvoke new_PrivateTransfersBuilder mbind result_bind]. eexists. split; [reflexivity|].
  unfold collectActions, surplus_of, am_entries. cbn [b_setViewingKey b_openChannels b_invokeExternal b_computeAndInvoke b_tokenBuilders b_defaultSurplus].
  rewrite Hm, F1, G1, F2, G2, F5, G5. reflexivity.
Qed.

(** ** A transfer

    User [1] has one note of [8] of token [7] and transfers [6] to user [3], to whom they have no channel yet: the note is spent and the
    change of [2] comes back. *)

Section Paying.
#[local] Existing Instance toy_crypto.
#[local] Existing Instance toy_platform.

Definition simple_note : Note :=
  {| note_id := BN_bigint 70; note_amount := 8; note_created := None;
     note_witness := {| w_channelKey := 33; w_nonce := 0; w_r := 4 |}; note_sender := 1; note_open := None |}.
Definition found_notes : AddressMap (list Note) := new_AddressMap None [(7, [simple_note])].

#[local] Instance finding_provider : DiscoveryProvider := {|
  dp_world := unit;
  discoverChannels := fun _ _ _ _ w =>
    (Ok {| cc_channels := Some (new_AddressMap None [(1, new_Channel 11 (Some 33) [(7, {| tokenIndex := 0; noteNonce := 1 |})]);
                                                     (3, new_Channel 5 None [])]);
           cc_total := Some 1 |}, w);
  discoverNotes := fun _ _ _ _ _ w => (Ok (found_notes, {| blockId := BN_number 0; incomingChannels := new_AddressMap None [] |}), w) |}.

Definition simple_registry : PrivateRegistry :=
  {| reg_channels := new_AddressMap None []; reg_notes := new_AddressMap (Some (fun _ => [])) [(7, [simple_note; simple_note])]; reg_cursor := None |}.
Definition simple_state (c : simple_call) : CompileState :=
  {| c_actions := simple_actions 1 7 c; c_registry := clear_notes simple_registry; c_world := tt |}.
Definition submitted (c : simple_call) : result sdk_error (list ClientActionType) :=
  match (compileOnce 1 2 77 false execute_options (simple_state c)).1 with
  | Ok res => Ok (map action_type (clientActions res))
  | Err e => Err e
  end.

(** A deposit looks for no notes; a payment spends the note; a payment of everything opens nothing and moves nothing. *)
Example calls_submit :
  (submitted (CallDeposit 5), submitted (CallWithdraw 9 (SomeAmount 6)), submitted (CallTransfer 3 (SomeAmount 8))) =
  (Ok [Interfaces.TDeposit; TCreateEncNote], Ok [TUseNote; TCreateEncNote; Interfaces.TWithdraw], Ok [TOpenChannel; TOpenSubchannel; TUseNote; TCreateEncNote]).
Proof. vm_compute. reflexivity. Qed.

Lemma simple_calls_settle_witness : exists res t,
  (compileOnce 1 2 77 false execute_options (simple_state (CallTransfer 3 (SomeAmount 6)))).1 = Ok res /\
  clientActions res = flatten (t_out t) /\ pays_out 1 2 7 (CallTransfer 3 (SomeAmount 6)) simple_registry (t_out t).
Proof.
  destruct (chain_collects 1 7 (CallTransfer 3 (SomeAmount 6))) as (b & Hb & Hcol).
  destruct (compileOnce 1 2 77 false execute_options (simple_state (CallTransfer 3 (SomeAmount 6)))) as [[res|e] c'] eqn:Hrun.
  - destruct (simple_calls_settle 1 2 77 false 7 (CallTransfer 3 (SomeAmount 6)) b simple_registry (tt : @dp_world finding_provider) res c') as (t & Ht & Hp).
    + exact Hb.
    + split_and!; [done|by right|apply NoDup_singleton].
    + intros u k cur ts bl w found cur' w' [= <- _ _]. apply NoDup_singleton.
    + rewrite Hcol. exact Hrun.
    + exists res, t. split; [reflexivity|split; [exact Ht|exact Hp]].
  - exfalso. assert (Hok : match (compileOnce 1 2 77 false execute_options (simple_state (CallTransfer 3 (SomeAmount 6)))).1 with Ok _ => true | _ => false end = true)
      by (vm_compute; reflexivity).
    rewrite Hrun in Hok. discriminate Hok.
Defined.

(** A swap of [6]: the executor receives exactly what it is told to exchange, and is told to fill the open note. *)
Example swap_submits :
  match (compileOnce 1 2 77 false execute_options
           {| c_actions := simple_swap_actions 1 7 6 8 55; c_registry := clear_notes simple_registry; c_world := tt |}).1 with
  | Ok res => filter (fun a => bool_decide (action_type a ∈ [Interfaces.TWithdraw; TInvokeExternal; TUseNote])) (clientActions res)
  | Err _ => []
  end = [AUseNote 33 7 0; AWithdraw 55 7 6 4; AInvokeExternal 55 [7; 8; 6; compute_note_id 33 8 0]].
Proof. vm_compute. reflexivity. Qed.

(** [transfer(token, recipient, All)] compiles to nothing that moves tokens, whatever the notes: neither a note is spent nor one created. *)
Lemma everything_moves_nothing (user vk poolAddress : Z) (notes_first : bool) (token recipient : Z) (public : bool) (r : PrivateRegistry) w res c' :
  let c := if public then CallWithdraw recipient All else CallTransfer recipient All in
  registry_wf r ->
  compileOnce user vk poolAddress notes_first execute_options
    {| c_actions := simple_actions user token c; c_registry := clear_notes r; c_world := w |} = (Ok res, c') ->
  exists out, clientActions res = flatten out /\ ca_deposits out = [] /\ ca_useNotes out = [] /\ ca_createNotes out = [] /\ ca_withdraws out = [].
Proof.
  intros c Hr Hrun. destruct (compileOnce_run _ _ _ _ _ _ _ _ Hrun) as (channels & w1 & rs & pool & t & _ & Hnotes & _ & Hact & He & Hca & _).
  exists (t_out t). split; [done|]. cbn [c_actions c_registry] in *. apply simple_resolved in Hnotes as (notes & Hd & Hw & Hu & Hc & Hle & Hs).
  2: done.
  2: { intros ? ? ? ? ? ? found ? ? [= <- _ _]. apply NoDup_singleton. }
  destruct (prepareActions_same user execute_options pool (getRecipientsNeeded user (simple_actions user token c)) (rs_actions rs)) as (Sd & Su & Sc & Sw).
  rewrite Hact in He. apply emit_all_emitted in He as (Ed & Eu & Ec & Ew).
  rewrite Sd, Hd in Ed. rewrite Su, Hu in Eu. rewrite Sc, Hc in Ec. rewrite Sw, Hw in Ew. unfold c in *.
  destruct public; cbn in *; subst notes; cbn in *; apply Forall2_nil_inv_l in Ec, Ew; by rewrite Ed, Eu.
Qed.
End Paying.
