(* ===== verification/SdkWallet.v ===== *)
(** * The wallet over a signer and its paymaster ([client/src/sdk-wallet.ts], [client/src/paymaster.ts])

    A wallet that is no strk20 wallet proves through the SDK and pays through a paymaster. Quotes, proofs,
    signatures and submissions are those of the class [WalletWorld]; a run returns what it
    asked of them, in order. *)
From Stdlib Require Import Ascii ZArith Lia QArith.
From stdpp Require Import base tactics list strings.
From S2P Require Import Prelude JsMap Convert Json ProvingService StarknetCalls ClientBuilder.

Local Open Scope string_scope.
Local Open Scope Z_scope.

(** ** Wire shapes *)

Record PaymasterCall : Type := { pc_to : string; pc_selector : string; pc_calldata : list string }.

Record PaymasterFeeAction : Type := { fee_recipient : string; fee_token : string; fee_amount : string }.

Inductive PaymasterBuild : Type :=
| BuildApplyAction (poolAddress : string)
| BuildInvokeAndApplyAction (poolAddress userAddress : string) (calls : list PaymasterCall).

(** [STRK20_PROOF]: what the wallet reads of it. *)
Record Strk20Proof : Type := { sp_data : string; sp_proof_facts : list string }.

Inductive PaymasterExecute {typed_data : Type} : Type :=
| ExecuteApplyAction (applyActionsCall : PaymasterCall) (proof : string) (proofFacts : list string)
| ExecuteInvokeAndApplyAction (applyActionsCall : PaymasterCall) (proof : string) (proofFacts : list string)
    (userAddress : string) (typedData : typed_data) (signature : list string).
Arguments PaymasterExecute : clear implicits.

Inductive wallet_error : Type :=
| WalletBadNumber
| WalletUnsupported
| WorldError (code : Z).

(** ** The world *)

(** The paymaster, the prover and the signer, whose signature is normalised to hexadecimal felts, and
    [cairo.uint256], which throws on what does not fit. *)
Class WalletWorld := {
  ww_typedData : Type;
  buildTransaction : PaymasterBuild -> result wallet_error (PaymasterFeeAction * option ww_typedData);
  executeTransaction : PaymasterExecute ww_typedData -> result wallet_error string;
  prove_actions : list Strk20Action -> bool -> result wallet_error (Strk20WireCall * Strk20Proof);
  signMessage_normalized : ww_typedData -> string -> result wallet_error (list string);
  uint256 : Z -> option (Z * Z)
}.

(** What is documented of [cairo.uint256]: the halves of the number. *)
Class WalletLaws `{WalletWorld} : Prop :=
  uint256_halves : forall z low high, uint256 z = Some (low, high) -> low + high * 2 ^ 128 = z /\ 0 <= low < 2 ^ 128 /\ 0 <= high < 2 ^ 128.

Inductive wallet_event {typed_data : Type} : Type :=
| AskedQuote (build : PaymasterBuild)
| AskedProof (actions : list Strk20Action) (simulate : bool)
| AskedSignature (typedData : typed_data) (userAddress : string)
| AskedExecution (execute : PaymasterExecute typed_data).
Arguments wallet_event : clear implicits.

Section Wallet.
Context `{WalletWorld} `{StarknetNum} (poolContractAddress userAddress : BigNumberish).

Definition run (A : Type) : Type := stateE (list (wallet_event ww_typedData)) wallet_error A.
Definition ask {A} (e : wallet_event ww_typedData) (r : result wallet_error A) : run A := fun l => (r, l ++ [e])%list.

(** [num.toHex] of a number of any spelling. *)
Definition hex_or_throw (v : BigNumberish) : result wallet_error string :=
  match toBigInt v with Some z => Ok (sn_toHex z) | None => Err WalletBadNumber end.

Definition toPaymasterCall (call : Call) : result wallet_error PaymasterCall :=
  data ← mapM hex_or_throw (default [] (calldata call));
  Ok {| pc_to := contractAddress call; pc_selector := getSelectorFromName (entrypoint call); pc_calldata := data |}.

Definition approveCall (poolAddress token amount : string) : result wallet_error PaymasterCall :=
  match toBigInt (BN_string amount) ≫= uint256 with
  | None => Err WalletBadNumber
  | Some (low, high) =>
      toPaymasterCall {| contractAddress := token; entrypoint := "approve";
                         calldata := Some [BN_string poolAddress; BN_string (sn_toHex low); BN_string (sn_toHex high)] |}
  end.

(** The deposits among the actions, in order: token and amount. *)
Definition deposits_of (actions : list Strk20Action) : list (string * string) :=
  omap (fun a => match a with SDeposit token amount => Some (token, amount) | _ => None end) actions.

Definition fee_withdraw (fee : PaymasterFeeAction) : Strk20Action :=
  SWithdraw (fee_token fee) (fee_amount fee) (fee_recipient fee).

Definition strk20InvokeTransaction (actions : list Strk20Action) : run string :=
  let poolAddress := js_String poolContractAddress in
  approveCalls ← st_lift (mapM (fun d => approveCall poolAddress d.1 d.2) (deposits_of actions));
  let build := match approveCalls with
               | [] => BuildApplyAction poolAddress
               | _ => BuildInvokeAndApplyAction poolAddress (js_String userAddress) approveCalls
               end in
  quote ← ask (AskedQuote build) (buildTransaction build);
  let all := (actions ++ [fee_withdraw quote.1])%list in
  proved ← ask (AskedProof all false) (prove_actions all false);
  call ← st_lift (toPaymasterCall (toStarknetCall proved.1));
  execute ← match approveCalls, quote.2 with
            | _ :: _, Some typedData =>
                signature ← ask (AskedSignature typedData (js_String userAddress)) (signMessage_normalized typedData (js_String userAddress));
                mret (ExecuteInvokeAndApplyAction call (sp_data proved.2) (sp_proof_facts proved.2) (js_String userAddress) typedData signature)
            | _, _ => mret (ExecuteApplyAction call (sp_data proved.2) (sp_proof_facts proved.2))
            end;
  ask (AskedExecution execute) (executeTransaction execute).

Definition strk20PrepareInvoke (actions : list Strk20Action) (simulate : bool) : run (Strk20WireCall * Strk20Proof) :=
  ask (AskedProof actions simulate) (prove_actions actions simulate).
Definition executeWithProof : run string := st_throw WalletUnsupported.
Definition estimateInvokeFee : run string := st_throw WalletUnsupported.
End Wallet.

(** ** The AVNU paymaster *)

Record PaymasterFeeMode : Type := { pool_fee_token : string; tip : option string }.

Definition fee_parameters (mode : PaymasterFeeMode) : json :=
  JObject [("version", JString "0x1");
           ("fee_mode", JObject ([("mode", JString "sponsored_private"); ("pool_fee_token", JString (pool_fee_token mode))] ++
              match tip mode with Some t => [("tip", JString t)] | None => [] end)%list)].

Definition call_json (c : PaymasterCall) : json :=
  JObject [("to", JString (pc_to c)); ("selector", JString (pc_selector c)); ("calldata", JArray (map JString (pc_calldata c)))].

Definition build_json (build : PaymasterBuild) : json :=
  match build with
  | BuildApplyAction pool => JObject [("type", JString "apply_action"); ("apply_action", JObject [("pool_address", JString pool)])]
  | BuildInvokeAndApplyAction pool user calls =>
      JObject [("type", JString "invoke_and_apply_action"); ("apply_action", JObject [("pool_address", JString pool)]);
               ("invoke", JObject [("user_address", JString user); ("calls", JArray (map call_json calls))])]
  end.

Definition apply_json (call : PaymasterCall) (proof : string) (facts : list string) : json :=
  JObject [("apply_actions_call", call_json call); ("proof", JString proof); ("proof_facts", JArray (map JString facts))].

(** The typed data is sent as the paymaster gave it. *)
Definition execute_json (execute : PaymasterExecute json) : json :=
  match execute with
  | ExecuteApplyAction call proof facts => JObject [("type", JString "apply_action"); ("apply_action", apply_json call proof facts)]
  | ExecuteInvokeAndApplyAction call proof facts user td signature =>
      JObject [("type", JString "invoke_and_apply_action"); ("apply_action", apply_json call proof facts);
               ("invoke", JObject [("user_address", JString user); ("typed_data", td); ("signature", JArray (map JString signature))])]
  end.

Definition rpc_params (transaction : json) (mode : PaymasterFeeMode) : json :=
  JObject [("transaction", transaction); ("parameters", fee_parameters mode)].
Definition rpc_body (method : string) (params : json) : json :=
  JObject [("jsonrpc", JString "2.0"); ("id", JNumber (Some 1%Q)); ("method", JString method); ("params", params)].

(** The headers: the key only if it is not empty. *)
Definition rpc_headers (apiKey : option string) : list (string * string) :=
  (("Content-Type", "application/json") ::
   match apiKey with Some (String _ _ as key) => [("x-paymaster-api-key", key)] | _ => [] end)%list.

Inductive rpc_detail : Type := NoDetail | DetailText (s : string) | DetailOf (execution_error : option json) (data : json).
Inductive paymaster_error : Type :=
| PaymasterRefused (method : string) (message code : option json) (detail : rpc_detail)
| PaymasterMalformed (method : string).

(** [data && typeof data === "object"]; other truthy data is left out. *)
Definition error_detail (data : option json) : rpc_detail :=
  match data with
  | Some (JString s) => DetailText s
  | Some (JObject _ as d) => DetailOf (field "execution_error" d) d
  | Some (JArray _ as d) => DetailOf None d
  | _ => NoDetail
  end.

(** The answer of a call, once its body is parsed to an object. *)
Definition rpc_outcome (method : string) (reply : json) : result paymaster_error json :=
  match field "error" reply with
  | Some e => if truthy_json e then Err (PaymasterRefused method (field "message" e) (field "code" e) (error_detail (field "data" e)))
              else match field "result" reply with Some r => Ok r | None => Err (PaymasterMalformed method) end
  | None => match field "result" reply with Some r => Ok r | None => Err (PaymasterMalformed method) end
  end.

(** A quote of the declared shape. *)
Definition read_quote (result : json) : option (PaymasterFeeAction * option json) :=
  fee ← field "fee_action" result;
  match field "recipient" fee, field "token" fee, field "amount" fee with
  | Some (JString r), Some (JString t), Some (JString a) =>
      Some ({| fee_recipient := r; fee_token := t; fee_amount := a |}, field "typed_data" result)
  | _, _, _ => None
  end.
Definition read_hash (result : json) : option string :=
  match field "transaction_hash" result with Some (JString h) => Some h | _ => None end.

(** ** What a submission asks for *)

(** An approval of a deposit: [approve(pool, amount)] on its token, the amount in two halves. *)
Definition approves `{StarknetNum} (poolAddress : string) (c : PaymasterCall) (d : string * string) : Prop :=
  pc_to c = d.1 /\ pc_selector c = getSelectorFromName "approve" /\
  exists pool amount low high, BigInt_of_string poolAddress = Some pool /\ BigInt_of_string d.2 = Some amount /\
    pc_calldata c = [sn_toHex pool; sn_toHex low; sn_toHex high] /\ low + high * 2 ^ 128 = amount /\ 0 <= low < 2 ^ 128 /\ 0 <= high < 2 ^ 128.

Definition approvals (build : PaymasterBuild) : list PaymasterCall :=
  match build with BuildApplyAction _ => [] | BuildInvokeAndApplyAction _ _ calls => calls end.

Definition is_execution {T} (e : wallet_event T) : bool := match e with AskedExecution _ => true | _ => false end.

Section Submission.
Context `{WalletLaws} `{StarknetNumLaws}.

Lemma approveCall_ok poolAddress d c : approveCall poolAddress d.1 d.2 = Ok c -> approves poolAddress c d.
Proof.
  unfold approveCall, toPaymasterCall. cbn [toBigInt]. destruct (BigInt_of_string d.2) as [amount|] eqn:Hamount; [|done]. cbn [mbind option_bind].
  destruct (uint256 amount) as [[low high]|] eqn:Hu; [|done]. destruct (uint256_halves _ _ _ Hu) as (Hsum & Hlow & Hhigh).
  cbn [default calldata contractAddress entrypoint]. intros (data & Hdata & [= <-])%bind_ok. split; [done|]. split; [done|].
  unfold hex_or_throw, id in Hdata. cbn [mapM toBigInt] in Hdata.
  rewrite (sn_toHex_spells low), (sn_toHex_spells high) in Hdata by lia.
  destruct (BigInt_of_string poolAddress) as [pool|] eqn:Hpool; [|done]. injection Hdata as <-.
  exists pool, amount, low, high. split_and!; done || lia.
Qed.

Lemma approveCalls_ok poolAddress ds calls : mapM (fun d => approveCall poolAddress d.1 d.2) ds = Ok calls ->
  Forall2 (approves poolAddress) calls ds.
Proof.
  revert calls. induction ds as [|d ds IH]; intros calls Hc; [injection Hc as <-; constructor|]. cbn [mapM] in Hc. cbv beta in Hc.
  apply bind_ok in Hc as (c & Hc & Hr). apply bind_ok in Hr as (cs & Hcs & [= <-]). constructor; [by apply approveCall_ok|by apply IH].
Qed.
End Submission.

(** C15: Submitting through the paymaster pays and approves what the actions need, and nothing else. A run submits at most once,
    and only after every earlier step succeeded. One that returns a hash asked for a quote with exactly one
    approval for each deposit, on its token, for its amount, to the pool; proved the actions followed by
    the quoted fee as a last withdrawal; and submitted that proven call with its proof. The submission carries
    the approvals, signed by the user on the quoted message, exactly if there is a deposit and the
    quote had a message to sign; otherwise it only applies the actions. *)
Theorem wallet_pays_and_approves `{WalletLaws} `{StarknetNumLaws} (pool user : BigNumberish) (actions : list Strk20Action) :
  let r := strk20InvokeTransaction pool user actions [] in
  (length (List.filter is_execution r.2) <= 1)%nat /\
  forall hash, r.1 = Ok hash -> exists build fee td call proof wire execute signing,
    r.2 = ([AskedQuote build; AskedProof (actions ++ [fee_withdraw fee])%list false] ++ signing ++ [AskedExecution execute])%list /\
    buildTransaction build = Ok (fee, td) /\ prove_actions (actions ++ [fee_withdraw fee])%list false = Ok (call, proof) /\
    toPaymasterCall (toStarknetCall call) = Ok wire /\ executeTransaction execute = Ok hash /\
    Forall2 (approves (js_String pool)) (approvals build) (deposits_of actions) /\
    match deposits_of actions, td with
    | _ :: _, Some t => exists signature, signMessage_normalized t (js_String user) = Ok signature /\
        signing = [AskedSignature t (js_String user)] /\
        execute = ExecuteInvokeAndApplyAction wire (sp_data proof) (sp_proof_facts proof) (js_String user) t signature
    | _, _ => signing = [] /\ execute = ExecuteApplyAction wire (sp_data proof) (sp_proof_facts proof)
    end.
Proof.
  unfold strk20InvokeTransaction, ask, st_lift. unfold mbind, stateE_bind.
  destruct (mapM _ (deposits_of actions)) as [calls|e] eqn:Hcalls; [|cbn; split; [lia|done]].
  apply approveCalls_ok in Hcalls. set (build := match calls with [] => _ | _ => _ end). cbn [app].
  assert (Hbuild : approvals build = calls) by (subst build; by destruct calls).
  destruct (buildTransaction build) as [[fee td]|e] eqn:Hquote; [|cbn; split; [lia|done]]. cbn [fst snd].
  destruct (prove_actions _ false) as [[call proof]|e] eqn:Hproof; [|cbn; split; [lia|done]]. cbn [fst snd].
  destruct (toPaymasterCall (toStarknetCall call)) as [wire|e] eqn:Hwire; [|cbn; split; [lia|done]].
  destruct calls as [|c calls].
  { apply Forall2_nil_inv_l in Hcalls as Hnil. rewrite Hnil in *. unfold mret, stateE_ret. cbn [fst snd]. destruct (executeTransaction (ExecuteApplyAction _ _ _)) as [h|e] eqn:Hx; (split; [cbn; lia|]); [|done].
    intros hash [= <-]. exists build, fee, td, call, proof, wire.
    exists (ExecuteApplyAction wire (sp_data proof) (sp_proof_facts proof)), []. rewrite Hbuild.
    split_and!; (reflexivity || done). }
  destruct (Forall2_cons_inv_l _ _ _ _ Hcalls) as (d & ds & Hd & Hds & Heq). rewrite Heq in *. destruct td as [t|].
  - unfold mret, stateE_ret. destruct (signMessage_normalized t (js_String user)) as [sig|e] eqn:Hsig; [|cbn; split; [lia|done]].
    destruct (executeTransaction (ExecuteInvokeAndApplyAction _ _ _ _ _ _)) as [h|e] eqn:Hx; cbn; (split; [lia|]); [|done].
    intros hash [= <-]. exists build, fee, (Some t), call, proof, wire.
    exists (ExecuteInvokeAndApplyAction wire (sp_data proof) (sp_proof_facts proof) (js_String user) t sig), [AskedSignature t (js_String user)]. rewrite Hbuild.
    split_and!; try (reflexivity || done). by exists sig.
  - unfold mret, stateE_ret. destruct (executeTransaction (ExecuteApplyAction _ _ _)) as [h|e] eqn:Hx; cbn; (split; [lia|]); [|done].
    intros hash [= <-]. exists build, fee, None, call, proof, wire.
    exists (ExecuteApplyAction wire (sp_data proof) (sp_proof_facts proof)), []. rewrite Hbuild.
    split_and!; (reflexivity || done).
Qed.

(** ** A deposit through a paymaster *)

(** A world where everything succeeds; whether the quote comes with a message to sign is given. *)
Definition sample_world (typed : option string) : WalletWorld := {|
  ww_typedData := string;
  buildTransaction := fun _ => Ok ({| fee_recipient := "0xfee"; fee_token := "0x4"; fee_amount := "0x1" |}, typed);
  executeTransaction := fun _ => Ok "0xhash";
  prove_actions := fun _ _ => Ok ({| contract_address := "0xab"; entry_point := "apply_actions"; wire_calldata := Some [BN_string "0x1"] |},
                                  {| sp_data := "proof"; sp_proof_facts := [] |});
  signMessage_normalized := fun _ _ => Ok ["0x5"];
  uint256 := fun z => if (0 <=? z) && (z <? 2 ^ 256) then Some (z mod 2 ^ 128, z / 2 ^ 128) else None |}.

Lemma sample_world_laws typed : @WalletLaws (sample_world typed).
Proof.
  intros z low high. cbn [uint256 sample_world]. destruct ((0 <=? z) && (z <? 2 ^ 256))%bool eqn:Hz; [|done]. split_bool. intros [= <- <-].
  pose proof (Z.div_mod z (2 ^ 128) ltac:(lia)) as Hd. pose proof (Z.mod_pos_bound z (2 ^ 128) ltac:(lia)) as Hm.
  split; [lia|]. split; [exact Hm|]. split; [apply Z.div_pos; lia|]. apply Z.div_lt_upper_bound; [lia|].
  change (2 ^ 128 * 2 ^ 128) with (2 ^ 256). lia.
Qed.

Lemma toy_num_spells : @StarknetNumLaws toy_num.
Proof. intros z Hz. by apply BigInt_toHex. Qed.

Definition submit_deposit (typed : option string) :=
  @strk20InvokeTransaction (sample_world typed) toy_num (BN_string "0xab") (BN_string "0x7") [SDeposit "0x5" "0x11"] [].

Lemma wallet_pays_and_approves_witness : exists build fee td,
  (exists rest, (submit_deposit (Some "message")).2 = AskedQuote build :: rest) /\
  @buildTransaction (sample_world (Some "message")) build = Ok (fee, td) /\ length (approvals build) = 1%nat.
Proof.
  destruct (@wallet_pays_and_approves (sample_world (Some "message")) (sample_world_laws _) toy_num toy_num_spells
    (BN_string "0xab") (BN_string "0x7") [SDeposit "0x5" "0x11"]) as [_ Hall].
  destruct (Hall "0xhash" eq_refl) as (build & fee & td & call & proof & wire & execute & signing & Hev & Hq & _ & _ & _ & Happ & _).
  exists build, fee, td. split; [by eexists|]. split; [exact Hq|]. by apply Forall2_length in Happ.
Defined.

(** If the quote for a deposit comes without a message to sign, the deposit is submitted without its approval. *)
Example approval_is_lost : exists execute, (submit_deposit None).1 = Ok "0xhash" /\
  last (submit_deposit None).2 = Some (AskedExecution execute) /\
  match execute with ExecuteApplyAction _ _ _ => True | ExecuteInvokeAndApplyAction _ _ _ _ _ _ => False end.
Proof. eexists. split_and!; reflexivity || exact I. Qed.

(** A refusal of the paymaster is reported with its detail, also when the answer holds a result. *)
Example refusal_wins : rpc_outcome "paymaster_buildTransaction"
  (JObject [("result", JNull); ("error", JObject [("message", JString "no"); ("code", JNumber (Some 150%Q)); ("data", JString "balance")])])
  = Err (PaymasterRefused "paymaster_buildTransaction" (Some (JString "no")) (Some (JNumber (Some 150%Q))) (DetailText "balance")).
Proof. reflexivity. Qed.
