(* ===== verification/JsonText.v ===== *)
(** * JSON text

    [JSON.stringify] and [JSON.parse] between trees and text, for the persisted records of the SDK: strings
    are ASCII and numbers are integers written without a fraction or an exponent. What is printed
    is read back, and the fuel of the reader is enough for any text. *)
From Stdlib Require Import Ascii ZArith Lia.
From stdpp Require Import base tactics list strings.
From S2P Require Import Prelude Convert PoolTransaction.

Local Open Scope string_scope.
Local Open Scope Z_scope.

#[warnings="-register-all"]
Inductive tree : Type :=
| TNull
| TBool (b : bool)
| TNumber (n : Z)
| TString (s : string)
| TArray (items : list tree)
| TObject (fields : list (string * tree)).

(** ** Printing *)

Definition QUOTE : ascii := "034".
Definition BACKSLASH : ascii := "092".

(** Escapes of [QuoteJSONString]: a letter, or the code in hexadecimal. *)
Definition escape_letter (c : ascii) : option ascii :=
  if Ascii.eqb c QUOTE then Some QUOTE
  else if Ascii.eqb c BACKSLASH then Some BACKSLASH
  else if Ascii.eqb c "008" then Some "b"%char
  else if Ascii.eqb c "009" then Some "t"%char
  else if Ascii.eqb c "010" then Some "n"%char
  else if Ascii.eqb c "012" then Some "f"%char
  else if Ascii.eqb c "013" then Some "r"%char
  else None.

Definition is_control (c : ascii) : bool := (nat_of_ascii c <? 32)%nat.

(** The escaped character before [rest]. *)
Definition print_char (c : ascii) (rest : string) : string :=
  match escape_letter c with
  | Some e => String BACKSLASH (String e rest)
  | None =>
      if is_control c then
        let n := Z.of_nat (nat_of_ascii c) in
        String BACKSLASH (String "u" (String "0" (String "0" (String (digit_char (n / 16)) (String (digit_char (n mod 16)) rest)))))
      else String c rest
  end.

Fixpoint print_chars (s rest : string) : string :=
  match s with EmptyString => String QUOTE rest | String c s => print_char c (print_chars s rest) end.
Definition print_string (s rest : string) : string := String QUOTE (print_chars s rest).

(** [JSON.stringify] of a tree, before [rest]. *)
Fixpoint print_tree (t : tree) (rest : string) : string :=
  match t with
  | TNull => "null" +:+ rest
  | TBool true => "true" +:+ rest
  | TBool false => "false" +:+ rest
  | TNumber n => bigint_toString 10 n +:+ rest
  | TString s => print_string s rest
  | TArray [] => String "[" (String "]" rest)
  | TArray (t :: l) =>
      String "[" (print_tree t (fold_right (fun t rest => String "," (print_tree t rest)) (String "]" rest) l))
  | TObject [] => String "{" (String "}" rest)
  | TObject ((k, t) :: l) =>
      String "{" (print_string k (String ":" (print_tree t
        (fold_right (fun e rest => String "," (print_string e.1 (String ":" (print_tree e.2 rest)))) (String "}" rest) l))))
  end.
Definition print (t : tree) : string := print_tree t "".

(** ** Reading *)

Definition is_json_space (c : ascii) : bool :=
  (Ascii.eqb c " " || Ascii.eqb c "009" || Ascii.eqb c "010" || Ascii.eqb c "013")%bool.
Fixpoint skip_space (s : string) : string :=
  match s with String c s' => if is_json_space c then skip_space s' else s | EmptyString => EmptyString end.

Definition unescape_letter (e : ascii) : option ascii :=
  if Ascii.eqb e QUOTE then Some QUOTE
  else if Ascii.eqb e BACKSLASH then Some BACKSLASH
  else if Ascii.eqb e "/" then Some "/"%char
  else if Ascii.eqb e "b" then Some "008"%char
  else if Ascii.eqb e "t" then Some "009"%char
  else if Ascii.eqb e "n" then Some "010"%char
  else if Ascii.eqb e "f" then Some "012"%char
  else if Ascii.eqb e "r" then Some "013"%char
  else None.

(** The characters of a string up to its closing quote, and what follows. *)
Fixpoint read_chars (s : string) : option (string * string) :=
  match s with
  | EmptyString => None
  | String c s =>
      if Ascii.eqb c QUOTE then Some (EmptyString, s)
      else if Ascii.eqb c BACKSLASH then
        match s with
        | EmptyString => None
        | String e s' =>
            if Ascii.eqb e "u" then
              match s' with
              | String a (String b (String c (String d s''))) =>
                  code ← parse_digits 16 (String a (String b (String c (String d EmptyString)))) 0;
                  if code <? 256 then r ← read_chars s''; Some (String (ascii_of_nat (Z.to_nat code)) r.1, r.2) else None
              | _ => None
              end
            else u ← unescape_letter e; r ← read_chars s'; Some (String u r.1, r.2)
        end
      else if is_control c then None
      else r ← read_chars s; Some (String c r.1, r.2)
  end.

(** The decimal digits a text starts with. *)
Fixpoint span_digits (s : string) : string * string :=
  match s with
  | String c s' => if is_decimal c then let r := span_digits s' in (String c r.1, r.2) else (EmptyString, s)
  | EmptyString => (EmptyString, EmptyString)
  end.

Definition starts_with (f : ascii -> bool) (s : string) : bool := match s with String c _ => f c | EmptyString => false end.
Definition continues_number (c : ascii) : bool := (Ascii.eqb c "." || Ascii.eqb c "e" || Ascii.eqb c "E")%bool.

(** Digits without a leading zero, and no fraction or exponent. *)
Definition read_natural (sign : Z) (s : string) : option (tree * string) :=
  let r := span_digits s in
  if starts_with continues_number r.2 then None
  else match r.1 with
       | EmptyString => None
       | String c (String _ _) => if Ascii.eqb c "0" then None else n ← parse_digits 10 r.1 0; Some (TNumber (sign * n), r.2)
       | _ => n ← parse_digits 10 r.1 0; Some (TNumber (sign * n), r.2)
       end.
Definition read_number (s : string) : option (tree * string) :=
  match s with
  | String c s' => if Ascii.eqb c "-" then read_natural (-1) s' else read_natural 1 s
  | EmptyString => None
  end.

Fixpoint drop_prefix (p s : string) : option string :=
  match p, s with
  | EmptyString, _ => Some s
  | String a p, String b s => if Ascii.eqb a b then drop_prefix p s else None
  | _, _ => None
  end.

Fixpoint read_value (fuel : nat) (s : string) : option (tree * string) :=
  match fuel with
  | O => None
  | S fuel =>
      match skip_space s with
      | EmptyString => None
      | String c s =>
          if Ascii.eqb c QUOTE then r ← read_chars s; Some (TString r.1, r.2)
          else if Ascii.eqb c "[" then
            match skip_space s with
            | String d s' => if Ascii.eqb d "]" then Some (TArray [], s') else r ← read_items fuel s; Some (TArray r.1, r.2)
            | EmptyString => None
            end
          else if Ascii.eqb c "{" then
            match skip_space s with
            | String d s' => if Ascii.eqb d "}" then Some (TObject [], s') else r ← read_members fuel s; Some (TObject r.1, r.2)
            | EmptyString => None
            end
          else if Ascii.eqb c "n" then rest ← drop_prefix "ull" s; Some (TNull, rest)
          else if Ascii.eqb c "t" then rest ← drop_prefix "rue" s; Some (TBool true, rest)
          else if Ascii.eqb c "f" then rest ← drop_prefix "alse" s; Some (TBool false, rest)
          else read_number (String c s)
      end
  end
with read_items (fuel : nat) (s : string) : option (list tree * string) :=
  match fuel with
  | O => None
  | S fuel =>
      v ← read_value fuel s;
      match skip_space v.2 with
      | String c s => if Ascii.eqb c "," then r ← read_items fuel s; Some (v.1 :: r.1, r.2)
                      else if Ascii.eqb c "]" then Some ([v.1], s) else None
      | EmptyString => None
      end
  end
with read_members (fuel : nat) (s : string) : option (list (string * tree) * string) :=
  match fuel with
  | O => None
  | S fuel =>
      match skip_space s with
      | String q s =>
          if Ascii.eqb q QUOTE then
            k ← read_chars s;
            match skip_space k.2 with
            | String c s =>
                if Ascii.eqb c ":" then
                  v ← read_value fuel s;
                  match skip_space v.2 with
                  | String c s => if Ascii.eqb c "," then r ← read_members fuel s; Some ((k.1, v.1) :: r.1, r.2)
                                  else if Ascii.eqb c "}" then Some ([(k.1, v.1)], s) else None
                  | EmptyString => None
                  end
                else None
            | EmptyString => None
            end
          else None
      | EmptyString => None
      end
  end.

(** [JSON.parse]: one value, then only space. *)
Definition read_fuel (s : string) : nat := S (2 * String.length s).
Definition parse (s : string) : option tree :=
  r ← read_value (read_fuel s) s;
  match skip_space r.2 with EmptyString => Some r.1 | _ => None end.

(** ** What is printed is read back *)

Section TreeInd.
Context (P : tree -> Prop).
Hypotheses (Hnull : P TNull) (Hbool : forall b, P (TBool b)) (Hnumber : forall n, P (TNumber n)) (Hstring : forall s, P (TString s))
  (Harray : forall l, Forall P l -> P (TArray l)) (Hobject : forall l, Forall (fun e => P e.2) l -> P (TObject l)).
Fixpoint tree_rect' (t : tree) : P t :=
  match t with
  | TNull => Hnull
  | TBool b => Hbool b
  | TNumber n => Hnumber n
  | TString s => Hstring s
  | TArray l => Harray l ((fix go l : Forall P l := match l with [] => Forall_nil_2 P | t :: l => Forall_cons_2 P t l (tree_rect' t) (go l) end) l)
  | TObject l => Hobject l ((fix go l : Forall (fun e => P e.2) l :=
      match l with [] => Forall_nil_2 _ | e :: l => Forall_cons_2 _ e l (tree_rect' e.2) (go l) end) l)
  end.
End TreeInd.

Lemma to_digits_head fuel n acc : 0 < n < 10 ^ Z.of_nat fuel -> exists d r, to_digits fuel 10 n acc = String (digit_char d) r /\ 1 <= d < 10.
Proof.
  revert n acc. induction fuel as [|fuel IH]; intros n acc Hn; [cbn in Hn; lia|].
  rewrite Nat2Z.inj_succ, Z.pow_succ_r in Hn by lia. cbn. destruct (Z.eqb_spec (n / 10) 0) as [Hq|Hq].
  - assert (Hlt : n < 10) by (apply Z.div_small_iff in Hq; lia). exists (n mod 10), acc. split; [done|]. rewrite Z.mod_small; lia.
  - apply IH. assert (0 <= n / 10) by (apply Z.div_pos; lia). split; [lia|]. apply Z.div_lt_upper_bound; lia.
Qed.

(** The text of a natural number: digits, without a leading zero. *)
Lemma decimal_text z : 0 <= z -> exists c r, bigint_toString 10 z = String c r /\ all_decimal (String c r) = true /\
  parse_digits 10 (String c r) 0 = Some z /\ (r = EmptyString \/ c <> "0"%char).
Proof.
  intros Hz. pose proof (parse_bigint_toString 10 z ltac:(lia) Hz) as Hp. revert Hp. unfold bigint_toString.
  rewrite (proj2 (Z.ltb_ge z 0)), Z.abs_eq by lia. destruct (decide (z = 0)) as [->|Hne].
  { intros Hp. exists "0"%char, "". split_and!; try done. by left. }
  destruct (to_digits_head (S (Z.to_nat (Z.log2 z))) z "") as (d & r & Hd & Hr).
  { split; [lia|]. apply digits_fuel; lia. }
  pose proof (to_digits_decimal (S (Z.to_nat (Z.log2 z))) z "" eq_refl) as Ha. rewrite Hd in *. intros Hp.
  exists (digit_char d), r. split_and!; [done|done|done|]. right. intros Heq.
  assert (Hc : char_digit (digit_char d) = Some d) by (apply char_digit_char; lia). rewrite Heq in Hc. vm_compute in Hc. injection Hc as Hc. lia.
Qed.

Lemma span_digits_app d rest : all_decimal d = true -> starts_with is_decimal rest = false -> span_digits (d +:+ rest) = (d, rest).
Proof.
  intros Hd Hr. induction d as [|c d IH].
  - change ("" +:+ rest) with rest. destruct rest as [|c rest]; [done|]. cbn in *. by rewrite Hr.
  - cbn in Hd. apply andb_prop in Hd as [Hc Hd]. change (String c d +:+ rest) with (String c (d +:+ rest)). cbn. by rewrite Hc, IH.
Qed.

(** What may follow a number. *)
Definition number_stops (rest : string) : Prop := starts_with is_decimal rest = false /\ starts_with continues_number rest = false.

Lemma read_digits c r z rest sign : all_decimal (String c r) = true -> parse_digits 10 (String c r) 0 = Some z ->
  (r = EmptyString \/ c <> "0"%char) -> number_stops rest ->
  read_natural sign (String c r +:+ rest) = Some (TNumber (sign * z), rest).
Proof.
  intros Ha Hp Hz [Hr Hc]. unfold read_natural. rewrite span_digits_app by done. cbn [fst snd]. rewrite Hc. destruct r as [|d r]; [by rewrite Hp|].
  destruct Hz as [Hz|Hz]; [done|]. rewrite (proj2 (Ascii.eqb_neq c "0") Hz). by rewrite Hp.
Qed.

Lemma decimal_no_minus c : is_decimal c = true -> Ascii.eqb c "-" = false.
Proof. destruct c as [[] [] [] [] [] [] [] []]; done. Qed.

Lemma read_number_print n rest : number_stops rest -> read_number (bigint_toString 10 n +:+ rest) = Some (TNumber n, rest).
Proof.
  intros Hr. unfold read_number. destruct (Z.ltb_spec n 0) as [Hn|Hn].
  - destruct (decimal_text (- n) ltac:(lia)) as (c & r & Heq & Ha & Hp & Hz).
    assert (Htext : bigint_toString 10 n = String "-" (String c r)).
    { rewrite <- Heq. unfold bigint_toString. rewrite (proj2 (Z.ltb_lt n 0)), (proj2 (Z.ltb_ge (- n) 0)), Z.abs_opp by lia. done. }
    rewrite Htext. change (String "-" (String c r) +:+ rest) with (String "-" (String c r +:+ rest)).
    change (Ascii.eqb "-" "-") with true. cbv iota. rewrite (read_digits c r (- n) rest (-1)) by done. do 2 f_equal. f_equal. lia.
  - destruct (decimal_text n ltac:(lia)) as (c & r & Heq & Ha & Hp & Hz). rewrite Heq.
    change (String c r +:+ rest) with (String c (r +:+ rest)). cbn in Ha. apply andb_prop in Ha as [Hc Ha].
    rewrite (decimal_no_minus c Hc). change (String c (r +:+ rest)) with (String c r +:+ rest).
    rewrite (read_digits c r n rest 1); [by rewrite Z.mul_1_l|by cbn; rewrite Hc, Ha|done..].
Qed.

Lemma read_print_char c x : read_chars (print_char c x) = (r ← read_chars x; Some (String c r.1, r.2)).
Proof. destruct c as [[] [] [] [] [] [] [] []]; reflexivity. Qed.

Lemma read_print_chars s rest : read_chars (print_chars s rest) = Some (s, rest).
Proof. induction s as [|c s IH]; [done|]. cbn [print_chars]. by rewrite read_print_char, IH. Qed.

(** The fuel that reading the text of a tree takes. *)
Fixpoint tree_size (t : tree) : nat :=
  match t with
  | TArray l => S (list_sum (map (fun t => S (tree_size t)) l))
  | TObject l => S (list_sum (map (fun e => S (tree_size e.2)) l))
  | _ => 1%nat
  end.

(** How the text of a value starts. *)
Lemma print_head t rest : exists c s, print_tree t rest = String c s /\ is_json_space c = false /\
  Ascii.eqb c "]" = false /\ Ascii.eqb c "}" = false.
Proof.
  destruct t as [|[]|n|s|[|t l]|[|[k t] l]]; try (by eexists _, _).
  cbn [print_tree]. destruct (Z.ltb_spec n 0) as [Hn|Hn].
  - unfold bigint_toString. rewrite (proj2 (Z.ltb_lt n 0)) by lia. by eexists _, _.
  - destruct (decimal_text n Hn) as (c & r & -> & Ha & _). exists c, (r +:+ rest). split; [done|]. cbn in Ha. apply andb_prop in Ha as [Hc _].
    destruct c as [[] [] [] [] [] [] [] []]; done.
Qed.

Lemma skip_print t rest : skip_space (print_tree t rest) = print_tree t rest.
Proof. destruct (print_head t rest) as (c & s & -> & Hc & _). cbn. by rewrite Hc. Qed.

Lemma read_value_number fuel n rest : number_stops rest -> read_value (S fuel) (bigint_toString 10 n +:+ rest) = Some (TNumber n, rest).
Proof.
  intros Hr. pose proof (read_number_print n rest Hr) as Hread. pose proof (skip_print (TNumber n) rest) as Hskip. cbn [print_tree] in Hskip.
  cbn [read_value]. rewrite Hskip.
  assert (Hhead : exists c s, bigint_toString 10 n +:+ rest = String c s /\ (is_decimal c || Ascii.eqb c "-")%bool = true).
  { destruct (Z.ltb_spec n 0) as [Hn|Hn].
    - unfold bigint_toString. rewrite (proj2 (Z.ltb_lt n 0)) by lia. by eexists _, _.
    - destruct (decimal_text n Hn) as (c & r & -> & Ha & _). exists c, (r +:+ rest). split; [done|]. cbn in Ha.
      apply andb_prop in Ha as [-> _]. done. }
  destruct Hhead as (c & s & Heq & Hc). rewrite Heq in *.
  destruct c as [[] [] [] [] [] [] [] []]; try discriminate Hc; exact Hread.
Qed.

Section Items.
Definition reads_back (t : tree) : Prop :=
  forall fuel rest, (tree_size t <= fuel)%nat -> number_stops rest -> read_value fuel (print_tree t rest) = Some (t, rest).

Lemma stops_comma s : number_stops (String "," s).
Proof. done. Qed.

Lemma read_items_print t l fuel rest : reads_back t -> Forall reads_back l -> (list_sum (map (fun t => S (tree_size t)) (t :: l)) <= fuel)%nat ->
  read_items fuel (print_tree t (fold_right (fun t rest => String "," (print_tree t rest)) (String "]" rest) l)) = Some (t :: l, rest).
Proof.
  revert t fuel. induction l as [|u l IH]; intros t fuel Ht Hl Hf; (destruct fuel as [|fuel]; [cbn in Hf; lia|]); cbn [read_items fold_right].
  - rewrite Ht; [done|cbn in Hf; lia|done].
  - apply Forall_cons in Hl as [Hu Hl]. rewrite Ht; [|cbn in Hf; lia|done]. cbn [mbind option_bind fst snd].
    change (skip_space (String "," ?s)) with (String "," s). cbv iota. change (Ascii.eqb "," ",") with true. cbv iota.
    cbn in Hf. rewrite IH; [done|done|done|cbn; lia].
Qed.

Lemma read_members_print k t l fuel rest : reads_back t -> Forall (fun e => reads_back e.2) l ->
  (list_sum (map (fun e => S (tree_size e.2)) ((k, t) :: l)) <= fuel)%nat ->
  read_members fuel (print_string k (String ":" (print_tree t
    (fold_right (fun e rest => String "," (print_string e.1 (String ":" (print_tree e.2 rest)))) (String "}" rest) l)))) = Some ((k, t) :: l, rest).
Proof.
  revert k t fuel. induction l as [|[k' u] l IH]; intros k t fuel Ht Hl Hf; (destruct fuel as [|fuel]; [cbn in Hf; lia|]);
    cbn [read_members fold_right]; unfold print_string at 1; change (skip_space (String QUOTE ?s)) with (String QUOTE s); cbv iota;
    change (Ascii.eqb QUOTE QUOTE) with true; cbv iota; rewrite read_print_chars; cbn [mbind option_bind fst snd];
    change (skip_space (String ":" ?s)) with (String ":" s); cbv iota; change (Ascii.eqb ":" ":") with true; cbv iota.
  - rewrite Ht; [done|cbn in Hf; lia|done].
  - apply Forall_cons in Hl as [Hu Hl]. rewrite Ht; [|cbn in Hf; lia|done]. cbn [mbind option_bind fst snd].
    change (skip_space (String "," ?s)) with (String "," s). cbv iota. change (Ascii.eqb "," ",") with true. cbv iota.
    cbn in Hf. rewrite (IH k' u); [done|done|done|cbn; lia].
Qed.
End Items.

Lemma read_print t : reads_back t.
Proof.
  induction t as [|b|n|s|l IH|l IH] using tree_rect'; intros fuel rest Hf Hr; (destruct fuel as [|fuel]; [cbn in Hf; lia|]).
  - done.
  - by destruct b.
  - by apply read_value_number.
  - cbn [read_value print_tree]. unfold print_string. change (skip_space (String QUOTE ?s)) with (String QUOTE s). cbv iota.
    change (Ascii.eqb QUOTE QUOTE) with true. cbv iota. by rewrite read_print_chars.
  - destruct l as [|t l]; [done|]. apply Forall_cons in IH as [Ht Hl]. cbn [read_value print_tree].
    change (skip_space (String "[" ?s)) with (String "[" s). cbv iota. change (Ascii.eqb "[" QUOTE) with false. change (Ascii.eqb "[" "[") with true. cbv iota.
    rewrite skip_print. set (tail := fold_right _ _ l). destruct (print_head t tail) as (c & s & Heq & _ & Hc & _). rewrite Heq, Hc, <- Heq.
    subst tail. rewrite read_items_print; [done|done|done|]. cbn in Hf |- *. lia.
  - destruct l as [|[k t] l]; [done|]. apply Forall_cons in IH as [Ht Hl]. cbn [read_value print_tree].
    change (skip_space (String "{" ?s)) with (String "{" s). cbv iota. change (Ascii.eqb "{" QUOTE) with false. change (Ascii.eqb "{" "[") with false.
    change (Ascii.eqb "{" "{") with true. cbv iota.
    unfold print_string at 1. change (skip_space (String QUOTE ?s)) with (String QUOTE s). cbv iota. change (Ascii.eqb QUOTE "}") with false. cbv iota.
    rewrite (read_members_print k t l); [done|done|done|]. cbn in Hf |- *. lia.
Qed.

Lemma print_chars_length s rest : (S (String.length rest) <= String.length (print_chars s rest))%nat.
Proof.
  induction s as [|c s IH]; [cbn; lia|]. cbn [print_chars]. unfold print_char. destruct (escape_letter c); [cbn; lia|].
  destruct (is_control c); cbn; lia.
Qed.

Lemma print_length t : forall rest, (tree_size t + String.length rest <= String.length (print_tree t rest))%nat.
Proof.
  induction t as [|b|n|s|l IH|l IH] using tree_rect'; intros rest.
  - cbn [print_tree tree_size]. rewrite length_append. cbn. lia.
  - destruct b; cbn [print_tree tree_size]; rewrite length_append; cbn; lia.
  - cbn [print_tree tree_size]. rewrite length_append. destruct (Z.ltb_spec n 0) as [Hn|Hn].
    + unfold bigint_toString. rewrite (proj2 (Z.ltb_lt n 0)) by lia. cbn. lia.
    + destruct (decimal_text n Hn) as (c & r & -> & _). cbn. lia.
  - cbn [print_tree tree_size]. unfold print_string. cbn. pose proof (print_chars_length s rest). lia.
  - destruct l as [|t l]; [cbn; lia|]. apply Forall_cons in IH as [Ht Hl]. cbn [print_tree tree_size map list_sum fold_right String.length].
    assert (Hfold : (list_sum (map (fun t => S (tree_size t)) l) + S (String.length rest) <=
      String.length (fold_right (fun t rest => String "," (print_tree t rest)) (String "]" rest) l))%nat).
    { clear Ht. induction Hl as [|u l Hu _ IH]; [cbn; lia|]. cbn in *. specialize (Hu (fold_right (fun t rest => String "," (print_tree t rest)) (String "]" rest) l)). unfold list_sum in *. lia. }
    specialize (Ht (fold_right (fun t rest => String "," (print_tree t rest)) (String "]" rest) l)). unfold list_sum in *. lia.
  - destruct l as [|[k t] l]; [cbn; lia|]. apply Forall_cons in IH as [Ht Hl]. cbn [print_tree tree_size map list_sum fold_right String.length snd] in *.
    set (step := fun e rest => String "," (print_string e.1 (String ":" (print_tree e.2 rest)))) in *.
    assert (Hfold : (list_sum (map (fun e => S (tree_size e.2)) l) + S (String.length rest) <= String.length (fold_right step (String "}" rest) l))%nat).
    { clear Ht. induction Hl as [|[k' u] l Hu _ IH]; [cbn; lia|]. cbn [map list_sum fold_right] in *. unfold step at 1. cbn [fst snd] in *.
      specialize (Hu (fold_right step (String "}" rest) l)).
      pose proof (print_chars_length k' (String ":" (print_tree u (fold_right step (String "}" rest) l)))) as Hk. cbn in Hk |- *. unfold list_sum in *. lia. }
    specialize (Ht (fold_right step (String "}" rest) l)).
    pose proof (print_chars_length k (String ":" (print_tree t (fold_right step (String "}" rest) l)))) as Hk.
    unfold print_string. cbn in Hk |- *. unfold list_sum in *. lia.
Qed.

(** What is printed is read back. *)
Lemma parse_print t : parse (print t) = Some t.
Proof.
  unfold parse, print. rewrite read_print; [done| |done]. pose proof (print_length t "") as Hl. unfold read_fuel. lia.
Qed.

(** ** The fuel is enough for any text *)

Lemma skip_space_length s : (String.length (skip_space s) <= String.length s)%nat.
Proof. induction s as [|c s IH]; [done|]. cbn. destruct (is_json_space c); cbn; lia. Qed.

Lemma read_chars_shortens_below n s p : (String.length s < n)%nat -> read_chars s = Some p -> (String.length p.1 + String.length p.2 < String.length s)%nat.
Proof.
  revert s p. induction n as [|n IH]; intros s p Hn Hr; [lia|]. destruct s as [|c s]; [done|]. cbn in Hn. cbn [read_chars] in Hr.
  destruct (Ascii.eqb c QUOTE); [injection Hr as <-; cbn; lia|]. destruct (Ascii.eqb c BACKSLASH).
  - destruct s as [|e s]; [done|]. destruct (Ascii.eqb e "u").
    + destruct s as [|c1 [|c2 [|c3 [|c4 s]]]]; try done. destruct (parse_digits _ _ _) as [code|]; [|done]. cbn [mbind option_bind] in Hr.
      destruct (code <? 256); [|done]. destruct (read_chars s) as [r|] eqn:Hs; [|done]. injection Hr as <-.
      apply IH in Hs; cbn in *; lia.
    + destruct (unescape_letter e); [|done]. cbn [mbind option_bind] in Hr. destruct (read_chars s) as [r|] eqn:Hs; [|done]. injection Hr as <-.
      apply IH in Hs; cbn in *; lia.
  - destruct (is_control c); [done|]. destruct (read_chars s) as [r|] eqn:Hs; [|done]. injection Hr as <-. apply IH in Hs; cbn in *; lia.
Qed.

Lemma read_chars_shortens s p : read_chars s = Some p -> (String.length p.1 + String.length p.2 < String.length s)%nat.
Proof. apply (read_chars_shortens_below (S (String.length s))). lia. Qed.
Lemma read_chars_length s p : read_chars s = Some p -> (String.length p.2 < String.length s)%nat.
Proof. intros Hr%read_chars_shortens. lia. Qed.

Lemma span_digits_length s : (String.length (span_digits s).1 + String.length (span_digits s).2 = String.length s)%nat.
Proof. induction s as [|c s IH]; [done|]. cbn. destruct (is_decimal c); cbn; [by rewrite IH|done]. Qed.

Lemma read_natural_length sign s p : read_natural sign s = Some p -> (String.length p.2 < String.length s)%nat.
Proof.
  unfold read_natural. pose proof (span_digits_length s) as Hl. destruct (starts_with continues_number (span_digits s).2); [done|].
  destruct (span_digits s).1 as [|c [|d r]]; [done| |destruct (Ascii.eqb c "0"); [done|]];
    destruct (parse_digits 10 _ 0); try done; intros [= <-]; cbn in *; lia.
Qed.

Lemma drop_prefix_length q s r : drop_prefix q s = Some r -> (String.length r <= String.length s)%nat.
Proof.
  revert s. induction q as [|a q IH]; intros s Hd; [by injection Hd as <-|]. destruct s as [|b s]; [done|]. cbn in Hd.
  destruct (Ascii.eqb a b); [|done]. apply IH in Hd. cbn. lia.
Qed.

(** Reading shortens the text, and once it succeeds it succeeds with any fuel above twice the length. *)
Definition settled {A} (read : nat -> string -> option (A * string)) (extra : nat) (s : string) (p : A * string) : Prop :=
  (String.length p.2 < String.length s)%nat /\ forall g, (2 * String.length s + extra <= g)%nat -> read g s = Some p.

Section Settled.
Context (f : nat) (Hv : forall s p, read_value f s = Some p -> settled read_value 0 s p)
  (Hi : forall s p, read_items f s = Some p -> settled read_items 1 s p)
  (Hm : forall s p, read_members f s = Some p -> settled read_members 1 s p).

Lemma read_items_settled s p : read_items (S f) s = Some p -> settled read_items 1 s p.
Proof.
  cbn [read_items]. destruct (read_value f s) as [v|] eqn:Hrv; [|done]. cbn [mbind option_bind]. apply Hv in Hrv as [Hlen Hall].
  pose proof (skip_space_length v.2) as Hskip. destruct (skip_space v.2) as [|c s'] eqn:Hs; [done|]. cbn in Hskip.
  destruct (Ascii.eqb c ",") eqn:Hc.
  - destruct (read_items f s') as [r|] eqn:Hr; [|done]. intros [= <-]. apply Hi in Hr as [Hlen' Hall']. split; [cbn; lia|].
    intros [|g] Hg; [lia|]. cbn [read_items]. rewrite Hall by lia. cbn [mbind option_bind]. rewrite Hs, Hc, Hall' by lia. done.
  - destruct (Ascii.eqb c "]") eqn:Hd; [|done]. intros [= <-]. split; [cbn; lia|].
    intros [|g] Hg; [lia|]. cbn [read_items]. rewrite Hall by lia. cbn [mbind option_bind]. by rewrite Hs, Hc, Hd.
Qed.

Lemma read_members_settled s p : read_members (S f) s = Some p -> settled read_members 1 s p.
Proof.
  cbn [read_members]. pose proof (skip_space_length s) as Hskip0. destruct (skip_space s) as [|q s0] eqn:Hs0; [done|]. cbn in Hskip0.
  destruct (Ascii.eqb q QUOTE) eqn:Hq; [|done]. destruct (read_chars s0) as [k|] eqn:Hk; [|done]. apply read_chars_length in Hk as Hklen.
  cbn [mbind option_bind]. pose proof (skip_space_length k.2) as Hskip1. destruct (skip_space k.2) as [|c s1] eqn:Hs1; [done|]. cbn in Hskip1.
  destruct (Ascii.eqb c ":") eqn:Hc; [|done]. destruct (read_value f s1) as [v|] eqn:Hrv; [|done]. cbn [mbind option_bind].
  apply Hv in Hrv as [Hlen Hall]. pose proof (skip_space_length v.2) as Hskip. destruct (skip_space v.2) as [|d s2] eqn:Hs2; [done|]. cbn in Hskip.
  destruct (Ascii.eqb d ",") eqn:Hd.
  - destruct (read_members f s2) as [r|] eqn:Hr; [|done]. intros [= <-]. apply Hm in Hr as [Hlen' Hall']. split; [cbn; lia|].
    intros [|g] Hg; [lia|]. cbn [read_members]. rewrite Hs0, Hq, Hk. cbn [mbind option_bind]. rewrite Hs1, Hc, Hall by lia. cbn [mbind option_bind].
    rewrite Hs2, Hd, Hall' by lia. done.
  - destruct (Ascii.eqb d "}") eqn:He; [|done]. intros [= <-]. split; [cbn; lia|].
    intros [|g] Hg; [lia|]. cbn [read_members]. rewrite Hs0, Hq, Hk. cbn [mbind option_bind]. rewrite Hs1, Hc, Hall by lia. cbn [mbind option_bind].
    by rewrite Hs2, Hd, He.
Qed.

Lemma read_value_settled s p : read_value (S f) s = Some p -> settled read_value 0 s p.
Proof.
  cbn [read_value]. pose proof (skip_space_length s) as Hskip0. destruct (skip_space s) as [|c s0] eqn:Hs0; [done|]. cbn in Hskip0.
  assert (Hflat : forall (r : option (tree * string)), (forall g, read_value (S g) s = r) -> r = Some p ->
    (String.length p.2 < S (String.length s0))%nat -> settled read_value 0 s p).
  { intros r Hr -> Hl. split; [lia|]. intros [|g] Hg; [lia|]. apply Hr. }
  destruct (Ascii.eqb c QUOTE) eqn:H1.
  { intros Hr. eapply Hflat; [|exact Hr|]; [intros g; cbn [read_value]; by rewrite Hs0, H1|].
    destruct (read_chars s0) as [r|] eqn:Hc; [|done]. injection Hr as <-. apply read_chars_length in Hc. cbn. lia. }
  destruct (Ascii.eqb c "[") eqn:H2.
  { pose proof (skip_space_length s0) as Hskip. destruct (skip_space s0) as [|d s'] eqn:Hs'; [done|]. cbn in Hskip. destruct (Ascii.eqb d "]") eqn:Hd.
    - intros Hr. eapply Hflat; [|exact Hr|]; [intros g; cbn [read_value]; by rewrite Hs0, H1, H2, Hs', Hd|]. injection Hr as <-. cbn. lia.
    - destruct (read_items f s0) as [r|] eqn:Hr; [|done]. intros [= <-]. apply Hi in Hr as [Hlen Hall]. split; [cbn; lia|].
      intros [|g] Hg; [lia|]. cbn [read_value]. rewrite Hs0, H1, H2, Hs', Hd, Hall by lia. done. }
  destruct (Ascii.eqb c "{") eqn:H3.
  { pose proof (skip_space_length s0) as Hskip. destruct (skip_space s0) as [|d s'] eqn:Hs'; [done|]. cbn in Hskip. destruct (Ascii.eqb d "}") eqn:Hd.
    - intros Hr. eapply Hflat; [|exact Hr|]; [intros g; cbn [read_value]; by rewrite Hs0, H1, H2, H3, Hs', Hd|]. injection Hr as <-. cbn. lia.
    - destruct (read_members f s0) as [r|] eqn:Hr; [|done]. intros [= <-]. apply Hm in Hr as [Hlen Hall]. split; [cbn; lia|].
      intros [|g] Hg; [lia|]. cbn [read_value]. rewrite Hs0, H1, H2, H3, Hs', Hd, Hall by lia. done. }
  intros Hr. eapply Hflat; [|exact Hr|]; [intros g; cbn [read_value]; by rewrite Hs0, H1, H2, H3|].
  destruct (Ascii.eqb c "n"); [|destruct (Ascii.eqb c "t"); [|destruct (Ascii.eqb c "f")]].
  1-3: destruct (drop_prefix _ s0) as [rest|] eqn:Hd; [|done]; injection Hr as <-; apply drop_prefix_length in Hd; cbn; lia.
  unfold read_number in Hr. destruct (Ascii.eqb c "-"); apply read_natural_length in Hr; cbn in *; lia.
Qed.
End Settled.

Lemma reading_settles f :
  (forall s p, read_value f s = Some p -> settled read_value 0 s p) /\
  (forall s p, read_items f s = Some p -> settled read_items 1 s p) /\
  (forall s p, read_members f s = Some p -> settled read_members 1 s p).
Proof.
  induction f as [|f (Hv & Hi & Hm)]; [done|].
  split_and!; intros s p; [by apply read_value_settled|by apply read_items_settled|by apply read_members_settled].
Qed.

(** More fuel reads nothing else. *)
Lemma read_fuel_enough f s p : read_value f s = Some p -> read_value (read_fuel s) s = Some p.
Proof. intros Hr. apply (proj1 (reading_settles f)) in Hr as [_ Hall]. apply Hall. unfold read_fuel. lia. Qed.

