(* ===== verification/ErrorDecoder.v ===== *)
(** * Error texts ([sdk/src/utils/error-decoder.ts], [testing/tracing-provider.ts])

    What the SDK shows developers of a failure: error data with its felts and selectors spelled out,
    and errors of transactions enriched from their trace. Error data is a JSON tree ([JsonText]) whose
    keys are not array indices; [hash.getSelectorFromName] is a parameter. *)
From Stdlib Require Import Ascii ZArith Lia.
From stdpp Require Import base tactics countable list strings.
From S2P Require Import Prelude Convert Crypto PoolTransaction JsonText.

Local Open Scope string_scope.
Local Open Scope Z_scope.

(** ** Texts in felts *)

Definition printable (charCode : option Z) : option ascii :=
  n ← charCode; if (32 <=? n) && (n <=? 126) then Some (ascii_of_nat (Z.to_nat n)) else None.

(** The loop of [hexToString]: two characters at a time, a single one at the end of an odd text. *)
Fixpoint pairs_text (cleanHex : string) : option string :=
  match cleanHex with
  | EmptyString => Some EmptyString
  | String a EmptyString => c ← printable (parseInt16 (String a EmptyString)); Some (String c EmptyString)
  | String a (String b rest) => c ← printable (parseInt16 (String a (String b EmptyString))); String c <$> pairs_text rest
  end.

Definition hexToString (hex : string) : string :=
  match drop_prefix "0x" hex with
  | Some cleanHex => match pairs_text cleanHex with Some (String _ _ as str) => str | _ => hex end
  | None => hex
  end.

(** [`${text} (${item})`]. *)
Definition noted (text item : string) : string := text +:+ " (" +:+ item +:+ ")".
Definition annotate (item : string) : string :=
  let decoded := hexToString item in if String.eqb decoded item then item else noted decoded item.

(** ** Names of selectors *)

Definition COMMON_FUNCTIONS : list string :=
  ["__execute__"; "__validate__"; "__validate_declare__"; "__validate_deploy__"; "is_valid_signature"; "get_nonce";
   "transfer"; "transfer_from"; "approve"; "balance_of"; "allowance"; "total_supply"; "name"; "symbol"; "decimals";
   "owner_of"; "safe_transfer_from"; "set_approval_for_all"; "get_approved"; "is_approved_for_all";
   "execute_from_outside"; "execute_from_outside_v2"; "is_valid_outside_execution_nonce";
   "owner"; "transfer_ownership"; "renounce_ownership"; "upgrade"; "has_role"; "grant_role"; "revoke_role";
   "register"; "deposit"; "withdraw"; "get_public_key"; "set_viewing_key"; "get_note"; "get_nullifier"; "get_channel"].

(** [selectorToName]: the entries of the map in the order of their insertion. *)
Definition registry : Type := list (string * string).
Fixpoint registry_get (selector : string) (r : registry) : option string :=
  match r with [] => None | e :: r => if String.eqb e.1 selector then Some e.2 else registry_get selector r end.
Fixpoint registry_set (selector name : string) (r : registry) : registry :=
  match r with
  | [] => [(selector, name)]
  | e :: r => if String.eqb e.1 selector then (selector, name) :: r else e :: registry_set selector name r
  end.

(** [for (const [key, name] of entries) if (BigInt(key) === selectorBigInt) return name]; an exception ends it with [undefined]. *)
Fixpoint find_selector (z : Z) (r : registry) : option string :=
  match r with
  | [] => None
  | (key, name) :: r => match BigInt_of_string key with Some k => if k =? z then Some name else find_selector z r | None => None end
  end.

Definition lookupSelector (r : registry) (selectorHex : string) : option string :=
  match registry_get (toLowerCase selectorHex) r with
  | Some name => Some name
  | None => z ← BigInt_of_string selectorHex; find_selector z r
  end.

Section Registry.
Context (getSelectorFromName : string -> string).

(** The map the module starts with. *)
Definition initial_selectors : registry :=
  fold_left (fun r name => registry_set (toLowerCase (getSelectorFromName name)) name r) COMMON_FUNCTIONS [].

Definition addSelectors (names : list string) (r : registry) : registry :=
  fold_left (fun r name =>
    let selector := toLowerCase (getSelectorFromName name) in
    match registry_get selector r with Some _ => r | None => registry_set selector name r end) names r.
End Registry.

(** ** Decoding error data *)

Section Decode.
Context (selectorToName : registry).

(** [result[key] = value]. *)
Fixpoint set_field (key : string) (value : tree) (result : list (string * tree)) : list (string * tree) :=
  match result with
  | [] => [(key, value)]
  | e :: result => if String.eqb e.1 key then (key, value) :: result else e :: set_field key value result
  end.

Section Step.
Context (decodeValue : tree -> tree).

Definition decode_item (item : tree) : tree := match item with TString s => TString (annotate s) | _ => decodeValue item end.
Definition decodeErrorArray (arr : list tree) : list tree := map decode_item arr.

Definition decode_selector (value : string) : tree :=
  match lookupSelector selectorToName value with
  | Some (String _ _ as funcName) => TString (noted funcName value)
  | _ => TString value
  end.

(** [.map] of a parsed value that is no array throws, and the [catch] decodes the text. *)
Definition decode_array_text (value : string) : tree :=
  match parse value with Some (TArray arr) => TArray (decodeErrorArray arr) | _ => decodeValue (TString value) end.

Definition decode_entry (key : string) (value : tree) : tree :=
  match value with
  | TString s =>
      if String.eqb key "selector" then decode_selector s
      else if String.eqb key "error" && String.prefix "[" s then decode_array_text s
      else decodeValue value
  | _ => decodeValue value
  end.
End Step.

(** [decodeValue]; the fuel bounds the nesting of values, texts of JSON included. *)
Fixpoint decodeValue (fuel : nat) (obj : tree) : tree :=
  match fuel with
  | O => obj
  | S fuel =>
      match obj with
      | TString s => match parse s with Some v => decodeValue fuel v | None => TString (annotate s) end
      | TArray arr => TArray (decodeErrorArray (decodeValue fuel) arr)
      | TObject fields => TObject (fold_left (fun result e => set_field e.1 (decode_entry (decodeValue fuel) e.1 e.2) result) fields [])
      | _ => obj
      end
  end.

(** Every text counts its characters: what is parsed from it is smaller. *)
Fixpoint weight (t : tree) : nat :=
  match t with
  | TString s => S (String.length s)
  | TArray l => S (list_sum (map weight l))
  | TObject l => S (list_sum (map (fun e => weight e.2) l))
  | _ => 1%nat
  end.

(** [decodeError], the [decoded] half. *)
Definition decodeError (error : tree) : tree := decodeValue (weight error) error.
End Decode.

(** ** Errors of transactions *)

Definition js_truthy (t : tree) : bool :=
  match t with
  | TNull => false | TBool b => b | TNumber n => negb (n =? 0) | TString s => negb (String.eqb s "")
  | TArray _ | TObject _ => true
  end.
(** [value[key]] of an object, [None] for [undefined]. *)
Fixpoint error_field (key : string) (fields : list (string * tree)) : option tree :=
  match fields with [] => None | e :: fields => if String.eqb e.1 key then Some e.2 else error_field key fields end.
Definition truthy_field (key : string) (t : tree) : option tree :=
  match t with TObject fields => v ← error_field key fields; if js_truthy v then Some v else None | _ => None end.

(** [extractRevertReason]: of the trace, or of its [execute_invocation]. *)
Definition extractRevertReason (trace : tree) : option tree :=
  match truthy_field "revert_reason" trace with
  | Some reason => Some reason
  | None => execInvocation ← truthy_field "execute_invocation" trace; truthy_field "revert_reason" execInvocation
  end.

(** An [Error] with the properties that [RpcError] adds. *)
Record thrown_error : Type := { er_message : string; er_baseError : option tree; er_data : option tree }.
Definition truthy_value (v : option tree) : option tree := t ← v; if js_truthy t then Some t else None.

Section Tracing.
Context (selectorToName : registry).
Abbreviation decodeError := (decodeError selectorToName).

Definition tryDecodeErrorMessage (error : thrown_error) : option tree :=
  match truthy_value (er_baseError error), truthy_value (er_data error) with
  | Some base, _ => Some (decodeError base)
  | None, Some data => Some (decodeError data)
  | None, None => decodeError <$> parse (er_message error)
  end.

(** [TracedRpcError]. *)
Record traced_error : Type := {
  te_original : thrown_error;
  te_transactionHash : string;
  te_trace : option tree;
  te_decoded : option tree;
}.

(** [enrichError]: what was thrown is an [Error] or another value, [trace] what [getTransactionTrace] answers, [None] when it throws;
    reading a property of a [null] trace throws as well. *)
Definition enrichError (error : thrown_error + string) (txHash : string) (trace : option tree) : traced_error :=
  match error with
  | inr other => {| te_original := {| er_message := other; er_baseError := None; er_data := None |};
                    te_transactionHash := txHash; te_trace := None; te_decoded := None |}
  | inl error =>
      match trace with
      | Some TNull | None => {| te_original := error; te_transactionHash := txHash; te_trace := None; te_decoded := tryDecodeErrorMessage error |}
      | Some trace => {| te_original := error; te_transactionHash := txHash; te_trace := Some trace;
                         te_decoded := decodeError <$> extractRevertReason trace |}
      end
  end.

(** [waitForTransaction]: the receipt of the provider, or the enriched error. *)
Definition waitForTransaction {R} (answer : result (thrown_error + string) R) (txHash : string) (trace : option tree) : result traced_error R :=
  match answer with Ok receipt => Ok receipt | Err error => Err (enrichError error txHash trace) end.
End Tracing.

(** ** Texts in felts: properties *)

Lemma to_digits_step fuel n d acc : 0 < n -> 0 <= d < 16 -> to_digits (S fuel) 16 (n * 16 + d) acc = to_digits fuel 16 n (String (digit_char d) acc).
Proof.
  intros Hn Hd. cbn [to_digits]. rewrite Z.div_add_l, Z.div_small, Z.add_0_r by lia. rewrite (proj2 (Z.eqb_neq n 0)) by lia.
  by rewrite Z.add_comm, Z.mod_add, Z.mod_small by lia.
Qed.

(** Two digits for each character. *)
Fixpoint char_pairs (s : string) : string :=
  match s with
  | EmptyString => EmptyString
  | String c s => let n := Z.of_nat (nat_of_ascii c) in String (digit_char (n / 16)) (String (digit_char (n mod 16)) (char_pairs s))
  end.

Definition is_printable (c : ascii) : bool := ((32 <=? nat_of_ascii c) && (nat_of_ascii c <=? 126))%nat.
Fixpoint all_printable (s : string) : bool := match s with EmptyString => true | String c s => is_printable c && all_printable s end.

Lemma pair_reads c : is_printable c = true ->
  let n := Z.of_nat (nat_of_ascii c) in printable (parseInt16 (String (digit_char (n / 16)) (String (digit_char (n mod 16)) EmptyString))) = Some c.
Proof. destruct c as [[] [] [] [] [] [] [] []]; intros H; first [discriminate H|reflexivity]. Qed.

Lemma pairs_text_chars s : all_printable s = true -> pairs_text (char_pairs s) = Some s.
Proof.
  induction s as [|c s IH]; [done|]. cbn [all_printable]. intros [Hc Hs]%andb_true_iff.
  cbn [char_pairs pairs_text]. rewrite pair_reads by exact Hc. cbn [mbind option_bind]. by rewrite IH.
Qed.

Lemma char_code_bound c : 0 <= Z.of_nat (nat_of_ascii c) < 256.
Proof. pose proof (nat_ascii_bounded c). lia. Qed.

Lemma bytes_felt_digits s : forall acc fuel rest, 0 < acc ->
  to_digits (2 * String.length s + fuel) 16 (bytes_felt s acc) rest = to_digits fuel 16 acc (char_pairs s +:+ rest).
Proof.
  induction s as [|c s IH]; intros acc fuel rest Hacc; [done|]. pose proof (char_code_bound c) as Hc. set (n := Z.of_nat (nat_of_ascii c)) in *.
  replace (2 * String.length (String c s) + fuel)%nat with (2 * String.length s + S (S fuel))%nat by (cbn; lia).
  cbn [bytes_felt]. fold n. rewrite IH by nia. pose proof (Z.div_mod n 16 ltac:(lia)) as Hdiv. pose proof (Z.mod_pos_bound n 16 ltac:(lia)).
  assert (0 <= n / 16 < 16) by (split; [apply Z.div_pos; lia|apply Z.div_lt_upper_bound; lia]).
  replace (acc * 256 + n) with ((acc * 16 + n / 16) * 16 + n mod 16) by lia.
  rewrite to_digits_step by lia. by rewrite to_digits_step by lia.
Qed.

Lemma bytes_felt_bound s : forall acc, 0 < acc -> acc * 256 ^ Z.of_nat (String.length s) <= bytes_felt s acc.
Proof.
  induction s as [|c s IH]; intros acc Hacc; [cbn; lia|]. pose proof (char_code_bound c).
  cbn [bytes_felt String.length]. rewrite Nat2Z.inj_succ, Z.pow_succ_r by lia.
  etrans; [|apply IH; lia]. pose proof (Z.pow_pos_nonneg 256 (Z.of_nat (String.length s))). nia.
Qed.

Lemma toHex_bytes c s : is_printable c = true -> toHex (bytes_felt (String c s) 0) = "0x" +:+ char_pairs (String c s).
Proof.
  unfold is_printable. intros [H1%Nat.leb_le H2%Nat.leb_le]%andb_true_iff. unfold toHex. f_equal. unfold bigint_toString.
  cbn [bytes_felt]. rewrite Z.mul_0_l, Z.add_0_l. set (n := Z.of_nat (nat_of_ascii c)).
  assert (Hn : 32 <= n <= 126) by lia. pose proof (bytes_felt_bound s n ltac:(lia)) as Hb.
  pose proof (Z.pow_pos_nonneg 256 (Z.of_nat (String.length s)) ltac:(lia) ltac:(lia)) as Hp.
  rewrite (proj2 (Z.ltb_ge _ _)) by nia. rewrite Z.abs_eq by nia.
  assert (Hlog : Z.of_nat (2 * String.length s + 2) <= Z.log2 (bytes_felt s n)).
  { replace (256 ^ Z.of_nat (String.length s)) with (2 ^ (8 * Z.of_nat (String.length s))) in Hb, Hp by (rewrite Z.pow_mul_r; [done|lia|lia]).
    apply Z.log2_le_pow2; [nia|]. etrans; [|exact Hb].
    apply Z.le_trans with (2 ^ (5 + 8 * Z.of_nat (String.length s))); [apply Z.pow_le_mono_r; lia|]. rewrite Z.pow_add_r by lia. nia. }
  replace (S (Z.to_nat (Z.log2 (bytes_felt s n)))) with (2 * String.length s + (S (Z.to_nat (Z.log2 (bytes_felt s n)) - 2 * String.length s)))%nat by lia.
  rewrite bytes_felt_digits, append_empty by lia. cbn [char_pairs]. fold n.
  destruct (Z.to_nat (Z.log2 (bytes_felt s n)) - 2 * String.length s)%nat as [|fuel] eqn:Hf; [lia|].
  rewrite (Z.div_mod n 16) at 1 by lia. rewrite (Z.mul_comm 16).
  assert (2 <= n / 16 < 8) by (split; [apply Z.div_le_lower_bound; lia|apply Z.div_lt_upper_bound; lia]).
  pose proof (Z.mod_pos_bound n 16 ltac:(lia)). rewrite to_digits_step by lia.
  cbn [to_digits]. rewrite (Z.div_small (n / 16)), Z.mod_small by lia. done.
Qed.

Lemma drop_append p s : drop_prefix p (p +:+ s) = Some s.
Proof. induction p as [|c p IH]; [done|]. rewrite append_cons. cbn. by rewrite Ascii.eqb_refl. Qed.

Lemma char_pairs_length s : String.length (char_pairs s) = (2 * String.length s)%nat.
Proof. induction s as [|c s IH]; [done|]. cbn. rewrite IH. lia. Qed.

(** A printable text that a contract put into a felt, the panic data of Cairo, is shown before the felt: what
    [encodeShortString] writes, [hexToString] reads. *)
Theorem felt_texts_are_shown c s : all_printable (String c s) = true ->
  hexToString (toHex (bytes_felt (String c s) 0)) = String c s /\
  annotate (toHex (bytes_felt (String c s) 0)) = noted (String c s) (toHex (bytes_felt (String c s) 0)).
Proof.
  intros Hp. pose proof Hp as [Hc _]%andb_true_iff. rewrite toHex_bytes by exact Hc. set (hex := "0x" +:+ char_pairs (String c s)).
  assert (Hh : hexToString hex = String c s) by (unfold hexToString, hex; by rewrite drop_append, pairs_text_chars).
  split; [exact Hh|]. unfold annotate. rewrite Hh. destruct (String.eqb_spec (String c s) hex) as [E|]; [|done].
  apply (f_equal String.length) in E. unfold hex in E. rewrite length_append, char_pairs_length in E. cbn in E. lia.
Qed.

Example felt_texts_are_shown_witness : annotate "0x494e56414c49445f50524f4f46" = "INVALID_PROOF (0x494e56414c49445f50524f4f46)" /\
  toHex (bytes_felt "INVALID_PROOF" 0) = "0x494e56414c49445f50524f4f46".
Proof. destruct (felt_texts_are_shown "I" "NVALID_PROOF" eq_refl) as [_ H]. split; [|reflexivity]. exact H. Defined.

(** ** What is parsed is smaller *)

Definition lighter {A} (w : A -> nat) (s : string) (p : A * string) : Prop := (w p.1 + String.length p.2 <= String.length s)%nat.
Abbreviation weights l := (list_sum (map weight l)).
Abbreviation field_weights l := (list_sum (map (fun e => weight e.2) l)).

Local Arguments list_sum : simpl never.
Lemma list_sum_nil : list_sum [] = 0%nat.
Proof. reflexivity. Qed.
Lemma list_sum_cons n l : list_sum (n :: l) = (n + list_sum l)%nat.
Proof. reflexivity. Qed.

Lemma read_lighter f :
  (forall s p, read_value f s = Some p -> lighter weight s p) /\
  (forall s p, read_items f s = Some p -> lighter (fun l => weights l) s p) /\
  (forall s p, read_members f s = Some p -> lighter (fun l => field_weights l) s p).
Proof.
  unfold lighter. induction f as [|f (IHv & IHi & IHm)]; [done|]. split_and!; intros s p Hp.
  - pose proof (proj1 (reading_settles (S f)) s p Hp) as [Hlen _]. cbn [read_value] in Hp.
    pose proof (skip_space_length s) as Hs. destruct (skip_space s) as [|c s0]; [done|]. cbn [String.length] in Hs.
    destruct (Ascii.eqb c QUOTE).
    { destruct (read_chars s0) as [r|] eqn:Hr; [|done]. injection Hp as <-. apply read_chars_shortens in Hr. cbn. lia. }
    destruct (Ascii.eqb c "[").
    { pose proof (skip_space_length s0) as Hs0. destruct (skip_space s0) as [|d s']; [done|].
      destruct (Ascii.eqb d "]"); [injection Hp as <-; cbn in *; rewrite list_sum_nil; lia|].
      destruct (read_items f s0) as [r|] eqn:Hr; [|done]. injection Hp as <-. apply IHi in Hr. cbn. lia. }
    destruct (Ascii.eqb c "{").
    { pose proof (skip_space_length s0) as Hs0. destruct (skip_space s0) as [|d s']; [done|].
      destruct (Ascii.eqb d "}"); [injection Hp as <-; cbn in *; rewrite list_sum_nil; lia|].
      destruct (read_members f s0) as [r|] eqn:Hr; [|done]. injection Hp as <-. apply IHm in Hr. cbn. lia. }
    enough (weight p.1 = 1%nat) by lia.
    destruct (Ascii.eqb c "n"); [|destruct (Ascii.eqb c "t"); [|destruct (Ascii.eqb c "f")]].
    1-3: destruct (drop_prefix _ s0) as [rest|]; [|done]; by injection Hp as <-.
    unfold read_number, read_natural in Hp. repeat case_match; simplify_option_eq; done.
  - cbn [read_items] in Hp. destruct (read_value f s) as [v|] eqn:Hv; [|done]. apply IHv in Hv. cbn [mbind option_bind] in Hp.
    pose proof (skip_space_length v.2) as Hs. destruct (skip_space v.2) as [|c s']; [done|]. cbn [String.length] in Hs.
    destruct (Ascii.eqb c ","); [|destruct (Ascii.eqb c "]"); [|done]; injection Hp as <-; cbn [fst snd map]; rewrite list_sum_cons, list_sum_nil; cbn; lia].
    destruct (read_items f s') as [r|] eqn:Hr; [|done]. injection Hp as <-. apply IHi in Hr. cbn [fst snd map] in *. rewrite list_sum_cons. lia.
  - cbn [read_members] in Hp. pose proof (skip_space_length s) as Hs. destruct (skip_space s) as [|q s0]; [done|]. cbn [String.length] in Hs.
    destruct (Ascii.eqb q QUOTE); [|done]. destruct (read_chars s0) as [k|] eqn:Hk; [|done]. apply read_chars_length in Hk. cbn [mbind option_bind] in Hp.
    pose proof (skip_space_length k.2) as Hs0. destruct (skip_space k.2) as [|c s1]; [done|]. cbn [String.length] in Hs0.
    destruct (Ascii.eqb c ":"); [|done]. destruct (read_value f s1) as [v|] eqn:Hv; [|done]. apply IHv in Hv. cbn [mbind option_bind] in Hp.
    pose proof (skip_space_length v.2) as Hs1. destruct (skip_space v.2) as [|d s2]; [done|]. cbn [String.length] in Hs1.
    destruct (Ascii.eqb d ","); [|destruct (Ascii.eqb d "}"); [|done]; injection Hp as <-; cbn [fst snd map]; rewrite list_sum_cons, list_sum_nil; cbn; lia].
    destruct (read_members f s2) as [r|] eqn:Hr; [|done]. injection Hp as <-. apply IHm in Hr. cbn [fst snd map] in *. rewrite list_sum_cons. lia.
Qed.

Lemma parse_lighter s t : parse s = Some t -> (weight t < weight (TString s))%nat.
Proof.
  unfold parse. destruct (read_value (read_fuel s) s) as [r|] eqn:Hr; [|done]. cbn [mbind option_bind].
  destruct (skip_space r.2); [|done]. intros [= <-]. apply (proj1 (read_lighter _)) in Hr. unfold lighter in Hr. cbn. lia.
Qed.

Lemma item_lighter t l : t ∈ l -> (weight t < weight (TArray l))%nat.
Proof. cbn [weight]. induction 1 as [t l|t u l _ IH]; cbn [map]; rewrite list_sum_cons; lia. Qed.
Lemma field_lighter e l : e ∈ l -> (weight e.2 < weight (TObject l))%nat.
Proof. cbn [weight]. induction 1 as [e l|e u l _ IH]; cbn [map]; rewrite list_sum_cons; lia. Qed.

(** ** Decoding settles *)

Section Settles.
Context (selectorToName : registry).
Abbreviation decode := (decodeValue selectorToName).
Abbreviation entry := (decode_entry selectorToName).

Lemma decode_item_ext f g t : (f t = g t) -> decode_item f t = decode_item g t.
Proof. by destruct t. Qed.

Lemma decode_entry_ext f g k v : (forall t, (weight t <= weight v)%nat -> f t = g t) -> entry f k v = entry g k v.
Proof.
  intros Hfg. destruct v as [|b|n|s|l|l]; cbn [decode_entry]; try (apply Hfg; lia).
  destruct (String.eqb k "selector"); [done|]. destruct (_ && _); [|apply Hfg; lia].
  unfold decode_array_text. destruct (parse s) as [[| | | |arr|]|] eqn:Hp; try (apply Hfg; lia).
  f_equal. apply map_ext_in. intros t Ht%list_elem_of_In. apply decode_item_ext, Hfg.
  apply parse_lighter in Hp. apply item_lighter in Ht. lia.
Qed.

(** Any fuel from the weight of the value on decodes it alike, so [decodeError] is the recursion without a bound. *)
Lemma decode_settles t : forall f g, (weight t <= f)%nat -> (weight t <= g)%nat -> decode f t = decode g t.
Proof.
  induction t as [t IH] using (induction_ltof1 _ weight). unfold ltof in IH.
  assert (Hstep : forall f g u, (weight u < weight t)%nat -> (weight t <= S f)%nat -> (weight t <= S g)%nat -> decode f u = decode g u)
    by (intros f g u Hu Hf Hg; apply IH; lia).
  intros [|f] [|g] Hf Hg; [by destruct t; cbn in Hf, Hg; lia..|].
  destruct t as [|b|n|s|l|l]; try done; cbn [decodeValue].
  - destruct (parse s) as [v|] eqn:Hp; [|done]. apply parse_lighter in Hp. by apply Hstep.
  - f_equal. apply map_ext_in. intros t Ht%list_elem_of_In. apply decode_item_ext, Hstep; [by apply item_lighter|done..].
  - f_equal. assert (Hall : forall e, e ∈ l -> entry (decode f) e.1 e.2 = entry (decode g) e.1 e.2).
    { intros e He%field_lighter. apply decode_entry_ext. intros t Ht. apply Hstep; [lia|done..]. }
    clear -Hall. generalize (@nil (string * tree)). induction l as [|e l IHl]; [done|]. intros r. cbn.
    rewrite Hall by left. apply IHl. intros e' He'. apply Hall. by right.
Qed.
End Settles.

(** ** A note is no JSON and no felt *)

(** The text ends with a closing parenthesis, as the notes of the decoder do. *)
Fixpoint closed (s : string) : bool :=
  match s with EmptyString => false | String c EmptyString => Ascii.eqb c ")" | String _ s => closed s end.

Lemma closed_app s t : closed (s +:+ t) = match t with EmptyString => closed s | _ => closed t end.
Proof.
  induction s as [|c s IH]; [by destruct t|]. rewrite append_cons. cbn [closed].
  destruct t as [|d t]; [by rewrite append_empty|]. rewrite IH. by destruct s.
Qed.
Lemma closed_noted text item : closed (noted text item) = true.
Proof. unfold noted. by rewrite <- !append_assoc, closed_app. Qed.
Lemma closed_tail c s : Ascii.eqb c ")" = false -> closed (String c s) = true -> closed s = true.
Proof. intros Hc. destruct s; [|done]. cbn. by rewrite Hc. Qed.
Lemma closed_cons c s : closed s = true -> closed (String c s) = true.
Proof. by destruct s. Qed.

Lemma skip_space_closed s : closed s = true -> closed (skip_space s) = true.
Proof.
  induction s as [|c s IH]; [done|]. intros Hs. cbn [skip_space]. destruct (is_json_space c) eqn:Hc; [|done].
  apply IH. revert Hs. apply closed_tail. by destruct c as [[] [] [] [] [] [] [] []].
Qed.

Lemma drop_prefix_closed q s r : closed q = false -> drop_prefix q s = Some r -> closed s = true -> closed r = true.
Proof.
  revert s. induction q as [|c q IH]; intros s Hq Hd Hs; [by injection Hd as ->|]. destruct s as [|d s]; [done|]. cbn [drop_prefix] in Hd.
  destruct (Ascii.eqb_spec c d) as [->|]; [|done]. destruct q as [|c' q]; [injection Hd as <-; by apply closed_tail in Hs|].
  apply (IH s); [done..|]. destruct s; [done|]. by cbn in Hs |- *.
Qed.

Lemma read_chars_closed_below n s p : (String.length s < n)%nat -> read_chars s = Some p -> closed s = true -> closed p.2 = true.
Proof.
  revert s p. induction n as [|n IH]; intros s p Hn Hr Hs; [lia|]. destruct s as [|c s]; [done|]. cbn in Hn. cbn [read_chars] in Hr.
  destruct (Ascii.eqb_spec c QUOTE) as [->|]; [injection Hr as <-; by apply closed_tail in Hs|]. destruct (Ascii.eqb_spec c BACKSLASH) as [->|].
  - destruct s as [|e s]; [done|]. destruct (Ascii.eqb e "u").
    + destruct s as [|c1 [|c2 [|c3 [|c4 s]]]]; try done. destruct (parse_digits _ _ _) as [code|]; [|done]. cbn [mbind option_bind] in Hr.
      destruct (code <? 256); [|done]. destruct (read_chars s) as [r|] eqn:Hrs; [|done]. injection Hr as <-.
      apply (IH _ _) in Hrs; [done|cbn in *; lia|by destruct s].
    + destruct (unescape_letter e); [|done]. cbn [mbind option_bind] in Hr. destruct (read_chars s) as [r|] eqn:Hrs; [|done]. injection Hr as <-.
      apply (IH _ _) in Hrs; [done|cbn in *; lia|by destruct s].
  - destruct (is_control c); [done|]. destruct (read_chars s) as [r|] eqn:Hrs; [|done]. injection Hr as <-.
    apply (IH _ _) in Hrs; [done|lia|by destruct s].
Qed.
Lemma read_chars_closed s p : read_chars s = Some p -> closed s = true -> closed p.2 = true.
Proof. apply (read_chars_closed_below (S (String.length s))). lia. Qed.

Lemma span_digits_closed s : closed s = true -> closed (span_digits s).2 = true.
Proof.
  induction s as [|c s IH]; [done|]. intros Hs. cbn [span_digits]. destruct (is_decimal c) eqn:Hc; [|done]. apply IH. revert Hs.
  apply closed_tail. by destruct c as [[] [] [] [] [] [] [] []].
Qed.

Lemma read_number_closed s p : read_number s = Some p -> closed s = true -> closed p.2 = true.
Proof.
  assert (Hn : forall sign s p, read_natural sign s = Some p -> closed s = true -> closed p.2 = true).
  { intros sign s' p' Hr Hs%span_digits_closed. unfold read_natural in Hr. repeat case_match; simplify_option_eq; done. }
  destruct s as [|c s]; [done|]. cbn [read_number]. destruct (Ascii.eqb_spec c "-") as [->|]; intros Hr Hs; [|by eapply Hn].
  eapply Hn; [exact Hr|]. by apply closed_tail in Hs.
Qed.

Lemma read_closed f :
  (forall s p, read_value f s = Some p -> closed s = true -> closed p.2 = true) /\
  (forall s p, read_items f s = Some p -> closed s = true -> closed p.2 = true) /\
  (forall s p, read_members f s = Some p -> closed s = true -> closed p.2 = true).
Proof.
  induction f as [|f (IHv & IHi & IHm)]; [done|]. split_and!; intros s p Hp Hs.
  - cbn [read_value] in Hp. apply skip_space_closed in Hs. destruct (skip_space s) as [|c s0]; [done|].
    destruct (Ascii.eqb_spec c QUOTE) as [->|].
    { apply closed_tail in Hs; [|done]. destruct (read_chars s0) as [r|] eqn:Hr; [|done]. injection Hp as <-. by apply read_chars_closed in Hr. }
    destruct (Ascii.eqb_spec c "[") as [->|].
    { apply closed_tail in Hs; [|done]. pose proof (skip_space_closed _ Hs) as Hs0. destruct (skip_space s0) as [|d s']; [done|].
      destruct (Ascii.eqb_spec d "]") as [->|]; [injection Hp as <-; by apply closed_tail in Hs0|].
      destruct (read_items f s0) as [r|] eqn:Hr; [|done]. injection Hp as <-. by apply IHi in Hr. }
    destruct (Ascii.eqb_spec c "{") as [->|].
    { apply closed_tail in Hs; [|done]. pose proof (skip_space_closed _ Hs) as Hs0. destruct (skip_space s0) as [|d s']; [done|].
      destruct (Ascii.eqb_spec d "}") as [->|]; [injection Hp as <-; by apply closed_tail in Hs0|].
      destruct (read_members f s0) as [r|] eqn:Hr; [|done]. injection Hp as <-. by apply IHm in Hr. }
    destruct (Ascii.eqb_spec c "n") as [->|]; [|destruct (Ascii.eqb_spec c "t") as [->|]; [|destruct (Ascii.eqb_spec c "f") as [->|]]].
    1-3: apply closed_tail in Hs; [|done]; destruct (drop_prefix _ s0) as [rest|] eqn:Hr; [|done]; injection Hp as <-; by apply drop_prefix_closed in Hr.
    by apply read_number_closed in Hp.
  - cbn [read_items] in Hp. destruct (read_value f s) as [v|] eqn:Hv; [|done]. apply IHv in Hv; [|done]. cbn [mbind option_bind] in Hp.
    apply skip_space_closed in Hv. destruct (skip_space v.2) as [|c s']; [done|].
    destruct (Ascii.eqb_spec c ",") as [->|]; [|destruct (Ascii.eqb_spec c "]") as [->|]; [|done]; injection Hp as <-; by apply closed_tail in Hv].
    apply closed_tail in Hv; [|done]. destruct (read_items f s') as [r|] eqn:Hr; [|done]. injection Hp as <-. by apply IHi in Hr.
  - cbn [read_members] in Hp. apply skip_space_closed in Hs. destruct (skip_space s) as [|q s0]; [done|].
    destruct (Ascii.eqb_spec q QUOTE) as [->|]; [|done]. apply closed_tail in Hs; [|done].
    destruct (read_chars s0) as [k|] eqn:Hk; [|done]. apply read_chars_closed in Hk; [|done]. cbn [mbind option_bind] in Hp.
    apply skip_space_closed in Hk. destruct (skip_space k.2) as [|c s1]; [done|]. destruct (Ascii.eqb_spec c ":") as [->|]; [|done].
    apply closed_tail in Hk; [|done]. destruct (read_value f s1) as [v|] eqn:Hv; [|done]. apply IHv in Hv; [|done]. cbn [mbind option_bind] in Hp.
    apply skip_space_closed in Hv. destruct (skip_space v.2) as [|d s2]; [done|].
    destruct (Ascii.eqb_spec d ",") as [->|]; [|destruct (Ascii.eqb_spec d "}") as [->|]; [|done]; injection Hp as <-; by apply closed_tail in Hv].
    apply closed_tail in Hv; [|done]. destruct (read_members f s2) as [r|] eqn:Hr; [|done]. injection Hp as <-. by apply IHm in Hr.
Qed.

(** A note does not parse. *)
Lemma parse_closed s : closed s = true -> parse s = None.
Proof.
  intros Hs. unfold parse. destruct (read_value (read_fuel s) s) as [r|] eqn:Hr; [|done]. cbn [mbind option_bind].
  apply (proj1 (read_closed _)) in Hr; [|done]. apply skip_space_closed in Hr. by destruct (skip_space r.2).
Qed.

(** A note is not read as text of a felt either. *)
Lemma pairs_text_closed_below n s : (String.length s < n)%nat -> closed s = true -> pairs_text s = None.
Proof.
  revert s. induction n as [|n IH]; intros s Hn Hs; [lia|]. destruct s as [|a [|b s]]; [done| |].
  - cbn in Hs. apply Ascii.eqb_eq in Hs as ->. reflexivity.
  - cbn [pairs_text]. destruct s as [|c s].
    + cbn in Hs. apply Ascii.eqb_eq in Hs as ->. by destruct a as [[] [] [] [] [] [] [] []].
    + destruct (printable _) as [x|]; [|done]. cbn [mbind option_bind]. rewrite IH; [done|cbn in *; lia|done].
Qed.

Lemma annotate_closed s : closed s = true -> annotate s = s.
Proof.
  intros Hs. unfold annotate. enough (Hh : hexToString s = s) by (rewrite Hh; by rewrite String.eqb_refl).
  unfold hexToString. destruct (drop_prefix "0x" s) as [clean|] eqn:Hd; [|done]. apply drop_prefix_closed in Hd; [|done..].
  by rewrite (pairs_text_closed_below (S (String.length clean))) by (lia || done).
Qed.

Lemma annotate_twice s : annotate (annotate s) = annotate s.
Proof. unfold annotate at 2 3. destruct (String.eqb_spec (hexToString s) s) as [He|]; [unfold annotate; by rewrite He, String.eqb_refl|]. apply annotate_closed, closed_noted. Qed.

Lemma trim_closed s : closed s = true -> trim_end (trim_start s) = trim_start s /\ closed (trim_start s) = true.
Proof.
  intros Hs. assert (Hc : closed (trim_start s) = true).
  { induction s as [|c s IH]; [done|]. cbn [trim_start]. destruct (is_space c) eqn:Hsp; [|done]. apply IH. revert Hs. apply closed_tail.
    by destruct c as [[] [] [] [] [] [] [] []]. }
  split; [|exact Hc]. clear Hs. induction (trim_start s) as [|c t IH]; [done|]. cbn [trim_end]. destruct t as [|d t].
  - cbn in Hc. apply Ascii.eqb_eq in Hc as ->. reflexivity.
  - by rewrite IH.
Qed.

Lemma parse_digits_closed b s acc : closed s = true -> parse_digits b s acc = None.
Proof.
  revert acc. induction s as [|c s IH]; [done|]. intros acc Hs. cbn [parse_digits]. destruct (char_digit c) as [d|] eqn:Hd; [|done].
  destruct (d <? b); [|done]. apply IH. revert Hs. apply closed_tail. destruct (Ascii.eqb_spec c ")") as [->|]; [done|done].
Qed.
Lemma parse_radix_closed b s : closed s = true -> parse_radix b s = None.
Proof. intros Hs. destruct s; [done|]. by apply parse_digits_closed. Qed.

Lemma BigInt_closed s : closed s = true -> BigInt_of_string s = None.
Proof.
  intros Hs. unfold BigInt_of_string. destruct (trim_closed s Hs) as [-> Ht]. clear Hs. destruct (trim_start s) as [|c t]; [done|].
  pose proof (parse_radix_closed 10 _ Ht) as H10. pose proof (closed_tail c t) as Hc.
  assert (Htt : forall d u, t = String d u -> Ascii.eqb d ")" = false -> Ascii.eqb c ")" = false -> closed u = true)
    by (intros d u -> Hd Hcc; apply (closed_tail d); [done|by apply Hc]).
  destruct c as [[] [] [] [] [] [] [] []]; try exact H10; try (rewrite parse_radix_closed by (by apply Hc); done).
  destruct t as [|d u]; [done|]. destruct d as [[] [] [] [] [] [] [] []]; try exact H10;
    by rewrite parse_radix_closed by (by eapply Htt).
Qed.

Lemma lower_closed s : closed (toLowerCase s) = closed s.
Proof.
  induction s as [|c s IH]; [done|]. cbn [toLowerCase closed]. destruct s as [|d s]; [|exact IH].
  by destruct c as [[] [] [] [] [] [] [] []].
Qed.

(** The keys of the registry are selectors, not notes. *)
Definition selectors (r : registry) : Prop := Forall (fun e => is_Some (BigInt_of_string e.1)) r.

Lemma lookup_closed r s : selectors r -> closed s = true -> lookupSelector r s = None.
Proof.
  intros Hr Hs. unfold lookupSelector. rewrite (BigInt_closed s Hs). pose proof Hs as Hl. rewrite <- lower_closed in Hl.
  enough (Hg : registry_get (toLowerCase s) r = None) by (by rewrite Hg).
  induction Hr as [|e r [z He] _ IH]; [done|]. cbn [registry_get]. destruct (String.eqb_spec e.1 (toLowerCase s)) as [E|]; [|exact IH].
  rewrite E, BigInt_closed in He by exact Hl. done.
Qed.

(** ** Decoding twice *)

Section Twice.
Context (selectorToName : registry) (Hselectors : selectors selectorToName).
Abbreviation decodeError := (decodeError selectorToName).
Abbreviation entry := (decode_entry selectorToName).
Abbreviation entries := (fold_left (fun result e => set_field e.1 (entry decodeError e.1 e.2) result)).

Lemma decode_text s : decodeError (TString s) = match parse s with Some v => decodeError v | None => TString (annotate s) end.
Proof.
  unfold ErrorDecoder.decodeError at 1. cbn [weight decodeValue]. destruct (parse s) as [v|] eqn:Hp; [|done].
  apply parse_lighter in Hp. apply decode_settles; cbn in *; lia.
Qed.

Lemma decode_array l : decodeError (TArray l) = TArray (decodeErrorArray decodeError l).
Proof.
  unfold ErrorDecoder.decodeError at 1. cbn [weight decodeValue]. f_equal. apply map_ext_in. intros t Ht%list_elem_of_In.
  apply decode_item_ext, decode_settles; [|done]. apply item_lighter in Ht. cbn in Ht. lia.
Qed.

Lemma decode_object l : decodeError (TObject l) = TObject (entries l []).
Proof.
  unfold ErrorDecoder.decodeError at 1. cbn [weight decodeValue]. f_equal.
  assert (Hall : forall e, e ∈ l -> entry (decodeValue selectorToName (field_weights l)) e.1 e.2 = entry decodeError e.1 e.2).
  { intros e He%field_lighter. apply decode_entry_ext. intros t Ht. apply decode_settles; [|done]. cbn in He. lia. }
  revert Hall. generalize (field_weights l) (@nil (string * tree)). induction l as [|e l IHl]; [done|]. intros n r Hall. cbn [fold_left].
  rewrite Hall by left. apply IHl. intros e' He'. apply Hall. by right.
Qed.

(** The text of a decoded text stays as it is. *)
Definition stable (t : tree) : Prop := match t with TString s => parse s = None /\ annotate s = s | _ => True end.

Lemma note_stable s : parse s = None -> stable (TString (annotate s)).
Proof.
  intros Hp. split; [|apply annotate_twice]. unfold annotate. destruct (String.eqb _ s); [done|]. apply parse_closed, closed_noted.
Qed.

Lemma decode_stable t : stable (decodeError t).
Proof.
  induction t as [t IH] using (induction_ltof1 _ weight). unfold ltof in IH. destruct t as [|b|n|s|l|l]; try done.
  rewrite decode_text. destruct (parse s) as [v|] eqn:Hp; [apply IH; by apply parse_lighter|by apply note_stable].
Qed.

Abbreviation twice t := (decodeError (decodeError t) = decodeError t).
Abbreviation fixed e := (entry decodeError e.1 e.2 = e.2).

Lemma item_twice t : twice t -> decode_item decodeError (decode_item decodeError t) = decode_item decodeError t.
Proof.
  destruct t as [|b|n|s|l|l]; try done. cbn [decode_item].
  intros _. by rewrite annotate_twice.
Qed.

Lemma selector_twice s : decode_selector selectorToName s = TString s \/ exists text, decode_selector selectorToName s = TString text /\ closed text = true.
Proof.
  unfold decode_selector. destruct (lookupSelector selectorToName s) as [[|c f]|]; [by left|right|by left].
  eexists. split; [done|]. apply closed_noted.
Qed.

Lemma bracket_parses s v : String.prefix "[" s = true -> parse s = Some v -> exists l, v = TArray l.
Proof.
  intros Hb. destruct s as [|c s]; [done|]. cbn [String.prefix] in Hb. destruct (ascii_dec "[" c) as [<-|]; [|done]. unfold parse, read_fuel.
  cbn [read_value skip_space]. change (is_json_space "[") with false. cbn [Ascii.eqb Bool.eqb QUOTE].
  destruct (skip_space s) as [|d s']; [done|]. destruct (Ascii.eqb d "]").
  - cbn. destruct (skip_space s'); [|done]. intros [= <-]. eauto.
  - destruct (read_items _ s) as [r|]; [|done]. cbn. destruct (skip_space r.2); [|done]. intros [= <-]. eauto.
Qed.

(** An entry with a decoded value. *)
Lemma decoded_entry k t : stable t -> (forall s, t = TString s -> String.eqb k "selector" = false) -> decodeError t = t -> entry decodeError k t = t.
Proof.
  destruct t as [|b|n|s|l|l]; try done. intros [Hp Ha] Hk Ht. cbn [decode_entry]. rewrite (Hk s) by done.
  destruct (_ && _); [|exact Ht]. unfold decode_array_text. by rewrite Hp.
Qed.

Lemma decode_no_text t : (forall s, t <> TString s) -> forall s, decodeError t <> TString s.
Proof. destruct t as [|b|n|s|l|l]; intros Ht s'; try done. by destruct (Ht s). Qed.

Lemma entry_twice k v : (forall t, (weight t <= weight v)%nat -> twice t) -> entry decodeError k (entry decodeError k v) = entry decodeError k v.
Proof.
  intros IH. assert (Hplain : (forall s, v = TString s -> String.eqb k "selector" = false) -> entry decodeError k (decodeError v) = decodeError v).
  { intros Hk. apply decoded_entry; [apply decode_stable| |by apply IH]. intros s Hs. destruct v as [|b|n|s'|l|l]; try done. by apply (Hk s'). }
  destruct v as [|b|n|s|l|l]; try (apply Hplain; done). cbn [decode_entry]. destruct (String.eqb k "selector") eqn:Hk.
  - destruct (selector_twice s) as [H|(text & -> & Hc)]; [rewrite H|]; cbn [decode_entry]; rewrite Hk.
    + exact H.
    + unfold decode_selector. by rewrite lookup_closed.
  - destruct (String.eqb k "error" && String.prefix "[" s)%bool eqn:Hb; [|by apply Hplain].
    unfold decode_array_text. destruct (parse s) as [v|] eqn:Hp; [|by apply Hplain].
    apply andb_true_iff in Hb as [_ Hb]. destruct (bracket_parses s v Hb Hp) as [l ->].
    pose proof (decode_array l) as <-. cbn [decode_entry]. rewrite decode_array. cbn [decode_entry]. rewrite <- decode_array.
    apply IH. apply parse_lighter in Hp. cbn in *. lia.
Qed.

Lemma set_field_keys k v r : map fst (set_field k v r) = if bool_decide (k ∈ map fst r) then map fst r else (map fst r ++ [k])%list.
Proof.
  induction r as [|e r IH]; [done|]. cbn [set_field map]. destruct (String.eqb_spec e.1 k) as [->|Hne].
  - rewrite bool_decide_eq_true_2 by (rewrite elem_of_cons; by left). done.
  - cbn [map]. rewrite IH. destruct (decide (k ∈ map fst r)) as [Hk|Hk].
    + rewrite !bool_decide_eq_true_2; [done|rewrite elem_of_cons; by right|done].
    + rewrite !bool_decide_eq_false_2; [done|rewrite elem_of_cons; intros [->|?]; done|done].
Qed.

Lemma set_field_fresh k v r : k ∉ map fst r -> set_field k v r = (r ++ [(k, v)])%list.
Proof.
  induction r as [|e r IH]; [done|]. cbn [map set_field]. rewrite not_elem_of_cons. intros [Hne Hr].
  destruct (String.eqb_spec e.1 k) as [He|]; [by rewrite He in Hne|]. by rewrite IH.
Qed.

Lemma set_field_forall (P : string * tree -> Prop) k v r : P (k, v) -> Forall P r -> Forall P (set_field k v r).
Proof. intros Hkv. induction 1 as [|e r He Hr IH]; [by constructor|]. cbn [set_field]. destruct (String.eqb e.1 k); by constructor. Qed.

(** Decoded entries have one field for a key, and decoding them again changes none. *)
Lemma entries_settled l r : (forall e, e ∈ l -> entry decodeError e.1 (entry decodeError e.1 e.2) = entry decodeError e.1 e.2) ->
  NoDup (map fst r) -> Forall (fun e => fixed e) r -> NoDup (map fst (entries l r)) /\ Forall (fun e => fixed e) (entries l r).
Proof.
  revert r. induction l as [|e l IH]; intros r Hl Hnd Hf; [done|]. cbn [fold_left]. apply IH.
  - intros e' He'. apply Hl. by right.
  - rewrite set_field_keys. destruct (decide (e.1 ∈ map fst r)); [by rewrite bool_decide_eq_true_2|rewrite bool_decide_eq_false_2 by done].
    apply NoDup_app. split_and!; [done| |apply NoDup_singleton]. intros k Hk ->%list_elem_of_singleton. done.
  - apply set_field_forall; [|done]. exact (Hl e ltac:(by left)).
Qed.

Lemma entries_fixed l r : NoDup (map fst (r ++ l)%list) -> Forall (fun e => fixed e) l -> entries l r = (r ++ l)%list.
Proof.
  revert r. induction l as [|[k v] l IH]; intros r Hnd Hf; [by rewrite app_nil_r|]. apply Forall_cons in Hf as [He Hf]. cbn [fold_left fst snd] in *.
  rewrite He. rewrite set_field_fresh.
  - rewrite IH; [by rewrite <- app_assoc|by rewrite <- app_assoc|done].
  - rewrite map_app, NoDup_app in Hnd. destruct Hnd as (_ & Hdis & _). intros Hk%Hdis. apply Hk. by left.
Qed.

(** Decoding error data twice is decoding it once: a note that was added is taken neither for JSON, nor for a felt, nor for a
    selector, so an error that passes several layers of the SDK is not annotated again. *)
Theorem decoding_is_idempotent t : decodeError (decodeError t) = decodeError t.
Proof.
  induction t as [t IH] using (induction_ltof1 _ weight). unfold ltof in IH. destruct t as [|b|n|s|l|l]; try done.
  - rewrite decode_text. destruct (parse s) as [v|] eqn:Hp; [apply IH; by apply parse_lighter|].
    rewrite decode_text. destruct (note_stable s Hp) as [-> ->]. done.
  - rewrite !decode_array. f_equal. unfold decodeErrorArray. rewrite map_map. apply map_ext_in. intros t Ht%list_elem_of_In.
    apply item_twice, IH. by apply item_lighter.
  - rewrite (decode_object l), decode_object. f_equal.
    destruct (entries_settled l []) as [Hnd Hf]; [|constructor|constructor|by rewrite entries_fixed].
    intros e He%field_lighter. apply entry_twice. intros t Ht. apply IH. lia.
Qed.
End Twice.

(** ** Names of selectors: properties *)

Lemma lower_parse b s acc : parse_digits b (toLowerCase s) acc = parse_digits b s acc.
Proof.
  revert acc. induction s as [|c s IH]; [done|]. intros acc. cbn [toLowerCase parse_digits].
  assert (Hc : char_digit (lower c) = char_digit c) by (by destruct c as [[] [] [] [] [] [] [] []]). rewrite Hc.
  destruct (char_digit c) as [d|]; [|done]. by destruct (d <? b).
Qed.

Lemma lower_no_space s : no_space (toLowerCase s) = no_space s.
Proof. induction s as [|c s IH]; [done|]. cbn [toLowerCase no_space]. rewrite IH. f_equal. by destruct c as [[] [] [] [] [] [] [] []]. Qed.

Lemma lower_radix b s : parse_radix b (toLowerCase s) = parse_radix b s.
Proof. destruct s as [|c s]; [done|]. apply (lower_parse b (String c s) 0). Qed.

(** The case of a hexadecimal spelling does not matter. *)
Lemma BigInt_lower s z : 0 <= z -> toLowerCase s = toHex z -> BigInt_of_string s = Some z.
Proof.
  intros Hz Hs. pose proof (BigInt_toHex z Hz) as Hv. assert (Hn : no_space s = true).
  { rewrite <- lower_no_space, Hs. unfold toHex, bigint_toString. rewrite (proj2 (Z.ltb_ge z 0)) by lia.
    cbn [no_space]. by apply to_digits_no_space. }
  assert (Hn' : no_space (toHex z) = true) by (by rewrite <- Hs, lower_no_space).
  unfold BigInt_of_string in *. rewrite trim_no_space in Hv by exact Hn'. rewrite trim_no_space by exact Hn.
  rewrite <- Hs in Hv. unfold toHex in Hs. destruct s as [|c [|d s]]; [done|done|].
  cbn [toLowerCase] in Hs, Hv. injection Hs as Hc Hd _. rewrite Hc, Hd, lower_radix in Hv.
  assert (Hc0 : c = "0"%char) by (by destruct c as [[] [] [] [] [] [] [] []]). subst c.
  assert (Hdx : d = "x"%char \/ d = "X"%char) by (destruct d as [[] [] [] [] [] [] [] []]; vm_compute in Hd; first [discriminate Hd|by left|by right]).
  by destruct Hdx as [->| ->].
Qed.

Lemma toHex_lower z : 0 <= z -> toLowerCase (toHex z) = toHex z.
Proof.
  intros Hz. unfold toHex, bigint_toString. rewrite (proj2 (Z.ltb_ge z 0)) by lia. 
  set (digits := to_digits _ _ _ _). change ("0x" +:+ digits) with (String "0" (String "x" digits)). cbn [toLowerCase].
  change (lower "0") with "0"%char. change (lower "x") with "x"%char. do 2 f_equal. subst digits.
  assert (H : forall fuel n acc, toLowerCase acc = acc -> toLowerCase (to_digits fuel 16 n acc) = to_digits fuel 16 n acc).
  { induction fuel as [|fuel IH]; [done|]. intros n acc Ha. cbn [to_digits].
    assert (Hd : toLowerCase (String (digit_char (n mod 16)) acc) = String (digit_char (n mod 16)) acc).
    { cbn [toLowerCase]. rewrite Ha. f_equal. pose proof (Z.mod_pos_bound n 16 ltac:(lia)) as Hb. revert Hb. generalize (n mod 16). clear.
      intros d Hd. assert (He : d ∈ seqZ 0 16) by (apply elem_of_seqZ; lia). revert He. vm_compute seqZ. rewrite !elem_of_cons.
      intros H; repeat (destruct H as [->|H]; [reflexivity|]). by apply elem_of_nil in H. }
    destruct (n / 16 =? 0); [exact Hd|by apply IH]. }
  by rewrite H.
Qed.

Lemma registry_get_in k r n : registry_get k r = Some n -> (k, n) ∈ r.
Proof.
  induction r as [|[k' n'] r IH]; [done|]. cbn [registry_get fst snd]. destruct (String.eqb_spec k' k) as [->|].
  - intros [= ->]. by left.
  - intros H. right. by apply IH.
Qed.

Lemma registry_set_in k n r e : registry_get k r = None -> e ∈ registry_set k n r <-> e = (k, n) \/ e ∈ r.
Proof.
  induction r as [|e' r IH]; cbn [registry_get registry_set]; intros Hg.
  - rewrite list_elem_of_singleton. split; [by left|]. intros [->|[]%elem_of_nil]; done.
  - destruct (String.eqb e'.1 k); [done|]. rewrite !elem_of_cons, IH by exact Hg. tauto.
Qed.

Section Named.
Context (getSelectorFromName : string -> string) (selector : string -> Z).
(** starknet.js: selectors are spelled by [toHex] of the masked hash of the name; no two names of interest collide. *)
Context (Hspelled : forall name, getSelectorFromName name = toHex (selector name)) (Hnonneg : forall name, 0 <= selector name) `{!Inj (=) (=) selector}.

(** The registry knows [n], under its selector. *)
Definition registered (r : registry) (n : string) : Prop := (toHex (selector n), n) ∈ r.
Definition registry_wf (r : registry) : Prop := forall e, e ∈ r -> e.1 = toHex (selector e.2).

Lemma toHex_selector_inj n m : toHex (selector n) = toHex (selector m) -> n = m.
Proof. intros H. apply (inj selector). apply (f_equal BigInt_of_string) in H. rewrite !BigInt_toHex in H by done. congruence. Qed.

Lemma add_name r n : registry_wf r ->
  let r' := match registry_get (toHex (selector n)) r with Some _ => r | None => registry_set (toHex (selector n)) n r end in
  registry_wf r' /\ forall m, registered r' m <-> m = n \/ registered r m.
Proof.
  intros Hwf. cbn zeta. destruct (registry_get (toHex (selector n)) r) as [n'|] eqn:Hg.
  - apply registry_get_in in Hg as Hin. pose proof (Hwf _ Hin) as He. cbn in He. apply toHex_selector_inj in He as ->. split; [done|].
    intros m. split; [by right|]. intros [->|?]; done.
  - split.
    + intros e. rewrite registry_set_in by exact Hg. intros [->|He]; [done|by apply Hwf].
    + intros m. unfold registered. rewrite registry_set_in by exact Hg. split; [intros [[= _ ->]|?]; tauto|intros [->|?]; tauto].
Qed.

Lemma addSelectors_spec names r : registry_wf r ->
  registry_wf (addSelectors getSelectorFromName names r) /\ forall m, registered (addSelectors getSelectorFromName names r) m <-> m ∈ names \/ registered r m.
Proof.
  unfold addSelectors. revert r. induction names as [|n names IH]; intros r Hwf.
  - split; [done|]. intros m. split; [by right|]. by intros [[]%elem_of_nil|?].
  - cbn [fold_left]. rewrite Hspelled, toHex_lower by done. destruct (add_name r n Hwf) as [Hwf' Hm]. destruct (IH _ Hwf') as [Hwf'' Hm''].
    split; [exact Hwf''|]. intros m. rewrite Hm'', Hm, elem_of_cons. tauto.
Qed.

Lemma registry_set_same k n r : registry_get k r = Some n -> registry_set k n r = r.
Proof.
  induction r as [|[k' n'] r IH]; [done|]. cbn [registry_get registry_set fst snd]. destruct (String.eqb_spec k' k) as [->|]; [by intros [= ->]|].
  intros H. by rewrite IH.
Qed.

(** The loop of the module overwrites nothing: no name comes twice with another selector. *)
Lemma initial_selectors_added : initial_selectors getSelectorFromName = addSelectors getSelectorFromName COMMON_FUNCTIONS [].
Proof.
  unfold initial_selectors, addSelectors. assert (Hwf : registry_wf []) by (intros e []%elem_of_nil). revert Hwf. generalize (@nil (string * string)).
  induction COMMON_FUNCTIONS as [|n names IH]; [done|]. intros r Hwf. cbn [fold_left]. rewrite Hspelled, toHex_lower by done.
  destruct (add_name r n Hwf) as [Hwf' _]. rewrite <- IH by exact Hwf'. f_equal.
  destruct (registry_get (toHex (selector n)) r) as [n'|] eqn:Hg; [|done]. apply registry_get_in in Hg as Hin.
  pose proof (Hwf _ Hin) as He. cbn in He. apply toHex_selector_inj in He as <-. by apply registry_set_same.
Qed.

Lemma find_selector_spec r z : registry_wf r ->
  match find_selector z r with
  | Some n => registered r n /\ selector n = z
  | None => forall n, registered r n -> selector n <> z
  end.
Proof.
  induction r as [|[k n] r IH]; intros Hwf; cbn [find_selector]; [intros n []%elem_of_nil|].
  pose proof (Hwf (k, n) ltac:(by left)) as Hk. cbn in Hk. subst k. rewrite BigInt_toHex by done.
  destruct (Z.eqb_spec (selector n) z) as [He|He]; [split; [left|done]|].
  assert (Hr : registry_wf r) by (intros e Hin; apply Hwf; by right). specialize (IH Hr). destruct (find_selector z r) as [m|].
  - split; [|apply IH]. right. apply IH.
  - intros m [[= _ ->]|Hm]%elem_of_cons; [done|by apply IH].
Qed.

(** [lookupSelector] after any extension of the module's map: the name found for a spelling, in either case and with any leading
    zeros, is the one registered name with that selector, and a number that is no registered selector has none. *)
Theorem selectors_are_named names s n :
  let r := addSelectors getSelectorFromName names (initial_selectors getSelectorFromName) in
  lookupSelector r s = Some n <-> (n ∈ names \/ n ∈ COMMON_FUNCTIONS) /\ BigInt_of_string s = Some (selector n).
Proof.
  rewrite initial_selectors_added. intros r. destruct (addSelectors_spec COMMON_FUNCTIONS []) as [Hwf0 Hm0]; [intros e []%elem_of_nil|].
  destruct (addSelectors_spec names _ Hwf0) as [Hwf Hm]. fold r in Hwf, Hm.
  assert (Hreg : forall m, registered r m <-> m ∈ names \/ m ∈ COMMON_FUNCTIONS).
  { intros m. rewrite Hm, Hm0. unfold registered. rewrite (elem_of_nil (_, m)). tauto. }
  clearbody r. rewrite <- Hreg. unfold lookupSelector. destruct (registry_get (toLowerCase s) r) as [m|] eqn:Hg.
  - apply registry_get_in in Hg. pose proof (Hwf _ Hg) as He. cbn in He. pose proof (BigInt_lower s (selector m) (Hnonneg m) He) as Hs.
    rewrite He in Hg. split; [intros [= <-]; split; [exact Hg|exact Hs]|]. intros [_ Hn]. rewrite Hs in Hn. injection Hn as Hn. f_equal. by apply (inj selector).
  - destruct (BigInt_of_string s) as [z|]; [|split; [done|by intros [_ ?]]]. cbn [mbind option_bind].
    pose proof (find_selector_spec r z Hwf) as Hf. destruct (find_selector z r) as [m|].
    + destruct Hf as [Hr Hz]. split; [intros [= <-]; split; congruence|]. intros [_ [= Hn]]. f_equal. apply (inj selector). congruence.
    + split; [done|]. intros [Hr [= Hz]]. by destruct (Hf n Hr).
Qed.
End Named.

Lemma wf_selectors selector r : (forall n, 0 <= selector n) -> registry_wf selector r -> selectors r.
Proof. intros Hn Hwf. apply Forall_forall. intros e He. rewrite (Hwf e He), BigInt_toHex by done. eauto. Qed.

(** Failures reach the caller as errors that name the transaction and keep the original error; what they decode is decoded for good. *)
Theorem failures_are_traced r {R} (answer : result (thrown_error + string) R) txHash trace :
  selectors r ->
  match waitForTransaction r answer txHash trace with
  | Ok receipt => answer = Ok receipt
  | Err e => te_transactionHash e = txHash /\
      (answer = Err (inl (te_original e)) \/ answer = Err (inr (er_message (te_original e)))) /\
      forall d, te_decoded e = Some d -> decodeError r d = d
  end.
Proof.
  intros Hr. destruct answer as [receipt|[error|text]]; cbn [waitForTransaction enrichError]; [done| |by split_and!; [|right|]].
  assert (Hd : forall o d, decodeError r <$> o = Some d -> decodeError r d = d)
    by (intros [t|] d; [intros [= <-]; by apply decoding_is_idempotent|done]).
  assert (Ht : forall d, tryDecodeErrorMessage r error = Some d -> decodeError r d = d).
  { intros d. unfold tryDecodeErrorMessage. destruct (truthy_value (er_baseError error)) as [b|]; [intros [= <-]; by apply decoding_is_idempotent|].
    destruct (truthy_value (er_data error)) as [b|]; [intros [= <-]; by apply decoding_is_idempotent|]. apply Hd. }
  destruct trace as [[]|]; cbn; split_and!; try done; try (by left); apply Hd.
Qed.

(** A registry with spelled names for hashes, and a traced failure of the pool. *)
Definition sample_selector (name : string) : Z := Z.pos (encode name).
#[export] Instance sample_selector_inj : Inj (=) (=) sample_selector.
Proof. intros n m H. apply (inj encode). unfold sample_selector in H. congruence. Qed.
Definition sample_registry : registry := initial_selectors (fun name => toHex (sample_selector name)).

Lemma sample_selectors : selectors sample_registry.
Proof.
  apply (wf_selectors sample_selector); [done|]. unfold sample_registry. rewrite (initial_selectors_added _ sample_selector).
  all: try done; try apply _. apply (addSelectors_spec _ sample_selector); try done; try apply _. intros e []%elem_of_nil.
Qed.

Example selectors_are_named_witness : (forall name, 0 <= sample_selector name) /\
  lookupSelector sample_registry ("0X00" +:+ bigint_toString 16 (sample_selector "deposit")) = Some "deposit" /\ lookupSelector sample_registry "0x1" = None.
Proof.
  assert (Hn : forall name, 0 <= sample_selector name) by done. split_and!; [exact Hn| |vm_compute; reflexivity].
  apply (selectors_are_named (fun name => toHex (sample_selector name)) sample_selector (fun _ => eq_refl) Hn []).
  split; [|vm_compute; reflexivity]. right. apply list_elem_of_In. vm_compute. tauto.
Qed.

Definition sample_trace : tree :=
  TObject [("execute_invocation", TObject [("revert_reason", TObject
    [("selector", TString (toHex (sample_selector "transfer")));
     ("error", TString (print (TArray [TString "0x494e56414c4944"; TString "0x5"]))); ("nested", TString "{'a'}"); ("code", TNumber 41)])])].

Example traced_failure : te_decoded (enrichError sample_registry (inl {| er_message := "reverted"; er_baseError := None; er_data := None |}) "0xabc" (Some sample_trace)) =
  Some (TObject [("selector", TString (noted "transfer" (toHex (sample_selector "transfer"))));
                 ("error", TArray [TString "INVALID (0x494e56414c4944)"; TString "0x5"]); ("nested", TString "{'a'}"); ("code", TNumber 41)]).
Proof. vm_compute. reflexivity. Qed.

Example failures_are_traced_witness : exists e,
  waitForTransaction sample_registry (R := unit) (Err (inl {| er_message := "reverted"; er_baseError := None; er_data := None |})) "0xabc" (Some sample_trace) = Err e /\
  te_transactionHash e = "0xabc".
Proof.
  eexists. split; [reflexivity|].
  pose proof (failures_are_traced sample_registry (R := unit) (Err (inl {| er_message := "reverted"; er_baseError := None; er_data := None |})) "0xabc" (Some sample_trace)) as H.
  apply H, sample_selectors.
Qed.
