(* ===== verification/Logging.v ===== *)
(** * Logging ([sdk/src/utils/logging.ts])

    Which targets and methods [SDK_DEBUG] enables, the trace ids of the calls of logged objects, the
    values of a line with their cycles cut, and the arguments that only an enabled log evaluates. The
    clock of a line is not modelled; objects are addresses of a heap, so that sharing is seen. *)
From Stdlib Require Import Ascii ZArith Lia.
From stdpp Require Import base tactics list strings.
From S2P Require Import Prelude Convert JsonText.

Local Open Scope string_scope.
Local Open Scope Z_scope.

(** [s.split(",")]. *)
Fixpoint split_comma (s : string) : list string :=
  match s with
  | EmptyString => [EmptyString]
  | String c s => if Ascii.eqb c "," then EmptyString :: split_comma s
                  else match split_comma s with p :: l => String c p :: l | [] => [String c EmptyString] end
  end.

Definition dotted (p : string) : string := p +:+ ".".

(** What [SDK_DEBUG] says: [Some true] for every target, [None] when it is not set, and the patterns otherwise. *)
Definition always_enabled (env : string) : bool := String.eqb env "1" || String.eqb env "true".

Definition isDebugEnabled (sdk_debug : option string) (targetName : option string) : bool :=
  match sdk_debug with
  | None | Some EmptyString => false
  | Some env =>
      if always_enabled env then true
      else match targetName with
           | None | Some EmptyString => false
           | Some targetName => existsb (fun p => String.eqb targetName p || String.prefix (dotted p) targetName) (split_comma env)
           end
  end.

Definition isDebugEnabledForTarget (sdk_debug : option string) (name : string) : bool :=
  match sdk_debug with
  | None | Some EmptyString => false
  | Some env =>
      if always_enabled env then true
      else existsb (fun p => String.eqb p name || String.prefix (dotted name) p || String.prefix (dotted p) name) (split_comma env)
  end.

(** [useColor] of the environment and of the terminal; a variable that is empty counts as unset. *)
Definition env_set (v : option string) : bool := match v with Some (String _ _) => true | _ => false end.
Definition useColor (sdk_debug_color no_color force_color : option string) (isTTY : bool) : bool :=
  if bool_decide (sdk_debug_color = Some "0") || env_set no_color then false
  else if bool_decide (sdk_debug_color = Some "1") || env_set force_color then true
  else isTTY.
Definition ESCAPE : string := String "027" EmptyString.
Definition color (colored : bool) (text : string) (code : Z) : string :=
  if colored then ESCAPE +:+ "[" +:+ bigint_toString 10 code +:+ "m" +:+ text +:+ ESCAPE +:+ "[0m" else text.

(** ** Trace ids *)

(** [rootTraceCounter], and the contexts that [AsyncLocalStorage] holds for the calls in flight, by the order of their creation. *)
Record traces := { tr_root : Z; tr_contexts : list (string * Z) }.
Definition no_traces : traces := {| tr_root := 0; tr_contexts := [] |}.

(** [getTraceId]: the next child of the current context, or the next root without one or without the storage. *)
Definition getTraceId (storage : bool) (current : option nat) (s : traces) : string * traces :=
  match (if storage then current ≫= fun k => c ← tr_contexts s !! k; Some (k, c) else None) with
  | Some (k, (id, childCounter)) =>
      (id +:+ "." +:+ bigint_toString 10 (childCounter + 1), {| tr_root := tr_root s; tr_contexts := <[k := (id, childCounter + 1)]> (tr_contexts s) |})
  | None => (bigint_toString 10 (tr_root s + 1), {| tr_root := tr_root s + 1; tr_contexts := tr_contexts s |})
  end.

Inductive LogPhase := ENTER | EXIT | ERROR.
Record log_entry (V : Type) := { lg_target : string; lg_method : string; lg_result : option V; lg_phase : LogPhase; lg_trace : string }.
Arguments lg_target {V} _. Arguments lg_method {V} _. Arguments lg_result {V} _. Arguments lg_phase {V} _. Arguments lg_trace {V} _.

(** A method of the proxy is called in a context: it gets an id and a context of its own, in which the method runs. *)
Definition enter_call {V} (storage : bool) (target method : string) (current : option nat) (s : traces) : log_entry V * traces :=
  let '(traceId, s) := getTraceId storage current s in
  ({| lg_target := target; lg_method := method; lg_result := None; lg_phase := ENTER; lg_trace := traceId |},
   {| tr_root := tr_root s; tr_contexts := tr_contexts s ++ [(traceId, 0)] |})%list.

(** It returned or threw, at once or by its promise: the callback sees it, and the caller gets it unchanged. *)
Definition finish_call {V} (target method traceId : string) (outcome : V + V) : log_entry V * (V + V) :=
  match outcome with
  | inl resolved => ({| lg_target := target; lg_method := method; lg_result := Some resolved; lg_phase := EXIT; lg_trace := traceId |}, outcome)
  | inr error => ({| lg_target := target; lg_method := method; lg_result := Some error; lg_phase := ERROR; lg_trace := traceId |}, outcome)
  end.

(** The [get] trap: functions under a name that does not start with an underscore. *)
Definition is_logged (prop : string) (is_function : bool) : bool := (is_function && negb (String.prefix "_" prop))%bool.
(** [withLogging]: the proxy, or the target itself when no log could be enabled. *)
Definition withLogging (sdk_debug : option string) (name : string) : bool := isDebugEnabledForTarget sdk_debug name.

(** The calls of a run, each from the context it names. *)
Fixpoint enter_calls (storage : bool) (calls : list (option nat)) (s : traces) : list string * traces :=
  match calls with
  | [] => ([], s)
  | current :: calls =>
      let '(e, s) := enter_call (V := unit) storage "" "" current s in
      let '(ids, s) := enter_calls storage calls s in (lg_trace e :: ids, s)
  end.

(** ** Values in a line *)

(** What is logged: primitive values, or the address of an object. Objects can be shared and can be cyclic. *)
Inductive log_value :=
| LNull | LUndefined | LBool (b : bool) | LNumber (n : Z) | LText (s : string)
| LBig (z : Z) | LFunction | LBytes (hex : string)
| LRef (address : nat).
Inductive log_object :=
| OArray (items : list log_value)
| ORecord (fields : list (string * log_value))
| OMap (entries : list (log_value * log_value))
| OSet (items : list log_value).

(** The loops of [JSON.stringify] over items and fields: what the replacer has seen is passed on; [undefined] is [null] in an array
    and no field of a record. The outer [None] is that of the fuel. *)
Section Traverse.
Context (format : list nat -> log_value -> option (option tree * list nat)).
Fixpoint format_items (seen : list nat) (l : list log_value) : option (list tree * list nat) :=
  match l with
  | [] => Some ([], seen)
  | v :: l => r ← format seen v; rest ← format_items r.2 l; Some (default TNull r.1 :: rest.1, rest.2)
  end.
Fixpoint format_fields (seen : list nat) (l : list (string * log_value)) : option (list (string * tree) * list nat) :=
  match l with
  | [] => Some ([], seen)
  | (k, v) :: l => r ← format seen v; rest ← format_fields r.2 l;
      Some (match r.1 with Some t => (k, t) :: rest.1 | None => rest.1 end, rest.2)
  end.
Fixpoint format_entries (seen : list nat) (l : list (log_value * log_value)) : option (list tree * list nat) :=
  match l with
  | [] => Some ([], seen)
  | (k, v) :: l => r ← format_items seen [k; v]; rest ← format_entries r.2 l; Some (TArray r.1 :: rest.1, rest.2)
  end.
End Traverse.

Section Format.
Context (heap : list log_object).

(** [JSON.stringify] with [createReplacer()], as the tree that is printed. An address outside of the heap does not occur. *)
Fixpoint format (fuel : nat) (seen : list nat) (v : log_value) : option (option tree * list nat) :=
  match v with
  | LNull => Some (Some TNull, seen)
  | LUndefined => Some (None, seen)
  | LBool b => Some (Some (TBool b), seen)
  | LNumber n => Some (Some (TNumber n), seen)
  | LText s => Some (Some (TString s), seen)
  | LBig z => Some (Some (TString (toHex z)), seen)
  | LFunction => Some (Some (TString "[Function]"), seen)
  | LBytes hex => Some (Some (TString hex), seen)
  | LRef a =>
      if bool_decide (a ∈ seen) then Some (Some (TString "[Circular]"), seen)
      else match fuel, heap !! a with
           | S fuel, Some o =>
               let seen := a :: seen in
               match o with
               | OArray items | OSet items => r ← format_items (format fuel) seen items; Some (Some (TArray r.1), r.2)
               | ORecord fields => r ← format_fields (format fuel) seen fields; Some (Some (TObject r.1), r.2)
               | OMap entries => r ← format_entries (format fuel) seen entries;
                   Some (Some (TObject [("dataType", TString "Map"); ("value", TArray r.1)]), r.2)
               end
           | _, _ => None
           end
  end.
(** Every object is entered once. *)
Definition format_value (v : log_value) : option (option tree) := fst <$> format (length heap) [] v.
End Format.

(** ** Lines *)

Inductive log_arg (V : Type) := Given (v : V) | Lazily (f : V).
Arguments Given {V} v. Arguments Lazily {V} f.

(** [debugLog]: the functions among the arguments that are called, by their place, and the target, the trace id and the values of the line. *)
Definition debugLog {V} (sdk_debug : option string) (target sub : string) (traceId : option string) (args : list (log_arg V)) :
    list nat * option (string * string * list V) :=
  if isDebugEnabled sdk_debug (Some (dotted target +:+ sub)) then
    (omap (fun e => match e.2 with Lazily _ => Some e.1 | Given _ => None end) (imap pair args),
     Some (dotted target +:+ sub, default "?" traceId, map (fun a => match a with Given v | Lazily v => v end) args))
  else ([], None).

(** [consoleLogCallback]: the text of the line after its timestamp, without colors; [format] is the text of a value. *)
Definition consoleLogCallback {V} (sdk_debug : option string) (format : V -> string) (args : list V) (message : V -> string) (e : log_entry V) : option string :=
  if isDebugEnabled sdk_debug (Some (dotted (lg_target e) +:+ lg_method e)) then
    let prefix := "[" +:+ lg_trace e +:+ "] [" +:+ dotted (lg_target e) +:+ lg_method e +:+ "] " in
    Some (match lg_phase e, lg_result e with
          | ENTER, _ => prefix +:+ "→ (" +:+ String.concat ", " (map format args) +:+ ")"
          | EXIT, Some result => prefix +:+ "← " +:+ format result
          | ERROR, Some error => prefix +:+ "✖ " +:+ message error
          | _, None => prefix
          end)
  else None.

(** ** Patterns: properties *)

Lemma prefix_spec p s : String.prefix p s = true <-> exists rest, s = p +:+ rest.
Proof.
  split; [|intros [rest ->]; apply prefix_append]. revert s. induction p as [|c p IH]; intros s Hp; [by exists s|].
  destruct s as [|d s]; [done|]. cbn [String.prefix] in Hp. destruct (ascii_dec c d) as [->|]; [|done].
  destruct (IH s Hp) as [rest ->]. exists rest. by rewrite append_cons.
Qed.

(** Two ways to cut a text: one of the first parts starts with the other. *)
Lemma cut_twice a b c d : a +:+ b = c +:+ d -> (exists u, a = c +:+ u) \/ (exists x u, c = a +:+ String x u).
Proof.
  revert c. induction a as [|x a IH]; intros c H.
  - destruct c as [|y c]; [left; by exists EmptyString|right; by exists y, c].
  - destruct c as [|y c]; [left; by exists (String x a)|]. rewrite !append_cons in H. injection H as -> H.
    destruct (IH c H) as [[u ->]|(z & u & ->)]; [left; exists u|right; exists z, u]; by rewrite append_cons.
Qed.

Lemma append_inj_l a b c : a +:+ b = a +:+ c -> b = c.
Proof. induction a as [|x a IH]; [done|]. rewrite !append_cons. intros [= H]. by apply IH. Qed.

(** A pattern that matches a method of the target matches the target, and the other way round some method. *)
Lemma pattern_of_method name m p :
  String.eqb (dotted name +:+ m) p || String.prefix (dotted p) (dotted name +:+ m) = true ->
  String.eqb p name || String.prefix (dotted name) p || String.prefix (dotted p) name = true.
Proof.
  rewrite orb_true_iff. intros [<-%String.eqb_eq|[rest Hr]%prefix_spec].
  - by rewrite prefix_append, orb_true_r.
  - unfold dotted in *. rewrite !append_assoc in Hr. destruct (cut_twice name _ p _ Hr) as [[u ->]|(x & u & ->)].
    + rewrite !append_assoc in Hr. apply append_inj_l in Hr. destruct u as [|x u]; [by rewrite append_empty, String.eqb_refl|].
      rewrite append_cons in Hr. injection Hr as -> _. rewrite (proj2 (prefix_spec (p +:+ ".") _)); [apply orb_true_r|].
      exists u. by rewrite append_assoc.
    + rewrite !append_assoc in Hr. apply append_inj_l in Hr. rewrite append_cons in Hr. injection Hr as <- _.
      rewrite (proj2 (prefix_spec (name +:+ ".") _)); [by rewrite orb_true_r|]. eexists. by rewrite append_assoc.
Qed.

Lemma method_of_pattern name p :
  String.eqb p name || String.prefix (dotted name) p || String.prefix (dotted p) name = true ->
  exists m, String.eqb (dotted name +:+ m) p || String.prefix (dotted p) (dotted name +:+ m) = true.
Proof.
  rewrite !orb_true_iff. intros [[->%String.eqb_eq|[m ->]%prefix_spec]|[rest ->]%prefix_spec].
  - exists EmptyString. rewrite prefix_append. apply orb_true_r.
  - exists m. by rewrite String.eqb_refl.
  - exists EmptyString. apply orb_true_iff. right. apply prefix_spec. exists (rest +:+ "." +:+ EmptyString). unfold dotted. by rewrite !append_assoc.
Qed.

(** [withLogging] leaves a target without a proxy exactly when no method of it could write a line, whatever its name. *)
Theorem proxies_are_for_lines sdk_debug name :
  withLogging sdk_debug name = true <-> exists m, isDebugEnabled sdk_debug (Some (dotted name +:+ m)) = true.
Proof.
  unfold withLogging, isDebugEnabledForTarget, isDebugEnabled. destruct sdk_debug as [[|c env]|]; [by split; [|intros [? ?]]| |by split; [|intros [? ?]]].
  destruct (always_enabled _); [split; [by exists EmptyString|done]|].
  assert (Hne : forall m, exists x y, dotted name +:+ m = String x y).
  { intros m. unfold dotted. destruct name as [|x name]; [|rewrite !append_cons]; eauto. }
  rewrite existsb_exists. split.
  - intros (p & Hp & Hm). destruct (method_of_pattern _ _ Hm) as [m Hm']. exists m. destruct (Hne m) as (x & y & He).
    rewrite He in *. apply existsb_exists. eauto.
  - intros [m Hm]. destruct (Hne m) as (x & y & He). rewrite He in Hm. apply existsb_exists in Hm as (p & Hp & Hm).
    exists p. split; [done|]. rewrite <- He in Hm. by apply pattern_of_method in Hm.
Qed.

(** ** Trace ids: properties *)

Fixpoint no_dot (s : string) : bool := match s with EmptyString => true | String c s => negb (Ascii.eqb c ".") && no_dot s end.

Lemma no_dot_app s t : no_dot (s +:+ t) = no_dot s && no_dot t.
Proof. induction s as [|c s IH]; [done|]. rewrite append_cons. cbn [no_dot]. by rewrite IH, andb_assoc. Qed.

Lemma has_dot a d : no_dot (a +:+ "." +:+ d) = false.
Proof. rewrite !no_dot_app. apply andb_false_r. Qed.

Lemma decimal_no_dot z : no_dot (bigint_toString 10 z) = true.
Proof.
  assert (H : forall fuel n acc, no_dot acc = true -> no_dot (to_digits fuel 10 n acc) = true).
  { induction fuel as [|fuel IH]; [done|]. intros n acc Ha. cbn [to_digits].
    assert (Hd : no_dot (String (digit_char (n mod 10)) acc) = true).
    { cbn [no_dot]. rewrite Ha, andb_true_r. pose proof (Z.mod_pos_bound n 10 ltac:(lia)) as Hb. revert Hb. generalize (n mod 10). clear.
      intros d Hd. assert (He : d ∈ seqZ 0 10) by (apply elem_of_seqZ; lia). revert He. vm_compute seqZ. rewrite !elem_of_cons.
      intros H; repeat (destruct H as [->|H]; [reflexivity|]). by apply elem_of_nil in H. }
    destruct (n / 10 =? 0); [exact Hd|by apply IH]. }
  unfold bigint_toString. destruct (z <? 0); cbn [no_dot Ascii.eqb Bool.eqb negb andb]; by apply H.
Qed.

Lemma last_segment a b d e : no_dot d = true -> no_dot e = true -> a +:+ "." +:+ d = b +:+ "." +:+ e -> a = b /\ d = e.
Proof.
  intros Hd He H. destruct (cut_twice _ _ _ _ H) as [[u ->]|(x & u & ->)]; rewrite append_assoc in H; apply append_inj_l in H.
  - destruct u as [|x u]; [apply (append_inj_l "." d e) in H; by rewrite append_empty|]. rewrite append_cons in H. injection H as -> H.
    change (u +:+ "." +:+ d = e) in H. rewrite <- H in He. by rewrite has_dot in He.
  - rewrite append_cons in H. injection H as <- H. change (d = u +:+ "." +:+ e) in H. rewrite H in Hd. by rewrite has_dot in Hd.
Qed.

(** The calls a call is nested in, itself first, by their numbers. *)
Fixpoint path_text (p : list Z) : string :=
  match p with [] => EmptyString | [n] => bigint_toString 10 n | n :: p => path_text p +:+ "." +:+ bigint_toString 10 n end.

Lemma path_text_inj p q : p <> [] -> q <> [] -> path_text p = path_text q -> p = q.
Proof.
  revert q. induction p as [|n p IH]; [done|]. intros [|m q] _ Hq H; [done|].
  destruct p as [|n' p], q as [|m' q].
  - cbn in H. apply (inj (bigint_toString 10)) in H. congruence.
  - apply (f_equal no_dot) in H. change (no_dot (bigint_toString 10 n) = no_dot (path_text (m' :: q) +:+ "." +:+ bigint_toString 10 m)) in H.
    by rewrite decimal_no_dot, has_dot in H.
  - apply (f_equal no_dot) in H. change (no_dot (path_text (n' :: p) +:+ "." +:+ bigint_toString 10 n) = no_dot (bigint_toString 10 m)) in H.
    by rewrite decimal_no_dot, has_dot in H.
  - change (path_text (n' :: p) +:+ "." +:+ bigint_toString 10 n = path_text (m' :: q) +:+ "." +:+ bigint_toString 10 m) in H.
    apply last_segment in H as [Hp Hn]; [|apply decimal_no_dot..]. apply (inj (bigint_toString 10)) in Hn as ->. by rewrite (IH (m' :: q)).
Qed.

(** Every context has a path of its own, whose last number its parent, or the root counter, has reached. *)
Definition traced (s : traces) (paths : list (list Z)) : Prop :=
  Forall2 (fun c p => c.1 = path_text p /\ p <> []) (tr_contexts s) paths /\ NoDup paths /\
  forall n q, n :: q ∈ paths ->
    match q with [] => n <= tr_root s | _ => exists k c, paths !! k = Some q /\ tr_contexts s !! k = Some c /\ n <= c.2 end.

Lemma traced_add s root contexts paths n q :
  traced s paths -> tr_root s <= root -> Forall2 (fun c c' => c.1 = c'.1 /\ c.2 <= c'.2) (tr_contexts s) contexts ->
  (forall m, m :: q ∈ paths -> m < n) ->
  match q with [] => n <= root | _ => exists k c, paths !! k = Some q /\ contexts !! k = Some c /\ n <= c.2 end ->
  traced {| tr_root := root; tr_contexts := contexts ++ [(path_text (n :: q), 0)] |} (paths ++ [n :: q])%list.
Proof.
  intros (Hids & Hnd & Hreach) Hroot Hgrow Hfresh Hparent. split_and!; cbn [tr_root tr_contexts].
  - apply Forall2_app; [|by repeat constructor]. clear -Hids Hgrow. revert contexts Hgrow.
    induction Hids as [|c p cs ps [Hc Hp] _ IH]; intros contexts Hgrow; inversion Hgrow as [|? c' ? ? [He _] Hrest]; subst; constructor; [|by apply IH].
    split; [congruence|done].
  - apply NoDup_app. split_and!; [done| |apply NoDup_singleton]. intros p Hp ->%list_elem_of_singleton. apply Hfresh in Hp. lia.
  - intros m r [Hm|Hm]%elem_of_app.
    + pose proof (Hreach m r Hm) as Hr. destruct r as [|x r]; [lia|]. destruct Hr as (k & c & Hk & Hc & Hle).
      destruct (Forall2_lookup_l _ _ _ _ _ Hgrow Hc) as (c' & Hc' & _ & Hle'). exists k, c'.
      split_and!; [by apply lookup_app_l_Some|by apply lookup_app_l_Some|lia].
    + apply list_elem_of_singleton in Hm as [= -> ->]. destruct q as [|x q]; [done|]. destruct Hparent as (k & c & Hk & Hc & Hle). exists k, c.
      split_and!; [by apply lookup_app_l_Some|by apply lookup_app_l_Some|done].
Qed.

Lemma enter_traced {V} storage target method current s paths : traced s paths ->
  let '(e, s') := enter_call (V := V) storage target method current s in exists p, lg_trace e = path_text p /\ p <> [] /\ traced s' (paths ++ [p])%list.
Proof.
  intros Ht. pose proof Ht as (Hids & Hnd & Hreach). unfold enter_call, getTraceId.
  assert (Hsame : Forall2 (fun c c' : string * Z => c.1 = c'.1 /\ c.2 <= c'.2) (tr_contexts s) (tr_contexts s)) by (apply Forall_Forall2_diag, Forall_forall; intros; by split).
  assert (Hroot : exists p, bigint_toString 10 (tr_root s + 1) = path_text p /\ p <> [] /\
    traced {| tr_root := tr_root s + 1; tr_contexts := tr_contexts s ++ [(bigint_toString 10 (tr_root s + 1), 0)] |} (paths ++ [p])%list).
  { exists [tr_root s + 1]. split_and!; [done..|]. apply (traced_add s (tr_root s + 1) (tr_contexts s) paths (tr_root s + 1) []); [done|lia|done| |done]. intros m Hm%Hreach. cbn in Hm. lia. }
  destruct storage; [|exact Hroot]. destruct current as [k|]; [|exact Hroot]. cbn [mbind option_bind].
  destruct (tr_contexts s !! k) as [[id n]|] eqn:Hk; [|exact Hroot]. cbn [mbind option_bind].
  destruct (Forall2_lookup_l _ _ _ _ _ Hids Hk) as (q & Hq & Hid & Hne). cbn in Hid. subst id.
  exists ((n + 1) :: q). split_and!; [by destruct q|done|].
  replace (path_text q +:+ "." +:+ bigint_toString 10 (n + 1)) with (path_text ((n + 1) :: q)) by (by destruct q).
  cbn [tr_root tr_contexts]. apply (traced_add s (tr_root s) _ paths (n + 1) q); [done|lia| | |].
  - apply Forall2_same_length_lookup. split; [by rewrite length_insert|]. intros i c c' Hc Hc'. destruct (decide (i = k)) as [->|Hi].
    + rewrite list_lookup_insert_eq in Hc' by (by eapply lookup_lt_Some). rewrite Hk in Hc. simplify_eq. cbn. split; [done|lia].
    + rewrite list_lookup_insert_ne in Hc' by done. rewrite Hc in Hc'. simplify_eq. by split.
  - intros m Hm%Hreach. destruct q as [|x q]; [done|]. destruct Hm as (k' & c & Hk' & Hc & Hle).
    rewrite (NoDup_lookup _ _ _ _ Hnd Hk' Hq) in Hc. rewrite Hk in Hc. injection Hc as <-. cbn in Hle. lia.
  - destruct q as [|x q]; [done|]. eexists k, _. split_and!; [done|by apply list_lookup_insert_eq; eapply lookup_lt_Some|cbn; lia].
Qed.

Lemma calls_traced storage calls s paths : traced s paths ->
  let '(ids, s') := enter_calls storage calls s in exists ps, ids = map path_text ps /\ Forall (fun p => p <> []) ps /\ traced s' (paths ++ ps)%list.
Proof.
  revert s paths. induction calls as [|current calls IH]; intros s paths Ht; cbn [enter_calls]; [exists []; by rewrite app_nil_r|].
  pose proof (enter_traced (V := unit) storage "" "" current s paths Ht) as He.
  destruct (enter_call storage "" "" current s) as [e s']. destruct He as (p & Hp & Hne & Ht'). specialize (IH s' _ Ht').
  destruct (enter_calls storage calls s') as [ids s'']. destruct IH as (ps & -> & Hps & Ht''). exists (p :: ps).
  split_and!; [by rewrite Hp|by constructor|by rewrite <- app_assoc in Ht''].
Qed.

(** However logged calls interleave and nest, with or without the storage of Node.js, no two of them have the same trace id: the
    line of a result belongs to one call. *)
Theorem trace_ids_are_distinct storage calls : NoDup (enter_calls storage calls no_traces).1.
Proof.
  assert (Ht : traced no_traces []) by (split_and!; [constructor|constructor|intros n q []%elem_of_nil]).
  pose proof (calls_traced storage calls _ _ Ht) as Hc. destruct (enter_calls storage calls no_traces) as [ids s].
  destruct Hc as (ps & -> & Hps & _ & Hnd & _). cbn [app fst] in *. clear Ht s. induction Hps as [|p ps Hp Hps IH]; [constructor|].
  apply NoDup_cons in Hnd as [Hin Hnd]. cbn [map]. apply NoDup_cons. split; [|by apply IH].
  intros (q & He & Hq)%list_elem_of_In%in_map_iff. apply Hin. rewrite Forall_forall in Hps.
  apply list_elem_of_In in Hq. by rewrite (path_text_inj p q) by (done || by apply Hps).
Qed.

(** ** Values: properties *)

Section Formatted.
Context (heap : list log_object).

(** Every address of the heap, and of the values, is one of the heap. *)
Definition in_heap (v : log_value) : Prop := match v with LRef a => (a < length heap)%nat | _ => True end.
Definition object_in_heap (o : log_object) : Prop :=
  match o with
  | OArray items | OSet items => Forall in_heap items
  | ORecord fields => Forall (fun e => in_heap e.2) fields
  | OMap entries => Forall (fun e => in_heap e.1 /\ in_heap e.2) entries
  end.
Context (Hheap : Forall object_in_heap heap).

(** The objects that the replacer has not seen. *)
Definition unseen (seen : list nat) : nat := length (filter (fun a => a ∉ seen) (seq 0 (length heap))).

Lemma unseen_mono seen seen' : seen ⊆ seen' -> (unseen seen' <= unseen seen)%nat.
Proof.
  intros Hs. unfold unseen. induction (seq 0 (length heap)) as [|a l IH]; [done|]. rewrite !filter_cons.
  destruct (decide (a ∉ seen')) as [H'|H'], (decide (a ∉ seen)) as [H|H]; cbn [length]; try lia. exfalso. apply H. intros Ha. apply H'. by apply Hs.
Qed.

Lemma unseen_enter seen a : a ∉ seen -> (a < length heap)%nat -> (unseen (a :: seen) < unseen seen)%nat.
Proof.
  intros Ha Hl. unfold unseen. assert (Hin : a ∈ seq 0 (length heap)) by (apply elem_of_seq; lia). revert Hin.
  assert (Hle : forall l, (length (filter (fun b => b ∉ a :: seen) l) <= length (filter (fun b => b ∉ seen) l))%nat).
  { induction l as [|b l IH]; [done|]. rewrite !filter_cons.
    destruct (decide (b ∉ a :: seen)) as [H'|H'], (decide (b ∉ seen)) as [H|H]; cbn [length]; try lia. exfalso. apply H. intros Hb. apply H'. by right. }
  induction (seq 0 (length heap)) as [|b l IH]; [by intros []%elem_of_nil|]. intros [<-|Hin]%elem_of_cons; rewrite !filter_cons; [|specialize (IH Hin)].
  - rewrite decide_False by (intros H; apply H; by left). rewrite decide_True by done. cbn [length]. specialize (Hle l). lia.
  - destruct (decide (_ ∉ a :: seen)) as [H'|H'], (decide (_ ∉ seen)) as [H|H]; cbn [length]; try lia. exfalso. apply H. intros Hb. apply H'. by right.
Qed.

(** A formatter that settles every value of the heap and forgets nothing it has seen. *)
Definition settles (n : nat) (f : list nat -> log_value -> option (option tree * list nat)) : Prop :=
  forall seen v, in_heap v -> (unseen seen <= n)%nat -> exists r, f seen v = Some r /\ seen ⊆ r.2.

Section Items.
Context (n : nat) (f : list nat -> log_value -> option (option tree * list nat)) (Hf : settles n f).

Lemma items_settle l seen : Forall in_heap l -> (unseen seen <= n)%nat -> exists r, format_items f seen l = Some r /\ seen ⊆ r.2.
Proof.
  intros Hl. revert seen. induction Hl as [|v l Hv _ IH]; intros seen Hn; cbn [format_items]; [eauto|].
  destruct (Hf seen v Hv Hn) as (r & -> & Hr). cbn [mbind option_bind].
  destruct (IH r.2) as (r' & -> & Hr'); [pose proof (unseen_mono _ _ Hr); lia|]. eexists. split; [done|]. by etrans.
Qed.

Lemma fields_settle l seen : Forall (fun e => in_heap e.2) l -> (unseen seen <= n)%nat -> exists r, format_fields f seen l = Some r /\ seen ⊆ r.2.
Proof.
  intros Hl. revert seen. induction Hl as [|[k v] l Hv _ IH]; intros seen Hn; cbn [format_fields]; [eauto|].
  destruct (Hf seen v Hv Hn) as (r & -> & Hr). cbn [mbind option_bind].
  destruct (IH r.2) as (r' & -> & Hr'); [pose proof (unseen_mono _ _ Hr); lia|]. eexists. split; [done|]. by etrans.
Qed.

Lemma entries_settle l seen : Forall (fun e => in_heap e.1 /\ in_heap e.2) l -> (unseen seen <= n)%nat -> exists r, format_entries f seen l = Some r /\ seen ⊆ r.2.
Proof.
  intros Hl. revert seen. induction Hl as [|[k v] l [Hk Hv] _ IH]; intros seen Hn; cbn [format_entries]; [eauto|].
  destruct (items_settle [k; v] seen) as (r & -> & Hr); [by repeat constructor|done|]. cbn [mbind option_bind].
  destruct (IH r.2) as (r' & -> & Hr'); [pose proof (unseen_mono _ _ Hr); lia|]. eexists. split; [done|]. by etrans.
Qed.
End Items.

Lemma format_settles n : settles n (format heap n).
Proof.
  induction n as [|n IH]; intros seen v Hv Hn; destruct v as [| |b|k|s|z| |hex|a]; try (by eexists; split; [reflexivity|]); cbn [format].
  - rewrite bool_decide_eq_true_2; [eauto|]. destruct (decide (a ∈ seen)) as [|Ha]; [done|]. pose proof (unseen_enter seen a Ha Hv). lia.
  - destruct (decide (a ∈ seen)) as [Ha|Ha]; [rewrite bool_decide_eq_true_2 by done; eauto|]. rewrite bool_decide_eq_false_2 by done.
    pose proof (unseen_enter seen a Ha Hv) as Hlt. cbn in Hv. destruct (lookup_lt_is_Some_2 heap a Hv) as [o Ho]. rewrite Ho.
    pose proof (proj1 (Forall_lookup _ _) Hheap _ _ Ho) as Hin.
    assert (Hsub : seen ⊆ a :: seen) by (intros x Hx; by right). assert (Hle : (unseen (a :: seen) <= n)%nat) by lia.
    destruct o as [items|fields|entries|items]; cbn in Hin.
    1,4: destruct (items_settle n _ IH items (a :: seen) Hin Hle) as (r & -> & Hr); eexists; split; [done|]; by etrans.
    + destruct (fields_settle n _ IH fields (a :: seen) Hin Hle) as (r & -> & Hr). eexists. split; [done|]. by etrans.
    + destruct (entries_settle n _ IH entries (a :: seen) Hin Hle) as (r & -> & Hr). eexists. split; [done|]. by etrans.
Qed.

(** Logging a value ends, on heaps with cycles as well: every object is entered at most once. *)
Theorem logs_of_values_end v : in_heap v -> is_Some (format_value heap v).
Proof.
  intros Hv. unfold format_value. destruct (format_settles (length heap) [] v Hv) as (r & -> & _); [|by eexists].
  unfold unseen. etrans; [apply length_filter|by rewrite length_seq].
Qed.
End Formatted.

(** An object that holds itself, and one that holds another twice: both second visits are printed as circular. *)
Example logs_of_values_end_witness : is_Some (format_value [ORecord [("self", LRef 0%nat); ("n", LBig 255)]] (LRef 0%nat)).
Proof. apply logs_of_values_end; [repeat constructor|cbn; lia]. Defined.
Example cycles_are_cut : format_value [ORecord [("self", LRef 0%nat); ("n", LBig 255)]] (LRef 0%nat) =
  Some (Some (TObject [("self", TString "[Circular]"); ("n", TString "0xff")])).
Proof. vm_compute. reflexivity. Qed.
(** The label is given to every repeated object, in a value without any cycle too. *)
Example shared_is_called_circular : format_value [OArray [LRef 1%nat; LRef 1%nat]; ORecord [("token", LBig 1)]] (LRef 0%nat) =
  Some (Some (TArray [TObject [("token", TString "0x1")]; TString "[Circular]"])).
Proof. vm_compute. reflexivity. Qed.
Example maps_are_tagged : format_value [OMap [(LBig 1, LRef 1%nat)]; OSet [LText "a"; LFunction; LUndefined]] (LRef 0%nat) =
  Some (Some (TObject [("dataType", TString "Map"); ("value", TArray [TArray [TString "0x1"; TArray [TString "a"; TString "[Function]"; TNull]]])])).
Proof. vm_compute. reflexivity. Qed.

(** A disabled log evaluates none of its arguments, an enabled one each function once. *)
Theorem disabled_logs_are_free {V} sdk_debug target sub traceId (args : list (log_arg V)) :
  match debugLog sdk_debug target sub traceId args with
  | (called, Some (_, _, values)) => isDebugEnabled sdk_debug (Some (dotted target +:+ sub)) = true /\ length values = length args /\
      forall k, k ∈ called <-> exists f, args !! k = Some (Lazily f) /\ values !! k = Some f
  | (called, None) => isDebugEnabled sdk_debug (Some (dotted target +:+ sub)) = false /\ called = []
  end.
Proof.
  unfold debugLog. destruct (isDebugEnabled sdk_debug (Some (dotted target +:+ sub))); [|done]. split_and!; [done|apply length_map|].
  intros k. rewrite list_elem_of_omap. split.
  - intros ([i a] & Hi & Ha). apply list_elem_of_lookup in Hi as [j Hj]. apply list_lookup_imap_Some in Hj as (b & Hb & [= -> ->]).
    cbn in Ha. destruct b as [v|f]; [done|]. injection Ha as ->. exists f. split; [done|]. by rewrite list_lookup_fmap, Hb.
  - intros (f & Hf & _). exists (k, Lazily f). split; [|done]. apply list_elem_of_lookup. exists k. by rewrite list_lookup_imap, Hf.
Qed.

Example debug_patterns : isDebugEnabled (Some "compiler,pool.prove") (Some "compiler.compile") = true /\
  isDebugEnabled (Some "compiler,pool.prove") (Some "pool.simulate") = false /\ withLogging (Some "compiler,pool.prove") "pool" = true /\
  withLogging (Some "compiler,pool.prove") "discovery" = false /\
  fst (enter_calls true [None; Some 0%nat; Some 1%nat; Some 0%nat; None] no_traces) = ["1"; "1.1"; "1.1.1"; "1.2"; "2"].
Proof. vm_compute. repeat split. Qed.
