(* ===== verification/SdkMocks.v ===== *)
(** * Proof doubles of the SDK ([sdk/src/testing/mock-proof-invocation-factory.ts], [mock-proof-provider.ts], [screening-signer.ts], [screening-mock-proving.ts])

    The invocation that carries client actions as marked JSON to the mock pool, and the mock prover that attests depositors with the
    devnet key. The theorems say that the doubles stand for what they replace: the mock pool executes the very actions, and the
    attestation is the one the screening proxy would sign, for the address that the interceptor would screen. *)
From Stdlib Require Import Ascii ZArith QArith Lia.
From stdpp Require Import base tactics list strings.
From S2P Require Import Prelude JsMap Convert Crypto Interfaces Compiler PoolTransaction ScreenedAddress StarknetCalls MockPool Json JsonText EllipticHandler ProvingService ProofInvocation Proving.

Local Open Scope string_scope.
Local Open Scope Z_scope.

(** ** BigInts and the Open symbol in JSON *)

#[warnings="-register-all"]
Inductive marked : Type :=
| VNull
| VBool (b : bool)
| VNumber (n : Z)
| VBig (z : Z)
| VOpen
| VText (s : string)
| VArray (items : list marked)
| VObject (fields : list (string * marked)).

Definition BIGINT_MARK : string := "__bigint__".
Definition OPEN_MARK : string := "__symbol__Open".

(** [JSON.stringify] with [jsonReplacer]. *)
Fixpoint jsonReplacer (v : marked) : tree :=
  match v with
  | VNull => TNull
  | VBool b => TBool b
  | VNumber n => TNumber n
  | VBig z => TString (BIGINT_MARK +:+ bigint_toString 10 z)
  | VOpen => TString OPEN_MARK
  | VText s => TString s
  | VArray l => TArray (map jsonReplacer l)
  | VObject fs => TObject (map (fun e => (e.1, jsonReplacer e.2)) fs)
  end.

(** A string as [bigintReviver] sees it; [None] where [BigInt] throws. *)
Definition revive_text (s : string) : option marked :=
  if String.prefix BIGINT_MARK s then VBig <$> BigInt_of_string (slice_from 10 s)
  else if String.eqb s OPEN_MARK then Some VOpen
  else Some (VText s).
Fixpoint bigintReviver (t : tree) : option marked :=
  match t with
  | TNull => Some VNull
  | TBool b => Some (VBool b)
  | TNumber n => Some (VNumber n)
  | TString s => revive_text s
  | TArray l =>
      VArray <$> (fix items l := match l with [] => Some [] | t :: l => v ← bigintReviver t; vs ← items l; Some (v :: vs) end) l
  | TObject fs =>
      VObject <$> (fix members l := match l with [] => Some [] | (k, t) :: l => v ← bigintReviver t; vs ← members l; Some ((k, v) :: vs) end) fs
  end.

(** Texts without the marks. *)
Definition unmarked (s : string) : bool := negb (String.prefix BIGINT_MARK s || String.eqb s OPEN_MARK).
Fixpoint plain (v : marked) : bool :=
  match v with
  | VText s => unmarked s
  | VArray l => forallb plain l
  | VObject fs => forallb (fun e => plain e.2) fs
  | _ => true
  end.

Section MarkedInd.
Context (P : marked -> Prop) (Hnull : P VNull) (Hbool : forall b, P (VBool b)) (Hnumber : forall n, P (VNumber n))
  (Hbig : forall z, P (VBig z)) (Hopen : P VOpen) (Htext : forall s, P (VText s))
  (Harray : forall l, Forall P l -> P (VArray l)) (Hobject : forall l, Forall (fun e => P e.2) l -> P (VObject l)).
Fixpoint marked_rect' (v : marked) : P v :=
  match v with
  | VNull => Hnull
  | VBool b => Hbool b
  | VNumber n => Hnumber n
  | VBig z => Hbig z
  | VOpen => Hopen
  | VText s => Htext s
  | VArray l => Harray l ((fix go l : Forall P l := match l with [] => Forall_nil_2 P | v :: l => Forall_cons_2 P v l (marked_rect' v) (go l) end) l)
  | VObject l => Hobject l ((fix go l : Forall (fun e => P e.2) l :=
      match l with [] => Forall_nil_2 _ | e :: l => Forall_cons_2 _ e l (marked_rect' e.2) (go l) end) l)
  end.
End MarkedInd.

Lemma marked_roundtrip v : plain v = true -> bigintReviver (jsonReplacer v) = Some v.
Proof.
  induction v as [|b|n|z| |s|l IH|l IH] using marked_rect'; intros Hp; try reflexivity.
  - change (revive_text (BIGINT_MARK +:+ bigint_toString 10 z) = Some (VBig z)). unfold revive_text. rewrite prefix_append.
    change (slice_from 10 (BIGINT_MARK +:+ bigint_toString 10 z)) with (bigint_toString 10 z). by rewrite BigInt_decimal.
  - cbn in *. unfold revive_text. unfold unmarked in Hp. apply negb_true_iff in Hp. apply orb_false_elim in Hp as [-> ->]. done.
  - cbn in *. enough (Hl : (fix items l := match l with [] => Some [] | t :: l => v ← bigintReviver t; vs ← items l; Some (v :: vs) end) (map jsonReplacer l) = Some l)
      by by rewrite Hl.
    induction IH as [|v l Hv _ IHl]; [done|]. cbn in Hp. apply andb_prop in Hp as [Hpv Hpl]. cbn. by rewrite (Hv Hpv), (IHl Hpl).
  - cbn in *. enough (Hl : (fix members l := match l with [] => Some [] | (k, t) :: l => v ← bigintReviver t; vs ← members l; Some ((k, v) :: vs) end)
                             (map (fun e => (e.1, jsonReplacer e.2)) l) = Some l) by by rewrite Hl.
    induction IH as [|[k v] l Hv _ IHl]; [done|]. cbn in Hp. apply andb_prop in Hp as [Hpv Hpl]. cbn in *. by rewrite (Hv Hpv), (IHl Hpl).
Qed.

(** A text that begins like a mark is read as a number. *)
Example marked_text_is_misread : bigintReviver (jsonReplacer (VText "__bigint__7")) = Some (VBig 7).
Proof. reflexivity. Qed.

(** ** Client actions as objects *)

Definition type_name (t : ClientActionType) : string :=
  match t with
  | TSetViewingKey => "SetViewingKey" | TOpenChannel => "OpenChannel" | TOpenSubchannel => "OpenSubchannel"
  | TCreateEncNote => "CreateEncNote" | TCreateOpenNote => "CreateOpenNote" | TDeposit => "Deposit" | TUseNote => "UseNote"
  | TWithdraw => "Withdraw" | TInvokeExternal => "InvokeExternal" | TComputeAndInvoke => "ComputeAndInvoke"
  end.

Definition bigs (l : list Z) : marked := VArray (map VBig l).
Definition input_fields (action : ClientAction) : list (string * marked) :=
  match action with
  | ASetViewingKey random => [("random", VBig random)]
  | AOpenChannel recipient_addr index random salt =>
      [("recipient_addr", VBig recipient_addr); ("index", VNumber index); ("random", VBig random); ("salt", VBig salt)]
  | AOpenSubchannel recipient_addr recipient_public_key channel_key index token salt =>
      ([("recipient_addr", VBig recipient_addr); ("recipient_public_key", VBig recipient_public_key)]
       ++ match channel_key with Some k => [("channel_key", VBig k)] | None => [] end
       ++ [("index", VNumber index); ("token", VBig token); ("salt", VBig salt)])%list
  | ACreateEncNote recipient_addr recipient_public_key token amount index salt =>
      [("recipient_addr", VBig recipient_addr); ("recipient_public_key", VBig recipient_public_key); ("token", VBig token);
       ("amount", VBig amount); ("index", VNumber index); ("salt", VBig salt)]
  | ACreateOpenNote recipient_addr recipient_public_key token index random =>
      [("recipient_addr", VBig recipient_addr); ("recipient_public_key", VBig recipient_public_key); ("token", VBig token);
       ("index", VNumber index); ("random", VBig random)]
  | ADeposit token amount => [("token", VBig token); ("amount", VBig amount)]
  | AUseNote channel_key token index => [("channel_key", VBig channel_key); ("token", VBig token); ("index", VNumber index)]
  | AWithdraw to_addr token amount random => [("to_addr", VBig to_addr); ("token", VBig token); ("amount", VBig amount); ("random", VBig random)]
  | AInvokeExternal contract_address calldata => [("contract_address", VBig contract_address); ("calldata", bigs calldata)]
  | AComputeAndInvoke contract_address compute invoke =>
      [("contract_address", VBig contract_address); ("compute_additional_data", bigs compute); ("invoke_additional_data", bigs invoke)]
  end.
Definition action_object (action : ClientAction) : marked :=
  VObject [("type", VText (type_name (action_type action))); ("input", VObject (input_fields action))].

(** What the mock pool reads of an object: [action.type] and the fields of [action.input]. *)
Definition big_field (name : string) (fs : list (string * marked)) : option Z := match map_get name fs with Some (VBig z) => Some z | _ => None end.
Definition number_field (name : string) (fs : list (string * marked)) : option Z := match map_get name fs with Some (VNumber n) => Some n | _ => None end.
Definition big_of (v : marked) : option Z := match v with VBig z => Some z | _ => None end.
Definition bigs_field (name : string) (fs : list (string * marked)) : option (list Z) :=
  match map_get name fs with Some (VArray l) => mapM big_of l | _ => None end.

Definition input_action (t : string) (fs : list (string * marked)) : option ClientAction :=
  let big name := big_field name fs in
  let num name := number_field name fs in
  if String.eqb t "SetViewingKey" then random ← big "random"; Some (ASetViewingKey random)
  else if String.eqb t "OpenChannel" then a ← big "recipient_addr"; i ← num "index"; r ← big "random"; s ← big "salt"; Some (AOpenChannel a i r s)
  else if String.eqb t "OpenSubchannel" then
    a ← big "recipient_addr"; p ← big "recipient_public_key"; i ← num "index"; tk ← big "token"; s ← big "salt";
    Some (AOpenSubchannel a p (big "channel_key") i tk s)
  else if String.eqb t "CreateEncNote" then
    a ← big "recipient_addr"; p ← big "recipient_public_key"; tk ← big "token"; amount ← big "amount"; i ← num "index"; s ← big "salt";
    Some (ACreateEncNote a p tk amount i s)
  else if String.eqb t "CreateOpenNote" then
    a ← big "recipient_addr"; p ← big "recipient_public_key"; tk ← big "token"; i ← num "index"; r ← big "random"; Some (ACreateOpenNote a p tk i r)
  else if String.eqb t "Deposit" then tk ← big "token"; amount ← big "amount"; Some (ADeposit tk amount)
  else if String.eqb t "UseNote" then k ← big "channel_key"; tk ← big "token"; i ← num "index"; Some (AUseNote k tk i)
  else if String.eqb t "Withdraw" then a ← big "to_addr"; tk ← big "token"; amount ← big "amount"; r ← big "random"; Some (AWithdraw a tk amount r)
  else if String.eqb t "InvokeExternal" then a ← big "contract_address"; c ← bigs_field "calldata" fs; Some (AInvokeExternal a c)
  else if String.eqb t "ComputeAndInvoke" then
    a ← big "contract_address"; c ← bigs_field "compute_additional_data" fs; i ← bigs_field "invoke_additional_data" fs; Some (AComputeAndInvoke a c i)
  else None.
Definition object_action (v : marked) : option ClientAction :=
  match v with
  | VObject fs => match map_get "type" fs, map_get "input" fs with Some (VText t), Some (VObject input) => input_action t input | _, _ => None end
  | _ => None
  end.

Lemma bigs_back l : mapM big_of (map VBig l) = Some l.
Proof. induction l as [|z l IH]; [done|]. cbn. by rewrite IH. Qed.

Lemma object_action_back a : object_action (action_object a) = Some a.
Proof.
  destruct a as [| | ? ? [k|] ? ? ?| | | | | |a c|a c i]; try reflexivity.
  - change (object_action _) with (c' ← mapM big_of (map VBig c); Some (AInvokeExternal a c')). by rewrite bigs_back.
  - change (object_action _) with (c' ← mapM big_of (map VBig c); i' ← mapM big_of (map VBig i); Some (AComputeAndInvoke a c' i')). by rewrite !bigs_back.
Qed.
Lemma action_object_plain a : plain (action_object a) = true.
Proof. assert (Hb : forall l, forallb plain (map VBig l) = true) by (induction l; done). destruct a as [| | ? ? [k|] ? ? ?| | | | | | |]; try reflexivity; cbn; by rewrite ?Hb. Qed.

(** The third entry of the calldata. *)
Definition actions_text (actions : list ClientAction) : string := print (jsonReplacer (VArray (map action_object actions))).
Definition read_actions (text : string) : option (list ClientAction) :=
  t ← parse text; v ← bigintReviver t; match v with VArray l => mapM object_action l | _ => None end.

Lemma actions_text_back actions : read_actions (actions_text actions) = Some actions.
Proof.
  unfold read_actions, actions_text. rewrite parse_print. cbn [mbind option_bind]. rewrite marked_roundtrip.
  - cbn. induction actions as [|a l IH]; [done|]. cbn [map mapM]. rewrite object_action_back. cbn. by rewrite IH.
  - cbn. induction actions as [|a l IH]; [done|]. cbn [map forallb]. by rewrite action_object_plain.
Qed.

(** ** The mock invocation and the mock pool *)

(** [MockProofInvocationFactory.create]: nothing is signed. *)
Definition mock_create (address : BigNumberish) (viewingKey : Z) (poolAddress : BigNumberish) (clientActions : list ClientAction) (details : ProofDetails)
  : result sdk_error ProofInvocation :=
  poolAddressHex ← toHex_of poolAddress;
  let rb := default no_bounds (pd_resourceBounds details) in
  user ← toHex_of address;
  nonce ← toHex_of (default (BN_bigint 0) (pd_nonce details));
  tip ← toHex_of (default (BN_bigint 0) (pd_tip details));
  paymaster ← mapM toHex_of (default [] (pd_paymasterData details));
  deployment ← mapM toHex_of (default [] (pd_accountDeploymentData details));
  Ok {| pi_type := "INVOKE"; sender_address := poolAddressHex; pi_calldata := [user; toHex viewingKey; actions_text clientActions]; pi_signature := [];
        pi_nonce := nonce; resource_bounds := (hex_bounds (l1_gas rb), hex_bounds (l2_gas rb), hex_bounds (default no_gas (l1_data_gas rb)));
        pi_tip := tip; paymaster_data := paymaster; account_deployment_data := deployment;
        nonce_data_availability_mode := default "L1" (pd_nonceDataAvailabilityMode details);
        fee_data_availability_mode := default "L1" (pd_feeDataAvailabilityMode details); pi_version := "0x3" |}.

Section MockProof.
Context `{StarkCrypto} (validateBalances : bool) (salts : nat -> Z) (message : mock_error -> string).

(** [classHash] of the mock pool. *)
Definition classHash : string := "0x0".

(** The exception of the pool as the proving service reports it. *)
Definition internal_error (e : mock_error) : flow_error :=
  ServiceError (ProvingServiceError (Some (JNumber (Some (inject_Z (-32603))))) (Some (JString "Internal error")) (Some (message e))).

(** [MockProofProvider.prove]. *)
Definition mock_pool_prove (inv : ProofInvocation) : stateE World flow_error Proof := fun w =>
  match pi_calldata inv with
  | user :: key :: text :: _ =>
      match toBigInt_or_throw (BN_string user), toBigInt_or_throw (BN_string key), read_actions text with
      | Ok userAddress, Ok privateKey, Some clientActions =>
          let '(r, w) := execute_pool validateBalances salts userAddress privateKey clientActions w in
          match r with
          | Err e => (Err (internal_error e), w)
          | Ok callbacks =>
              (output ← lift_sdk (buildMessagePayload (BN_string classHash) callbacks);
               Ok {| pf_data := Some ""; pf_output := output; pf_proofFacts := []; pf_additionalData := None |}, w)
          end
      | Err e, _, _ | _, Err e, _ => (Err (SdkError e), w)
      | _, _, None => (Err (SdkError JsSyntaxError), w)
      end
  | _ => (Err (SdkError JsSyntaxError), w)
  end.

(** What a double proves is what the pool executes: the user, the key and the actions that went into the invocation come out of it, the calldata
    for [apply_actions] is what the pool returns, and an exception of the pool becomes the internal error of the proving service. *)
Theorem mock_pool_executes_the_actions address viewingKey pool actions details inv user w :
  mock_create address viewingKey pool actions details = Ok inv -> toHex_of address = Ok (toHex user) -> 0 <= user -> 0 <= viewingKey ->
  let '(r, w') := execute_pool validateBalances salts user viewingKey actions w in
  (mock_pool_prove inv w).2 = w' /\
  match r with
  | Ok callbacks => exists proof, (mock_pool_prove inv w).1 = Ok proof /\ drop 1 (pf_output proof) = callbacks
  | Err e => (mock_pool_prove inv w).1 = Err (internal_error e)
  end.
Proof.
  intros Hc Ha Hu Hk. unfold mock_create in Hc. apply bind_ok in Hc as (to & _ & Hc). rewrite Ha in Hc. cbn [mbind result_bind] in Hc.
  apply bind_ok in Hc as (nonce & _ & Hc). apply bind_ok in Hc as (tip & _ & Hc). apply bind_ok in Hc as (pm & _ & Hc). apply bind_ok in Hc as (dep & _ & Hc).
  injection Hc as <-. unfold mock_pool_prove. cbn [pi_calldata].
  rewrite (or_throw_string _ _ (BigInt_toHex user Hu)), (or_throw_string _ _ (BigInt_toHex viewingKey Hk)), actions_text_back.
  destruct (execute_pool validateBalances salts user viewingKey actions w) as [[callbacks|e] w']; cbn; [|done]. split; [done|]. by eexists.
Qed.
End MockProof.

(** ** Attestations of the devnet *)

Section Screening.
Context `{ScreeningSigner}.

(** [BigInt("0x" + hex of the characters)]. *)
Fixpoint ascii_value (acc : Z) (text : string) : Z :=
  match text with EmptyString => acc | String c text => ascii_value (acc * 256 + Z.of_nat (nat_of_ascii c)) text end.
Definition ascii_felt (text : string) : Z := ascii_value 0 text.

Definition computeScreeningMessageHash (chainId depositor issuedAt signerPublicKey : Z) : Z :=
  let domainHash := EllipticHandler.poseidonHashMany [0x1ff2f602e42168014d405a94f75e8a93d640751d71d16311266e140d8b0a210; ascii_felt "Screening"; 2; chainId; 1] in
  let messageStructHash := EllipticHandler.poseidonHashMany [0x32d43b7372c9ea8a35daf12b02c5f6f74837910ecbaf2a3ecfe71fec901913d; depositor; issuedAt] in
  EllipticHandler.poseidonHashMany [ascii_felt "StarkNet Message"; domainHash; signerPublicKey; messageStructHash].

Definition SCREENING_SIGNER_PRIVATE_KEY : string := "0xCAFEBABE".

(** [None] where the curve library throws. *)
Definition signScreeningAttestation (privateKey : string) (chainId depositor issuedAt : Z) : option ScreeningSignature :=
  signerPublicKey ← getStarkKey privateKey;
  '(r, s) ← stark_sign ("0x" +:+ bigint_toString 16 (computeScreeningMessageHash chainId depositor issuedAt signerPublicKey)) privateKey;
  Some {| issued_at := Some (inject_Z issuedAt); sig_r := "0x" +:+ bigint_toString 16 r; sig_s := "0x" +:+ bigint_toString 16 s |}.

(** The attestation of the proxy in the answer of the proving service. *)
Definition relayed (a : Attestation) : ScreeningSignature :=
  {| issued_at := Some (inject_Z (att_issued_at a)); sig_r := att_sig_r a; sig_s := att_sig_s a |}.

Lemma signers_agree privateKey chainId depositor issuedAt :
  signScreeningAttestation privateKey chainId depositor issuedAt = relayed <$> signScreening privateKey chainId depositor issuedAt.
Proof.
  unfold signScreeningAttestation, signScreening. destruct (getStarkKey privateKey) as [key|]; [|done]. cbn [mbind option_bind].
  change (computeScreeningMessageHash chainId depositor issuedAt key) with (EllipticHandler.computeScreeningMessageHash chainId depositor issuedAt key).
  fold (toHex (EllipticHandler.computeScreeningMessageHash chainId depositor issuedAt key)). by destruct (stark_sign _ _) as [[r s]|].
Qed.
End Screening.

(** [getBlock(block).timestamp] of the node. *)
Class BlockTimes := block_time : BlockIdentifier -> result flow_error Z.

Section MockProver.
Context `{StarkCrypto} `{PedersenHash} `{Node} `{BlockTimes} `{ScreeningSigner} `{PoolCoder}.

(** An exception of the curve library is a [JsTypeError] here. *)
Definition attestScreeningSubject (p : Proof) (subject : string) (blockIdentifier : option BlockIdentifier) : result flow_error Proof :=
  chainId ← getChainId;
  timestamp ← block_time (default (BlockValue (JString "latest")) blockIdentifier);
  chain ← lift_sdk (toBigInt_or_throw (BN_string chainId));
  depositor ← lift_sdk (toBigInt_or_throw (BN_string subject));
  match signScreeningAttestation SCREENING_SIGNER_PRIVATE_KEY chain depositor timestamp with
  | None => Err (SdkError JsTypeError)
  | Some signature =>
      Ok {| pf_data := pf_data p; pf_output := pf_output p; pf_proofFacts := pf_proofFacts p; pf_additionalData := Some {| signature := Some signature |} |}
  end.

(** The depositor of an invocation that deposits. *)
Definition depositorToScreen (inv : ProofInvocation) : result flow_error (option string) :=
  innerCalldata ← lift_sdk (extractExecuteViewCalldata (pi_calldata inv));
  if (length innerCalldata <? 3)%nat then Ok None
  else
    Ok (decoded ← decode_actions (drop 2 innerCalldata);
        if bool_decide (PDeposit ∈ decoded) then user ← innerCalldata !! 0%nat; num_toHex <$> BigInt_of_string user else None).

(** [ScreeningCallMockProofProvider.prove]. *)
Definition screening_prove (chainId : string) (validateSignature : option bool) (inv : ProofInvocation) (blockIdentifier : option BlockIdentifier)
  : result flow_error Proof :=
  proof ← mock_prove chainId validateSignature inv blockIdentifier;
  depositor ← depositorToScreen inv;
  match depositor with None => Ok proof | Some depositor => attestScreeningSubject proof depositor blockIdentifier end.

Lemma mock_prove_unattested chainId v inv b proof : mock_prove chainId v inv b = Ok proof -> pf_additionalData proof = None.
Proof.
  unfold mock_prove. intros (c & _ & Hp)%bind_ok. apply bind_ok in Hp as (n & _ & Hp). apply bind_ok in Hp as (base & _ & Hp).
  apply bind_ok in Hp as (facts & _ & Hp). by apply bind_ok in Hp as (out & _ & [= <-]).
Qed.

Lemma lift_ok {A} (r : result sdk_error A) a : lift_sdk r = Ok a -> r = Ok a.
Proof. by destruct r; [intros [= ->]|]. Qed.

(** The interceptor on an invocation without open notes. *)
Lemma screened_without_open_notes getPolicy spelling tx call : decodeClientActions tx spelling = Some call -> getOpenNoteDepositor (pc_actions call) = None ->
  getScreenedAddress getPolicy spelling tx = Ok (if bool_decide (PDeposit ∈ pc_actions call) then SOne (userAddress call) else SNone).
Proof. intros Hd Ho. unfold getScreenedAddress. rewrite Hd, Ho. by destruct (bool_decide _). Qed.

(** C40: The devnet prover attests whom the interceptor screens. For an invocation that the SDK makes and the mock prover proves: if the interceptor reads a deposit
    from it, the proof carries the attestation that the screening proxy would sign with the devnet key for the user, at the chain and the time
    of the block, and the user is the address that the interceptor screens when there are no open notes; if it reads none, there is no attestation and nobody is
    screened. *)
Theorem mock_attests_whom_the_interceptor_screens `{!PoolAbi} `{!StarknetNum} `{!PoolAbiLaws} `{!ProofSigner} (address pool : BigNumberish) (key : Z)
  (actions : list ClientAction) (details : ProofDetails) inv (user p : Z) (spelling chainId : string) validateSignature blockIdentifier proof :
  create address key pool actions details = Ok inv -> toBigInt address = Some user -> 0 <= user -> 0 <= key ->
  toHex_of pool = Ok (toHex p) -> 0 <= p -> hex_value spelling = Some p -> BigInt_of_string (num_toHex user) = Some user ->
  screening_prove chainId validateSignature inv blockIdentifier = Ok proof ->
  match decodeClientActions {| tx_calldata := pi_calldata inv |} spelling with
  | None => pf_additionalData proof = None
  | Some call =>
      (if bool_decide (PDeposit ∈ pc_actions call) then
         exists text chain time attestation, getChainId = Ok text /\ BigInt_of_string text = Some chain /\
           block_time (default (BlockValue (JString "latest")) blockIdentifier) = Ok time /\
           signScreening SCREENING_SIGNER_PRIVATE_KEY chain user time = Some attestation /\
           pf_additionalData proof = Some {| signature := Some (relayed attestation) |}
       else pf_additionalData proof = None) /\
           forall getPolicy, getOpenNoteDepositor (pc_actions call) = None ->
        getScreenedAddress getPolicy spelling {| tx_calldata := pi_calldata inv |}
          = Ok (if bool_decide (PDeposit ∈ pc_actions call) then SOne (toHex user) else SNone)
  end.
Proof.
  intros Hc Ha Hu Hk Hp Hp0 Hs Hnum Hprove.
  destruct (invocation_reads_back _ _ _ _ _ _ _ _ _ Hc Ha Hu Hk Hp Hp0 Hs) as (felts & data & Hdata & Hfelts & Hext & _ & Hdec).
  assert (Hne : felts <> []).
  { destruct (create_calldata _ _ _ _ _ _ Hc) as (user' & t & s & felts' & data' & Hu' & Hne & _ & _ & _ & _ & Hdata' & Hfelts' & _).
    rewrite Ha in Hu'. injection Hu' as <-. rewrite Hdata in Hdata'. injection Hdata' as <-. rewrite Hfelts in Hfelts'. by injection Hfelts' as <-. }
  unfold screening_prove in Hprove. apply bind_ok in Hprove as (plain_proof & Hmock%mock_prove_unattested & Hprove).
  assert (Hscreen : depositorToScreen inv
    = Ok (decoded ← decode_actions (map toHex felts); if bool_decide (PDeposit ∈ decoded) then num_toHex <$> BigInt_of_string (toHex user) else None)).
  { unfold depositorToScreen. rewrite Hext. cbn [lift_sdk mbind result_bind].
    assert (Hlen : (length (map toHex (user :: key :: felts)) <? 3)%nat = false) by (apply Nat.ltb_ge; destruct felts; [done|cbn; lia]). by rewrite Hlen. }
  rewrite Hscreen in Hprove. rewrite Hdec. destruct (decode_actions (map toHex felts)) as [decoded|] eqn:Hd; cbn [mbind option_bind result_bind] in *; [|by injection Hprove as <-].
  cbn [pc_actions]. split.
  - destruct (bool_decide _); [|by injection Hprove as <-]. rewrite BigInt_toHex in Hprove by done.
    cbn [fmap option_fmap option_map] in Hprove. unfold attestScreeningSubject in Hprove. apply bind_ok in Hprove as (text & Htext & Hprove).
    apply bind_ok in Hprove as (time & Htime & Hprove). apply bind_ok in Hprove as (chain & Hchain%lift_ok & Hprove).
    rewrite (or_throw_string _ _ Hnum) in Hprove. cbn [lift_sdk mbind result_bind] in Hprove. rewrite signers_agree in Hprove.
    destruct (signScreening _ chain user time) as [a|] eqn:Hsign; [|done]. injection Hprove as <-. exists text, chain, time, a. split_and!; try done.
    unfold toBigInt_or_throw, toBigInt in Hchain. destruct (BigInt_of_string text); [by injection Hchain as ->|done].
  - intros getPolicy Ho. by rewrite (screened_without_open_notes getPolicy spelling _ _ Hdec Ho).
Qed.
End MockProver.

(** ** A deposit on the devnet *)

Definition devnet_signer : ScreeningSigner :=
  {| EllipticHandler.poseidonHashMany l := fold_left (fun a x => a * 7 + x) l 0; getStarkKey := BigInt_of_string;
     stark_sign message key := (fun z => (z mod 1000, 1)) <$> BigInt_of_string message |}.
Definition devnet_node : Node := {|
  callContract := fun _ _ _ => Ok ["0x5"; "0x11"];
  getClassHashAt := fun _ _ => Ok "0x9";
  getBlock := fun _ => Ok (7, Some "0x7");
  simulateTransaction := None;
  getChainId := Ok "0x534e" |}.
Definition devnet_times : BlockTimes := fun _ => Ok 1700.
Definition devnet_coder (actions : list PoolAction) : PoolCoder :=
  {| decode_actions := fun _ => Some actions; decode_compute_arguments := fun _ => None; decode_open_notes := fun _ => None;
     num_toHex := toHex; calculateContractAddressFromHash := fun _ _ _ _ => 0 |}.
Definition devnet_prove (actions : list PoolAction) (inv : ProofInvocation) : result flow_error Proof :=
  @screening_prove toy_crypto (fun _ => "0x0") devnet_node devnet_times devnet_signer (devnet_coder actions) "0x534e" (Some false) inv None.

Lemma mock_attests_whom_the_interceptor_screens_witness : exists inv proof attestation,
  sample_invocation = Ok inv /\ devnet_prove [PDeposit] inv = Ok proof /\
  @signScreening devnet_signer SCREENING_SIGNER_PRIVATE_KEY 0x534e 7 1700 = Some attestation /\
  pf_additionalData proof = Some {| signature := Some (relayed attestation) |} /\
  @getScreenedAddress toy_crypto (devnet_coder [PDeposit]) (fun _ => None) "0xAB" {| tx_calldata := pi_calldata inv |} = Ok (SOne "0x7").
Proof.
  destruct sample_invocation as [inv|e] eqn:Hinv; [|discriminate Hinv]. destruct (devnet_prove [PDeposit] inv) as [proof|e] eqn:Hprove.
  2: { exfalso. vm_compute in Hinv. injection Hinv as <-. vm_compute in Hprove. discriminate Hprove. }
  assert (Hdec : @decodeClientActions (devnet_coder [PDeposit]) {| tx_calldata := pi_calldata inv |} "0xAB"
    = Some {| userAddress := "0x7"; viewingKey := Some 3; pc_actions := [PDeposit] |}).
  { vm_compute in Hinv. injection Hinv as <-. vm_compute. reflexivity. }
  pose proof (@mock_attests_whom_the_interceptor_screens toy_crypto (fun _ => "0x0") devnet_node devnet_times devnet_signer (devnet_coder [PDeposit])
    toy_abi toy_num toy_abi_laws toy_signer (BN_string "0x7") (BN_string "0x0Ab") 3 [ADeposit 5 17] (getDefaultProofDetails "SN_SEPOLIA") inv 7 171 "0xAB" "0x534e" (Some false)
    None proof Hinv eq_refl ltac:(done) ltac:(done) eq_refl ltac:(done) eq_refl eq_refl Hprove) as Hthm.
  rewrite Hdec in Hthm. destruct Hthm as [(text & chain & time & attestation & Ht & Hc & Hb & Hs & Ha) Hi].
  injection Ht as <-. injection Hc as <-. injection Hb as <-. exists inv, proof, attestation.
  split; [reflexivity|]. split; [exact Hprove|]. split; [exact Hs|]. split; [exact Ha|]. exact (Hi (fun _ => None) eq_refl).
Defined.
