(* ===== verification/JsonCodec.v ===== *)
(** * BigInts, maps and sets in JSON ([sdk/src/utils/json.ts])

    [jsonStringify] replaces what JSON cannot hold by marked objects, [jsonParse] restores them from the
    leaves up. Values are those the SDK stores: objects keep their fields in order, numbers
    are integers, and the identity of objects is only seen by the keys of a map. *)
From Stdlib Require Import Ascii ZArith Lia.
From stdpp Require Import base tactics list strings.
From S2P Require Import Prelude JsMap Convert JsonText.

Local Open Scope string_scope.
Local Open Scope Z_scope.

#[warnings="-register-all"]
Inductive js : Type :=
| JsUndefined
| JsNull
| JsBool (b : bool)
| JsNumber (n : Z)
| JsBigInt (z : Z)
| JsString (s : string)
| JsArray (items : list js)
| JsObject (fields : list (string * js))
| JsMap (entries : list (js * js))
| JsSet (items : list js).

Definition is_undefined (v : js) : bool := match v with JsUndefined => true | _ => false end.
Definition is_nullish (v : js) : bool := match v with JsUndefined | JsNull => true | _ => false end.

Definition BIGINT_PREFIX : string := "__bigint__:".
Definition MAP_MARKER : string := "__map__".
Definition SET_MARKER : string := "__set__".

(** ** Writing *)

(** What [JSON.stringify] prints of a value whose parts the replacer sees first; [None] for what it leaves out. *)
Fixpoint to_tree (v : js) : option tree :=
  let item v := default TNull (to_tree v) in
  match v with
  | JsUndefined => None
  | JsNull => Some TNull
  | JsBool b => Some (TBool b)
  | JsNumber n => Some (TNumber n)
  | JsBigInt z => Some (TObject [(BIGINT_PREFIX, TString (bigint_toString 10 z))])
  | JsString s => Some (TString s)
  | JsArray l => Some (TArray (map item l))
  | JsObject fs => Some (TObject (flat_map (fun e => match to_tree e.2 with Some t => [(e.1, t)] | None => [] end) fs))
  | JsMap es => Some (TObject [(MAP_MARKER, TArray (map (fun e => TArray [item e.1; item e.2]) es))])
  | JsSet l => Some (TObject [(SET_MARKER, TArray (map item l))])
  end.

(** [None] is [undefined]. *)
Definition jsonStringify (v : js) : option string := print <$> to_tree v.

(** ** Restoring *)

Inductive js_error : Type := JsonTypeError | JsonSyntaxError | Invalid (what : string).

Fixpoint join (separator : string) (l : list string) : string :=
  match l with [] => "" | [s] => s | s :: l => s +:+ separator +:+ join separator l end.

(** [String(value)]. *)
Fixpoint js_text (v : js) : string :=
  match v with
  | JsUndefined => "undefined"
  | JsNull => "null"
  | JsBool b => if b then "true" else "false"
  | JsNumber n | JsBigInt n => bigint_toString 10 n
  | JsString s => s
  | JsArray l => join "," (map (fun v => if is_nullish v then "" else js_text v) l)
  | JsObject _ => "[object Object]"
  | JsMap _ => "[object Map]"
  | JsSet _ => "[object Set]"
  end.

(** [BigInt(value)]. *)
Definition js_BigInt (v : js) : result js_error Z :=
  match v with
  | JsUndefined | JsNull => Err JsonTypeError
  | JsBool b => Ok (if b then 1 else 0)
  | JsNumber n | JsBigInt n => Ok n
  | _ => match BigInt_of_string (js_text v) with Some z => Ok z | None => Err JsonSyntaxError end
  end.

Fixpoint characters (s : string) : list js :=
  match s with EmptyString => [] | String c s => JsString (String c EmptyString) :: characters s end.

(** What a constructor of a collection iterates over. *)
Definition iterate (v : js) : result js_error (list js) :=
  match v with
  | JsUndefined | JsNull => Ok []
  | JsArray l | JsSet l => Ok l
  | JsString s => Ok (characters s)
  | JsMap es => Ok (map (fun e => JsArray [e.1; e.2]) es)
  | _ => Err JsonTypeError
  end.

(** [entry[0]] and [entry[1]] of an object. *)
Definition entry_of (v : js) : result js_error (js * js) :=
  let at_ (o : option js) := default JsUndefined o in
  match v with
  | JsArray l => Ok (at_ (l !! 0%nat), at_ (l !! 1%nat))
  | JsObject fs => Ok (at_ (map_get "0" fs), at_ (map_get "1" fs))
  | JsMap _ | JsSet _ => Ok (JsUndefined, JsUndefined)
  | _ => Err JsonTypeError
  end.

(** SameValueZero: objects read from text are all different. *)
Definition same_value (a b : js) : bool :=
  match a, b with
  | JsUndefined, JsUndefined | JsNull, JsNull => true
  | JsBool a, JsBool b => Bool.eqb a b
  | JsNumber a, JsNumber b | JsBigInt a, JsBigInt b => a =? b
  | JsString a, JsString b => String.eqb a b
  | _, _ => false
  end.

(** [Map.prototype.set] and [Set.prototype.add]. *)
Fixpoint js_map_set {V} (k : js) (v : V) (es : list (js * V)) : list (js * V) :=
  match es with
  | [] => [(k, v)]
  | e :: es => if same_value k e.1 then (e.1, v) :: es else e :: js_map_set k v es
  end.
Definition js_set_add (v : js) (l : list js) : list js := if existsb (same_value v) l then l else (l ++ [v])%list.

Definition new_Map (v : js) : result js_error js :=
  items ← iterate v;
  entries ← mapM entry_of items;
  Ok (JsMap (fold_left (fun es e => js_map_set e.1 e.2 es) entries [])).
Definition new_Set (v : js) : result js_error js :=
  items ← iterate v; Ok (JsSet (fold_left (fun l v => js_set_add v l) items [])).

(** The reviver on an object. *)
Definition restore (fields : list (string * js)) : result js_error js :=
  match map_get BIGINT_PREFIX fields, map_get MAP_MARKER fields, map_get SET_MARKER fields with
  | Some v, _, _ => JsBigInt <$> js_BigInt v
  | None, Some v, _ => new_Map v
  | None, None, Some v => new_Set v
  | None, None, None => Ok (JsObject fields)
  end.

(** The results of the parts, or the first exception. *)
Fixpoint sequence {A} (l : list (result js_error A)) : result js_error (list A) :=
  match l with [] => Ok [] | r :: l => a ← r; l ← sequence l; Ok (a :: l) end.
Definition sequence_fields (l : list (string * result js_error js)) : result js_error (list (string * js)) :=
  sequence (map (fun e => v ← e.2; Ok (e.1, v)) l).

(** [JSON.parse] with the reviver: of fields with one name only the last is seen. *)
Fixpoint revive (t : tree) : result js_error js :=
  match t with
  | TNull => Ok JsNull
  | TBool b => Ok (JsBool b)
  | TNumber n => Ok (JsNumber n)
  | TString s => Ok (JsString s)
  | TArray l => items ← sequence (map revive l); Ok (JsArray items)
  | TObject fs => fields ← sequence_fields (map_of_entries (map (fun e => (e.1, revive e.2)) fs)); restore fields
  end.

Definition jsonParse (text : string) : result js_error js :=
  match parse text with Some t => revive t | None => Err JsonSyntaxError end.

(** ** What survives *)

(** A stored value without what JSON drops: undefined fields go, other undefined parts become null. *)
Fixpoint clean (v : js) : js :=
  match v with
  | JsUndefined => JsNull
  | JsArray l => JsArray (map clean l)
  | JsObject fs => JsObject (flat_map (fun e => if is_undefined e.2 then [] else [(e.1, clean e.2)]) fs)
  | JsMap es => JsMap (map (fun e => (clean e.1, clean e.2)) es)
  | JsSet l => JsSet (map clean l)
  | v => v
  end.

Definition all_different (l : list js) : Prop := ForallOrdPairs (fun a b => same_value b a = false) l.
Definition marker (name : string) : Prop := name = BIGINT_PREFIX \/ name = MAP_MARKER \/ name = SET_MARKER.

(** A value that can be stored: no field has the name of a marker or that of another field, keys differ. *)
Fixpoint storable (v : js) : Prop :=
  match v with
  | JsArray l => Forall id (map storable l)
  | JsObject fs => NoDup fs.*1 /\ Forall (fun name => ~ marker name) fs.*1 /\ Forall id (map (fun e => storable e.2) fs)
  | JsMap es => all_different (map (fun e => clean e.1) es) /\ Forall id (map (fun e => storable e.1 /\ storable e.2) es)
  | JsSet l => all_different (map clean l) /\ Forall id (map storable l)
  | _ => True
  end.

(** ** The round trip *)

Section JsInd.
Context (P : js -> Prop).
Hypotheses (Hundefined : P JsUndefined) (Hnull : P JsNull) (Hbool : forall b, P (JsBool b)) (Hnumber : forall n, P (JsNumber n))
  (Hbigint : forall z, P (JsBigInt z)) (Hstring : forall s, P (JsString s)) (Harray : forall l, Forall P l -> P (JsArray l))
  (Hobject : forall l, Forall (fun e => P e.2) l -> P (JsObject l)) (Hmap : forall l, Forall (fun e => P e.1 /\ P e.2) l -> P (JsMap l))
  (Hset : forall l, Forall P l -> P (JsSet l)).
Fixpoint js_rect' (v : js) : P v :=
  let all := fix go l : Forall P l := match l with [] => Forall_nil_2 P | v :: l => Forall_cons_2 P v l (js_rect' v) (go l) end in
  match v with
  | JsUndefined => Hundefined
  | JsNull => Hnull
  | JsBool b => Hbool b
  | JsNumber n => Hnumber n
  | JsBigInt z => Hbigint z
  | JsString s => Hstring s
  | JsArray l => Harray l (all l)
  | JsObject l => Hobject l ((fix go l : Forall (fun e => P e.2) l :=
      match l with [] => Forall_nil_2 _ | e :: l => Forall_cons_2 _ e l (js_rect' e.2) (go l) end) l)
  | JsMap l => Hmap l ((fix go l : Forall (fun e => P e.1 /\ P e.2) l :=
      match l with [] => Forall_nil_2 _ | e :: l => Forall_cons_2 _ e l (conj (js_rect' e.1) (js_rect' e.2)) (go l) end) l)
  | JsSet l => Hset l (all l)
  end.
End JsInd.

Lemma sequence_ok {A B} (f : A -> result js_error B) (g : A -> B) l : Forall (fun a => f a = Ok (g a)) l -> sequence (map f l) = Ok (map g l).
Proof. induction 1 as [|a l Ha _ IH]; [done|]. cbn. by rewrite Ha, IH. Qed.

Definition item_tree (v : js) : tree := default TNull (to_tree v).

Lemma to_tree_defined v : to_tree v = None <-> is_undefined v = true.
Proof. by destruct v. Qed.

(** The fields that are written, with the tree of each. *)
Lemma written_fields fs :
  flat_map (fun e : string * js => match to_tree e.2 with Some t => [(e.1, t)] | None => [] end) fs =
  map (fun e => (e.1, item_tree e.2)) (filter (fun e : string * js => is_undefined e.2 = false) fs).
Proof.
  induction fs as [|[k v] fs IH]; [done|]. cbn [flat_map]. rewrite IH, filter_cons. cbn [snd]. unfold item_tree. by destruct v.
Qed.

Lemma clean_fields fs :
  flat_map (fun e : string * js => if is_undefined e.2 then [] else [(e.1, clean e.2)]) fs =
  map (fun e => (e.1, clean e.2)) (filter (fun e : string * js => is_undefined e.2 = false) fs).
Proof. induction fs as [|[k v] fs IH]; [done|]. cbn [flat_map]. rewrite IH, filter_cons. cbn [snd]. by destruct v. Qed.

Lemma filter_fst_sublist {A B} (P : A * B -> Prop) `{forall x, Decision (P x)} (l : list (A * B)) : (filter P l).*1 `sublist_of` l.*1.
Proof. apply fmap_sublist, sublist_filter. Qed.

Lemma map_fst {A B C} (f : B -> C) (l : list (A * B)) : (map (fun e => (e.1, f e.2)) l).*1 = l.*1.
Proof. induction l as [|e l IH]; [done|]. cbn in *. by rewrite IH. Qed.

Lemma map_get_absent (k : string) (fs : list (string * js)) : k ∉ fs.*1 -> map_get k fs = None.
Proof. intros Hk. by apply map_get_None. Qed.

Lemma restore_plain fs : Forall (fun name => ~ marker name) fs.*1 -> restore fs = Ok (JsObject fs).
Proof.
  intros Hm. rewrite Forall_forall in Hm.
  assert (Habs : forall k, marker k -> map_get k fs = None) by (intros k Hk; apply map_get_absent; intros Hin; by apply (Hm k)).
  unfold restore. rewrite !Habs; [done|unfold marker; auto..].
Qed.

Lemma js_map_set_fresh {V} k (v : V) es : Forall (fun e => same_value k e.1 = false) es -> js_map_set k v es = (es ++ [(k, v)])%list.
Proof. induction 1 as [|e es He _ IH]; [done|]. cbn. by rewrite He, IH. Qed.

(** Setting entries with different keys one by one keeps them as they are. *)
Lemma different_entries_kept {V} (es : list (js * V)) : all_different es.*1 -> fold_left (fun es e => js_map_set e.1 e.2 es) es [] = es.
Proof.
  intros Hd. assert (Hfold : forall seen, Forall (fun e => Forall (fun d => same_value e.1 d.1 = false) seen) es ->
    fold_left (fun es e => js_map_set e.1 e.2 es) es seen = (seen ++ es)%list).
  { induction es as [|[k v] es IH]; intros seen Hn; [by rewrite app_nil_r|]. inversion Hd as [|? ? Hk Hd']; subst. apply Forall_cons in Hn as [Hkd Hn].
    cbn [fold_left fst snd] in *. rewrite js_map_set_fresh, IH; [by rewrite <- app_assoc|done| |done].
    apply Forall_forall. intros e He. rewrite Forall_forall in Hn. apply Forall_app; split; [by apply Hn|].
    apply Forall_singleton. cbn. rewrite Forall_forall in Hk. apply Hk. by apply (list_elem_of_fmap_2 fst). }
  apply Hfold. apply Forall_true. done.
Qed.

Lemma new_Map_entries (es : list (js * js)) : all_different es.*1 -> new_Map (JsArray (map (fun e => JsArray [e.1; e.2]) es)) = Ok (JsMap es).
Proof.
  intros Hd. unfold new_Map. cbn [iterate mbind result_bind].
  assert (Hentries : mapM entry_of (map (fun e => JsArray [e.1; e.2]) es) = Ok es).
  { clear Hd. induction es as [|[k v] es IH]; [done|]. cbn in *. by rewrite IH. }
  rewrite Hentries. cbn [mbind result_bind]. by rewrite different_entries_kept.
Qed.

Lemma new_Set_items (l : list js) : all_different l -> new_Set (JsArray l) = Ok (JsSet l).
Proof.
  intros Hd. unfold new_Set. cbn [iterate mbind result_bind]. do 2 f_equal.
  assert (Hfold : forall done_, Forall (fun e => existsb (same_value e) done_ = false) l ->
    fold_left (fun l v => js_set_add v l) l done_ = (done_ ++ l)%list).
  { induction l as [|v l IH]; intros done_ Hn; [by rewrite app_nil_r|]. inversion Hd as [|? ? Hk Hd']; subst. apply Forall_cons in Hn as [Hv Hn].
    cbn [fold_left]. unfold js_set_add at 2. rewrite Hv, IH; [by rewrite <- app_assoc|done|]. apply Forall_forall. intros e He. rewrite Forall_forall in Hn.
    rewrite existsb_app, Hn by done. cbn. rewrite Forall_forall in Hk. by rewrite (Hk e He). }
  apply Hfold. apply Forall_true. done.
Qed.

Lemma revive_items {A} (f : A -> js) (l : list A) : Forall (fun a => revive (item_tree (f a)) = Ok (clean (f a))) l ->
  revive (TArray (map (fun a => item_tree (f a)) l)) = Ok (JsArray (map (fun a => clean (f a)) l)).
Proof.
  intros Hl. cbn [revive]. rewrite List.map_map, (sequence_ok (fun a => revive (item_tree (f a))) (fun a => clean (f a))) by done. done.
Qed.

Lemma revive_marked name t v : revive t = Ok v -> revive (TObject [(name, t)]) = restore [(name, v)].
Proof. intros Ht. cbn [revive map fst snd]. rewrite Ht. done. Qed.

Lemma revive_to_tree v : storable v -> revive (item_tree v) = Ok (clean v).
Proof.
  induction v as [| |b|n|z|s|l IH|fs IH|es IH|l IH] using js_rect'; intros Hs; try done.
  - unfold item_tree. cbn [to_tree from_option id]. rewrite (revive_marked _ _ (JsString (bigint_toString 10 z))) by done.
    change (JsBigInt <$> js_BigInt (JsString (bigint_toString 10 z)) = Ok (JsBigInt z)). unfold js_BigInt, js_text. by rewrite BigInt_decimal.
  - apply (revive_items id). cbn in Hs. rewrite Forall_map in Hs. rewrite Forall_forall in *. intros v Hv. by apply IH, Hs.
  - cbn [storable] in Hs. destruct Hs as (Hnd & Hmark & Hs). rewrite Forall_map in Hs. unfold item_tree. cbn [to_tree from_option id].
    rewrite written_fields. cbn [revive clean]. rewrite clean_fields, List.map_map. set (kept := filter _ fs). cbn [fst snd].
    assert (Hkept : forall e, e ∈ kept -> e ∈ fs) by (intros e He; by apply list_elem_of_filter in He as [_ He]).
    assert (Hmap : map (fun e : string * js => (e.1, revive (item_tree e.2))) kept = map (fun e => (e.1, Ok (clean e.2))) kept).
    { apply map_ext_in. intros e He. apply list_elem_of_In, Hkept in He. f_equal. rewrite Forall_forall in IH, Hs. by apply IH, Hs. }
    pose proof (filter_fst_sublist (fun e : string * js => is_undefined e.2 = false) fs) as Hsub. fold kept in Hsub.
    rewrite Hmap, map_of_entries_id.
    + unfold sequence_fields. rewrite List.map_map. rewrite (sequence_ok _ (fun e : string * js => (e.1, clean e.2))) by (by apply Forall_true).
      cbn [mbind result_bind]. apply restore_plain. rewrite (map_fst clean).
      apply Forall_forall. intros x Hx. rewrite Forall_forall in Hmark. apply Hmark. by eapply elem_of_sublist.
    + unfold map_wf, map_keys. rewrite (map_fst (fun v => Ok (clean v))). by eapply sublist_NoDup.
  - cbn [storable] in Hs. destruct Hs as [Hd Hs]. rewrite Forall_map in Hs. unfold item_tree. cbn [to_tree from_option id].
    rewrite (revive_marked _ _ (JsArray (map (fun e => JsArray [clean e.1; clean e.2]) es))).
    + change (new_Map (JsArray (map (fun e => JsArray [clean e.1; clean e.2]) es)) = Ok (clean (JsMap es))).
      pose proof (new_Map_entries (map (fun e => (clean e.1, clean e.2)) es)) as Hnew. unfold fmap, list_fmap in Hnew.
      change ((fix go (l : list (js * js)) := match l with [] => [] | x :: l => x.1 :: go l end)) with (map (@fst js js)) in Hnew.
      rewrite !List.map_map in Hnew. exact (Hnew Hd).
    + cbn [revive]. rewrite List.map_map, (sequence_ok _ (fun e : js * js => JsArray [clean e.1; clean e.2])); [done|].
      rewrite Forall_forall in *. intros e He. destruct (IH e He) as [Hk Hv], (Hs e He) as [Hsk Hsv].
      cbn. fold (item_tree e.1) (item_tree e.2). by rewrite (Hk Hsk), (Hv Hsv).
  - cbn [storable] in Hs. destruct Hs as [Hd Hs]. rewrite Forall_map in Hs. unfold item_tree. cbn [to_tree from_option id].
    rewrite (revive_marked _ _ (JsArray (map clean l))).
    + apply (new_Set_items (map clean l)). done.
    + apply (revive_items id). rewrite Forall_forall in *. intros v Hv. by apply IH, Hs.
Qed.

(** ** What the codec promises *)

(** C16: what [jsonStringify] writes, [jsonParse] restores: any value built from text, integers, bigints,
    arrays, objects, maps and sets comes back with its types, order and contents, except for what JSON drops (an
    undefined field disappears and any other undefined part becomes null), provided no object uses
    the name of a marker. *)
Theorem json_roundtrip (v : js) (Hs : storable v) (Hd : is_undefined v = false) :
  exists text, jsonStringify v = Some text /\ jsonParse text = Ok (clean v).
Proof.
  destruct (to_tree v) as [t|] eqn:Ht; [|by apply to_tree_defined in Ht; rewrite Ht in Hd].
  exists (print t). unfold jsonStringify, jsonParse. rewrite Ht, parse_print. split; [done|].
  pose proof (revive_to_tree v Hs) as Hr. unfold item_tree in Hr. by rewrite Ht in Hr.
Qed.

Definition sample : js :=
  JsObject [("key", JsBigInt 7); ("gone", JsUndefined);
            ("tokens", JsMap [(JsBigInt 1, JsObject [("note", JsNumber (-4))]); (JsString "a", JsArray [JsUndefined; JsBool true])]);
            ("seen", JsSet [JsBigInt 1; JsNumber 1])].

Lemma json_roundtrip_witness :
  exists text, jsonStringify sample = Some text /\ jsonParse text = Ok (clean sample).
Proof.
  apply (json_roundtrip sample); [|reflexivity].
  cbn. unfold marker, all_different. repeat first [split | constructor]; cbn; try (intros [?|[?|?]]; discriminate);
    apply (bool_decide_unpack _); vm_compute; exact I.
Defined.

(** An object with the name of a marker is not given back as it was: it is read as the set it looks like, or refused. *)
Example marker_is_misread :
  jsonStringify (JsObject [(SET_MARKER, JsArray [JsNumber 5])]) = jsonStringify (JsSet [JsNumber 5])
  /\ (t ← to_tree (JsObject [(SET_MARKER, JsNumber 5)]); Some (jsonParse (print t))) = Some (Err JsonTypeError).
Proof. split; vm_compute; reflexivity. Qed.
