(* ===== verification/ChannelSerde.v ===== *)
(** * Stored channels and witnesses ([sdk/src/internal/channel.ts])

    [channelSerde] and [witnessSerde] over the JSON codec, with the checks a stored record goes
    through when it is read. *)
From Stdlib Require Import ZArith Lia.
From stdpp Require Import base tactics list strings.
From S2P Require Import Prelude JsMap Convert Interfaces Channel JsonText JsonCodec.

Local Open Scope string_scope.
Local Open Scope Z_scope.

(** [isUint]; the numbers of a record are integers. *)
Definition isUint (v : js) : bool := match v with JsNumber n => 0 <=? n | _ => false end.

(** [typeof value === object], null apart. *)
Definition is_object (v : js) : bool :=
  match v with JsArray _ | JsObject _ | JsMap _ | JsSet _ => true | _ => false end.

(** [value[name]] for a name that no built-in object has. *)
Definition js_field (name : string) (v : js) : result js_error js :=
  match v with
  | JsUndefined | JsNull => Err JsonTypeError
  | JsObject fields => Ok (default JsUndefined (map_get name fields))
  | _ => Ok JsUndefined
  end.

(** [JSON.parse] of a stored text. *)
Definition stored (what : string) (blob : string) : result js_error js :=
  parsed ← jsonParse blob; js_assert (is_object parsed) (Invalid what);; Ok parsed.

Definition integer_of (what : string) (v : js) : result js_error Z :=
  match v with JsBigInt z => Ok z | JsNumber _ | JsString _ => js_BigInt v | _ => Err (Invalid what) end.
Definition assertChannelKey : js -> result js_error Z := integer_of "Invalid channel key".
Definition assertBigInt : js -> result js_error Z := integer_of "Invalid bigint".
Definition assertOptionalChannelKey (v : js) : result js_error (option Z) :=
  if is_nullish v then Ok None else Some <$> assertChannelKey v.

(** A count, plain or as the [sequence] of an object. *)
Definition count_of (what : string) (v : js) : result js_error Z :=
  let bad := Invalid "Invalid nonce: sequence must be a non-negative integer" in
  match v with
  | JsNumber n => js_assert (isUint v) (Invalid what);; Ok n
  | _ => js_assert (is_object v) (Invalid "Invalid nonce: expected number or object");;
         sequence ← js_field "sequence" v;
         match sequence with JsNumber n => js_assert (isUint sequence) bad;; Ok n | _ => Err bad end
  end.
Definition assertNoteNonce : js -> result js_error Z := count_of "Invalid nonce: must be a non-negative integer".
Definition assertTokenIndex : js -> result js_error Z := count_of "Invalid token index: must be a non-negative integer".

Definition token_entry (entry : js) : result js_error (js * TokenChannel) :=
  match entry with
  | JsArray [token; nonces] =>
      index ← js_field "tokenIndex" nonces;
      nonce ← js_field "noteNonce" nonces;
      index ← assertTokenIndex index;
      nonce ← assertNoteNonce nonce;
      Ok (token, {| tokenIndex := index; noteNonce := nonce |})
  | _ => Err (Invalid "Invalid token entry")
  end.
Definition assertTokenEntries (v : js) : result js_error (list (js * TokenChannel)) :=
  match v with
  | JsArray l =>
      entries ← mapM token_entry l;
      Ok (fold_left (fun es e => js_map_set e.1 e.2 es) entries [])
  | _ => Err (Invalid "Invalid tokens")
  end.

(** The token keys as the constructor of [Channel] converts them. *)
Definition token_keys (entries : list (js * TokenChannel)) : result js_error (list (Z * TokenChannel)) :=
  mapM (fun e => k ← js_BigInt e.1; Ok (k, e.2)) entries.

(** ** Channels *)

Definition js_key (k : option Z) : js := match k with Some z => JsBigInt z | None => JsUndefined end.
Definition js_token (e : Z * TokenChannel) : js :=
  JsArray [JsBigInt e.1; JsObject [("tokenIndex", JsNumber (tokenIndex e.2)); ("noteNonce", JsNumber (noteNonce e.2))]].
Definition channel_record (c : Channel) : js :=
  JsObject [("v", JsNumber 1); ("key", js_key (ch_key c)); ("recipientPublicKey", JsBigInt (ch_publicKey c));
            ("tokens", JsArray (map js_token (am_entries (ch_tokens c))))].

Definition channel_encode (c : Channel) : option string := jsonStringify (channel_record c).

Definition channel_decode (blob : string) : result js_error Channel :=
  parsed ← stored "Invalid channel payload" blob;
  key ← js_field "key" parsed;
  recipientPublicKey ← js_field "recipientPublicKey" parsed;
  tokens ← js_field "tokens" parsed;
  decodedKey ← assertOptionalChannelKey key;
  decodedPublicKey ← assertChannelKey recipientPublicKey;
  decodedTokens ← assertTokenEntries tokens;
  entries ← token_keys decodedTokens;
  Ok (new_Channel decodedPublicKey decodedKey entries).

(** ** Witnesses *)

Definition witness_encode (w : Witness) : option string :=
  jsonStringify (JsObject [("v", JsNumber 1); ("channelKey", JsBigInt (w_channelKey w));
                           ("nonce", JsObject [("sequence", JsNumber (w_nonce w))]); ("r", JsBigInt (w_r w))]).

Definition witness_decode (blob : string) : result js_error Witness :=
  parsed ← stored "Invalid witness payload" blob;
  channelKey ← js_field "channelKey" parsed;
  nonce ← js_field "nonce" parsed;
  r ← js_field "r" parsed;
  channelKey ← assertChannelKey channelKey;
  nonce ← assertNoteNonce nonce;
  r ← assertBigInt r;
  Ok {| w_channelKey := channelKey; w_nonce := nonce; w_r := r |}.

(** ** What is stored is read back *)

(** Channels and witnesses whose counts are counts. *)
Definition storable_channel (c : Channel) : Prop :=
  channel_wf c /\ Forall (fun e => 0 <= tokenIndex e.2 /\ 0 <= noteNonce e.2) (am_entries (ch_tokens c)).

Lemma js_token_clean e : storable (js_token e) /\ clean (js_token e) = js_token e.
Proof.
  split; [|done]. cbn. unfold marker. repeat first [split | constructor]; cbn; try (intros [?|[?|?]]; discriminate);
    apply (bool_decide_unpack _); vm_compute; exact I.
Qed.

Lemma storable_record c : storable (channel_record c).
Proof.
  unfold channel_record. cbn [storable]. split_and!.
  - apply (bool_decide_unpack _). vm_compute. exact I.
  - unfold marker. repeat constructor; cbn; intros [?|[?|?]]; discriminate.
  - repeat constructor; [by destruct (ch_key c)|]. cbn. rewrite List.map_map, Forall_map. apply Forall_true. intros e. apply js_token_clean.
Qed.

(** A stored record is read as an object with the fields that were written. *)
Lemma stored_record what fs text : storable (JsObject fs) -> jsonStringify (JsObject fs) = Some text ->
  stored what text = Ok (clean (JsObject fs)).
Proof.
  intros Hs Ht. unfold stored, jsonParse. unfold jsonStringify in Ht. destruct (to_tree (JsObject fs)) as [t|] eqn:Hto; [|done].
  injection Ht as <-. rewrite parse_print. pose proof (revive_to_tree _ Hs) as Hr. unfold item_tree in Hr. rewrite Hto in Hr. cbn [default from_option id] in Hr.
  rewrite Hr. done.
Qed.

Lemma count_of_number what n : 0 <= n -> count_of what (JsNumber n) = Ok n.
Proof. intros Hn%Z.leb_le. cbn. by rewrite Hn. Qed.

Lemma count_of_sequence n : 0 <= n -> assertNoteNonce (JsObject [("sequence", JsNumber n)]) = Ok n.
Proof.
  intros Hn%Z.leb_le. change ((js_assert (0 <=? n) (Invalid "Invalid nonce: sequence must be a non-negative integer");; Ok n) = (Ok n : result js_error Z)).
  by rewrite Hn.
Qed.

Lemma token_entry_back e : 0 <= tokenIndex e.2 -> 0 <= noteNonce e.2 -> token_entry (js_token e) = Ok (JsBigInt e.1, e.2).
Proof.
  intros Hi Hn. destruct e as [k [i n]]. cbn [tokenIndex noteNonce snd] in Hi, Hn.
  change ((index ← assertTokenIndex (JsNumber i); nonce ← assertNoteNonce (JsNumber n);
    Ok (JsBigInt k, {| tokenIndex := index; noteNonce := nonce |})) = (Ok (JsBigInt k, {| tokenIndex := i; noteNonce := n |}) : result js_error _)).
  unfold assertTokenIndex, assertNoteNonce. by rewrite !count_of_number.
Qed.

Lemma bigint_keys_differ (keys : list Z) : NoDup keys -> all_different (map JsBigInt keys).
Proof.
  induction 1 as [|k keys Hk _ IH]; [constructor|]. constructor; [|done]. apply Forall_map. apply Forall_forall. intros d Hd.
  apply Z.eqb_neq. intros ->. done.
Qed.

Lemma token_entries_back (entries : list (Z * TokenChannel)) : NoDup entries.*1 ->
  Forall (fun e => 0 <= tokenIndex e.2 /\ 0 <= noteNonce e.2) entries ->
  assertTokenEntries (JsArray (map js_token entries)) = Ok (map (fun e => (JsBigInt e.1, e.2)) entries).
Proof.
  intros Hnd Hc. unfold assertTokenEntries.
  assert (Hmap : mapM token_entry (map js_token entries) = Ok (map (fun e => (JsBigInt e.1, e.2)) entries)).
  { clear Hnd. induction Hc as [|e l [Hi Hn] _ IH]; [done|]. cbn [map mapM]. rewrite (token_entry_back e Hi Hn). cbn [mbind result_bind]. by rewrite IH. }
  rewrite Hmap. cbn [mbind result_bind]. rewrite different_entries_kept; [done|].
  replace (map _ entries).*1 with (map JsBigInt entries.*1); [by apply bigint_keys_differ|].
  clear. induction entries as [|e l IH]; [done|]. cbn in *. by rewrite IH.
Qed.

Lemma token_keys_back (entries : list (Z * TokenChannel)) : token_keys (map (fun e => (JsBigInt e.1, e.2)) entries) = Ok entries.
Proof. induction entries as [|[k v] l IH]; [done|]. unfold token_keys in *. cbn in *. by rewrite IH. Qed.

(** C17: a channel that the storage writes comes back as it was (public key, key if it has one, and the tokens with their
    indexes and nonces in the same order), and so does a witness; so state persisted between sessions continues at
    the same nonces. *)
Theorem stored_state_reads_back (c : Channel) (w : Witness) (Hc : storable_channel c) (Hw : 0 <= w_nonce w) :
  (exists text, channel_encode c = Some text /\ channel_decode text = Ok c) /\
  (exists text, witness_encode w = Some text /\ witness_decode text = Ok w).
Proof.
  destruct Hc as [Hwf Hcounts]. split.
  - destruct (channel_encode c) as [text|] eqn:He; [|done]. exists text. split; [done|]. unfold channel_decode.
    rewrite (stored_record _ _ _ (storable_record c) He). cbn [mbind result_bind].
    assert (Htokens : map clean (map js_token (am_entries (ch_tokens c))) = map js_token (am_entries (ch_tokens c))).
    { rewrite List.map_map. apply map_ext. intros e. apply js_token_clean. }
    change (clean (JsObject _)) with (clean (channel_record c)).
    replace (js_field "key" (clean (channel_record c))) with (Ok (js_key (ch_key c)) : result js_error js) by (by destruct c as [pk [k|] t]).
    replace (js_field "recipientPublicKey" (clean (channel_record c))) with (Ok (JsBigInt (ch_publicKey c)) : result js_error js)
      by (by destruct c as [pk [k|] t]).
    replace (js_field "tokens" (clean (channel_record c))) with (Ok (JsArray (map js_token (am_entries (ch_tokens c)))) : result js_error js)
      by (rewrite <- Htokens; by destruct c as [pk [k|] t]).
    cbn [mbind result_bind].
    replace (assertOptionalChannelKey (js_key (ch_key c))) with (Ok (ch_key c) : result js_error (option Z)) by (by destruct (ch_key c)).
    change (assertChannelKey (JsBigInt (ch_publicKey c))) with (Ok (ch_publicKey c) : result js_error Z). cbn [mbind result_bind].
    rewrite (token_entries_back (am_entries (ch_tokens c)) (proj2 (proj2 Hwf)) Hcounts). cbn [mbind result_bind]. rewrite token_keys_back. cbn [mbind result_bind].
    f_equal. exact (clone_Channel_id c Hwf).
  - destruct (witness_encode w) as [text|] eqn:He; [|done]. exists text. split; [done|]. unfold witness_decode.
    assert (Hs : storable (JsObject [("v", JsNumber 1); ("channelKey", JsBigInt (w_channelKey w)); ("nonce", JsObject [("sequence", JsNumber (w_nonce w))]); ("r", JsBigInt (w_r w))])).
    { cbn. unfold marker. repeat first [split | constructor]; cbn; try (intros [?|[?|?]]; discriminate); apply (bool_decide_unpack _); vm_compute; exact I. }
    rewrite (stored_record _ _ _ Hs He). destruct w as [ck n r]. cbn in Hw.
    change ((nonce ← assertNoteNonce (JsObject [("sequence", JsNumber n)]);
      Ok {| w_channelKey := ck; w_nonce := nonce; w_r := r |}) = (Ok {| w_channelKey := ck; w_nonce := n; w_r := r |} : result js_error _)).
    rewrite count_of_sequence; done.
Qed.

Lemma stored_state_reads_back_witness :
  let c := new_Channel 5 (Some 9) [(3, {| tokenIndex := 0; noteNonce := 4 |}); (1, {| tokenIndex := 1; noteNonce := 0 |})] in
  exists text, channel_encode c = Some text /\ channel_decode text = Ok c.
Proof.
  intros c. apply (stored_state_reads_back c {| w_channelKey := 9; w_nonce := 3; w_r := 2 |}); [|vm_compute; discriminate].
  split; [split; [reflexivity|split; [reflexivity|apply (bool_decide_unpack _); vm_compute; exact I]]|].
  repeat constructor; cbn; lia.
Defined.

(** A token whose stored nonce is negative or missing is refused, and a record that is not an object too. *)
Example damaged_records :
  stored "Invalid channel payload" "5" = Err (Invalid "Invalid channel payload") /\
  assertTokenEntries (JsArray [JsArray [JsBigInt 1; JsObject [("tokenIndex", JsNumber 0); ("noteNonce", JsNumber (-1))]]])
    = Err (Invalid "Invalid nonce: must be a non-negative integer") /\
  token_entry (JsArray [JsBigInt 1; JsNull]) = Err JsonTypeError.
Proof. split_and!; vm_compute; reflexivity. Qed.
