(* ===== verification/PoolLedger.v ===== *)
(** * What the pool books for a client action

    An abstract specification of the mock pool: a ledger holds the public keys and the sets of ids and markers that
    the pool has given out. A client action is admitted under a guard and books new ids; the checks of the mock pool
    (file [MockPool]) are exactly these guards. *)
From Stdlib Require Import ZArith Lia.
From stdpp Require Import base tactics list gmap.
From S2P Require Import Prelude JsMap Convert Crypto Encryptions Interfaces Channel MockPool PoolSafety.

Record Ledger : Type := {
  lg_keys : gmap Z Z;
  lg_channels : gset Z;
  lg_subchannels : gset Z;
  lg_tokens : gset Z;
  lg_notes : gset Z;
  lg_nullifiers : gset Z;
  lg_outgoing : gset Z }.

Definition ledger_of (p : MockPool) : Ledger :=
  {| lg_keys := publicKeys p; lg_channels := channelMarkers p; lg_subchannels := dom (subchannels p);
     lg_tokens := subchannelMarkers p; lg_notes := dom (notes p); lg_nullifiers := nullifiers p;
     lg_outgoing := dom (outgoingChannels p) |}.

Section Ledger.
Context `{StarkCrypto}.
(** The user who compiles, and their viewing key. *)
Context (u vk : Z).

Definition user_key (l : Ledger) : Z := default 0 (lg_keys l !! u).
Definition key_of (r pk : Z) : Z := compute_channel_key u vk r pk.

(** The guard of a note that is created at an index. *)
Definition note_admitted (r pk t i : Z) (l : Ledger) : Prop :=
  compute_subchannel_marker (key_of r pk) r pk t ∈ lg_tokens l /\
  (i = 0 \/ compute_note_id (key_of r pk) t (i - 1) ∈ lg_notes l) /\
  compute_note_id (key_of r pk) t i ∉ lg_notes l.

Definition admitted (a : ClientAction) (l : Ledger) : Prop :=
  match a with
  | ASetViewingKey _ => lg_keys l !! u = None
  | AOpenChannel r i _ _ => exists pk,
      lg_keys l !! r = Some pk /\ is_Some (lg_keys l !! u) /\ is_Ok (recoverPointFromX pk) = true /\ 0 <= i /\
      (i = 0 \/ compute_outgoing_channel_id u vk (i - 1) ∈ lg_outgoing l) /\
      compute_channel_marker (key_of r pk) u r pk ∉ lg_channels l
  | AOpenSubchannel r pk key i t _ => exists k,
      key = Some k /\ is_Some (lg_keys l !! u) /\ compute_channel_marker k u r pk ∈ lg_channels l /\
      (i = 0 \/ compute_subchannel_id k (i - 1) ∈ lg_subchannels l) /\
      (compute_subchannel_id k i ∉ lg_subchannels l) /\ (compute_subchannel_marker k r pk t ∉ lg_tokens l)
  | AUseNote k t i =>
      compute_subchannel_marker k u (user_key l) t ∈ lg_tokens l /\ compute_note_id k t i ∈ lg_notes l /\
      compute_nullifier k t i vk ∉ lg_nullifiers l
  | ACreateEncNote r pk t _ i _ => note_admitted r pk t i l
  | ACreateOpenNote r pk t i _ => note_admitted r pk t i l
  | _ => True
  end.

Definition book_note (r pk t i : Z) (l : Ledger) : Ledger :=
  {| lg_keys := lg_keys l; lg_channels := lg_channels l; lg_subchannels := lg_subchannels l; lg_tokens := lg_tokens l;
     lg_notes := {[compute_note_id (key_of r pk) t i]} ∪ lg_notes l; lg_nullifiers := lg_nullifiers l;
     lg_outgoing := lg_outgoing l |}.

Definition book (a : ClientAction) (l : Ledger) : Ledger :=
  match a with
  | ASetViewingKey _ =>
      {| lg_keys := <[u := derivePublicKey vk]> (lg_keys l); lg_channels := lg_channels l; lg_subchannels := lg_subchannels l;
         lg_tokens := lg_tokens l; lg_notes := lg_notes l; lg_nullifiers := lg_nullifiers l; lg_outgoing := lg_outgoing l |}
  | AOpenChannel r i _ _ =>
      let pk := default 0 (lg_keys l !! r) in
      {| lg_keys := lg_keys l; lg_channels := {[compute_channel_marker (key_of r pk) u r pk]} ∪ lg_channels l;
         lg_subchannels := lg_subchannels l; lg_tokens := lg_tokens l; lg_notes := lg_notes l;
         lg_nullifiers := lg_nullifiers l; lg_outgoing := {[compute_outgoing_channel_id u vk i]} ∪ lg_outgoing l |}
  | AOpenSubchannel r pk key i t _ =>
      let k := default 0 key in
      {| lg_keys := lg_keys l; lg_channels := lg_channels l;
         lg_subchannels := {[compute_subchannel_id k i]} ∪ lg_subchannels l;
         lg_tokens := {[compute_subchannel_marker k r pk t]} ∪ lg_tokens l; lg_notes := lg_notes l;
         lg_nullifiers := lg_nullifiers l; lg_outgoing := lg_outgoing l |}
  | AUseNote k t i =>
      {| lg_keys := lg_keys l; lg_channels := lg_channels l; lg_subchannels := lg_subchannels l; lg_tokens := lg_tokens l;
         lg_notes := lg_notes l; lg_nullifiers := {[compute_nullifier k t i vk]} ∪ lg_nullifiers l;
         lg_outgoing := lg_outgoing l |}
  | ACreateEncNote r pk t _ i _ => book_note r pk t i l
  | ACreateOpenNote r pk t i _ => book_note r pk t i l
  | _ => l
  end.

(** Booking a list of actions, each admitted after the ones before it. *)
Fixpoint books (actions : list ClientAction) (l l' : Ledger) : Prop :=
  match actions with
  | [] => l' = l
  | a :: actions => admitted a l /\ books actions (book a l) l'
  end.

Lemma books_app l1 l2 l l' : books (l1 ++ l2) l l' <-> exists m, books l1 l m /\ books l2 m l'.
Proof.
  revert l. induction l1 as [|a l1 IH]; intros l; cbn.
  - split; [by exists l|]. by intros (m & -> & ?).
  - rewrite IH. split; [intros (? & m & ? & ?)|intros (m & (? & ?) & ?)]; [exists m|split; [|exists m]]; by split_and?.
Qed.

Lemma books_snoc lst a l m : books lst l m -> admitted a m -> books (lst ++ [a]) l (book a m).
Proof. intros Hl Ha. apply books_app. by exists m. Qed.

(** ** Subchannels can be opened earlier *)

(** Actions that neither need a subchannel to be missing nor book one. *)
Definition after_setup (a : ClientAction) : bool :=
  match a with
  | ADeposit _ _ | AUseNote _ _ _ | ACreateEncNote _ _ _ _ _ _ | ACreateOpenNote _ _ _ _ _ => true
  | _ => false
  end.

Lemma subchannel_commutes r pk key i t s b l : after_setup b = true ->
  admitted b l -> admitted (AOpenSubchannel r pk key i t s) (book b l) ->
  let a := AOpenSubchannel r pk key i t s in
  admitted a l /\ admitted b (book a l) /\ book b (book a l) = book a (book b l).
Proof.
  intros Hb Hbl Hal. destruct b; try discriminate Hb; cbn in *; unfold note_admitted, user_key in *; cbn in *;
    (split; [done|split; [|done]]); try done; destruct Hbl as (? & ? & ?); split_and!; first [done|by apply elem_of_union_r].
Qed.

Lemma books_insert r pk key i t s l2 m l' : forallb after_setup l2 = true -> books l2 m l' ->
  let a := AOpenSubchannel r pk key i t s in
  admitted a l' -> admitted a m /\ books l2 (book a m) (book a l').
Proof.
  intros Hl2 Hb a Ha. revert m Hb. induction l2 as [|b l2 IH]; intros m Hb; [cbn in Hb; by subst|].
  apply andb_prop in Hl2 as [Hb2 Hl2]. destruct Hb as [Hbm Hb]. destruct (IH Hl2 _ Hb) as [Ham Hrest].
  destruct (subchannel_commutes _ _ _ _ _ _ _ _ Hb2 Hbm Ham) as (H1 & H2 & H3). split; [done|]. split; [done|]. unfold a. by rewrite H3.
Qed.

Lemma books_insert_in r pk key i t s l1 l2 l l' : forallb after_setup l2 = true -> books (l1 ++ l2) l l' ->
  let a := AOpenSubchannel r pk key i t s in
  admitted a l' -> books (l1 ++ a :: l2) l (book a l').
Proof.
  intros Hl2 Hb a Ha. apply books_app in Hb as (m & H1 & H2). destruct (books_insert _ _ _ _ _ _ _ _ _ Hl2 H2 Ha) as [H3 H4].
  apply books_app. exists m. by split_and!.
Qed.

(** ** The mock pool implements the ledger *)

Lemma assert_if (P : Prop) `{Decision P} {A} e (k : unit -> result mock_error A) : P -> (mock_assert (bool_decide P) e ≫= k) = k tt.
Proof. intros HP. unfold mock_assert, js_assert. by rewrite bool_decide_eq_true_2. Qed.
Lemma assert_inv (P : Prop) `{Decision P} {A} e (k : unit -> result mock_error A) b :
  (mock_assert (bool_decide P) e ≫= k) = Ok b -> P /\ k tt = Ok b.
Proof. intros [HP Hk]%mock_assert_bind. split; [by apply bool_decide_eq_true in HP|done]. Qed.

(** A subchannel or a note is created at index zero or after the one before it. *)
Lemma next_inv (i : Z) (P : Prop) `{Decision P} {A} e (k : unit -> result mock_error A) b :
  (mock_assert ((i =? 0) || bool_decide P)%bool e ≫= k) = Ok b -> (i = 0 \/ P) /\ k tt = Ok b.
Proof. intros [[Hi%Z.eqb_eq|HP%bool_decide_eq_true]%orb_prop Hk]%mock_assert_bind; split; auto. Qed.
Lemma next_if (i : Z) (P : Prop) `{Decision P} {A} e (k : unit -> result mock_error A) :
  i = 0 \/ P -> (mock_assert ((i =? 0) || bool_decide P)%bool e ≫= k) = k tt.
Proof.
  intros Hi. unfold mock_assert, js_assert. destruct Hi as [->|HP]; [done|]. by rewrite (bool_decide_eq_true_2 P HP), orb_true_r.
Qed.

Lemma lift_crypto_ok {A} (r : result crypto_error A) a : lift_crypto r = Ok a <-> r = Ok a.
Proof. destruct r; cbn; split; congruence. Qed.

Lemma encryptable e pk k sender : (exists x, encryptChannelInfo e pk k sender = Ok x) <-> is_Ok (recoverPointFromX pk) = true.
Proof.
  unfold encryptChannelInfo. destruct (recoverPointFromX pk); cbn; [split; [done|by eexists]|]. by split; [intros [x [=]]|].
Qed.

(** What [execute_action] followed by the closure of its result does to the pool. *)
Definition pool_step (salt : Z) (a : ClientAction) (p : MockPool) : result mock_error MockPool :=
  sa ← execute_action u vk salt a p; if deferred sa then Ok p else apply_state sa p.

Lemma compile_step_pool salts a p acc r s : compile_step u vk salts a (p, acc) = (r, s) ->
  match r with
  | Ok _ => pool_step (salts (length acc)) a p = Ok s.1
  | Err e => pool_step (salts (length acc)) a p = Err e
  end.
Proof.
  unfold compile_step, pool_step. cbn [fst snd]. destruct (execute_action _ _ _ a p) as [sa|e]; [|by intros [= <- <-]].
  cbn [mbind result_bind]. destruct (deferred sa); [by intros [= <- <-]|].
  destruct (apply_state sa p); by intros [= <- <-].
Qed.
Lemma pool_step_spec salt a p p' : pool_step salt a p = Ok p' ->
  admitted a (ledger_of p) /\ ledger_of p' = book a (ledger_of p).
Proof.
  unfold pool_step. destruct a as [?|r i rnd sa|r pk key i t sa|r pk t am i sa|r pk t i rnd|t am|k t i|to t am rnd|ca cd|ca c1 c2];
    cbn [execute_action]; cbn [mbind result_bind deferred]; try (by intros [= <-]).
  - intros Hrun. apply assert_inv in Hrun as [Hn <-%Ok_inj]. by split.
  - destruct (publicKeys p !! r) as [pk|] eqn:Hpk; [|done]. unfold setChannel. intros Hrun.
    apply bind_ok in Hrun as (sact & Hset & Hap). apply assert_inv in Hset as [Hreg Hset].
    apply bind_ok in Hset as (info & Henc%lift_crypto_ok & Hset). apply mock_assert_bind in Hset as [Hi%Z.leb_le Hset].
    assert (Hchk : (i = 0 \/ is_Some (outgoingChannels p !! compute_outgoing_channel_id u vk (i - 1))) /\
      sact = SSetChannel (compute_channel_marker (key_of r pk) u r pk) r pk info (compute_outgoing_channel_id u vk i)
               (encryptOutgoingChannelInfo u vk i r salt)).
    { destruct (Z.ltb_spec 0 i) as [Hlt|Hle].
      - apply assert_inv in Hset as [Hprev <-%Ok_inj]. split; [by right|done].
      - apply Ok_inj in Hset as <-. split; [left; lia|done]. }
    destruct Hchk as [Hprev ->]. cbn [deferred apply_state] in Hap. apply assert_inv in Hap as [Hfresh <-%Ok_inj]. split.
    + exists pk. split_and!; try done.
      * apply (encryptable rnd _ (key_of r pk) u). by exists info.
      * destruct Hprev as [?|Hprev]; [by left|right]. by apply elem_of_dom.
    + unfold ledger_of. cbn. rewrite Hpk. f_equal. by rewrite dom_insert_L.
  - unfold setToken. intros Hrun. apply bind_ok in Hrun as (sact & Hset & Hap). apply assert_inv in Hset as [Hreg Hset].
    destruct key as [k|]; [|done]. apply assert_inv in Hset as [Hmark Hset]. apply next_inv in Hset as [Hprev Hset].
    apply assert_inv in Hset as [Hfree <-%Ok_inj]. cbn [deferred apply_state] in Hap. apply assert_inv in Hap as [Hfresh <-%Ok_inj]. split.
    + exists k. split_and!; try done.
      * destruct Hprev as [?|Hprev]; [by left|right]. by apply elem_of_dom.
      * by apply not_elem_of_dom.
    + unfold ledger_of. cbn. f_equal. by rewrite dom_insert_L.
  - unfold createEncNote. intros Hrun. apply bind_ok in Hrun as (sact & Hset & Hap). apply assert_inv in Hset as [Hmark Hset].
    apply next_inv in Hset as [Hprev <-%Ok_inj]. cbn [deferred apply_state] in Hap. apply assert_inv in Hap as [Hfresh <-%Ok_inj]. split.
    + split_and!; [done| |by apply not_elem_of_dom]. destruct Hprev as [?|Hprev]; [by left|right]. by apply elem_of_dom.
    + unfold ledger_of, book_note. cbn. f_equal. by rewrite dom_insert_L.
  - unfold createOpenNote. intros Hrun. apply bind_ok in Hrun as (sact & Hset & Hap). apply assert_inv in Hset as [Hmark Hset].
    apply next_inv in Hset as [Hprev Hset]. apply assert_inv in Hset as [Hfresh <-%Ok_inj]. cbn [deferred apply_state] in Hap. apply Ok_inj in Hap as <-. split.
    + split_and!; [done| |by apply not_elem_of_dom]. destruct Hprev as [?|Hprev]; [by left|right]. by apply elem_of_dom.
    + unfold ledger_of, book_note. cbn. f_equal. by rewrite dom_insert_L.
  - unfold useNote. intros Hrun. apply bind_ok in Hrun as (sact & Hset & Hap). apply assert_inv in Hset as [Hmark Hset].
    apply assert_inv in Hset as [Hnote <-%Ok_inj]. cbn [deferred apply_state] in Hap. apply assert_inv in Hap as [Hfresh <-%Ok_inj].
    split; [|done]. split_and!; [done|by apply elem_of_dom|done].
Qed.

Lemma pool_step_total salt a p : admitted a (ledger_of p) -> exists p', pool_step salt a p = Ok p'.
Proof.
  unfold pool_step. destruct a as [?|r i rnd sa|r pk key i t sa|r pk t am i sa|r pk t i rnd|t am|k t i|to t am rnd|ca cd|ca c1 c2];
    cbn [execute_action admitted]; cbn [mbind result_bind deferred]; try (by eexists).
  - intros Hn. cbn [register]. unfold register. cbn [mbind result_bind deferred apply_state]. rewrite assert_if by done. by eexists.
  - intros (pk & Hpk & Hreg & Hcurve & Hi & Hprev & Hfresh). cbn in Hpk, Hreg. rewrite Hpk. unfold setChannel, assertRegistered.
    rewrite assert_if by done. apply (encryptable rnd _ (compute_channel_key u vk r pk) u) in Hcurve as [info ->]. cbn [lift_crypto mbind result_bind].
    assert (Hassert : forall B (f : unit -> result mock_error B), (mock_assert (0 <=? i) (NegativeIndex i) ≫= f) = f tt)
      by (intros; unfold mock_assert, js_assert; by rewrite (proj2 (Z.leb_le 0 i) Hi)).
    rewrite Hassert. assert (Hprev' : (if 0 <? i then mock_assert (bool_decide (is_Some (outgoingChannels p !! compute_outgoing_channel_id u vk (i - 1)))) (NotSequential i) else Ok tt) = Ok tt).
    { destruct (Z.ltb_spec 0 i); [|done]. destruct Hprev as [?|Hprev]; [lia|]. unfold mock_assert, js_assert. rewrite bool_decide_eq_true_2; [done|]. by apply elem_of_dom. }
    rewrite Hprev'. cbn [mbind result_bind deferred apply_state]. rewrite assert_if by done. by eexists.
  - intros (k & -> & Hreg & Hmark & Hprev & Hfree & Hfresh). unfold setToken, assertRegistered. rewrite !assert_if by done.
    rewrite next_if by (destruct Hprev as [?|Hprev]; [by left|right; by apply elem_of_dom]).
    rewrite assert_if by (by apply not_elem_of_dom). cbn [mbind result_bind deferred apply_state]. rewrite assert_if by done. by eexists.
  - intros (Hmark & Hprev & Hfresh). unfold createEncNote. rewrite assert_if by done.
    rewrite next_if by (destruct Hprev as [?|Hprev]; [by left|right; by apply elem_of_dom]).
    cbn [mbind result_bind deferred apply_state]. rewrite assert_if by (by apply not_elem_of_dom). by eexists.
  - intros (Hmark & Hprev & Hfresh). unfold createOpenNote. rewrite assert_if by done.
    rewrite next_if by (destruct Hprev as [?|Hprev]; [by left|right; by apply elem_of_dom]).
    rewrite assert_if by (by apply not_elem_of_dom). by eexists.
  - intros (Hmark & Hnote & Hfresh). unfold useNote. rewrite !assert_if; [|by apply elem_of_dom|done].
    cbn [mbind result_bind deferred apply_state]. rewrite assert_if by done. by eexists.
Qed.

(** The loop of [compile_actions]. *)
Lemma loop_books salts lst p acc r s : st_for lst (compile_step u vk salts) (p, acc) = (r, s) ->
  match r with
  | Ok _ => books lst (ledger_of p) (ledger_of s.1)
  | Err _ => ~ exists l', books lst (ledger_of p) l'
  end.
Proof.
  revert p acc. induction lst as [|a lst IH]; intros p acc.
  - intros [= <- <-]. done.
  - cbn [st_for]. unfold mbind, stateE_bind. destruct (compile_step u vk salts a (p, acc)) as [r1 [p1 acc1]] eqn:H1.
    apply compile_step_pool in H1. destruct r1 as [[]|e].
    + apply pool_step_spec in H1 as [Ha Hb]. cbn [fst] in Hb. intros Hrun. apply IH in Hrun. rewrite Hb in Hrun. destruct r as [[]|e]; [by split|].
      intros (l' & _ & Hl'). apply Hrun. by exists l'.
    + intros [= <- <-] (l' & Ha & _). destruct (pool_step_total (salts (length acc)) a p Ha) as [p' Hp']. congruence.
Qed.

Lemma books_functional lst l l1 l2 : books lst l l1 -> books lst l l2 -> l1 = l2.
Proof. revert l. induction lst as [|a lst IH]; cbn; intros l; [congruence|]. intros [_ H1] [_ H2]. by eapply IH. Qed.

(** A booked list that passes the check of the totals is accepted, and replays to what was booked. *)
Lemma booked_accepted (salts : nat -> Z) lst p l : books lst (ledger_of p) l -> validateTokenTotals p lst = Ok tt ->
  exists sas p', (compile_actions true salts u vk lst p).1 = Ok sas /\
    apply_all_state (filter (fun a => deferred a = false) sas) p = Ok p' /\ ledger_of p' = l.
Proof.
  intros Hb Hv. unfold compile_actions. rewrite Hv. change (snapshot p) with p.
  destruct (st_for lst (compile_step u vk salts) (p, [])) as [r [p' sas]] eqn:Hrun. pose proof (loop_books _ _ _ _ _ _ Hrun) as Hl.
  destruct r as [[]|e]; [|destruct Hl; by exists l].
  destruct (compile_loop_grows _ _ _ _ _ _ _ _ _ Hrun) as (new & -> & _ & Hap & _). exists new, p'. split_and!; [done|done|].
  by eapply books_functional.
Qed.

(** C3: The mock pool implements the ledger: [compile_actions], without the check of the token totals, returns
    exactly when every action is admitted after the ones before it, whatever salts it draws, and throws otherwise; the
    server actions it returns then replay on the pool, and what they add to it is what the
    ledger books. *)
Theorem pool_implements_ledger (salts : nat -> Z) (lst : list ClientAction) (p : MockPool) :
  match (compile_actions false salts u vk lst p).1 with
  | Ok serverActions => exists p', apply_all_state (filter (fun a => deferred a = false) serverActions) p = Ok p' /\
      books lst (ledger_of p) (ledger_of p')
  | Err _ => ~ exists l', books lst (ledger_of p) l'
  end.
Proof.
  unfold compile_actions. destruct (st_for lst (compile_step u vk salts) (snapshot p, [])) as [r [p' sas]] eqn:Hrun.
  change (snapshot p) with p in Hrun. rewrite Hrun. pose proof (loop_books _ _ _ _ _ _ Hrun) as Hb. destruct r as [[]|e]; [|exact Hb].
  destruct (compile_loop_grows _ _ _ _ _ _ _ _ _ Hrun) as (new & -> & _ & Hap & _). exists p'. by split.
Qed.
End Ledger.
