(* ===== verification/PoolMirror.v ===== *)
(** * The simulator mirrors the pool

    The compiler plans on a [PoolSimulator] (file [PoolSimulator]); the pool checks on its own state. The relation
    [mirrors] says that the simulator's channels show what the ledger of the pool holds (file [PoolLedger]). Every action that the
    simulator can run in a state that mirrors the ledger is admitted by it, and the states after it
    mirror each other again. *)
From Stdlib Require Import ZArith Lia.
From stdpp Require Import base tactics list gmap.
From S2P Require Import Prelude JsMap Convert Crypto Encryptions Interfaces Channel PoolSimulator MockPool PoolSafety PoolLedger Indices.

Section Mirror.
Context `{StarkCrypto} (u vk : Z).

(** What the ledger says of a channel of the user. *)
Record channel_mirrored (l : Ledger) (r : Z) (c : Channel) : Prop := {
  cm_key : lg_keys l !! r = Some (ch_publicKey c);
  cm_open : match ch_key c with
    | Some k => k = key_of u vk r (ch_publicKey c) /\
        compute_channel_marker (key_of u vk r (ch_publicKey c)) u r (ch_publicKey c) ∈ lg_channels l
    | None => compute_channel_marker (key_of u vk r (ch_publicKey c)) u r (ch_publicKey c) ∉ lg_channels l
    end;
  cm_closed : ch_key c = None -> am_map (ch_tokens c) = [];
  cm_subchannels : forall i, 0 <= i ->
    compute_subchannel_id (key_of u vk r (ch_publicKey c)) i ∈ lg_subchannels l <-> i < Z.of_nat (am_size (ch_tokens c));
  cm_tokens : forall t, compute_subchannel_marker (key_of u vk r (ch_publicKey c)) r (ch_publicKey c) t ∈ lg_tokens l <->
    am_has t (ch_tokens c) = true;
  cm_notes : forall t i, 0 <= i ->
    compute_note_id (key_of u vk r (ch_publicKey c)) t i ∈ lg_notes l <-> i < nonce_of t c;
  cm_nonce : forall t, 0 <= nonce_of t c }.

Record mirrors (l : Ledger) (p : PoolSimulator) : Prop := {
  mi_wf : pool_wf p;
  mi_user : p_userAddress p = u;
  mi_viewing : p_userViewingKey p = vk;
  mi_channels : forall r c, getChannel r p = Some c -> channel_mirrored l r c }.

(** The simulator counts the outgoing channels of the user. *)
Definition counts (l : Ledger) (p : PoolSimulator) : Prop :=
  0 <= p_nextChannelIndex p /\
  forall i, 0 <= i -> compute_outgoing_channel_id u vk i ∈ lg_outgoing l <-> i < p_nextChannelIndex p.

(** What an action must fit to be run: the parts that the compiler reads from the simulator, and what the
    simulator does not know. *)
Definition open_note_fits (r pk t i : Z) (p : PoolSimulator) : Prop :=
  exists c k, getChannel r p = Some c /\ pk = ch_publicKey c /\ ch_key c = Some k /\ am_has t (ch_tokens c) = true /\ i = nonce_of t c.

Definition fits (a : ClientAction) (l : Ledger) (p : PoolSimulator) : Prop :=
  match a with
  | ASetViewingKey _ => lg_keys l !! u = None /\
      channel_mirrored (book u vk a l) u (new_Channel (derivePublicKey vk) None [])
  | AOpenChannel r i _ _ => exists c, getChannel r p = Some c /\ ch_key c = None /\ i = p_nextChannelIndex p /\ counts l p /\
      is_Some (lg_keys l !! u) /\ is_Ok (recoverPointFromX (ch_publicKey c)) = true
  | AOpenSubchannel r pk key i t _ => exists c k, getChannel r p = Some c /\ pk = ch_publicKey c /\ key = ch_key c /\ ch_key c = Some k /\
      i = Z.of_nat (am_size (ch_tokens c)) /\ am_has t (ch_tokens c) = false /\ is_Some (lg_keys l !! u)
  | AUseNote k t i => admitted u vk a l
  | ACreateEncNote r pk t _ i _ => open_note_fits r pk t i p
  | ACreateOpenNote r pk t i _ => open_note_fits r pk t i p
  | _ => True
  end.

Context `{!CollisionFree}.

Lemma note_fits_admitted r pk t i l p : mirrors l p -> open_note_fits r pk t i p -> note_admitted u vk r pk t i l.
Proof.
  intros [_ _ _ Hc] (c & k & Hget & -> & Hkey & Hhas & ->). destruct (Hc r c Hget) as [_ _ _ _ Htok Hnotes Hnon].
  specialize (Hnon t). split_and!.
  - by apply Htok.
  - destruct (decide (nonce_of t c = 0)); [by left|right]. apply Hnotes; lia.
  - rewrite Hnotes by lia. lia.
Qed.

Lemma fits_admitted a l p : mirrors l p -> fits a l p -> admitted u vk a l.
Proof.
  intros Hm. pose proof Hm as [_ _ _ Hc].
  destruct a as [?|r i rnd sa|r pk key i t sa|r pk t am i sa|r pk t i rnd|t am|k t i|to t am rnd|ca cd|ca c1 c2];
    cbn [fits admitted]; try done.
  - by intros [? _].
  - intros (c & Hget & Hkey & -> & (Hn & Hcount) & Hreg & Hcurve). destruct (Hc r c Hget) as [Hk Hopen _ _ _ _ _]. rewrite Hkey in Hopen.
    exists (ch_publicKey c). split_and!; try done. destruct (decide (p_nextChannelIndex p = 0)) as [?|Hne]; [by left|right].
    apply Hcount; lia.
  - intros (c & k & Hget & -> & -> & Hkey & -> & Hhas & Hreg). destruct (Hc r c Hget) as [Hk Hopen _ Hsubs Htok _ _]. rewrite Hkey in Hopen.
    destruct Hopen as [-> Hmark]. eexists. split_and!; try done.
    + destruct (am_size (ch_tokens c)) as [|n]; [by left|right]. apply Hsubs; lia.
    + rewrite Hsubs by lia. lia.
    + rewrite Htok, Hhas. done.
  - by apply note_fits_admitted.
  - by apply note_fits_admitted.
Qed.

(** ** Ids of different channels differ *)

Lemma key_of_inj r pk r' pk' : key_of u vk r pk = key_of u vk r' pk' -> r = r' /\ pk = pk'.
Proof. intros Hk. by apply (run_hash_call_inj (ChannelKeyHash u vk r pk) (ChannelKeyHash u vk r' pk')) in Hk as [= -> ->]. Qed.
Lemma marker_inj k a r pk k' a' r' pk' : compute_channel_marker k a r pk = compute_channel_marker k' a' r' pk' -> k = k' /\ r = r'.
Proof. intros Hk. by apply (run_hash_call_inj (ChannelMarker k a r pk) (ChannelMarker k' a' r' pk')) in Hk as [= -> _ -> _]. Qed.
Lemma subchannel_id_inj k i k' i' : compute_subchannel_id k i = compute_subchannel_id k' i' -> k = k' /\ i = i'.
Proof. intros Hk. by apply (run_hash_call_inj (SubchannelId k i) (SubchannelId k' i')) in Hk as [= -> ->]. Qed.
Lemma token_marker_inj k r pk t k' r' pk' t' :
  compute_subchannel_marker k r pk t = compute_subchannel_marker k' r' pk' t' -> k = k' /\ t = t'.
Proof. intros Hk. by apply (run_hash_call_inj (SubchannelMarker k r pk t) (SubchannelMarker k' r' pk' t')) in Hk as [= -> _ _ ->]. Qed.
Lemma note_id_inj k t i k' t' i' : compute_note_id k t i = compute_note_id k' t' i' -> k = k' /\ t = t' /\ i = i'.
Proof. intros Hk. by apply (run_hash_call_inj (NoteId k t i) (NoteId k' t' i')) in Hk as [= -> -> ->]. Qed.
Lemma outgoing_id_inj i j : compute_outgoing_channel_id u vk i = compute_outgoing_channel_id u vk j -> i = j.
Proof. intros Hk. by apply (run_hash_call_inj (OutgoingChannelId u vk i) (OutgoingChannelId u vk j)) in Hk as [= ->]. Qed.
Lemma nullifier_inj k t i k' t' i' : compute_nullifier k t i vk = compute_nullifier k' t' i' vk -> k = k' /\ t = t' /\ i = i'.
Proof. intros Hk. by apply (run_hash_call_inj (Nullifier k t i vk) (Nullifier k' t' i' vk)) in Hk as [= -> -> ->]. Qed.

(** ** Actions about another channel *)

(** The channel an action is about. *)
Definition about (a : ClientAction) : option Z :=
  match a with
  | ASetViewingKey _ => Some u
  | AOpenChannel r _ _ _ | AOpenSubchannel r _ _ _ _ _ | ACreateEncNote r _ _ _ _ _ | ACreateOpenNote r _ _ _ _ => Some r
  | _ => None
  end.

(** Two ledgers that say the same of a channel. *)
Record agrees (l l' : Ledger) (r pk : Z) : Prop := {
  ag_key : lg_keys l' !! r = lg_keys l !! r;
  ag_marker : compute_channel_marker (key_of u vk r pk) u r pk ∈ lg_channels l' <->
    compute_channel_marker (key_of u vk r pk) u r pk ∈ lg_channels l;
  ag_subchannels : forall i, compute_subchannel_id (key_of u vk r pk) i ∈ lg_subchannels l' <->
    compute_subchannel_id (key_of u vk r pk) i ∈ lg_subchannels l;
  ag_tokens : forall t, compute_subchannel_marker (key_of u vk r pk) r pk t ∈ lg_tokens l' <->
    compute_subchannel_marker (key_of u vk r pk) r pk t ∈ lg_tokens l;
  ag_notes : forall t i, compute_note_id (key_of u vk r pk) t i ∈ lg_notes l' <-> compute_note_id (key_of u vk r pk) t i ∈ lg_notes l }.

Lemma agrees_mirrored l l' r c : agrees l l' r (ch_publicKey c) -> channel_mirrored l r c -> channel_mirrored l' r c.
Proof.
  intros [Hk Hm Hs Ht Hn] [Ck Co Cc Cs Ct Cn Cz]. split; try done.
  - by rewrite Hk.
  - destruct (ch_key c); rewrite Hm; done.
  - intros i Hi. by rewrite Hs, Cs.
  - intros t. by rewrite Ht, Ct.
  - intros t i Hi. by rewrite Hn, Cn.
Qed.

(** A member of a set that a new member was added to. *)
Lemma elem_of_add (x y : Z) (X : gset Z) : x <> y -> x ∈ {[y]} ∪ X <-> x ∈ X.
Proof. rewrite elem_of_union, elem_of_singleton. tauto. Qed.

Definition keyed (a : ClientAction) : Prop :=
  match a with AOpenSubchannel r pk key _ _ _ => key = Some (key_of u vk r pk) | _ => True end.

Lemma fits_keyed a l p : mirrors l p -> fits a l p -> keyed a.
Proof.
  intros [_ _ _ Hc] Hf. destruct a as [| |r pk key i t sa| | | | | | |]; try done.
  destruct Hf as (c & k & Hget & -> & -> & Hkey & _). destruct (Hc r c Hget) as [_ Hopen _ _ _ _ _]. cbn. rewrite Hkey in Hopen |- *.
  by destruct Hopen as [-> _].
Qed.

Lemma book_agrees a l r pk : about a <> Some r -> keyed a -> agrees l (book u vk a l) r pk.
Proof.
  intros Hne Hk. assert (Hkey : forall r' pk', r' <> r -> key_of u vk r pk <> key_of u vk r' pk') by (intros r' pk' Hr [? _]%key_of_inj; congruence).
  destruct a as [?|r' i rnd sa|r' pk' key i t sa|r' pk' t am i sa|r' pk' t i rnd|t am|k t i|to t am rnd|ca cd|ca c1 c2]; cbn in Hne, Hk.
  all: split; try done; cbn.
  - by rewrite lookup_insert_ne by congruence.
  - apply elem_of_add. intros [? ?]%marker_inj. congruence.
  - intros j. apply elem_of_add. subst key. cbn. intros [He _]%subchannel_id_inj. eapply Hkey; [|exact He]. congruence.
  - intros j. apply elem_of_add. subst key. cbn. intros [He _]%token_marker_inj. eapply Hkey; [|exact He]. congruence.
  - intros t' j. apply elem_of_add. intros (He & _)%note_id_inj. eapply Hkey; [|exact He]. congruence.
  - intros t' j. apply elem_of_add. intros (He & _)%note_id_inj. eapply Hkey; [|exact He]. congruence.
Qed.

(** ** Channels after an action *)

Definition channel_after (a : ClientAction) (r : Z) (p : PoolSimulator) : option Channel :=
  if decide (about a = Some r) then
    match a with
    | ASetViewingKey _ => Some (new_Channel (derivePublicKey vk) None [])
    | AOpenChannel _ _ _ _ => (fun c => with_key c (Some (key_of u vk r (ch_publicKey c)))) <$> getChannel r p
    | AOpenSubchannel _ _ _ i t _ =>
        (fun c => with_tokens c (am_set t {| tokenIndex := i; noteNonce := 0 |} (ch_tokens c))) <$> getChannel r p
    | ACreateEncNote _ _ t _ _ _ | ACreateOpenNote _ _ t _ _ => (fun c => (incrementNoteNonce t c).2) <$> getChannel r p
    | _ => getChannel r p
    end
  else getChannel r p.

Lemma getChannel_put r r' c p : pool_wf p -> channel_wf c -> getChannel r (put_channel r' c p) = if decide (r = r') then Some c else getChannel r p.
Proof. intros Hp Hc. rewrite !getChannel_eq by (try done; by apply put_channel_wf). by rewrite get_put_channel. Qed.

Lemma getChannel_same r p p' : p_channels p' = p_channels p -> getChannel r p' = getChannel r p.
Proof. unfold getChannel. by intros ->. Qed.

Lemma advance_channel r t r' p p' : pool_wf p -> advanceNonce r t p = Ok p' ->
  getChannel r' p' = if decide (Some r = Some r') then (fun c => (incrementNoteNonce t c).2) <$> getChannel r' p else getChannel r' p.
Proof.
  intros Hp. unfold advanceNonce. destruct (getChannel r p) as [c|] eqn:Hc; [|done]. intros <-%Ok_inj.
  rewrite getChannel_put; [|done|by eapply increment_wf, getChannel_wf].
  destruct (decide (r' = r)) as [->|Hne]; [by rewrite decide_True, Hc by done|by rewrite decide_False by congruence].
Qed.

Lemma execute_channel a r p p' : pool_wf p -> p_userAddress p = u -> p_userViewingKey p = vk -> execute a p = Ok p' ->
  getChannel r p' = channel_after a r p.
Proof.
  intros Hp Hu Hv. unfold channel_after.
  destruct a as [?|r' i rnd sa|r' pk' key i t sa|r' pk' t am i sa|r' pk' t i rnd|t am|k t i|to t am rnd|ca cd|ca c1 c2]; cbn [execute about].
  all: try (intros <-%Ok_inj; rewrite decide_False by done; done).
  - unfold handleSetViewingKey. destruct (am_has _ _); [done|]. intros <-%Ok_inj. rewrite getChannel_put by (done || apply channel_wf_new).
    rewrite Hu, Hv. destruct (decide (r = u)) as [->|]; [by rewrite decide_True|by rewrite decide_False by congruence].
  - unfold handleOpenChannel. destruct (getChannel r' p) as [c|] eqn:Hc; [|done]. intros <-%Ok_inj.
    match goal with |- getChannel r (with_nextChannelIndex ?q _) = _ => change (getChannel r (with_nextChannelIndex q _)) with (getChannel r q) end.
    rewrite getChannel_put; [|done|by eapply channel_wf_key, getChannel_wf].
    destruct (decide (r = r')) as [->|]; [rewrite decide_True by done; rewrite Hc, Hu, Hv; done|by rewrite decide_False by congruence].
  - unfold handleOpenSubchannel. destruct (getChannel r' p) as [c|] eqn:Hc; [|done]. intros <-%Ok_inj.
    rewrite getChannel_put; [|done|by eapply channel_wf_set, getChannel_wf].
    destruct (decide (r = r')) as [->|]; [by rewrite decide_True, Hc by done|by rewrite decide_False by congruence].
  - unfold handleCreateEncNote. destruct (advanceNonce r' t p) as [p1|] eqn:Ha; [|done]. cbn [mbind result_bind].
    intros Hrun. rewrite <- (advance_channel _ _ r _ _ Hp Ha). apply getChannel_same.
    destruct (_ && _)%bool; [|by apply Ok_inj in Hrun as <-]. pose proof (notes_get_channels t p1) as Hg.
    destruct (notes_get t p1) as [m p2]. by apply Ok_inj in Hrun as <-.
  - intros Ha. by rewrite (advance_channel _ _ r _ _ Hp Ha).
Qed.
(** ** What an action does to its own channel *)

Lemma mirrored_opened l r i rnd sa c : channel_mirrored l r c -> ch_key c = None ->
  channel_mirrored (book u vk (AOpenChannel r i rnd sa) l) r (with_key c (Some (key_of u vk r (ch_publicKey c)))).
Proof.
  intros [Ck Co Cc Cs Ct Cn Cz] Hkey. cbn [book]. rewrite Ck. cbn [default]. split; try done.
  cbn. split; [done|]. by apply elem_of_union_l, elem_of_singleton.
Qed.

Lemma mirrored_subchannel l r t c : channel_mirrored l r c -> channel_wf c -> am_has t (ch_tokens c) = false ->
  ch_key c = Some (key_of u vk r (ch_publicKey c)) ->
  let i := Z.of_nat (am_size (ch_tokens c)) in forall sa,
  channel_mirrored (book u vk (AOpenSubchannel r (ch_publicKey c) (ch_key c) i t sa) l) r
    (with_tokens c (am_set t {| tokenIndex := i; noteNonce := 0 |} (ch_tokens c))).
Proof.
  intros [Ck Co Cc Cs Ct Cn Cz] Hw Hhas Hkey i sa. cbn [book]. rewrite Hkey. cbn [default].
  assert (Hn : forall t', nonce_of t' (with_tokens c (am_set t {| tokenIndex := i; noteNonce := 0 |} (ch_tokens c))) = nonce_of t' c).
  { intros t'. unfold nonce_of. cbn. destruct Hw as (Hc & _). unfold am_has in Hhas. rewrite Hc in *. apply map_has_false in Hhas.
    rewrite map_get_set. case_decide; [subst; by rewrite Hhas|done]. }
  split; cbn [lg_keys lg_channels lg_subchannels lg_tokens lg_notes with_tokens ch_publicKey ch_key ch_tokens]; try done.
  - rewrite Hkey. done.
  - intros j Hj. rewrite am_size_set by done. rewrite elem_of_union, elem_of_singleton, Cs by done. split.
    + intros [[_ ->]%subchannel_id_inj|]; lia.
    + intros Hlt. destruct (decide (j = i)) as [->|]; [by left|right; lia].
  - intros t'. rewrite channel_has_set by done. rewrite elem_of_union, elem_of_singleton, Ct. split.
    + intros [[_ ->]%token_marker_inj|Hh]; [by rewrite bool_decide_eq_true_2|by rewrite Hh, orb_true_r].
    + intros [->%bool_decide_eq_true|?]%orb_prop; [by left|by right].
  - intros t' j Hj. rewrite Hn. by apply Cn.
  - intros t'. by rewrite Hn.
Qed.

Lemma mirrored_note l r t c : channel_mirrored l r c -> channel_wf c -> am_has t (ch_tokens c) = true ->
  channel_mirrored (book_note u vk r (ch_publicKey c) t (nonce_of t c) l) r (incrementNoteNonce t c).2.
Proof.
  intros [Ck Co Cc Cs Ct Cn Cz] Hw Hhas. rewrite increment_eq by done. pose proof Hw as (Hc & _).
  unfold am_has in Hhas. rewrite Hc in Hhas. set (c' := with_tokens c _).
  assert (Hn : forall t', nonce_of t' c' = if decide (t' = t) then nonce_of t c + 1 else nonce_of t' c).
  { intros t'. unfold nonce_of at 1, c'. cbn. rewrite map_get_set. case_decide; [|done]. by rewrite nonce_of_entry. }
  assert (Hkeys : map_keys (am_map (ch_tokens c')) = map_keys (am_map (ch_tokens c))) by (unfold c'; cbn [with_tokens ch_tokens tokens_of am_map]; by rewrite map_keys_set, Hhas).
  split; cbn [lg_keys lg_channels lg_subchannels lg_tokens lg_notes book_note c' with_tokens snd ch_publicKey ch_key]; try done.
  - intros Hkey. specialize (Cc Hkey). rewrite Cc in Hhas. done.
  - intros j Hj. change (am_size (ch_tokens c')) with (length (am_map (ch_tokens c'))).
    rewrite <- (length_map fst). change (map fst (am_map (ch_tokens c'))) with (map_keys (am_map (ch_tokens c'))). rewrite Hkeys.
    unfold map_keys. rewrite length_map. by apply Cs.
  - intros t'. rewrite Ct. change (am_has t' (ch_tokens c')) with (map_has t' (am_map (ch_tokens c'))). unfold am_has.
    by rewrite Hc, !map_has_true, Hkeys.
  - intros t' j Hj. rewrite Hn, elem_of_union, elem_of_singleton, Cn by done. specialize (Cz t). split.
    + intros [(_ & -> & ->)%note_id_inj|Hlt]; [rewrite decide_True by done; lia|case_decide; [subst|]; lia].
    + case_decide; [subst t'|by right]. intros Hlt. destruct (decide (j = nonce_of t c)) as [->|]; [by left|right; lia].
  - intros t'. rewrite Hn. pose proof (Cz t). case_decide; [lia|apply Cz].
Qed.

(** ** The simulator and the pool stay together *)

(** What the mirror needs to know of an action that is about a channel. *)
Lemma mirrors_step a l p p' : mirrors l p -> fits a l p -> execute a p = Ok p' -> mirrors (book u vk a l) p'.
Proof.
  intros Hm Hf Hrun. pose proof Hm as [Hw Hu Hv Hc]. pose proof (fits_keyed a l p Hm Hf) as Hk.
  pose proof (execute_refines a p Hw) as Hr. rewrite Hrun in Hr. unfold refines_step in Hr.
  destruct (spec_execute _ _ a _); [|done]. destruct Hr as (Hw' & _ & Hu' & Hv'). split; [done|congruence|congruence|].
  intros r c. rewrite (execute_channel a r p p') by done. unfold channel_after.
  destruct (decide (about a = Some r)) as [Hab|Hne].
  - destruct a as [?|r' i rnd sa|r' pk' key i t sa|r' pk' t am i sa|r' pk' t i rnd|t am|k t i|to t am rnd|ca cd|ca c1 c2]; try discriminate Hab; injection Hab as <-.
    + intros [= <-]. by destruct Hf.
    + destruct Hf as (c0 & Hget & Hkey & _). rewrite Hget. intros [= <-]. by apply mirrored_opened; [apply Hc|].
    + destruct Hf as (c0 & k & Hget & -> & -> & Hkey & -> & Hhas & _). rewrite Hget. intros [= <-].
      pose proof (cm_open _ _ _ (Hc _ _ Hget)) as Hop. rewrite Hkey in Hop.
      apply mirrored_subchannel; [by apply Hc|by eapply (getChannel_wf _ _ p)|done|by destruct Hop as [<- _]].
    + destruct Hf as (c0 & k & Hget & -> & Hkey & Hhas & ->). rewrite Hget. intros [= <-].
      apply mirrored_note; [by apply Hc|by eapply (getChannel_wf _ _ p)|done].
    + destruct Hf as (c0 & k & Hget & -> & Hkey & Hhas & ->). rewrite Hget. intros [= <-].
      apply mirrored_note; [by apply Hc|by eapply (getChannel_wf _ _ p)|done].
  - intros Hget. eapply agrees_mirrored; [by apply book_agrees|by apply Hc].
Qed.

Lemma counts_step a l p p' : counts l p -> (forall r i rnd sa, a = AOpenChannel r i rnd sa -> i = p_nextChannelIndex p) ->
  execute a p = Ok p' -> counts (book u vk a l) p'.
Proof.
  intros [Hn Hc] Hi Hrun. unfold counts. rewrite (execute_next a p p' Hrun).
  destruct a as [?|r' i rnd sa|r' pk' key i t sa|r' pk' t am i sa|r' pk' t i rnd|t am|k t i|to t am rnd|ca cd|ca c1 c2];
    cbn [book lg_outgoing channel_index book_note]; try (rewrite Z.add_0_r; by split).
  rewrite (Hi _ _ _ _ eq_refl). split; [cbn; lia|]. intros j Hj. rewrite elem_of_union, elem_of_singleton, Hc by done.
  rewrite bool_decide_eq_true_2 by done. split.
  - intros [->%outgoing_id_inj|]; lia.
  - intros Hlt. destruct (decide (j = p_nextChannelIndex p)) as [->|]; [by left|right; lia].
Qed.
End Mirror.
