(* ===== verification/EmissionAccepted.v ===== *)
(** * What the compiler emits, the pool accepts

    [emit_all] (file [Compiler]) runs a batch on the simulator; the pool's [compile_actions] (file [MockPool]) checks
    the client actions that come out. On a simulator that mirrors the pool (file [PoolMirror]) and a batch that asks for nothing the pool lacks,
    every emitted action is admitted after the ones before it, in the order the pool sees them, and the
    simulator mirrors the pool again at the end. *)
From Stdlib Require Import ZArith Lia.
From stdpp Require Import base tactics list gmap.
From S2P Require Import Prelude JsMap Convert Crypto Encryptions Interfaces Channel PoolSimulator ResolveNotes Compiler Emission Indices MockPool PoolSafety PoolLedger PoolMirror.

(** ** Facts that later actions keep *)

Section Facts.
Context `{StarkCrypto} (u vk : Z).

(** A recipient whose channel is open, and one with a token channel. *)
Definition opened (r : Z) (p : PoolSimulator) : Prop := exists c k, getChannel r p = Some c /\ ch_key c = Some k.
Definition closed (r : Z) (p : PoolSimulator) : Prop := forall c, getChannel r p = Some c -> ch_key c = None.
Definition ready (r t : Z) (p : PoolSimulator) : Prop := exists c, getChannel r p = Some c /\ am_has t (ch_tokens c) = true.

(** A registered public key is the x-coordinate of a point. *)
Definition keys_on_curve (l : Ledger) : Prop := forall r pk, lg_keys l !! r = Some pk -> is_Ok (recoverPointFromX pk) = true.
Definition registered (l : Ledger) : Prop := is_Some (lg_keys l !! u).

(** A note the pool lets its owner spend. *)
Definition spendable (n : UseNoteAction) (l : Ledger) : Prop := registered l /\ admitted u vk (useNote_action n) l.
Definition note_key (n : UseNoteAction) : Z * Z * Z :=
  (w_channelKey (note_witness (un_note n)), un_token n, w_nonce (note_witness (un_note n))).

Context (p p' : PoolSimulator) (Hw : pool_wf p) (Hu : p_userAddress p = u) (Hv : p_userViewingKey p = vk).

Lemma viewing_key_no_channel x : execute (ASetViewingKey x) p = Ok p' -> getChannel u p = None.
Proof.
  cbn [execute]. unfold handleSetViewingKey. destruct (am_has _ _) eqn:Hh; [done|]. intros _. rewrite getChannel_eq by done.
  unfold am_has in Hh. destruct Hw as (Hc & _). rewrite Hc, Hu in Hh. by apply map_has_false.
Qed.

Lemma opened_step a r : execute a p = Ok p' -> opened r p -> opened r p'.
Proof.
  intros Hrun (c & k & Hget & Hkey). unfold opened. rewrite (execute_channel u vk a r p p') by done. unfold channel_after.
  case_decide as Hab; [|by exists c, k].
  destruct a; try discriminate Hab; injection Hab as <-; rewrite ?Hget; cbn [fmap option_fmap option_map].
  - apply viewing_key_no_channel in Hrun. congruence.
  - by eexists _, _.
  - by exists (with_tokens c (am_set token {| tokenIndex := index; noteNonce := 0 |} (ch_tokens c))), k.
  - eexists _, k. split; [done|]. rewrite increment_eq by (by eapply getChannel_wf). done.
  - eexists _, k. split; [done|]. rewrite increment_eq by (by eapply getChannel_wf). done.
Qed.

Lemma increment_has t t' c : channel_wf c -> am_has t' (ch_tokens c) = true -> am_has t' (ch_tokens (incrementNoteNonce t c).2) = true.
Proof.
  intros Hc. rewrite increment_eq by done. destruct Hc as (Hc & _). unfold am_has. rewrite Hc. cbn. unfold map_has. intros Hh.
  rewrite map_get_set. by case_decide.
Qed.

Lemma ready_step a r t : execute a p = Ok p' -> ready r t p -> ready r t p'.
Proof.
  intros Hrun (c & Hget & Hhas). unfold ready. rewrite (execute_channel u vk a r p p') by done. unfold channel_after.
  pose proof (getChannel_wf _ _ p Hw Hget) as Hc. case_decide as Hab; [|by exists c].
  destruct a; try discriminate Hab; injection Hab as <-; rewrite ?Hget; cbn [fmap option_fmap option_map].
  - apply viewing_key_no_channel in Hrun. congruence.
  - by exists (with_key c (Some (key_of u vk recipient_addr (ch_publicKey c)))).
  - eexists. split; [done|]. cbn [with_tokens ch_tokens]. rewrite channel_has_set by done. by rewrite Hhas, orb_true_r.
  - eexists. split; [done|]. by apply increment_has.
  - eexists. split; [done|]. by apply increment_has.
Qed.

(** Opening another channel, or the registration, opens no closed channel. *)
Lemma closed_step a r : execute a p = Ok p' -> (phase a = 0%nat \/ exists r' i x s, a = AOpenChannel r' i x s /\ r' <> r) ->
  closed r p -> closed r p'.
Proof.
  intros Hrun Ha Hc c. rewrite (execute_channel u vk a r p p') by done. unfold channel_after.
  case_decide as Hab; [|apply Hc]. destruct Ha as [Ha|(r' & i & x & s & -> & Hne)]; [|by injection Hab].
  destruct a; try done. by intros [= <-].
Qed.

Lemma book_keys a l : phase a <> 0%nat -> lg_keys (book u vk a l) = lg_keys l.
Proof. by destruct a. Qed.

Lemma registered_step a l : registered l -> registered (book u vk a l).
Proof. intros Hl. destruct a; try done. unfold registered. cbn. by rewrite lookup_insert_eq. Qed.

Lemma curve_step a l : (phase a = 0%nat -> is_Ok (recoverPointFromX (derivePublicKey vk)) = true) ->
  keys_on_curve l -> keys_on_curve (book u vk a l).
Proof.
  intros Ha Hl r pk. destruct (decide (phase a = 0%nat)) as [Hz|Hz]; [|rewrite book_keys by done; apply Hl].
  destruct a; try done. cbn. destruct (decide (r = u)) as [->|Hne].
  - rewrite lookup_insert_eq. intros [= <-]. by apply Ha.
  - rewrite lookup_insert_ne by done. apply Hl.
Qed.

Context `{!CollisionFree}.

Lemma spendable_step a n l : admitted u vk a l -> (forall k t i, a = AUseNote k t i -> note_key n <> (k, t, i)) ->
  spendable n l -> spendable n (book u vk a l).
Proof.
  intros Ha Hne [Hreg (Hm & Hn & Hf)]. split; [by apply registered_step|].
  assert (Hkey : user_key u (book u vk a l) = user_key u l).
  { unfold user_key. destruct (decide (phase a = 0%nat)); [|by rewrite book_keys]. destruct a; try done.
    cbn in Ha. unfold registered in Hreg. rewrite Ha in Hreg. by destruct Hreg. }
  cbn [useNote_action admitted]. rewrite Hkey. split_and!.
  - destruct a; try exact Hm. by apply elem_of_union_r.
  - destruct a; try exact Hn; by apply elem_of_union_r.
  - destruct a; try exact Hf. cbn [book lg_nullifiers]. rewrite elem_of_union, elem_of_singleton.
    intros [Heq|?]; [|done]. pose proof (nullifier_inj vk _ _ _ _ _ _ Heq) as (He1 & He2 & He3).
    apply (Hne _ _ _ eq_refl). unfold note_key. by rewrite He1, He2, He3.
Qed.
End Facts.

(** ** Where an action is stored *)

Lemma phase_empty (k j : nat) (l : list ClientAction) : Forall (fun a => phase a = j) l -> Forall (fun a => (phase a <= k)%nat) l -> (k < j)%nat -> l = [].
Proof. intros Hj Hk Hlt. destruct l as [|a l]; [done|]. apply Forall_cons in Hj as [Hj _], Hk as [Hk _]. lia. Qed.

(** The fields after a phase are empty when nothing later was stored. *)
Definition empty_after (k : nat) (c : ClientActions) : Prop :=
  ((k < 1)%nat -> ca_openChannels c = []) /\ ((k < 2)%nat -> ca_openTokenChannels c = []) /\ ((k < 3)%nat -> ca_deposits c = []) /\
  ((k < 4)%nat -> ca_useNotes c = []) /\ ((k < 5)%nat -> ca_createNotes c = []) /\ ((k < 6)%nat -> ca_withdraws c = []) /\
  ((k < 7)%nat -> ca_invoke c = None) /\ ((k < 8)%nat -> ca_computeAndInvoke c = None).

Lemma empty_after_typed k c : out_typed c -> Forall (fun a => (phase a <= k)%nat) (flatten c) -> empty_after k c.
Proof.
  intros (H0 & H1 & H2 & H3 & H4 & H5 & H6 & H7 & H8). apply option_list_phase in H7, H8. unfold flatten. rewrite !Forall_app.
  intros (_ & F1 & F2 & F3 & F4 & F5 & F6 & F7 & F8).
  split_and!; intros Hk; try (by eapply phase_empty; [eassumption|eassumption|lia]).
  - assert (Hn : option_list (ca_invoke c) = []) by (by eapply phase_empty; [eassumption|eassumption|lia]). by destruct (ca_invoke c).
  - assert (Hn : option_list (ca_computeAndInvoke c) = []) by (by eapply phase_empty; [eassumption|eassumption|lia]).
    by destruct (ca_computeAndInvoke c).
Qed.

(** An action of the last phase so far is appended. *)
Lemma flatten_append k a c : out_typed c -> Forall (fun b => (phase b <= k)%nat) (flatten c) ->
  phase a = k -> (k = 0%nat \/ k = 7%nat \/ k = 8%nat -> Forall (fun b => (phase b < k)%nat) (flatten c)) ->
  flatten (push_action a c) = flatten c ++ [a].
Proof.
  intros Ht Hf Ha Hnew. destruct (empty_after_typed k c Ht Hf) as (E1 & E2 & E3 & E4 & E5 & E6 & E7 & E8).
  assert (Hone : k = 0%nat \/ k = 7%nat \/ k = 8%nat -> (k = 0%nat -> ca_setViewingKey c = None) /\ (k = 7%nat -> ca_invoke c = None) /\
            (k = 8%nat -> ca_computeAndInvoke c = None)).
  { intros Hk. specialize (Hnew Hk). destruct Ht as (H0 & _ & _ & _ & _ & _ & _ & H7 & H8). unfold flatten in Hnew. rewrite !Forall_app in Hnew.
    destruct Hnew as (N0 & _ & _ & _ & _ & _ & _ & N7 & N8). split_and!; intros ->.
    - destruct (ca_setViewingKey c) as [b|]; [|done]. apply Forall_cons in N0 as [N0 _]. lia.
    - destruct (ca_invoke c) as [b|]; [|done]. specialize (H7 b eq_refl). apply Forall_cons in N7 as [N7 _]. lia.
    - destruct (ca_computeAndInvoke c) as [b|]; [|done]. specialize (H8 b eq_refl). apply Forall_cons in N8 as [N8 _]. lia. }
  clear Hnew Ht Hf. destruct c as [vk oc ot de un cn wd iv ci]. cbn in E1, E2, E3, E4, E5, E6, E7, E8, Hone.
  destruct a; cbn in Ha; subst k; unfold flatten; cbn [push_action ca_setViewingKey ca_openChannels ca_openTokenChannels ca_deposits ca_useNotes
    ca_createNotes ca_withdraws ca_invoke ca_computeAndInvoke];
    rewrite ?E1, ?E2, ?E3, ?E4, ?E5, ?E6, ?E7, ?E8 by lia; cbn [option_list app]; rewrite ?app_nil_r, <- ?app_assoc; try done.
  - destruct Hone as (-> & _); [by left|done|done].
  - destruct Hone as (_ & -> & _); [by right; left|done|]. cbn. by rewrite <- ?app_assoc.
  - destruct Hone as (_ & _ & ->); [by right; right|done|]. cbn. by rewrite ?app_nil_r, <- ?app_assoc.
Qed.

(** A subchannel is stored before the deposits, notes and later phases. *)
Lemma flatten_subchannel k a c : out_typed c -> Forall (fun b => (phase b <= k)%nat) (flatten c) ->
  phase a = 2%nat -> (k <= 5)%nat ->
  exists l1 l2, flatten c = l1 ++ l2 /\ forallb after_setup l2 = true /\ flatten (push_action a c) = l1 ++ a :: l2.
Proof.
  intros Ht Hf Ha Hk. destruct (empty_after_typed k c Ht Hf) as (_ & _ & _ & _ & _ & E6 & E7 & E8).
  exists (option_list (ca_setViewingKey c) ++ ca_openChannels c ++ ca_openTokenChannels c), (ca_deposits c ++ ca_useNotes c ++ ca_createNotes c).
  unfold flatten. rewrite E6, E7, E8 by lia. cbn [option_list]. rewrite !app_nil_r. split_and!.
  - by rewrite <- !app_assoc.
  - destruct Ht as (_ & _ & _ & H3 & H4 & H5 & _). rewrite forallb_forall. intros b. rewrite <- list_elem_of_In, !elem_of_app.
    rewrite !list.Forall_forall in *. intros [Hb|[Hb|Hb]]; [specialize (H3 b Hb)|specialize (H4 b Hb)|specialize (H5 b Hb)]; by destruct b.
  - destruct c as [vk oc ot de un cn wd iv ci]. cbn in E6, E7, E8. destruct a; try done. cbn -[app]. rewrite E6, E7, E8 by lia.
    cbn [option_list]. rewrite !app_nil_r, <- !app_assoc. done.
Qed.

Lemma flatten_push_le k a c : out_typed c -> Forall (fun b => (phase b <= k)%nat) (flatten c) -> (phase a <= k)%nat ->
  Forall (fun b => (phase b <= k)%nat) (flatten (push_action a c)).
Proof.
  intros _ Hf Ha. destruct c as [vk oc ot de un cn wd iv ci]. unfold flatten in *. cbn in Hf. rewrite !Forall_app in Hf.
  destruct Hf as (F0 & F1 & F2 & F3 & F4 & F5 & F6 & F7 & F8).
  destruct a; cbn [push_action ca_setViewingKey ca_openChannels ca_openTokenChannels ca_deposits ca_useNotes
    ca_createNotes ca_withdraws ca_invoke ca_computeAndInvoke]; rewrite !Forall_app; split_and!; try done; by repeat constructor.
Qed.

(** ** Changes that keep the channels *)

Section Same.
Context `{StarkCrypto} (u vk : Z).

(** The parts of the simulator that the facts read. *)
Definition same_channels (p p' : PoolSimulator) : Prop :=
  pool_wf p' /\ p_userAddress p' = p_userAddress p /\ p_userViewingKey p' = p_userViewingKey p /\ forall r, getChannel r p' = getChannel r p.

Lemma mirrors_same l p p' : same_channels p p' -> mirrors u vk l p -> mirrors u vk l p'.
Proof. intros (Hw & Hu & Hv & Hc) [_ Mu Mv Mc]. split; [done|congruence|congruence|]. intros r c. rewrite Hc. apply Mc. Qed.

Lemma put_same r c p : pool_wf p -> getChannel r p = Some c -> same_channels p (put_channel r c p).
Proof.
  intros Hw Hc. pose proof (getChannel_wf _ _ p Hw Hc) as Hcw. split_and!; [by apply put_channel_wf|done|done|].
  intros r'. rewrite getChannel_put by done. case_decide; congruence.
Qed.

Lemma notes_get_same t p : pool_wf p -> same_channels p (notes_get t p).2.
Proof.
  intros Hw. split_and!; [by apply notes_get_wf|apply notes_get_user| |].
  - unfold notes_get. by destruct (am_get t None (p_notes p)).
  - intros r. apply getChannel_same, notes_get_channels.
Qed.

Lemma same_trans p1 p2 p3 : same_channels p1 p2 -> same_channels p2 p3 -> same_channels p1 p3.
Proof. intros (_ & ? & ? & H12) (? & ? & ? & H23). split_and!; try congruence. Qed.

Lemma setupNote_same_channels t n p p' : pool_wf p -> setupNote t n p = Ok p' -> same_channels p p'.
Proof.
  intros Hw. unfold setupNote. pose proof (notes_get_same t p Hw) as Hs. pose proof (notes_get_eq t p Hw) as Hg.
  pose proof (notes_of_wf t p Hw) as Hn. destruct (notes_get t p) as [m q]. cbn in Hs. destruct (toBigInt (note_id n)); [|done].
  intros <-%Ok_inj. injection Hg as -> _. eapply same_trans; [exact Hs|]. destruct Hs as (Hq & _).
  split_and!; [apply put_notes_wf; [done|by apply map_set_wf]|done|done|done].
Qed.

Lemma hasNote_same_channels t id p : pool_wf p -> same_channels p (hasNote t id p).2.
Proof.
  intros Hw. unfold hasNote. pose proof (notes_get_same t p Hw) as Hs. by destruct (notes_get t p).
Qed.

(** An action keeps the recipients the simulator has a channel for. *)
Lemma present_step a r p p' : pool_wf p -> p_userAddress p = u -> p_userViewingKey p = vk -> execute a p = Ok p' ->
  is_Some (getChannel r p) -> is_Some (getChannel r p').
Proof.
  intros Hw Hu Hv Hrun [c Hc]. rewrite (execute_channel u vk a r p p' Hw Hu Hv Hrun). unfold channel_after.
  case_decide as Hab; [|by exists c]. destruct a; try discriminate Hab; injection Hab as <-; rewrite ?Hc; by eexists.
Qed.
End Same.

(** ** Rules for the steps of the emission *)

Section Rules.
Context `{StarkCrypto} `{Platform} `{!CollisionFree} (u vk : Z) (l0 : Ledger) (pool : PoolSimulator).

(** The actions stored so far are of phases below [k], the pool books them, and the simulator, which started as [pool], mirrors the result. *)
Record upto (k : nat) (l : Ledger) (s : TransformState) : Prop := {
  up_typed : out_typed (t_out s);
  up_phase : Forall (fun a => (phase a < k)%nat) (flatten (t_out s));
  up_books : books u vk (flatten (t_out s)) l0 l;
  up_mirrors : mirrors u vk l (t_pool s);
  up_present : forall r, is_Some (getChannel r pool) -> is_Some (getChannel r (t_pool s)) }.

Definition holds (k : nat) (X : Ledger -> PoolSimulator -> Prop) (s : TransformState) : Prop :=
  exists l, upto k l s /\ X l (t_pool s).

Lemma holds_mono k k' (X X' : Ledger -> PoolSimulator -> Prop) s : (k <= k')%nat -> (forall l p, mirrors u vk l p -> X l p -> X' l p) ->
  holds k X s -> holds k' X' s.
Proof.
  intros Hk HX (l & [Ht Hp Hb Hm Hr] & Hx). exists l. split; [|by apply HX]. split; try done.
  eapply Forall_impl; [exact Hp|]. cbn. lia.
Qed.

Lemma draw_holds {A} k X (source : nat -> A) : triple (holds k X) (draw source) (fun _ => holds k X).
Proof. intros s a s' (l & [? ? ? ? ?] & Hx) [= _ <-]. by exists l. Qed.

Lemma emit_run a s x s' : emit a s = (Ok x, s') ->
  exists p', execute a (t_pool s) = Ok p' /\ t_pool s' = p' /\ t_out s' = push_action a (t_out s).
Proof.
  unfold emit, with_pool, mbind, stateE_bind. destruct (execute a (t_pool s)) as [p'|e]; [|done]. cbn -[push_action].
  intros [= _ <-]. by exists p'.
Qed.

Lemma emit_holds k a (X X' : Ledger -> PoolSimulator -> Prop) :
  (k <= S (phase a))%nat -> (phase a = 0%nat \/ phase a = 7%nat \/ phase a = 8%nat -> k <= phase a)%nat ->
  (forall l p, mirrors u vk l p -> X l p -> fits u vk a l p) ->
  (forall l p p', mirrors u vk l p -> X l p -> admitted u vk a l -> execute a p = Ok p' -> X' (book u vk a l) p') ->
  triple (holds k X) (emit a) (fun _ => holds (S (phase a)) X').
Proof.
  intros Hk Hone Hfit HX s x s' (l & [Ht Hp Hb Hm Hr] & Hx) Hrun. apply emit_run in Hrun as (p' & Hex & Hp' & Ho).
  specialize (Hfit _ _ Hm Hx). pose proof (fits_admitted u vk _ _ _ Hm Hfit) as Had.
  assert (Hle : Forall (fun b => (phase b <= phase a)%nat) (flatten (t_out s))) by (eapply Forall_impl; [exact Hp|]; cbn; lia).
  exists (book u vk a l). split; [split|].
  - rewrite Ho. by apply push_action_typed.
  - rewrite Ho. eapply Forall_impl; [by apply flatten_push_le|]. cbn. lia.
  - rewrite Ho, (flatten_append (phase a)); [by apply books_snoc|done|done|done|].
    intros Hph. specialize (Hone Hph). eapply Forall_impl; [exact Hp|]. cbn. lia.
  - rewrite Hp'. by apply (mirrors_step u vk _ _ (t_pool s)).
  - intros r0 Hr0. rewrite Hp'. destruct Hm as [Hw Hu Hv _]. eapply (present_step u vk a r0 (t_pool s)); auto.
  - rewrite Hp'. by eapply HX.
Qed.

Lemma emit_subchannel_holds k r pk key i t sa (X X' : Ledger -> PoolSimulator -> Prop) (a := AOpenSubchannel r pk key i t sa) :
  (2 < k <= 6)%nat -> (forall l p, mirrors u vk l p -> X l p -> fits u vk a l p) ->
  (forall l p p', mirrors u vk l p -> X l p -> execute a p = Ok p' -> X' (book u vk a l) p') ->
  triple (holds k X) (emit a) (fun _ => holds k X').
Proof.
  intros Hk Hfit HX s x s' (l & [Ht Hp Hb Hm Hr] & Hx) Hrun. apply emit_run in Hrun as (p' & Hex & Hp' & Ho).
  specialize (Hfit _ _ Hm Hx). pose proof (fits_admitted u vk _ _ _ Hm Hfit) as Had.
  assert (Hle : Forall (fun b => (phase b <= k - 1)%nat) (flatten (t_out s))) by (eapply Forall_impl; [exact Hp|]; cbn; lia).
  exists (book u vk a l). split; [split|].
  - rewrite Ho. by apply push_action_typed.
  - rewrite Ho. eapply Forall_impl; [apply (flatten_push_le (k - 1)); [done|done|cbn; lia]|]. cbn. lia.
  - rewrite Ho. destruct (flatten_subchannel (k - 1) a (t_out s)) as (l1 & l2 & Hl & Hl2 & ->); [done|done|done|lia|].
    rewrite Hl in Hb. by apply books_insert_in.
  - rewrite Hp'. by apply (mirrors_step u vk _ _ (t_pool s)).
  - intros r0 Hr0. rewrite Hp'. destruct Hm as [Hw Hu Hv _]. eapply (present_step u vk a r0 (t_pool s)); auto.
  - rewrite Hp'. by eapply HX.
Qed.

(** A change of the simulator that keeps the channels. *)
Lemma with_pool_holds k (X : Ledger -> PoolSimulator -> Prop) f :
  (forall l p p', mirrors u vk l p -> X l p -> f p = Ok p' -> same_channels p p' /\ X l p') ->
  triple (holds k X) (with_pool f) (fun _ => holds k X).
Proof.
  intros Hf s x s' (l & [Ht Hp Hb Hm Hr] & Hx). unfold with_pool. destruct (f (t_pool s)) as [p'|e] eqn:Hrun; [|done].
  intros [= _ <-]. destruct (Hf _ _ _ Hm Hx Hrun) as [Hs' Hx']. exists l. split; [|done].
  split; [done|done|done|by eapply mirrors_same|]. intros r Hpr. destruct Hs' as (_ & _ & _ & Hc). cbn [t_pool]. rewrite Hc. auto.
Qed.
End Rules.

(** ** The phases of a batch *)

Section Batch.
Context `{StarkCrypto} `{Platform} `{!CollisionFree} (u vk : Z).

(** What is known while the batch is emitted: the recipients in [O] have open channels, those in [T] a token channel, and the
    notes of [N] whose keys are not in [D] can be spent. *)
Record known (O : Z -> Prop) (T : Z -> Z -> Prop) (N : list UseNoteAction) (D : list (Z * Z * Z)) (l : Ledger) (p : PoolSimulator) : Prop := {
  kn_curve : keys_on_curve l;
  kn_opened : forall r, O r -> opened r p;
  kn_ready : forall r t, T r t -> ready r t p;
  kn_notes : forall n, n ∈ N -> note_key n ∉ D -> spendable u vk n l }.

Lemma known_step O T N D a l p p' : mirrors u vk l p -> admitted u vk a l -> execute a p = Ok p' ->
  (phase a = 0%nat -> is_Ok (recoverPointFromX (derivePublicKey vk)) = true) ->
  known O T N D l p ->
  known O T N (match a with AUseNote k t i => D ++ [(k, t, i)] | _ => D end) (book u vk a l) p'.
Proof.
  intros [Hw Hu Hv _] Had Hrun Hcurve [Kc Ko Kr Kn].
  split.
  - by apply curve_step.
  - intros r Hr. eapply (opened_step u vk p p'); try done. by apply Ko.
  - intros r t Hr. eapply (ready_step u vk p p'); try done. by apply Kr.
  - intros n Hn Hd. apply (spendable_step u vk); [done| |].
    + intros k t i -> Heq. apply Hd. rewrite Heq. apply elem_of_app. right. by left.
    + apply Kn; [done|]. intros Hin. apply Hd. destruct a; try done. apply elem_of_app. by left.
Qed.

Lemma known_same O T N D l p p' : same_channels p p' -> known O T N D l p -> known O T N D l p'.
Proof.
  intros (_ & _ & _ & Hc) [Kc Ko Kr Kn]. split; [done| | |done]; unfold opened, ready in *; intros r; [|intros t]; rewrite Hc; auto.
Qed.

Context (l0 : Ledger) (pool : PoolSimulator) (options : ExecuteOptions) (poolAddress : Z) (N : list UseNoteAction).

(** The facts after the registration. *)
Definition planned (O : Z -> Prop) (T : Z -> Z -> Prop) (D : list (Z * Z * Z)) (l : Ledger) (p : PoolSimulator) : Prop :=
  known O T N D l p /\ registered u l.

Lemma planned_step O T D a l p p' : mirrors u vk l p -> admitted u vk a l -> execute a p = Ok p' -> phase a <> 0%nat ->
  planned O T D l p -> planned O T (match a with AUseNote k t i => D ++ [(k, t, i)] | _ => D end) (book u vk a l) p'.
Proof. intros Hm Had Hrun Hph [Hk Hr]. split; [by eapply known_step|by apply registered_step]. Qed.

Lemma planned_same O T D l p p' : same_channels p p' -> planned O T D l p -> planned O T D l p'.
Proof. intros Hs [Hk Hr]. split; [by eapply known_same|done]. Qed.

(** Emission of an action that fits wherever the facts hold. *)
Lemma emit_planned k O T D a : (k <= S (phase a))%nat -> (phase a = 0%nat \/ phase a = 7%nat \/ phase a = 8%nat -> k <= phase a)%nat -> phase a <> 0%nat ->
  (forall l p, mirrors u vk l p -> planned O T D l p -> fits u vk a l p) ->
  triple (holds u vk l0 pool k (planned O T D)) (emit a)
    (fun _ => holds u vk l0 pool (S (phase a)) (planned O T (match a with AUseNote k t i => D ++ [(k, t, i)] | _ => D end))).
Proof.
  intros Hk Hone Hph Hfit. apply emit_holds; [done|done|done|]. intros l p p' Hm Hx Had Hrun. by eapply planned_step.
Qed.

(** ** Opening channels *)

Section Opening.
Context (O : Z -> Prop) (T : Z -> Z -> Prop) (L : list Z).

(** The channels of [L] after those of [done] are closed. *)
Definition opening (done : list Z) (l : Ledger) (p : PoolSimulator) : Prop :=
  planned (fun r => O r \/ r ∈ done) T [] l p /\ counts u vk l p /\ forall r, r ∈ L -> r ∉ done -> closed r p.

Lemma emit_openChannel_holds done r : r ∈ L -> r ∉ done ->
  triple (holds u vk l0 pool 2 (opening done)) (emit_openChannel r) (fun _ => holds u vk l0 pool 2 (opening (done ++ [r]))).
Proof.
  intros Hin Hnew s x s' Hs Hrun. unfold emit_openChannel, channel_of, mbind at 1, stateE_bind at 1 in Hrun.
  destruct (getChannel r (t_pool s)) as [c|] eqn:Hget; [|done]. set (X := fun l p => opening done l p /\ p = t_pool s).
  assert (Hx : holds u vk l0 pool 2 X s) by (destruct Hs as (l & Hup & Ho); by exists l).
  unfold random, draw, mbind, stateE_bind, st_get in Hrun.
  set (a := AOpenChannel _ _ _ _) in Hrun. set (s2 := {| t_pool := _; t_out := _; t_draws := _ |}) in Hrun.
  assert (Hx2 : holds u vk l0 pool 2 X s2) by (destruct Hx as (l & [? ? ? ? ?] & Ho); by exists l).
  revert Hx2 Hrun. apply (emit_holds u vk l0 pool 2 a X (opening (done ++ [r]))); [cbn; lia|cbn; lia| |].
  - intros l p Hm [[[Hk Hreg] [Hc Hcl]] ->]. specialize (Hcl r Hin Hnew c Hget). exists c. split_and!; try done.
    apply (kn_curve _ _ _ _ _ _ Hk r). apply (cm_key u vk _ _ _ (mi_channels _ _ _ _ Hm r c Hget)).
  - intros l p p' Hm [[Hpl [Hc Hcl]] ->] Had Hex. pose proof Hm as [Hw Hu Hv _]. split_and!.
    + destruct (planned_step _ _ _ a l _ p' Hm Had Hex ltac:(done) Hpl) as [[Kc Ko Kr Kn] Hreg]. split; [split|]; try done.
      intros r' [Hr'|[Hr'|Hr']%elem_of_app]; [apply Ko; by left|apply Ko; by right|]. apply list_elem_of_singleton in Hr' as ->.
      unfold opened. rewrite (execute_channel u vk a r _ p') by done. unfold channel_after, a. cbn [about].
      rewrite decide_True, Hget by done. by eexists _, _.
    + apply (counts_step u vk a l (t_pool s)); [done|by intros ? ? ? ? [= _ <-]|done].
    + intros r' Hr' Hnot. apply not_elem_of_app in Hnot as [Hnot Hne]. rewrite list_elem_of_singleton in Hne.
      apply (closed_step u vk (t_pool s) p' Hw Hu Hv a); [done|right; by eexists r, _, _, _|]. by apply Hcl.
Qed.

Lemma opening_holds : NoDup L -> triple (holds u vk l0 pool 2 (opening [])) (st_for L emit_openChannel) (fun _ => holds u vk l0 pool 2 (opening L)).
Proof.
  intros Hnd. apply (triple_for_split (fun done => holds u vk l0 pool 2 (opening done))). intros done r rest Heq. apply emit_openChannel_holds.
  - rewrite Heq. apply elem_of_app. right. by left.
  - rewrite Heq in Hnd. apply NoDup_app in Hnd as (_ & Hnd & _). intros Hin. apply (Hnd r Hin). by left.
Qed.
End Opening.

(** ** Opening subchannels *)

Definition at_channel_of (r : Z) (c : Channel) (Q : Prop) (p : PoolSimulator) : Prop := getChannel r p = Some c /\ Q.

Lemma subchannel_holds k O T D r t force : (2 < k <= 6)%nat -> O r ->
  triple (holds u vk l0 pool k (planned O T D)) (transformOpenSubchannel options r t force)
    (fun c => holds u vk l0 pool k (fun l p => planned O T D l p /\ getChannel r p = Some c /\
      (force = true \/ autoSetup options = true \/ T r t -> am_has t (ch_tokens c) = true))).
Proof.
  intros Hk Hr s c s' Hs Hrun. unfold transformOpenSubchannel, channel_of, mbind at 1, stateE_bind at 1 in Hrun.
  destruct (getChannel r (t_pool s)) as [c0|] eqn:Hget; [|done].
  destruct (am_has t (ch_tokens c0)) eqn:Hhas.
  { injection Hrun as <- <-. destruct Hs as (l & Hup & Hx). by exists l. }
  destruct (negb force && negb (autoSetup options))%bool eqn:Hno.
  { injection Hrun as <- <-. destruct Hs as (l & Hup & Hx). exists l. split; [done|]. split_and!; [done|done|].
    apply andb_prop in Hno as [?%negb_true_iff ?%negb_true_iff]. intros [?|[?|Ht]]; [congruence|congruence|].
    destruct Hx as [[_ _ Kr _] _]. destruct (Kr r t Ht) as (c1 & Hget1 & Hhas1). congruence. }
  unfold random, draw, mbind, stateE_bind in Hrun. set (a := AOpenSubchannel _ _ _ _ _ _) in Hrun.
  set (s1 := {| t_pool := _; t_out := _; t_draws := _ |}) in Hrun.
  set (X := fun l p => planned O T D l p /\ p = t_pool s).
  assert (Hx : holds u vk l0 pool k X s1) by (destruct Hs as (l & [? ? ? ? ?] & Ho); by exists l).
  destruct (emit a s1) as [[[]|e] s2] eqn:He; [|done].
  set (X' := fun l p => planned O T D l p /\ exists c1, getChannel r p = Some c1 /\ am_has t (ch_tokens c1) = true).
  assert (Hx2 : holds u vk l0 pool k X' s2).
  { revert s1 Hx He. intros s1 Hx He. revert Hx He.
    apply (emit_subchannel_holds u vk l0 pool k r (ch_publicKey c0) (ch_key c0) (Z.of_nat (am_size (ch_tokens c0))) t _ X X'); [done| |].
    - intros l p Hm [[[_ Ko _ _] Hreg] ->]. destruct (Ko r Hr) as (c1 & key & Hget1 & Hkey). rewrite Hget in Hget1. injection Hget1 as <-.
      by exists c0, key.
    - intros l p p' Hm [Hpl ->] Hex. pose proof Hm as [Hw Hu Hv _]. split.
      + destruct Hpl as [[Kc Ko Kr Kn] Hreg]. pose proof (fits_admitted u vk a l (t_pool s) Hm) as Had.
        eapply (planned_step O T D a); try done.
        apply Had. destruct (Ko r Hr) as (c1 & key & Hget1 & Hkey). rewrite Hget in Hget1. injection Hget1 as <-. by exists c0, key.
      + rewrite (execute_channel u vk _ r _ p' Hw Hu Hv Hex). unfold channel_after. cbn [about]. rewrite decide_True, Hget by done.
        eexists. split; [done|]. cbn [with_tokens ch_tokens]. rewrite channel_has_set by (by eapply getChannel_wf). by rewrite bool_decide_eq_true_2. }
  unfold channel_of in Hrun. injection Hrun as <- <-. destruct Hx2 as (l & Hup & Hpl & c1 & Hget1 & Hhas1).
  exists l. rewrite Hget1. by split_and!.
Qed.

Lemma openTokenChannels_holds O D (L : list OpenTokenChannelAction) (T : Z -> Z -> Prop) : (forall o, o ∈ L -> O (otc_recipient o)) ->
  triple (holds u vk l0 pool 3 (planned O T D))
    (st_for L (fun a => _ ← transformOpenSubchannel options (otc_recipient a) (otc_token a) true; mret tt))
    (fun _ => holds u vk l0 pool 3 (planned O (fun r t => T r t \/ exists o, o ∈ L /\ r = otc_recipient o /\ t = otc_token o) D)).
Proof.
  intros HO. set (J := fun done : list OpenTokenChannelAction => holds u vk l0 pool 3 (planned O (fun r t => T r t \/ exists o, o ∈ done /\ r = otc_recipient o /\ t = otc_token o) D)).
  eapply triple_weaken; [|apply (triple_for J)|by intros ? s].
  - intros s. apply holds_mono; [done|]. intros l p _ [[Kc Ko Kr Kn] Hreg]. split; [split|]; try done.
    intros r t [Ht|(o & Ho & _)]; [by apply Kr|by apply elem_of_nil in Ho].
  - intros done o Ho. eapply triple_bind; [by apply subchannel_holds; [lia|apply HO]|]. intros c.
    eapply triple_weaken; [|apply (triple_ret tt (fun _ => J (done ++ [o])))|done].
    intros s. apply holds_mono; [done|]. intros l p _ [[[Kc Ko Kr Kn] Hreg] [Hget Hhas]]. split; [split|]; try done.
    intros r t [Ht|(o' & [Ho'| ->%list_elem_of_singleton]%elem_of_app & -> & ->)]; [apply Kr; by left|apply Kr; right; by exists o'|].
    exists c. split; [done|]. apply Hhas. by left.
Qed.

(** ** Deposits, notes, withdrawals *)

Lemma deposit_holds O T D d : triple (holds u vk l0 pool 4 (planned O T D)) (emit_deposit d) (fun _ => holds u vk l0 pool 4 (planned O T D)).
Proof. by apply (emit_planned 4 O T D (ADeposit (dep_token d) (dep_amount d))); [cbn; lia|cbn; lia|done|]. Qed.

Lemma useNote_holds O T D n : n ∈ N -> note_key n ∉ D ->
  triple (holds u vk l0 pool 5 (planned O T D)) (emit_useNote n) (fun _ => holds u vk l0 pool 5 (planned O T (D ++ [note_key n]))).
Proof.
  intros Hn Hd. unfold emit_useNote. eapply triple_bind.
  - apply with_pool_holds. intros l p p' Hm Hx. destruct (toBigInt (note_id (un_note n))) as [id|]; [|done].
    pose proof (mi_wf _ _ _ _ Hm) as Hw. pose proof (hasNote_same_channels (un_token n) id p Hw) as Hs1.
    destruct (hasNote (un_token n) id p) as [[] q]; cbn in Hs1.
    + intros <-%Ok_inj. split; [done|by eapply planned_same].
    + intros Hset. pose proof Hs1 as (Hq & _). pose proof (same_trans _ _ _ Hs1 (setupNote_same_channels _ _ _ _ Hq Hset)) as Hs.
      split; [done|by eapply planned_same].
  - intros ?. apply (emit_planned 5 O T D (useNote_action n)); [cbn; lia|cbn; lia|done|].
    intros l p Hm [[_ _ _ Kn] _]. apply (Kn n Hn Hd).
Qed.

Lemma useNotes_holds O T : NoDup (map note_key N) ->
  triple (holds u vk l0 pool 5 (planned O T [])) (st_for N emit_useNote) (fun _ => holds u vk l0 pool 5 (planned O T (map note_key N))).
Proof.
  intros Hnd. apply (triple_for_split (fun done => holds u vk l0 pool 5 (planned O T (map note_key done)))). intros done n rest Heq.
  rewrite map_app. apply useNote_holds; [rewrite Heq; apply elem_of_app; right; by left|].
  rewrite Heq, map_app in Hnd. apply NoDup_app in Hnd as (_ & Hnd & _). intros Hin. apply (Hnd _ Hin). by left.
Qed.

Lemma read_nonce_holds k X r t c : (forall l p p', same_channels p p' -> X l p -> X l p') ->
  triple (holds u vk l0 pool k (fun l p => X l p /\ getChannel r p = Some c /\ am_has t (ch_tokens c) = true)) (read_nonce r t c)
    (fun i => holds u vk l0 pool k (fun l p => X l p /\ getChannel r p = Some c /\ am_has t (ch_tokens c) = true /\ i = nonce_of t c)).
Proof.
  intros HX s i s' Hs Hrun. destruct Hs as (l & Hup & Hx & Hget & Hhas). pose proof Hup as [Ht Hp Hb Hm].
  pose proof (mi_wf _ _ _ _ Hm) as Hw. pose proof (getChannel_wf _ _ _ Hw Hget) as Hcw. unfold read_nonce in Hrun.
  rewrite tokens_get_eq in Hrun by done. pose proof Hcw as (Hc & _). unfold am_has in Hhas. rewrite Hc in Hhas. rewrite Hhas in Hrun.
  rewrite <- channel_wf_eq in Hrun by done. replace (with_tokens c (ch_tokens c)) with c in Hrun by (by destruct c).
  unfold mbind, stateE_bind, with_pool in Hrun. injection Hrun as <- <-. pose proof (put_same r c _ Hw Hget) as Hs.
  exists l. split; [split; [done|done|done|by eapply mirrors_same|]|].
  { intros r' Hpr. destruct Hs as (_ & _ & _ & Hch). cbn [t_pool]. rewrite Hch. auto. }
  cbn [t_pool]. split_and!.
  - by eapply HX.
  - destruct Hs as (_ & _ & _ & ->). done.
  - unfold am_has. by rewrite Hc.
  - by rewrite nonce_of_entry.
Qed.

Lemma createNote_holds O T D cn : O (cn_recipient cn) -> autoSetup options = true \/ T (cn_recipient cn) (cn_token cn) ->
  triple (holds u vk l0 pool 6 (planned O T D)) (emit_createNote options cn) (fun _ => holds u vk l0 pool 6 (planned O T D)).
Proof.
  intros Hr Ht. unfold emit_createNote. eapply triple_bind; [by apply subchannel_holds; [lia|]|]. intros c.
  set (r := cn_recipient cn) in *. set (t := cn_token cn) in *.
  set (X := fun l p => planned O T D l p).
  assert (Hread : triple (holds u vk l0 pool 6 (fun l p => planned O T D l p /\ getChannel r p = Some c /\
      (false = true \/ autoSetup options = true \/ T r t -> am_has t (ch_tokens c) = true))) (read_nonce r t c)
    (fun i => holds u vk l0 pool 6 (fun l p => X l p /\ getChannel r p = Some c /\ am_has t (ch_tokens c) = true /\ i = nonce_of t c))).
  { eapply triple_weaken; [|by apply (read_nonce_holds 6 X r t c), planned_same|done].
    intros s. apply holds_mono; [done|]. intros l p _ (Hx & Hget & Hhas). split_and!; [done|done|]. apply Hhas. by right. }
  assert (Hfits : forall i l p, mirrors u vk l p ->
            (X l p /\ getChannel r p = Some c /\ am_has t (ch_tokens c) = true /\ i = nonce_of t c) -> open_note_fits r (ch_publicKey c) t i p).
  { intros i l p Hm ([[_ Ko _ _] _] & Hget & Hhas & ->). destruct (Ko r Hr) as (c1 & key & Hget1 & Hkey). exists c, key.
    split_and!; try done. congruence. }
  destruct (cn_amount cn) as [amount|].
  all: eapply triple_bind; [exact Hread|]; intros i; eapply triple_bind; [apply draw_holds|]; intros x.
  - set (a := ACreateEncNote _ _ _ _ _ _). apply (emit_holds u vk l0 pool 6 a); [cbn; lia|cbn; lia|apply Hfits|].
    intros l p p' Hm (Hx & _) Had Hex. exact (planned_step O T D a l p p' Hm Had Hex ltac:(done) Hx).
  - set (a := ACreateOpenNote _ _ _ _ _). apply (emit_holds u vk l0 pool 6 a); [cbn; lia|cbn; lia|apply Hfits|].
    intros l p p' Hm (Hx & _) Had Hex. exact (planned_step O T D a l p p' Hm Had Hex ltac:(done) Hx).
Qed.

Lemma withdraw_holds O T D w : triple (holds u vk l0 pool 7 (planned O T D)) (emit_withdraw w) (fun _ => holds u vk l0 pool 7 (planned O T D)).
Proof.
  unfold emit_withdraw. eapply triple_bind; [apply draw_holds|]. intros x.
  by apply (emit_planned 7 O T D (AWithdraw (wd_recipient w) (wd_token w) (wd_amount w) x)); [cbn; lia|cbn; lia|done|].
Qed.

Lemma invoke_phase_holds O T D batch :
  triple (holds u vk l0 pool 7 (planned O T D)) (emit_invoke_phase poolAddress batch) (fun _ => holds u vk l0 pool 9 (planned O T D)).
Proof.
  assert (Hget : forall A (k : TransformState -> transforming A) Q, (forall s0, triple (holds u vk l0 pool 7 (planned O T D)) (k s0) Q) ->
            triple (holds u vk l0 pool 7 (planned O T D)) (st_get ≫= k) Q).
  { intros A k Q Hk s a s' Hs. apply (Hk s s a s' Hs). }
  unfold emit_invoke_phase. destruct (invoke batch) as [f|], (computeAndInvoke batch) as [g|].
  - apply triple_throw.
  - unfold emit_invoke. apply Hget. intros s0. do 4 (eapply triple_bind; [apply triple_lift|]; intros ?).
    eapply triple_weaken; [|eapply (emit_planned 7 O T D (AInvokeExternal _ _)); [cbn; lia|cbn; lia|done|done]|].
    + done.
    + intros ? s. by apply holds_mono; [cbn; lia|].
  - unfold emit_computeAndInvoke. apply Hget. intros s0. do 5 (eapply triple_bind; [apply triple_lift|]; intros ?).
    eapply triple_weaken; [|eapply (emit_planned 7 O T D (AComputeAndInvoke _ _ _)); [cbn; lia|cbn; lia|done|done]|].
    + done.
    + intros ? s. by apply holds_mono; [cbn; lia|].
  - eapply triple_weaken; [|apply (triple_ret tt (fun _ => holds u vk l0 pool 7 (planned O T D)))|].
    + done.
    + intros ? s. by apply holds_mono; [lia|].
Qed.
End Batch.

(** ** A whole batch *)

Lemma first_occurrences_spec seen l : NoDup (first_occurrences seen l) /\
  forall r, r ∈ first_occurrences seen l <-> (r ∉ seen) /\ r ∈ map oc_recipient l.
Proof.
  revert seen. induction l as [|a l IH]; intros seen; cbn [first_occurrences map].
  - split; [constructor|]. intros r. split; [by intros ?%elem_of_nil|by intros [_ ?%elem_of_nil]].
  - case_bool_decide as Hin.
    + destruct (IH seen) as [Hnd Hel]. split; [done|]. intros r. rewrite Hel, elem_of_cons. split; [tauto|].
      intros [Hn [->|?]]; tauto.
    + destruct (IH (oc_recipient a :: seen)) as [Hnd Hel]. split.
      * constructor; [|done]. rewrite Hel. intros [Hn _]. apply Hn. by left.
      * intros r. rewrite !elem_of_cons, Hel, elem_of_cons. destruct (decide (r = oc_recipient a)) as [->|]; tauto.
Qed.

Section Whole.
Context `{StarkCrypto} `{Platform} `{!CollisionFree} (u vk : Z) (options : ExecuteOptions) (poolAddress : Z).

(** What a batch must fit: the simulator and the ledger of the pool agree (the batch opens closed channels only, and then
    the simulator counts the outgoing channels), every recipient of a token channel or note has a channel or gets one, and the notes
    it uses are in the pool, unspent and different. A user who registers has no entry in the pool, nor has their channel to themselves. *)
Record acceptable_batch (batch : Actions) (l0 : Ledger) (pool : PoolSimulator) : Prop := {
  ab_mirrors : mirrors u vk l0 pool;
  ab_curve : keys_on_curve l0;
  ab_registration :
    match setViewingKey batch with
    | Some _ => is_Ok (recoverPointFromX (derivePublicKey vk)) = true /\ fits u vk (ASetViewingKey 0) l0 pool
    | None => registered u l0
    end;
  ab_counts : elems (openChannels batch) <> [] -> counts u vk l0 pool;
  ab_closed : forall o, o ∈ elems (openChannels batch) -> closed (oc_recipient o) pool;
  ab_recipients : forall r, r ∈ map otc_recipient (elems (openTokenChannels batch)) ++ map cn_recipient (elems (createNotes batch)) ->
    opened r pool \/ r ∈ map oc_recipient (elems (openChannels batch));
  ab_tokens : autoSetup options = true \/ forall c, c ∈ elems (createNotes batch) -> ready (cn_recipient c) (cn_token c) pool \/
    exists o, o ∈ elems (openTokenChannels batch) /\ cn_recipient c = otc_recipient o /\ cn_token c = otc_token o;
  ab_notes : forall n, n ∈ elems (useNotes batch) -> spendable u vk n l0;
  ab_distinct : NoDup (map note_key (elems (useNotes batch))) }.

Context (batch : Actions) (l0 : Ledger) (pool : PoolSimulator) (Hok : acceptable_batch batch l0 pool).

(** The state before the channels are opened. *)
Definition before_opening (l : Ledger) (p : PoolSimulator) : Prop :=
  planned u vk (elems (useNotes batch)) (fun r => opened r pool) (fun r t => ready r t pool) [] l p /\
  (elems (openChannels batch) <> [] -> counts u vk l p) /\
  (forall o, o ∈ elems (openChannels batch) -> closed (oc_recipient o) p).

Lemma registration_holds :
  triple (holds u vk l0 pool 0 (fun l p => l = l0 /\ p = pool)) (emit_setViewingKey batch) (fun _ => holds u vk l0 pool 1 before_opening).
Proof.
  destruct Hok as [Hm Hcv Hreg Hcnt Hcl _ _ Hn _].
  assert (Hk : known u vk (fun r => opened r pool) (fun r t => ready r t pool) (elems (useNotes batch)) [] l0 pool)
    by (split; [done|done|done|]; intros n Hin _; by apply Hn).
  unfold emit_setViewingKey. destruct (setViewingKey batch) as [svk|].
  - destruct Hreg as [Hcurve Hfit]. eapply triple_bind; [apply draw_holds|]. intros x.
    set (a := ASetViewingKey x). apply (emit_holds u vk l0 pool 0 a); [lia|cbn; lia|by intros l p _ [-> ->]|].
    intros l p p' _ [-> ->] Had Hex. split_and!.
    + split; [|unfold registered; cbn; by rewrite lookup_insert_eq]. by apply (known_step u vk _ _ _ _ a l0 pool p' Hm Had Hex).
    + intros Hne. apply (counts_step u vk a l0 pool); [by apply Hcnt|by intros ? ? ? ? [=]|done].
    + intros o Ho. pose proof Hm as [Hw Hu Hv _]. apply (closed_step u vk pool p' Hw Hu Hv a); [done|by left|by apply Hcl].
  - eapply triple_weaken; [|apply (triple_ret tt (fun _ => holds u vk l0 pool 0 (fun l p => l = l0 /\ p = pool)))|].
    + done.
    + intros ? s. apply holds_mono; [lia|]. intros l p _ [-> ->]. by split_and!.
Qed.

Lemma channels_holds :
  triple (holds u vk l0 pool 1 before_opening) (st_for (first_occurrences [] (elems (openChannels batch))) emit_openChannel)
    (fun _ => holds u vk l0 pool 2 (planned u vk (elems (useNotes batch)) (fun r => opened r pool \/ r ∈ map oc_recipient (elems (openChannels batch)))
       (fun r t => ready r t pool) [])).
Proof.
  destruct (first_occurrences_spec [] (elems (openChannels batch))) as [Hnd Hel].
  set (L := first_occurrences _ _) in *.
  destruct (decide (elems (openChannels batch) = [])) as [Hnil|Hne].
  - assert (HL : L = []) by (unfold L; by rewrite Hnil). rewrite HL.
    eapply triple_weaken; [|apply (triple_ret tt (fun _ => holds u vk l0 pool 1 before_opening))|].
    + done.
    + intros ? s. apply holds_mono; [lia|]. intros l p _ ([[Kc Ko Kr Kn] Hr] & _). split; [split|]; try done.
      rewrite Hnil. intros r [?|?%elem_of_nil]; [by apply Ko|done].
  - eapply triple_weaken; [|by apply (opening_holds u vk l0 pool (elems (useNotes batch)) (fun r => opened r pool) (fun r t => ready r t pool) L)|].
    + intros s. apply holds_mono; [lia|]. intros l p _ ([[Kc Ko Kr Kn] Hr] & Hc & Hcl). split_and!.
      * split; [split|]; try done. intros r [?|?%elem_of_nil]; [by apply Ko|done].
      * by apply Hc.
      * intros r [_ (o & -> & Ho)%list_elem_of_fmap]%Hel _. by apply Hcl.
    + intros ? s. apply holds_mono; [done|]. intros l p _ ([[Kc Ko Kr Kn] Hr] & _ & _). split; [split|]; try done.
      intros r [?|Hin]; [apply Ko; by left|apply Ko; right; apply Hel; split; [apply not_elem_of_nil|done]].
Qed.

Lemma emit_all_holds :
  triple (holds u vk l0 pool 0 (fun l p => l = l0 /\ p = pool)) (emit_all options poolAddress batch)
    (fun _ => holds u vk l0 pool 9 (fun l p => registered u l)).
Proof.
  pose proof (ab_recipients _ _ _ Hok) as Hrec. pose proof (ab_tokens _ _ _ Hok) as Htok. pose proof (ab_distinct _ _ _ Hok) as Hd.
  set (N := elems (useNotes batch)) in *. set (O := fun r => opened r pool \/ r ∈ map oc_recipient (elems (openChannels batch))).
  set (T := fun r t => ready r t pool \/ exists o, o ∈ elems (openTokenChannels batch) /\ r = otc_recipient o /\ t = otc_token o).
  assert (Hmono : forall j k O T D s, (j <= k)%nat -> holds u vk l0 pool j (planned u vk N O T D) s -> holds u vk l0 pool k (planned u vk N O T D) s)
    by (intros j k O' T' D s Hjk; by apply holds_mono).
  unfold emit_all. eapply triple_bind with (Q := fun _ => holds u vk l0 pool 7 (planned u vk N O T (map note_key N))).
  - unfold emit_batch. eapply triple_bind; [apply registration_holds|]. intros ?. eapply triple_bind; [apply channels_holds|]. intros ?.
    eapply triple_bind.
    { eapply triple_weaken; [intros s; apply (Hmono 2%nat 3%nat); lia|apply (openTokenChannels_holds u vk l0 pool options N O [] _ (fun r t => ready r t pool))|].
      - intros o Ho. apply Hrec, elem_of_app. left. by apply list_elem_of_fmap_2.
      - by intros ? s. }
    intros ?. eapply triple_bind.
    { eapply triple_weaken; [intros s; apply (Hmono 3%nat 4%nat); lia| |by intros ? s].
      apply (triple_for_inv (holds u vk l0 pool 4 (planned u vk N O T []))). intros d _. apply deposit_holds. }
    intros ?. eapply triple_bind.
    { eapply triple_weaken; [intros s; apply (Hmono 4%nat 5%nat); lia|by apply (useNotes_holds u vk l0 pool N O T)|by intros ? s]. }
    intros ?. eapply triple_bind.
    { eapply triple_weaken; [intros s; apply (Hmono 5%nat 6%nat); lia| |by intros ? s].
      apply (triple_for_inv (holds u vk l0 pool 6 (planned u vk N O T (map note_key N)))). intros c Hc. apply createNote_holds.
      - apply Hrec, elem_of_app. right. by apply list_elem_of_fmap_2.
      - destruct Htok as [Hauto|Htok]; [by left|right]. apply (Htok c Hc). }
    intros ?. eapply triple_weaken; [intros s; apply (Hmono 6%nat 7%nat); lia| |].
    + apply (triple_for_inv (holds u vk l0 pool 7 (planned u vk N O T (map note_key N)))). intros w _. apply withdraw_holds.
    + by intros ? s.
  - intros ?. eapply triple_weaken; [by intros s|apply invoke_phase_holds|].
    intros ? s. apply holds_mono; [done|]. by intros l p _ [_ Hr].
Qed.

(** The client actions of a batch that fits are booked by the pool, and the simulator mirrors it afterwards. *)
Lemma emitted_books n x s' :
  emit_all options poolAddress batch {| t_pool := pool; t_out := no_ClientActions; t_draws := n |} = (Ok x, s') ->
  exists l, books u vk (flatten (t_out s')) l0 l /\ mirrors u vk l (t_pool s') /\
    forall r, is_Some (getChannel r pool) -> is_Some (getChannel r (t_pool s')).
Proof.
  intros Hrun. assert (Hinit : holds u vk l0 pool 0 (fun l p => l = l0 /\ p = pool) {| t_pool := pool; t_out := no_ClientActions; t_draws := n |}).
  { exists l0. split; [|done]. split; [split_and!; constructor || done|constructor|done|by destruct Hok|done]. }
  destruct (emit_all_holds _ _ _ Hinit Hrun) as (l & [_ _ Hb Hm Hr] & _). by exists l.
Qed.
End Whole.
