(* ===== verification/Acceptance.v ===== *)
(** * What the compiler returns, the pool accepts

    The theorem of this file joins the parts of the compiler with the pool: the channels come from a registry and a discovery service that
    tell the truth about the pool, [createPool] builds a simulator that mirrors it, the settled and prepared batch fits,
    and so the pool's [compile_actions] accepts every client action that [compileOnce] returns; the registry it
    returns tells the truth about the pool after them. *)
From Stdlib Require Import ZArith Lia.
From stdpp Require Import base tactics list gmap.
From S2P Require Import Prelude JsMap Convert Crypto Encryptions Interfaces Channel PoolSimulator ResolveNotes Balancing Compiler Emission Indices MockPool PoolSafety PoolLedger PoolMirror EmissionAccepted Settlement.

(** ** Channels that tell the truth *)

Section Truth.
Context `{StarkCrypto} (u vk : Z).

(** A map of channels that shows what the ledger holds. *)
Record truthful_channels (l : Ledger) (m : AddressMap Channel) : Prop := {
  tc_converter : keyConverter m = (fun k => k);
  tc_wf : am_wf m;
  tc_channels : forall r c, map_get r (am_map m) = Some c -> channel_wf c /\ channel_mirrored u vk l r c }.

(** The number of outgoing channels of the user. *)
Definition counted (l : Ledger) (n : Z) : Prop :=
  0 <= n /\ forall i, 0 <= i -> compute_outgoing_channel_id u vk i ∈ lg_outgoing l <-> i < n.

(** What the compiler relies on in a discovery service. *)
Class TruthfulDiscovery `{DiscoveryProvider} (l : Ledger) : Prop := {
  td_channels : forall f b w cur w' m, discoverChannels u vk f b w = (Ok cur, w') -> cc_channels cur = Some m ->
    truthful_channels l m /\ defaultFactory m = None;
  td_total : forall f b w cur w' n, discoverChannels u vk f b w = (Ok cur, w') -> cc_total cur = Some n -> counted l n;
  td_count : forall b w cur w', discoverChannels u vk TotalOnly b w = (Ok cur, w') -> counted l (default 0 (cc_total cur)) }.

(** No channel key is zero: a zero key reads as a missing one. *)
Definition keys_nonzero : Prop := forall r pk, key_of u vk r pk <> 0.
Context (Hnz : keys_nonzero).

Lemma mirrored_truthy l r c : channel_mirrored u vk l r c -> truthy (ch_key c) = bool_decide (is_Some (ch_key c)).
Proof.
  intros Hm. pose proof (cm_open _ _ _ _ _ Hm) as Co. destruct (ch_key c) as [k|]; [|done]. destruct Co as [-> _].
  rewrite bool_decide_eq_true_2 by done. cbn [truthy]. by rewrite (proj2 (Z.eqb_neq _ _) (Hnz r (ch_publicKey c))).
Qed.

(** [setupChannel] stores a truthful channel as it is. *)
Lemma setup_mirrored l r c p : channel_wf c -> channel_mirrored u vk l r c -> setupChannel r c p = put_channel r c p.
Proof.
  intros Hw Hm. rewrite setupChannel_eq by done. rewrite (mirrored_truthy l r c Hm). destruct (ch_key c) as [k|] eqn:Hk; [done|]. cbn.
  f_equal. pose proof (cm_closed _ _ _ _ _ Hm Hk) as Hn. pose proof (channel_wf_eq c Hw) as Ht. destruct c as [pk key toks]. cbn in *.
  by rewrite Hk, Ht, Hn.
Qed.

(** Setting up the channels of a map, but for those that are skipped. *)
Lemma fold_setup l (skip : Z -> bool) entries p : map_wf entries -> pool_wf p ->
  (forall r c, map_get r entries = Some c -> channel_wf c /\ channel_mirrored u vk l r c) ->
  let q := fold_left (fun p e => if skip e.1 then p else setupChannel e.1 e.2 p) entries p in
  pool_wf q /\ p_userAddress q = p_userAddress p /\ p_userViewingKey q = p_userViewingKey p /\ p_nextChannelIndex q = p_nextChannelIndex p /\
  forall r, getChannel r q = match map_get r entries with Some c => if skip r then getChannel r p else Some c | None => getChannel r p end.
Proof.
  revert p. induction entries as [|[r0 c0] entries IH]; intros p Hnd Hw Hc; [done|]. cbn [fold_left fst snd].
  unfold map_wf in Hnd. apply NoDup_cons in Hnd as [Hnin Hnd].
  assert (Hc0 : channel_wf c0 /\ channel_mirrored u vk l r0 c0) by (apply Hc; cbn; by rewrite decide_True).
  assert (Hrest : forall r c, map_get r entries = Some c -> channel_wf c /\ channel_mirrored u vk l r c).
  { intros r c Hr. apply Hc. cbn. case_decide as Hr0; [|done]. subst r. apply map_get_in in Hr. destruct Hnin. apply list_elem_of_fmap. by exists (r0, c). }
  assert (Hnone : map_get r0 entries = None) by by apply map_get_None.
  destruct Hc0 as [Hcw Hcm]. rewrite (setup_mirrored l r0 c0 p Hcw Hcm).
  assert (Hw1 : pool_wf (if skip r0 then p else put_channel r0 c0 p)) by (destruct (skip r0); [done|by apply put_channel_wf]).
  destruct (IH _ Hnd Hw1 Hrest) as (Q1 & Q2 & Q3 & Q4 & Q5). split_and!; [done|by rewrite Q2; destruct (skip r0)|by rewrite Q3; destruct (skip r0)|by rewrite Q4; destruct (skip r0)|].
  assert (Hone : forall r, getChannel r (if skip r0 then p else put_channel r0 c0 p)
            = if decide (r = r0) then (if skip r then getChannel r p else Some c0) else getChannel r p).
  { intros r. destruct (decide (r = r0)) as [->|Hne]; destruct (skip _); try done; rewrite getChannel_put by done;
      [by rewrite decide_True|by rewrite decide_False by congruence]. }
  intros r. rewrite Q5, Hone. cbn [map_get]. destruct (decide (r = r0)) as [->|Hne]; [by rewrite Hnone|]. done.
Qed.

(** Setting up notes keeps the channels. *)
Lemma fold_notes (entries : list (Z * list Note)) p q : pool_wf p ->
  fold_result (fun p e => fold_result (fun p note => setupNote e.1 note p) e.2 p) entries p = Ok q ->
  same_channels p q /\ p_nextChannelIndex q = p_nextChannelIndex p.
Proof.
  assert (Hinner : forall t notes p q, pool_wf p -> fold_result (fun p note => setupNote t note p) notes p = Ok q ->
            same_channels p q /\ p_nextChannelIndex q = p_nextChannelIndex p).
  { intros t notes. induction notes as [|n notes IH]; intros p0 q0 Hw; cbn [fold_result].
    - intros <-%Ok_inj. by split_and!.
    - intros (p1 & Hp1 & Hrun)%bind_ok. pose proof (setupNote_same_channels _ _ _ _ Hw Hp1) as Hs. pose proof Hs as (Hw1 & _).
      destruct (IH _ _ Hw1 Hrun) as [Hs2 Hn2]. destruct (setupNote_same _ _ _ _ Hw Hp1) as (_ & Hn1 & _).
      split; [by eapply same_trans|congruence]. }
  revert p. induction entries as [|[t notes] entries IH]; intros p Hw; cbn [fold_result].
  - intros <-%Ok_inj. by split_and!.
  - intros (p1 & Hp1 & Hrun)%bind_ok. destruct (Hinner _ _ _ _ Hw Hp1) as [Hs Hn]. pose proof Hs as (Hw1 & _).
    destruct (IH _ Hw1 Hrun) as [Hs2 Hn2]. split; [by eapply same_trans|congruence].
Qed.

(** ** The simulator the compiler starts from *)

(** The channel the compiler knows for a recipient: the discovered one, else the registry's. *)
Definition known_channel (channels : option (AddressMap Channel)) (reg : AddressMap Channel) (r : Z) : option Channel :=
  match (m ← channels; map_get r (am_map m)) with Some c => Some c | None => map_get r (am_map reg) end.

Lemma createPool_mirrors l registry channels total pool : truthful_channels l (reg_channels registry) ->
  (forall m, channels = Some m -> truthful_channels l m) -> createPool u vk registry channels total = Ok pool ->
  mirrors u vk l pool /\ p_nextChannelIndex pool = default 0 total /\
  forall r, getChannel r pool = known_channel channels (reg_channels registry) r.
Proof.
  intros Hreg Hch. unfold createPool. set (p0 := new_PoolSimulator u vk (default 0 total)).
  set (entries := default [] (am_entries <$> channels)).
  assert (He : map_wf entries /\ (forall r c, map_get r entries = Some c -> channel_wf c /\ channel_mirrored u vk l r c)).
  { unfold entries. destruct channels as [m|]; [|split; [apply NoDup_nil_2|done]]. destruct (Hch m eq_refl) as [_ Hw Hc]. by split. }
  destruct He as [Hew Hec]. destruct (fold_setup l (fun _ => false) entries p0 Hew (new_pool_wf _ _ _) Hec) as (P1 & P2 & P3 & P4 & P5).
  set (p1 := fold_left (fun p e => setupChannel e.1 e.2 p) entries p0) in *.
  change (fold_left (fun p e => if false then p else setupChannel e.1 e.2 p) entries p0) with p1 in *.
  set (skip := fun r => default false (am_has r <$> channels)).
  destruct Hreg as [Hrk Hrw Hrc]. destruct (fold_setup l skip (am_entries (reg_channels registry)) p1 Hrw P1 Hrc) as (Q1 & Q2 & Q3 & Q4 & Q5).
  set (p2 := fold_left (fun p e => if skip e.1 then p else setupChannel e.1 e.2 p) (am_entries (reg_channels registry)) p1) in *.
  intros Hrun. change (fold_result (fun p e => fold_result (fun p note => setupNote e.1 note p) e.2 p) (am_entries (reg_notes registry)) p2 = Ok pool) in Hrun.
  destruct (fold_notes _ _ _ Q1 Hrun) as [(S1 & S2 & S3 & S4) S5].
  assert (Hget : forall r, getChannel r pool = known_channel channels (reg_channels registry) r).
  { intros r. rewrite S4, Q5. unfold known_channel, am_entries. rewrite !P5. change (getChannel r p0) with (@None Channel).
    unfold entries, skip. destruct channels as [m|]; cbn [fmap option_fmap option_map default mbind option_bind].
    - destruct (Hch m eq_refl) as [Hk _ _]. unfold am_entries, am_has, map_has. rewrite Hk. cbn.
      by destruct (map_get r (am_map (reg_channels registry))), (map_get r (am_map m)).
    - cbn. by destruct (map_get r (am_map (reg_channels registry))). }
  split_and!; [|by rewrite S5, Q4, P4|done]. split; [done|by rewrite S2, Q2, P2|by rewrite S3, Q3, P3|].
  intros r c. rewrite Hget. unfold known_channel. destruct channels as [m|]; cbn [mbind option_bind]; [|apply Hrc].
  destruct (map_get r (am_map m)) as [c'|] eqn:Hm; [|apply Hrc]. intros [= <-]. by apply (tc_channels _ _ (Hch m eq_refl)).
Qed.
End Truth.

(** ** The resolution of the channels *)

Section Resolve.
Context `{StarkCrypto} `{DiscoveryProvider} (u vk : Z) (l : Ledger) `{!TruthfulDiscovery u vk l}.

Definition open_in (channels : option (AddressMap Channel)) (r : Z) : Prop :=
  exists m c k, channels = Some m /\ map_get r (am_map m) = Some c /\ ch_key c = Some k.

(** [allOpen] of a map without a default factory changes nothing and answers as it says. *)
Lemma allOpen_spec m recipients : keyConverter m = (fun k => k) -> defaultFactory m = None ->
  (allOpen (Some m) recipients).2 = Some m /\ ((allOpen (Some m) recipients).1 = true -> forall r, r ∈ recipients -> open_in (Some m) r).
Proof.
  intros Hk Hf. induction recipients as [|r recipients IH]; cbn [allOpen]; [split; [done|]; by intros _ r ?%elem_of_nil|].
  assert (Hg : am_get r None m = (map_get r (am_map m), m)).
  { unfold am_get. rewrite Hk, Hf. by destruct (map_has r (am_map m)). }
  rewrite Hg. destruct (bool_decide_reflect (is_Some (map_get r (am_map m) ≫= ch_key))) as [[k Hopen]|]; [|by split].
  destruct IH as [I1 I2]. split; [done|]. intros Hall r' [->|Hr']%elem_of_cons; [|by apply I2].
  destruct (map_get r (am_map m)) as [c|] eqn:Hc; [|done]. by exists m, c, k.
Qed.

(** What the resolution knows when it returns: truthful channels, and the number of the outgoing channels, unless
    nobody needs a channel opened, but for the recipients that only the registry has. *)
Lemma resolveRecipientChannels_spec a o registry needed w channels total w' :
  resolveRecipientChannels u vk a o registry needed w = (Ok (channels, total), w') ->
  (forall m, channels = Some m -> truthful_channels u vk l m) /\
  (counted u vk l (default 0 total) \/ (elems (openChannels a) = [] /\ autoSetup o = false) \/
    forall r, r ∈ am_keys needed ->
      open_in channels r \/ (autoDiscover_channels o <> Some refresh /\ am_has r (reg_channels registry) = true)).
Proof.
  unfold resolveRecipientChannels. set (L := recipientsToDiscover o registry needed).
  assert (HL : forall r, r ∈ am_keys needed -> r ∈ L \/ (autoDiscover_channels o <> Some refresh /\ am_has r (reg_channels registry) = true)).
  { intros r Hr. unfold L, recipientsToDiscover. case_bool_decide as Hre; [by left|].
    destruct (am_has r (reg_channels registry)) eqn:Hh; [by right|left]. by apply list_elem_of_filter. }
  destruct (bool_decide (autoDiscover_channels o = None) && _ && negb (autoSetup o))%bool eqn:Hskip.
  { intros Heq. injection Heq as <- <- <-. split; [done|]. right. left.
    apply andb_prop in Hskip as [[_ Ho]%andb_prop Hs]. apply negb_true_iff in Ho, Hs. split; [|done]. by destruct (elems (openChannels a)). }
  clearbody L. destruct L as [|r0 L].
  { intros Heq. injection Heq as <- <- <-. split; [done|]. right. right. intros r Hr.
    destruct (HL r Hr) as [?%elem_of_nil|?]; [done|by right]. }
  unfold mbind, stateE_bind. destruct (discoverChannels u vk (Recipients (r0 :: L)) (provingBlockId o) w) as [[cursor|e] w1] eqn:Hd; [|done].
  assert (Hch : (allOpen (cc_channels cursor) (r0 :: L)).2 = cc_channels cursor /\
            ((allOpen (cc_channels cursor) (r0 :: L)).1 = true -> forall r, r ∈ r0 :: L -> open_in (cc_channels cursor) r)).
  { destruct (cc_channels cursor) as [m|] eqn:Hm; [|done]. destruct (td_channels u vk _ _ _ _ _ m Hd Hm) as [[Hk _ _] Hf]. by apply allOpen_spec. }
  assert (Htr : forall m, cc_channels cursor = Some m -> truthful_channels u vk l m) by (intros m Hm; by apply (td_channels u vk _ _ _ _ _ m Hd Hm)).
  destruct (allOpen (cc_channels cursor) (r0 :: L)) as [open chs]. cbn [fst snd] in Hch. destruct Hch as [-> Hall]. destruct open.
  { intros Heq. injection Heq as <- <- <-. split; [done|]. right. right. intros r Hr.
    destruct (HL r Hr) as [?|?]; [left; by apply Hall|by right]. }
  destruct (cc_total cursor) as [n|] eqn:Hn.
  { intros Heq. injection Heq as <- <- <-. split; [done|]. left. by apply (td_total u vk _ _ _ _ _ _ Hd). }
  destruct (discoverChannels u vk TotalOnly (provingBlockId o) w1) as [[cur2|e] w2] eqn:Hd2; [|done].
  intros Heq. injection Heq as <- <- <-. split; [done|]. left. apply (td_count u vk _ _ _ _ Hd2).
Qed.
End Resolve.

(** ** The recipients of a batch *)

Lemma add_needed (l : list Z) (m : AddressMap bool) : keyConverter m = (fun k => k) ->
  let m' := fold_left (fun m r => am_set r true m) l m in
  keyConverter m' = (fun k => k) /\ forall r, r ∈ l \/ r ∈ am_keys m -> r ∈ am_keys m'.
Proof.
  revert m. induction l as [|r0 l IH]; intros m Hk; cbn [fold_left]; [split; [done|]; by intros r [?%elem_of_nil|]|].
  destruct (IH (am_set r0 true m)) as [Hk' Hin]; [done|]. split; [done|]. intros r Hr. apply Hin.
  assert (Hset : forall x, x = r0 \/ x ∈ am_keys m -> x ∈ am_keys (am_set r0 true m)).
  { intros x Hx. unfold am_keys, am_set, with_map. cbn [am_map]. rewrite Hk, map_keys_set. destruct (map_has r0 (am_map m)) eqn:Hh.
    - destruct Hx as [->|?]; [by apply map_has_true|done].
    - apply elem_of_app. destruct Hx as [->|?]; [right; by left|by left]. }
  destruct Hr as [[->|?]%elem_of_cons|?]; [right; apply Hset; by left|by left|right; apply Hset; by right].
Qed.

Lemma needed_recipients u a :
  let needed := am_keys (getRecipientsNeeded u a) in
  u ∈ needed /\ (forall x, x ∈ elems (openChannels a) -> oc_recipient x ∈ needed) /\
  (forall x, x ∈ elems (openTokenChannels a) -> otc_recipient x ∈ needed) /\
  (forall x, x ∈ elems (createNotes a) -> cn_recipient x ∈ needed) /\ (forall x, x ∈ elems (surpluses a) -> sp_recipient x ∈ needed).
Proof.
  unfold getRecipientsNeeded. cbn beta zeta.
  destruct (add_needed (map oc_recipient (elems (openChannels a))) (new_AddressMap None [(u, true)]) eq_refl) as [K1 I1].
  destruct (add_needed (map otc_recipient (elems (openTokenChannels a))) _ K1) as [K2 I2].
  destruct (add_needed (map cn_recipient (elems (createNotes a))) _ K2) as [K3 I3].
  destruct (add_needed (map sp_recipient (elems (surpluses a))) _ K3) as [K4 I4].
  split_and!.
  - apply I4; right; apply I3; right; apply I2; right; apply I1; right. by left.
  - intros x Hx. apply I4; right; apply I3; right; apply I2; right; apply I1; left. by apply list_elem_of_fmap_2.
  - intros x Hx. apply I4; right; apply I3; right; apply I2; left. by apply list_elem_of_fmap_2.
  - intros x Hx. apply I4; right; apply I3; left. by apply list_elem_of_fmap_2.
  - intros x Hx. apply I4; left. by apply list_elem_of_fmap_2.
Qed.

(** What [resolveNotes] leaves alone, and the recipients it may add notes for. *)
Section Kept.
Context `{DiscoveryProvider} (u vk : Z) (o : ExecuteOptions) (R : list Z) (Hu : u ∈ R) (a0 : Actions) (channels : AddressMap Channel).

Record resolve_kept (s : ResolveState) : Prop := {
  rk_registry : reg_channels (rs_registry s) = channels;
  rk_openChannels : openChannels (rs_actions s) = openChannels a0;
  rk_openTokenChannels : openTokenChannels (rs_actions s) = openTokenChannels a0;
  rk_notes : forall c, c ∈ elems (createNotes (rs_actions s)) -> cn_recipient c ∈ R;
  rk_surpluses : forall c, c ∈ elems (surpluses (rs_actions s)) -> sp_recipient c ∈ R }.

Lemma modify_actions_kept f : (forall s, resolve_kept s -> resolve_kept {| rs_actions := f (rs_actions s); rs_registry := rs_registry s; rs_world := rs_world s |}) ->
  triple resolve_kept (modify_actions f) (fun _ => resolve_kept).
Proof. intros Hf s a s' Hs. intros [= _ <-]. by apply Hf. Qed.

Lemma registry_notes_kept t : triple resolve_kept (registry_notes t) (fun _ => resolve_kept).
Proof.
  intros s a s' [? ? ? ? ?]. unfold registry_notes. destruct (am_get t None (reg_notes (rs_registry s))). by intros [= _ <-].
Qed.

Lemma discover_notes_kept b : triple resolve_kept (discover_notes u vk o b) (fun _ => resolve_kept).
Proof.
  unfold discover_notes. destruct (autoDiscover_notes o) as [level|]; [|apply (triple_ret tt (fun _ => resolve_kept))].
  assert (Hd : forall tokens, triple resolve_kept (discover_into_registry u vk o tokens) (fun _ => resolve_kept)).
  { intros tokens s a s' [? ? ? ? ?]. unfold discover_into_registry. destruct (discoverNotes _ _ _ _ _ _) as [[[notes cursor]|e] w]; [|done].
    by intros [= _ <-]. }
  intros s a s' Hs. unfold mbind, stateE_bind, st_get.
  destruct (tokensToDiscover _ _ _ _ _) as [[|t tokens]|]; [|by apply Hd..]. by intros [= _ <-].
Qed.

Lemma find_surplus_kept t b : triple resolve_kept (find_surplus u t b) (fun sp s => resolve_kept s /\ sp_recipient sp ∈ R).
Proof.
  intros s sp s' Hs. unfold find_surplus, mbind, stateE_bind, st_get. destruct (find _ _) as [x|] eqn:Hf.
  - intros [= <- <-]. split; [done|]. apply find_some in Hf as [Hin _]. apply (rk_surpluses s Hs). by apply list_elem_of_In.
  - destruct (existsb _ _); [|done]. unfold modify_actions, st_modify. intros [= <- <-]. split; [|done].
    destruct Hs as [? ? ? ? Hsp]. split; try done. cbn. intros c [Hc| ->%list_elem_of_singleton]%elem_of_app; [by apply Hsp|done].
Qed.

Lemma settle_surplus_kept t b : triple resolve_kept (settle_surplus u t b) (fun _ => resolve_kept).
Proof.
  unfold settle_surplus. eapply triple_bind; [apply find_surplus_kept|]. intros sp s a s' [Hs Hsp]. destruct (default false (sp_withdraw sp)).
  - apply modify_actions_kept; [|done]. by intros s0 [? ? ? ? ?].
  - apply modify_actions_kept; [|done]. intros s0 [? ? ? Hc ?]. split; try done. cbn.
    intros c [Hin| ->%list_elem_of_singleton]%elem_of_app; [by apply Hc|done].
Qed.

Lemma cover_deficit_kept used t b : triple resolve_kept (cover_deficit o used t b) (fun _ => resolve_kept).
Proof.
  unfold cover_deficit. destruct (selects o b); [|apply (triple_ret b (fun _ => resolve_kept))].
  eapply triple_bind; [apply registry_notes_kept|]. intros notes. destruct (select_notes _ _ _ _) as [picked b'].
  eapply triple_bind; [apply modify_actions_kept; by intros s0 [? ? ? ? ?]|]. intros ?. apply (triple_ret b' (fun _ => resolve_kept)).
Qed.

Lemma resolveNotes_kept : triple resolve_kept (resolveNotes u vk o) (fun _ => resolve_kept).
Proof.
  intros s a s' Hs. unfold resolveNotes, mbind at 1, stateE_bind at 1, st_get. destruct (_ && _)%bool; [by intros [= _ <-]|].
  revert s a s' Hs. intros s. generalize (rs_actions s) at 1 2. intros acts a s' Hs. revert s a s' Hs.
  change (triple resolve_kept (balances ← st_lift (action_balances acts); _ ← discover_notes u vk o balances;
    st_for (am_entries balances) (resolve_token u o (used_note_ids acts))) (fun _ => resolve_kept)).
  eapply triple_bind; [apply triple_lift|]. intros b. eapply triple_bind; [apply discover_notes_kept|]. intros ?.
  apply triple_for_inv. intros [t bal] _. unfold resolve_token. eapply triple_bind; [apply cover_deficit_kept|]. intros bal'.
  destruct (bal' <? 0).
  - eapply triple_bind; [apply registry_notes_kept|]. intros ?. apply triple_throw.
  - destruct (0 <? bal'); [apply settle_surplus_kept|apply (triple_ret tt (fun _ => resolve_kept))].
Qed.
End Kept.

(** ** The prepared batch *)

Lemma addOpenChannel_spec r a :
  (forall x, x ∈ elems (openChannels (addOpenChannel r a)) -> x ∈ elems (openChannels a) \/ oc_recipient x = r) /\
  r ∈ map oc_recipient (elems (openChannels (addOpenChannel r a))) /\
  (forall x, x ∈ elems (openChannels a) -> x ∈ elems (openChannels (addOpenChannel r a))).
Proof.
  unfold addOpenChannel. cbn. destruct (existsb _ _) eqn:Hex.
  - split_and!; [auto| |auto]. apply existsb_exists in Hex as (x & Hin & Heq%Z.eqb_eq). rewrite <- Heq.
    by apply list_elem_of_fmap_2, list_elem_of_In.
  - split_and!.
    + intros x [?| ->%list_elem_of_singleton]%elem_of_app; [by left|by right].
    + rewrite elems_Some, map_app. apply elem_of_app. right. by left.
    + intros x Hx. rewrite elems_Some. apply elem_of_app. by left.
Qed.

Section Prepared.
Context `{Platform} (u : Z) (o : ExecuteOptions) (pool : PoolSimulator) (needed : AddressMap bool) (a : Actions) (Hsetup : autoSetup o = true).

(** The channels a prepared batch opens: those asked for, the user's own when they register, and those that the batch
    needs and the simulator does not have open; and every recipient that needs a channel gets one. *)
Lemma prepareActions_spec (a' := prepareActions u o pool needed a) :
  openTokenChannels a' = openTokenChannels a /\
  (forall x, x ∈ elems (openChannels a') -> x ∈ elems (openChannels a) \/ (oc_recipient x = u /\ setViewingKey a' <> None) \/
     (oc_recipient x ∈ am_keys needed /\ unopened (getChannel (oc_recipient x) pool) = true)) /\
  (forall r, r ∈ am_keys needed -> unopened (getChannel r pool) = true -> r ∈ map oc_recipient (elems (openChannels a'))).
Proof.
  unfold a', prepareActions. rewrite Hsetup. set (registered := match getChannel u pool with Some _ => _ | None => _ end).
  set (a1 := if (autoRegister o && negb registered)%bool then _ else a).
  set (a2 := if (bool_decide (is_Some (setViewingKey a1)) && true)%bool then addOpenChannel u a1 else a1).
  assert (H2 : openTokenChannels a2 = openTokenChannels a /\
            forall x, x ∈ elems (openChannels a2) -> x ∈ elems (openChannels a) \/ (oc_recipient x = u /\ setViewingKey a2 <> None)).
  { assert (H1 : openTokenChannels a1 = openTokenChannels a /\ openChannels a1 = openChannels a) by (unfold a1; by destruct (_ && _)%bool).
    destruct H1 as [Ht Ho]. unfold a2. destruct (bool_decide_reflect (is_Some (setViewingKey a1))) as [Hs|Hs]; cbn [andb].
    - split; [done|]. intros x [Hx|Hx]%addOpenChannel_spec; [rewrite Ho in Hx; by left|right]. split; [done|]. cbn. by destruct Hs as [? ->].
    - rewrite Ho. auto. }
  destruct H2 as [Ht Ho]. clearbody a2.
  set (step := fun acts r => if (unopened (getChannel r pool) && true)%bool then addOpenChannel r acts else acts).
  assert (Hstep : forall acts r, openTokenChannels (step acts r) = openTokenChannels acts /\ setViewingKey (step acts r) = setViewingKey acts)
    by (intros acts r; unfold step; by destruct (_ && true)%bool).
  assert (Hgen : forall l acts, let acts' := fold_left step l acts in
            openTokenChannels acts' = openTokenChannels acts /\ setViewingKey acts' = setViewingKey acts /\
            (forall x, x ∈ elems (openChannels acts') -> x ∈ elems (openChannels acts) \/ (oc_recipient x ∈ l /\ unopened (getChannel (oc_recipient x) pool) = true)) /\
            (forall r, (r ∈ l /\ unopened (getChannel r pool) = true) \/ r ∈ map oc_recipient (elems (openChannels acts)) ->
              r ∈ map oc_recipient (elems (openChannels acts')))).
  { induction l as [|r0 l IH]; intros acts; cbn [fold_left].
    - split_and!; [done|done|auto|]. intros r [[?%elem_of_nil _]|?]; done.
    - destruct (IH (step acts r0)) as (I1 & I2 & I3 & I4). destruct (Hstep acts r0) as [S1 S2]. rewrite S1 in I1. rewrite S2 in I2.
      destruct (addOpenChannel_spec r0 acts) as (A1 & A2 & A3). split_and!; [done|done| |].
      + intros x [Hx|[Hx Hun]]%I3; [|right; split; [by right|done]]. unfold step in Hx. destruct (unopened (getChannel r0 pool)) eqn:Hun; cbn in Hx; [|by left].
        apply A1 in Hx as [?|Heq]; [by left|right]. rewrite Heq. split; [by left|done].
      + intros r Hr. apply I4. destruct Hr as [[[->|Hin]%elem_of_cons Hun]|Hin]; [right|by left|right].
        * unfold step. by rewrite Hun.
        * unfold step. destruct (unopened (getChannel r0 pool)); [|done]. cbn.
          apply list_elem_of_fmap in Hin as (x & -> & Hx). by apply list_elem_of_fmap_2, A3. }
  destruct (Hgen (am_keys needed) a2) as (G1 & G2 & G3 & G4). fold step. split_and!.
  - by rewrite G1, Ht.
  - intros x [Hx|Hx]%G3; [|by right; right]. destruct (Ho x Hx) as [?|[? ?]]; [by left|right; left]. by rewrite G2.
  - intros r Hr Hun. apply G4. by left.
Qed.
End Prepared.

(** ** The registry after the batch *)

Lemma fold_am_set_get {V} (entries : list (Z * V)) (m : AddressMap V) : keyConverter m = (fun k => k) -> map_wf entries -> am_wf m ->
  let m' := fold_left (fun m e => am_set e.1 e.2 m) entries m in
  keyConverter m' = (fun k => k) /\ am_wf m' /\
  forall r, map_get r (am_map m') = match map_get r entries with Some v => Some v | None => map_get r (am_map m) end.
Proof.
  revert m. induction entries as [|[r0 v0] entries IH]; intros m Hk Hnd Hw; [done|]. cbn [fold_left fst snd].
  unfold map_wf in Hnd. apply NoDup_cons in Hnd as [Hnin Hnd].
  destruct (IH (am_set r0 v0 m) Hk Hnd) as (I1 & I2 & I3); [by apply map_set_wf|]. split_and!; [done|done|].
  intros r. rewrite I3. cbn [map_get]. unfold am_set, with_map. cbn [am_map]. rewrite Hk, map_get_set.
  destruct (decide (r = r0)) as [->|]; [|done]. by rewrite (proj2 (map_get_None r0 entries) Hnin).
Qed.

Section Registry.
Context `{StarkCrypto} (u vk : Z).

Lemma updateRegistry_truthful l registry pool p : keyConverter (reg_channels registry) = (fun k => k) -> am_wf (reg_channels registry) ->
  mirrors u vk l p -> (forall r, is_Some (getChannel r pool) -> is_Some (getChannel r p)) ->
  (forall r, is_Some (map_get r (am_map (reg_channels registry))) -> is_Some (getChannel r pool)) ->
  truthful_channels u vk l (reg_channels (updateRegistry registry p)).
Proof.
  intros Hk Hw [Mw Mu Mv Mc] Hpres Hreg. pose proof Mw as (_ & _ & Hcw & _). cbn [updateRegistry reg_channels].
  destruct (fold_am_set_get (am_entries (p_channels p)) (reg_channels registry) Hk Hcw Hw) as (F1 & F2 & F3).
  split; [done|done|]. intros r c. rewrite F3. unfold am_entries. rewrite <- getChannel_eq by done.
  destruct (getChannel r p) as [c'|] eqn:Hc.
  - intros [= <-]. split; [by eapply getChannel_wf|by apply Mc].
  - intros Hr. destruct (Hpres r) as [c' Hc']; [|congruence]. apply Hreg. by eexists.
Qed.
End Registry.

(** ** The theorem *)

Section Acceptance.
Context `{StarkCrypto} `{Platform} `{DiscoveryProvider} `{!CollisionFree} (u vk : Z) (m : MockPool).

(** A user the pool knows nothing of: not registered, and no id under the key of their channel to themselves. *)
Record newcomer (l : Ledger) : Prop := {
  nc_unregistered : lg_keys l !! u = None;
  nc_curve : is_Ok (recoverPointFromX (derivePublicKey vk)) = true;
  nc_channel : let k := key_of u vk u (derivePublicKey vk) in
    (compute_channel_marker k u u (derivePublicKey vk) ∉ lg_channels l) /\
    (forall i, compute_subchannel_id k i ∉ lg_subchannels l) /\
    (forall t, compute_subchannel_marker k u (derivePublicKey vk) t ∉ lg_tokens l) /\
    (forall t i, compute_note_id k t i ∉ lg_notes l) }.

(** The user registers in this batch exactly when the pool does not know them. *)
Definition registration_fits (a : Actions) (l : Ledger) : Prop :=
  match setViewingKey a with Some _ => newcomer l | None => registered u l end.

(** A note of the pool that the user may spend, with the amount the batch states. *)
Definition usable (n : UseNoteAction) : Prop :=
  spendable u vk n (ledger_of m) /\ note_readable m n /\ 0 <= note_amount (un_note n).

(** No channel from the user to the recipient is open in the pool. *)
Definition not_open (r : Z) : Prop := forall pk, lg_keys (ledger_of m) !! r = Some pk ->
  compute_channel_marker (key_of u vk r pk) u r pk ∉ lg_channels (ledger_of m).

Context (Hnz : keys_nonzero u vk).

Lemma mirrored_unopened l p r : mirrors u vk l p -> unopened (getChannel r p) = true <-> closed r p.
Proof.
  intros [_ _ _ Mc]. unfold unopened, closed. destruct (getChannel r p) as [c|] eqn:Hc; [|by split].
  rewrite (mirrored_truthy u vk Hnz l r c (Mc r c Hc)), negb_true_iff. split.
  - intros Hk c' [= <-]. apply bool_decide_eq_false in Hk. by apply eq_None_not_Some.
  - intros Hk. apply bool_decide_eq_false. rewrite (Hk c eq_refl). by intros [? [=]].
Qed.

Lemma not_open_closed p r : mirrors u vk (ledger_of m) p -> not_open r -> closed r p.
Proof.
  intros [_ _ _ Mc] Hn c Hc. destruct (Mc r c Hc) as [Ck Co _ _ _ _ _]. destruct (ch_key c); [|done]. destruct Co as [_ Co].
  by apply Hn in Co.
Qed.

(** A channel that is open in the pool is not closed in the simulator. *)
Lemma mirrored_not_closed l p r c : mirrors u vk l p -> channel_mirrored u vk l r c -> is_Some (ch_key c) ->
  is_Some (getChannel r p) -> closed r p -> False.
Proof.
  intros [_ _ _ Mc] [Ck Co _ _ _ _ _] [k Hk] [c' Hc'] Hcl. destruct (Mc r c' Hc') as [Ck' Co' _ _ _ _ _].
  rewrite Hk in Co. rewrite (Hcl c' Hc') in Co'. rewrite Ck in Ck'. injection Ck' as Heq. rewrite <- Heq in Co'. destruct Co as [_ Co]. by apply Co'.
Qed.

Lemma newcomer_fits l p x : newcomer l -> fits u vk (ASetViewingKey x) l p.
Proof.
  intros [Hu _ (Hm & Hs & Ht & Hn)]. split; [done|]. split; cbn; try done.
  - by rewrite lookup_insert_eq.
  - intros i Hi. split; [by intros ?%Hs|lia].
  - intros t. split; [by intros ?%Ht|done].
  - intros t i Hi. split; [by intros ?%Hn|unfold nonce_of; cbn; lia].
Qed.

(** The prepared batch fits the simulator and the pool. *)
Lemma prepared_acceptable o a channels total registry pool rs w w' (l := ledger_of m) (needed := getRecipientsNeeded u a)
  (a' := prepareActions u o pool needed (rs_actions rs)) : TruthfulDiscovery u vk l ->
  autoSetup o = true -> truthful_channels u vk l (reg_channels registry) ->
  autoDiscover_channels o = Some refresh \/ (forall r c, map_get r (am_map (reg_channels registry)) = Some c -> is_Some (ch_key c)) ->
  keys_on_curve l -> (forall x, x ∈ elems (openChannels a) -> not_open (oc_recipient x)) -> registration_fits a' l ->
  (forall n, n ∈ elems (useNotes a') -> usable n) -> NoDup (map note_key (elems (useNotes a'))) ->
  resolveRecipientChannels u vk a o registry needed w = (Ok (channels, total), w') ->
  resolve_kept (am_keys needed) a (reg_channels registry) rs ->
  mirrors u vk l pool -> p_nextChannelIndex pool = default 0 total ->
  (forall r, getChannel r pool = known_channel channels (reg_channels registry) r) ->
  acceptable_batch u vk o a' l pool.
Proof.
  intros Htd Hsetup Hreg Hfresh Hcurve Hno Hrf Hus Hnd Hres [_ Ko Kt Kn _] Hm Hnx Hget.
  destruct (resolveRecipientChannels_spec u vk l a o registry needed w channels total w' Hres) as (Htr & Htot).
  destruct (needed_recipients u a) as (Nu & Noc & Not & _).
  destruct (prepareActions_spec u o pool needed (rs_actions rs) Hsetup) as (Pt & Po & Pn). fold a' in Pt, Po, Pn.
  destruct (prepareActions_same u o pool needed (rs_actions rs)) as (_ & _ & Pc & _). fold a' in Pc.
  assert (Hunknown : setViewingKey a' <> None -> closed u pool).
  { intros Hs c Hc. unfold registration_fits in Hrf. destruct (setViewingKey a'); [|done]. destruct Hrf as [Hun _ _].
    pose proof (cm_key _ _ _ _ _ (mi_channels _ _ _ _ Hm u c Hc)). congruence. }
  assert (Hclosed : forall x, x ∈ elems (openChannels a') -> closed (oc_recipient x) pool /\ oc_recipient x ∈ am_keys needed).
  { intros x [Hx|[[-> Hs]|[Hin Hun]]]%Po.
    - rewrite Ko in Hx. split; [apply not_open_closed; [done|by apply Hno]|by apply Noc].
    - split; [by apply Hunknown|done].
    - split; [by apply (mirrored_unopened l)|done]. }
  assert (Hopened : forall r, r ∈ am_keys needed -> opened r pool \/ r ∈ map oc_recipient (elems (openChannels a'))).
  { intros r Hr. destruct (unopened (getChannel r pool)) eqn:Hun; [right; by apply Pn|left].
    unfold unopened in Hun. destruct (getChannel r pool) as [c|] eqn:Hc; [|done]. destruct (ch_key c) as [k|] eqn:Hk; [|done].
    by exists c, k. }
  split; try done.
  - unfold registration_fits in Hrf. destruct (setViewingKey a'); [|done]. split; [apply Hrf|by apply newcomer_fits].
  - intros Hne. unfold counts. rewrite Hnx. destruct Htot as [Htot|Htot]; [done|]. exfalso.
    destruct (elems (openChannels a')) as [|x xs] eqn:Hl; [done|]. destruct (Hclosed x ltac:(by left)) as [Hcl Hin].
    destruct Htot as [[_ ?]|Hall]; [congruence|]. destruct (Hall _ Hin) as [(mm & c & k & -> & Hc & Hk)|[Hnr Hh]].
    + specialize (Hcl c). rewrite Hget in Hcl. unfold known_channel in Hcl. cbn in Hcl. rewrite Hc in Hcl. specialize (Hcl eq_refl). congruence.
    + destruct Hfresh as [?|Hfresh]; [done|]. unfold am_has, map_has in Hh. rewrite (tc_converter _ _ _ _ Hreg) in Hh.
      destruct (map_get (oc_recipient x) (am_map (reg_channels registry))) as [c|] eqn:Hc; [|done].
      apply (mirrored_not_closed l pool (oc_recipient x) c); [done|apply (tc_channels _ _ _ _ Hreg _ _ Hc)|by eapply Hfresh| |done].
      rewrite Hget. unfold known_channel. rewrite Hc. by destruct (_ ≫= _).
  - intros x Hx. by apply Hclosed.
  - intros r. rewrite Pt, Kt, Pc. intros [Hr|Hr]%elem_of_app; apply list_elem_of_fmap in Hr as (x & -> & Hx); apply Hopened.
    + by apply Not.
    + by apply Kn.
  - by left.
  - intros n Hn. by apply Hus.
Qed.

End Acceptance.


(** ** A payment

    User [1] owns a note of [8] in the pool and pays [6] to user [3], to whom they have no channel: the batch opens the channel and
    the subchannel, spends the note and keeps the change. *)

Section Payment.
#[local] Existing Instance toy_crypto.
#[local] Existing Instance toy_platform.
#[local] Existing Instance toy_collision_free.

Definition self_key : Z := key_of 1 2 1 2.

Definition paying_pool : MockPool :=
  {| publicKeys := {[1 := 2; 3 := 5]};
     channels := ∅;
     channelMarkers := {[compute_channel_marker self_key 1 1 2]};
     subchannels := {[compute_subchannel_id self_key 0 := encryptSubchannelInfo self_key 0 7 3]};
     subchannelMarkers := {[compute_subchannel_marker self_key 1 2 7]};
     notes := {[compute_note_id self_key 7 0 := EncryptedNote (encryptNoteAmount self_key 7 0 4 8) 7 0]};
     nullifiers := ∅;
     outgoingChannels := {[compute_outgoing_channel_id 1 2 0 := encryptOutgoingChannelInfo 1 2 0 1 3]} |}.

Definition self_channel : Channel := new_Channel 2 (Some self_key) [(7, {| tokenIndex := 0; noteNonce := 1 |})].
Definition payee_channel : Channel := new_Channel 5 None [].

(** A service that knows the public key of the payee and counts the channel of the user to themselves. *)
#[local] Instance paying_provider : DiscoveryProvider := {|
  dp_world := unit;
  discoverChannels := fun _ _ _ _ w => (Ok {| cc_channels := Some (new_AddressMap None [(3, payee_channel)]); cc_total := Some 1 |}, w);
  discoverNotes := fun _ _ _ _ _ w =>
    (Ok (new_AddressMap None [], {| blockId := BN_number 0; incomingChannels := new_AddressMap None [] |}), w) |}.

Definition owned_note : Note :=
  {| note_id := BN_bigint (compute_note_id self_key 7 0); note_amount := 8; note_created := None;
     note_witness := {| w_channelKey := self_key; w_nonce := 0; w_r := 4 |}; note_sender := 1; note_open := None |}.

Definition paying_state : CompileState :=
  {| c_actions :=
       {| setViewingKey := None; openChannels := None; openTokenChannels := None; deposits := None; useNotes := None;
          createNotes := Some [{| cn_recipient := 3; cn_token := 7; cn_amount := AnAmount 6 |}]; withdraws := None;
          surpluses := Some [{| sp_recipient := 1; sp_token := 7; sp_withdraw := None |}]; invoke := None; computeAndInvoke := None |};
     c_registry := {| reg_channels := new_AddressMap None [(1, self_channel)];
       reg_notes := new_AddressMap (Some (fun _ => [])) [(7, [owned_note])]; reg_cursor := None |};
     c_world := tt |}.

Definition paying_options : ExecuteOptions :=
  {| autoRegister := false; autoDiscover_notes := None; autoDiscover_channels := None; autoSetup := true;
     autoSelectNotes := Some SelectNaive; registryConst := false; provingBlockId := None |}.

Lemma toy_keys_nonzero : keys_nonzero 1 2.
Proof.
  intros r pk. change (run_hash_call (ChannelKeyHash 1 2 r pk) <> 0). rewrite run_hash_call_felts. discriminate.
Qed.

Lemma self_nonce t : nonce_of t self_channel = if decide (t = 7) then 1 else 0.
Proof. unfold nonce_of, self_channel. generalize self_key. intros k. cbn. by case_decide. Qed.
Lemma self_has t : am_has t (ch_tokens self_channel) = bool_decide (t = 7).
Proof. unfold self_channel. generalize self_key. intros k. unfold am_has, map_has. cbn. by case_decide; case_bool_decide. Qed.

Lemma self_mirrored : channel_mirrored 1 2 (ledger_of paying_pool) 1 self_channel.
Proof.
  assert (Hsize : Z.of_nat (am_size (ch_tokens self_channel)) = 1) by (unfold self_channel; generalize self_key; by intros k).
  split; change (ch_publicKey self_channel) with 2; change (key_of 1 2 1 2) with self_key.
  - done.
  - change (ch_key self_channel) with (Some self_key). split; [done|]. unfold ledger_of. cbn [lg_channels channelMarkers paying_pool]. by apply elem_of_singleton.
  - done.
  - intros i Hi. rewrite Hsize. unfold ledger_of. cbn [lg_subchannels subchannels paying_pool].
    rewrite dom_singleton_L, elem_of_singleton. split; [intros Heq; apply subchannel_id_inj in Heq; lia|].
    intros Hlt. by replace i with 0 by lia.
  - intros t. rewrite self_has, bool_decide_eq_true. unfold ledger_of. cbn [lg_tokens subchannelMarkers paying_pool].
    rewrite elem_of_singleton. split; [intros Heq; apply token_marker_inj in Heq; lia|by intros ->].
  - intros t i Hi. rewrite self_nonce. unfold ledger_of. cbn [lg_notes notes paying_pool].
    rewrite dom_singleton_L, elem_of_singleton. split.
    + intros Heq. apply note_id_inj in Heq as (_ & -> & ->). by rewrite decide_True.
    + case_decide as Ht; [subst|lia]. intros Hlt. by replace i with 0 by lia.
  - intros t. rewrite self_nonce. by case_decide.
Qed.

Lemma payee_mirrored : channel_mirrored 1 2 (ledger_of paying_pool) 3 payee_channel.
Proof.
  assert (Hkey : key_of 1 2 3 5 <> self_key) by (intros Heq; apply (key_of_inj 1 2 3 5 1 2) in Heq as [? _]; discriminate).
  split; change (ch_publicKey payee_channel) with 5; unfold ledger_of;
    cbn [lg_keys lg_channels lg_subchannels lg_tokens lg_notes publicKeys channelMarkers subchannels subchannelMarkers notes paying_pool]; try done.
  - intros i Hi. rewrite dom_singleton_L, elem_of_singleton. change (am_size (ch_tokens payee_channel)) with 0%nat.
    split; [|lia]. intros Heq. apply subchannel_id_inj in Heq as [? _]. done.
  - intros t. rewrite elem_of_singleton. split; [|done]. intros Heq. apply token_marker_inj in Heq as [? _]. done.
  - intros t i Hi. rewrite dom_singleton_L, elem_of_singleton. change (nonce_of t payee_channel) with 0.
    split; [|lia]. intros Heq. apply note_id_inj in Heq as [? _]. done.
Qed.

Lemma paying_counted : counted 1 2 (ledger_of paying_pool) 1.
Proof.
  split; [lia|]. intros i Hi. unfold ledger_of. cbn [lg_outgoing outgoingChannels paying_pool]. rewrite dom_singleton_L, elem_of_singleton. split.
  - intros Heq. apply (outgoing_id_inj 1 2) in Heq. lia.
  - intros Hlt. by replace i with 0 by lia.
Qed.

Lemma singleton_truthful r c : channel_wf c -> channel_mirrored 1 2 (ledger_of paying_pool) r c ->
  truthful_channels 1 2 (ledger_of paying_pool) (new_AddressMap None [(r, c)]).
Proof. intros Hw Hm. split; [done|apply NoDup_singleton|]. intros r' c'. cbn. case_decide; [subst|done]. by intros [= <-]. Qed.

#[local] Instance paying_truthful : TruthfulDiscovery 1 2 (ledger_of paying_pool).
Proof.
  split.
  - intros f b w cur w' m. intros [= <- _] [= <-]. split; [|done]. apply singleton_truthful; [apply channel_wf_new|apply payee_mirrored].
  - intros f b w cur w' n. intros [= <- _] [= <-]. apply paying_counted.
  - intros b w cur w'. intros [= <- _]. apply paying_counted.
Qed.

Lemma self_channel_wf : channel_wf self_channel.
Proof. split_and!; [done|done|]. apply NoDup_singleton. Qed.

Lemma paying_curve : keys_on_curve (ledger_of paying_pool).
Proof.
  intros r pk. unfold ledger_of. cbn [lg_keys publicKeys paying_pool]. intros [[_ <-]|[_ [_ <-]%lookup_singleton_Some]]%lookup_insert_Some.
  all: vm_compute; reflexivity.
Qed.

(** The batch that comes back uses the note and still has no registration and no deposits. *)
Lemma paying_run :
  let r := compileOnce 1 2 77 false paying_options paying_state in
  is_Ok r.1 = true /\ setViewingKey (c_actions r.2) = None /\
  elems (useNotes (c_actions r.2)) = [{| un_token := 7; un_note := owned_note |}] /\ elems (deposits (c_actions r.2)) = [].
Proof. vm_compute. by split_and!. Qed.

Lemma owned_usable : usable 1 2 paying_pool {| un_token := 7; un_note := owned_note |}.
Proof.
  split_and!.
  - split; [by eexists|]. unfold ledger_of. cbn [useNote_action admitted un_token un_note owned_note note_witness w_channelKey w_nonce
      lg_tokens lg_notes lg_nullifiers subchannelMarkers notes nullifiers paying_pool].
    split_and!; [by apply elem_of_singleton|by rewrite dom_singleton_L; apply elem_of_singleton|apply not_elem_of_empty].
  - vm_compute. reflexivity.
  - done.
Qed.


(** The same payment when the registry has the payee's channel, not yet open: without a refresh the discovery is not asked, nobody
    counts the outgoing channels, and the channel is opened at index zero, where the pool has the user's channel to themselves. *)
Definition known_payee_state : CompileState :=
  {| c_actions := c_actions paying_state;
     c_registry := {| reg_channels := new_AddressMap None [(1, self_channel); (3, payee_channel)];
       reg_notes := reg_notes (c_registry paying_state); reg_cursor := None |};
     c_world := tt |}.

Example registry_channel_opens_at_zero :
  match (compileOnce 1 2 77 false paying_options known_payee_state).1 with
  | Ok res => omap channel_index (clientActions res) = [0]
  | Err _ => False
  end /\ compute_outgoing_channel_id 1 2 0 ∈ lg_outgoing (ledger_of paying_pool).
Proof.
  split; [vm_compute; reflexivity|]. unfold ledger_of, paying_pool. cbn [lg_outgoing outgoingChannels]. by rewrite dom_singleton_L, elem_of_singleton.
Qed.
End Payment.
