(* ===== verification/ChainTruth.v ===== *)
(** * The on-chain discovery tells the truth

    The compiler relies on a discovery service that tells the truth about the pool (class [TruthfulDiscovery] of file [Acceptance]).
    The on-chain discovery of file [ChannelsDiscovery], which reads the views of the pool, is such a service: what it finds
    (file [ChannelsFound]) mirrors the ledger of the pool (file [PoolMirror]). *)
From Stdlib Require Import ZArith Lia.
From stdpp Require Import base tactics list gmap.
From S2P Require Import Prelude JsMap Convert Crypto Encryptions Jobs Scan Interfaces Channel PoolSimulator MockPool PoolViews Discovery ChannelsDiscovery ChannelsFound PoolLedger PoolMirror Acceptance.

Section Chain.
Context `{StarkCrypto} (m : MockPool) (u vk : Z) (subs : Z -> list Z) (count : Z -> Z -> Z) (out : list Z).

(** The pool as the discovery sees it. *)
#[local] Instance chain_views : PoolContract := mock_views m.

(** What the pool keeps: the channels of the user as the views show them; stored records are not empty (the views read an empty
    record as a missing one); the markers of an open channel are those of its tokens; and nothing is stored for a channel that is
    not open. *)
Record pool_keeps : Prop := {
  pk_views : outgoing_holds u vk subs count out;
  pk_registered : forall r p, publicKeys m !! r = Some p -> p <> 0;
  pk_subchannels : forall id info, subchannels m !! id = Some info -> sub_salt info <> 0;
  pk_outgoing : forall id info, outgoingChannels m !! id = Some info -> out_salt info <> 0;
  pk_notes : forall id n, notes m !! id = Some n -> packed_value (mock_note id m) <> 0;
  pk_markers : forall r t, opened u vk r = true ->
    compute_subchannel_marker (ChannelsFound.key_of u vk r) r (pk r) t ∈ subchannelMarkers m <-> t ∈ subs (ChannelsFound.key_of u vk r);
  pk_tokens : forall r t i, opened u vk r = true -> is_Some (notes m !! compute_note_id (ChannelsFound.key_of u vk r) t i) ->
    t ∈ subs (ChannelsFound.key_of u vk r);
  pk_closed : forall r, opened u vk r = false -> pk r <> 0 ->
    (forall i, subchannels m !! compute_subchannel_id (ChannelsFound.key_of u vk r) i = None) /\
    (forall t, compute_subchannel_marker (ChannelsFound.key_of u vk r) r (pk r) t ∉ subchannelMarkers m) /\
    (forall t i, notes m !! compute_note_id (ChannelsFound.key_of u vk r) t i = None) }.

Context (Hpool : pool_keeps).

(** ** The views and the ledger *)

Lemma subchannel_stored k i : is_Some (subchannels m !! compute_subchannel_id k i) <-> sub_salt (subchannel_at k i) <> 0.
Proof.
  unfold subchannel_at. cbn [get_subchannel_info chain_views mock_views]. unfold mock_subchannel_info.
  destruct (subchannels m !! compute_subchannel_id k i) as [info|] eqn:Hs; cbn; [|by split; [intros [? [=]]|]].
  split; [|by eexists]. intros _. by apply (pk_subchannels Hpool _ _ Hs).
Qed.

Lemma note_stored k t i : is_Some (notes m !! compute_note_id k t i) <-> packed_value (note_at k t i) <> 0.
Proof.
  unfold note_at. cbn [get_note chain_views mock_views]. split.
  - intros [n Hn]. by apply (pk_notes Hpool _ _ Hn).
  - unfold mock_note. destruct (notes m !! compute_note_id k t i); [by eexists|by cbn].
Qed.

Lemma outgoing_stored i : is_Some (outgoingChannels m !! compute_outgoing_channel_id u vk i) <-> out_salt (outgoing_at u vk i) <> 0.
Proof.
  unfold outgoing_at. cbn [get_outgoing_channel_info chain_views mock_views]. unfold mock_outgoing_channel_info.
  destruct (outgoingChannels m !! compute_outgoing_channel_id u vk i) as [info|] eqn:Hs; cbn; [|by split; [intros [? [=]]|]].
  split; [|by eexists]. intros _. by apply (pk_outgoing Hpool _ _ Hs).
Qed.

Lemma chain_counted : counted u vk (ledger_of m) (num_out out).
Proof.
  unfold num_out. split; [lia|]. intros i Hi. unfold ledger_of. cbn [lg_outgoing]. rewrite elem_of_dom, outgoing_stored. split.
  - intros Hs. destruct (Z.ltb_spec i (Z.of_nat (length out))) as [|Hge]; [done|].
    by rewrite (oh_no_outgoing _ _ _ _ _ (pk_views Hpool) i Hge) in Hs.
  - intros Hlt. destruct (lookup_lt_is_Some_2 out (Z.to_nat i)) as [r Hr]; [lia|].
    destruct (oh_outgoing _ _ _ _ _ (pk_views Hpool) _ _ Hr) as [Hs _]. by rewrite Z2Nat.id in Hs by lia.
Qed.

(** ** A channel that is found mirrors the ledger *)

Lemma found_tokens r c : channel_wf c -> opened u vk r = true -> found_channel u vk subs count r c ->
  (forall t, am_has t (ch_tokens c) = true <-> t ∈ subs (ChannelsFound.key_of u vk r)) /\
  (forall t, nonce_of t c = if decide (t ∈ subs (ChannelsFound.key_of u vk r)) then count (ChannelsFound.key_of u vk r) t else 0) /\
  am_size (ch_tokens c) = length (subs (ChannelsFound.key_of u vk r)).
Proof.
  intros (Hk & _ & Hw) Hop (_ & _ & _ & Hget). specialize (Hget Hop). set (S := subs (ChannelsFound.key_of u vk r)) in *.
  assert (Hfind : forall t, is_Some (list_find (fun x => x = t) S) <-> t ∈ S).
  { intros t. split.
    - intros [[k t'] (Hkt & -> & _)%list_find_Some]. by eapply list_elem_of_lookup_2.
    - intros Hin. destruct (list_find (fun x => x = t) S) eqn:Hf; [by eexists|]. apply list_find_None in Hf.
      rewrite list.Forall_forall in Hf. by apply Hf in Hin. }
  assert (Hhas : forall t, map_has t (am_map (ch_tokens c)) = true <-> t ∈ S).
  { intros t. unfold map_has. rewrite Hget, <- Hfind. destruct (list_find _ S) as [[? ?]|]; cbn.
    - split; [by eexists|done].
    - by split; [|intros [? [=]]]. }
  split_and!.
  - intros t. unfold am_has. by rewrite Hk.
  - intros t. unfold nonce_of. rewrite Hget. destruct (list_find (fun x => x = t) S) as [[k t']|] eqn:Hf; cbn.
    + rewrite decide_True; [done|]. apply Hfind. by eexists.
    + rewrite decide_False; [done|]. intros Hin%Hfind. rewrite Hf in Hin. by destruct Hin.
  - unfold am_size. rewrite <- (length_map fst). apply Permutation_length, NoDup_Permutation; [exact Hw|by apply (oh_tokens _ _ _ _ _ (pk_views Hpool))|].
    intros t. rewrite <- Hhas. by rewrite map_has_true.
Qed.

Lemma found_mirrored r c : channel_wf c -> pk r <> 0 -> found_channel u vk subs count r c -> channel_mirrored u vk (ledger_of m) r c.
Proof.
  intros Hcw Hpk Hf. pose proof Hf as (Hp & Hkey & Hclosed & _).
  assert (Hreg : publicKeys m !! r = Some (pk r)).
  { unfold pk in *. cbn [view_public_key chain_views mock_views] in *. unfold get_public_key in *. by destruct (publicKeys m !! r). }
  assert (Hk : PoolLedger.key_of u vk r (ch_publicKey c) = ChannelsFound.key_of u vk r) by (rewrite Hp; done).
  assert (Hmark : opened u vk r = bool_decide (compute_channel_marker (ChannelsFound.key_of u vk r) u r (pk r) ∈ channelMarkers m)) by done.
  destruct (opened u vk r) eqn:Hop.
  - symmetry in Hmark. apply bool_decide_eq_true in Hmark. destruct (found_tokens r c Hcw Hop Hf) as (Hhas & Hnonce & Hsize).
    pose proof (oh_content _ _ _ _ _ (pk_views Hpool) r Hop) as Hc. unfold ledger_of.
    split; rewrite ?Hk, ?Hkey, ?Hp; cbn [lg_keys lg_channels lg_subchannels lg_tokens lg_notes]; try done.
    + intros i Hi. rewrite Hsize, elem_of_dom, subchannel_stored. split.
      * intros Hs. destruct (Z.ltb_spec i (Z.of_nat (length (subs (ChannelsFound.key_of u vk r))))) as [|Hge]; [done|].
        by rewrite (ch_no_subchannel _ _ _ Hc i Hge) in Hs.
      * intros Hlt. destruct (lookup_lt_is_Some_2 (subs (ChannelsFound.key_of u vk r)) (Z.to_nat i)) as [t Ht]; [lia|].
        destruct (ch_subchannel _ _ _ Hc _ _ Ht) as [Hs _]. by rewrite Z2Nat.id in Hs by lia.
    + intros t. by rewrite Hhas, (pk_markers Hpool r t Hop).
    + intros t i Hi. rewrite Hnonce, elem_of_dom. case_decide as Hin.
      * pose proof (ch_note _ _ _ Hc t i Hin Hi) as Hn. rewrite note_stored. lia.
      * split; [|lia]. intros Hs. by apply (pk_tokens Hpool) in Hs.
    + intros t. rewrite Hnonce. case_decide; [apply (ch_count _ _ _ Hc)|done].
  - symmetry in Hmark. apply bool_decide_eq_false in Hmark. destruct (pk_closed Hpool r Hop Hpk) as (C1 & C2 & C3). specialize (Hclosed eq_refl).
    assert (Hnonce : forall t, nonce_of t c = 0) by (intros t; unfold nonce_of; by rewrite Hclosed). unfold ledger_of.
    split; rewrite ?Hk, ?Hkey, ?Hp; cbn [lg_keys lg_channels lg_subchannels lg_tokens lg_notes]; try done.
    + intros i Hi. unfold am_size. rewrite Hclosed. cbn [length]. split; [|lia]. by intros [? Hs]%elem_of_dom; rewrite C1 in Hs.
    + intros t. unfold am_has, map_has. rewrite Hclosed. cbn [map_get]. split; [by intros ?%C2|done].
    + intros t i Hi. rewrite Hnonce. split; [|lia]. by intros [? Hs]%elem_of_dom; rewrite C3 in Hs.
    + intros t. by rewrite Hnonce.
Qed.

(** ** The discovery as a service of the compiler

    [ContractDiscovery] under a schedule of the answers. The compiler passes no cursor; the notes it asks for and
    the errors it would see are arguments here. *)
Context (pick : nat -> nat) (of_error : discovery_error -> sdk_error)
  (notes_of : Z -> Z -> option NotesCursor -> option (list Z) -> result sdk_error (AddressMap (list Note) * NotesCursor)).

Definition chain_provider : DiscoveryProvider := {|
  dp_world := unit;
  Interfaces.discoverChannels := fun address viewingKey recipients _ w =>
    (match discover_all_channels address viewingKey recipients (channels_fuel address viewingKey recipients subs count out) pick None with
     | Some (Ok cursor) => Ok cursor
     | Some (Err e) => Err (of_error e)
     | None => Err (of_error DiscoveryTypeError)
     end, w);
  Interfaces.discoverNotes := fun address viewingKey cursor tokens _ w => (notes_of address viewingKey cursor tokens, w) |}.

(** C4: on a pool that keeps its channels, the on-chain discovery answers every request for channels, under every
    schedule, and tells the truth: each channel it returns shows the key, the markers, the subchannels and
    the notes of the pool's ledger, and each total is the number of the user's outgoing channels. *)
Theorem chain_discovery_is_truthful :
  @TruthfulDiscovery _ u vk chain_provider (ledger_of m) /\
  forall recipients block, exists cursor, @Interfaces.discoverChannels chain_provider u vk recipients block tt = (Ok cursor, tt).
Proof.
  pose proof (fun recipients => channels_of_pool u vk recipients subs count out (pk_views Hpool) pick) as Hrun.
  split; [split|].
  - intros f b w cur w' am. cbn [Interfaces.discoverChannels chain_provider]. destruct (Hrun f) as (am0 & -> & Hk & Hd & Hw & Hc & _).
    intros [= <- _] [= <-]. split; [|done]. split; [done|done|]. intros r c Hrc. destruct (Hc r c Hrc) as (_ & Hcw & Hpk & Hf).
    split; [done|by apply found_mirrored].
  - intros f b w cur w' n. cbn [Interfaces.discoverChannels chain_provider]. destruct (Hrun f) as (am0 & -> & _).
    intros [= <- _]. cbn [cc_total]. unfold expected_total. destruct (by_list f); [done|]. destruct (num_out out =? 0); [done|].
    intros [= <-]. apply chain_counted.
  - intros b w cur w'. cbn [Interfaces.discoverChannels chain_provider]. destruct (Hrun TotalOnly) as (am0 & -> & _).
    intros [= <- _]. cbn [cc_total]. unfold expected_total. cbn [by_list]. pose proof chain_counted as Hc.
    destruct (Z.eqb_spec (num_out out) 0) as [Hz|Hz]; [|exact Hc]. by rewrite Hz in Hc.
  - intros f b. cbn [Interfaces.discoverChannels chain_provider]. destruct (Hrun f) as (am0 & -> & _). by eexists.
Qed.
End Chain.

(** ** The pool of the payment *)

Section PaymentTruth.
#[local] Existing Instance toy_crypto.
#[local] Existing Instance toy_collision_free.

Definition paying_subs (_ : Z) : list Z := [7].
Definition paying_count (_ _ : Z) : Z := 1.

(** Only the user's channel to themselves is open. *)
Lemma paying_opened r : @opened toy_crypto (mock_views paying_pool) 1 2 r = true -> r = 1.
Proof.
  unfold opened. cbn [channel_exists mock_views]. unfold paying_pool. cbn [channelMarkers].
  rewrite bool_decide_eq_true. intros Heq%elem_of_singleton. apply marker_inj in Heq. tauto.
Qed.

Lemma paying_content : @channel_holds toy_crypto (mock_views paying_pool) paying_subs paying_count self_key.
Proof.
  split.
  - intros [|k] token; [|done]. intros [= <-]. vm_compute. split; [discriminate|reflexivity].
  - intros k Hk. cbn in Hk. unfold subchannel_at. cbn [get_subchannel_info mock_views].
    unfold mock_subchannel_info, paying_pool. cbn [subchannels]. rewrite lookup_singleton_ne; [done|].
    intros Heq. apply subchannel_id_inj in Heq. lia.
  - done.
  - intros token i Ht Hi. apply list_elem_of_singleton in Ht as ->. unfold note_at. cbn [get_note mock_views].
    unfold mock_note, paying_pool, paying_count. cbn [notes]. destruct (decide (i = 0)) as [->|H0].
    { rewrite lookup_singleton_eq. cbn [packed_value]. split; [vm_compute; discriminate|lia]. }
    rewrite lookup_singleton_ne by (intros Heq; apply note_id_inj in Heq; lia). split; [lia|done].
Qed.

Lemma paying_keeps : pool_keeps paying_pool 1 2 paying_subs paying_count [1].
Proof.
  assert (Hself : @ChannelsFound.key_of toy_crypto (chain_views paying_pool) 1 2 1 = self_key) by done.
  assert (Hother : forall r, @opened toy_crypto (chain_views paying_pool) 1 2 r = false ->
            @ChannelsFound.key_of toy_crypto (chain_views paying_pool) 1 2 r <> self_key).
  { intros r Hop Heq. apply (PoolMirror.key_of_inj 1 2 r _ 1 2) in Heq as [-> _]. revert Hop. unfold opened.
    cbn [channel_exists chain_views mock_views]. rewrite bool_decide_eq_true_2; [done|]. unfold paying_pool. cbn [channelMarkers]. by apply elem_of_singleton. }
  split.
  - split.
    + intros r ->%paying_opened. apply paying_content.
    + intros r _. apply NoDup_singleton.
    + intros [|i] r; [|done]. intros [= <-]. vm_compute. split; [discriminate|reflexivity].
    + intros i Hi. change (out_salt (mock_outgoing_channel_info (compute_outgoing_channel_id 1 2 i) paying_pool) = 0).
      unfold mock_outgoing_channel_info, paying_pool. cbn [outgoingChannels]. rewrite lookup_singleton_ne; [done|].
      intros Heq. apply (outgoing_id_inj 1 2) in Heq. cbn in Hi. lia.
    + apply NoDup_singleton.
  - intros r p. unfold paying_pool. cbn [publicKeys]. by intros [[_ <-]|[_ [_ <-]%lookup_singleton_Some]]%lookup_insert_Some.
  - intros id info. unfold paying_pool. cbn [subchannels]. by intros [_ <-]%lookup_singleton_Some.
  - intros id info. unfold paying_pool. cbn [outgoingChannels]. by intros [_ <-]%lookup_singleton_Some.
  - intros id n. unfold mock_note. unfold paying_pool. cbn [notes]. intros Hn. rewrite Hn. apply lookup_singleton_Some in Hn as [_ <-].
    vm_compute. discriminate.
  - intros r t ->%paying_opened. rewrite Hself. unfold paying_pool. cbn [subchannelMarkers]. change (paying_subs self_key) with [7]. rewrite elem_of_singleton, list_elem_of_singleton.
    split; [intros Heq; apply token_marker_inj in Heq; tauto|by intros ->].
  - intros r t i ->%paying_opened. rewrite Hself. unfold paying_pool. cbn [notes]. intros [n [Heq _]%lookup_singleton_Some].
    apply note_id_inj in Heq as (_ & <- & _). by left.
  - intros r Hop _. specialize (Hother r Hop). unfold paying_pool. cbn [subchannels subchannelMarkers notes]. split_and!.
    + intros i. apply lookup_singleton_ne. intros Heq. apply subchannel_id_inj in Heq as [Hk _]. by (apply Hother || apply Hother, eq_sym).
    + intros t. rewrite not_elem_of_singleton. intros Heq. apply token_marker_inj in Heq as [Hk _]. by (apply Hother || apply Hother, eq_sym).
    + intros t i. apply lookup_singleton_ne. intros Heq. apply note_id_inj in Heq as [Hk _]. by (apply Hother || apply Hother, eq_sym).
Qed.

Lemma chain_discovery_is_truthful_witness :
  let provider := chain_provider paying_pool paying_subs paying_count [1] (fun n => n) (fun _ => JsTypeError) (fun _ _ _ _ => Err JsTypeError) in
  @TruthfulDiscovery _ 1 2 provider (ledger_of paying_pool) /\
  forall recipients block, exists cursor, @Interfaces.discoverChannels provider 1 2 recipients block tt = (Ok cursor, tt).
Proof. exact (chain_discovery_is_truthful paying_pool 1 2 paying_subs paying_count [1] paying_keeps _ _ _). Defined.
End PaymentTruth.
