(* ===== verification/DemoFormat.v ===== *)
(** * Amounts and names on the demo's screen ([demo/src/format.ts])

    Token amounts between bigints and the decimal strings of the input fields, and the shorter forms that
    are only shown. Texts are ASCII, or UTF-8 where a character is not; dates are not modelled. *)
From Stdlib Require Import Ascii ZArith Lia QArith.
From stdpp Require Import base tactics list strings.
From S2P Require Import Prelude Convert PoolTransaction.

Local Open Scope string_scope.
Local Open Scope Z_scope.

(** ** String methods *)

Fixpoint repeat_char (n : nat) (c : ascii) : string :=
  match n with O => "" | S n => String c (repeat_char n c) end.
(** [padStart(width, c)] and [padEnd(width, c)]. *)
Definition padStart (width : nat) (c : ascii) (s : string) : string := repeat_char (width - String.length s) c +:+ s.
Definition padEnd (width : nat) (c : ascii) (s : string) : string := s +:+ repeat_char (width - String.length s) c.

(** [s.replace(/0+$/, "")]. *)
Fixpoint trim_zeros (s : string) : string :=
  match s with
  | EmptyString => EmptyString
  | String c s =>
      match trim_zeros s with
      | EmptyString => if Ascii.eqb c "0" then EmptyString else String c EmptyString
      | t => String c t
      end
  end.

(** [s.match(/^0*/)[0].length]. *)
Fixpoint leading_zeros (s : string) : nat :=
  match s with String c s => if Ascii.eqb c "0" then S (leading_zeros s) else O | EmptyString => O end.

(** [s.slice(-n)]. *)
Definition slice_last (n : nat) (s : string) : string := slice_from (String.length s - n) s.

(** The text up to the first dot, and what follows it. *)
Fixpoint cut_dot (s : string) : string * option string :=
  match s with
  | EmptyString => (EmptyString, None)
  | String c s =>
      if Ascii.eqb c "." then (EmptyString, Some s)
      else let '(a, b) := cut_dot s in (String c a, b)
  end.
(** [const [wholePart, fractionPart = ""] = s.split(".")]: a third part is not looked at. *)
Definition split_dot (s : string) : string * string :=
  let '(whole, rest) := cut_dot s in
  (whole, match rest with Some r => (cut_dot r).1 | None => "" end).

(** ** Amounts *)

Definition formatAmount (value : Z) (decimals : option nat) : string :=
  match decimals with
  | None | Some O => bigint_toString 10 value
  | Some d =>
      let divisor := 10 ^ Z.of_nat d in
      let whole := js_div value divisor in
      let fraction := trim_zeros (padStart d "0" (bigint_toString 10 (js_rem value divisor))) in
      match fraction with
      | EmptyString => bigint_toString 10 whole
      | _ => bigint_toString 10 whole +:+ "." +:+ fraction
      end
  end.

Inductive amount_error : Type :=
| TooManyDecimals (given decimals : nat)
| AmountSyntax.

Definition toRawAmount (humanAmount : string) (decimals : nat) : result amount_error Z :=
  let '(wholePart, fractionPart) := split_dot (trim_end (trim_start humanAmount)) in
  if (decimals <? String.length fractionPart)%nat then Err (TooManyDecimals (String.length fractionPart) decimals)
  else
    let paddedFraction := padEnd decimals "0" fractionPart in
    match BigInt_of_string ((match wholePart with EmptyString => "0" | _ => wholePart end) +:+ paddedFraction) with
    | Some z => Ok z
    | None => Err AmountSyntax
    end.

(** [toLocaleString("en-US")] of a bigint: a comma before every third digit from the right. *)
Fixpoint with_commas (digits : string) : string :=
  match digits with
  | EmptyString => EmptyString
  | String c rest =>
      String c (match rest with
                | EmptyString => EmptyString
                | _ => (if (String.length rest mod 3 =? 0)%nat then "," else "") +:+ with_commas rest
                end)
  end.
Definition toLocaleString (z : Z) : string :=
  (if z <? 0 then "-" else "") +:+ with_commas (bigint_toString 10 (Z.abs z)).

(** The subscript digits from U+2080 on. *)
Definition subscript_digit (c : ascii) : string :=
  String "226" (String "130" (String (ascii_of_nat (80 + nat_of_ascii c)) EmptyString)).
Fixpoint subscripts (digits : string) : string :=
  match digits with EmptyString => EmptyString | String c s => subscript_digit c +:+ subscripts s end.
Definition toSubscript (value : nat) : string := subscripts (bigint_toString 10 (Z.of_nat value)).

Definition formatTokenAmount (rawAmount : Z) (decimals : nat) (maxFraction : nat) : string :=
  if rawAmount =? 0 then "0"
  else if (decimals =? 0)%nat then toLocaleString rawAmount
  else
    let divisor := 10 ^ Z.of_nat decimals in
    let wholePart := js_div rawAmount divisor in
    let remainder := js_rem rawAmount divisor in
    if remainder =? 0 then toLocaleString wholePart
    else
      let fractionFull := padStart decimals "0" (bigint_toString 10 remainder) in
      match trim_zeros (slice_to maxFraction fractionFull) with
      | EmptyString =>
          if wholePart =? 0 then
            let zeros := leading_zeros fractionFull in
            "0.0" +:+ toSubscript zeros +:+ slice_to maxFraction (trim_zeros (slice_from zeros fractionFull))
          else toLocaleString wholePart
      | fraction => toLocaleString wholePart +:+ "." +:+ fraction
      end.

(** [maxFraction] when it is not given. *)
Definition DEFAULT_FRACTION : nat := 4.

(** ** Names *)

Definition starts_0x (hex : string) : bool := match hex with String "0" (String "x" _) => true | _ => false end.

(** [truncateAddress] of [format.ts] keeps ten characters, that of [usePrivateState.ts] eight. *)
Definition truncate_at (head : nat) (hex : string) : string :=
  let padded := if starts_0x hex then hex else "0x" +:+ hex in
  if (String.length padded <=? 14)%nat then padded else slice_to head padded +:+ "..." +:+ slice_last 4 padded.
Definition truncateAddress (hex : string) : string := truncate_at 10 hex.

(** [String.fromCharCode] of an integer or [NaN], in UTF-8. *)
Definition fromCharCode (code : option Z) : string :=
  let u := default 0 code mod 2 ^ 16 in
  let byte z := ascii_of_nat (Z.to_nat z) in
  if u <? 128 then String (byte u) EmptyString
  else if u <? 2048 then String (byte (192 + u / 64)) (String (byte (128 + u mod 64)) EmptyString)
  else String (byte (224 + u / 4096)) (String (byte (128 + u / 64 mod 64)) (String (byte (128 + u mod 64)) EmptyString)).

(** The loop over pairs of digits, the last of which may be a single one. *)
Fixpoint decode_pairs (raw : string) : string :=
  match raw with
  | String a (String b rest) => fromCharCode (parseInt16 (String a (String b EmptyString))) +:+ decode_pairs rest
  | String a EmptyString => fromCharCode (parseInt16 (String a EmptyString))
  | EmptyString => EmptyString
  end.
Definition formatChainId (hex : string) : string :=
  decode_pairs (if starts_0x hex then slice_from 2 hex else hex).

(** [base64ByteLength] of [useTransactions.ts] and [useTransactionBuilder.ts]; the division is that of numbers. *)
Fixpoint ends_with (t s : string) : bool :=
  String.eqb t s || match s with String _ s => ends_with t s | EmptyString => false end.
Definition base64ByteLength (base64 : string) : Q :=
  let padding := if ends_with "==" base64 then 2 else if ends_with "=" base64 then 1 else 0 in
  (inject_Z (Z.of_nat (String.length base64) * 3) / 4 - inject_Z padding)%Q.

Example format_ex :
  formatAmount 1500000 (Some 6%nat) = "1.5" /\ formatAmount 5 (Some 6%nat) = "0.000005" /\ formatAmount 42 None = "42" /\
  toRawAmount " 1.5 " 6 = Ok 1500000 /\ toRawAmount ".5" 6 = Ok 500000 /\ toRawAmount "1.5" 0 = Err (TooManyDecimals 1 0) /\
  formatTokenAmount 1234567890000 6 4 = "1,234,567.89" /\ formatTokenAmount (-50) 6 4 = "0.000-" /\
  truncateAddress "123456789abcdef01" = "0x12345678...ef01" /\ formatChainId "0x534e5f4d41494e" = "SN_MAIN".
Proof. by vm_compute. Qed.

(** Small amounts are shown with the number of their zeros: the examples of the source. *)
Example subscript_ex :
  formatTokenAmount 24 6 4 = "0.0" +:+ toSubscript 4 +:+ "24" /\
  formatTokenAmount 50 18 4 = "0.0" +:+ toSubscript 16 +:+ "5" /\ toSubscript 16 = "₁₆".
Proof. by vm_compute. Qed.

(** What follows a second dot is dropped, and a prefix makes the text hexadecimal. *)
Example amounts_misread :
  toRawAmount "1.2.3" 6 = Ok 1200000 /\ toRawAmount "0x1" 6 = Ok 16777216.
Proof. by vm_compute. Qed.

(** ** Lemmas on digit strings *)

Lemma length_repeat_char n c : String.length (repeat_char n c) = n.
Proof. induction n; cbn; congruence. Qed.

Lemma parse_digits_app b s t a : parse_digits b (s +:+ t) a = parse_digits b s a ≫= parse_digits b t.
Proof.
  revert a. induction s as [|c s IH]; intros a; [done|]. rewrite append_cons. cbn [parse_digits]. destruct (char_digit c) as [d|]; [|done].
  destruct (d <? b); [apply IH|done].
Qed.

Lemma all_decimal_app s t : all_decimal (s +:+ t) = (all_decimal s && all_decimal t)%bool.
Proof. induction s as [|c s IH]; [done|]. rewrite append_cons. cbn [all_decimal]. by rewrite IH, andb_assoc. Qed.
Lemma all_decimal_zeros n : all_decimal (repeat_char n "0") = true.
Proof. induction n; [done|]. cbn. done. Qed.

Lemma decimal_is_digit c : is_decimal c = true -> exists d, char_digit c = Some d /\ 0 <= d < 10 /\ is_space c = false /\ Ascii.eqb c "." = false.
Proof.
  destruct c as [[] [] [] [] [] [] [] []]; intros Hc; try discriminate Hc;
    (eexists; split; [reflexivity|split; [vm_compute; split; discriminate || reflexivity|split; reflexivity]]).
Qed.

Lemma all_decimal_no_space s : all_decimal s = true -> no_space s = true.
Proof.
  induction s as [|c s IH]; [done|]. cbn. intros [Hc Hs]%andb_prop. destruct (decimal_is_digit c Hc) as (d & _ & _ & -> & _).
  by rewrite IH.
Qed.

(** The number that digits spell. *)
Definition digits_value (s : string) : Z := default 0 (parse_digits 10 s 0).

Lemma parse_decimal s a : all_decimal s = true ->
  parse_digits 10 s a = Some (a * 10 ^ Z.of_nat (String.length s) + digits_value s).
Proof.
  unfold digits_value. revert a. induction s as [|c s IH]; intros a; [cbn; intros _; f_equal; lia|]. cbn [all_decimal].
  intros [Hc Hs]%andb_prop. destruct (decimal_is_digit c Hc) as (d & Hd & Hr & _). cbn [parse_digits String.length]. rewrite Hd.
  rewrite (proj2 (Z.ltb_lt d 10)) by lia. rewrite (IH (a * 10 + d) Hs), (IH (0 * 10 + d) Hs). cbn [default].
  rewrite Nat2Z.inj_succ, Z.pow_succ_r by lia. f_equal. cbn. lia.
Qed.

Lemma digits_value_app s t : all_decimal s = true -> all_decimal t = true ->
  digits_value (s +:+ t) = digits_value s * 10 ^ Z.of_nat (String.length t) + digits_value t.
Proof.
  intros Hs Ht. unfold digits_value at 1. rewrite parse_digits_app, (parse_decimal s 0 Hs). cbn [mbind option_bind].
  rewrite (parse_decimal t _ Ht). cbn. lia.
Qed.

Lemma digits_value_zeros n : digits_value (repeat_char n "0") = 0.
Proof.
  induction n as [|n IH]; [done|]. change (digits_value ("0" +:+ repeat_char n "0") = 0).
  rewrite digits_value_app, IH by (done || apply all_decimal_zeros). change (digits_value "0") with 0. lia.
Qed.

Lemma digits_value_toString z : 0 <= z -> digits_value (bigint_toString 10 z) = z.
Proof. intros Hz. unfold digits_value. by rewrite parse_bigint_toString by lia. Qed.

Lemma toString_decimal z : 0 <= z -> all_decimal (bigint_toString 10 z) = true.
Proof. intros Hz. unfold bigint_toString. rewrite (proj2 (Z.ltb_ge z 0)) by lia. by apply to_digits_decimal. Qed.

Lemma toString_cons z : exists c s, bigint_toString 10 z = String c s.
Proof.
  unfold bigint_toString. destruct (z <? 0); [by eexists _, _|].
  destruct (to_digits_cons (Z.to_nat (Z.log2 (Z.abs z))) 10 (Z.abs z) "") as (c & s & ->). by eexists _, _.
Qed.

Lemma to_digits_length fuel n s k : 0 <= n < 10 ^ Z.of_nat k -> (1 <= k)%nat ->
  (String.length (to_digits fuel 10 n s) <= k + String.length s)%nat.
Proof.
  revert n s k. induction fuel as [|fuel IH]; intros n s k Hn Hk; [cbn; lia|]. cbn [to_digits].
  destruct (n / 10 =? 0) eqn:Hq; [cbn; lia|]. apply Z.eqb_neq in Hq.
  destruct k as [|[|k]]; [lia| |].
  - exfalso. apply Hq. apply Z.div_small. cbn in Hn. lia.
  - rewrite (Nat2Z.inj_succ (S k)), Z.pow_succ_r in Hn by lia.
    etrans; [apply (IH _ _ (S k)); [|lia]|cbn; lia]. split; [apply Z.div_pos; lia|apply Z.div_lt_upper_bound; lia].
Qed.

Lemma toString_length z k : 0 <= z < 10 ^ Z.of_nat k -> (1 <= k)%nat -> (String.length (bigint_toString 10 z) <= k)%nat.
Proof.
  intros Hz Hk. unfold bigint_toString. rewrite (proj2 (Z.ltb_ge z 0)) by lia. rewrite Z.abs_eq by lia.
  etrans; [by apply (to_digits_length _ _ _ k)|]. cbn. lia.
Qed.

Lemma trim_zeros_pad s : padEnd (String.length s) "0" (trim_zeros s) = s.
Proof.
  unfold padEnd. induction s as [|c s IH]; [done|]. cbn [trim_zeros String.length]. destruct (trim_zeros s) as [|c' t] eqn:Ht.
  - change (repeat_char (String.length s - 0) "0" = s) in IH. rewrite Nat.sub_0_r in IH.
    destruct (Ascii.eqb_spec c "0") as [->|_].
    + change (String "0" (repeat_char (String.length s) "0") = String "0" s). by rewrite IH.
    + change (String c (repeat_char (String.length s - 0) "0") = String c s). by rewrite Nat.sub_0_r, IH.
  - rewrite append_cons. f_equal. exact IH.
Qed.

Lemma trim_zeros_decimal s : all_decimal s = true -> all_decimal (trim_zeros s) = true.
Proof. intros Hs. pose proof (trim_zeros_pad s) as Hp. unfold padEnd in Hp. rewrite <- Hp, all_decimal_app in Hs. by apply andb_prop in Hs as [? _]. Qed.
Lemma trim_zeros_length s : (String.length (trim_zeros s) <= String.length s)%nat.
Proof. pose proof (f_equal String.length (trim_zeros_pad s)) as Hp. unfold padEnd in Hp. rewrite length_append in Hp. lia. Qed.

Lemma padStart_decimal d s : (String.length s <= d)%nat -> all_decimal s = true ->
  all_decimal (padStart d "0" s) = true /\ String.length (padStart d "0" s) = d /\ digits_value (padStart d "0" s) = digits_value s.
Proof.
  intros Hl Hs. unfold padStart. rewrite all_decimal_app, all_decimal_zeros, length_append, length_repeat_char. split_and!; [done|lia|].
  rewrite digits_value_app by (done || apply all_decimal_zeros). rewrite digits_value_zeros. lia.
Qed.

(** ** Reading amounts *)

Lemma cut_dot_decimal s t : all_decimal s = true -> cut_dot s = (s, None) /\ cut_dot (s +:+ "." +:+ t) = (s, Some t).
Proof.
  induction s as [|c s IH]; [done|]. cbn [all_decimal]. intros [Hc Hs]%andb_prop.
  destruct (decimal_is_digit c Hc) as (d & _ & _ & _ & Hdot). change (String c s +:+ "." +:+ t) with (String c (s +:+ "." +:+ t)).
  cbn [cut_dot]. rewrite Hdot. destruct (IH Hs) as [-> ->]. done.
Qed.

Lemma no_space_app s t : no_space (s +:+ t) = (no_space s && no_space t)%bool.
Proof. induction s as [|c s IH]; [done|]. rewrite append_cons. cbn [no_space]. by rewrite IH, andb_assoc. Qed.

Lemma BigInt_of_digits c s : all_decimal (String c s) = true -> BigInt_of_string (String c s) = Some (digits_value (String c s)).
Proof.
  intros Hs. rewrite BigInt_of_decimal by (done || by apply all_decimal_no_space). by rewrite (parse_decimal _ 0 Hs).
Qed.

(** An amount of decimal digits, with or without a fraction. *)
Lemma toRawAmount_parts text whole fraction d : split_dot (trim_end (trim_start text)) = (whole, fraction) ->
  all_decimal whole = true -> all_decimal fraction = true ->
  toRawAmount text d =
    if (d <? String.length fraction)%nat then Err (TooManyDecimals (String.length fraction) d)
    else Ok (digits_value whole * 10 ^ Z.of_nat d + digits_value (padEnd d "0" fraction)).
Proof.
  intros Hsplit Hw Hf. unfold toRawAmount. rewrite Hsplit. destruct (d <? String.length fraction)%nat eqn:Hd; [done|].
  apply Nat.ltb_ge in Hd. set (p := padEnd d "0" fraction).
  assert (Hp : all_decimal p = true) by (unfold p, padEnd; by rewrite all_decimal_app, Hf, all_decimal_zeros).
  assert (Hl : String.length p = d) by (unfold p, padEnd; rewrite length_append, length_repeat_char; lia).
  set (w := match whole with EmptyString => "0" | _ => whole end).
  assert (Hw' : all_decimal w = true /\ digits_value w = digits_value whole /\ exists c t, w = String c t)
    by (subst w; destruct whole; eauto).
  destruct Hw' as (Hw' & Hwv & c & t & Hct). rewrite Hct, append_cons, BigInt_of_digits; rewrite <- append_cons, <- Hct.
  - by rewrite digits_value_app, Hl, Hwv.
  - by rewrite all_decimal_app, Hw', Hp.
Qed.

Lemma split_whole whole : all_decimal whole = true -> split_dot (trim_end (trim_start whole)) = (whole, "").
Proof. intros Hw. rewrite trim_no_space by by apply all_decimal_no_space. unfold split_dot. by rewrite (proj1 (cut_dot_decimal whole "" Hw)). Qed.

Lemma split_decimal whole fraction : all_decimal whole = true -> all_decimal fraction = true ->
  split_dot (trim_end (trim_start (whole +:+ "." +:+ fraction))) = (whole, fraction).
Proof.
  intros Hw Hf. rewrite trim_no_space by (by rewrite !no_space_app, (all_decimal_no_space whole), (all_decimal_no_space fraction)).
  unfold split_dot. rewrite (proj2 (cut_dot_decimal whole fraction Hw)). by rewrite (proj1 (cut_dot_decimal fraction "" Hf)).
Qed.

(** The amount fields of the demo are exact. A text of decimal digits with a fraction of at most as many digits as
    the token has decimals is read as the number it spells, in the token's smallest unit, and a longer fraction is refused; what
    [formatAmount] writes for an amount, as the Max buttons do, is read back as that amount. *)
Theorem amount_fields_are_exact (decimals : nat) :
  (forall whole fraction, all_decimal whole = true -> all_decimal fraction = true ->
     toRawAmount (whole +:+ "." +:+ fraction) decimals =
       if (decimals <? String.length fraction)%nat then Err (TooManyDecimals (String.length fraction) decimals)
       else Ok (digits_value whole * 10 ^ Z.of_nat decimals
                + digits_value fraction * 10 ^ Z.of_nat (decimals - String.length fraction))) /\
  (forall value, 0 <= value -> toRawAmount (formatAmount value (Some decimals)) decimals = Ok value).
Proof.
  split.
  - intros whole fraction Hw Hf. rewrite (toRawAmount_parts _ whole fraction) by (done || by apply split_decimal).
    destruct (_ <? _)%nat; [done|]. f_equal. f_equal. unfold padEnd.
    rewrite digits_value_app by (done || apply all_decimal_zeros). rewrite digits_value_zeros, length_repeat_char. lia.
  - intros value Hv. destruct decimals as [|d']; cbn [formatAmount].
    { rewrite (toRawAmount_parts _ (bigint_toString 10 value) "") by (done || (try apply split_whole); by apply toString_decimal).
      change (Ok (digits_value (bigint_toString 10 value) * 1 + 0) = (Ok value : result amount_error Z)).
      rewrite digits_value_toString by done. f_equal. lia. }
    set (d := S d'). unfold js_div, js_rem. rewrite Z.quot_div_nonneg, Z.rem_mod_nonneg by lia.
    pose proof (Z.mod_pos_bound value (10 ^ Z.of_nat d) ltac:(lia)) as Hr. pose proof (Z.div_pos value (10 ^ Z.of_nat d) ltac:(lia) ltac:(lia)) as Hq.
    set (w := value / 10 ^ Z.of_nat d) in *. set (r := value mod 10 ^ Z.of_nat d) in *.
    destruct (padStart_decimal d (bigint_toString 10 r)) as (Hpd & Hpl & Hpv); [apply toString_length; lia|apply toString_decimal; lia|].
    rewrite digits_value_toString in Hpv by lia. set (f := padStart d "0" (bigint_toString 10 r)) in *.
    pose proof (trim_zeros_pad f) as Hpad. rewrite Hpl in Hpad. pose proof (trim_zeros_length f) as Hlen. rewrite Hpl in Hlen.
    assert (Hsum : digits_value (bigint_toString 10 w) * 10 ^ Z.of_nat d + digits_value (padEnd d "0" (trim_zeros f)) = value).
    { rewrite Hpad, Hpv, digits_value_toString by done. unfold w, r. rewrite (Z.div_mod value (10 ^ Z.of_nat d)) at 3 by lia. lia. }
    pose proof (trim_zeros_decimal f Hpd) as Ht. pose proof (toString_decimal w Hq) as Hw.
    change (toRawAmount (match trim_zeros f with EmptyString => bigint_toString 10 w | _ => bigint_toString 10 w +:+ "." +:+ trim_zeros f end) d = Ok value).
    destruct (trim_zeros f) as [|c t]; [rewrite (toRawAmount_parts _ (bigint_toString 10 w) "") by (done || by apply split_whole)
      |rewrite (toRawAmount_parts _ (bigint_toString 10 w) (String c t)) by (done || by apply split_decimal)].
    all: rewrite (proj2 (Nat.ltb_ge _ _)) by (cbn [String.length] in *; lia); by rewrite Hsum.
Qed.

Lemma amount_fields_are_exact_witness :
  toRawAmount ("12" +:+ "." +:+ "5") 6 = Ok 12500000 /\ toRawAmount (formatAmount 12500000 (Some 6%nat)) 6 = Ok 12500000.
Proof.
  destruct (amount_fields_are_exact 6) as [Hparse Hround]. split.
  - rewrite (Hparse "12" "5" eq_refl eq_refl). vm_compute. reflexivity.
  - apply Hround. lia.
Defined.
