(* ===== verification/DemoTimeline.v ===== *)
(** * The timeline of a transaction ([demo/src/timeline.ts])

    Spans are shared objects: a span is reachable from the list of its parent and from the stack, so they live in a
    store. A computation that is made of steps leaves the stack as it found it and records a closed, ordered and
    nested forest of spans, also when it throws. *)
From Stdlib Require Import ZArith Lia.
From stdpp Require Import base tactics list strings.
From S2P Require Import Prelude.

Local Open Scope Z_scope.

Record Span : Type := {
  sp_label : string;
  sp_startMs : Z;
  sp_endMs : option Z;
  sp_children : list nat;
  sp_phase : bool }.

(** The objects, the fields [spans] and [stack] (innermost span first), the readings of the clock so far and the labels
    that [onStepChange] was called with. *)
Record Timeline : Type := {
  tl_objects : list Span;
  tl_spans : list nat;
  tl_stack : list nat;
  tl_enriched : bool;
  tl_now : nat;
  tl_announced : list string }.

Definition new_Timeline : Timeline :=
  {| tl_objects := []; tl_spans := []; tl_stack := []; tl_enriched := false; tl_now := 0; tl_announced := [] |}.

Definition add_children (refs : list nat) (s : Span) : Span :=
  {| sp_label := sp_label s; sp_startMs := sp_startMs s; sp_endMs := sp_endMs s; sp_children := sp_children s ++ refs; sp_phase := sp_phase s |}.
Definition close_at (t : Z) (s : Span) : Span :=
  {| sp_label := sp_label s; sp_startMs := sp_startMs s; sp_endMs := Some t; sp_children := sp_children s; sp_phase := sp_phase s |}.

(** Children pushed on the innermost open span, if there is one. *)
Definition attach (stack refs : list nat) (objects : list Span) : list Span :=
  match stack with parent :: _ => alter (add_children refs) parent objects | [] => objects end.

Section Clock.
(** [performance.now()], reading by reading. *)
Context (clock : nat -> Z).

Definition begin (label : string) (tl : Timeline) : Timeline :=
  let span := {| sp_label := label; sp_startMs := clock (tl_now tl); sp_endMs := None; sp_children := []; sp_phase := false |} in
  let ref := length (tl_objects tl) in
  {| tl_objects := attach (tl_stack tl) [ref] (tl_objects tl) ++ [span];
     tl_spans := match tl_stack tl with [] => tl_spans tl ++ [ref] | _ => tl_spans tl end;
     tl_stack := ref :: tl_stack tl; tl_enriched := tl_enriched tl; tl_now := S (tl_now tl); tl_announced := tl_announced tl ++ [label] |}.

Definition end_ (tl : Timeline) : Timeline :=
  match tl_stack tl with
  | ref :: stack =>
      {| tl_objects := alter (close_at (clock (tl_now tl))) ref (tl_objects tl); tl_spans := tl_spans tl; tl_stack := stack;
         tl_enriched := tl_enriched tl; tl_now := S (tl_now tl); tl_announced := tl_announced tl |}
  | [] => tl
  end.

(** [step(label, fn)]: the span is closed whether [fn] returns or throws. The state holds whatever else [fn] changes. *)
Definition step {L E A} (label : string) (fn : stateE (Timeline * L) E A) : stateE (Timeline * L) E A := fun s =>
  let '(r, (tl, l)) := fn (begin label s.1, s.2) in (r, (end_ tl, l)).

(** [totalMs] and [spanDuration]: an open span lasts until the next reading. *)
Definition end_of (tl : Timeline) (s : Span) : Z := default (clock (tl_now tl)) (sp_endMs s).
Definition totalMs (tl : Timeline) : Z :=
  match head (tl_spans tl) ≫= (fun r => tl_objects tl !! r), last (tl_spans tl) ≫= (fun r => tl_objects tl !! r) with
  | Some first, Some last => end_of tl last - sp_startMs first
  | _, _ => 0
  end.
Definition spanDuration (tl : Timeline) (s : Span) : Z := end_of tl s - sp_startMs s.
End Clock.

(** ** Resource timing *)

Record ResourceTiming : Type := {
  rt_name : string; rt_initiatorType : string;
  rt_startTime : Z; rt_requestStart : Z; rt_responseStart : Z; rt_responseEnd : Z }.

Section Enrich.
(** [new URL(url).pathname]; [None] where it throws. *)
Context (pathname : string -> option string).

Definition shortenUrl (url : string) : string := default url (pathname url).

Definition phase_span (label : string) (start end_ : Z) : Span :=
  {| sp_label := label; sp_startMs := start; sp_endMs := Some end_; sp_children := []; sp_phase := true |}.

Definition phases_of (usePrefix : bool) (e : ResourceTiming) : list Span :=
  let prefix := (if usePrefix then shortenUrl (rt_name e) +:+ ": " else "")%string in
  if rt_requestStart e =? 0 then [phase_span (prefix +:+ "Request") (rt_startTime e) (rt_responseEnd e)]
  else [phase_span (prefix +:+ "Stalled") (rt_startTime e) (rt_requestStart e);
        phase_span (prefix +:+ "Server") (rt_requestStart e) (rt_responseStart e);
        phase_span (prefix +:+ "Download") (rt_responseStart e) (rt_responseEnd e)].

Definition in_span (s : Span) (end_ : Z) (e : ResourceTiming) : bool :=
  (sp_startMs s <=? rt_startTime e) && (rt_startTime e <=? end_) && String.eqb (rt_initiatorType e) "fetch".

(** A closed leaf gets the phases of the requests that started in it. *)
Definition enrichLeafSpan (ref : nat) (s : Span) (end_ : Z) (entries : list ResourceTiming) (objects : list Span) : list Span :=
  let matching := List.filter (in_span s end_) entries in
  let phases := flat_map (phases_of (1 <? length matching)%nat) matching in
  alter (add_children (seq (length objects) (length phases))) ref objects ++ phases.

(** The recursion follows children, which are younger than their parents: as much fuel as there are objects is enough. *)
Fixpoint enrichSpans (fuel : nat) (spans : list nat) (entries : list ResourceTiming) (objects : list Span) : list Span :=
  match fuel with
  | O => objects
  | S fuel =>
      fold_left (fun objects ref =>
        match objects !! ref with
        | None => objects
        | Some s =>
            match sp_children s, sp_endMs s with
            | [], Some end_ => enrichLeafSpan ref s end_ entries objects
            | children, _ => enrichSpans fuel children entries objects
            end
        end) spans objects
  end.

(** [entries] is absent where the browser has no resource timing. *)
Definition enrich (entries : option (list ResourceTiming)) (tl : Timeline) : Timeline :=
  if tl_enriched tl then tl
  else {| tl_objects := match entries with
                        | Some es => enrichSpans (S (length (tl_objects tl))) (tl_spans tl) es (tl_objects tl)
                        | None => tl_objects tl
                        end;
          tl_spans := tl_spans tl; tl_stack := tl_stack tl; tl_enriched := true; tl_now := tl_now tl; tl_announced := tl_announced tl |}.
End Enrich.

(** ** What a computation records *)

Section Records.
Context (clock : nat -> Z).

(** Siblings: closed, one after the other, between two times. *)
Fixpoint siblings (objects : list Span) (from to : Z) (refs : list nat) : Prop :=
  match refs with
  | [] => from <= to
  | r :: refs => exists s e, objects !! r = Some s /\ sp_endMs s = Some e /\ from <= sp_startMs s /\ sp_startMs s <= e /\ siblings objects e to refs
  end.

(** A closed span with its children inside it. *)
Definition nested (objects : list Span) (i : nat) : Prop :=
  exists s e, objects !! i = Some s /\ sp_endMs s = Some e /\ siblings objects (sp_startMs s) e (sp_children s) /\ Forall (lt i) (sp_children s).

(** From one timeline to a later one: the spans [refs] were added to the innermost open span, and every new object [new] is
    a nested span that occurs in exactly one place. *)
Record recorded (tl tl' : Timeline) (refs : list nat) (new : list Span) : Prop := {
  rc_stack : tl_stack tl' = tl_stack tl;
  rc_spans : tl_spans tl' = match tl_stack tl with [] => tl_spans tl ++ refs | _ => tl_spans tl end;
  rc_objects : tl_objects tl' = attach (tl_stack tl) refs (tl_objects tl) ++ new;
  rc_now : (tl_now tl <= tl_now tl')%nat;
  rc_siblings : siblings (tl_objects tl') (clock (tl_now tl)) (clock (tl_now tl')) refs;
  rc_nested : forall i, (length (tl_objects tl) <= i < length (tl_objects tl'))%nat -> nested (tl_objects tl') i;
  rc_places : refs ++ flat_map sp_children new ≡ₚ seq (length (tl_objects tl)) (length new) }.

Definition open_ok (tl : Timeline) : Prop :=
  match tl_stack tl with [] => True | parent :: _ => (parent < length (tl_objects tl))%nat end.

Context (Hclock : forall i j, (i <= j)%nat -> clock i <= clock j).

Lemma length_attach stack refs objects : length (attach stack refs objects) = length objects.
Proof. destruct stack; [done|]. apply length_alter. Qed.

Lemma siblings_ext objects objects' from to refs : (forall r, r ∈ refs -> objects' !! r = objects !! r) ->
  siblings objects from to refs -> siblings objects' from to refs.
Proof.
  revert from. induction refs as [|r refs IH]; intros from Heq; [done|]. cbn. intros (s & e & Hs & He & Hf & Hse & Hr).
  exists s, e. rewrite (Heq r) by (by left). split_and!; try done. apply IH; [|done]. intros q Hq. apply Heq. by right.
Qed.

Lemma siblings_le objects from to refs : siblings objects from to refs -> from <= to.
Proof. revert from. induction refs as [|r refs IH]; cbn; [done|]. intros from (s & e & _ & _ & ? & ? & Hr). apply IH in Hr. lia. Qed.

Lemma siblings_from objects from from' to refs : from' <= from -> siblings objects from to refs -> siblings objects from' to refs.
Proof. destruct refs as [|r refs]; cbn; [lia|]. intros Hle (s & e & ? & ? & ? & ? & ?). exists s, e. split_and!; done || lia. Qed.

Lemma siblings_app objects from mid to refs1 refs2 :
  siblings objects from mid refs1 -> siblings objects mid to refs2 -> siblings objects from to (refs1 ++ refs2).
Proof.
  revert from. induction refs1 as [|r refs1 IH]; intros from H1 H2; cbn in *; [by eapply siblings_from|].
  destruct H1 as (s & e & ? & ? & ? & ? & H1). exists s, e. split_and!; try done. by apply IH.
Qed.

Lemma places_bound refs new n : refs ++ flat_map sp_children new ≡ₚ seq n (length new) ->
  forall r, r ∈ refs \/ (exists s, s ∈ new /\ r ∈ sp_children s) -> (n <= r < n + length new)%nat.
Proof.
  intros Hp r Hr. apply elem_of_seq. rewrite <- Hp. apply elem_of_app. destruct Hr as [Hr|(s & Hs & Hr)]; [by left|right].
  apply list_elem_of_In, in_flat_map. exists s. by split; apply list_elem_of_In.
Qed.

Lemma new_lookup tl tl' refs new i s : recorded tl tl' refs new -> (length (tl_objects tl) <= i)%nat ->
  tl_objects tl' !! i = Some s -> s ∈ new.
Proof.
  intros Hr Hi. rewrite (rc_objects _ _ _ _ Hr), lookup_app_r by (rewrite length_attach; lia). apply list_elem_of_lookup_2.
Qed.

Lemma recorded_refl tl : recorded tl tl [] [].
Proof.
  split; try done.
  - destruct (tl_stack tl); by rewrite ?app_nil_r.
  - rewrite app_nil_r. unfold attach. destruct (tl_stack tl) as [|p stack]; [done|]. symmetry. apply list_eq. intros i. destruct (decide (p = i)) as [<-|Hi]; [|by rewrite list_lookup_alter_ne].
    rewrite list_lookup_alter_eq. destruct (tl_objects tl !! p) as [[l st e c ph]|]; [|done]. cbn. unfold add_children. cbn. by rewrite app_nil_r.
  - cbn. lia.
  - intros i Hi. lia.
Qed.

(** One record after another. *)
Lemma recorded_trans tl tl1 tl2 refs1 refs2 new1 new2 : open_ok tl ->
  recorded tl tl1 refs1 new1 -> recorded tl1 tl2 refs2 new2 -> recorded tl tl2 (refs1 ++ refs2) (new1 ++ new2).
Proof.
  intros Hopen H1 H2. pose proof (f_equal length (rc_objects _ _ _ _ H1)) as Hl1. rewrite length_app, length_attach in Hl1.
  pose proof (f_equal length (rc_objects _ _ _ _ H2)) as Hl2. rewrite length_app, length_attach in Hl2.
  assert (Hsame : forall i, (length (tl_objects tl) <= i < length (tl_objects tl1))%nat -> tl_objects tl2 !! i = tl_objects tl1 !! i).
  { intros i Hi. rewrite (rc_objects _ _ _ _ H2), lookup_app_l by (rewrite length_attach; lia). unfold attach.
    rewrite (rc_stack _ _ _ _ H1). unfold open_ok in Hopen. destruct (tl_stack tl) as [|p st]; [done|].
    rewrite list_lookup_alter_ne by lia. done. }
  split.
  - by rewrite (rc_stack _ _ _ _ H2), (rc_stack _ _ _ _ H1).
  - rewrite (rc_spans _ _ _ _ H2), (rc_stack _ _ _ _ H1), (rc_spans _ _ _ _ H1). by destruct (tl_stack tl); rewrite ?app_assoc.
  - rewrite (rc_objects _ _ _ _ H2), (rc_stack _ _ _ _ H1), (rc_objects _ _ _ _ H1). unfold attach, open_ok in *.
    destruct (tl_stack tl) as [|p st]; [by rewrite app_assoc|].
    rewrite alter_app_l by (by rewrite length_alter). rewrite list_alter_alter_eq, app_assoc. f_equal. f_equal.
    apply list_alter_ext; [|done]. intros s _. unfold compose, add_children. cbn. by rewrite app_assoc.
  - pose proof (rc_now _ _ _ _ H1). pose proof (rc_now _ _ _ _ H2). lia.
  - eapply siblings_app; [|exact (rc_siblings _ _ _ _ H2)]. eapply siblings_ext; [|exact (rc_siblings _ _ _ _ H1)].
    intros r Hr. apply Hsame. pose proof (places_bound _ _ _ (rc_places _ _ _ _ H1) r (or_introl Hr)). lia.
  - intros i Hi. destruct (decide (i < length (tl_objects tl1))%nat) as [Hlt|Hge].
    + destruct (rc_nested _ _ _ _ H1 i ltac:(lia)) as (s & e & Hs & He & Hsib & Hf). exists s, e.
      rewrite Hsame by lia. split_and!; try done. eapply siblings_ext; [|exact Hsib]. intros r Hr. apply Hsame.
      pose proof (new_lookup _ _ _ _ _ _ H1 (proj1 Hi) Hs) as Hnew.
      pose proof (places_bound _ _ _ (rc_places _ _ _ _ H1) r (or_intror (ex_intro _ s (conj Hnew Hr)))). lia.
    + apply (rc_nested _ _ _ _ H2). lia.
  - rewrite flat_map_app, length_app, seq_app. rewrite <- (rc_places _ _ _ _ H1).
    replace (length (tl_objects tl) + length new1)%nat with (length (tl_objects tl1)) by lia. rewrite <- (rc_places _ _ _ _ H2).
    rewrite <- !app_assoc. apply Permutation_app_head. rewrite !app_assoc. apply Permutation_app_tail, Permutation_app_comm.
Qed.

(** A step records one span around what its body recorded, whether the body returns or throws. *)
Lemma step_recorded label tl tl2 refs new : open_ok tl -> recorded (begin clock label tl) tl2 refs new ->
  exists new', recorded tl (end_ clock tl2) [length (tl_objects tl)] new'.
Proof.
  intros Hopen [Hst Hsp Hob Hnow Hsib Hnest Hpl]. set (n := length (tl_objects tl)) in *.
  cbn [begin tl_stack tl_spans tl_objects tl_now] in *. rewrite length_app, length_attach in Hnest, Hpl. fold n in Hnest, Hpl.
  change (length [_]) with 1%nat in Hnest, Hpl. set (t0 := clock (tl_now tl)) in *. set (e := clock (tl_now tl2)).
  set (span := {| sp_label := label; sp_startMs := t0; sp_endMs := Some e; sp_children := refs; sp_phase := false |}).
  assert (Hob' : tl_objects (end_ clock tl2) = attach (tl_stack tl) [n] (tl_objects tl) ++ span :: new).
  { unfold end_. rewrite Hst. cbn [tl_objects]. rewrite Hob. unfold attach at 1.
    rewrite (alter_app_r_alt (add_children refs)) by (rewrite length_attach; fold n; lia).
    rewrite length_attach. fold n. rewrite Nat.sub_diag. rewrite <- app_assoc.
    rewrite alter_app_r_alt by (rewrite length_attach; fold n; lia). rewrite length_attach. fold n. by rewrite Nat.sub_diag. }
  assert (Hlen : length (tl_objects tl2) = (n + 1 + length new)%nat).
  { rewrite Hob. cbn [attach]. rewrite length_app, length_alter, length_app, length_attach. fold n. cbn. lia. }
  assert (Hsame : forall i, (n < i)%nat -> tl_objects (end_ clock tl2) !! i = tl_objects tl2 !! i).
  { intros i Hi. unfold end_. rewrite Hst. cbn [tl_objects]. apply list_lookup_alter_ne. lia. }
  assert (Hn : tl_objects (end_ clock tl2) !! n = Some span).
  { rewrite Hob', lookup_app_r by (rewrite length_attach; fold n; lia). rewrite length_attach. fold n. by rewrite Nat.sub_diag. }
  pose proof (siblings_le _ _ _ _ Hsib) as Hle. pose proof (Hclock (tl_now tl) (S (tl_now tl)) ltac:(lia)) as Hc0. fold t0 in Hc0. fold e in Hle, Hsib.
  assert (Hbound : forall r, r ∈ refs \/ (exists s, s ∈ new /\ r ∈ sp_children s) -> (n < r)%nat).
  { intros r Hr. pose proof (places_bound _ _ _ Hpl r Hr). lia. }
  exists (span :: new). split.
  - unfold end_. by rewrite Hst.
  - unfold end_. rewrite Hst. cbn [tl_spans]. rewrite Hsp. destruct (tl_stack tl); done.
  - exact Hob'.
  - unfold end_. rewrite Hst. cbn [tl_now]. lia.
  - cbn [siblings]. exists span, e. split_and!; try done.
    + change (t0 <= e). lia.
    + unfold end_. rewrite Hst. cbn [tl_now]. unfold e. apply Hclock. lia.
  - intros i Hi. rewrite Hob', length_app, length_attach in Hi. fold n in Hi. cbn [length] in Hi. destruct (decide (i = n)) as [->|Hne].
    + exists span, e. cbn [sp_endMs sp_startMs sp_children span]. split_and!; [done|done| |].
      * apply (siblings_from _ (clock (S (tl_now tl)))); [lia|]. eapply siblings_ext; [|exact Hsib].
        intros r Hr. apply Hsame, Hbound. by left.
      * apply list.Forall_forall. intros r Hr. apply Hbound. by left.
    + destruct (Hnest i ltac:(lia)) as (s & f & Hs & Hf & Hsb & Hfa). exists s, f. rewrite Hsame by lia. split_and!; try done.
      eapply siblings_ext; [|exact Hsb]. intros r Hr. apply Hsame.
      rewrite list.Forall_forall in Hfa. specialize (Hfa r Hr). lia.
  - cbn [flat_map sp_children span length seq]. cbn [app]. apply Permutation_skip. rewrite Nat.add_1_r in Hpl. exact Hpl.
Qed.

(** A computation over the timeline that records a forest, however it ends. *)
Definition balanced {L E A} (m : stateE (Timeline * L) E A) : Prop :=
  forall tl l r tl' l', open_ok tl -> m (tl, l) = (r, (tl', l')) -> exists refs new, recorded tl tl' refs new.

Context {L E : Type}.

Lemma recorded_open tl tl' refs new : open_ok tl -> recorded tl tl' refs new -> open_ok tl'.
Proof.
  intros Ho Hr. unfold open_ok in *. rewrite (rc_stack _ _ _ _ Hr). destruct (tl_stack tl) as [|p st] eqn:Hst; [done|].
  rewrite (rc_objects _ _ _ _ Hr), length_app, length_attach. lia.
Qed.

Lemma balanced_ret {A} (a : A) : balanced (mret a : stateE (Timeline * L) E A).
Proof. intros tl l r tl' l' _ [= <- <- <-]. exists [], []. apply recorded_refl. Qed.
Lemma balanced_throw {A} (e : E) : balanced (st_throw e : stateE (Timeline * L) E A).
Proof. intros tl l r tl' l' _ [= <- <- <-]. exists [], []. apply recorded_refl. Qed.
Lemma balanced_lift {A} (v : result E A) : balanced (st_lift v : stateE (Timeline * L) E A).
Proof. intros tl l r tl' l' _ [= <- <- <-]. exists [], []. apply recorded_refl. Qed.

Lemma balanced_bind {A B} (m : stateE (Timeline * L) E A) (k : A -> stateE (Timeline * L) E B) :
  balanced m -> (forall a, balanced (k a)) -> balanced (m ≫= k).
Proof.
  intros Hm Hk tl l r tl' l' Ho. unfold mbind, stateE_bind. destruct (m (tl, l)) as [[a|e] [tl1 l1]] eqn:H1.
  - intros H2. destruct (Hm _ _ _ _ _ Ho H1) as (refs1 & new1 & Hr1).
    destruct (Hk a _ _ _ _ _ (recorded_open _ _ _ _ Ho Hr1) H2) as (refs2 & new2 & Hr2).
    exists (refs1 ++ refs2), (new1 ++ new2). by eapply recorded_trans.
  - intros [= <- <- <-]. by apply (Hm _ _ _ _ _ Ho H1).
Qed.

(** What does not touch the timeline. *)
Lemma balanced_quiet {A} (f : Timeline * L -> result E A * L) : balanced (fun s => ((f s).1, (s.1, (f s).2))).
Proof. intros tl l r tl' l' _ [= <- <- <-]. exists [], []. apply recorded_refl. Qed.

Lemma begin_open label tl : open_ok (begin clock label tl).
Proof. unfold open_ok. cbn. rewrite length_app, length_attach. cbn. lia. Qed.

Lemma balanced_step {A} label (fn : stateE (Timeline * L) E A) : balanced fn -> balanced (step clock label fn).
Proof.
  intros Hfn tl l r tl' l' Ho. unfold step. cbn [fst snd]. destruct (fn (begin clock label tl, l)) as [r2 [tl2 l2]] eqn:Hf.
  intros [= <- <- <-]. destruct (Hfn _ _ _ _ _ (begin_open label tl) Hf) as (refs & new & Hr).
  destruct (step_recorded _ _ _ _ _ Ho Hr) as [new' Hn]. by exists [length (tl_objects tl)], new'.
Qed.

(** A step on a fresh timeline: one root, which every other span is below. *)
Lemma fresh_step {A} label (fn : stateE (Timeline * L) E A) l r tl l' : balanced fn ->
  step clock label fn (new_Timeline, l) = (r, (tl, l')) ->
  tl_spans tl = [0%nat] /\ tl_stack tl = [] /\ (forall i, (i < length (tl_objects tl))%nat -> nested (tl_objects tl) i) /\
  0%nat :: flat_map sp_children (tl_objects tl) ≡ₚ seq 0 (length (tl_objects tl)).
Proof.
  intros Hfn. unfold step. cbn [fst snd]. destruct (fn (begin clock label new_Timeline, l)) as [r2 [tl2 l2]] eqn:Hf.
  intros [= <- <- <-]. destruct (Hfn _ _ _ _ _ (begin_open label new_Timeline) Hf) as (refs & new & Hr).
  destruct (step_recorded label new_Timeline tl2 refs new I Hr) as [new' Hn]. destruct Hn as [Hst Hsp Hob _ _ Hnest Hpl].
  cbn [new_Timeline tl_stack tl_spans tl_objects length] in *. cbn [attach app] in Hob. split_and!; try done.
  - intros i Hi. apply Hnest. lia.
  - rewrite Hob. exact Hpl.
Qed.
End Records.
