(* ===== verification/DemoFlows.v ===== *)
(** * The transactions of the demo ([demo/src/hooks/useTransactions.ts], [config.ts], [paymaster.ts], [avnu.ts])

    A flow approves, quotes, builds, proves, submits and waits, as steps of a timeline. What it asks of the wallet, the
    node, the paymaster, the swap service and the SDK is logged in order, and they answer as the class [DemoWorld] says,
    which may depend on everything asked before. *)
From Stdlib Require Import Ascii ZArith Lia QArith.
From stdpp Require Import base tactics list strings.
From S2P Require Import Prelude JsMap Convert Interfaces Builders StarknetCalls Json ProvingService ProofInvocation Proving SdkWallet DemoFormat DemoTimeline.

Local Open Scope string_scope.
Local Open Scope Z_scope.

(** ** Configuration *)

Record TokenConfig : Type := {
  tk_name : string; tk_address : string; tk_decimals : nat; tk_fee : option bool; tk_mintEntrypoint : option string }.

Record EkuboPool : Type := {
  ek_token0 : string; ek_token1 : string; ek_fee : string; ek_tickSpacing : string; ek_extension : string; ek_skipAhead : string }.
Record EkuboConfig : Type := { ek_routerAddress : string; ek_executorAddress : string; ek_pools : list EkuboPool }.

(** The fields of [AppConfig] that the flows read. *)
Record AppConfig : Type := {
  tokens : list TokenConfig;
  ekubo : option EkuboConfig;
  vesu_anonymizerAddress : option string;
  paymasterUrl : option string;
  paymasterFeeToken : option string;
  feeAmount : option Z }.

Definition STRK_TOKEN_ADDRESS : string := "0x04718f5a0fc34cc1af16a1cdee98ffb20c31f5cd61d6ab07201858f4287c938d".

(** Truthiness of an optional string. *)
Definition given (s : option string) : option string := match s with Some (String _ _) => s | _ => None end.

Inductive demo_error : Type :=
| NotReady | NoEkuboConfig | NoEkuboPool | NoVesuConfig | NeedsPaymaster | NoQuote | NoExecutor | TransactionReverted
| BadAmount (e : amount_error)
| BadNumber
| BuilderError (e : sdk_error)
| StillWaiting
| WorldFailed (code : Z).

Definition big (s : string) : result demo_error Z :=
  match BigInt_of_string s with Some z => Ok z | None => Err BadNumber end.

(** [ekubo.pools.find(...)]: the tokens of a pool are read until it fits; a token that is no number throws. *)
Fixpoint find_pool (fromBig toBig : Z) (pools : list EkuboPool) : result demo_error (option EkuboPool) :=
  match pools with
  | [] => Ok None
  | pool :: pools =>
      t0 ← big (ek_token0 pool);
      t1 ← big (ek_token1 pool);
      if ((t0 =? fromBig) && (t1 =? toBig) || (t0 =? toBig) && (t1 =? fromBig))%bool then Ok (Some pool)
      else find_pool fromBig toBig pools
  end.
Definition findEkuboPool (config : EkuboConfig) (fromToken toToken : string) : result demo_error (option EkuboPool) :=
  match fromToken, toToken with
  | EmptyString, _ | _, EmptyString => Ok None
  | _, _ => fromBig ← big fromToken; toBig ← big toToken; find_pool fromBig toBig (ek_pools config)
  end.

(** [decimalsByToken]: the last token of an address counts. *)
Definition decimalsByToken (config : AppConfig) : jsmap string nat :=
  map_of_entries (map (fun t => (tk_address t, tk_decimals t)) (tokens config)).
Definition scaleAmount (config : AppConfig) (token humanAmount : string) : result demo_error Z :=
  match toRawAmount humanAmount (default O (map_get token (decimalsByToken config))) with
  | Ok z => Ok z
  | Err e => Err (BadAmount e)
  end.

(** ** The paymaster *)

(** The calldata is passed on as it is. *)
Record DemoPaymasterCall : Type := { pc_target : string; pc_selectorOf : string; pc_data : list BigNumberish }.
Definition toPaymasterCall `{StarknetNum} (call : Call) : DemoPaymasterCall :=
  {| pc_target := contractAddress call; pc_selectorOf := getSelectorFromName (entrypoint call); pc_data := default [] (calldata call) |}.

(** A transaction to submit through the paymaster; the invocation is there for deposits of the transaction builder. *)
Record PaymasterSubmission : Type := {
  ps_call : DemoPaymasterCall;
  ps_proof : option string;
  ps_proofFacts : list string;
  ps_invoke : option (string * json * list string) }.

(** [getFeeMode]: the fee token may be undefined. *)
Definition getFeeMode (config : AppConfig) : option string := paymasterFeeToken config.
Definition fee_mode_json (feeToken : option string) : json :=
  JObject ((("mode", JString "sponsored_private") :: match feeToken with Some t => [("pool_fee_token", JString t)] | None => [] end)
           ++ [("tip", JString "normal")])%list.
Definition parameters_json (feeToken : option string) : json :=
  JObject [("version", JString "0x1"); ("fee_mode", fee_mode_json feeToken)].

Definition number_json (n : BigNumberish) : json := JString (js_String n).
Definition demo_call_json (c : DemoPaymasterCall) : json :=
  JObject [("to", JString (pc_target c)); ("selector", JString (pc_selectorOf c)); ("calldata", JArray (map number_json (pc_data c)))].

Definition paymasterBuildApplyAction (poolAddress : string) (feeToken : option string) : json :=
  JObject [("transaction", JObject [("type", JString "apply_action"); ("apply_action", JObject [("pool_address", JString poolAddress)])]);
           ("parameters", parameters_json feeToken)].
Definition paymasterBuildInvokeAndApplyAction (poolAddress : string) (feeToken : option string) (user : string) (calls : list DemoPaymasterCall) : json :=
  JObject [("transaction", JObject [("type", JString "invoke_and_apply_action"); ("apply_action", JObject [("pool_address", JString poolAddress)]);
             ("invoke", JObject [("user_address", JString user); ("calls", JArray (map demo_call_json calls))])]);
           ("parameters", parameters_json feeToken)].
Definition applied_json (s : PaymasterSubmission) : json :=
  JObject ((("apply_actions_call", demo_call_json (ps_call s)) :: match ps_proof s with Some p => [("proof", JString p)] | None => [] end)
           ++ [("proof_facts", JArray (map JString (ps_proofFacts s)))])%list.
Definition paymasterExecuteApplyAction (s : PaymasterSubmission) (feeToken : option string) : json :=
  JObject [("transaction", JObject [("type", JString "apply_action"); ("apply_action", applied_json s)]); ("parameters", parameters_json feeToken)].
Definition paymasterExecuteInvokeAndApplyAction (s : PaymasterSubmission) (user : string) (typedData : json) (signature : list string)
  (feeToken : option string) : json :=
  JObject [("transaction", JObject [("type", JString "invoke_and_apply_action"); ("apply_action", applied_json s);
             ("invoke", JObject [("user_address", JString user); ("typed_data", typedData); ("signature", JArray (map JString signature))])]);
           ("parameters", parameters_json feeToken)].

(** [rpcCall]: the result is handed on without a look at its shape. *)
Definition rpcCall (method : string) (reply : json) : result paymaster_error (option json) :=
  match field "error" reply with
  | Some e => if truthy_json e then Err (PaymasterRefused method (field "message" e) (field "code" e) (error_detail (field "data" e)))
              else Ok (field "result" reply)
  | None => Ok (field "result" reply)
  end.

(** ** What a flow asks for *)

(** How the proven call is submitted. *)
Inductive submission : Type :=
| ThroughPaymaster (s : PaymasterSubmission) (feeToken : option string)
| FromAccount (call : Call) (proofDetails : option (list string * option string)).

Inductive demo_event : Type :=
| AskedFee (poolAddress : string) (feeToken : option string)
| AskedFeeWithInvoke (poolAddress : string) (feeToken : option string) (user : string) (calls : list DemoPaymasterCall)
| AskedSign (typedData : json)
| Executed (admin : bool) (call : Call)
| AwaitedReceipt (txHash : string)
| AskedBlockNumber
| Slept (ms : Z)
| BuiltInvocation (actions : Actions) (options : ExecuteOptions)
| Proved (inv : ProofInvocationResult) (provingBlock : Z)
| Submitted (s : submission)
| Viewed (contract entry : string) (data : list string)
| AskedQuotes (sellToken buyToken sellAmount taker : string) (size : Z)
| AskedSwapCalls (quoteId : string) (slippage : Q)
| RefreshedBalances.

Record AvnuCalls : Type := { av_calls : list Call; av_executorAddress : option string }.
Record Receipt : Type := { rc_success : bool; rc_blockNumber : Z }.

(** The answers, given everything asked before. Selectors and the calldata of a list of calls are starknet.js. *)
Class DemoWorld := {
  dw_num :: StarknetNum;
  performance_now : nat -> Z;
  fee_answer : list demo_event -> result demo_error PaymasterFeeAction;
  fee_invoke_answer : list demo_event -> result demo_error (PaymasterFeeAction * option json);
  sign_answer : list demo_event -> result demo_error (list string);
  execute_answer : list demo_event -> result demo_error string;
  receipt_answer : list demo_event -> result demo_error Receipt;
  block_answer : list demo_event -> result demo_error Z;
  build_answer : list demo_event -> Actions -> ExecuteOptions -> result demo_error ProofInvocationResult;
  prove_answer : list demo_event -> ProofInvocationResult -> Z -> result demo_error (Call * Proof);
  submit_answer : list demo_event -> submission -> result demo_error string;
  view_answer : list demo_event -> result demo_error string;
  quotes_answer : list demo_event -> result demo_error (list string);
  swap_calls_answer : list demo_event -> result demo_error AvnuCalls;
  balances_answer : list demo_event -> result demo_error unit;
  fromCallsToExecuteCalldata_cairo1 : list Call -> list string
}.

(** What a flow returns. *)
Record FlowResult : Type := { fr_txHash : string; fr_proofSizeBytes : option Q; fr_blockNumber : option Z }.

(** The arguments of the hook: whether the accounts, the SDK and the node are there, and the last block of a transaction
    of the account. [hk_user] is the address the builder was made for. *)
Record Hook : Type := {
  hk_userAccount : bool;
  hk_adminAccount : bool;
  hk_transfers : bool;
  hk_provider : bool;
  hk_activeAddress : option string;
  hk_poolAddress : string;
  hk_user : Z;
  hk_lastTxBlockNumber : option Z;
  hk_onBalancesChanged : bool }.

Section Flows.
Context `{DemoWorld} (config : AppConfig) (hook : Hook).

Definition flow (A : Type) : Type := stateE (Timeline * list demo_event) demo_error A.

Definition ask {A} (e : demo_event) (answer : list demo_event -> result demo_error A) : flow A :=
  fun s => (answer s.2, (s.1, (s.2 ++ [e])%list)).
Definition tl_step {A} (label : string) (fn : flow A) : flow A := step performance_now label fn.

Definition PROVING_BLOCK_DEPTH : Z := 9.

(** [while (lastTxBlockNumber >= latestBlock - PROVING_BLOCK_DEPTH)]; the fuel bounds the polls. *)
Fixpoint wait_loop (fuel : nat) (last latest : Z) : flow Z :=
  if latest - PROVING_BLOCK_DEPTH <=? last then
    match fuel with
    | O => st_throw StillWaiting
    | S fuel =>
        _ ← ask (Slept 1000) (fun _ => Ok tt);
        latest ← ask AskedBlockNumber block_answer;
        wait_loop fuel last latest
    end
  else mret latest.

Definition waitForProvingBlock (fuel : nat) (lastTxBlockNumber : option Z) : flow Z :=
  latestBlock ← tl_step "Get block number" (ask AskedBlockNumber block_answer);
  latestBlock ← match lastTxBlockNumber with
                | Some last =>
                    if latestBlock - PROVING_BLOCK_DEPTH <=? last then tl_step "Wait for blocks" (wait_loop fuel last latestBlock)
                    else mret latestBlock
                | None => mret latestBlock
                end;
  mret (latestBlock - PROVING_BLOCK_DEPTH).

Definition has_paymaster : bool := match given (paymasterUrl config) with Some _ => true | None => false end.

Definition fetchPaymasterFee : flow (option PaymasterFeeAction) :=
  if has_paymaster then
    fee ← tl_step "Get paymaster fee" (ask (AskedFee (hk_poolAddress hook) (getFeeMode config)) fee_answer);
    mret (Some fee)
  else mret None.

(** [{ contractAddress: token, entrypoint: "approve", calldata: [pool, amount.toString(), "0"] }]. *)
Definition approve_call (token : string) (amount : Z) : Call :=
  {| contractAddress := token; entrypoint := "approve";
     calldata := Some [BN_string (hk_poolAddress hook); BN_string (bigint_toString 10 amount); BN_string "0"] |}.

(** A call of the user's account and the wait for its receipt, which is not looked at. *)
Definition execute_and_wait (admin : bool) (call : Call) : flow string :=
  tx ← tl_step "Estimate + submit" (ask (Executed admin call) execute_answer);
  _ ← tl_step "Wait for receipt" (ask (AwaitedReceipt tx) receipt_answer);
  mret tx.

Definition ensureFeeApproval (feeAction : option PaymasterFeeAction) (alreadyCovered : bool) : flow unit :=
  match feeAction with
  | Some _ => mret tt
  | None =>
      if alreadyCovered then mret tt
      else
        let fee := default 0 (feeAmount config) in
        if fee =? 0 then mret tt
        else tl_step "Approve fee" (_ ← execute_and_wait false (approve_call STRK_TOKEN_ADDRESS fee); mret tt)
  end.

(** Addresses and amounts as the builder reads them. *)
Definition num (s : string) : flow Z := st_lift (big s).

(** [addFeeWithdraw]: the fee is withdrawn to the paymaster. *)
Definition addFeeWithdraw (feeAction : option PaymasterFeeAction) (ops : list builder_op) : flow (list builder_op) :=
  match feeAction with
  | Some fee =>
      token ← num (fee_token fee);
      amount ← num (fee_amount fee);
      recipient ← num (fee_recipient fee);
      mret (ops ++ [BWith token [TWithdraw [{| out_recipient := Some recipient; out_amount := amount |}]]])%list
  | None => mret ops
  end.

Definition built (ops : list builder_op) : flow PrivateTransfersBuilder :=
  st_lift (match run_builder (hk_user hook) ops with Ok b => Ok b | Err e => Err (BuilderError e) end).

Definition proof_details (p : Proof) : option (list string * option string) :=
  match pf_proofFacts p with [] => None | facts => Some (facts, pf_data p) end.
Definition proof_size (p : Proof) : option Q := base64ByteLength <$> given (pf_data p).

Definition proving_options (block : Z) : OptionsInput :=
  {| oi_autoRegister := None; oi_notes := None; oi_channels := None; oi_autoSetup := None; oi_autoSelectNotes := None;
     oi_registryConst := None; oi_provingBlockId := Some (BN_number block) |}.

(** The part after the calls were collected: build, prove, submit and wait. *)
Definition submit_built (fuel : nat) (buildOptions : OptionsInput) (b : PrivateTransfersBuilder)
  (submit : Call -> Proof -> submission) (label : string) : flow FlowResult :=
  provingBlockId ← waitForProvingBlock fuel (hk_lastTxBlockNumber hook);
  let '(actions, options) := collectActionsAndOptions buildOptions (proving_options provingBlockId) b in
  invocation ← tl_step "Build transaction" (ask (BuiltInvocation actions options) (fun l => build_answer l actions options));
  callAndProof ← tl_step "Prove" (ask (Proved invocation provingBlockId) (fun l => prove_answer l invocation provingBlockId));
  let s := submit callAndProof.1 callAndProof.2 in
  txHash ← tl_step label (ask (Submitted s) (fun l => submit_answer l s));
  receipt ← tl_step "Wait for receipt" (ask (AwaitedReceipt txHash) receipt_answer);
  if rc_success receipt then
    mret {| fr_txHash := txHash; fr_proofSizeBytes := proof_size callAndProof.2; fr_blockNumber := Some (rc_blockNumber receipt) |}
  else st_throw TransactionReverted.

Definition paymaster_submission (call : Call) (p : Proof) (invoke : option (string * json * list string)) : submission :=
  ThroughPaymaster {| ps_call := toPaymasterCall call; ps_proof := pf_data p; ps_proofFacts := pf_proofFacts p; ps_invoke := invoke |} (getFeeMode config).
Definition account_submission (call : Call) (p : Proof) : submission := FromAccount call (proof_details p).

Definition buildProveSubmit (fuel : nat) (buildOptions : OptionsInput) (ops : list builder_op) (feeAction : option PaymasterFeeAction) : flow FlowResult :=
  ops ← addFeeWithdraw feeAction ops;
  b ← built ops;
  match feeAction with
  | Some _ => submit_built fuel buildOptions b (fun call p => paymaster_submission call p None) "Submit via paymaster"
  | None => submit_built fuel buildOptions b account_submission "Estimate + submit"
  end.

(** ** The flows *)

Definition discover_options (autoRegister autoSetup : option bool) (strategy : AutoSelectionStrategy) : OptionsInput :=
  {| oi_autoRegister := autoRegister; oi_notes := Some (NotesLevel refresh); oi_channels := Some refresh; oi_autoSetup := autoSetup;
     oi_autoSelectNotes := Some strategy; oi_registryConst := None; oi_provingBlockId := None |}.

Definition require (c : bool) (e : demo_error) : flow unit := if c then mret tt else st_throw e.

(** [if (!userAccount || !transfers || !provider || !activeAddress) throw new Error("Not ready")]. *)
Definition ready : flow string :=
  match given (hk_activeAddress hook) with
  | Some active => _ ← require (hk_userAccount hook && hk_transfers hook && hk_provider hook) NotReady; mret active
  | None => st_throw NotReady
  end.

Definition scaled (token humanAmount : string) : flow Z := st_lift (scaleAmount config token humanAmount).

Definition register (fuel : nat) : flow FlowResult :=
  _ ← require (hk_userAccount hook && hk_transfers hook && hk_provider hook) NotReady;
  _ ← ensureFeeApproval None false;
  buildProveSubmit fuel no_options [BRegister] None.

Definition mint (token amount : string) : flow FlowResult :=
  match given (hk_activeAddress hook) with
  | None => st_throw NotReady
  | Some active =>
      _ ← require (hk_adminAccount hook && hk_provider hook) NotReady;
      rawAmount ← scaled token amount;
      let tokenConfig := List.find (fun t => String.eqb (tk_address t) token) (tokens config) in
      let mintCall := {| contractAddress := token; entrypoint := default "permissionedMint" (tokenConfig ≫= tk_mintEntrypoint);
                         calldata := Some [BN_string active; BN_string (bigint_toString 10 rawAmount); BN_string "0"] |} in
      tx ← execute_and_wait true mintCall;
      _ ← (if hk_onBalancesChanged hook then ask RefreshedBalances balances_answer else mret tt);
      mret {| fr_txHash := tx; fr_proofSizeBytes := None; fr_blockNumber := None |}
  end.

Definition deposit (fuel : nat) (token amount : string) : flow FlowResult :=
  active ← ready;
  rawAmount ← scaled token amount;
  feeAction ← fetchPaymasterFee;
  strkDeposit ← (match feeAction with
                 | Some _ => mret false
                 | None => t ← num token; s ← num STRK_TOKEN_ADDRESS; mret (t =? s)
                 end : flow bool);
  let depositApprovalAmount := rawAmount + (if (strkDeposit : bool) then default 0 (feeAmount config) else 0) in
  _ ← tl_step "Approve" (_ ← execute_and_wait false (approve_call token depositApprovalAmount); mret tt);
  _ ← ensureFeeApproval feeAction strkDeposit;
  recipient ← num active;
  t ← num token;
  buildProveSubmit fuel (discover_options (Some true) (Some true) SelectNaive)
    [BSurplusTo recipient None; BWith t [TDeposit [{| in_recipient := Some recipient; in_amount := rawAmount |}]]] feeAction.

Definition withdraw (fuel : nat) (token amount : string) : flow FlowResult :=
  active ← ready;
  rawAmount ← scaled token amount;
  feeAction ← fetchPaymasterFee;
  _ ← ensureFeeApproval feeAction false;
  recipient ← num active;
  t ← num token;
  buildProveSubmit fuel (discover_options None None SelectNaive)
    [BSurplusTo recipient None; BWith t [TWithdraw [{| out_recipient := Some recipient; out_amount := rawAmount |}]]] feeAction.

Definition transfer (fuel : nat) (token recipient amount : string) : flow FlowResult :=
  active ← ready;
  rawAmount ← scaled token amount;
  feeAction ← fetchPaymasterFee;
  _ ← ensureFeeApproval feeAction false;
  surplus ← num active;
  t ← num token;
  r ← num recipient;
  buildProveSubmit fuel (discover_options None (Some true) SelectNaive)
    [BSurplusTo surplus None; BWith t [TTransfer [{| to_recipient := r; to_amount := AnAmount rawAmount |}]]] feeAction.

(** The error of a caller's call builder. *)
Definition no_open_note : sdk_error := ProviderError 0.

(** Withdraws to an executor, keeps the surplus, and opens a note for what the invocation returns. *)
Definition through_executor (surplus fromToken executor toToken amount : Z) (callBuilder : InvokeAction) : list builder_op :=
  [BSurplusTo surplus None;
   BWith fromToken [TWithdraw [{| out_recipient := Some executor; out_amount := amount |}]; TSurplusTo surplus (Some false)];
   BWith toToken [TTransfer [{| to_recipient := surplus; to_amount := Open |}]];
   BInvoke callBuilder].

Definition swap_call (executor router fromToken : string) (rawAmount : Z) (pool : EkuboPool) (minReceivedRaw : Z) : InvokeAction := fun args =>
  match args_openNotes args with
  | [] => Err no_open_note
  | openNote :: _ =>
      Ok {| cd_contractAddress := BN_string executor;
            cd_calldata := Some [BN_string router; BN_string fromToken; BN_bigint rawAmount; BN_bigint 0; BN_string (ek_token0 pool);
              BN_string (ek_token1 pool); BN_string (ek_fee pool); BN_string (ek_tickSpacing pool); BN_string (ek_extension pool);
              BN_bigint (Z.land minReceivedRaw (Z.shiftl 1 128 - 1)); BN_bigint (Z.shiftr minReceivedRaw 128);
              BN_string (ek_skipAhead pool); BN_bigint (ion_noteId openNote)] |}
  end.

Definition swap (fuel : nat) (fromToken toToken amount : string) (minReceivedRaw : Z) : flow FlowResult :=
  active ← ready;
  match ekubo config with
  | None => st_throw NoEkuboConfig
  | Some ek =>
      rawAmount ← scaled fromToken amount;
      found ← st_lift (findEkuboPool ek fromToken toToken);
      match found with
      | None => st_throw NoEkuboPool
      | Some pool =>
          feeAction ← fetchPaymasterFee;
          _ ← ensureFeeApproval feeAction false;
          surplus ← num active; from ← num fromToken; executor ← num (ek_executorAddress ek); to ← num toToken;
          buildProveSubmit fuel (discover_options None (Some true) SelectAll)
            (through_executor surplus from executor to rawAmount
               (swap_call (ek_executorAddress ek) (ek_routerAddress ek) fromToken rawAmount pool minReceivedRaw)) feeAction
      end
  end.

Definition avnu_call (executor toToken : string) (innerCalls : list Call) : InvokeAction := fun args =>
  match args_openNotes args with
  | [] => Err no_open_note
  | openNote :: _ =>
      Ok {| cd_contractAddress := BN_string executor;
            cd_calldata := Some (BN_string toToken :: map BN_string (fromCallsToExecuteCalldata_cairo1 innerCalls) ++ [BN_bigint (ion_noteId openNote)])%list |}
  end.

(** [getQuotes] asks with the amount in hexadecimal. *)
Definition quote_amount (z : Z) : string := "0x" +:+ bigint_toString 16 z.

Definition avnuSwap (fuel : nat) (fromToken toToken amount : string) (slippageBps : Z) : flow FlowResult :=
  active ← ready;
  rawAmount ← scaled fromToken amount;
  feeAction ← fetchPaymasterFee;
  match feeAction with
  | None => st_throw NeedsPaymaster
  | Some _ =>
      quotes ← tl_step "Get AVNU quote" (ask (AskedQuotes fromToken toToken (quote_amount rawAmount) active 1) quotes_answer);
      match quotes with
      | [] => st_throw NoQuote
      | quoteId :: _ =>
          avnuCalls ← tl_step "Build swap calls" (ask (AskedSwapCalls quoteId (inject_Z slippageBps / 10000)%Q) swap_calls_answer);
          match given (av_executorAddress avnuCalls) with
          | None => st_throw NoExecutor
          | Some executorAddress =>
              surplus ← num active; from ← num fromToken; executor ← num executorAddress; to ← num toToken;
              buildProveSubmit fuel (discover_options None (Some true) SelectAll)
                (through_executor surplus from executor to rawAmount (avnu_call executorAddress toToken (av_calls avnuCalls))) feeAction
          end
      end
  end.

(** [args.openNotes[0].noteId] of an empty array is a [TypeError]. *)
Definition vesu_call (anonymizer : string) (operation : Z) (inToken outToken : string) (assets : Z) : InvokeAction := fun args =>
  match args_openNotes args with
  | [] => Err JsTypeError
  | openNote :: _ =>
      Ok {| cd_contractAddress := BN_string anonymizer;
            cd_calldata := Some [BN_bigint operation; BN_string inToken; BN_string outToken; BN_bigint assets; BN_bigint 0; BN_bigint (ion_noteId openNote)] |}
  end.

Definition vesuSupply (fuel : nat) (token vTokenAddress amount : string) : flow FlowResult :=
  active ← ready;
  match vesu_anonymizerAddress config with
  | None => st_throw NoVesuConfig
  | Some anonymizer =>
      rawAmount ← scaled token amount;
      feeAction ← fetchPaymasterFee;
      _ ← ensureFeeApproval feeAction false;
      surplus ← num active; from ← num token; executor ← num anonymizer; to ← num vTokenAddress;
      buildProveSubmit fuel (discover_options None (Some true) SelectAll)
        (through_executor surplus from executor to rawAmount (vesu_call anonymizer 0 token vTokenAddress rawAmount)) feeAction
  end.

(** [previewRedeem]: the low half of the answer. *)
Definition previewRedeem (vTokenAddress : string) (shares : Z) : flow Z :=
  low ← ask (Viewed vTokenAddress "preview_redeem" [bigint_toString 10 shares; "0"]) view_answer;
  num low.

Definition vesuWithdraw (fuel : nat) (token vTokenAddress amount : string) : flow FlowResult :=
  active ← ready;
  match vesu_anonymizerAddress config with
  | None => st_throw NoVesuConfig
  | Some anonymizer =>
      rawShares ← scaled vTokenAddress amount;
      rawAssets ← tl_step "Preview redeem" (previewRedeem vTokenAddress rawShares);
      feeAction ← fetchPaymasterFee;
      _ ← ensureFeeApproval feeAction false;
      surplus ← num active; from ← num vTokenAddress; executor ← num anonymizer; to ← num token;
      buildProveSubmit fuel (discover_options None (Some true) SelectAll)
        (through_executor surplus from executor to rawShares (vesu_call anonymizer 1 vTokenAddress token rawAssets)) feeAction
  end.

(** ** Running a flow *)

Record TransactionStatus : Type := {
  ts_pending : bool; ts_action : option string; ts_lastTxHash : option string; ts_lastError : option (string * demo_error);
  ts_proofSizeBytes : option Q }.

(** [execute]: the final status, the block number for [updateLastTxBlockNumber], and what was recorded and asked. The
    callback [onSettled] is called once, after the status was set. *)
Definition execute (action : string) (fn : flow FlowResult) : TransactionStatus * option Z * Timeline * list demo_event :=
  match tl_step action fn (new_Timeline, []) with
  | (Ok result, (tl, log)) =>
      ({| ts_pending := false; ts_action := Some action; ts_lastTxHash := Some (fr_txHash result); ts_lastError := None;
          ts_proofSizeBytes := fr_proofSizeBytes result |}, fr_blockNumber result, tl, log)
  | (Err e, (tl, log)) =>
      ({| ts_pending := false; ts_action := Some action; ts_lastTxHash := None; ts_lastError := Some (action, e);
          ts_proofSizeBytes := None |}, None, tl, log)
  end.
End Flows.

(** ** The last block of a transaction of the account ([useLastTxBlock.ts]) *)

(** [updateLastTxBlockNumber] and the initialisation from the history. *)
Definition updateLastTxBlockNumber (current : option Z) (blockNumber : Z) : option Z :=
  match current with
  | None => Some blockNumber
  | Some c => if c <? blockNumber then Some blockNumber else current
  end.
Definition initLastTxBlockNumber (current : option Z) (history : list Z) : option Z :=
  match current, history with
  | None, b :: bs => Some (fold_left Z.max bs b)
  | _, _ => current
  end.
