(* ===== verification/DemoFlowsSafety.v ===== *)
(** * What the demo's transactions are backed by

    Every flow of [DemoFlows] submits at most once, after a block that its proof can see, what was proved of the actions
    it built, with the allowances that the pool will draw on. Its timeline is closed and nested. *)
From Stdlib Require Import Ascii ZArith Lia QArith.
From stdpp Require Import base tactics list strings.
From S2P Require Import Prelude JsMap Convert Interfaces Builders StarknetCalls Json ProvingService ProofInvocation Proving SdkWallet DemoFormat DemoTimeline DemoFlows.

Local Open Scope string_scope.
Local Open Scope Z_scope.

(** ** Outcomes: what holds of the log when a flow returns and when it throws *)

Section Outcomes.
Context `{DemoWorld}.
Implicit Types (P R : list demo_event -> Prop).

Definition outcome {A} P (m : flow A) (Q : A -> list demo_event -> Prop) R : Prop :=
  forall tl l r tl' l', P l -> m (tl, l) = (r, (tl', l')) -> match r with Ok a => Q a l' | Err _ => R l' end.

Lemma outcome_bind {A B} P (m : flow A) (Q : A -> list demo_event -> Prop) (k : A -> flow B) S R :
  outcome P m Q R -> (forall a, outcome (Q a) (k a) S R) -> outcome P (m ≫= k) S R.
Proof.
  intros Hm Hk tl l r tl' l' Hp. unfold mbind, stateE_bind. destruct (m (tl, l)) as [[a|e] [tl1 l1]] eqn:H1; specialize (Hm _ _ _ _ _ Hp H1).
  - by apply Hk.
  - by intros [= <- <- <-].
Qed.

Lemma outcome_ret {A} P (a : A) (Q : A -> list demo_event -> Prop) R : (forall l, P l -> Q a l) -> outcome P (mret a : flow A) Q R.
Proof. intros HP tl l r tl' l' Hl [= <- <- <-]. by apply HP. Qed.
Lemma outcome_throw {A} P (e : demo_error) (Q : A -> list demo_event -> Prop) R : (forall l, P l -> R l) -> outcome P (st_throw e) Q R.
Proof. intros HP tl l r tl' l' Hl [= <- <- <-]. by apply HP. Qed.
Lemma outcome_lift {A} P (v : result demo_error A) (Q : A -> list demo_event -> Prop) R :
  (forall l a, P l -> v = Ok a -> Q a l) -> (forall l, P l -> R l) -> outcome P (st_lift v) Q R.
Proof. intros HQ HR tl l r tl' l' Hl [= <- <- <-]. destruct v as [a|e]; [by apply HQ|by apply HR]. Qed.
Lemma outcome_ask {A} P (e : demo_event) (answer : list demo_event -> result demo_error A) (Q : A -> list demo_event -> Prop) R :
  (forall l a, P l -> answer l = Ok a -> Q a (l ++ [e])%list) -> (forall l, P l -> R (l ++ [e])%list) -> outcome P (ask e answer) Q R.
Proof.
  intros HQ HR tl l r tl' l' Hl. unfold ask. cbn [fst snd]. destruct (answer l) as [a|x] eqn:Ha; intros [= <- <- <-]; [by apply HQ|by apply HR].
Qed.
Lemma outcome_step {A} P label (fn : flow A) (Q : A -> list demo_event -> Prop) R : outcome P fn Q R -> outcome P (tl_step label fn) Q R.
Proof.
  intros Hf tl l r tl' l' Hl. unfold tl_step, step. cbn [fst snd]. destruct (fn _) as [r1 [tl1 l1]] eqn:Hr. intros [= <- <- <-].
  exact (Hf _ _ _ _ _ Hl Hr).
Qed.
Lemma outcome_weaken {A} P P' (m : flow A) (Q Q' : A -> list demo_event -> Prop) R R' :
  (forall l, P l -> P' l) -> outcome P' m Q' R' -> (forall a l, Q' a l -> Q a l) -> (forall l, R' l -> R l) -> outcome P m Q R.
Proof. intros HP Hm HQ HR tl l r tl' l' Hl Hr. specialize (Hm _ _ _ _ _ (HP _ Hl) Hr). destruct r; [by apply HQ|by apply HR]. Qed.
(** A fact that does not depend on the log. *)
Lemma outcome_pure {A} P (phi : Prop) (m : flow A) Q R : (phi -> outcome P m Q R) -> outcome (fun l => P l /\ phi) m Q R.
Proof. intros Hm tl l r tl' l' [Hl Hphi]. by apply Hm. Qed.
End Outcomes.

Section Safety.
Context `{DemoWorld} (config : AppConfig) (hook : Hook) (fee : Z).

Definition is_submission (e : demo_event) : bool := match e with Submitted _ => true | _ => false end.
Definition calm (l : list demo_event) : Prop := Forall (fun e => is_submission e = false) l.

(** ** Allowances *)

(** A call that approves the pool: the token and the amount, of two halves. *)
Definition approval_call (token : string) (data : list BigNumberish) : list (Z * Z) :=
  match data with
  | [spender; low; high] =>
      if decide (spender = BN_string (hk_poolAddress hook)) then
        match BigInt_of_string token, toBigInt low, toBigInt high with
        | Some t, Some a, Some h => [(t, a + h * 2 ^ 128)]
        | _, _, _ => []
        end
      else []
  | _ => []
  end.
(** The approvals of a call of the user, or of the calls that the paymaster is asked to take along. *)
Definition approvals_of (e : demo_event) : list (Z * Z) :=
  match e with
  | Executed false {| contractAddress := token; entrypoint := "approve"; calldata := Some data |} => approval_call token data
  | AskedFeeWithInvoke _ _ _ calls =>
      flat_map (fun c => if String.eqb (pc_selectorOf c) (@getSelectorFromName dw_num "approve") then approval_call (pc_target c) (pc_data c) else []) calls
  | _ => []
  end.

(** What the pool may draw of a token: the last approval counts. *)
Definition set_allowance (token : Z) (acc : Z) (p : Z * Z) : Z := if p.1 =? token then p.2 else acc.
Definition allow (token : Z) (acc : Z) (e : demo_event) : Z := fold_left (set_allowance token) (approvals_of e) acc.
Definition allowance (l : list demo_event) (token : Z) : Z := fold_left (allow token) l 0.

(** [STRK_TOKEN_ADDRESS] as a number. *)
Definition STRK : Z := default 0 (BigInt_of_string STRK_TOKEN_ADDRESS).

(** What [apply_actions] draws: the deposits, and the pool fee from the caller, who is the user without a paymaster. *)
Definition deposited (actions : Actions) (token : Z) : Z :=
  sumZ dep_amount (filter (fun d => dep_token d = token) (default [] (deposits actions))).
Definition fee_due (paid_by_paymaster : bool) (token : Z) : Z := if (negb paid_by_paymaster && (token =? STRK))%bool then fee else 0.
Definition by_paymaster (s : submission) : bool := match s with ThroughPaymaster _ _ => true | FromAccount _ _ => false end.

(** The paymaster was asked for this fee. *)
Definition quoted (l : list demo_event) (f : PaymasterFeeAction) : Prop := exists l1 e l2, l = (l1 ++ e :: l2)%list /\
  ((e = AskedFee (hk_poolAddress hook) (getFeeMode config) /\ fee_answer l1 = Ok f) \/
   exists user calls td, e = AskedFeeWithInvoke (hk_poolAddress hook) (getFeeMode config) user calls /\ fee_invoke_answer l1 = Ok (f, td)).

(** What the paymaster takes along: the message of its quote and the user's signature of it, if it was asked to take calls along. *)
Definition asks_invoke (e : demo_event) : bool := match e with AskedFeeWithInvoke _ _ _ _ => true | _ => false end.
Definition signed (l : list demo_event) (invoke : option (string * json * list string)) : Prop :=
  match invoke with
  | None => Forall (fun e => asks_invoke e = false) l
  | Some (user, td, signature) => exists l1 calls f l2,
      l = (l1 ++ [AskedFeeWithInvoke (hk_poolAddress hook) (getFeeMode config) user calls; AskedSign td] ++ l2)%list /\
      fee_invoke_answer l1 = Ok (f, Some td) /\
      sign_answer (l1 ++ [AskedFeeWithInvoke (hk_poolAddress hook) (getFeeMode config) user calls])%list = Ok signature
  end.
(** It is withdrawn to whom it is for. *)
Definition pays (actions : Actions) (f : PaymasterFeeAction) : Prop := exists token amount recipient,
  BigInt_of_string (fee_token f) = Some token /\ BigInt_of_string (fee_amount f) = Some amount /\ BigInt_of_string (fee_recipient f) = Some recipient /\
  {| wd_recipient := recipient; wd_token := token; wd_amount := amount |} ∈ default [] (withdraws actions).

(** A submission: what was proved of the built actions, at a block after the last transaction of the account, which pay the fee
    of the paymaster and draw no more than is allowed. *)
Definition justified (pre : list demo_event) (s : submission) : Prop :=
  exists l0 actions options inv block call p,
    pre = (l0 ++ [BuiltInvocation actions options; Proved inv block])%list /\
    build_answer l0 actions options = Ok inv /\ prove_answer (l0 ++ [BuiltInvocation actions options])%list inv block = Ok (call, p) /\
    provingBlockId options = Some (BN_number block) /\ (forall last, hk_lastTxBlockNumber hook = Some last -> last < block) /\
    match s with
    | ThroughPaymaster ps _ => ps_call ps = toPaymasterCall (H := dw_num) call /\ ps_proof ps = pf_data p /\ ps_proofFacts ps = pf_proofFacts p /\
        signed l0 (ps_invoke ps) /\ exists f, quoted l0 f /\ pays actions f
    | FromAccount c details => c = call /\ details = proof_details p
    end /\
    forall token, deposited actions token + fee_due (by_paymaster s) token <= allowance pre token.

Definition safe (l : list demo_event) : Prop :=
  forall pre s post, l = (pre ++ Submitted s :: post)%list -> calm pre /\ calm post /\ justified pre s.

(** What a flow that returns has done last: it submitted, and the receipt of that transaction was a success. *)
Definition settled (r : FlowResult) (l : list demo_event) : Prop :=
  safe l /\ exists pre s receipt, l = (pre ++ [Submitted s; AwaitedReceipt (fr_txHash r)])%list /\ submit_answer pre s = Ok (fr_txHash r) /\
    receipt_answer (pre ++ [Submitted s])%list = Ok receipt /\ rc_success receipt = true /\ fr_blockNumber r = Some (rc_blockNumber receipt).

Lemma calm_app l l' : calm (l ++ l')%list <-> calm l /\ calm l'.
Proof. apply Forall_app. Qed.

Lemma calm_safe l : calm l -> safe l.
Proof. intros Hc pre s post ->. apply calm_app in Hc as [_ Hc]. inversion Hc. done. Qed.

Lemma safe_submit pre s : calm pre -> justified pre s -> safe (pre ++ [Submitted s])%list.
Proof.
  intros Hc Hj pre' s' post Heq. destruct (decide (post = [])) as [->|Hne].
  - apply app_inj_tail in Heq as [-> [= ->]]. split_and!; [done|constructor|done].
  - exfalso. destruct (exists_last Hne) as (post' & e & ->). rewrite app_comm_cons, app_assoc in Heq.
    apply app_inj_tail in Heq as [-> _]. apply calm_app in Hc as [_ Hc]. inversion Hc. done.
Qed.

Lemma safe_snoc l e : is_submission e = false -> safe l -> safe (l ++ [e])%list.
Proof.
  intros He Hl pre s post Heq. destruct (decide (post = [])) as [->|Hne].
  - apply app_inj_tail in Heq as [_ ->]. done.
  - destruct (exists_last Hne) as (post' & e' & ->). rewrite app_comm_cons, app_assoc in Heq.
    apply app_inj_tail in Heq as [-> ->]. destruct (Hl pre s post' eq_refl) as (? & ? & ?). split_and!; try done.
    apply calm_app. split; [done|]. by repeat constructor.
Qed.

Lemma allowance_snoc l e token : allowance (l ++ [e])%list token = allow token (allowance l token) e.
Proof. unfold allowance. by rewrite fold_left_app. Qed.

Lemma quoted_snoc l e f : quoted l f -> quoted (l ++ [e])%list f.
Proof. intros (l1 & x & l2 & -> & Hf). exists l1, x, (l2 ++ [e])%list. split; [by rewrite <- app_assoc|done]. Qed.

Lemma signed_snoc l e invoke : asks_invoke e = false -> signed l invoke -> signed (l ++ [e])%list invoke.
Proof.
  intros He. destruct invoke as [[[user td] signature]|]; cbn.
  - intros (l1 & calls & f & l2 & -> & Hf & Hs). exists l1, calls, f, (l2 ++ [e])%list. split_and!; try done. by rewrite <- app_assoc.
  - intros Hl. apply Forall_app. split; [done|]. by repeat constructor.
Qed.

Lemma approve_approves token amount : approvals_of (Executed false (approve_call hook token amount)) =
  match BigInt_of_string token with Some t => [(t, amount)] | None => [] end.
Proof.
  cbn [approvals_of approve_call approval_call]. rewrite decide_True by done. destruct (BigInt_of_string token) as [t|]; [|done].
  change (toBigInt (BN_string "0")) with (Some 0). cbn [toBigInt]. rewrite BigInt_decimal. do 2 f_equal. lia.
Qed.

Context (message : option (string * json * list string)).

(** The facts a flow carries to its submission: nothing is submitted yet, the allowances are these, the fee is quoted, and this is
    what the paymaster takes along. *)
Record prepared (allowed : Z -> Z) (f : option PaymasterFeeAction) (l : list demo_event) : Prop := {
  pr_calm : calm l;
  pr_allowed : forall t, allowance l t = allowed t;
  pr_quoted : match f with Some f => quoted l f | None => True end;
  pr_signed : signed l message }.

(** An event that changes none of it. *)
Definition plain (e : demo_event) : Prop := is_submission e = false /\ approvals_of e = [] /\ asks_invoke e = false.

Lemma prepared_snoc allowed f l e : plain e -> prepared allowed f l -> prepared allowed f (l ++ [e])%list.
Proof.
  intros (He & Ha & Hi) [Hc Hal Hq Hs]. split.
  - apply calm_app. split; [done|]. by repeat constructor.
  - intros t. rewrite allowance_snoc. unfold allow. rewrite Ha. apply Hal.
  - destruct f; [by apply quoted_snoc|done].
  - by apply signed_snoc.
Qed.
Lemma prepared_safe allowed f l : prepared allowed f l -> safe l.
Proof. intros [Hc _ _ _]. by apply calm_safe. Qed.
Lemma prepared_safe_snoc allowed f l e : is_submission e = false -> prepared allowed f l -> safe (l ++ [e])%list.
Proof. intros He Hp. apply safe_snoc; [done|]. by eapply prepared_safe. Qed.

(** ** The common part *)

Lemma ask_prepared {A} allowed f e (answer : list demo_event -> result demo_error A) : plain e ->
  outcome (prepared allowed f) (ask e answer) (fun _ => prepared allowed f) safe.
Proof.
  intros He. apply outcome_ask; intros l; [intros a Hp _; by apply prepared_snoc|intros Hp; eapply prepared_safe_snoc; [apply He|done]].
Qed.

Lemma lift_prepared {A} allowed f (v : result demo_error A) :
  outcome (prepared allowed f) (st_lift v) (fun a l => prepared allowed f l /\ v = Ok a) safe.
Proof. apply outcome_lift; intros l; [by intros a Hp Hv|apply prepared_safe]. Qed.

Lemma ret_prepared {A} allowed f (a : A) : outcome (prepared allowed f) (mret a : flow A) (fun b l => prepared allowed f l /\ b = a) safe.
Proof. by apply outcome_ret. Qed.

Lemma wait_loop_prepared allowed f fuel last latest :
  outcome (prepared allowed f) (wait_loop fuel last latest) (fun b l => prepared allowed f l /\ last < b - PROVING_BLOCK_DEPTH) safe.
Proof.
  revert latest. induction fuel as [|fuel IH]; intros latest; cbn [wait_loop].
  all: destruct (Z.leb_spec (latest - PROVING_BLOCK_DEPTH) last) as [Hle|Hgt]; [|apply outcome_ret; intros l Hp; split; [done|lia]].
  - apply outcome_throw, prepared_safe.
  - eapply outcome_bind; [by apply ask_prepared|]. intros ?. cbv beta. eapply outcome_bind; [by apply ask_prepared|]. intros b. cbv beta. apply IH.
Qed.

Lemma waitForProvingBlock_prepared allowed f fuel last :
  outcome (prepared allowed f) (waitForProvingBlock fuel last)
    (fun b l => prepared allowed f l /\ forall x, last = Some x -> x < b) safe.
Proof.
  unfold waitForProvingBlock. eapply outcome_bind; [by apply outcome_step, ask_prepared|]. intros latest. cbv beta.
  apply (outcome_bind _ _ (fun b l => prepared allowed f l /\ forall x, last = Some x -> x < b - PROVING_BLOCK_DEPTH)).
  - destruct last as [x|]; [|by apply outcome_ret].
    destruct (Z.leb_spec (latest - PROVING_BLOCK_DEPTH) x) as [Hle|Hgt].
    + apply outcome_step. eapply outcome_weaken; [done|apply wait_loop_prepared| |done].
      intros b l [Hp Hb]. split; [done|]. intros y Hy. injection Hy as ->. done.
    + apply outcome_ret. intros l Hp. split; [done|]. intros y Hy. injection Hy as ->. lia.
  - intros b. apply outcome_ret. intros l [Hp Hb]. done.
Qed.

(** What the submission of built calls needs: allowances for what they draw, and the fee among their withdrawals. *)
Definition affordable (f : option PaymasterFeeAction) (allowed : Z -> Z) (actions : Actions) : Prop :=
  (forall t, deposited actions t + fee_due (bool_decide (is_Some f)) t <= allowed t) /\
  match f with Some f => pays actions f | None => True end.

Definition submitted_by (f : option PaymasterFeeAction) (submit : Call -> Proof -> submission) : Prop :=
  match f with
  | Some _ => submit = fun call p => paymaster_submission config call p message
  | None => submit = account_submission
  end.

Lemma submit_built_safe fuel buildOptions b submit label allowed f :
  affordable f allowed (collectActions b) -> submitted_by f submit ->
  outcome (prepared allowed f) (submit_built hook fuel buildOptions b submit label) settled safe.
Proof.
  intros [Hdraw Hpays] Hsub. unfold submit_built. eapply outcome_bind; [apply waitForProvingBlock_prepared|]. intros block. cbv beta.
  unfold collectActionsAndOptions. set (actions := collectActions b) in *. set (options := merge_options _ _).
  apply outcome_pure. intros Hblock. set (eb := BuiltInvocation actions options).
  apply (outcome_bind _ _ (fun inv l => exists l0, l = (l0 ++ [eb])%list /\ prepared allowed f l0 /\ build_answer l0 actions options = Ok inv)).
  { apply outcome_step, outcome_ask; [eauto|]. intros l Hp. by eapply prepared_safe_snoc. }
  intros inv. set (ep := Proved inv block).
  apply (outcome_bind _ _ (fun cp l => exists l0, l = (l0 ++ [eb; ep])%list /\ prepared allowed f l0 /\ build_answer l0 actions options = Ok inv /\
    prove_answer (l0 ++ [eb])%list inv block = Ok cp)).
  { apply outcome_step, outcome_ask.
    - intros l cp (l0 & -> & Hp & Hb) Ha. exists l0. by rewrite <- app_assoc.
    - intros l (l0 & -> & Hp & _). apply safe_snoc; [done|]. by eapply prepared_safe_snoc. }
  intros [call p]. cbn [fst snd].
  assert (Hsafe : forall l, (exists l0, l = (l0 ++ [eb; ep])%list /\ prepared allowed f l0 /\ build_answer l0 actions options = Ok inv /\
    prove_answer (l0 ++ [eb])%list inv block = Ok (call, p)) -> safe (l ++ [Submitted (submit call p)])%list).
  { intros l (l0 & -> & [Hc Hal Hq Hs] & Hb & Hp). apply safe_submit.
    - apply calm_app. split; [done|]. by repeat constructor.
    - exists l0, actions, options, inv, block, call, p. split_and!; try done.
      + destruct f as [f|]; rewrite Hsub; [|done]. split_and!; try done. by exists f.
      + intros t. replace (l0 ++ [eb; ep])%list with ((l0 ++ [eb]) ++ [ep])%list by by rewrite <- app_assoc.
        rewrite !allowance_snoc. cbn. rewrite Hal. specialize (Hdraw t). by destruct f; rewrite Hsub. }
  set (s := submit call p).
  apply (outcome_bind _ _ (fun tx l => safe l /\ exists pre, l = (pre ++ [Submitted s])%list /\ submit_answer pre s = Ok tx)).
  { apply outcome_step, outcome_ask; [|apply Hsafe]. intros l tx Hl Htx. split; [by apply Hsafe|by exists l]. }
  intros tx. apply (outcome_bind _ _ (fun receipt l => safe l /\ exists pre, l = (pre ++ [Submitted s; AwaitedReceipt tx])%list /\
    submit_answer pre s = Ok tx /\ receipt_answer (pre ++ [Submitted s])%list = Ok receipt)).
  { apply outcome_step, outcome_ask; [|intros l [Hl _]; by apply safe_snoc]. intros l receipt [Hl (pre & -> & Htx)] Hr.
    split; [by apply safe_snoc|]. exists pre. by rewrite <- app_assoc. }
  intros receipt. destruct (rc_success receipt) eqn:Hok; [|by apply outcome_throw; intros l []].
  apply outcome_ret. intros l [Hl (pre & Hpre & Htx & Hr)]. split; [done|]. by exists pre, s, receipt.
Qed.

(** ** Builder calls *)

(** What a chain of calls draws of a token. *)
Definition asked_deposits (ops : list builder_op) (t : Z) : Z := sumZ dep_amount (flat_map (asked_for adds_deposits t) ops).

Lemma deposited_built ops b t : run_builder (hk_user hook) ops = Ok b -> deposited (collectActions b) t = asked_deposits ops t.
Proof.
  intros Hb. unfold deposited, asked_deposits. by destruct (collected_at_token _ ops b t Hb) as (_ & _ & -> & _ & _).
Qed.

Lemma pays_built ops b f token amount recipient : run_builder (hk_user hook) ops = Ok b ->
  BigInt_of_string (fee_token f) = Some token -> BigInt_of_string (fee_amount f) = Some amount -> BigInt_of_string (fee_recipient f) = Some recipient ->
  BWith token [TWithdraw [{| out_recipient := Some recipient; out_amount := amount |}]] ∈ ops -> pays (collectActions b) f.
Proof.
  intros Hb Ht Ha Hr Hin. exists token, amount, recipient. split_and!; try done.
  destruct (collected_at_token _ ops b token Hb) as (_ & _ & _ & _ & Hw).
  assert (Hx : {| wd_recipient := recipient; wd_token := token; wd_amount := amount |} ∈ flat_map (asked_for (adds_withdraws (hk_user hook)) token) ops).
  { apply list_elem_of_In, in_flat_map. eexists. split; [by apply list_elem_of_In|]. cbn. rewrite decide_True by done. by left. }
  rewrite <- Hw in Hx. by apply list_elem_of_filter in Hx as [_ Hx].
Qed.

Lemma asked_deposits_app ops ops' t : asked_deposits (ops ++ ops')%list t = asked_deposits ops t + asked_deposits ops' t.
Proof. unfold asked_deposits. by rewrite flat_map_app, sumZ_app. Qed.

(** The calls with the fee of the paymaster: they draw nothing more, and what they collect to pays it. *)
Lemma addFee_prepared ops f allowed :
  outcome (prepared allowed f) (addFeeWithdraw f ops) (fun ops' l => prepared allowed f l /\
    (forall t, asked_deposits ops' t = asked_deposits ops t) /\
    forall b, run_builder (hk_user hook) ops' = Ok b -> match f with Some f => pays (collectActions b) f | None => True end) safe.
Proof.
  destruct f as [f|]; cbn [addFeeWithdraw]; [|by apply outcome_ret]. unfold num, big.
  destruct (BigInt_of_string (fee_token f)) as [token|] eqn:Ht; [|apply outcome_throw, prepared_safe].
  destruct (BigInt_of_string (fee_amount f)) as [amount|] eqn:Ha; [|apply outcome_throw, prepared_safe].
  destruct (BigInt_of_string (fee_recipient f)) as [recipient|] eqn:Hr; [|apply outcome_throw, prepared_safe].
  set (w := BWith token [TWithdraw [{| out_recipient := Some recipient; out_amount := amount |}]]).
  assert (Hw : forall t, asked_deposits [w] t = 0) by (intros t; unfold asked_deposits; cbn; by case_decide).
  apply (outcome_ret _ (ops ++ [w])%list). intros l Hp. split_and!; [done|intros t; rewrite asked_deposits_app, Hw; lia|].
  intros b Hb. eapply pays_built; try done. apply elem_of_app. right. by left.
Qed.

Lemma built_prepared {A} ops f allowed (k : PrivateTransfersBuilder -> flow A) Q :
  (forall b, run_builder (hk_user hook) ops = Ok b -> outcome (prepared allowed f) (k b) Q safe) ->
  outcome (prepared allowed f) (built hook ops ≫= k) Q safe.
Proof.
  intros Hk. unfold built. destruct (run_builder (hk_user hook) ops) as [b|e].
  - eapply outcome_bind; [apply lift_prepared|]. intros b'. apply outcome_pure. intros [= <-]. by apply Hk.
  - apply (outcome_bind _ _ (fun _ _ => False)); [apply outcome_throw, prepared_safe|by intros ? ? ? ? ? ?].
Qed.

Lemma buildProveSubmit_safe fuel buildOptions ops f allowed : message = None ->
  (forall t, asked_deposits ops t + fee_due (bool_decide (is_Some f)) t <= allowed t) ->
  outcome (prepared allowed f) (buildProveSubmit config hook fuel buildOptions ops f) settled safe.
Proof.
  intros Hmessage Hdraw. unfold buildProveSubmit. eapply outcome_bind; [apply addFee_prepared|]. intros ops'. apply outcome_pure. intros [Hsame Hpays].
  apply built_prepared. intros b Hb.
  assert (Haff : affordable f allowed (collectActions b)).
  { split; [|by apply Hpays]. intros t. rewrite (deposited_built _ _ t Hb), Hsame. apply Hdraw. }
  destruct f as [f|]; apply submit_built_safe; try done. cbn. by rewrite Hmessage.
Qed.

(** ** Before the builder *)

Context (Hfee : default 0 (feeAmount config) = fee).

Definition approved (token : string) (amount : Z) (allowed : Z -> Z) (t : Z) : Z :=
  match BigInt_of_string token with Some t' => if t' =? t then amount else allowed t | None => allowed t end.

Lemma approved_snoc allowed f token amount l : prepared allowed f l ->
  prepared (approved token amount allowed) f (l ++ [Executed false (approve_call hook token amount)])%list.
Proof.
  intros [Hc Hal Hq Hs]. split.
  - apply calm_app. split; [done|]. by repeat constructor.
  - intros x. rewrite allowance_snoc. unfold allow, approved. rewrite approve_approves, Hal. by destruct (BigInt_of_string token).
  - destruct f; [by apply quoted_snoc|done].
  - by apply signed_snoc.
Qed.

Lemma approve_prepared allowed f token amount :
  outcome (prepared allowed f) (execute_and_wait false (approve_call hook token amount)) (fun _ => prepared (approved token amount allowed) f) safe.
Proof.
  unfold execute_and_wait. apply (outcome_bind _ _ (fun _ => prepared (approved token amount allowed) f)).
  - apply outcome_step, outcome_ask; [|intros l Hp; by eapply prepared_safe_snoc]. intros l tx Hp _. by apply approved_snoc.
  - intros tx. eapply outcome_bind; [by apply outcome_step, ask_prepared|]. intros ?. cbv beta. by apply outcome_ret.
Qed.

Lemma fetch_prepared allowed : outcome (prepared allowed None) (fetchPaymasterFee config hook) (prepared allowed) safe.
Proof.
  unfold fetchPaymasterFee. destruct (has_paymaster config); [|by apply outcome_ret].
  apply (outcome_bind _ _ (fun f => prepared allowed (Some f))); [|intros f; by apply outcome_ret].
  apply outcome_step, outcome_ask; [|intros l Hp; by eapply prepared_safe_snoc]. intros l f Hp Hf.
  set (e := AskedFee (hk_poolAddress hook) (getFeeMode config)).
  assert (Hpl : plain e) by done. destruct (prepared_snoc _ _ _ _ Hpl Hp) as [Hc Hal _ Hs].
  split; [done|done| |done]. exists l, e, []. split; [done|]. by left.
Qed.

(** The allowances once the pool fee is taken care of. *)
Definition with_fee (f : option PaymasterFeeAction) (covered : bool) (allowed : Z -> Z) (t : Z) : Z :=
  match f with
  | Some _ => allowed t
  | None => if (negb covered && negb (fee =? 0))%bool then approved STRK_TOKEN_ADDRESS fee allowed t else allowed t
  end.

Lemma ensureFee_prepared allowed f covered :
  outcome (prepared allowed f) (ensureFeeApproval config hook f covered) (fun _ => prepared (with_fee f covered allowed) f) safe.
Proof.
  unfold ensureFeeApproval, with_fee. destruct f as [f|]; [by apply outcome_ret|]. cbv zeta. rewrite Hfee.
  destruct covered; [by apply outcome_ret|]. cbn [negb andb]. destruct (fee =? 0); cbn [negb]; [by apply outcome_ret|].
  apply outcome_step. eapply outcome_bind; [apply approve_prepared|]. intros ?. cbv beta. by apply outcome_ret.
Qed.

Lemma ready_prepared allowed f : outcome (prepared allowed f) (ready hook) (fun _ => prepared allowed f) safe.
Proof.
  unfold ready. destruct (given (hk_activeAddress hook)); [|apply outcome_throw, prepared_safe].
  apply (outcome_bind _ _ (fun _ => prepared allowed f)); [|intros ?; by apply outcome_ret].
  unfold require. destruct (_ && _)%bool; [by apply outcome_ret|apply outcome_throw, prepared_safe].
Qed.

Lemma STRK_number : BigInt_of_string STRK_TOKEN_ADDRESS = Some STRK.
Proof. by vm_compute. Qed.

Lemma only_fee_due f t : fee_due (bool_decide (is_Some f)) t <= with_fee f false (fun _ => 0) t.
Proof.
  unfold fee_due, with_fee, approved. rewrite STRK_number. destruct f as [f|]; cbn; [done|]. rewrite (Z.eqb_sym t).
  destruct (Z.eqb_spec fee 0) as [->|Hne]; cbn; [by destruct (STRK =? t)|]. done.
Qed.
End Safety.

(** ** The flows *)

Inductive demo_action : Type :=
| DoRegister
| DoMint (token amount : string)
| DoDeposit (token amount : string)
| DoWithdraw (token amount : string)
| DoTransfer (token recipient amount : string)
| DoSwap (fromToken toToken amount : string) (minReceivedRaw : Z)
| DoAvnuSwap (fromToken toToken amount : string) (slippageBps : Z)
| DoVesuSupply (token vTokenAddress amount : string)
| DoVesuWithdraw (token vTokenAddress amount : string).

Definition run_action `{DemoWorld} (config : AppConfig) (hook : Hook) (fuel : nat) (a : demo_action)
  : TransactionStatus * option Z * Timeline * list demo_event :=
  match a with
  | DoRegister => execute "Register" (register config hook fuel)
  | DoMint token amount => execute "Mint" (mint config hook token amount)
  | DoDeposit token amount => execute "Deposit" (deposit config hook fuel token amount)
  | DoWithdraw token amount => execute "Withdraw" (withdraw config hook fuel token amount)
  | DoTransfer token recipient amount => execute "Transfer" (transfer config hook fuel token recipient amount)
  | DoSwap from to amount minimum => execute "Swap" (swap config hook fuel from to amount minimum)
  | DoAvnuSwap from to amount slippage => execute "AVNU Swap" (avnuSwap config hook fuel from to amount slippage)
  | DoVesuSupply token vToken amount => execute "Vesu Supply" (vesuSupply config hook fuel token vToken amount)
  | DoVesuWithdraw token vToken amount => execute "Vesu Withdraw" (vesuWithdraw config hook fuel token vToken amount)
  end.

Section Flows.
Context `{DemoWorld} (config : AppConfig) (hook : Hook) (fee : Z) (Hfee : default 0 (feeAmount config) = fee).

Abbreviation prep := (prepared config hook None).
Abbreviation safe_log := (safe config hook fee).
Abbreviation zero := (fun _ : Z => 0).

Definition is_safe (fn : flow FlowResult) : Prop := outcome (prep zero None) fn (settled config hook fee) safe_log.

Lemma nothing_prepared : prep zero None [].
Proof. split; [constructor|done|done|constructor]. Qed.

(** Steps that only read something. *)
Ltac calm_step :=
  match goal with
  | |- outcome _ (require ?c _ ≫= _) _ _ => unfold require; destruct c
  | |- outcome _ (st_throw _ ≫= _) _ _ => apply (outcome_bind _ _ (fun _ _ => False)); [apply outcome_throw, prepared_safe|by intros ? ? ? ? ? ?]
  | |- outcome (prepared _ _ _ ?a ?f) (mret _ ≫= _) _ _ =>
      eapply outcome_bind; [apply ret_prepared|intros ?; cbv beta; apply outcome_pure; intros ->]
  | |- outcome (prepared _ _ _ ?a ?f) (ready _ ≫= _) _ _ => eapply outcome_bind; [apply ready_prepared|intros ?; cbv beta]
  | |- outcome (prepared _ _ _ ?a ?f) (scaled _ _ _ ≫= _) _ _ =>
      eapply outcome_bind; [apply lift_prepared|intros ?; cbv beta; apply outcome_pure; intros _]
  | |- outcome (prepared _ _ _ ?a ?f) (num _ ≫= _) _ _ =>
      eapply outcome_bind; [apply lift_prepared|intros ?; cbv beta; apply outcome_pure; intros ?Hnum]
  | |- outcome (prepared _ _ _ ?a ?f) (st_lift _ ≫= _) _ _ =>
      eapply outcome_bind; [apply lift_prepared|intros ?; cbv beta; apply outcome_pure; intros _]
  | |- outcome _ (fetchPaymasterFee _ _ ≫= _) _ _ => eapply outcome_bind; [apply fetch_prepared|intros ?; cbv beta]
  | |- outcome _ (ensureFeeApproval _ _ _ _ ≫= _) _ _ => eapply outcome_bind; [by apply (ensureFee_prepared config hook fee None Hfee)|intros ?; cbv beta]
  | |- outcome _ (tl_step _ (ask _ _) ≫= _) _ _ => eapply outcome_bind; [by apply outcome_step, ask_prepared|intros ?; cbv beta]
  | |- outcome _ (st_throw _) _ _ => apply outcome_throw, prepared_safe
  end.

Lemma register_safe fuel : is_safe (register config hook fuel).
Proof.
  unfold is_safe, register. calm_step; repeat calm_step; apply (buildProveSubmit_safe config hook fee None); [done|]; intros t; apply (only_fee_due config fee Hfee None).
Qed.

Lemma no_deposit_safe fuel buildOptions ops f : (forall t, asked_deposits ops t = 0) ->
  outcome (prep (with_fee fee f false zero) f) (buildProveSubmit config hook fuel buildOptions ops f) (settled config hook fee) safe_log.
Proof.
  intros Hno. apply (buildProveSubmit_safe config hook fee None); [done|]. intros t. rewrite Hno. apply (only_fee_due config fee Hfee f).
Qed.

Lemma withdraw_safe fuel token amount : is_safe (withdraw config hook fuel token amount).
Proof.
  unfold is_safe, withdraw. repeat calm_step. apply no_deposit_safe. intros t. unfold asked_deposits. cbn. by case_decide.
Qed.

Lemma transfer_safe fuel token recipient amount : is_safe (transfer config hook fuel token recipient amount).
Proof.
  unfold is_safe, transfer. repeat calm_step. apply no_deposit_safe. intros t. unfold asked_deposits. cbn. by case_decide.
Qed.

Lemma through_executor_deposits surplus from executor to amount callBuilder t :
  asked_deposits (through_executor surplus from executor to amount callBuilder) t = 0.
Proof. unfold asked_deposits. cbn. by repeat case_decide. Qed.

Lemma swap_safe fuel from to amount minimum : is_safe (swap config hook fuel from to amount minimum).
Proof.
  unfold is_safe, swap. calm_step. destruct (ekubo config) as [ek|]; [|calm_step]. repeat calm_step.
  match goal with |- outcome _ (match ?found with _ => _ end) _ _ => destruct found as [pool|]; [|calm_step] end. repeat calm_step.
  apply no_deposit_safe, through_executor_deposits.
Qed.

Lemma vesuSupply_safe fuel token vToken amount : is_safe (vesuSupply config hook fuel token vToken amount).
Proof.
  unfold is_safe, vesuSupply. calm_step. destruct (vesu_anonymizerAddress config) as [an|]; [|calm_step]. repeat calm_step.
  apply no_deposit_safe, through_executor_deposits.
Qed.

Lemma vesuWithdraw_safe fuel token vToken amount : is_safe (vesuWithdraw config hook fuel token vToken amount).
Proof.
  unfold is_safe, vesuWithdraw. calm_step. destruct (vesu_anonymizerAddress config) as [an|]; [|calm_step]. calm_step.
  apply (outcome_bind _ _ (fun _ => prep zero None)).
  { apply outcome_step. unfold previewRedeem. eapply outcome_bind; [by apply ask_prepared|]. intros low. cbv beta.
    eapply outcome_weaken; [done|apply lift_prepared|by intros ? ? []|done]. }
  intros assets. repeat calm_step. apply no_deposit_safe, through_executor_deposits.
Qed.

Lemma avnuSwap_safe fuel from to amount slippage : is_safe (avnuSwap config hook fuel from to amount slippage).
Proof.
  unfold is_safe, avnuSwap. repeat calm_step. match goal with |- outcome (prep zero ?f) _ _ _ => destruct f as [f|]; [|calm_step] end.
  calm_step. match goal with |- outcome _ (match ?quotes with _ => _ end) _ _ => destruct quotes; [calm_step|] end. calm_step.
  match goal with |- outcome _ (match ?executor with _ => _ end) _ _ => destruct executor; [|calm_step] end. repeat calm_step.
  eapply outcome_weaken; [|apply no_deposit_safe, through_executor_deposits|done|done].
  intros l [Hc Hal Hq Hs]. by split.
Qed.

Lemma mint_safe token amount : outcome (prep zero None) (mint config hook token amount) (fun _ => safe_log) safe_log.
Proof.
  unfold mint. destruct (given (hk_activeAddress hook)) as [active|]; [|calm_step].
  calm_step; repeat calm_step. unfold execute_and_wait.
  apply (outcome_bind _ _ (fun _ => prep zero None)).
  { calm_step. eapply outcome_bind; [by apply outcome_step, ask_prepared|]. intros ?. cbv beta. by apply outcome_ret. }
  intros tx. apply (outcome_bind _ _ (fun _ => prep zero None)).
  { destruct (hk_onBalancesChanged hook); [by apply ask_prepared|by apply outcome_ret]. }
  intros ?. apply outcome_ret. intros l Hp. by apply (prepared_safe config hook fee None zero None).
Qed.

Lemma deposit_safe fuel token amount : is_safe (deposit config hook fuel token amount).
Proof.
  unfold is_safe, deposit. calm_step. calm_step. calm_step. rename a1 into f.
  apply (outcome_bind _ _ (fun strk l => prep zero f l /\
    (strk = true -> f = None /\ BigInt_of_string token = Some STRK) /\ (strk = false -> f = None -> BigInt_of_string token <> Some STRK))).
  { destruct f as [f|]; [by apply outcome_ret|]. calm_step. calm_step. unfold big in *. rewrite STRK_number in *.
    destruct (BigInt_of_string token) as [t|]; [|done]. injection Hnum as <-. injection Hnum0 as <-. apply outcome_ret. intros l Hp. split; [done|].
    destruct (Z.eqb_spec t STRK) as [->|Hne]; split; done || congruence. }
  intros strk. apply outcome_pure. intros [Hstrk Hother]. cbv zeta.
  set (total := _ + (if strk then _ else 0)).
  apply (outcome_bind _ _ (fun _ => prep (approved token total zero) f)).
  { apply outcome_step. eapply outcome_bind; [by apply approve_prepared|]. intros ?. cbv beta. by apply outcome_ret. }
  intros ?. cbv beta. repeat calm_step. apply (buildProveSubmit_safe config hook fee None); [done|]. intros t.
  unfold big in *. destruct (BigInt_of_string token) as [tok|] eqn:Ht; [|done]. injection Hnum0 as <-.
  assert (Hd : forall r x, asked_deposits [BSurplusTo r None; BWith tok [TDeposit [{| in_recipient := Some r; in_amount := x |}]]] t
    = if tok =? t then x else 0).
  { intros r x. unfold asked_deposits. cbn. destruct (Z.eqb_spec tok t); case_decide; try done. cbn. lia. }
  rewrite Hd. pose proof (only_fee_due config fee Hfee f t) as Hdue. revert Hdue. unfold with_fee, fee_due, approved. rewrite Ht, STRK_number.
  assert (Htotal : total = a0 + if strk then fee else 0) by (subst total; by rewrite Hfee). clearbody total.
  destruct f as [f|].
  - destruct strk; [by destruct (Hstrk eq_refl)|]. cbn. intros _. destruct (tok =? t); lia.
  - cbn. rewrite (Z.eqb_sym t). destruct strk; cbn.
    + destruct (Hstrk eq_refl) as [_ [= ->]]. intros _. destruct (STRK =? t); lia.
    + specialize (Hother eq_refl eq_refl). destruct (Z.eqb_spec STRK t) as [Hs|_], (Z.eqb_spec tok t) as [Hk|_]; try (exfalso; apply Hother; congruence).
      all: destruct (Z.eqb_spec fee 0); cbn; lia.
Qed.
End Flows.

Section Claims.
Context `{DemoWorld} (config : AppConfig) (hook : Hook).

(** ** Waiting ends *)

Definition polls (l : list demo_event) : nat := length (List.filter (fun e => match e with AskedBlockNumber => true | _ => false end) l).

(** If the chain grows past the last transaction within so many polls, as much fuel is enough. *)
Lemma waiting_ends (height : nat -> Z) (last latest : Z) (n fuel : nat) tl l :
  (forall l, block_answer l = Ok (height (polls l))) -> last < height (polls l + n)%nat - PROVING_BLOCK_DEPTH -> (n < fuel)%nat ->
  exists block l', wait_loop fuel last latest (tl, l) = (Ok block, (tl, l')) /\ last < block - PROVING_BLOCK_DEPTH.
Proof.
  intros Hh. revert fuel latest l. induction n as [|n IH]; intros fuel latest l Hlast Hf.
  all: destruct fuel as [|fuel]; [lia|]; cbn [wait_loop].
  all: destruct (Z.leb_spec (latest - PROVING_BLOCK_DEPTH) last); [|by exists latest, l].
  all: unfold ask, mbind, stateE_bind; cbn [fst snd]; rewrite Hh.
  all: assert (Hp : polls (l ++ [Slept 1000]) = polls l) by (unfold polls; rewrite List.filter_app, length_app; cbn; lia); rewrite Hp.
  - rewrite Nat.add_0_r in Hlast. destruct fuel as [|fuel]; cbn [wait_loop];
      (destruct (Z.leb_spec (height (polls l) - PROVING_BLOCK_DEPTH) last); [lia|by eexists _, _]).
  - apply IH; [|lia]. replace (polls _ + n)%nat with (polls l + S n)%nat; [done|].
    unfold polls. rewrite !List.filter_app, !length_app. cbn. lia.
Qed.

(** ** Timelines *)

Lemma balanced_ask {A} e (answer : list demo_event -> result demo_error A) : balanced performance_now (ask e answer).
Proof. apply (balanced_quiet performance_now (fun s => (answer s.2, (s.2 ++ [e])%list))). Qed.

Context (Hclock : forall i j, (i <= j)%nat -> performance_now i <= performance_now j).

Lemma balanced_wait fuel last latest : balanced performance_now (wait_loop fuel last latest).
Proof.
  revert latest. induction fuel as [|fuel IH]; intros latest; cbn [wait_loop]; destruct (_ <=? _).
  all: try apply balanced_ret; try apply balanced_throw.
  apply balanced_bind; [apply balanced_ask|intros _]. apply balanced_bind; [apply balanced_ask|apply IH].
Qed.

(** Splits a flow into its steps. *)
Ltac balance :=
  repeat match goal with
  | |- balanced _ (_ ≫= _) => apply balanced_bind; [|intros ?]
  | |- balanced _ (mret _) => apply balanced_ret
  | |- balanced _ (st_throw _) => apply balanced_throw
  | |- balanced _ (st_lift _) => apply balanced_lift
  | |- balanced _ (ask _ _) => apply balanced_ask
  | |- balanced _ (wait_loop _ _ _) => apply balanced_wait
  | |- balanced _ (tl_step _ _) => apply balanced_step; [done|]
  | |- balanced _ (match ?x with _ => _ end) => destruct x
  | |- balanced _ _ => progress unfold require, num, scaled, built, ready, fetchPaymasterFee, ensureFeeApproval, execute_and_wait,
      addFeeWithdraw, previewRedeem, waitForProvingBlock, submit_built, buildProveSubmit
  end.

Lemma balanced_flow fuel :
  balanced performance_now (register config hook fuel) /\ (forall t a, balanced performance_now (mint config hook t a)) /\
  (forall t a, balanced performance_now (deposit config hook fuel t a)) /\ (forall t a, balanced performance_now (withdraw config hook fuel t a)) /\
  (forall t r a, balanced performance_now (transfer config hook fuel t r a)) /\ (forall f t a m, balanced performance_now (swap config hook fuel f t a m)) /\
  (forall f t a s, balanced performance_now (avnuSwap config hook fuel f t a s)) /\ (forall t v a, balanced performance_now (vesuSupply config hook fuel t v a)) /\
  (forall t v a, balanced performance_now (vesuWithdraw config hook fuel t v a)).
Proof.
  split_and!; intros; [unfold register|unfold mint|unfold deposit|unfold withdraw|unfold transfer|unfold swap|unfold avnuSwap|unfold vesuSupply|unfold vesuWithdraw].
  all: balance.
Qed.

(** The timeline of every transaction of the demo is a tree of closed spans, whether the transaction went through or failed anywhere:
    nothing is left open, the only root is the span of the whole transaction, every other span occurs once, as a child of an
    earlier one, and the children of a span follow each other within its interval. *)
Theorem demo_timelines_are_trees (fuel : nat) (a : demo_action) :
  let tl := (run_action config hook fuel a).1.2 in
  tl_stack tl = [] /\ tl_spans tl = [0%nat] /\
  0%nat :: flat_map sp_children (tl_objects tl) ≡ₚ seq 0 (length (tl_objects tl)) /\
  forall i, (i < length (tl_objects tl))%nat -> nested (tl_objects tl) i.
Proof.
  assert (Hrun : forall action fn, balanced performance_now fn -> let tl := (execute action fn).1.2 in
    tl_stack tl = [] /\ tl_spans tl = [0%nat] /\ 0%nat :: flat_map sp_children (tl_objects tl) ≡ₚ seq 0 (length (tl_objects tl)) /\
    forall i, (i < length (tl_objects tl))%nat -> nested (tl_objects tl) i).
  { intros action fn Hfn. unfold execute, tl_step. destruct (step performance_now action fn (new_Timeline, [])) as [r [tl l]] eqn:Hr.
    destruct (fresh_step performance_now Hclock _ _ _ _ _ _ Hfn Hr) as (? & ? & ? & ?). by destruct r. }
  destruct (balanced_flow fuel) as (? & ? & ? & ? & ? & ? & ? & ? & ?). destruct a; cbn [run_action]; apply Hrun; auto.
Qed.
End Claims.

(** A transaction that is shown: its submission was the last one, its receipt a success, and this is its block. *)
Definition reported `{DemoWorld} (hash : string) (block : option Z) (log : list demo_event) : Prop :=
  exists pre s receipt, log = (pre ++ [Submitted s; AwaitedReceipt hash])%list /\ submit_answer pre s = Ok hash /\
    receipt_answer (pre ++ [Submitted s])%list = Ok receipt /\ rc_success receipt = true /\ block = Some (rc_blockNumber receipt).

Lemma executed_settled `{DemoWorld} config hook fee action fn : is_safe config hook fee fn ->
  let '(status, block, _, log) := execute action fn in
  safe config hook fee log /\ forall hash, ts_lastTxHash status = Some hash -> reported hash block log.
Proof.
  intros Hfn. unfold execute. destruct (tl_step action fn (new_Timeline, [])) as [r [tl l]] eqn:Hr.
  pose proof (outcome_step _ action _ _ _ Hfn new_Timeline [] r tl l (nothing_prepared config hook) Hr) as Ho. destruct r as [res|e]; [|done].
  destruct Ho as [Hs Hx]. split; [done|]. by intros hash [= <-].
Qed.

(** The nine flows are backed: in any world, a flow submits at most once, and before it does it proved
    exactly the actions it built, at a block after the last transaction of the account; the allowances that the user gave the pool
    cover, token by token, what the pool draws, which is the deposits and, if no paymaster submits, the pool's fee; and a paymaster that submits
    is paid the fee it asked for out of the pool. If the final status shows a transaction, its submission was the
    last one and its receipt a success; minting aside, which submits nothing. The fee is the one the demo knows, zero while it knows none. *)
Theorem flows_are_backed `{DemoWorld} (config : AppConfig) (hook : Hook) (fuel : nat) (a : demo_action) (fee : Z) :
  default 0 (feeAmount config) = fee ->
  let '(status, block, _, log) := run_action config hook fuel a in
  (forall pre s post, log = (pre ++ Submitted s :: post)%list -> calm pre /\ calm post /\ justified config hook fee pre s) /\
  (forall hash, ts_lastTxHash status = Some hash -> (exists token amount, a = DoMint token amount) \/ reported hash block log).
Proof.
  intros Hfee. assert (Hkeep : forall action fn, is_safe config hook fee fn -> let '(status, block, _, log) := execute action fn in
    safe config hook fee log /\ forall hash, ts_lastTxHash status = Some hash -> (exists token amount, a = DoMint token amount) \/ reported hash block log).
  { intros action fn Hfn. pose proof (executed_settled config hook fee action fn Hfn) as Hx. destruct (execute action fn) as [[[status block] tl] log].
    destruct Hx as [? Hx]. split; [done|]. intros hash Hh. right. by apply Hx. }
  destruct a; cbn [run_action].
  2:{ unfold execute. destruct (tl_step "Mint" (mint config hook token amount) (new_Timeline, [])) as [r [tl l]] eqn:Hr.
    pose proof (outcome_step _ "Mint" _ _ _ (mint_safe config hook fee token amount) new_Timeline [] r tl l (nothing_prepared config hook) Hr) as Ho.
    destruct r; (split; [exact Ho|intros; left; by eexists _, _]). }
  all: apply Hkeep.
  - by apply register_safe.
  - by apply deposit_safe.
  - by apply withdraw_safe.
  - by apply transfer_safe.
  - by apply swap_safe.
  - by apply avnuSwap_safe.
  - by apply vesuSupply_safe.
  - by apply vesuWithdraw_safe.
Qed.

(** ** A deposit without a paymaster *)

(** Everything succeeds; the clock ticks and the chain grows by a block with every question. *)
Definition sample_demo_world : DemoWorld := {|
  dw_num := toy_num;
  performance_now := Z.of_nat;
  fee_answer := fun _ => Ok {| fee_recipient := "0xfee"; fee_token := "0x4"; fee_amount := "0x1" |};
  fee_invoke_answer := fun _ => Ok ({| fee_recipient := "0xfee"; fee_token := "0x4"; fee_amount := "0x1" |}, None);
  sign_answer := fun _ => Ok ["0x5"];
  execute_answer := fun l => Ok (toHex (Z.of_nat (length l)));
  receipt_answer := fun l => Ok {| rc_success := true; rc_blockNumber := 100 + Z.of_nat (polls l) |};
  block_answer := fun l => Ok (100 + Z.of_nat (polls l));
  build_answer := fun _ _ _ => Ok sample_result;
  prove_answer := fun _ _ _ => Ok (apply_actions_call "0xab" ["0x1"], {| pf_data := Some "cHJvb2Y="; pf_output := []; pf_proofFacts := []; pf_additionalData := None |});
  submit_answer := fun _ _ => Ok "0xhash";
  view_answer := fun _ => Ok "0x1";
  quotes_answer := fun _ => Ok ["1"];
  swap_calls_answer := fun _ => Ok {| av_calls := []; av_executorAddress := Some "0xe" |};
  balances_answer := fun _ => Ok tt;
  fromCallsToExecuteCalldata_cairo1 := fun _ => ["0x0"] |}.

Definition sample_config (paymaster : option string) : AppConfig := {|
  tokens := [{| tk_name := "STRK"; tk_address := STRK_TOKEN_ADDRESS; tk_decimals := 2; tk_fee := None; tk_mintEntrypoint := None |};
             {| tk_name := "ETH"; tk_address := "0x4"; tk_decimals := 1; tk_fee := None; tk_mintEntrypoint := None |}];
  ekubo := None; vesu_anonymizerAddress := None; paymasterUrl := paymaster; paymasterFeeToken := Some "0x4"; feeAmount := Some 7 |}.
Definition sample_hook : Hook := {|
  hk_userAccount := true; hk_adminAccount := false; hk_transfers := true; hk_provider := true; hk_activeAddress := Some "0x7"; hk_poolAddress := "0xab";
  hk_user := 7; hk_lastTxBlockNumber := Some 95; hk_onBalancesChanged := false |}.

Definition sample_deposit := @run_action sample_demo_world (sample_config None) sample_hook 10 (DoDeposit STRK_TOKEN_ADDRESS "1.5").

(** The fee is folded into the approval of the deposit, and the proof waits for the fifth poll. *)
Example sample_deposit_is_shown :
  ts_lastTxHash sample_deposit.1.1.1 = Some "0xhash" /\ @allowance sample_demo_world sample_hook sample_deposit.2 STRK = 157.
Proof. vm_compute. split; reflexivity. Qed.

Lemma demo_timelines_are_trees_witness : tl_stack sample_deposit.1.2 = [] /\ length (tl_objects sample_deposit.1.2) = 10%nat /\
  tl_announced sample_deposit.1.2 = ["Deposit"; "Approve"; "Estimate + submit"; "Wait for receipt"; "Get block number"; "Wait for blocks";
    "Build transaction"; "Prove"; "Estimate + submit"; "Wait for receipt"].
Proof.
  assert (Hclock : forall i j, (i <= j)%nat -> @performance_now sample_demo_world i <= @performance_now sample_demo_world j)
    by (intros i j Hij; cbn; lia).
  destruct (@demo_timelines_are_trees sample_demo_world (sample_config None) sample_hook Hclock 10 (DoDeposit STRK_TOKEN_ADDRESS "1.5")) as (Hst & _).
  split; [exact Hst|]. vm_compute. split; reflexivity.
Defined.
