(* ===== verification/DemoBatch.v ===== *)
(** * The transaction builder of the demo ([demo/src/hooks/useTransactionBuilder.ts], [components/TransactionBuilder.tsx])

    A list of operations becomes one transaction: the deposits are approved per token, alone or inside the paymaster's
    message, and the operations are handed to the SDK grouped by token. At the end, what backs every transaction of the
    demo, flow or batch. *)
From Stdlib Require Import Ascii ZArith Lia QArith.
From stdpp Require Import base tactics list strings.
From S2P Require Import Prelude JsMap Convert Interfaces Builders StarknetCalls Json ProvingService ProofInvocation Proving SdkWallet DemoFormat DemoTimeline DemoFlows DemoFlowsSafety.

Local Open Scope string_scope.
Local Open Scope Z_scope.

Inductive OperationType : Type := OpDeposit | OpTransfer | OpWithdraw | OpSurplus.
#[export] Instance OperationType_eq_dec : EqDecision OperationType.
Proof. solve_decision. Defined.

Definition PHASE_ORDER (t : OperationType) : Z := match t with OpDeposit => 3 | OpTransfer => 5 | OpWithdraw => 6 | OpSurplus => 7 end.

Record BuilderOperation : Type := {
  op_id : Z; op_type : OperationType; op_amount : string; op_token : option string; op_recipient : option string; op_withdrawSurplus : option bool }.

(** ** Editing the list *)

Definition sort_operations (ops : list BuilderOperation) : list BuilderOperation :=
  sort_with (fun a b => PHASE_ORDER (op_type a) - PHASE_ORDER (op_type b)) ops.

(** The form: the type, the amount, the chosen token and recipient, and the surplus flag. *)
Definition handleAdd (nextId : Z) (type : OperationType) (amount token recipient : string) (withdrawSurplus : bool)
  (operations : list BuilderOperation) : list BuilderOperation :=
  let needsToken := bool_decide (type <> OpSurplus) in
  let needsRecipient := (bool_decide (type = OpTransfer) || bool_decide (type = OpSurplus) ||
    negb (String.eqb recipient "") && (bool_decide (type = OpDeposit) || bool_decide (type = OpWithdraw)))%bool in
  sort_operations (operations ++ [{| op_id := nextId; op_type := type; op_amount := amount;
    op_token := if needsToken then Some token else None; op_recipient := if needsRecipient then Some recipient else None;
    op_withdrawSurplus := if decide (type = OpSurplus) then Some withdrawSurplus else None |}]).
Definition handleRemove (operationId : Z) (operations : list BuilderOperation) : list BuilderOperation :=
  List.filter (fun op => negb (op_id op =? operationId)) operations.

(** ** One transaction *)

Section Batch.
Context `{DemoWorld} (config : AppConfig) (hook : Hook).

Definition scaleOp (token humanAmount : string) : result demo_error Z := scaleAmount config token humanAmount.

(** The deposits to approve, by the spelling of the token. *)
Definition add_deposit (totals : jsmap string Z) (op : BuilderOperation) : result demo_error (jsmap string Z) :=
  match op_type op, given (op_token op) with
  | OpDeposit, Some token =>
      amount ← scaleOp token (op_amount op);
      Ok (map_set token (default 0 (map_get token totals) + amount) totals)
  | _, _ => Ok totals
  end.
Definition depositsByToken (operations : list BuilderOperation) : result demo_error (jsmap string Z) := fold_result add_deposit operations [].

Definition group_operation (groups : jsmap string (list BuilderOperation)) (op : BuilderOperation) : jsmap string (list BuilderOperation) :=
  if decide (op_type op = OpSurplus) then groups
  else match given (op_token op) with
       | Some token => map_set token (default [] (map_get token groups) ++ [op])%list groups
       | None => groups
       end.
Definition operationsByToken (operations : list BuilderOperation) : jsmap string (list BuilderOperation) := fold_left group_operation operations [].

(** [toBigInt(undefined)] throws. *)
Definition needed (recipient : option string) : result demo_error Z := match recipient with Some r => big r | None => Err BadNumber end.

(** The calls of one operation on the sub-builder of its token. *)
Definition token_calls (active token : string) (op : BuilderOperation) : result demo_error (list token_op) :=
  rawAmount ← scaleOp token (op_amount op);
  match op_type op with
  | OpDeposit =>
      match given (op_recipient op) with
      | Some r => recipient ← big r; Ok [TDeposit [{| in_recipient := Some recipient; in_amount := rawAmount |}]]
      | None => Ok [TDeposit [{| in_recipient := None; in_amount := rawAmount |}]]
      end
  | OpTransfer => recipient ← needed (op_recipient op); Ok [TTransfer [{| to_recipient := recipient; to_amount := AnAmount rawAmount |}]]
  | OpWithdraw =>
      recipient ← big (default active (given (op_recipient op)));
      Ok [TWithdraw [{| out_recipient := Some recipient; out_amount := rawAmount |}]]
  | OpSurplus => Ok []
  end.

(** The sub-builder is made before the calls on it. *)
Definition group_calls (active : string) (group : string * list BuilderOperation) : result demo_error builder_op :=
  token ← big group.1;
  calls ← mapM (token_calls active group.1) group.2;
  Ok (BWith token (concat calls)).

Definition batch_calls (active : string) (operations : list BuilderOperation) : result demo_error (list builder_op) :=
  let surplusOperation := List.find (fun op => bool_decide (op_type op = OpSurplus)) operations in
  surplus ← big (default active (surplusOperation ≫= op_recipient));
  groups ← mapM (group_calls active) (operationsByToken operations);
  Ok (BSurplusTo surplus (surplusOperation ≫= op_withdrawSurplus) :: groups).

(** ["0x" + totalAmount.toString(16)]. *)
Definition approve_paymaster (entry : string * Z) : DemoPaymasterCall :=
  {| pc_target := entry.1; pc_selectorOf := @getSelectorFromName dw_num "approve";
     pc_data := [BN_string (hk_poolAddress hook); BN_string ("0x" +:+ bigint_toString 16 entry.2); BN_string "0x0"] |}.

Fixpoint approve_all (entries : list (string * Z)) : flow unit :=
  match entries with
  | [] => mret tt
  | (token, total) :: entries =>
      tx ← tl_step ("Approve " +:+ slice_to 10 token +:+ "...") (ask (Executed false (approve_call hook token total)) execute_answer);
      _ ← tl_step "Wait for receipt" (ask (AwaitedReceipt tx) receipt_answer);
      approve_all entries
  end.

(** The paymaster's fee, and the message that was signed for the deposits. *)
Definition quote_batch (active : string) (totals : jsmap string Z) : flow (option PaymasterFeeAction * option (string * json * list string)) :=
  if has_paymaster config then
    match totals with
    | [] =>
        fee ← tl_step "Get paymaster fee" (ask (AskedFee (hk_poolAddress hook) (getFeeMode config)) fee_answer);
        mret (Some fee, None)
    | _ =>
        quote ← tl_step "Get paymaster fee" (ask (AskedFeeWithInvoke (hk_poolAddress hook) (getFeeMode config) active (map approve_paymaster totals)) fee_invoke_answer);
        let typedData := default JNull quote.2 in
        signature ← tl_step "Sign approvals" (ask (AskedSign typedData) sign_answer);
        mret (Some quote.1, if truthy_json typedData then Some (active, typedData, signature) else None)
    end
  else
    match totals with
    | [] => mret (None, None)
    | _ => _ ← tl_step "Approve" (approve_all totals); mret (None, None)
    end.

Definition batch (fuel : nat) (active : string) (operations : list BuilderOperation) : flow FlowResult :=
  totals ← st_lift (depositsByToken operations);
  quote ← quote_batch active totals;
  ops ← st_lift (batch_calls active operations);
  ops ← addFeeWithdraw quote.1 ops;
  b ← built hook ops;
  if has_paymaster config then
    submit_built hook fuel (discover_options (Some true) (Some true) SelectNaive) b (fun call p => paymaster_submission config call p quote.2) "Submit via paymaster"
  else submit_built hook fuel (discover_options (Some true) (Some true) SelectNaive) b account_submission "Estimate + submit".

(** [executeBatch]: the step of the timeline starts once everything is there; the status ends without an action. *)
Definition executeBatch (fuel : nat) (operations : list BuilderOperation) : TransactionStatus * option Z * Timeline * list demo_event :=
  let failed e tl log := ({| ts_pending := false; ts_action := None; ts_lastTxHash := None; ts_lastError := Some ("Builder", e);
                             ts_proofSizeBytes := None |}, None, tl, log) in
  match given (hk_activeAddress hook) with
  | Some active =>
      if (hk_userAccount hook && hk_transfers hook && hk_provider hook)%bool then
        match tl_step "Builder" (batch fuel active operations) (new_Timeline, []) with
        | (Ok r, (tl, log)) =>
            ({| ts_pending := false; ts_action := None; ts_lastTxHash := Some (fr_txHash r); ts_lastError := None;
                ts_proofSizeBytes := fr_proofSizeBytes r |}, fr_blockNumber r, tl, log)
        | (Err e, (tl, log)) => failed e tl log
        end
      else failed NotReady new_Timeline []
  | None => failed NotReady new_Timeline []
  end.
End Batch.

(** ** The approvals cover the deposits *)

Lemma mapM_result_cons {E A B} (f : A -> result E B) x l ys : mapM f (x :: l) = Ok ys -> exists y zs, f x = Ok y /\ mapM f l = Ok zs /\ ys = y :: zs.
Proof. cbn. intros (y & Hy & Hr)%bind_ok. apply bind_ok in Hr as (zs & Hzs & [= <-]). by exists y, zs. Qed.

Section Cover.
Context `{DemoWorld} (config : AppConfig) (hook : Hook) (active : string) (t : Z).

Definition scaled_amount (token humanAmount : string) : Z := match scaleOp config token humanAmount with Ok z => z | Err _ => 0 end.
Definition is_token (token : string) : bool := bool_decide (BigInt_of_string token = Some t).

(** What an operation deposits of the token, read under one of its spellings. *)
Definition deposit_under (token : string) (op : BuilderOperation) : Z :=
  if decide (op_type op = OpDeposit) then scaled_amount token (op_amount op) else 0.
Definition deposit_of (op : BuilderOperation) : Z :=
  match given (op_token op) with Some token => if is_token token then deposit_under token op else 0 | None => 0 end.

Definition total_at (e : string * Z) : Z := if is_token e.1 then e.2 else 0.
Definition group_at (e : string * list BuilderOperation) : Z := if is_token e.1 then sumZ (deposit_under e.1) e.2 else 0.

Lemma add_deposit_total m op m' : add_deposit config m op = Ok m' -> sumZ total_at m' = sumZ total_at m + deposit_of op.
Proof.
  unfold add_deposit, deposit_of, deposit_under. destruct (given (op_token op)) as [token|]; [|destruct (op_type op); intros [= ->]; lia].
  destruct (op_type op).
  - intros (amount & Ha & [= <-])%bind_ok. rewrite sumZ_map_set. unfold total_at. cbn [fst snd]. rewrite decide_True by done.
    unfold scaled_amount. rewrite Ha. destruct (is_token token); destruct (map_get token m); cbn; lia.
  - intros [= ->]. rewrite decide_False by done. destruct (is_token token); lia.
  - intros [= ->]. rewrite decide_False by done. destruct (is_token token); lia.
  - intros [= ->]. rewrite decide_False by done. destruct (is_token token); lia.
Qed.

Lemma deposits_total ops m m' : fold_result (add_deposit config) ops m = Ok m' -> sumZ total_at m' = sumZ total_at m + sumZ deposit_of ops.
Proof.
  revert m. induction ops as [|op ops IH]; intros m; cbn [fold_result sumZ]; [intros [= ->]; lia|].
  intros (m1 & H1 & Hr)%bind_ok. rewrite (IH _ Hr), (add_deposit_total _ _ _ H1). lia.
Qed.

Lemma group_operation_total m op : sumZ group_at (group_operation m op) = sumZ group_at m + deposit_of op.
Proof.
  unfold group_operation, deposit_of. destruct (decide (op_type op = OpSurplus)) as [Hs|Hs].
  { destruct (given (op_token op)) as [token|]; [|lia]. unfold deposit_under. rewrite decide_False by (by rewrite Hs). destruct (is_token token); lia. }
  destruct (given (op_token op)) as [token|]; [|lia]. rewrite sumZ_map_set. unfold group_at. cbn [fst snd]. rewrite sumZ_app.
  destruct (is_token token); destruct (map_get token m); cbn; lia.
Qed.

Lemma groups_total ops m : sumZ group_at (fold_left group_operation ops m) = sumZ group_at m + sumZ deposit_of ops.
Proof. revert m. induction ops as [|op ops IH]; intros m; cbn; [lia|]. rewrite IH, group_operation_total. lia. Qed.

Lemma token_calls_deposits token tok op calls : token_calls config active token op = Ok calls ->
  sumZ dep_amount (flat_map (adds_deposits tok) calls) = deposit_under token op.
Proof.
  unfold token_calls. intros (amount & Ha & Hc)%bind_ok. unfold deposit_under, scaled_amount. rewrite Ha.
  destruct (op_type op); [rewrite decide_True by done|rewrite decide_False by done..].
  - destruct (given (op_recipient op)) as [r|]; [apply bind_ok in Hc as (? & _ & [= <-])|injection Hc as <-]; cbn; lia.
  - by apply bind_ok in Hc as (? & _ & [= <-]).
  - by apply bind_ok in Hc as (? & _ & [= <-]).
  - by injection Hc as <-.
Qed.

Lemma group_calls_deposits g call : group_calls config active g = Ok call -> asked_deposits [call] t = group_at g.
Proof.
  unfold group_calls. intros (tok & Htok & Hr)%bind_ok. apply bind_ok in Hr as (calls & Hcalls & [= <-]).
  unfold asked_deposits, group_at, is_token. cbn [flat_map asked_for]. rewrite app_nil_r. unfold big in Htok.
  destruct (BigInt_of_string g.1) as [z|]; [|done]. injection Htok as ->.
  destruct (decide (tok = t)) as [->|Hne]; [rewrite bool_decide_eq_true_2 by done|by rewrite bool_decide_eq_false_2 by congruence].
  revert calls Hcalls. induction g.2 as [|op ops IH]; intros calls Hcalls; [by injection Hcalls as <-|].
  apply mapM_result_cons in Hcalls as (c & cs & Hc & Hcs & ->). cbn [concat sumZ]. rewrite flat_map_app, sumZ_app.
  by rewrite (token_calls_deposits _ _ _ _ Hc), (IH _ Hcs).
Qed.

Lemma batch_calls_deposits ops calls : batch_calls config active ops = Ok calls -> asked_deposits calls t = sumZ deposit_of ops.
Proof.
  unfold batch_calls. intros (surplus & _ & Hr)%bind_ok. apply bind_ok in Hr as (groups & Hg & [= <-]).
  pose proof (groups_total ops []) as Hg0. cbn [sumZ] in Hg0. rewrite Z.add_0_l in Hg0. rewrite <- Hg0. clear Hg0.
  change (asked_deposits groups t = sumZ group_at (operationsByToken ops)).
  revert groups Hg. induction (operationsByToken ops) as [|g gs IH]; intros groups Hg; [by injection Hg as <-|].
  apply mapM_result_cons in Hg as (c & cs & Hc & Hcs & ->). change (c :: cs) with ([c] ++ cs)%list.
  rewrite asked_deposits_app, (group_calls_deposits _ _ Hc), (IH _ Hcs). done.
Qed.

Lemma batch_deposits ops totals calls b : depositsByToken config ops = Ok totals -> batch_calls config active ops = Ok calls ->
  run_builder (hk_user hook) calls = Ok b -> deposited (collectActions b) t = sumZ total_at totals.
Proof.
  intros Htotals Hcalls Hb. rewrite (deposited_built hook _ _ _ Hb), (batch_calls_deposits _ _ Hcalls).
  rewrite (deposits_total _ _ _ Htotals). cbn. lia.
Qed.
End Cover.

(** ** Every batch is covered *)

Lemma outcome_exists `{DemoWorld} {A X} (P : X -> list demo_event -> Prop) (m : flow A) Q R :
  (forall x, outcome (P x) m Q R) -> outcome (fun l => exists x, P x l) m Q R.
Proof. intros Hm tl l r tl' l' [x Hx]. by apply (Hm x). Qed.

Lemma negative_hex z : z < 0 -> BigInt_of_string ("0x" +:+ bigint_toString 16 z) = None.
Proof.
  intros Hz. unfold bigint_toString. rewrite (proj2 (Z.ltb_lt z 0)) by done.
  destruct (to_digits_cons (Z.to_nat (Z.log2 (Z.abs z))) 16 (Z.abs z) "") as (c & s & Hcs).
  assert (Hn : no_space (String "0" (String "x" (String "-" (to_digits (S (Z.to_nat (Z.log2 (Z.abs z)))) 16 (Z.abs z) "")))) = true).
  { change (no_space (to_digits (S (Z.to_nat (Z.log2 (Z.abs z)))) 16 (Z.abs z) "") = true). apply to_digits_no_space; [lia|done]. }
  set (d := to_digits _ _ _ _) in *. change (BigInt_of_string (String "0" (String "x" (String "-" d))) = None).
  unfold BigInt_of_string. by rewrite trim_no_space by exact Hn.
Qed.

Section Allowances.
Context `{DemoWorld} (config : AppConfig) (hook : Hook) (ok : string * Z -> bool).

(** Approvals one after the other, of which those that can be read count. *)
Definition approve_step (allowed : Z -> Z) (e : string * Z) : Z -> Z := if ok e then approved e.1 e.2 allowed else allowed.
Definition approve_steps (totals : jsmap string Z) (allowed : Z -> Z) : Z -> Z := fold_left approve_step totals allowed.

(** No two spellings of one token. *)
Definition canonical (totals : jsmap string Z) : Prop := NoDup (omap (fun e => BigInt_of_string e.1) totals).

Lemma approved_eq token amount allowed t : approved token amount allowed t = if is_token t token then amount else allowed t.
Proof.
  unfold approved, is_token. destruct (BigInt_of_string token) as [z|]; [|done].
  destruct (Z.eqb_spec z t) as [->|Hne]; [by rewrite bool_decide_eq_true_2|by rewrite bool_decide_eq_false_2 by congruence].
Qed.

Lemma approve_steps_other totals allowed t : t ∉ omap (fun e => BigInt_of_string e.1) totals ->
  approve_steps totals allowed t = allowed t /\ sumZ (total_at t) totals = 0.
Proof.
  revert allowed. induction totals as [|e totals IH]; intros allowed Ht; [done|].
  assert (He : is_token t e.1 = false).
  { unfold is_token. apply bool_decide_eq_false. intros He. apply Ht. cbn. rewrite He. by left. }
  assert (Hr : t ∉ omap (fun e => BigInt_of_string e.1) totals).
  { intros Hin. apply Ht. cbn. destruct (BigInt_of_string e.1); [by right|done]. }
  unfold approve_steps in *. cbn [fold_left sumZ]. destruct (IH (approve_step allowed e) Hr) as [-> ->].
  unfold total_at, approve_step. rewrite He. split; [|done]. destruct (ok e); [|done]. by rewrite approved_eq, He.
Qed.

Lemma approve_steps_cover totals allowed t : (forall e, ok e = false -> e.2 <= 0) -> canonical totals -> allowed t = 0 ->
  sumZ (total_at t) totals <= approve_steps totals allowed t.
Proof.
  intros Hok. revert allowed. induction totals as [|e totals IH]; intros allowed Hc Ha; [cbn; lia|].
  unfold approve_steps in *. cbn [fold_left sumZ]. unfold total_at at 1. destruct (is_token t e.1) eqn:He.
  - unfold is_token in He. apply bool_decide_eq_true in He. unfold canonical in Hc. cbn in Hc. rewrite He in Hc. apply NoDup_cons in Hc as [Hn _].
    destruct (approve_steps_other totals (approve_step allowed e) t Hn) as [Hsteps ->]. unfold approve_steps in Hsteps. rewrite Hsteps.
    unfold approve_step. destruct (ok e) eqn:Ho; [|specialize (Hok _ Ho); lia].
    rewrite approved_eq. unfold is_token. rewrite bool_decide_eq_true_2 by done. lia.
  - assert (Hc' : canonical totals).
    { unfold canonical in *. cbn in Hc. destruct (BigInt_of_string e.1); [by apply NoDup_cons in Hc as [_ ?]|done]. }
    rewrite Z.add_0_l. apply IH; [done|]. unfold approve_step. destruct (ok e); [|done]. by rewrite approved_eq, He.
Qed.
End Allowances.

Section BatchSafety.
Context `{DemoWorld} (config : AppConfig) (hook : Hook) (fee : Z).
(** The paymaster answers a quote with calls with a message to sign. *)
Context (Hquotes : forall l f td, fee_invoke_answer l = Ok (f, td) -> exists m, td = Some m /\ truthy_json m = true).
Abbreviation safe_log := (safe config hook fee).
Abbreviation zero := (fun _ : Z => 0).

Lemma approve_all_prepared totals allowed :
  outcome (prepared config hook None allowed None) (approve_all hook totals)
    (fun _ => prepared config hook None (approve_steps (fun _ => true) totals allowed) None) safe_log.
Proof.
  revert allowed. induction totals as [|[token total] totals IH]; intros allowed; cbn [approve_all]; [by apply outcome_ret|].
  apply (outcome_bind _ _ (fun _ => prepared config hook None (approved token total allowed) None)).
  { apply outcome_step, outcome_ask; [intros l tx Hp _; by apply approved_snoc|intros l Hp; by eapply prepared_safe_snoc]. }
  intros tx. eapply outcome_bind; [by apply outcome_step, ask_prepared|]. intros ?. cbv beta. apply IH.
Qed.

Definition readable (e : string * Z) : bool := 0 <=? e.2.

Lemma approve_paymaster_approvals e : approval_call hook (pc_target (approve_paymaster hook e)) (pc_data (approve_paymaster hook e)) =
  if readable e then match BigInt_of_string e.1 with Some t => [(t, e.2)] | None => [] end else [].
Proof.
  unfold approve_paymaster, approval_call, readable. cbn [pc_target pc_data]. rewrite decide_True by done.
  change (toBigInt (BN_string "0x0")) with (Some 0). change (toBigInt (BN_string ?s)) with (BigInt_of_string s).
  change ("0x" +:+ bigint_toString 16 e.2) with (toHex e.2).
  destruct (Z.leb_spec 0 e.2) as [Hz|Hz].
  - rewrite BigInt_toHex by done. destruct (BigInt_of_string e.1); [|done]. do 2 f_equal. lia.
  - unfold toHex. rewrite negative_hex by done. by destruct (BigInt_of_string e.1).
Qed.

Lemma invoke_allow pool mode user totals allowed t acc : acc = allowed t ->
  allow hook t acc (AskedFeeWithInvoke pool mode user (map (approve_paymaster hook) totals)) = approve_steps readable totals allowed t.
Proof.
  intros ->. unfold allow. cbn [approvals_of]. revert allowed. induction totals as [|e totals IH]; intros allowed; [done|].
  cbn [map flat_map]. rewrite fold_left_app, approve_paymaster_approvals. unfold approve_paymaster at 1. cbn [pc_selectorOf].
  rewrite String.eqb_refl. unfold approve_steps in *. cbn [fold_left]. rewrite <- IH. f_equal. unfold approve_step.
  destruct (readable e); [|done]. unfold approved. by destruct (BigInt_of_string e.1).
Qed.

(** What is known once the deposits are quoted or approved. *)
Definition quoted_batch (totals : jsmap string Z) (quote : option PaymasterFeeAction * option (string * json * list string)) (l : list demo_event) : Prop :=
  bool_decide (is_Some quote.1) = has_paymaster config /\
  exists allowed, prepared config hook quote.2 allowed quote.1 l /\ forall t, sumZ (total_at t) totals <= allowed t.

Lemma quote_batch_prepared active totals : canonical totals ->
  outcome (prepared config hook None zero None) (quote_batch config hook active totals) (quoted_batch totals) safe_log.
Proof.
  intros Hc. unfold quote_batch. destruct (has_paymaster config) eqn:Hpm; destruct totals as [|e totals].
  - apply (outcome_bind _ _ (fun f => prepared config hook None zero (Some f))).
    { pose proof (fetch_prepared config hook fee None zero) as Hf. unfold fetchPaymasterFee in Hf. rewrite Hpm in Hf.
      intros tl l r tl' l' Hp Hr. specialize (Hf tl l (f ← r; Ok (Some f)) tl' l' Hp). unfold mbind, stateE_bind in Hf. rewrite Hr in Hf.
      destruct r; by apply Hf. }
    intros f. apply outcome_ret. intros l Hp. split; [by cbn|]. exists zero. by split.
  - set (totals' := e :: totals) in *. set (q := AskedFeeWithInvoke _ _ _ _).
    apply (outcome_bind _ _ (fun quote l => exists l0, l = (l0 ++ [q])%list /\ prepared config hook None zero None l0 /\ fee_invoke_answer l0 = Ok quote)).
    { apply outcome_step, outcome_ask; [eauto|]. intros l Hp. by eapply prepared_safe_snoc. }
    intros [f td]. cbn [fst snd].
    apply (outcome_bind _ _ (fun signature => quoted_batch totals' (Some f, if truthy_json (default JNull td) then Some (active, default JNull td, signature) else None))).
    { apply outcome_step, outcome_ask; [|intros l (l0 & -> & Hp & _); apply safe_snoc; [done|]; by eapply prepared_safe_snoc].
      intros l signature (l0 & -> & [Hcalm Hal _ Hs] & Hf) Hsig. destruct (Hquotes _ _ _ Hf) as (m & -> & Hm).
      change (default JNull (Some m)) with m in *. rewrite Hm.
      split; [by cbn|]. exists (approve_steps readable totals' zero). split.
      - rewrite <- app_assoc. split.
        + apply calm_app. split; [done|]. by repeat constructor.
        + intros t. rewrite app_assoc. rewrite !allowance_snoc. unfold allow at 1. cbn [approvals_of fold_left]. by apply invoke_allow.
        + exists l0, q, [AskedSign m]. split; [done|]. right. eauto.
        + exists l0, (map (approve_paymaster hook) totals'), f, []. by split_and!.
      - intros t. apply approve_steps_cover; try done. unfold readable. intros x Hx. apply Z.leb_gt in Hx. lia. }
    intros signature. by apply outcome_ret.
  - apply outcome_ret. intros l Hp. split; [by cbn|]. exists zero. by split.
  - eapply outcome_bind; [apply outcome_step, approve_all_prepared|]. intros ?. apply outcome_ret. intros l Hp.
    split; [by cbn|]. exists (approve_steps (fun _ => true) (e :: totals) zero). split; [done|]. intros t. by apply approve_steps_cover.
Qed.

Context (Hfee : has_paymaster config = true \/ fee = 0).

Lemma batch_safe fuel active ops : (forall totals, depositsByToken config ops = Ok totals -> canonical totals) ->
  outcome (prepared config hook None zero None) (batch config hook fuel active ops) (settled config hook fee) safe_log.
Proof.
  intros Hc. unfold batch. eapply outcome_bind; [apply lift_prepared|]. intros totals. apply outcome_pure. intros Htotals.
  eapply outcome_bind; [by apply quote_batch_prepared, Hc|]. intros [f message].
  eapply (outcome_weaken _ (fun l => exists allowed, prepared config hook message allowed f l /\
    (bool_decide (is_Some f) = has_paymaster config /\ forall t, sumZ (total_at t) totals <= allowed t))); [|apply outcome_exists|done|done].
  { intros l [Hpm (allowed & Hp & Hcov)]. by exists allowed. }
  intros allowed. apply outcome_pure. intros [Hpm Hcov]. cbn [fst snd].
  eapply outcome_bind; [apply lift_prepared|]. intros ops0. apply outcome_pure. intros Hops.
  eapply outcome_bind; [apply addFee_prepared|]. intros ops'. apply outcome_pure. intros [Hsame Hpays].
  apply built_prepared. intros b Hb.
  assert (Haff : affordable fee f allowed (collectActions b)).
  { split; [|by apply Hpays]. intros t. rewrite (deposited_built hook _ _ t Hb), Hsame, (batch_calls_deposits config active t _ _ Hops).
    pose proof (deposits_total config t _ _ _ Htotals) as Htot. cbn [sumZ] in Htot. specialize (Hcov t).
    assert (fee_due fee (bool_decide (is_Some f)) t = 0) as ->; [|lia].
    unfold fee_due. rewrite Hpm. destruct Hfee as [->| ->]; [done|]. by destruct (_ && _)%bool. }
  destruct (has_paymaster config), f as [f|]; try discriminate Hpm; by apply submit_built_safe.
Qed.
End BatchSafety.

(** A batch of the transaction builder is backed as the other transactions of the demo are. If the paymaster's quotes for calls come with a
    message and no token is spelled in two ways, a batch submits at most once, what it proved of the actions it built; the allowances cover
    the deposits of the operations token by token, given one by one, or all in the message that the user signed and that
    the submission takes along; a paymaster is paid the fee it quoted; and a transaction that is shown was submitted last and succeeded.
    Without a paymaster this holds where the pool takes no fee. *)
Theorem batches_are_backed `{DemoWorld} (config : AppConfig) (hook : Hook) (fuel : nat) (operations : list BuilderOperation) (fee : Z) :
  (forall l f td, fee_invoke_answer l = Ok (f, td) -> exists m, td = Some m /\ truthy_json m = true) ->
  (forall totals, depositsByToken config operations = Ok totals -> canonical totals) ->
  has_paymaster config = true \/ fee = 0 ->
  let '(status, block, _, log) := executeBatch config hook fuel operations in
  (forall pre s post, log = (pre ++ Submitted s :: post)%list -> calm pre /\ calm post /\ justified config hook fee pre s) /\
  (forall hash, ts_lastTxHash status = Some hash -> reported hash block log).
Proof.
  intros Hquotes Hc Hfee. unfold executeBatch. destruct (given (hk_activeAddress hook)) as [active|]; [|by split; [intros [|? ?] ? ?|]].
  destruct (_ && _ && _)%bool; [|by split; [intros [|? ?] ? ?|]].
  destruct (tl_step "Builder" (batch config hook fuel active operations) (new_Timeline, [])) as [r [tl l]] eqn:Hr.
  pose proof (outcome_step _ "Builder" _ _ _ (batch_safe config hook fee Hquotes Hfee fuel active operations Hc) new_Timeline [] r tl l
    (nothing_prepared config hook) Hr) as Ho. destruct r as [res|e]; [|by split].
  destruct Ho as [Hs Hx]. split; [exact Hs|]. by intros hash [= <-].
Qed.

(** ** Two batches *)

(** A world whose quotes come with a message. *)
Definition quoting_world : DemoWorld := {|
  dw_num := toy_num; performance_now := @performance_now sample_demo_world; fee_answer := @fee_answer sample_demo_world;
  fee_invoke_answer := fun _ => Ok ({| fee_recipient := "0xfee"; fee_token := "0x4"; fee_amount := "0x1" |}, Some (JString "message"));
  sign_answer := @sign_answer sample_demo_world; execute_answer := @execute_answer sample_demo_world; receipt_answer := @receipt_answer sample_demo_world;
  block_answer := @block_answer sample_demo_world; build_answer := @build_answer sample_demo_world; prove_answer := @prove_answer sample_demo_world;
  submit_answer := @submit_answer sample_demo_world; view_answer := @view_answer sample_demo_world; quotes_answer := @quotes_answer sample_demo_world;
  swap_calls_answer := @swap_calls_answer sample_demo_world; balances_answer := @balances_answer sample_demo_world;
  fromCallsToExecuteCalldata_cairo1 := fun _ => [] |}.

(** Two deposits of one token, a transfer of another and a surplus recipient, as the form makes them. *)
Definition sample_operations : list BuilderOperation :=
  handleAdd 3 OpSurplus "" "" "0x7" false
    (handleAdd 2 OpDeposit "0.5" STRK_TOKEN_ADDRESS "" false
      (handleAdd 1 OpTransfer "2" "0x4" "0x8" false (handleAdd 0 OpDeposit "1.5" STRK_TOKEN_ADDRESS "0x7" false []))).

Definition run_sample (paymaster : option string) := @executeBatch quoting_world (sample_config paymaster) sample_hook 10 sample_operations.

Example sample_batch_is_shown :
  ts_lastTxHash (run_sample (Some "https://paymaster")).1.1.1 = Some "0xhash" /\
  @allowance quoting_world sample_hook (run_sample (Some "https://paymaster")).2 STRK = 200 /\ map op_id sample_operations = [0; 2; 1; 3].
Proof. vm_compute. split_and!; reflexivity. Qed.

(** Without a paymaster the fee of the pool is not approved: the account submits, the pool will draw the 200 of the deposits and the fee 7,
    and is allowed 200. *)
Example batch_misses_the_fee :
  existsb is_submission (run_sample None).2 = true /\
  forallb (fun e => match e with
                    | Submitted s => negb (by_paymaster s)
                    | BuiltInvocation actions _ => Z.eqb (deposited actions STRK) 200
                    | _ => true
                    end) (run_sample None).2 = true /\
  @allowance quoting_world sample_hook (run_sample None).2 STRK = 200 /\ feeAmount (sample_config None) = Some 7.
Proof. vm_compute. split_and!; reflexivity. Qed.

(** ** Every transaction of the demo *)

(** One of the flows, or a batch of the transaction builder. *)
Inductive demo_transaction : Type :=
| DoFlow (a : demo_action)
| DoBatch (operations : list BuilderOperation).

Definition run_transaction `{DemoWorld} (config : AppConfig) (hook : Hook) (fuel : nat) (t : demo_transaction)
  : TransactionStatus * option Z * Timeline * list demo_event :=
  match t with DoFlow a => run_action config hook fuel a | DoBatch operations => executeBatch config hook fuel operations end.

(** What it takes for a transaction to be backed when the pool draws [fee]: for a flow, that the demo knows the fee, or knows none and
    there is none. For a batch, that a paymaster submits or there is no fee, that the paymaster's quotes for calls come with a message,
    and that no token of its deposits is spelled in two ways. *)
Definition prepared_for `{DemoWorld} (config : AppConfig) (fee : Z) (t : demo_transaction) : Prop :=
  match t with
  | DoFlow _ => default 0 (feeAmount config) = fee
  | DoBatch operations =>
      (has_paymaster config = true \/ fee = 0) /\
      (forall l f td, fee_invoke_answer l = Ok (f, td) -> exists m, td = Some m /\ truthy_json m = true) /\
      (forall totals, depositsByToken config operations = Ok totals -> canonical totals)
  end.

(** C35: the transactions of the demo, the nine flows and the batches of the transaction builder, are backed. In any world, a
    transaction submits at most once, and before it does it proved exactly the actions it built, at a block after the last transaction
    of the account; the allowances that the user gave the pool cover, token by token, what the pool draws, which is the deposits and, if no
    paymaster submits, the pool's fee; and a paymaster that submits is paid the fee it asked for out of the pool. If the final status
    shows a transaction, its submission was the last one and its receipt a success; minting aside, which submits nothing. For a
    flow, the fee is the one the demo knows (zero while it knows none). For a batch this is shown where a paymaster submits or the pool
    takes no fee (without a paymaster a batch does not approve the fee, see [batch_misses_the_fee]), if the paymaster's quotes for calls
    come with a message and no token is spelled in two ways. *)
Theorem demo_transactions_are_backed `{DemoWorld} (config : AppConfig) (hook : Hook) (fuel : nat) (t : demo_transaction) (fee : Z) :
  prepared_for config fee t ->
  let '(status, block, _, log) := run_transaction config hook fuel t in
  (forall pre s post, log = (pre ++ Submitted s :: post)%list -> calm pre /\ calm post /\ justified config hook fee pre s) /\
  (forall hash, ts_lastTxHash status = Some hash -> (exists token amount, t = DoFlow (DoMint token amount)) \/ reported hash block log).
Proof.
  destruct t as [a|operations]; cbn [run_transaction prepared_for].
  - intros Hfee. pose proof (flows_are_backed config hook fuel a fee Hfee) as Hb.
    destruct (run_action config hook fuel a) as [[[status block] tl] log]. destruct Hb as [Hb Hs]. split; [exact Hb|].
    intros hash Hh. destruct (Hs hash Hh) as [(token & amount & ->)|Hr]; [left; by eexists _, _|by right].
  - intros (Hfee & Hq & Hc). pose proof (batches_are_backed config hook fuel operations fee Hq Hc Hfee) as Hb.
    destruct (executeBatch config hook fuel operations) as [[[status block] tl] log]. destruct Hb as [Hb Hs]. split; [exact Hb|].
    intros hash Hh. right. by apply Hs.
Qed.

(** The deposit, and the batch with a paymaster. *)
Definition batch_by_paymaster := @run_transaction quoting_world (sample_config (Some "https://paymaster")) sample_hook 10 (DoBatch sample_operations).

Lemma demo_transactions_are_backed_witness :
  @reported sample_demo_world "0xhash" sample_deposit.1.1.2 sample_deposit.2 /\
  @reported quoting_world "0xhash" batch_by_paymaster.1.1.2 batch_by_paymaster.2.
Proof.
  split.
  - pose proof (@demo_transactions_are_backed sample_demo_world (sample_config None) sample_hook 10
      (DoFlow (DoDeposit STRK_TOKEN_ADDRESS "1.5")) 7 eq_refl) as Hb.
    cbn [run_transaction] in Hb. fold sample_deposit in Hb.
    assert (Hh : ts_lastTxHash sample_deposit.1.1.1 = Some "0xhash") by (vm_compute; reflexivity).
    destruct sample_deposit as [[[status block] tl] log]. destruct Hb as [_ Hb].
    destruct (Hb _ Hh) as [(token & amount & Hd)|Hr]; [discriminate Hd|exact Hr].
  - pose proof (@demo_transactions_are_backed quoting_world (sample_config (Some "https://paymaster")) sample_hook 10
      (DoBatch sample_operations) 7) as Hb.
    assert (Hp : @prepared_for quoting_world (sample_config (Some "https://paymaster")) 7 (DoBatch sample_operations)).
    { split; [by left|]. split.
      - intros l f td [= <- <-]. exists (JString "message"). split; reflexivity.
      - assert (Hd : depositsByToken (sample_config (Some "https://paymaster")) sample_operations = Ok [(STRK_TOKEN_ADDRESS, 200)])
          by (vm_compute; reflexivity).
        assert (Hn : omap (fun e : string * Z => BigInt_of_string e.1) [(STRK_TOKEN_ADDRESS, 200)] = [STRK]) by (vm_compute; reflexivity).
        intros totals Ht. rewrite Hd in Ht. apply Ok_inj in Ht as <-. unfold canonical. rewrite Hn. apply NoDup_singleton. }
    specialize (Hb Hp). fold batch_by_paymaster in Hb.
    assert (Hh : ts_lastTxHash batch_by_paymaster.1.1.1 = Some "0xhash") by (vm_compute; reflexivity).
    destruct batch_by_paymaster as [[[status block] tl] log]. destruct Hb as [_ Hb].
    destruct (Hb _ Hh) as [(token & amount & Hd)|Hr]; [discriminate Hd|exact Hr].
Defined.
