(* ===== verification/DemoHistory.v ===== *)
(** * The history on the demo's screen ([demo/src/hooks/useHistory.ts])

    Classified transactions become labels and balance updates. The update of a token is the sum of what the actions did to
    the holdings of the viewer; over a whole transaction it is what its events did. *)
From Stdlib Require Import Ascii ZArith Lia.
From stdpp Require Import base tactics list strings.
From S2P Require Import Prelude JsMap Convert PoolTransaction History ActionClassifier DemoFormat.

Local Open Scope string_scope.
Local Open Scope Z_scope.

(** ** Names *)

Record DisplayMaps : Type := {
  nameByAddress : jsmap Z string;
  tokenNameByAddress : jsmap Z string;
  tokenDecimalsByAddress : jsmap Z nat;
  executorNames : jsmap Z string }.

(** What [buildDisplayMaps] reads: the address and the name of an account; the address, the name and the decimals of a token. *)
Record DisplayConfig : Type := {
  dc_tokens : list (string * string * nat);
  dc_ekuboExecutor : option string;
  dc_vesuAnonymizer : option string;
  dc_paymasterForwarder : option string }.

Definition set_name (self : Z) (acc : string * string) (names : jsmap Z string) : option (jsmap Z string) :=
  accAddress ← BigInt_of_string acc.1;
  Some (map_set accAddress (if accAddress =? self then "self" else toLowerCase acc.2) names).

Fixpoint set_names (self : Z) (accounts : list (string * string)) (names : jsmap Z string) : option (jsmap Z string) :=
  match accounts with
  | [] => Some names
  | acc :: accounts => names ← set_name self acc names; set_names self accounts names
  end.

Fixpoint set_tokens (tokens : list (string * string * nat)) (names : jsmap Z string) (decimals : jsmap Z nat) : option (jsmap Z string * jsmap Z nat) :=
  match tokens with
  | [] => Some (names, decimals)
  | (address, name, d) :: tokens => addr ← BigInt_of_string address; set_tokens tokens (map_set addr name names) (map_set addr d decimals)
  end.

Definition set_executor (address : option string) (name : string) (names : jsmap Z string) : option (jsmap Z string) :=
  match address with Some a => addr ← BigInt_of_string a; Some (map_set addr name names) | None => Some names end.

(** [None] where [BigInt] throws. *)
Definition buildDisplayMaps (account : string) (allAccounts : list (string * string)) (config : DisplayConfig) : option DisplayMaps :=
  self ← BigInt_of_string account;
  names ← set_names self allAccounts [];
  tokens ← set_tokens (dc_tokens config) [] [];
  executors ← set_executor (dc_ekuboExecutor config) "ekubo swap" [];
  executors ← set_executor (dc_vesuAnonymizer config) "vesu swap" executors;
  Some {| nameByAddress := names; tokenNameByAddress := tokens.1; tokenDecimalsByAddress := tokens.2; executorNames := executors |}.

Section Display.
Context (maps : DisplayMaps).

Definition hex (z : Z) : string := bigint_toString 16 z.
Definition resolve (names : jsmap Z string) (address : Z) : string := default (truncateAddress (hex address)) (map_get address names).
Definition tokenName (token : Z) : string := resolve (tokenNameByAddress maps) token.
Definition decimalsOf (token : Z) : nat := default O (map_get token (tokenDecimalsByAddress maps)).
Definition fmtAmount (amount token : Z) : string := formatTokenAmount amount (decimalsOf token) DEFAULT_FRACTION.
Definition amountOf (amount token : Z) : string := fmtAmount amount token +:+ " " +:+ tokenName token.

(** [parts.join(", ")]. *)
Fixpoint join (sep : string) (parts : list string) : string :=
  match parts with [] => "" | [p] => p | p :: parts => p +:+ sep +:+ join sep parts end.

Record ActionLabel : Type := { al_label : string; al_chipClass : string; al_chipLabel : option string; al_isFee : bool }.
Definition plain_label (label chip : string) : ActionLabel := {| al_label := label; al_chipClass := chip; al_chipLabel := None; al_isFee := false |}.

Definition formatActionLabel (action : HistoryAction) : ActionLabel :=
  match action with
  | HDeposit _ token amount => plain_label ("Deposited " +:+ amountOf amount token) "chip-ok"
  | HWithdrawal to token amount => plain_label ("Withdrew " +:+ amountOf amount token +:+ " to " +:+ resolve (nameByAddress maps) to) "chip-no"
  | HFee _ token amount =>
      {| al_label := "Withdrew " +:+ amountOf amount token +:+ " to paymaster"; al_chipClass := "chip"; al_chipLabel := None; al_isFee := true |}
  | HTransferSent to token amount _ => plain_label ("Sent " +:+ amountOf amount token +:+ " to " +:+ resolve (nameByAddress maps) to) "chip-no"
  | HTransferReceived from token amount _ => plain_label ("Received " +:+ amountOf amount token +:+ " from " +:+ resolve (nameByAddress maps) from) "chip-ok"
  | HSwap executor sent received =>
      let executorLabel := resolve (executorNames maps) executor in
      let parts := fun legs => join ", " (map (fun leg => amountOf (leg_amount leg) (leg_token leg)) legs) in
      {| al_label := "Swapped " +:+ parts sent +:+ " for " +:+ parts received +:+ " via " +:+ executorLabel; al_chipClass := "chip-swap";
         al_chipLabel := if map_has executor (executorNames maps) then Some executorLabel else None; al_isFee := false |}
  | HTransferSelf token amount _ => plain_label ("Reorganized " +:+ amountOf amount token) "chip"
  | HRegister _ => plain_label "Registered with the privacy pool" "chip"
  end.

(** ** Balance updates *)

Definition add_net (token amount : Z) (net : jsmap Z Z) : jsmap Z Z := map_set token (default 0 (map_get token net) + amount) net.

Definition net_action (viewerAddress : Z) (net : jsmap Z Z) (action : HistoryAction) : jsmap Z Z :=
  match action with
  | HDeposit _ _ _ | HTransferSelf _ _ _ | HRegister _ => net
  | HWithdrawal to token amount => if to =? viewerAddress then net else add_net token (- amount) net
  | HFee _ token amount | HTransferSent _ token amount _ => add_net token (- amount) net
  | HTransferReceived _ token amount _ => add_net token amount net
  | HSwap _ sent received =>
      fold_left (fun net leg => add_net (leg_token leg) (leg_amount leg) net) received
        (fold_left (fun net leg => add_net (leg_token leg) (- leg_amount leg) net) sent net)
  end.
Definition netByToken (viewerAddress : Z) (actions : list HistoryAction) : jsmap Z Z := fold_left (net_action viewerAddress) actions [].

Record BalanceUpdate : Type := { bu_tokenName : string; bu_amount : Z; bu_decimals : nat }.
Definition balance_update (e : Z * Z) : BalanceUpdate := {| bu_tokenName := tokenName e.1; bu_amount := e.2; bu_decimals := decimalsOf e.1 |}.
Definition computeBalanceUpdates (actions : list HistoryAction) (viewerAddress : Z) : list BalanceUpdate :=
  map balance_update (netByToken viewerAddress actions).

(** ** Transactions *)

Record ActionDisplay : Type := { ad_type : string; ad_label : ActionLabel; ad_noteCount : option Z }.
Record TransactionDisplay : Type := {
  td_blockNumber : Z;
  td_timestamp : option Z;
  td_transactionHash : string;
  td_fullTransactionHash : string;
  td_actions : list ActionDisplay;
  td_balanceUpdates : list BalanceUpdate }.

Definition action_type (action : HistoryAction) : string :=
  match action with
  | HDeposit _ _ _ => "deposit" | HWithdrawal _ _ _ => "withdrawal" | HFee _ _ _ => "fee" | HTransferSent _ _ _ _ => "transferSent"
  | HTransferReceived _ _ _ _ => "transferReceived" | HSwap _ _ _ => "swap" | HTransferSelf _ _ _ => "transferSelf" | HRegister _ => "register"
  end.
Definition ACTION_ORDER : jsmap string Z :=
  [("register", 0); ("deposit", 1); ("transferReceived", 2); ("transferSelf", 3); ("transferSent", 4); ("swap", 5); ("withdrawal", 6); ("fee", 7)].
Definition action_order (a : ActionDisplay) : Z := default 99 (map_get (ad_type a) ACTION_ORDER).
Definition noteCount (action : HistoryAction) : option Z :=
  match action with HTransferSent _ _ _ n | HTransferReceived _ _ _ n | HTransferSelf _ _ n => Some n | _ => None end.

Definition display_action (action : HistoryAction) : ActionDisplay :=
  {| ad_type := action_type action; ad_label := formatActionLabel action; ad_noteCount := noteCount action |}.

(** A forwarder that is not set, or zero, is no fee recipient. *)
Definition feeRecipients (paymasterForwarderAddress : option Z) : list Z :=
  match paymasterForwarderAddress with Some a => if a =? 0 then [] else [a] | None => [] end.

Definition display_transaction (viewerAddress : Z) (paymasterForwarderAddress : option Z) (transaction : HistoryTransaction) : TransactionDisplay :=
  let classified := classifyTransaction transaction (feeRecipients paymasterForwarderAddress) in
  {| td_blockNumber := ct_blockNumber classified; td_timestamp := None;
     td_transactionHash := truncateAddress (hex (ct_transactionHash classified));
     td_fullTransactionHash := "0x" +:+ hex (ct_transactionHash classified);
     td_actions := sort_with (fun a b => action_order a - action_order b) (map display_action (ct_actions classified));
     td_balanceUpdates := computeBalanceUpdates (ct_actions classified) viewerAddress |}.
Definition toDisplayTransactions (rawTransactions : list HistoryTransaction) (viewerAddress : Z) (paymasterForwarderAddress : option Z)
  : list TransactionDisplay := map (display_transaction viewerAddress paymasterForwarderAddress) rawTransactions.
End Display.

(** [resolveTimestamps]: a block is read once; an error of one read fails them all. *)
Definition with_timestamp (t : option Z) (tx : TransactionDisplay) : TransactionDisplay :=
  {| td_blockNumber := td_blockNumber tx; td_timestamp := t; td_transactionHash := td_transactionHash tx;
     td_fullTransactionHash := td_fullTransactionHash tx; td_actions := td_actions tx; td_balanceUpdates := td_balanceUpdates tx |}.
Definition block_numbers (transactions : list TransactionDisplay) : list Z :=
  map_keys (map_of_entries (map (fun tx => (td_blockNumber tx, tt)) transactions)).
Definition resolveTimestamps {E} (block_timestamp : Z -> result E Z) (transactions : list TransactionDisplay) : result E (list TransactionDisplay) :=
  entries ← mapM (fun b => t ← block_timestamp b; Ok (b, t)) (block_numbers transactions);
  Ok (map (fun tx => with_timestamp (map_get (td_blockNumber tx) (map_of_entries entries)) tx) transactions).

(** ** The net of a transaction *)

(** What an action does to the viewer's holdings of a token. *)
Definition leg_in (t : Z) (l : SwapLeg) : Z := when (leg_token l =? t) (leg_amount l).
Definition holding_effect (viewer t : Z) (a : HistoryAction) : Z :=
  match a with
  | HWithdrawal to token amount => when (negb (to =? viewer) && (token =? t)) (- amount)
  | HFee _ token amount | HTransferSent _ token amount _ => when (token =? t) (- amount)
  | HTransferReceived _ token amount _ => when (token =? t) amount
  | HSwap _ sent received => sumZ (leg_in t) received - sumZ (leg_in t) sent
  | HDeposit _ _ _ | HTransferSelf _ _ _ | HRegister _ => 0
  end.

Definition net_of (t : Z) (net : jsmap Z Z) : Z := default 0 (map_get t net).

Lemma add_net_spec t token amount net : map_wf net ->
  map_wf (add_net token amount net) /\ net_of t (add_net token amount net) = net_of t net + when (token =? t) amount.
Proof.
  intros Hwf. split; [by apply map_set_wf|]. unfold net_of, add_net. destruct (Z.eqb_spec token t) as [->|Hne]; cbn [when].
  - by rewrite map_get_set_eq.
  - rewrite map_get_set_ne by done. lia.
Qed.

Lemma add_legs_spec t (f : SwapLeg -> Z) legs net : map_wf net ->
  let net' := fold_left (fun net leg => add_net (leg_token leg) (f leg) net) legs net in
  map_wf net' /\ net_of t net' = net_of t net + sumZ (fun l => when (leg_token l =? t) (f l)) legs.
Proof.
  cbn zeta. revert net. induction legs as [|l legs IH]; intros net Hwf; cbn [fold_left sumZ]; [split; [done|lia]|].
  destruct (add_net_spec t (leg_token l) (f l) net Hwf) as [Hwf' Hn]. destruct (IH _ Hwf') as [? ->]. split; [done|]. rewrite Hn. lia.
Qed.

Lemma net_action_spec viewer t net a : map_wf net ->
  map_wf (net_action viewer net a) /\ net_of t (net_action viewer net a) = net_of t net + holding_effect viewer t a.
Proof.
  intros Hwf. destruct a as [| to token amount| | | |executor sent received| |]; cbn [net_action holding_effect];
    try (by apply add_net_spec); try (split; [done|lia]).
  - destruct (to =? viewer); cbn [negb andb]; [split; [done|cbn; lia]|]. by apply add_net_spec.
  - destruct (add_legs_spec t (fun l => - leg_amount l) sent net Hwf) as [Hwf' Hs].
    destruct (add_legs_spec t leg_amount received _ Hwf') as [? ->]. split; [done|]. rewrite Hs.
    assert (sumZ (fun l => when (leg_token l =? t) (- leg_amount l)) sent = - sumZ (leg_in t) sent) as ->; [|unfold leg_in; lia].
    clear. induction sent as [|l sent IH]; cbn; [done|]. rewrite IH. unfold leg_in. destruct (leg_token l =? t); cbn; lia.
Qed.

(** The update of a token is the sum over the actions. *)
Lemma netByToken_spec viewer t actions :
  map_wf (netByToken viewer actions) /\ net_of t (netByToken viewer actions) = sumZ (holding_effect viewer t) actions.
Proof.
  unfold netByToken.
  assert (Hgen : forall net, map_wf net -> map_wf (fold_left (net_action viewer) actions net) /\
    net_of t (fold_left (net_action viewer) actions net) = net_of t net + sumZ (holding_effect viewer t) actions);
    [|apply (Hgen []); apply NoDup_nil_2].
  induction actions as [|a actions IH]; intros net Hwf; cbn [fold_left sumZ]; [split; [done|lia]|].
  destruct (net_action_spec viewer t net a Hwf) as [Hwf' Ha]. destruct (IH _ Hwf') as [? ->]. split; [done|]. rewrite Ha. lia.
Qed.

(** ** The events behind it *)

Section Events.
Context (viewer t : Z) (fees : list Z) (incoming : bool).

(** The withdrawals that count: those that do not come back to the viewer and, in an incoming transfer, those that pay no fee. *)
Definition counted (x : Z) : bool := negb (x =? viewer) && negb (incoming && bool_decide (x ∈ fees)).
#[local] Arguments counted : simpl never.

Definition note_effect (n : HistoryNote) : Z :=
  when (negb (is_self n) && (hn_token n =? t)) (if is_outgoing n then - hn_amount n else hn_amount n).
Definition open_effect (d : HistoryOpenNoteDeposit) : Z := when (ho_token d =? t) (ho_amount d).
Definition withdrawal_effect (w : HistoryWithdrawal) : Z := when (counted (hw_toAddress w) && (hw_token w =? t)) (- hw_amount w).
Definition events_effect (tx : HistoryTransaction) : Z :=
  sumZ note_effect (ht_notes tx) + sumZ open_effect (ht_openNoteDeposits tx) + sumZ withdrawal_effect (ht_withdrawals tx).

(** The effect on the screen, where the fees of an incoming transfer are not shown. *)
Definition shown_effect (a : HistoryAction) : Z := if incoming && is_fee a then 0 else holding_effect viewer t a.

(** The part of the counterparty [x] in flows [g]. *)
Definition share (g : flow -> Z) (x : Z) : Z :=
  g (FReceived x t) - g (FSent x t) + g (FSwapIn x t) - when (counted x) (g (FOut x t)).

Definition party (a : HistoryAction) : Z :=
  match a with
  | HWithdrawal x _ _ | HFee x _ _ | HTransferSent x _ _ _ | HTransferReceived x _ _ _ | HSwap x _ _ => x
  | HDeposit _ _ _ | HTransferSelf _ _ _ | HRegister _ => 0
  end.
Definition party_ok (a : HistoryAction) : Prop :=
  match a with
  | HFee to _ _ => to ∈ fees
  | HWithdrawal to _ _ => to ∉ fees
  | HSwap executor _ _ => counted executor = true
  | _ => True
  end.

Lemma other_share a x : x <> party a -> share (fun f => action_flow Amounts f a) x = 0.
Proof.
  intros Hx. unfold share. destruct a; cbn in *; rewrite ?(proj2 (Z.eqb_neq _ x)) by congruence; cbn; by destruct (counted x).
Qed.

Lemma party_share a : (viewer ∉ fees) -> party_ok a -> share (fun f => action_flow Amounts f a) (party a) = shown_effect a.
Proof.
  intros Hv Hok. unfold share, shown_effect. destruct a as [| to token amount|to token amount| | |e sent received| |]; cbn in *; rewrite ?Z.eqb_refl; cbn.
  - by destruct (counted 0), incoming.
  - unfold counted. rewrite bool_decide_eq_false_2 by done. rewrite !andb_false_r. cbn.
    destruct (to =? viewer), (token =? t); cbn; lia.
  - unfold counted. rewrite bool_decide_eq_true_2 by done. rewrite (proj2 (Z.eqb_neq to viewer)) by (by intros ->).
    rewrite !andb_true_r. destruct incoming, (token =? t); cbn; lia.
  - destruct (counted _), incoming, (_ =? t); cbn; lia.
  - destruct (counted _), incoming, (_ =? t); cbn; lia.
  - rewrite Hok, andb_false_r. cbn [when]. unfold leg_flow. cbn. fold (leg_in t). lia.
  - by destruct (counted 0), incoming.
  - by destruct (counted 0), incoming.
Qed.

Lemma action_shares xs a : (viewer ∉ fees) -> NoDup xs -> party a ∈ xs -> party_ok a ->
  sumZ (share (fun f => action_flow Amounts f a)) xs = shown_effect a.
Proof. intros Hv Hnd Hin Hok. rewrite (sumZ_single _ (party a)); [by apply party_share|done|done|apply other_share]. Qed.

Lemma share_sum l x : share (fun f => sumZ (action_flow Amounts f) l) x = sumZ (fun a => share (fun f => action_flow Amounts f a) x) l.
Proof.
  induction l as [|a l IH]; cbn [sumZ]; [by unfold share; destruct (counted x)|]. rewrite <- IH. unfold share. rewrite when_plus. lia.
Qed.

(** The same for the events. *)
Lemma note_shares xs n : NoDup xs -> hn_counterparty n ∈ xs ->
  sumZ (fun x => note_flow Amounts (FReceived x t) n - note_flow Amounts (FSent x t) n) xs = note_effect n.
Proof.
  intros Hnd Hin. rewrite (sumZ_single _ (hn_counterparty n)); [|done|done|].
  - cbn. unfold note_effect. rewrite Z.eqb_refl. destruct (is_self n), (is_outgoing n), (hn_token n =? t); cbn; lia.
  - intros x Hx. cbn. rewrite (proj2 (Z.eqb_neq _ x)) by congruence. by rewrite !andb_false_r.
Qed.

Lemma open_shares xs d : NoDup xs -> ho_depositor d ∈ xs ->
  sumZ (fun x => when ((ho_depositor d =? x) && (ho_token d =? t)) (ho_amount d)) xs = open_effect d.
Proof.
  intros Hnd Hin. rewrite (sumZ_single _ (ho_depositor d)); [by rewrite Z.eqb_refl|done|done|].
  intros x Hx. by rewrite (proj2 (Z.eqb_neq _ x)) by congruence.
Qed.

Lemma withdrawal_shares xs w : NoDup xs -> hw_toAddress w ∈ xs ->
  sumZ (fun x => - when (counted x) (out_flow Amounts x t w)) xs = withdrawal_effect w.
Proof.
  intros Hnd Hin. rewrite (sumZ_single _ (hw_toAddress w)); [|done|done|].
  - unfold out_flow, withdrawal_effect. rewrite Z.eqb_refl. cbn. by destruct (counted _), (hw_token w =? t).
  - intros x Hx. unfold out_flow. rewrite (proj2 (Z.eqb_neq _ x)) by congruence. by destruct (counted x).
Qed.

Lemma sumZ_plus3 {A} (f g h : A -> Z) l : sumZ (fun x => f x + g x + h x) l = sumZ f l + sumZ g l + sumZ h l.
Proof. by rewrite !sumZ_plus. Qed.

Lemma event_share tx x : share (fun f => event_flow fees Amounts f tx) x =
  sumZ (fun n => note_flow Amounts (FReceived x t) n - note_flow Amounts (FSent x t) n) (ht_notes tx)
  + sumZ (fun d => when ((ho_depositor d =? x) && (ho_token d =? t)) (ho_amount d)) (ht_openNoteDeposits tx)
  + sumZ (fun w => - when (counted x) (out_flow Amounts x t w)) (ht_withdrawals tx).
Proof.
  unfold share. cbn [event_flow measure].
  assert (sumZ (fun n => note_flow Amounts (FReceived x t) n - note_flow Amounts (FSent x t) n) (ht_notes tx)
    = sumZ (note_flow Amounts (FReceived x t)) (ht_notes tx) - sumZ (note_flow Amounts (FSent x t)) (ht_notes tx)) as ->
    by (induction (ht_notes tx) as [|n l IH]; cbn [sumZ]; lia).
  assert (sumZ (fun w => - when (counted x) (out_flow Amounts x t w)) (ht_withdrawals tx)
    = - when (counted x) (sumZ (out_flow Amounts x t) (ht_withdrawals tx))) as ->
    by (induction (ht_withdrawals tx) as [|w l IH]; cbn [sumZ]; [by destruct (counted x)|rewrite IH, when_plus; lia]).
  lia.
Qed.

Lemma event_shares xs tx : NoDup xs -> (forall n, n ∈ ht_notes tx -> hn_counterparty n ∈ xs) ->
  (forall d, d ∈ ht_openNoteDeposits tx -> ho_depositor d ∈ xs) -> (forall w, w ∈ ht_withdrawals tx -> hw_toAddress w ∈ xs) ->
  sumZ (share (fun f => event_flow fees Amounts f tx)) xs = events_effect tx.
Proof.
  intros Hnd Hn Hd Hw. rewrite (sumZ_ext _ _ _ (fun x _ => event_share tx x)), sumZ_plus3, !(sumZ_swap _ xs). unfold events_effect.
  f_equal; [f_equal|]; apply sumZ_ext; intros y Hy; [by apply note_shares, Hn|by apply open_shares, Hd|by apply withdrawal_shares, Hw].
Qed.

(** Whatever the actions of a transaction show is what its events did. *)
Lemma shown_is_events tx : (viewer ∉ fees) -> Forall valid_kind (ht_notes tx) ->
  let all := with_self_transfers tx (event_actions fees tx) in
  Forall party_ok all -> sumZ shown_effect all = events_effect tx.
Proof.
  intros Hv Hk all Hok. rewrite list.Forall_forall in Hok.
  set (xs := remove_dups (map party all ++ map hn_counterparty (ht_notes tx)
    ++ map ho_depositor (ht_openNoteDeposits tx) ++ map hw_toAddress (ht_withdrawals tx))).
  assert (Hnd : NoDup xs) by apply NoDup_remove_dups.
  assert (Hin : forall x, x ∈ xs <-> x ∈ map party all \/ x ∈ map hn_counterparty (ht_notes tx)
    \/ x ∈ map ho_depositor (ht_openNoteDeposits tx) \/ x ∈ map hw_toAddress (ht_withdrawals tx)).
  { intros x. unfold xs. by rewrite elem_of_remove_dups, !elem_of_app. }
  rewrite <- (event_shares xs tx Hnd).
  - rewrite <- (sumZ_ext _ _ _ (fun a Ha => action_shares xs a Hv Hnd (proj2 (Hin _) (or_introl (list_elem_of_fmap_2 _ _ _ Ha))) (Hok a Ha))).
    rewrite sumZ_swap. apply sumZ_ext. intros x _. rewrite <- share_sum. unfold share.
    by rewrite !(proj1 (with_self_flow Amounts _ fees tx Hk)).
  - intros n Hn. apply Hin. right. left. by apply list_elem_of_fmap_2.
  - intros d Hd. apply Hin. do 2 right. left. by apply list_elem_of_fmap_2.
  - intros w Hw. apply Hin. do 3 right. by apply list_elem_of_fmap_2.
Qed.
End Events.

Lemma swaps_keys ds e : e ∈ map_keys (swapsByExecutor ds) -> e ∈ map ho_depositor ds.
Proof.
  unfold swapsByExecutor. assert (Hgen : forall m, e ∈ map_keys (fold_left add_received ds m) -> e ∈ map_keys m \/ e ∈ map ho_depositor ds);
    [|intros [Hn|?]%Hgen; [by apply elem_of_nil in Hn|done]].
  induction ds as [|d ds IH]; intros m He; cbn in *; [by left|]. apply IH in He as [He|?]; [|right; by right].
  unfold add_received in He. rewrite map_keys_set in He. destruct (map_has (ho_depositor d) m); [by left|].
  apply elem_of_app in He as [?|He]; [by left|]. apply list_elem_of_singleton in He as ->. right. by left.
Qed.

(** The executors of swaps are neither the viewer nor recipients of fees. *)
Definition executors_apart (viewer : Z) (fees : list Z) (tx : HistoryTransaction) : Prop :=
  Forall (fun d => ho_depositor d <> viewer /\ ho_depositor d ∉ fees) (ht_openNoteDeposits tx).

Lemma parties_ok viewer fees incoming tx : executors_apart viewer fees tx ->
  Forall (party_ok viewer fees incoming) (with_self_transfers tx (event_actions fees tx)).
Proof.
  intros Hex. assert (Hev : Forall (party_ok viewer fees incoming) (event_actions fees tx)).
  { rewrite event_actions_eq. repeat (apply Forall_app; split); apply list.Forall_fmap, list.Forall_forall.
    - intros e He. cbn. assert (e.1 ∈ map ho_depositor (ht_openNoteDeposits tx)) as Hk by (apply swaps_keys; by apply list_elem_of_fmap_2).
      apply list_elem_of_fmap in Hk as (d & -> & Hd). unfold executors_apart in Hex. rewrite list.Forall_forall in Hex.
      destruct (Hex d Hd) as [Hv Hf]. unfold counted. rewrite (proj2 (Z.eqb_neq _ _) Hv), bool_decide_eq_false_2 by done. by destruct incoming.
    - done.
    - intros w _. cbn. unfold withdrawal_action. by case_bool_decide.
    - intros a _. cbn. unfold transfer_action. by destruct (is_outgoing (ag_note a)). }
  unfold with_self_transfers. destruct (filter _ _); [|done]. apply Forall_app. split; [done|]. by apply list.Forall_fmap, Forall_true.
Qed.

(** C36: what the history shows of a transaction. Its labels are those of the classified actions, in the order of their types. A
    transaction that registers its account is one action, the registration, and has no balance updates, whatever else it did (the
    classifier skips its other events). For any other transaction, the balance updates are what its events did: the update of a token is
    the notes received minus the notes sent, plus the deposits into open notes, minus the withdrawals that did not come back to
    the viewer (in an incoming transfer without the fees, which the sender paid), and every token has one update. This is shown
    for notes of the three kinds that the indexer names, when the viewer is no recipient of fees and who deposits into open notes
    (the executors of swaps) is neither the viewer nor a recipient of fees. *)
Theorem history_updates_are_net (maps : DisplayMaps) (viewer : Z) (forwarder : option Z) (tx : HistoryTransaction) :
  let fees := feeRecipients forwarder in
  let actions := ct_actions (classifyTransaction tx fees) in
  let shown := display_transaction maps viewer forwarder tx in
  td_actions shown ≡ₚ map (display_action maps) actions /\
  Sorted.StronglySorted (fun a b => action_order a <= action_order b) (td_actions shown) /\
  (forall pubkey, ht_registeredPubkey tx = Some pubkey -> actions = [HRegister pubkey] /\ td_balanceUpdates shown = []) /\
  (ht_registeredPubkey tx = None -> Forall valid_kind (ht_notes tx) -> (viewer ∉ fees) -> executors_apart viewer fees tx ->
    exists net, td_balanceUpdates shown = map (balance_update maps) net /\ map_wf net /\
      forall t, net_of t net = events_effect viewer t fees (incoming_transfer actions) tx).
Proof.
  intros fees actions shown. split_and!; [apply sort_with_perm|apply sort_with_sorted| |].
  { intros pubkey Hr. unfold shown, display_transaction, actions, classifyTransaction. cbn [td_balanceUpdates ct_actions]. by rewrite Hr. }
  intros Hr Hk Hv Hex. exists (netByToken viewer actions). split; [done|]. split; [apply (netByToken_spec viewer 0)|].
  intros t. rewrite (proj2 (netByToken_spec viewer t actions)).
  rewrite <- shown_is_events by (done || by apply parties_ok). unfold actions, classifyTransaction. cbn [ct_actions]. rewrite Hr.
  set (all := with_self_transfers tx (event_actions fees tx)). unfold without_fees. fold (incoming_transfer all).
  destruct (incoming_transfer all) eqn:Hin.
  - replace (incoming_transfer (filter _ all)) with true.
    + rewrite sumZ_filter. apply sumZ_ext. intros a _. unfold shown_effect. cbn [andb].
      case_bool_decide as Hfee; [by rewrite Hfee|]. by destruct (is_fee a).
    + unfold incoming_transfer in *. rewrite !existsb_filter; [done| |]; by intros [].
  - rewrite Hin. by apply sumZ_ext.
Qed.

(** The swap of [sample_history] seen by account 7. *)
Definition sample_maps : DisplayMaps :=
  {| nameByAddress := [(8, "bob")]; tokenNameByAddress := [(1, "STRK"); (2, "USDC")]; tokenDecimalsByAddress := [(1, 1%nat); (2, 1%nat)];
     executorNames := [(40, "ekubo swap")] |}.

Lemma history_updates_are_net_witness :
  td_balanceUpdates (display_transaction sample_maps 7 (Some 99) sample_history)
    = [{| bu_tokenName := "STRK"; bu_amount := -5; bu_decimals := 1 |}; {| bu_tokenName := "USDC"; bu_amount := 48; bu_decimals := 1 |}] /\
  exists net, map_wf net /\ net_of 1 net = -5 /\ net_of 2 net = 48.
Proof.
  split; [reflexivity|].
  destruct (history_updates_are_net sample_maps 7 (Some 99) sample_history) as (_ & _ & _ & Hshown).
  destruct Hshown as (net & _ & Hwf & Hnet).
  - reflexivity.
  - repeat constructor.
  - cbn. intros Hx%list_elem_of_singleton. lia.
  - unfold executors_apart. cbn. apply Forall_singleton. split; [cbn; lia|]. cbn. intros Hx%list_elem_of_singleton. lia.
  - exists net. split; [exact Hwf|]. split; rewrite Hnet; reflexivity.
Defined.

Example history_labels :
  map (fun a => (ad_type a, al_label (ad_label a))) (td_actions (display_transaction sample_maps 7 (Some 99) sample_history))
  = [("transferReceived", "Received 4.2 USDC from bob"); ("swap", "Swapped 0.5 STRK for 0.6 USDC via ekubo swap")].
Proof. vm_compute. reflexivity. Qed.
