(* ===== verification/DemoHistoryHook.v ===== *)
(** * The history hook of the demo ([useHistory] in demo/src/hooks/useHistory.ts)

    The refs and the React state of the hook, with the fetches that are under way, as a machine whose steps are the calls,
    the answers and the changes of the account. *)
From Stdlib Require Import Ascii ZArith Lia.
From stdpp Require Import base tactics list strings.
From S2P Require Import Prelude JsMap Convert Interfaces Channel History ActionClassifier IndexerChannels DemoFormat DemoHistory.

Local Open Scope string_scope.
Local Open Scope Z_scope.

(** The account that is shown, and the pool. *)
Record HistoryAccount : Type := { ha_address : string; ha_pool : string }.

Section Hook.
Context {R E : Type} (config : DisplayConfig) (allAccounts : list (string * string)) (provider : bool).

Inductive history_error : Type :=
| NoCursors
| NotANumber
| FetchFailed (e : E).

(** What the hook passes to [fetchHistory]; [R] is what the registry holds of the last discovery. *)
Record HistoryRequest : Type := {
  hr_account : HistoryAccount;
  hr_registry : R;
  hr_maxTransactions : Z;
  hr_cursor : option HistoryCursor;
  hr_blockRef : option BigNumberish;
  hr_blockIdentifier : option BigNumberish }.

(** What [fetchHistory] reads of it: it knows no [blockRef]. *)
Definition options_of (rq : HistoryRequest) : HistoryOptions :=
  {| ho_maxTransactions := Some (hr_maxTransactions rq); ho_lastKnownBlock := None; ho_blockIdentifier := hr_blockIdentifier rq;
     ho_historyCursor := hr_cursor rq |}.

Definition more_request (account : HistoryAccount) (registry : R) (cursor : option HistoryCursor) (blockRef : option BigNumberish) : HistoryRequest :=
  {| hr_account := account; hr_registry := registry; hr_maxTransactions := 5; hr_cursor := cursor; hr_blockRef := blockRef; hr_blockIdentifier := None |}.
Definition latest_request (account : HistoryAccount) (registry : R) : HistoryRequest :=
  {| hr_account := account; hr_registry := registry; hr_maxTransactions := 1; hr_cursor := None; hr_blockRef := None;
     hr_blockIdentifier := Some (BN_string "pre_confirmed") |}.

(** A fetch under way: it waits for its page, for the times of its blocks, or for the latest transaction. *)
Inductive task : Type :=
| AwaitPage (rq : HistoryRequest)
| AwaitStamps (rq : HistoryRequest) (newTransactions : list TransactionDisplay)
| AwaitLatest (rq : HistoryRequest).

(** What a run records for the statements about it: the pages that arrived for [fetchMore] and for [refreshLatest], with their
    requests, and the changes of the account. *)
Inductive history_record : Type :=
| PageOf (rq : HistoryRequest) (page : HistoryPage)
| LatestOf (rq : HistoryRequest) (page : HistoryPage)
| Changed.

Record HistoryState : Type := {
  hs_account : option HistoryAccount;
  hs_registry : option R;
  hs_transactions : list TransactionDisplay;
  hs_loading : bool;
  hs_error : option history_error;
  hs_complete : bool;
  hs_cursorRef : option HistoryCursor;
  hs_blockRef : option BigNumberish;
  hs_loadingRef : bool;
  hs_autoFetched : bool;
  hs_tasks : list task;
  hs_log : list history_record }.

Definition initial_state : HistoryState :=
  {| hs_account := None; hs_registry := None; hs_transactions := []; hs_loading := false; hs_error := None; hs_complete := false;
     hs_cursorRef := None; hs_blockRef := None; hs_loadingRef := false; hs_autoFetched := false; hs_tasks := []; hs_log := [] |}.

Definition with_error (e : option history_error) (s : HistoryState) : HistoryState :=
  {| hs_account := hs_account s; hs_registry := hs_registry s; hs_transactions := hs_transactions s; hs_loading := hs_loading s; hs_error := e;
     hs_complete := hs_complete s; hs_cursorRef := hs_cursorRef s; hs_blockRef := hs_blockRef s; hs_loadingRef := hs_loadingRef s;
     hs_autoFetched := hs_autoFetched s; hs_tasks := hs_tasks s; hs_log := hs_log s |}.
Definition with_transactions (f : list TransactionDisplay -> list TransactionDisplay) (s : HistoryState) : HistoryState :=
  {| hs_account := hs_account s; hs_registry := hs_registry s; hs_transactions := f (hs_transactions s); hs_loading := hs_loading s; hs_error := hs_error s;
     hs_complete := hs_complete s; hs_cursorRef := hs_cursorRef s; hs_blockRef := hs_blockRef s; hs_loadingRef := hs_loadingRef s;
     hs_autoFetched := hs_autoFetched s; hs_tasks := hs_tasks s; hs_log := hs_log s |}.
(** The two flags of a fetch. *)
Definition with_loading (b : bool) (s : HistoryState) : HistoryState :=
  {| hs_account := hs_account s; hs_registry := hs_registry s; hs_transactions := hs_transactions s; hs_loading := b; hs_error := hs_error s;
     hs_complete := hs_complete s; hs_cursorRef := hs_cursorRef s; hs_blockRef := hs_blockRef s; hs_loadingRef := b;
     hs_autoFetched := hs_autoFetched s; hs_tasks := hs_tasks s; hs_log := hs_log s |}.
Definition with_tasks (tasks : list task) (s : HistoryState) : HistoryState :=
  {| hs_account := hs_account s; hs_registry := hs_registry s; hs_transactions := hs_transactions s; hs_loading := hs_loading s; hs_error := hs_error s;
     hs_complete := hs_complete s; hs_cursorRef := hs_cursorRef s; hs_blockRef := hs_blockRef s; hs_loadingRef := hs_loadingRef s;
     hs_autoFetched := hs_autoFetched s; hs_tasks := tasks; hs_log := hs_log s |}.
Definition with_page (rq : HistoryRequest) (page : HistoryPage) (s : HistoryState) : HistoryState :=
  {| hs_account := hs_account s; hs_registry := hs_registry s; hs_transactions := hs_transactions s; hs_loading := hs_loading s; hs_error := hs_error s;
     hs_complete := hc_historyComplete (hp_cursor page); hs_cursorRef := Some (hp_cursor page); hs_blockRef := Some (hp_blockRef page);
     hs_loadingRef := hs_loadingRef s; hs_autoFetched := hs_autoFetched s; hs_tasks := hs_tasks s; hs_log := (hs_log s ++ [PageOf rq page])%list |}.

(** Records a page of [refreshLatest], which changes nothing else. *)
Definition record_latest (rq : HistoryRequest) (page : HistoryPage) (s : HistoryState) : HistoryState :=
  {| hs_account := hs_account s; hs_registry := hs_registry s; hs_transactions := hs_transactions s; hs_loading := hs_loading s; hs_error := hs_error s;
     hs_complete := hs_complete s; hs_cursorRef := hs_cursorRef s; hs_blockRef := hs_blockRef s;
     hs_loadingRef := hs_loadingRef s; hs_autoFetched := hs_autoFetched s; hs_tasks := hs_tasks s; hs_log := (hs_log s ++ [LatestOf rq page])%list |}.

(** [finally]: the fetch [i] is over. *)
Definition finish (i : nat) (s : HistoryState) : HistoryState := with_loading false (with_tasks (delete i (hs_tasks s)) s).
Definition fail (i : nat) (e : history_error) (s : HistoryState) : HistoryState := finish i (with_error (Some e) s).

(** ** The calls *)

(** The start of a fetch: [loadingRef], [setLoading], [setError], and the call, unless the address is no number. *)
Definition start (t : HistoryAccount) (tsk : task) (s : HistoryState) : HistoryState :=
  let i := length (hs_tasks s) in
  let s := with_tasks (hs_tasks s ++ [tsk])%list (with_loading true (with_error None s)) in
  match BigInt_of_string (ha_address t) with Some _ => s | None => fail i NotANumber s end.

Definition fetchMore (s : HistoryState) : HistoryState :=
  match hs_account s, hs_loadingRef s with
  | None, _ | _, true => s
  | Some account, false =>
      match hs_registry s with
      | None => with_error (Some NoCursors) s
      | Some registry => start account (AwaitPage (more_request account registry (hs_cursorRef s) (hs_blockRef s))) s
      end
  end.

Definition refreshLatest (s : HistoryState) : HistoryState :=
  match hs_account s, hs_loadingRef s, hs_registry s with
  | Some account, false, Some registry => start account (AwaitLatest (latest_request account registry)) s
  | _, _, _ => s
  end.

Definition auto_fetch (s : HistoryState) : HistoryState :=
  if hs_autoFetched s then s
  else
    match hs_registry s with
    | None => s
    | Some _ =>
        fetchMore
          {| hs_account := hs_account s; hs_registry := hs_registry s; hs_transactions := hs_transactions s; hs_loading := hs_loading s;
             hs_error := hs_error s; hs_complete := hs_complete s; hs_cursorRef := hs_cursorRef s; hs_blockRef := hs_blockRef s;
             hs_loadingRef := hs_loadingRef s; hs_autoFetched := true; hs_tasks := hs_tasks s; hs_log := hs_log s |}
    end.

(** The effect of another account or pool; the fetches under way go on. *)
Definition change_account (account : option HistoryAccount) (s : HistoryState) : HistoryState :=
  {| hs_account := account; hs_registry := hs_registry s; hs_transactions := []; hs_loading := hs_loading s; hs_error := None; hs_complete := false;
     hs_cursorRef := None; hs_blockRef := None; hs_loadingRef := hs_loadingRef s; hs_autoFetched := false; hs_tasks := hs_tasks s;
     hs_log := (hs_log s ++ [Changed])%list |}.
Definition set_registry (registry : option R) (s : HistoryState) : HistoryState :=
  {| hs_account := hs_account s; hs_registry := registry; hs_transactions := hs_transactions s; hs_loading := hs_loading s; hs_error := hs_error s;
     hs_complete := hs_complete s; hs_cursorRef := hs_cursorRef s; hs_blockRef := hs_blockRef s; hs_loadingRef := hs_loadingRef s;
     hs_autoFetched := hs_autoFetched s; hs_tasks := hs_tasks s; hs_log := hs_log s |}.

(** ** The answers *)

(** The transactions of a page as they are shown to the account of its request; [None] where [BigInt] throws. *)
Definition display_page (account : HistoryAccount) (transactions : list HistoryTransaction) : option (list TransactionDisplay) :=
  maps ← buildDisplayMaps (ha_address account) allAccounts config;
  viewer ← BigInt_of_string (ha_address account);
  forwarder ← match dc_paymasterForwarder config with
              | Some (String _ _ as f) => z ← BigInt_of_string f; Some (Some z)
              | _ => Some None
              end;
  Some (toDisplayTransactions maps transactions viewer forwarder).

Definition append_transactions (newTransactions previous : list TransactionDisplay) : list TransactionDisplay := (previous ++ newTransactions)%list.

(** The fresh transactions whose shortened hash is not shown yet come first. *)
Definition prepend_fresh (freshTransactions previous : list TransactionDisplay) : list TransactionDisplay :=
  let existingHashes := map td_transactionHash previous in
  let newOnly := filter (fun tx => td_transactionHash tx ∉ existingHashes) freshTransactions in
  match newOnly with [] => previous | _ => (newOnly ++ previous)%list end.

Definition page_arrives (i : nat) (rq : HistoryRequest) (answer : result E HistoryPage) (s : HistoryState) : HistoryState :=
  match answer with
  | Err e => fail i (FetchFailed e) s
  | Ok page =>
      let s := with_page rq page s in
      match display_page (hr_account rq) (hp_transactions page) with
      | None => fail i NotANumber s
      | Some newTransactions =>
          if provider then with_tasks (<[i := AwaitStamps rq newTransactions]> (hs_tasks s)) s
          else finish i (with_transactions (append_transactions newTransactions) s)
      end
  end.

Definition stamps_arrive (i : nat) (newTransactions : list TransactionDisplay) (block_timestamp : Z -> result E Z) (s : HistoryState) : HistoryState :=
  match resolveTimestamps block_timestamp newTransactions with
  | Err e => fail i (FetchFailed e) s
  | Ok stamped => finish i (with_transactions (append_transactions stamped) s)
  end.

Definition latest_arrives (i : nat) (rq : HistoryRequest) (answer : result E HistoryPage) (now : Z) (s : HistoryState) : HistoryState :=
  match answer with
  | Err e => fail i (FetchFailed e) s
  | Ok page =>
      let s := record_latest rq page s in
      match hp_transactions page with
      | [] => finish i s
      | _ =>
          match display_page (hr_account rq) (hp_transactions page) with
          | None => fail i NotANumber s
          | Some fresh => finish i (with_transactions (prepend_fresh (map (with_timestamp (Some now)) fresh)) s)
          end
      end
  end.

(** ** The machine *)

Inductive history_event : Type :=
| ChangeAccount (account : option HistoryAccount)
| SetRegistry (registry : option R)
| CallFetchMore
| CallRefreshLatest
| RunAutoFetch
| PageArrives (i : nat) (answer : result E HistoryPage) (now : Z)
| StampsArrive (i : nat) (block_timestamp : Z -> result E Z).

Definition history_step (s : HistoryState) (ev : history_event) : HistoryState :=
  match ev with
  | ChangeAccount account => change_account account s
  | SetRegistry registry => set_registry registry s
  | CallFetchMore => fetchMore s
  | CallRefreshLatest => refreshLatest s
  | RunAutoFetch => auto_fetch s
  | PageArrives i answer now =>
      match hs_tasks s !! i with
      | Some (AwaitPage rq) => page_arrives i rq answer s
      | Some (AwaitLatest rq) => latest_arrives i rq answer now s
      | _ => s
      end
  | StampsArrive i block_timestamp =>
      match hs_tasks s !! i with
      | Some (AwaitStamps _ newTransactions) => stamps_arrive i newTransactions block_timestamp s
      | _ => s
      end
  end.
Definition run_history (events : list history_event) : HistoryState := fold_left history_step events initial_state.

(** ** What holds of every run *)

(** The pages since the account was chosen, with their requests. *)
Definition next_pages (pages : list (HistoryRequest * HistoryPage)) (r : history_record) : list (HistoryRequest * HistoryPage) :=
  match r with PageOf rq page => (pages ++ [(rq, page)])%list | LatestOf _ _ => pages | Changed => [] end.
Definition pages_of (log : list history_record) : list (HistoryRequest * HistoryPage) := fold_left next_pages log [].

(** Every page was asked for with the cursor of the one before it. *)
Fixpoint chained (cursor : option HistoryCursor) (pages : list (HistoryRequest * HistoryPage)) : Prop :=
  match pages with
  | [] => True
  | (rq, page) :: pages => hr_cursor rq = cursor /\ chained (Some (hp_cursor page)) pages
  end.
Definition last_cursor (pages : list (HistoryRequest * HistoryPage)) : option HistoryCursor := (fun p => hp_cursor p.2) <$> last pages.

Definition shown (pages : list (HistoryRequest * HistoryPage)) : list TransactionDisplay :=
  flat_map (fun p => default [] (display_page (hr_account p.1) (hp_transactions p.2))) pages.
Definition untimed (transactions : list TransactionDisplay) : list TransactionDisplay := map (with_timestamp None) transactions.
(** The pages of [refreshLatest] since the account was chosen, with their requests. *)
Definition next_latests (pages : list (HistoryRequest * HistoryPage)) (r : history_record) : list (HistoryRequest * HistoryPage) :=
  match r with PageOf _ _ => pages | LatestOf rq page => (pages ++ [(rq, page)])%list | Changed => [] end.
Definition latests_of (log : list history_record) : list (HistoryRequest * HistoryPage) := fold_left next_latests log [].

(** The list that the recorded pages make: a page of [fetchMore] comes at the end, whole; of a page of [refreshLatest] what is not in the
    list comes in front; another account starts anew. *)
Definition displayed_of (rq : HistoryRequest) (page : HistoryPage) : list TransactionDisplay :=
  default [] (display_page (hr_account rq) (hp_transactions page)).
Definition replay_record (previous : list TransactionDisplay) (r : history_record) : list TransactionDisplay :=
  match r with
  | PageOf rq page => (previous ++ displayed_of rq page)%list
  | LatestOf rq page => (filter (fun tx => td_transactionHash tx ∉ map td_transactionHash previous) (displayed_of rq page) ++ previous)%list
  | Changed => []
  end.
Definition replay (log : list history_record) : list TransactionDisplay := fold_left replay_record log [].

Definition listed (s : HistoryState) (log : list history_record) : Prop := untimed (hs_transactions s) = replay log.

(** The request is one that [refreshLatest] makes for the account: one transaction, from no cursor, of the block that is not confirmed yet. *)
Definition asks_latest (account : option HistoryAccount) (rq : HistoryRequest) : Prop :=
  exists acc registry, account = Some acc /\ rq = latest_request acc registry.

(** The recorded page came with one of the events. *)
Definition recorded_from (events : list history_event) (r : history_record) : Prop :=
  match r with PageOf _ page | LatestOf _ page => exists i now, PageArrives i (Ok page) now ∈ events | Changed => True end.

(** At most one fetch is under way, and the flags tell. *)
Definition one_fetch (s : HistoryState) : Prop :=
  hs_loading s = hs_loadingRef s /\ (hs_tasks s = [] /\ hs_loadingRef s = false \/ exists t, hs_tasks s = [t] /\ hs_loadingRef s = true).

Definition task_ok (s : HistoryState) (log : list history_record) (t : task) : Prop :=
  match t with
  | AwaitPage rq => hs_account s = Some (hr_account rq) /\ hr_cursor rq = hs_cursorRef s /\ listed s log
  | AwaitLatest rq => asks_latest (hs_account s) rq /\ listed s log
  | AwaitStamps rq newTransactions => exists before page, log = (before ++ [PageOf rq page])%list /\
      display_page (hr_account rq) (hp_transactions page) = Some newTransactions /\ listed s before
  end.

Record history_ok (s : HistoryState) : Prop := {
  ok_one : one_fetch s;
  ok_chained : chained None (pages_of (hs_log s));
  ok_cursor : hs_cursorRef s = last_cursor (pages_of (hs_log s));
  ok_account : Forall (fun p => hs_account s = Some (hr_account p.1)) (pages_of (hs_log s));
  ok_latests : Forall (fun p => asks_latest (hs_account s) p.1) (latests_of (hs_log s));
  ok_listed : hs_tasks s = [] -> listed s (hs_log s);
  ok_tasks : Forall (task_ok s (hs_log s)) (hs_tasks s) }.

(** The account changes only between fetches, and no page is lost to a failing display or a failing block. *)
Definition calm_event (s : HistoryState) (ev : history_event) : Prop :=
  match ev with
  | ChangeAccount _ => hs_tasks s = []
  | PageArrives i (Ok page) _ => forall rq, hs_tasks s !! i = Some (AwaitPage rq) -> is_Some (display_page (hr_account rq) (hp_transactions page))
  | StampsArrive i block_timestamp => forall rq newTransactions, hs_tasks s !! i = Some (AwaitStamps rq newTransactions) ->
      exists stamped, resolveTimestamps block_timestamp newTransactions = Ok stamped
  | _ => True
  end.
Fixpoint calm_run (s : HistoryState) (events : list history_event) : Prop :=
  match events with [] => True | ev :: events => calm_event s ev /\ calm_run (history_step s ev) events end.

(** *** One fetch at a time *)

Lemma one_start acc t s : hs_tasks s = [] -> one_fetch (start acc t s).
Proof.
  intros Ht. unfold start. rewrite Ht. destruct (BigInt_of_string (ha_address acc)); split; cbn; try done; [right; by exists t|by left].
Qed.

Lemma one_fetchMore s : one_fetch s -> one_fetch (fetchMore s).
Proof.
  intros [Hl Ht]. unfold fetchMore. destruct (hs_account s) as [acc|]; [|done]. destruct Ht as [[Ht Hr]|(t & Ht & Hr)]; rewrite Hr; [|split; [done|right; by exists t]].
  destruct (hs_registry s); [by apply one_start|]. split; [done|by left].
Qed.

Lemma one_finish t s : hs_tasks s = [t] -> one_fetch (finish 0 s).
Proof. intros Ht. split; [done|left]. cbn. by rewrite Ht. Qed.

Lemma one_step s ev : one_fetch s -> one_fetch (history_step s ev).
Proof.
  intros [Hl Ht]. destruct ev as [acc|reg| | | |i answer now|i f]; cbn [history_step]; try (by split); [by apply one_fetchMore| | | |].
  - unfold refreshLatest. destruct (hs_account s) as [acc|]; [|done]. destruct Ht as [[Ht Hr]|(t & Ht & Hr)]; rewrite Hr; [|split; [done|right; by exists t]].
    destruct (hs_registry s); [by apply one_start|]. split; [done|by left].
  - unfold auto_fetch. destruct (hs_autoFetched s); [done|]. destruct (hs_registry s); [|done]. by apply one_fetchMore.
  - destruct Ht as [[Ht Hr]|(t & Ht & Hr)]; rewrite Ht; [split; [done|by left]|]. destruct i; [|split; [done|right; by exists t]].
    cbn [lookup list_lookup]. destruct t as [rq|rq l|rq]; [|split; [done|right; by exists (AwaitStamps rq l)]|].
    + unfold page_arrives. destruct answer as [page|e]; [|by apply (one_finish _ _ Ht)].
      destruct (display_page _ _) as [l|]; [|by apply (one_finish _ _ Ht)].
      destruct provider; (split; [done|]; cbn; rewrite Ht); [right; by exists (AwaitStamps rq l)|by left].
    + unfold latest_arrives. destruct answer as [page|e]; [|by apply (one_finish _ _ Ht)].
      destruct (hp_transactions page); [by apply (one_finish _ _ Ht)|].
      destruct (display_page _ _); by apply (one_finish _ _ Ht).
  - destruct Ht as [[Ht Hr]|(t & Ht & Hr)]; rewrite Ht; [split; [done|by left]|]. destruct i; [|split; [done|right; by exists t]].
    cbn [lookup list_lookup]. destruct t as [rq|rq l|rq]; [split; [done|right; by exists (AwaitPage rq)]| |split; [done|right; by exists (AwaitLatest rq)]].
    unfold stamps_arrive. destruct (resolveTimestamps f l); apply (one_finish _ _ Ht).
Qed.

(** *** The pages *)

Lemma pages_snoc log r : pages_of (log ++ [r])%list = next_pages (pages_of log) r.
Proof. unfold pages_of. by rewrite fold_left_app. Qed.

Lemma latests_snoc log r : latests_of (log ++ [r])%list = next_latests (latests_of log) r.
Proof. unfold latests_of. by rewrite fold_left_app. Qed.
Lemma replay_snoc log r : replay (log ++ [r])%list = replay_record (replay log) r.
Proof. unfold replay. by rewrite fold_left_app. Qed.

Lemma chained_snoc c pages rq page : chained c pages ->
  hr_cursor rq = match pages with [] => c | _ => last_cursor pages end -> chained c (pages ++ [(rq, page)])%list.
Proof.
  revert c. induction pages as [|[rq' page'] pages IH]; intros c Hc Hrq; cbn in *; [done|]. destruct Hc as [-> Hc]. split; [done|].
  apply IH; [done|]. rewrite Hrq. by destruct pages.
Qed.

Lemma last_cursor_snoc pages rq page : last_cursor (pages ++ [(rq, page)])%list = Some (hp_cursor page).
Proof. unfold last_cursor. by rewrite last_snoc. Qed.

Lemma shown_snoc pages rq page displayed : display_page (hr_account rq) (hp_transactions page) = Some displayed ->
  shown (pages ++ [(rq, page)])%list = (shown pages ++ displayed)%list.
Proof. intros Hd. unfold shown. rewrite flat_map_app. cbn. by rewrite Hd, app_nil_r. Qed.

Lemma untimed_displayed account transactions displayed : display_page account transactions = Some displayed -> untimed displayed = displayed.
Proof.
  unfold display_page. intros Hd. destruct (buildDisplayMaps _ _ _) as [maps|]; [|discriminate Hd]. destruct (BigInt_of_string _) as [viewer|]; [|discriminate Hd].
  cbn in Hd. destruct (match dc_paymasterForwarder config with Some _ => _ | None => _ end); [|discriminate Hd]. injection Hd as <-.
  unfold untimed, toDisplayTransactions. rewrite map_map. by apply map_ext.
Qed.

Lemma untimed_resolved block_timestamp transactions stamped :
  resolveTimestamps (E := E) block_timestamp transactions = Ok stamped -> untimed stamped = untimed transactions.
Proof.
  unfold resolveTimestamps. intros (entries & _ & Hs)%bind_ok. apply Ok_inj in Hs as <-. unfold untimed. rewrite map_map. by apply map_ext.
Qed.

Lemma listed_append s s' log rq page displayed stamped :
  hs_transactions s' = (hs_transactions s ++ stamped)%list -> untimed stamped = untimed displayed ->
  display_page (hr_account rq) (hp_transactions page) = Some displayed -> listed s log -> listed s' (log ++ [PageOf rq page])%list.
Proof.
  intros Ht Hs Hd Hl. unfold listed in *. rewrite Ht, replay_snoc. cbn [replay_record]. unfold displayed_of. rewrite Hd. cbn [default].
  by rewrite <- Hl, <- (untimed_displayed _ _ _ Hd), <- Hs; [apply map_app|..].
Qed.

Lemma prepend_fresh_eq fresh previous :
  prepend_fresh fresh previous = (filter (fun tx => td_transactionHash tx ∉ map td_transactionHash previous) fresh ++ previous)%list.
Proof. unfold prepend_fresh. by destruct (filter _ fresh). Qed.

Lemma prepend_untimed now displayed previous : untimed displayed = displayed ->
  untimed (prepend_fresh (map (with_timestamp now) displayed) previous) = prepend_fresh displayed (untimed previous).
Proof.
  intros Hd. unfold prepend_fresh.
  assert (Hh : map td_transactionHash (untimed previous) = map td_transactionHash previous) by (unfold untimed; rewrite map_map; by apply map_ext).
  rewrite Hh. set (known := map td_transactionHash previous).
  assert (Hf : untimed (filter (fun tx => td_transactionHash tx ∉ known) (map (with_timestamp now) displayed))
    = filter (fun tx => td_transactionHash tx ∉ known) displayed).
  { rewrite <- Hd at 2. unfold untimed. clear Hd Hh. induction displayed as [|tx l IH]; [done|]. cbn [map]. rewrite !filter_cons. cbn [td_transactionHash with_timestamp].
    case_decide; cbn [map]; by rewrite IH. }
  rewrite <- Hf. destruct (filter _ (map _ displayed)); [done|]. unfold untimed. by rewrite map_app.
Qed.

(** What [replay] makes is the pages in order behind transactions of the latest pages. *)
Lemma replay_shape log : exists fresh, replay log = (fresh ++ shown (pages_of log))%list /\
  Forall (fun tx => exists p, p ∈ latests_of log /\ tx ∈ displayed_of p.1 p.2) fresh.
Proof.
  induction log as [|r log IH] using rev_ind; [by exists []|]. destruct IH as (fresh & Hl & Hf).
  rewrite replay_snoc, pages_snoc, latests_snoc. destruct r as [rq page|rq page|]; cbn [replay_record next_pages next_latests]; [| |by exists []].
  - exists fresh. split; [|done]. rewrite Hl. unfold shown. rewrite flat_map_app. cbn. by rewrite app_nil_r, app_assoc.
  - set (newOnly := filter _ _). exists (newOnly ++ fresh)%list. split.
    + by rewrite Hl, <- app_assoc.
    + apply Forall_app. split.
      * apply list.Forall_forall. intros tx [_ Hin]%list_elem_of_filter. exists (rq, page). split; [|done]. apply elem_of_app. right. by left.
      * eapply Forall_impl; [exact Hf|]. intros tx (q & Hq & Hin). exists q. split; [|done]. apply elem_of_app. by left.
Qed.

(** *** Every step keeps it *)

Lemma ok_started acc t s : history_ok s -> hs_tasks s = [] -> (forall s', hs_account s' = hs_account s -> hs_cursorRef s' = hs_cursorRef s ->
  listed s' (hs_log s) -> task_ok s' (hs_log s) t) -> history_ok (start acc t s).
Proof.
  intros [H1 Hch Hcur Hacc Hla Hlist Htasks] Ht Hok. pose proof (one_start acc t s Ht) as Hone. unfold start in *. rewrite Ht in *. specialize (Hlist eq_refl).
  destruct (BigInt_of_string (ha_address acc)).
  - constructor; cbn in *; try done. apply Forall_singleton. by apply Hok.
  - by constructor.
Qed.

Lemma ok_fetchMore s : history_ok s -> history_ok (fetchMore s).
Proof.
  intros Hs. unfold fetchMore. destruct (hs_account s) as [acc|] eqn:Ha; [|done]. destruct (hs_loadingRef s) eqn:Hr; [done|].
  destruct (ok_one s Hs) as [Hl [[Ht _]|(t & _ & Hr')]]; [|congruence]. destruct (hs_registry s) as [reg|].
  - apply ok_started; [done|done|]. intros s' Hacc Hcur Hlist. cbn. rewrite Hacc, Ha, Hcur. done.
  - destruct Hs as [H1 Hch Hcur Hacc Hla Hlist Htasks]. by constructor.
Qed.

Lemma ok_refreshLatest s : history_ok s -> history_ok (refreshLatest s).
Proof.
  intros Hs. unfold refreshLatest. destruct (hs_account s) as [acc|] eqn:Ha; [|done]. destruct (hs_loadingRef s) eqn:Hr; [done|].
  destruct (ok_one s Hs) as [Hl [[Ht _]|(t & _ & Hr')]]; [|congruence]. destruct (hs_registry s) as [reg|]; [|done].
  apply ok_started; [done|done|]. intros s' Hacc Hcur Hlist. cbn. rewrite Hacc, Ha. split; [by exists acc, reg|done].
Qed.

(** A fetch ends: the list is that of the pages. *)
Lemma ok_finished s s' t : hs_tasks s = [t] -> hs_tasks s' = [t] -> hs_log s' = hs_log s -> hs_cursorRef s' = hs_cursorRef s -> hs_account s' = hs_account s ->
  history_ok s -> listed s' (hs_log s) -> history_ok (finish 0 s').
Proof.
  intros Ht Ht' Hlog Hcur Hacc Hs Hlist. pose proof (one_finish t s' Ht') as Hone. destruct Hs as [_ Hch Hcu Hac Hla _ _].
  constructor; cbn; rewrite ?Ht', ?Hlog, ?Hcur, ?Hacc; try done.
Qed.

Lemma ok_failed s e t : hs_tasks s = [t] -> history_ok s -> listed s (hs_log s) -> history_ok (fail 0 e s).
Proof. intros Ht Hs Hlist. by apply (ok_finished s _ t). Qed.

(** The refs after another page. *)
Lemma ok_with_page s rq page s' : history_ok s -> hs_account s = Some (hr_account rq) -> hr_cursor rq = hs_cursorRef s ->
  hs_log s' = hs_log (with_page rq page s) -> hs_cursorRef s' = Some (hp_cursor page) -> hs_account s' = hs_account s -> one_fetch s' ->
  let log := (hs_log s ++ [PageOf rq page])%list in
  (hs_tasks s' = [] -> listed s' log) -> Forall (task_ok s' log) (hs_tasks s') -> history_ok s'.
Proof.
  intros [_ Hch Hcu Hac Hla _ _] Hacc Hcur Hlog Hcur' Hacc' Hone log Hlist Htasks.
  change (hs_log s' = log) in Hlog. constructor; rewrite ?Hlog; try done; unfold log; rewrite ?pages_snoc, ?latests_snoc; cbn [next_pages next_latests].
  - apply chained_snoc; [done|]. rewrite Hcur, Hcu. by destruct (pages_of (hs_log s)).
  - rewrite Hcur'. symmetry. apply last_cursor_snoc.
  - apply Forall_app. rewrite Hacc'. split; [done|]. by apply Forall_singleton.
  - by rewrite Hacc'.
Qed.

(** A page of [refreshLatest] is recorded, and the fetch ends. *)
Lemma ok_with_latest s s' rq page t : hs_tasks s = [t] -> hs_tasks s' = [t] -> history_ok s -> asks_latest (hs_account s) rq ->
  hs_log s' = hs_log (record_latest rq page s) -> hs_cursorRef s' = hs_cursorRef s -> hs_account s' = hs_account s ->
  untimed (hs_transactions s') = prepend_fresh (displayed_of rq page) (replay (hs_log s)) -> history_ok (finish 0 s').
Proof.
  intros Ht Ht' [_ Hch Hcu Hac Hla _ _] Hask Hlog Hcur Hacc Hlist. pose proof (one_finish t s' Ht') as Hone.
  change (hs_log s' = (hs_log s ++ [LatestOf rq page])%list) in Hlog.
  assert (Hp : pages_of (hs_log (finish 0 s')) = pages_of (hs_log s)) by (change (hs_log (finish 0 s')) with (hs_log s'); by rewrite Hlog, pages_snoc).
  assert (Hl : latests_of (hs_log (finish 0 s')) = (latests_of (hs_log s) ++ [(rq, page)])%list)
    by (change (hs_log (finish 0 s')) with (hs_log s'); by rewrite Hlog, latests_snoc).
  assert (Ha : hs_account (finish 0 s') = hs_account s) by exact Hacc.
  constructor; rewrite ?Hp, ?Hl, ?Ha; try done.
  - by rewrite <- Hcu, <- Hcur.
  - apply Forall_app. split; [done|]. by apply Forall_singleton.
  - intros _. unfold listed. change (hs_log (finish 0 s')) with (hs_log s'). rewrite Hlog, replay_snoc. cbn [replay_record].
    rewrite <- prepend_fresh_eq. exact Hlist.
  - cbn. rewrite Ht'. constructor.
Qed.

Lemma ok_page s rq answer now : hs_tasks s = [AwaitPage rq] -> history_ok s -> calm_event s (PageArrives 0 answer now) ->
  history_ok (page_arrives 0 rq answer s).
Proof.
  intros Ht Hs Hcalm. pose proof (one_step s (PageArrives 0 answer now) (ok_one s Hs)) as Hone. cbn [history_step] in Hone. rewrite Ht in Hone. cbn in Hone.
  pose proof (ok_tasks s Hs) as Hok. rewrite Ht in Hok. apply Forall_singleton in Hok as (Hacc & Hcur & Hlist).
  unfold page_arrives in *. destruct answer as [page|e]; [|by eapply ok_failed].
  destruct (Hcalm rq) as [displayed Hd]; [by rewrite Ht|]. rewrite Hd in *. destruct provider.
  - apply (ok_with_page s rq page); try done; cbn; rewrite Ht; [done|]. apply Forall_singleton. cbn. by eexists _, page.
  - apply (ok_with_page s rq page); try done; cbn; rewrite Ht; [|constructor]. intros _. by apply (listed_append s _ _ rq page displayed displayed).
Qed.

Lemma ok_stamps s rq newTransactions block_timestamp : hs_tasks s = [AwaitStamps rq newTransactions] -> history_ok s ->
  calm_event s (StampsArrive 0 block_timestamp) -> history_ok (stamps_arrive 0 newTransactions block_timestamp s).
Proof.
  intros Ht Hs Hcalm. pose proof (ok_tasks s Hs) as Hok. rewrite Ht in Hok. apply Forall_singleton in Hok as (before & page & Hp & Hd & Hlist).
  destruct (Hcalm rq newTransactions) as [stamped Hst]; [by rewrite Ht|]. unfold stamps_arrive. rewrite Hst.
  apply (ok_finished s _ _ Ht); try done. rewrite Hp. apply (listed_append s _ _ rq page newTransactions stamped); try done. by apply untimed_resolved in Hst.
Qed.

Lemma ok_latest s rq answer now : hs_tasks s = [AwaitLatest rq] -> history_ok s -> history_ok (latest_arrives 0 rq answer now s).
Proof.
  intros Ht Hs. pose proof (ok_tasks s Hs) as Hok. rewrite Ht in Hok. apply Forall_singleton in Hok as (Hask & Hlist).
  unfold latest_arrives. destruct answer as [page|e]; [|by eapply ok_failed].
  destruct (display_page (hr_account rq) (hp_transactions page)) as [displayed|] eqn:Hd.
  - assert (Hshown : displayed_of rq page = displayed) by (unfold displayed_of; by rewrite Hd).
    destruct (hp_transactions page) as [|tx txs] eqn:Htx; apply (ok_with_latest s _ rq page _ Ht); try done; cbn; rewrite Hshown.
    + assert (displayed = []) as ->; [|by rewrite <- Hlist].
      unfold display_page in Hd. destruct (buildDisplayMaps _ _ _); [|discriminate Hd]. destruct (BigInt_of_string _); [|discriminate Hd].
      cbn in Hd. destruct (match dc_paymasterForwarder config with Some _ => _ | None => _ end); [|discriminate Hd]. by injection Hd as <-.
    + rewrite prepend_untimed by (by eapply untimed_displayed). by rewrite <- Hlist.
  - assert (Hshown : displayed_of rq page = []) by (unfold displayed_of; by rewrite Hd).
    destruct (hp_transactions page) as [|tx txs] eqn:Htx; apply (ok_with_latest s _ rq page _ Ht); try done; cbn; rewrite Hshown; by rewrite <- Hlist.
Qed.

Lemma history_step_ok s ev : history_ok s -> calm_event s ev -> history_ok (history_step s ev).
Proof.
  intros Hs Hcalm. destruct ev as [acc|reg| | | |i answer now|i f]; cbn [history_step].
  - assert (Hp : pages_of (hs_log (change_account acc s)) = []) by apply pages_snoc. destruct Hs as [[Hl Hone] _ _ _ _ _ _].
    assert (Hla : latests_of (hs_log (change_account acc s)) = []) by apply latests_snoc.
    constructor; rewrite ?Hp, ?Hla; try done; cbn.
    + intros _. unfold listed. by rewrite replay_snoc.
    + rewrite Hcalm. constructor.
  - by destruct Hs.
  - by apply ok_fetchMore.
  - by apply ok_refreshLatest.
  - unfold auto_fetch. destruct (hs_autoFetched s); [done|]. destruct (hs_registry s); [|done]. apply ok_fetchMore. by destruct Hs.
  - destruct (ok_one s Hs) as [_ [[Ht _]|(t & Ht & _)]]; [by rewrite Ht|]. destruct i; [|by rewrite Ht].
    rewrite Ht. cbn. destruct t as [rq|rq l|rq]; [by eapply ok_page|done|by apply ok_latest].
  - destruct (ok_one s Hs) as [_ [[Ht _]|(t & Ht & _)]]; [by rewrite Ht|]. destruct i; [|by rewrite Ht].
    rewrite Ht. cbn. destruct t as [rq|rq l|rq]; [done|by eapply ok_stamps|done].
Qed.

Lemma initial_ok : history_ok initial_state.
Proof. constructor; cbn; try done. by split; [|left]. Qed.

Lemma run_one events s : one_fetch s -> one_fetch (fold_left history_step events s).
Proof. revert s. induction events as [|ev events IH]; intros s Hs; [done|]. apply IH. by apply one_step. Qed.

Lemma hook_run_ok events s : history_ok s -> calm_run s events -> history_ok (fold_left history_step events s).
Proof. revert s. induction events as [|ev events IH]; intros s Hs Hcalm; [done|]. destruct Hcalm as [Hev Hcalm]. apply IH; [|done]. by apply history_step_ok. Qed.

(** *** Where the records come from *)

(** What a step adds to the log. *)
Definition step_records (s : HistoryState) (ev : history_event) (r : history_record) : Prop :=
  match r with PageOf _ page | LatestOf _ page => exists i now, ev = PageArrives i (Ok page) now | Changed => True end.

Lemma start_log acc t s : hs_log (start acc t s) = hs_log s.
Proof. unfold start. by destruct (BigInt_of_string _). Qed.

Lemma fetchMore_log s : hs_log (fetchMore s) = hs_log s.
Proof. unfold fetchMore. destruct (hs_account s); [|done]. destruct (hs_loadingRef s); [done|]. destruct (hs_registry s); [apply start_log|done]. Qed.

Lemma step_log s ev : exists new, hs_log (history_step s ev) = (hs_log s ++ new)%list /\ Forall (step_records s ev) new.
Proof.
  assert (Hnone : forall s', hs_log s' = hs_log s -> exists new, hs_log s' = (hs_log s ++ new)%list /\ Forall (step_records s ev) new).
  { intros s' Hs'. exists []. by rewrite app_nil_r. }
  destruct ev as [acc|reg| | | |i answer now|i f]; cbn [history_step].
  - exists [Changed]. split; [done|]. by apply Forall_singleton.
  - by apply Hnone.
  - apply Hnone, fetchMore_log.
  - apply Hnone. unfold refreshLatest. destruct (hs_account s); [|done]. destruct (hs_loadingRef s); [done|]. destruct (hs_registry s); [apply start_log|done].
  - apply Hnone. unfold auto_fetch. destruct (hs_autoFetched s); [done|]. destruct (hs_registry s); [|done]. by rewrite fetchMore_log.
  - destruct (hs_tasks s !! i) as [[rq|rq l|rq]|]; try by apply Hnone.
    + unfold page_arrives. destruct answer as [page|e]; [|by apply Hnone]. exists [PageOf rq page].
      split; [destruct (display_page _ _); [by destruct provider|done]|]. apply Forall_singleton. by exists i, now.
    + unfold latest_arrives. destruct answer as [page|e]; [|by apply Hnone]. exists [LatestOf rq page].
      split; [destruct (hp_transactions page); [done|]; by destruct (display_page _ _)|]. apply Forall_singleton. by exists i, now.
  - destruct (hs_tasks s !! i) as [[rq|rq l|rq]|]; try by apply Hnone. apply Hnone. unfold stamps_arrive. by destruct (resolveTimestamps f l).
Qed.

Lemma run_recorded events s seen : Forall (recorded_from seen) (hs_log s) ->
  Forall (recorded_from (seen ++ events)%list) (hs_log (fold_left history_step events s)).
Proof.
  revert s seen. induction events as [|ev events IH]; intros s seen Hs; [by rewrite app_nil_r|].
  replace (seen ++ ev :: events)%list with ((seen ++ [ev]) ++ events)%list by (by rewrite <- app_assoc). apply IH.
  destruct (step_log s ev) as (new & -> & Hnew). apply Forall_app. split.
  - eapply Forall_impl; [exact Hs|]. intros [rq page|rq page|]; cbn; try done; intros (i & now & Hin); exists i, now; apply elem_of_app; by left.
  - eapply Forall_impl; [exact Hnew|]. intros [rq page|rq page|]; cbn; try done; intros (i & now & ->); exists i, now; apply elem_of_app; right; by left.
Qed.

(** C37: in every run at most one fetch of the history is under way, and every recorded page arrived. In a run where the account changes
    only between fetches and no page is lost (none fails to be displayed and the times of its blocks can be read), every page of [fetchMore]
    was asked for with the cursor of the page before it and for the account that is shown, every page of [refreshLatest] was asked for as the
    latest transaction of that account, and between fetches the list, up to the times, is exactly what these pages make in the order in
    which they arrived: a page of [fetchMore] is put at the end, and of a page of [refreshLatest] what the list does not show yet in front.
    So it is the pages of [fetchMore], in order, behind transactions that were fetched as the latest. *)
Theorem history_shows_the_pages (events : list history_event) :
  let s := run_history events in
  let pages := pages_of (hs_log s) in
  let latests := latests_of (hs_log s) in
  ((length (hs_tasks s) <= 1)%nat /\ (hs_loadingRef s = true <-> hs_tasks s <> []) /\ hs_loading s = hs_loadingRef s) /\
  Forall (recorded_from events) (hs_log s) /\
  (calm_run initial_state events ->
     chained None pages /\ Forall (fun p => hs_account s = Some (hr_account p.1)) pages /\ hs_cursorRef s = last_cursor pages /\
     Forall (fun p => asks_latest (hs_account s) p.1) latests /\
     (hs_tasks s = [] -> untimed (hs_transactions s) = replay (hs_log s) /\
        exists fresh, untimed (hs_transactions s) = (fresh ++ shown pages)%list /\
          Forall (fun tx => exists p, p ∈ latests /\ tx ∈ displayed_of p.1 p.2) fresh)).
Proof.
  intros s pages latests. split; [|split].
  - destruct (run_one events initial_state (ok_one _ initial_ok)) as [Hl Ht]. fold (run_history events) in Hl, Ht. fold s in Hl, Ht.
    destruct Ht as [[Ht Hr]|(t & Ht & Hr)]; rewrite Ht, Hr; cbn; (split_and!; [lia| |congruence]); by split.
  - by apply (run_recorded events initial_state []).
  - intros Hcalm. destruct (hook_run_ok events _ initial_ok Hcalm) as [_ Hch Hcur Hacc Hla Hlist _]. split_and!; try done.
    intros Ht. specialize (Hlist Ht). split; [exact Hlist|]. destruct (replay_shape (hs_log s)) as (fresh & Hf & Hin).
    exists fresh. split; [|exact Hin]. etrans; [exact Hlist|exact Hf].
Qed.
End Hook.

(** The page of a fetch is not pinned to the block of the page before it: what the hook passes as [blockRef] reaches no request. *)
Lemma pages_are_not_pinned {R} contractAddress userAddress notesCursor channelCursor account (registry : R) cursor blockRef :
  hb_block_ref (history_body contractAddress userAddress notesCursor channelCursor (options_of (more_request account registry cursor blockRef))) = None.
Proof. reflexivity. Qed.

(** ** A run, and the runs the theorem leaves out *)

Definition sample_display_config : DisplayConfig :=
  {| dc_tokens := [("0x1", "STRK", 1%nat); ("0x2", "USDC", 1%nat)]; dc_ekuboExecutor := Some "0x28"; dc_vesuAnonymizer := None;
     dc_paymasterForwarder := Some "0x63" |}.
Definition sample_accounts : list (string * string) := [("0x7", "Alice"); ("0x8", "Bob")].
Definition alice : HistoryAccount := {| ha_address := "0x7"; ha_pool := "0x1" |}.
Definition bob : HistoryAccount := {| ha_address := "0x8"; ha_pool := "0x1" |}.
Definition sample_end : HistoryCursor := {| hc_subchannels := []; hc_beginBlockNumber := Some 5; hc_historyComplete := true |}.
Definition sample_page : HistoryPage := {| hp_blockRef := BN_number 9; hp_transactions := [sample_history]; hp_cursor := sample_end |}.
Definition at_noon (block : Z) : result unit Z := Ok 1200.

Abbreviation run_sample := (run_history (R := unit) (E := unit) sample_display_config sample_accounts true).

Definition sample_run : list (history_event (R := unit) (E := unit)) :=
  [ChangeAccount (Some alice); SetRegistry (Some tt); RunAutoFetch; PageArrives 0 (Ok sample_page) 0; StampsArrive 0 at_noon].

(** A page, and a later transaction of the same account that is fetched as the latest. *)
Definition newer_history : HistoryTransaction :=
  {| ht_blockNumber := 8; ht_transactionHash := 78; ht_notes := []; ht_deposits := [{| hd_fromAddress := 7; hd_token := 1; hd_amount := 3 |}];
     ht_withdrawals := []; ht_openNoteDeposits := []; ht_registeredPubkey := None |}.
Definition newer_page : HistoryPage := {| hp_blockRef := BN_number 9; hp_transactions := [newer_history]; hp_cursor := sample_end |}.
Definition sample_refresh : list (history_event (R := unit) (E := unit)) :=
  (sample_run ++ [CallRefreshLatest; PageArrives 0 (Ok newer_page) 1300; CallRefreshLatest; PageArrives 0 (Ok newer_page) 1400])%list.

Lemma history_shows_the_pages_witness :
  let s := run_sample sample_refresh in
  map td_fullTransactionHash (hs_transactions s) = ["0x4e"; "0x4d"] /\ map td_timestamp (hs_transactions s) = [Some 1300; Some 1200] /\
  untimed (hs_transactions s) = replay (R := unit) sample_display_config sample_accounts (hs_log s) /\
  length (pages_of (hs_log s)) = 1%nat /\ length (latests_of (hs_log s)) = 2%nat /\
  Forall (fun p => asks_latest (hs_account s) p.1) (latests_of (hs_log s)).
Proof.
  split; [vm_compute; reflexivity|]. split; [vm_compute; reflexivity|].
  assert (Hcalm : calm_run (R := unit) (E := unit) sample_display_config sample_accounts true initial_state sample_refresh).
  { unfold sample_refresh, sample_run. cbn [app]. repeat (split; [try exact I|]); try exact I; try reflexivity.
    - intros rq Hrq. vm_compute in Hrq. injection Hrq as <-. vm_compute. eexists. reflexivity.
    - intros rq txs Hrq. vm_compute in Hrq. injection Hrq as _ <-. vm_compute. eexists. reflexivity.
    - intros rq Hrq. discriminate Hrq.
    - intros rq Hrq. discriminate Hrq. }
  destruct (history_shows_the_pages sample_display_config sample_accounts true sample_refresh) as (_ & _ & Hs).
  destruct (Hs Hcalm) as (_ & _ & _ & Hla & Hlist). destruct (Hlist ltac:(vm_compute; reflexivity)) as [Hl _].
  split; [exact Hl|]. split; [vm_compute; reflexivity|]. split; [vm_compute; reflexivity|exact Hla].
Defined.

(** Another account is chosen while a page is under way: the page, and the cursor that follows it, land in the history of the new account,
    whose own first fetch is dropped. *)
Example page_of_another_account :
  let s := run_sample [ChangeAccount (Some alice); SetRegistry (Some tt); CallFetchMore; ChangeAccount (Some bob); RunAutoFetch;
                       PageArrives 0 (Ok sample_page) 0; StampsArrive 0 at_noon; RunAutoFetch] in
  hs_account s = Some bob /\ length (hs_transactions s) = 1%nat /\ hs_cursorRef s = Some sample_end /\ hs_tasks s = [].
Proof. vm_compute. split_and!; reflexivity. Qed.

(** The times of a page cannot be read: the cursor has moved past the page, which is not shown. *)
Example page_is_lost :
  let s := run_sample [ChangeAccount (Some alice); SetRegistry (Some tt); CallFetchMore; PageArrives 0 (Ok sample_page) 0;
                       StampsArrive 0 (fun _ => Err tt)] in
  hs_transactions s = [] /\ hs_cursorRef s = Some sample_end /\ hs_complete s = true.
Proof. vm_compute. split_and!; reflexivity. Qed.

(** The latest transaction is fetched before the first page: it is shown twice. *)
Example latest_is_shown_twice :
  let s := run_sample [ChangeAccount (Some alice); SetRegistry (Some tt); CallRefreshLatest; PageArrives 0 (Ok sample_page) 1300;
                       CallFetchMore; PageArrives 0 (Ok sample_page) 0; StampsArrive 0 at_noon] in
  map td_fullTransactionHash (hs_transactions s) = ["0x4d"; "0x4d"].
Proof. vm_compute. reflexivity. Qed.
