(* ===== verification/DemoState.v ===== *)
(** * The private state of the demo ([usePrivateState] in demo/src/hooks/usePrivateState.ts)

    What the demo shows of the notes and channels that the indexer reports: balances, notes, and cards by sender and by recipient; and
    the hook with the registry that [App] shares between all hooks, as a machine whose steps are calls, answers and changes of the account. *)
From Stdlib Require Import Ascii ZArith Lia.
From Stdlib Require Sorted.
From stdpp Require Import base tactics list strings.
From S2P Require Import Prelude JsMap Convert Interfaces Balancing DemoFormat DemoFlows DemoHistory.

Local Open Scope string_scope.
Local Open Scope Z_scope.

(** ** What is shown *)

Record NoteDisplay : Type := {
  nd_id : string;
  nd_rawId : Z;
  nd_amount : Z;
  nd_decimals : nat;
  nd_token : string;
  nd_tokenName : string;
  nd_sender : string;
  nd_senderName : option string;
  nd_channelKey : string;
  nd_rawChannelKey : string;
  nd_nonce : Z;
  nd_open : bool }.

Record TokenNoteGroup : Type := { tg_tokenAddress : string; tg_tokenName : string; tg_decimals : nat; tg_notes : list NoteDisplay }.

Record IncomingChannelCard : Type := {
  ic_cardKey : string;
  ic_sender : string;
  ic_senderName : option string;
  ic_channelKey : string;
  ic_rawChannelKey : string;
  ic_tokenGroups : list TokenNoteGroup }.

Record OutgoingToken : Type := { ot_tokenAddress : string; ot_tokenName : string; ot_noteNonce : Z }.
Record OutgoingChannelCard : Type := {
  oc_cardKey : string;
  oc_recipient : string;
  oc_recipientName : option string;
  oc_channelKey : string;
  oc_rawChannelKey : string;
  oc_tokens : list OutgoingToken }.

Record TokenBalance : Type := {
  tb_name : string;
  tb_address : string;
  tb_decimals : nat;
  tb_fee : bool;
  tb_transparent : Z;
  tb_private : Z;
  tb_noteCount : Z }.

Record PrivateState : Type := {
  ps_isRegistered : option bool;
  ps_tokenBalances : list TokenBalance;
  ps_notes : list NoteDisplay;
  ps_incomingCards : list IncomingChannelCard;
  ps_outgoingCards : list OutgoingChannelCard }.
Definition EMPTY_STATE : PrivateState :=
  {| ps_isRegistered := None; ps_tokenBalances := []; ps_notes := []; ps_incomingCards := []; ps_outgoingCards := [] |}.

(** ** Texts *)

(** The hook's own [truncateAddress]. *)
Definition shortAddress (address : Z) : string := truncate_at 8 (hex address).
Definition formatBigInt (value : Z) : string :=
  let h := hex value in
  if (String.length h <=? 12)%nat then "0x" +:+ h else "0x" +:+ slice_to 6 h +:+ "..." +:+ slice_last 4 h.

(** ** Grouping *)

(** [m.get(key)?.push(x) ?? m.set(key, [x])]. *)
Definition push_to {A} (key : string) (x : A) (m : jsmap string (list A)) : jsmap string (list A) :=
  map_set key (default [] (map_get key m) ++ [x])%list m.
Definition group_by {A} (key : A -> string) (l : list A) : jsmap string (list A) := fold_left (fun m x => push_to (key x) x m) l [].

(** ** The display *)

Record DisplayAccount : Type := { da_address : string; da_name : string }.

(** [nameByAddress]: the own account is called Self. *)
Definition name_account (self : Z) (acc : DisplayAccount) (names : jsmap Z string) : option (jsmap Z string) :=
  accAddress ← BigInt_of_string (da_address acc);
  Some (map_set accAddress (if accAddress =? self then "Self" else da_name acc) names).
Fixpoint name_accounts (self : Z) (accounts : list DisplayAccount) (names : jsmap Z string) : option (jsmap Z string) :=
  match accounts with
  | [] => Some names
  | acc :: accounts => names ← name_account self acc names; name_accounts self accounts names
  end.

(** [notes.get(BigInt(token.address)) ?? []]; a map with defaults keeps the list it makes. *)
Definition token_notes (token : TokenConfig) (m : AddressMap (list Note)) : option (list Note * AddressMap (list Note)) :=
  address ← BigInt_of_string (tk_address token);
  let '(found, m) := am_get address None m in
  Some (default [] found, m).

(** A loop over the tokens that reads their notes. *)
Fixpoint each_token {A B} (token : A -> TokenConfig) (body : A -> list Note -> option B) (l : list A) (m : AddressMap (list Note))
  : option (list B * AddressMap (list Note)) :=
  match l with
  | [] => Some ([], m)
  | x :: l => '(tokenNotes, m) ← token_notes (token x) m; y ← body x tokenNotes; '(ys, m) ← each_token token body l m; Some (y :: ys, m)
  end.

Definition token_balance (x : TokenConfig * Z) (tokenNotes : list Note) : option TokenBalance :=
  Some {| tb_name := tk_name x.1; tb_address := tk_address x.1; tb_decimals := tk_decimals x.1; tb_fee := default false (tk_fee x.1);
          tb_transparent := x.2; tb_private := sumZ note_amount tokenNotes; tb_noteCount := Z.of_nat (length tokenNotes) |}.

Definition display_note (names : jsmap Z string) (token : TokenConfig) (note : Note) : option NoteDisplay :=
  noteId ← toBigInt (note_id note);
  address ← BigInt_of_string (tk_address token);
  let witness := note_witness note in
  Some {| nd_id := formatBigInt noteId; nd_rawId := noteId; nd_amount := note_amount note; nd_decimals := tk_decimals token;
          nd_token := shortAddress address; nd_tokenName := tk_name token; nd_sender := shortAddress (note_sender note);
          nd_senderName := map_get (note_sender note) names; nd_channelKey := formatBigInt (w_channelKey witness);
          nd_rawChannelKey := "0x" +:+ hex (w_channelKey witness); nd_nonce := w_nonce witness; nd_open := default false (note_open note) |}.
Definition display_notes (names : jsmap Z string) (token : TokenConfig) (tokenNotes : list Note) : option (list NoteDisplay) :=
  mapM (display_note names token) tokenNotes.

Section Cards.
Context (localeCompare : string -> string -> Z).

(** Self first, then by name or address. *)
Definition card_order {A} (name : A -> option string) (address : A -> string) (a b : A) : Z :=
  if decide (name a = Some "Self") then -1
  else if decide (name b = Some "Self") then 1
  else localeCompare (default (address a) (name a)) (default (address b) (name b)).

Definition newest_first (a b : NoteDisplay) : Z := nd_nonce b - nd_nonce a.

Definition token_group (e : string * list NoteDisplay) : list TokenNoteGroup :=
  match e.2 with
  | [] => []
  | first :: _ => [{| tg_tokenAddress := e.1; tg_tokenName := nd_tokenName first; tg_decimals := nd_decimals first; tg_notes := e.2 |}]
  end.

Definition incoming_card (e : string * list NoteDisplay) : list IncomingChannelCard :=
  let senderNotes := sort_with newest_first e.2 in
  match senderNotes with
  | [] => []
  | firstNote :: _ =>
      [{| ic_cardKey := e.1; ic_sender := e.1; ic_senderName := nd_senderName firstNote; ic_channelKey := nd_channelKey firstNote;
          ic_rawChannelKey := nd_rawChannelKey firstNote; ic_tokenGroups := flat_map token_group (group_by nd_token senderNotes) |}]
  end.
Definition incomingCards (notes : list NoteDisplay) : list IncomingChannelCard :=
  sort_with (card_order ic_senderName ic_sender) (flat_map incoming_card (group_by nd_sender notes)).

(** [new Map(config.tokens.map(...))]. *)
Fixpoint name_tokens (tokens : list TokenConfig) (names : jsmap Z string) : option (jsmap Z string) :=
  match tokens with
  | [] => Some names
  | t :: tokens => address ← BigInt_of_string (tk_address t); name_tokens tokens (map_set address (tk_name t) names)
  end.

Definition outgoing_token (tokenNames : jsmap Z string) (e : Z * TokenChannel) : OutgoingToken :=
  {| ot_tokenAddress := shortAddress e.1; ot_tokenName := default (shortAddress e.1) (map_get e.1 tokenNames); ot_noteNonce := noteNonce e.2 |}.
Definition outgoing_card (names tokenNames : jsmap Z string) (e : Z * Channel) : OutgoingChannelCard :=
  let key := match ch_key e.2 with Some k => if k =? 0 then None else Some k | None => None end in
  {| oc_cardKey := hex e.1; oc_recipient := shortAddress e.1; oc_recipientName := map_get e.1 names;
     oc_channelKey := match key with Some k => formatBigInt k | None => "N/A" end;
     oc_rawChannelKey := match key with Some k => "0x" +:+ hex k | None => "" end;
     oc_tokens := map (outgoing_token tokenNames) (am_entries (ch_tokens e.2)) |}.
Definition outgoingCards (names tokenNames : jsmap Z string) (channels : list (Z * Channel)) : list OutgoingChannelCard :=
  sort_with (card_order oc_recipientName oc_recipient) (map (outgoing_card names tokenNames) channels).

(** What the queries of [refresh] return. *)
Record RefreshAnswers : Type := {
  ra_notes : AddressMap (list Note);
  ra_cursor : NotesCursor;
  ra_channels : option (AddressMap Channel);
  ra_requirement : SetupRequirement;
  ra_balances : list Z }.

(** The state made of the answers, and the notes map as the reads leave it; [None] where [BigInt] throws or there are no channels to iterate over. *)
Definition display_state (tokens : list TokenConfig) (account : DisplayAccount) (allAccounts : list DisplayAccount) (answers : RefreshAnswers)
  : option (PrivateState * AddressMap (list Note)) :=
  '(tokenBalances, m) ← each_token fst token_balance (zip tokens (ra_balances answers)) (ra_notes answers);
  self ← BigInt_of_string (da_address account);
  names ← name_accounts self allAccounts [];
  '(notes, m) ← each_token id (display_notes names) tokens m;
  tokenNames ← name_tokens tokens [];
  channels ← ra_channels answers;
  Some ({| ps_isRegistered := Some (match ra_requirement answers with Register => false | _ => true end);
           ps_tokenBalances := tokenBalances;
           ps_notes := concat notes;
           ps_incomingCards := incomingCards (concat notes);
           ps_outgoingCards := outgoingCards names tokenNames (am_entries channels) |}, m).
End Cards.

(** ** The hook *)

Section Hook.
Context (localeCompare : string -> string -> Z) (provider : bool) (tokens : list TokenConfig) (allAccounts : list DisplayAccount).

(** The active account, with its viewing key if there is one. *)
Record Viewer : Type := { vw_account : DisplayAccount; vw_viewingKey : option string }.

(** The arguments of the queries of a refresh. *)
Record RefreshRequest : Type := {
  rr_viewer : Viewer;
  rr_viewingKey : Z;
  rr_cursor : option NotesCursor;
  rr_channels : AddressMap Channel }.

Inductive refresh_task : Type :=
| Querying (rq : RefreshRequest)
| ReadingBalances (viewer : Viewer).

(** The state of the hook, the registry of [App], and what is awaited. *)
Record StateHook : Type := {
  sh_viewer : option Viewer;
  sh_state : PrivateState;
  sh_loading : bool;
  sh_error : bool;
  sh_registry : PrivateRegistry;
  sh_tasks : list refresh_task }.
Definition initial_hook : StateHook :=
  {| sh_viewer := None; sh_state := EMPTY_STATE; sh_loading := false; sh_error := false; sh_registry := createEmptyRegistry; sh_tasks := [] |}.

Definition set_private (st : PrivateState) (s : StateHook) : StateHook :=
  {| sh_viewer := sh_viewer s; sh_state := st; sh_loading := sh_loading s; sh_error := sh_error s; sh_registry := sh_registry s; sh_tasks := sh_tasks s |}.
Definition set_flags (loading error : bool) (s : StateHook) : StateHook :=
  {| sh_viewer := sh_viewer s; sh_state := sh_state s; sh_loading := loading; sh_error := error; sh_registry := sh_registry s; sh_tasks := sh_tasks s |}.
Definition set_hook_registry (r : PrivateRegistry) (s : StateHook) : StateHook :=
  {| sh_viewer := sh_viewer s; sh_state := sh_state s; sh_loading := sh_loading s; sh_error := sh_error s; sh_registry := r; sh_tasks := sh_tasks s |}.
Definition set_tasks (tasks : list refresh_task) (s : StateHook) : StateHook :=
  {| sh_viewer := sh_viewer s; sh_state := sh_state s; sh_loading := sh_loading s; sh_error := sh_error s; sh_registry := sh_registry s; sh_tasks := tasks |}.

(** The resets in [App] forget the cursor as well. *)
Definition clear_registry (s : StateHook) : StateHook := set_hook_registry createEmptyRegistry s.
(** [Object.assign(registry, createEmptyRegistry())]: the empty registry has no field [cursor] to assign. *)
Definition assign_empty (r : PrivateRegistry) : PrivateRegistry :=
  {| reg_channels := reg_channels createEmptyRegistry; reg_notes := reg_notes createEmptyRegistry; reg_cursor := reg_cursor r |}.
(** [catch], then [finally]. *)
Definition refresh_fails (s : StateHook) : StateHook := set_flags false true (set_hook_registry (assign_empty (sh_registry s)) s).

(** The arguments of the queries can be computed. *)
Definition request_ok (viewer : Viewer) : bool :=
  match mapM (fun t => BigInt_of_string (tk_address t)) tokens, BigInt_of_string (da_address (vw_account viewer)), tokens with
  | Some _, Some _, _ :: _ => true
  | _, _, _ => false
  end.

Definition refresh (s : StateHook) : StateHook :=
  match provider, sh_viewer s with
  | true, Some viewer =>
      match given (vw_viewingKey viewer) with
      | None => s
      | Some key =>
          match BigInt_of_string key with
          | None => s
          | Some viewingKey =>
              let s := set_flags true false s in
              if request_ok viewer then
                set_tasks (sh_tasks s ++ [Querying {| rr_viewer := viewer; rr_viewingKey := viewingKey; rr_cursor := reg_cursor (sh_registry s);
                                                      rr_channels := reg_channels (sh_registry s) |}])%list s
              else refresh_fails s
          end
      end
  | _, _ => s
  end.

Definition store_answers (answers : RefreshAnswers) (r : PrivateRegistry) : PrivateRegistry :=
  {| reg_channels := default (reg_channels r) (ra_channels answers); reg_notes := ra_notes answers; reg_cursor := Some (ra_cursor answers) |}.

Definition answers_arrive (rq : RefreshRequest) (answer : result unit RefreshAnswers) (s : StateHook) : StateHook :=
  match answer with
  | Err _ => refresh_fails s
  | Ok answers =>
      let s := set_hook_registry (store_answers answers (sh_registry s)) s in
      match display_state localeCompare tokens (vw_account (rr_viewer rq)) allAccounts answers with
      | None => refresh_fails s
      | Some (st, m) =>
          let r := sh_registry s in
          set_flags false (sh_error s)
            (set_private st (set_hook_registry {| reg_channels := reg_channels r; reg_notes := m; reg_cursor := reg_cursor r |} s))
      end
  end.

Definition refreshBalances (s : StateHook) : StateHook :=
  match provider, sh_viewer s with
  | true, Some viewer => set_tasks (sh_tasks s ++ [ReadingBalances viewer])%list s
  | _, _ => s
  end.

(** The updater of [refreshBalances]. *)
Definition with_transparent (t : Z) (tb : TokenBalance) : TokenBalance :=
  {| tb_name := tb_name tb; tb_address := tb_address tb; tb_decimals := tb_decimals tb; tb_fee := tb_fee tb; tb_transparent := t;
     tb_private := tb_private tb; tb_noteCount := tb_noteCount tb |}.
Definition empty_balance (x : TokenConfig * Z) : TokenBalance :=
  {| tb_name := tk_name x.1; tb_address := tk_address x.1; tb_decimals := tk_decimals x.1; tb_fee := default false (tk_fee x.1);
     tb_transparent := x.2; tb_private := 0; tb_noteCount := 0 |}.
Definition update_balances (balances : list Z) (previous : list TokenBalance) : list TokenBalance :=
  let balanceByAddress := map_of_entries (map (fun x => (tk_address x.1, x.2)) (zip tokens balances)) in
  match previous with
  | [] => map empty_balance (zip tokens balances)
  | _ => map (fun tb => with_transparent (default (tb_transparent tb) (map_get (tb_address tb) balanceByAddress)) tb) previous
  end.
Definition with_balances (balances : list TokenBalance) (st : PrivateState) : PrivateState :=
  {| ps_isRegistered := ps_isRegistered st; ps_tokenBalances := balances; ps_notes := ps_notes st; ps_incomingCards := ps_incomingCards st;
     ps_outgoingCards := ps_outgoingCards st |}.

Inductive hook_event : Type :=
| SelectAccount (viewer : option Viewer)
| CallRefreshAll
| CallRefreshBalances
| AnswersArrive (i : nat) (answer : result unit RefreshAnswers)
| BalancesArrive (i : nat) (answer : result unit (list Z)).

Definition hook_step (s : StateHook) (ev : hook_event) : StateHook :=
  match ev with
  | SelectAccount viewer =>
      refresh (clear_registry (set_private EMPTY_STATE
        {| sh_viewer := viewer; sh_state := sh_state s; sh_loading := sh_loading s; sh_error := sh_error s; sh_registry := createEmptyRegistry;
           sh_tasks := sh_tasks s |}))
  | CallRefreshAll => refresh (clear_registry s)
  | CallRefreshBalances => refreshBalances s
  | AnswersArrive i answer =>
      match sh_tasks s !! i with
      | Some (Querying rq) => answers_arrive rq answer (set_tasks (delete i (sh_tasks s)) s)
      | _ => s
      end
  | BalancesArrive i answer =>
      match sh_tasks s !! i with
      | Some (ReadingBalances _) =>
          let s := set_tasks (delete i (sh_tasks s)) s in
          match answer with
          | Ok balances => set_private (with_balances (update_balances balances (ps_tokenBalances (sh_state s))) (sh_state s)) s
          | Err _ => s
          end
      | _ => s
      end
  end.
Definition run_hook (events : list hook_event) : StateHook := fold_left hook_step events initial_hook.
End Hook.

(** ** Lemmas on grouping and sorting *)

Lemma push_concat {A} k (x : A) m : concat (map_values (push_to k x m)) ≡ₚ (concat (map_values m) ++ [x])%list.
Proof.
  unfold push_to, map_values. induction m as [|[k' v] m IH]; cbn; [done|]. destruct (decide (k = k')) as [<-|Hne]; cbn.
  - rewrite <- !app_assoc. apply Permutation_app_head, Permutation_app_comm.
  - by rewrite IH, app_assoc.
Qed.

(** The entry of a group: all that have its key, in order. *)
Definition group_ok {A} (key : A -> string) (l : list A) (e : string * list A) : Prop := e.2 <> [] /\ e.2 = filter (fun x => key x = e.1) l.

Lemma group_by_lookup {A} (key : A -> string) l k : default [] (map_get k (group_by key l)) = filter (fun x => key x = k) l.
Proof.
  unfold group_by. induction l as [|x l IH] using rev_ind; [done|]. rewrite fold_left_app, filter_app. cbn [fold_left]. unfold push_to at 1.
  rewrite map_get_set. case_decide as Hk; cbn [default].
  - subst. rewrite IH. by rewrite filter_cons_True.
  - rewrite IH, filter_cons_False by congruence. by rewrite filter_nil, app_nil_r.
Qed.

Lemma group_by_spec {A} (key : A -> string) l :
  map_wf (group_by key l) /\ concat (map_values (group_by key l)) ≡ₚ l /\ Forall (group_ok key l) (group_by key l).
Proof.
  assert (Hw : map_wf (group_by key l) /\ concat (map_values (group_by key l)) ≡ₚ l /\ Forall (fun e => e.2 <> []) (group_by key l)).
  { unfold group_by. induction l as [|x l (Hw & Hc & Hn)] using rev_ind; [split_and!; [apply NoDup_nil_2|done|constructor]|].
    rewrite fold_left_app. cbn [fold_left]. split_and!.
    - by apply map_set_wf.
    - by rewrite push_concat, Hc.
    - apply map_set_Forall; [done|]. cbn. intros Heq. by apply app_eq_nil in Heq as [_ ?]. }
  destruct Hw as (Hw & Hc & Hn). split_and!; [done|done|]. rewrite Forall_forall in *. intros [k v] He. split; [by apply (Hn (k, v))|]. cbn.
  by rewrite <- group_by_lookup, (map_in_get k v).
Qed.

Lemma insert_with_ext {A} (cmp cmp' : A -> A -> Z) x l : (forall a b, cmp a b = cmp' a b) -> insert_with cmp x l = insert_with cmp' x l.
Proof. intros He. induction l as [|y l IH]; cbn; [done|]. by rewrite He, IH. Qed.
Lemma sort_with_ext {A} (cmp cmp' : A -> A -> Z) l : (forall a b, cmp a b = cmp' a b) -> sort_with cmp l = sort_with cmp' l.
Proof.
  intros He. unfold sort_with. generalize (@nil A). induction l as [|x l IH]; intros acc; cbn; [done|].
  by rewrite (insert_with_ext cmp cmp'), IH.
Qed.

Lemma sorted_filter {A} (R : A -> A -> Prop) (P : A -> Prop) `{!forall x, Decision (P x)} l :
  Sorted.StronglySorted R l -> Sorted.StronglySorted R (filter P l).
Proof.
  induction 1 as [|x l Hl IH Hx]; [constructor|]. rewrite filter_cons. case_decide; [|done]. constructor; [done|].
  rewrite Forall_forall in *. intros y [_ Hy]%list_elem_of_filter. by apply Hx.
Qed.

Lemma newest_first_sorted l : Sorted.StronglySorted (fun a b => nd_nonce b <= nd_nonce a) (sort_with newest_first l).
Proof.
  rewrite (sort_with_ext newest_first (fun a b => - nd_nonce a - - nd_nonce b)) by (intros; unfold newest_first; lia).
  induction (sort_with_sorted (fun a => - nd_nonce a) l) as [|a l' _ IH Ha]; [constructor|].
  constructor; [done|]. eapply list.Forall_impl; [exact Ha|]. cbn. lia.
Qed.

(** ** The cards *)

Definition card_notes (c : IncomingChannelCard) : list NoteDisplay := flat_map tg_notes (ic_tokenGroups c).

(** A card holds notes of one sender, each group notes of one token, the newest first. *)
Record card_ok (c : IncomingChannelCard) : Prop := {
  co_sender : Forall (fun n => nd_sender n = ic_sender c) (card_notes c);
  co_groups : Forall (fun g => tg_notes g <> [] /\ Forall (fun n => nd_token n = tg_tokenAddress g) (tg_notes g) /\
                               Sorted.StronglySorted (fun a b => nd_nonce b <= nd_nonce a) (tg_notes g)) (ic_tokenGroups c);
  co_tokens : NoDup (map tg_tokenAddress (ic_tokenGroups c)) }.

Lemma token_groups_spec (m : jsmap string (list NoteDisplay)) : Forall (fun e => e.2 <> []) m ->
  map tg_tokenAddress (flat_map token_group m) = map_keys m /\ flat_map tg_notes (flat_map token_group m) = concat (map_values m) /\
  Forall (fun g => (tg_tokenAddress g, tg_notes g) ∈ m) (flat_map token_group m).
Proof.
  induction 1 as [|[k v] m Hv Hm (IH1 & IH2 & IH3)]; [split_and!; constructor|]. cbn in Hv. destruct v as [|n v]; [done|]. cbn in *.
  rewrite IH1, IH2. split_and!; [done|done|]. constructor; [apply elem_of_cons; by left|]. eapply list.Forall_impl; [exact IH3|]. intros g Hg. by apply elem_of_cons; right.
Qed.

Lemma incoming_card_spec (e : string * list NoteDisplay) l : group_ok nd_sender l e ->
  exists c, incoming_card e = [c] /\ ic_sender c = e.1 /\ card_notes c ≡ₚ e.2 /\ card_ok c.
Proof.
  intros [Hn He]. pose proof (sort_with_perm newest_first e.2) as Hp. pose proof (newest_first_sorted e.2) as Hs. unfold incoming_card.
  destruct (sort_with newest_first e.2) as [|n ns] eqn:Hsort; [by apply Permutation_nil_l in Hp|]. eexists. split; [reflexivity|]. rewrite <- Hsort in *.
  set (sorted := sort_with newest_first e.2) in *. destruct (group_by_spec nd_token sorted) as (Hw & Hc & Hg).
  destruct (token_groups_spec (group_by nd_token sorted)) as (G1 & G2 & G3); [eapply list.Forall_impl; [exact Hg|]; by intros ? []|].
  assert (Hcard : flat_map tg_notes (flat_map token_group (group_by nd_token sorted)) ≡ₚ e.2) by (by rewrite G2, Hc).
  split; [done|]. split; [exact Hcard|]. split; cbn.
  - unfold card_notes. cbn. rewrite Hcard, He, Forall_forall. intros x Hx. by apply list_elem_of_filter in Hx as [? _].
  - apply list.Forall_forall. intros g Hgi. rewrite list.Forall_forall in G3. rewrite list.Forall_forall in Hg. destruct (Hg _ (G3 g Hgi)) as [Hne Heq]. cbn in Hne, Heq. split_and!; [done| |].
    + rewrite Heq, Forall_forall. intros x Hx. by apply list_elem_of_filter in Hx as [? _].
    + rewrite Heq. by apply sorted_filter.
  - by rewrite G1.
Qed.

Lemma cards_show_every_note localeCompare notes :
  flat_map card_notes (incomingCards localeCompare notes) ≡ₚ notes /\ NoDup (map ic_sender (incomingCards localeCompare notes)) /\
  Forall card_ok (incomingCards localeCompare notes).
Proof.
  destruct (group_by_spec nd_sender notes) as (Hw & Hc & Hg). unfold incomingCards.
  assert (Hcards : flat_map card_notes (flat_map incoming_card (group_by nd_sender notes)) ≡ₚ concat (map_values (group_by nd_sender notes)) /\
    map ic_sender (flat_map incoming_card (group_by nd_sender notes)) = map_keys (group_by nd_sender notes) /\
    Forall card_ok (flat_map incoming_card (group_by nd_sender notes))).
  { clear Hw Hc. induction Hg as [|e m He _ (IH1 & IH2 & IH3)]; [done|]. destruct (incoming_card_spec e notes He) as (c & Hcard & Hs & Hn & Hok).
    cbn [flat_map]. rewrite Hcard. cbn. rewrite IH1, IH2, Hn, Hs. split_and!; [done|done|by constructor]. }
  destruct Hcards as (H1 & H2 & H3).
  assert (Hperm : forall l l' : list IncomingChannelCard, l ≡ₚ l' -> flat_map card_notes l ≡ₚ flat_map card_notes l').
  { intros l l'. apply Permutation_flat_map. }
  split_and!.
  - rewrite (Hperm _ _ (sort_with_perm _ _)). by rewrite H1.
  - rewrite (Permutation_map ic_sender (sort_with_perm _ _)). by rewrite H2.
  - by rewrite sort_with_perm.
Qed.

(** ** Reading the notes *)

(** The map of the notes: what its reads create are empty lists. *)
Definition notes_wf (m : AddressMap (list Note)) : Prop :=
  keyConverter m = (fun k => k) /\ (defaultFactory m = None \/ defaultFactory m = Some (fun _ => [])).
Definition listed_notes (m : AddressMap (list Note)) (address : Z) : list Note := default [] (map_get address (am_map m)).
Definition same_listing (m m' : AddressMap (list Note)) : Prop := notes_wf m' /\ forall address, listed_notes m' address = listed_notes m address.

Lemma token_notes_spec token m l m' : notes_wf m -> token_notes token m = Some (l, m') ->
  exists address, BigInt_of_string (tk_address token) = Some address /\ l = listed_notes m address /\ same_listing m m'.
Proof.
  intros [Hc Hf]. unfold token_notes. destruct (BigInt_of_string _) as [address|]; [|done]. cbn. unfold am_get. rewrite Hc. unfold same_listing, notes_wf, listed_notes.
  destruct (map_has address (am_map m)) eqn:Hh; [intros [= <- <-]; by exists address|].
  assert (Hn : map_get address (am_map m) = None) by by apply map_has_false.
  destruct Hf as [Hf|Hf]; rewrite Hf; intros [= <- <-]; exists address; rewrite ?Hn; (split; [done|]).
  - split_and!; try done. by left.
  - split; [by cbn; rewrite map_get_set_eq|]. split; [by split; [|right]|]. intros a. cbn. rewrite map_get_set. by case_decide; [subst; rewrite Hn|].
Qed.

Lemma each_token_spec {A B} (token : A -> TokenConfig) (body : A -> list Note -> option B) l m ys m' : notes_wf m ->
  each_token token body l m = Some (ys, m') ->
  Forall2 (fun x y => exists address, BigInt_of_string (tk_address (token x)) = Some address /\ body x (listed_notes m address) = Some y) l ys /\
  same_listing m m'.
Proof.
  revert m ys. induction l as [|x l IH]; intros m ys Hm; cbn [each_token]; [intros [= <- <-]; split; [constructor|by split]|].
  destruct (token_notes (token x) m) as [[tokenNotes m1]|] eqn:Hn; [|done]. destruct (token_notes_spec _ _ _ _ Hm Hn) as (address & Ha & -> & Hm1 & Hl1).
  cbn. destruct (body x _) as [y|] eqn:Hy; [|done]. cbn. destruct (each_token token body l m1) as [[ys1 m2]|] eqn:He; [|done].
  intros [= <- <-]. destruct (IH _ _ Hm1 He) as (Hall & Hm2 & Hl2). split; [|split; [done|intros a; by rewrite Hl2, Hl1]].
  constructor; [by exists address|]. eapply Forall2_impl; [exact Hall|]. intros x' y' (a & Ha' & Hb). exists a. by rewrite <- Hl1.
Qed.

Lemma display_note_amount names token n d : display_note names token n = Some d -> nd_amount d = note_amount n /\ toBigInt (note_id n) = Some (nd_rawId d).
Proof.
  unfold display_note. destruct (toBigInt _) as [noteId|]; [|done]. cbn. destruct (BigInt_of_string _); [|done]. cbn. by intros [= <-].
Qed.
Lemma display_notes_amount names token l ds : display_notes names token l = Some ds -> sumZ nd_amount ds = sumZ note_amount l.
Proof.
  unfold display_notes. intros Hm%mapM_Some. induction Hm as [|n d l ds Hd Hm IH]; [done|]. cbn. apply display_note_amount in Hd as [-> _]. by rewrite IH.
Qed.

Section Shown.
Context (localeCompare : string -> string -> Z) (tokens : list TokenConfig) (allAccounts : list DisplayAccount).

(** The row of a token: what the answers say of its address. *)
Definition row_ok (answers : RefreshAnswers) (x : TokenConfig * Z) (row : TokenBalance) : Prop :=
  tb_name row = tk_name x.1 /\ tb_address row = tk_address x.1 /\ tb_transparent row = x.2 /\
  exists address, BigInt_of_string (tk_address x.1) = Some address /\ tb_private row = sumZ note_amount (listed_notes (ra_notes answers) address) /\
    tb_noteCount row = Z.of_nat (length (listed_notes (ra_notes answers) address)).

(** What the demo shows of a refresh. Every token has a row with the balance of the account and the sum and number of the notes reported for
    it; the private balances add up to the notes that are shown; every note is on exactly one card, with notes of its sender, in a group of its
    token, the newest first; no two cards have the same sender; every channel has an outgoing card; and reading the notes changes none of them. *)
Theorem state_shows_the_notes account answers st m :
  notes_wf (ra_notes answers) -> length (ra_balances answers) = length tokens ->
  display_state localeCompare tokens account allAccounts answers = Some (st, m) ->
  Forall2 (row_ok answers) (zip tokens (ra_balances answers)) (ps_tokenBalances st) /\
  sumZ tb_private (ps_tokenBalances st) = sumZ nd_amount (ps_notes st) /\
  (flat_map card_notes (ps_incomingCards st) ≡ₚ ps_notes st /\ NoDup (map ic_sender (ps_incomingCards st)) /\ Forall card_ok (ps_incomingCards st)) /\
  (exists channels, ra_channels answers = Some channels /\ map oc_cardKey (ps_outgoingCards st) ≡ₚ map hex (am_keys channels)) /\
  same_listing (ra_notes answers) m.
Proof.
  intros Hwf Hlen. unfold display_state. destruct (each_token fst _ _ _) as [[rows m1]|] eqn:Hrows; [|done]. cbn.
  destruct (BigInt_of_string (da_address account)) as [self|]; [|done]. cbn. destruct (name_accounts self allAccounts []) as [names|]; [|done]. cbn.
  destruct (each_token id _ tokens m1) as [[notes m2]|] eqn:Hnotes; [|done]. cbn. destruct (name_tokens tokens []) as [tokenNames|]; [|done]. cbn.
  destruct (ra_channels answers) as [channels|]; [|done]. cbn. intros [= <- <-]. cbn.
  destruct (each_token_spec _ _ _ _ _ _ Hwf Hrows) as (Hr & Hm1 & Hl1). destruct (each_token_spec _ _ _ _ _ _ Hm1 Hnotes) as (Hn & Hm2 & Hl2).
  split_and!; [| |apply cards_show_every_note..| |split; [done|intros a; by rewrite Hl2, Hl1]].
  - eapply Forall2_impl; [exact Hr|]. intros x row (a & Ha & [= <-]). split_and!; try done. by exists a.
  - clear Hrows Hnotes. revert rows notes Hr Hn Hlen. generalize (ra_balances answers) as balances.
    induction tokens as [|t ts IH]; intros [|b balances] rows notes Hr Hn Hlen; try done.
    + apply Forall2_nil_inv_l in Hr as ->. by apply Forall2_nil_inv_l in Hn as ->.
    + cbn [zip zip_with] in Hr. apply Forall2_cons_inv_l in Hr as (row & rows' & (a & Ha & [= <-]) & Hr & ->).
      apply Forall2_cons_inv_l in Hn as (ds & notes' & (a' & Ha' & Hd) & Hn & ->). cbn in Ha, Ha'. rewrite Ha in Ha'. injection Ha' as <-.
      cbn [sumZ concat]. rewrite sumZ_app, (IH balances rows' notes') by (done || (cbn in Hlen; lia)). f_equal. cbn.
      by rewrite (display_notes_amount _ _ _ _ Hd), Hl1.
  - exists channels. split; [done|]. unfold outgoingCards. rewrite (Permutation_map oc_cardKey (sort_with_perm _ _)), map_map. cbn. unfold am_keys, map_keys, am_entries.
    by rewrite <- (map_map fst hex).
Qed.
End Shown.

(** ** The hook and its account *)

Section Belongs.
Context (localeCompare : string -> string -> Z) (provider : bool) (tokens : list TokenConfig) (allAccounts : list DisplayAccount).
Abbreviation step := (hook_step localeCompare provider tokens allAccounts).

Definition asked_for (viewer : option Viewer) (t : refresh_task) : Prop :=
  match t with Querying rq => viewer = Some (rr_viewer rq) | ReadingBalances v => viewer = Some v end.
Definition is_query (t : refresh_task) : Prop := match t with Querying _ => True | ReadingBalances _ => False end.

(** All of a state but the public balances. *)
Definition private_part (st : PrivateState) : PrivateState := with_balances (map (with_transparent 0) (ps_tokenBalances st)) st.
(** Nothing private is shown. *)
Definition blank (st : PrivateState) : Prop :=
  ps_isRegistered st = None /\ ps_notes st = [] /\ ps_incomingCards st = [] /\ ps_outgoingCards st = [] /\
  Forall (fun tb => tb_private tb = 0 /\ tb_noteCount tb = 0) (ps_tokenBalances st).

(** The registry holds the answers, with the notes map as it was read. *)
Definition holds (answers : RefreshAnswers) (m : AddressMap (list Note)) (r : PrivateRegistry) : Prop :=
  ra_channels answers = Some (reg_channels r) /\ reg_notes r = m /\ reg_cursor r = Some (ra_cursor answers).

(** The answers came as an event of the run, for a query that the hook had made for the viewer and that was under way, and no account
    was selected since. *)
Definition is_selection (ev : hook_event) : Prop := match ev with SelectAccount _ => True | _ => False end.
Definition arrived (events : list hook_event) (v : Viewer) (answers : RefreshAnswers) : Prop :=
  exists pre i post rq, events = (pre ++ AnswersArrive i (Ok answers) :: post)%list /\
    sh_tasks (run_hook localeCompare provider tokens allAccounts pre) !! i = Some (Querying rq) /\ rr_viewer rq = v /\
    Forall (fun ev => ~ is_selection ev) post.

(** What is shown and stored, for answers of which [came] says that they arrived for a viewer. *)
Section Came.
Context (came : Viewer -> RefreshAnswers -> Prop).

(** No channels and no notes; the cursor may be left from answers for the account. *)
Definition registry_cleared (viewer : option Viewer) (r : PrivateRegistry) : Prop :=
  reg_channels r = reg_channels createEmptyRegistry /\ reg_notes r = reg_notes createEmptyRegistry /\
  (reg_cursor r = None \/ exists v answers, viewer = Some v /\ came v answers /\ reg_cursor r = Some (ra_cursor answers)).

(** What is shown, the public balances apart, is nothing or made of answers that came for the account, and the registry is cleared or holds
    those answers. *)
Definition belongs (s : StateHook) : Prop :=
  blank (sh_state s) /\ registry_cleared (sh_viewer s) (sh_registry s) \/
  exists v answers st m, sh_viewer s = Some v /\ came v answers /\ length (ra_balances answers) = length tokens /\
    display_state localeCompare tokens (vw_account v) allAccounts answers = Some (st, m) /\
    private_part (sh_state s) = private_part st /\ (registry_cleared (sh_viewer s) (sh_registry s) \/ holds answers m (sh_registry s)).

Record state_ok (s : StateHook) : Prop := {
  so_tasks : Forall (asked_for (sh_viewer s)) (sh_tasks s);
  so_belongs : belongs s }.
End Came.

(** The account changes only when no answer is awaited; the answers have a balance for every token. *)
Definition quiet_event (s : StateHook) (ev : hook_event) : Prop :=
  match ev with
  | SelectAccount _ => sh_tasks s = []
  | AnswersArrive _ (Ok answers) => length (ra_balances answers) = length tokens
  | _ => True
  end.
Fixpoint quiet_run (s : StateHook) (events : list hook_event) : Prop :=
  match events with [] => True | ev :: events => quiet_event s ev /\ quiet_run (step s ev) events end.

Section Steps.
Context (came : Viewer -> RefreshAnswers -> Prop).
Abbreviation belongs := (belongs came).
Abbreviation state_ok := (state_ok came).

(** The cursor of the registry is one that answers for the account left, if there is one. *)
Lemma belongs_cursor s : belongs s -> registry_cleared came (sh_viewer s) (assign_empty (sh_registry s)).
Proof.
  intros [[_ (_ & _ & Hc)]|(v & answers & st & m & Hv & Hcame & _ & _ & _ & [(_ & _ & Hc)|(_ & _ & Hc)])]; split_and!; try done.
  right. by exists v, answers.
Qed.

(** What a change of the registry to a cleared one keeps. *)
Lemma belongs_emptied s r : belongs s -> registry_cleared came (sh_viewer s) r -> belongs (set_hook_registry r s).
Proof.
  intros [[Hb _]|(v & answers & st & m & Hv & Hcame & Hlen & Hd & Hs & _)] Hr; [by left|]. right. exists v, answers, st, m. split_and!; try done. by left.
Qed.

Lemma belongs_fails s : belongs s -> belongs (refresh_fails s).
Proof. intros Hb. apply (belongs_emptied s (assign_empty (sh_registry s)) Hb). by apply belongs_cursor. Qed.

Lemma state_ok_refresh s : state_ok s -> state_ok (refresh provider tokens s).
Proof.
  intros Hok. pose proof Hok as [Ht Hb]. unfold refresh. destruct provider; [|done]. destruct (sh_viewer s) as [v|] eqn:Hv; [|done].
  destruct (given (vw_viewingKey v)) as [key|]; [|done]. destruct (BigInt_of_string key) as [vk|]; [|done]. destruct (request_ok tokens v); split.
  - cbn. rewrite Hv. apply Forall_app. split; [done|]. by repeat constructor.
  - exact Hb.
  - cbn. by rewrite Hv.
  - apply (belongs_fails _ Hb).
Qed.
End Steps.

Lemma private_update balances rows st : rows <> [] ->
  map (with_transparent 0) (update_balances tokens balances rows) = map (with_transparent 0) rows /\
  private_part (with_balances (update_balances tokens balances rows) st) = private_part (with_balances rows st).
Proof.
  intros Hr. assert (He : map (with_transparent 0) (update_balances tokens balances rows) = map (with_transparent 0) rows).
  { unfold update_balances. destruct rows as [|r rows]; [done|]. rewrite map_map. apply map_ext. by intros []. }
  split; [done|]. unfold private_part, with_balances. cbn. by rewrite He.
Qed.

Lemma with_balances_id st : with_balances (ps_tokenBalances st) st = st.
Proof. by destruct st. Qed.

Lemma each_token_nonempty {A B} (token : A -> TokenConfig) (body : A -> list Note -> option B) l m ys m' :
  each_token token body l m = Some (ys, m') -> l <> [] -> ys <> [].
Proof.
  destruct l as [|x l]; [done|]. cbn. destruct (token_notes _ _) as [[ns m1]|]; [|done]. cbn. destruct (body x ns); [|done]. cbn.
  destruct (each_token _ _ _ _) as [[ys' m2]|]; [|done]. cbn. by intros [= <- <-].
Qed.

Lemma display_rows account answers st m : length (ra_balances answers) = length tokens -> tokens <> [] ->
  display_state localeCompare tokens account allAccounts answers = Some (st, m) -> ps_tokenBalances st <> [].
Proof.
  intros Hlen Hne. unfold display_state. destruct (each_token fst _ _ _) as [[rows m1]|] eqn:Hrows; [|done]. cbn.
  apply each_token_nonempty in Hrows; [|by destruct tokens, (ra_balances answers)].
  destruct (BigInt_of_string (da_address account)); [|done]. cbn. destruct (name_accounts _ _ _); [|done]. cbn.
  destruct (each_token id _ _ _) as [[notes m3]|]; [|done]. cbn. destruct (name_tokens _ _); [|done]. cbn.
  destruct (ra_channels answers); [|done]. cbn. by intros [= <- <-].
Qed.

(** New public balances change nothing private; where there are no rows yet, rows without notes appear. *)
Lemma belongs_balances came balances s : belongs came s ->
  belongs came (set_private (with_balances (update_balances tokens balances (ps_tokenBalances (sh_state s))) (sh_state s)) s).
Proof.
  intros Hb. destruct (decide (ps_tokenBalances (sh_state s) = [])) as [Hrows|Hrows].
  - destruct Hb as [[(Hb1 & Hb2 & Hb3 & Hb4 & Hf) Hr]|(v & answers & st & m & Hv & Hcame & Hlen & Hd & Hs & Hr)].
    + left. split; [|done]. split_and!; try done. cbn. rewrite Hrows. by apply Forall_map, list.Forall_forall.
    + assert (Hst : ps_tokenBalances st = []).
      { apply (f_equal ps_tokenBalances) in Hs. cbn in Hs. rewrite Hrows in Hs. by destruct (ps_tokenBalances st). }
      destruct (decide (tokens = [])) as [Hnil|Hne]; [|by apply (display_rows _ _ _ _ Hlen Hne) in Hd]. rewrite Hrows, Hnil. cbn. rewrite <- Hrows, with_balances_id.
      right. exists v, answers, st, m. by split_and!.
  - destruct (private_update balances _ (sh_state s) Hrows) as [H1 H2]. rewrite with_balances_id in H2.
    destruct Hb as [[(Hb1 & Hb2 & Hb3 & Hb4 & Hf) Hr]|(v & answers & st & m & Hv & Hcame & Hlen & Hd & Hs & Hr)].
    + left. split; [|done]. split_and!; try done. cbn. unfold update_balances. destruct (ps_tokenBalances (sh_state s)); [done|]. by apply Forall_map.
    + right. exists v, answers, st, m. split_and!; try done. cbn [sh_state set_private]. by rewrite H2.
Qed.

Lemma asked_delete viewer tasks i : Forall (asked_for viewer) tasks -> Forall (asked_for viewer) (delete i tasks).
Proof. rewrite !list.Forall_forall. intros Ht t Hi. apply Ht. eapply elem_of_sublist; [exact Hi|]. apply sublist_delete. Qed.

Lemma state_ok_answers came rq answer s : asked_for (sh_viewer s) (Querying rq) -> state_ok came s ->
  (forall answers, answer = Ok answers -> came (rr_viewer rq) answers /\ length (ra_balances answers) = length tokens) ->
  state_ok came (answers_arrive localeCompare tokens allAccounts rq answer s).
Proof.
  intros Hrq [Ht Hb] Hok. destruct answer as [answers|e]; [|split; [done|by apply belongs_fails]]. destruct (Hok answers eq_refl) as [Hcame Hlen].
  unfold answers_arrive. destruct (display_state _ _ _ _ _) as [[st m]|] eqn:Hd.
  - split; [done|]. right. exists (rr_viewer rq), answers, st, m. split_and!; try done. right. split_and!; [|done|done]. cbn.
    destruct (ra_channels answers) eqn:Hc; [done|]. exfalso. revert Hd. unfold display_state. rewrite Hc.
    destruct (each_token fst _ _ _) as [[? ?]|]; [|done]. cbn. destruct (BigInt_of_string _); [|done]. cbn. destruct (name_accounts _ _ _); [|done]. cbn.
    destruct (each_token id _ _ _) as [[? ?]|]; [|done]. cbn. by destruct (name_tokens _ _).
  - split; [done|]. apply (belongs_emptied came s (assign_empty (store_answers answers (sh_registry s))) Hb). split_and!; try done.
    right. by exists (rr_viewer rq), answers.
Qed.

Lemma state_ok_weaken (came came' : Viewer -> RefreshAnswers -> Prop) s :
  (forall v answers, came v answers -> came' v answers) -> state_ok came s -> state_ok came' s.
Proof.
  intros Hc [Ht Hb]. split; [done|].
  assert (Hr : forall viewer r, registry_cleared came viewer r -> registry_cleared came' viewer r).
  { intros viewer r (? & ? & [?|(v & answers & ? & ? & ?)]); split_and!; try done; [by left|]. right. exists v, answers. auto. }
  destruct Hb as [[Hb Hcl]|(v & answers & st & m & Hv & Hcame & Hlen & Hd & Hs & Hreg)]; [left; auto|].
  right. exists v, answers, st, m. split_and!; auto. destruct Hreg; auto.
Qed.

Lemma arrived_later events ev v answers : ~ is_selection ev -> arrived events v answers -> arrived (events ++ [ev]) v answers.
Proof.
  intros Hev (pre & i & post & rq & -> & Hi & Hv & Hp). exists pre, i, (post ++ [ev])%list, rq. split_and!; try done.
  - by rewrite <- app_assoc.
  - apply Forall_app. split; [done|]. by apply Forall_singleton.
Qed.

Lemma state_ok_step events s ev : s = run_hook localeCompare provider tokens allAccounts events -> state_ok (arrived events) s -> quiet_event s ev ->
  state_ok (arrived (events ++ [ev])) (step s ev).
Proof.
  intros Hrun Hok Hq.
  assert (Hmore : ~ is_selection ev -> state_ok (arrived (events ++ [ev])) s).
  { intros Hev. eapply state_ok_weaken; [|exact Hok]. intros v answers. by apply arrived_later. }
  destruct ev as [viewer| | |i answer|i answer]; cbn [hook_step]; [|specialize (Hmore ltac:(by intros []))..].
  - apply state_ok_refresh. split; cbn in *; [by rewrite Hq|]. left. split; [done|]. split_and!; try done. by left.
  - apply state_ok_refresh. destruct Hmore as [Ht Hb]. split; [done|]. apply belongs_emptied; [done|]. split_and!; try done. by left.
  - pose proof Hmore as [Ht Hb]. unfold refreshBalances. destruct provider; [|done]. destruct (sh_viewer s) as [v|] eqn:Hv; [|done].
    split; [|exact Hb]. cbn. rewrite Hv. apply Forall_app. split; [done|]. by repeat constructor.
  - destruct (sh_tasks s !! i) as [[rq|v]|] eqn:Hi; [|done|done]. destruct Hmore as [Ht Hb]. apply state_ok_answers.
    + by apply (Forall_lookup_1 _ _ _ _ Ht Hi).
    + split; [by apply asked_delete|exact Hb].
    + intros answers ->. split; [|exact Hq]. exists events, i, [], rq. rewrite Hrun in Hi. by split_and!.
  - destruct (sh_tasks s !! i) as [[rq|v]|] eqn:Hi; [done| |done]. destruct Hmore as [Ht Hb].
    destruct answer as [balances|e]; (split; [by apply asked_delete|]); [|exact Hb].
    by apply (belongs_balances _ balances (set_tasks (delete i (sh_tasks s)) s)).
Qed.

Lemma state_ok_run before events s : s = run_hook localeCompare provider tokens allAccounts before -> state_ok (arrived before) s -> quiet_run s events ->
  state_ok (arrived (before ++ events)) (fold_left step events s).
Proof.
  revert before s. induction events as [|ev events IH]; intros before s Hrun Hs; [by rewrite app_nil_r|]. intros [Hev Hevs].
  replace (before ++ ev :: events)%list with ((before ++ [ev]) ++ events)%list by (by rewrite <- app_assoc).
  apply IH; [|by apply state_ok_step|done]. rewrite Hrun. unfold run_hook. by rewrite fold_left_app.
Qed.

(** The hook is only loading while a query is under way. *)
Definition loading_ok (s : StateHook) : Prop := sh_loading s = true -> Exists is_query (sh_tasks s).

Lemma exists_delete i t tasks : tasks !! i = Some t -> ~ is_query t -> Exists is_query tasks -> Exists is_query (delete i tasks).
Proof.
  revert i. induction tasks as [|t' tasks IH]; intros [|i]; [done|done| |]; cbn; intros Hi Ht He.
  - injection Hi as ->. by apply Exists_cons in He as [?|?].
  - apply Exists_cons in He as [He|He]; [by left|]. right. by apply IH.
Qed.

Lemma loading_refresh s : loading_ok s -> loading_ok (refresh provider tokens s).
Proof.
  intros Hs. unfold refresh. destruct provider; [|done]. destruct (sh_viewer s); [|done]. destruct (given _); [|done]. destruct (BigInt_of_string _); [|done].
  destruct (request_ok _ _); [|done]. intros _. cbn. apply Exists_app. right. by left.
Qed.

Lemma loading_step s ev : loading_ok s -> loading_ok (step s ev).
Proof.
  intros Hs. destruct ev as [viewer| | |i answer|i answer]; cbn [hook_step].
  - by apply loading_refresh.
  - by apply loading_refresh.
  - unfold refreshBalances. destruct provider; [|done]. destruct (sh_viewer s); [|done]. intros Hl. apply Exists_app. left. by apply Hs.
  - destruct (sh_tasks s !! i) as [[rq|v]|]; [|done|done]. unfold answers_arrive, loading_ok. destruct answer as [answers|e]; [|done].
    by destruct (display_state _ _ _ _ _) as [[st m]|].
  - destruct (sh_tasks s !! i) as [[rq|v]|] eqn:Hi; [done| |done]. destruct answer; intros Hl; (apply (exists_delete i (ReadingBalances v)); [done|by intros []|by apply Hs]).
Qed.

(** C39: whose state is shown. The hook says that it is loading only while a query is under way. In a run where the account changes only when no
    answer is awaited, and where answers have a balance for every token, what is shown (the public balances apart) is either nothing, or made of
    answers that arrived, since the account was selected, for a query that the hook had made for it: all that it shows of them is what
    [display_state] makes of these very answers. The registry that all hooks share either holds the channels, notes and cursor of those answers,
    or has no channels and no notes; it may then keep a cursor, of answers that arrived for the selected account (a failed refresh leaves it). *)
Theorem state_belongs_to_account events :
  let s := run_hook localeCompare provider tokens allAccounts events in
  (sh_loading s = true -> Exists is_query (sh_tasks s)) /\
  (quiet_run initial_hook events -> Forall (asked_for (sh_viewer s)) (sh_tasks s) /\ belongs (arrived events) s).
Proof.
  unfold run_hook. split.
  - assert (Hgen : forall s, loading_ok s -> loading_ok (fold_left step events s)).
    { induction events as [|ev evs IH]; intros s Hs; [done|]. by apply IH, loading_step. }
    by apply Hgen.
  - intros Hq. assert (Hinit : state_ok (arrived []) initial_hook).
    { split; [constructor|]. left. split; [done|]. split_and!; try done. by left. }
    by destruct (state_ok_run [] events _ eq_refl Hinit Hq).
Qed.
End Belongs.

(** ** Two accounts *)

Definition strk : TokenConfig := {| tk_name := "STRK"; tk_address := "0x7"; tk_decimals := 18; tk_fee := Some true; tk_mintEntrypoint := None |}.
Definition alice_account : DisplayAccount := {| da_address := "0x1"; da_name := "Alice" |}.
Definition bob_account : DisplayAccount := {| da_address := "0x2"; da_name := "Bob" |}.
Definition alice_viewer : Viewer := {| vw_account := alice_account; vw_viewingKey := Some "0x5" |}.
Definition bob_viewer : Viewer := {| vw_account := bob_account; vw_viewingKey := Some "0x6" |}.

(** Any order of the texts. *)
Definition by_length (a b : string) : Z := Z.of_nat (String.length a) - Z.of_nat (String.length b).

Definition shown_note (id amount nonce sender : Z) : Note :=
  {| note_id := BN_bigint id; note_amount := amount; note_created := None;
     note_witness := {| w_channelKey := 48879; w_nonce := nonce; w_r := 1 |}; note_sender := sender; note_open := None |}.
Definition end_cursor : NotesCursor := {| blockId := BN_number 9; incomingChannels := new_AddressMap None [] |}.
Definition alice_answers : RefreshAnswers :=
  {| ra_notes := new_AddressMap (Some (fun _ => [])) [(7, [shown_note 31 5 0 2; shown_note 32 6 0 1; shown_note 33 9 1 2])]; ra_cursor := end_cursor;
     ra_channels := Some (new_AddressMap None [(2, {| ch_publicKey := 4; ch_key := Some 43981; ch_tokens := new_AddressMap None [(7, {| tokenIndex := 0; noteNonce := 3 |})] |})]);
     ra_requirement := Ready; ra_balances := [100] |}.
(** The indexer knows nothing of the account. *)
Definition no_answers : RefreshAnswers :=
  {| ra_notes := new_AddressMap (Some (fun _ => [])) []; ra_cursor := end_cursor; ra_channels := None; ra_requirement := Register; ra_balances := [3] |}.

Abbreviation run_demo := (run_hook by_length true [strk] [alice_account; bob_account]).

Lemma state_shows_the_notes_witness : exists st m,
  display_state by_length [strk] alice_account [alice_account; bob_account] alice_answers = Some (st, m) /\
  map tb_private (ps_tokenBalances st) = [20] /\ map ic_senderName (ps_incomingCards st) = [Some "Self"; Some "Bob"] /\
  flat_map card_notes (ps_incomingCards st) ≡ₚ ps_notes st.
Proof.
  destruct (display_state by_length [strk] alice_account [alice_account; bob_account] alice_answers) as [[st m]|] eqn:Hd; [|vm_compute in Hd; discriminate Hd].
  destruct (state_shows_the_notes by_length [strk] [alice_account; bob_account] alice_account alice_answers st m) as (_ & _ & (Hp & _) & _).
  - split; [reflexivity|]. right. reflexivity.
  - reflexivity.
  - exact Hd.
  - exists st, m. split; [reflexivity|]. vm_compute in Hd. injection Hd as <- _. split; [reflexivity|]. split; [reflexivity|]. exact Hp.
Defined.

Definition quiet_events : list hook_event :=
  [SelectAccount (Some alice_viewer); CallRefreshBalances; AnswersArrive 0 (Ok alice_answers); BalancesArrive 0 (Ok [50])].

Lemma state_belongs_to_account_witness :
  map tb_transparent (ps_tokenBalances (sh_state (run_demo quiet_events))) = [50] /\
  map nd_amount (ps_notes (sh_state (run_demo quiet_events))) = [5; 6; 9] /\
  belongs by_length [strk] [alice_account; bob_account] (arrived by_length true [strk] [alice_account; bob_account] quiet_events) (run_demo quiet_events).
Proof.
  split; [vm_compute; reflexivity|]. split; [vm_compute; reflexivity|].
  apply (state_belongs_to_account by_length true [strk] [alice_account; bob_account] quiet_events).
  split; [reflexivity|]. split; [exact I|]. split; [reflexivity|]. split; exact I.
Defined.

(** Another account is selected before the answers arrive: its state and its registry become those of the former account. *)
Example notes_of_another_account :
  let s := run_demo [SelectAccount (Some alice_viewer); SelectAccount (Some bob_viewer); AnswersArrive 1 (Err tt); AnswersArrive 0 (Ok alice_answers)] in
  sh_viewer s = Some bob_viewer /\ map nd_amount (ps_notes (sh_state s)) = [5; 6; 9] /\ map ic_senderName (ps_incomingCards (sh_state s)) = [Some "Self"; Some "Bob"] /\
  am_map (reg_notes (sh_registry s)) = am_map (ra_notes alice_answers).
Proof. vm_compute. split_and!; reflexivity. Qed.

(** A failing refresh empties the registry but for its cursor. *)
Example cursor_survives :
  let s := run_demo [SelectAccount (Some alice_viewer); CallRefreshAll; AnswersArrive 0 (Ok alice_answers); AnswersArrive 0 (Err tt)] in
  am_map (reg_notes (sh_registry s)) = [] /\ reg_cursor (sh_registry s) = Some end_cursor /\ sh_error s = true.
Proof. vm_compute. split_and!; reflexivity. Qed.

(** The loading flag goes out with the first answer, while the second query is under way. *)
Example loading_ends_early :
  let s := run_demo [SelectAccount (Some alice_viewer); CallRefreshAll; AnswersArrive 0 (Ok alice_answers)] in
  sh_loading s = false /\ length (sh_tasks s) = 1%nat.
Proof. vm_compute. split_and!; reflexivity. Qed.

(** Two senders whose addresses are shortened to the same text share a card, which has the name and the channel of one of them. *)
Example senders_share_a_card :
  let near := 0x2123450000000000000000000000abcd in
  let far := 0x2123451111111111111111111111abcd in
  match display_notes [(near, "Carol")] strk [shown_note 31 5 0 near; shown_note 32 6 1 far] with
  | Some notes => map (fun c => (ic_senderName c, map nd_amount (card_notes c))) (incomingCards by_length notes)
  | None => []
  end = [(None, [6; 5])].
Proof. vm_compute. reflexivity. Qed.
