(* ===== verification/DemoSession.v ===== *)
(** * What the demo keeps in the browser ([session.ts], [useAccounts.ts] and [usePoolSelector.ts] of the demo)

    Accounts as they are pasted, stored and completed with a viewing key; the selected pool and the search for deployed pools. Accounts are the
    parsed JSON values, since what is stored is not checked when it is read. *)
From Stdlib Require Import Ascii ZArith Lia.
From stdpp Require Import base tactics list strings.
From S2P Require Import Prelude JsMap Convert Interfaces PoolTransaction StarknetCalls JsonText.

Local Open Scope string_scope.
Local Open Scope Z_scope.

(** ** Fields of parsed JSON *)

(** A field; the last one counts where a text repeats it. *)
Definition json_field (name : string) (t : tree) : option tree := match t with TObject fs => map_get name (map_of_entries fs) | _ => None end.
Definition json_truthy (t : option tree) : bool :=
  match t with
  | None | Some TNull => false
  | Some (TBool b) => b
  | Some (TNumber n) => negb (n =? 0)
  | Some (TString s) => negb (String.eqb s "")
  | Some (TArray _) | Some (TObject _) => true
  end.
(** The text of a field that is truthy and a text. *)
Definition text_field (name : string) (t : tree) : option string :=
  match json_field name t with Some (TString (String _ _ as s)) => Some s | _ => None end.

(** ** Viewing keys ([session.ts]) *)

(** starknet.js: [hash.starknetKeccak], [ec.starkCurve.sign] (it may throw), Poseidon as a number, and the order of the curve. *)
Class SessionCrypto := {
  starknetKeccak : string -> Z;
  session_sign : string -> string -> option (Z * Z);
  session_poseidon : list Z -> Z;
  session_order : Z }.

Definition SN_MAIN : string := "0x534e5f4d41494e".
Definition isMainnet (chainId : string) : bool := String.eqb chainId SN_MAIN.
Definition isSendCapable (account : option tree) : bool :=
  match account with Some a => json_truthy (json_field "privateKey" a) | None => false end.

(** The fold into the lower half of the scalars. *)
Definition fold_key (order folded : Z) : Z :=
  let reduced := js_rem folded order in
  let canonical := if reduced <? MAX_VIEWING_KEY order then reduced else order - reduced in
  if canonical =? 0 then 1 else canonical.

Section Keys.
Context `{SessionCrypto}.

Definition deriveViewingKey (privateKey chainId poolAddress : string) : option Z :=
  let messageHash := starknetKeccak (chainId +:+ ":" +:+ poolAddress) in
  '(r, s) ← session_sign (toHex messageHash) privateKey;
  Some (fold_key session_order (session_poseidon [r; s])).

(** The outer option is the exception of the signature; a private key that is no text, which only an unchecked store can hold, is taken for none. *)
Definition withViewingKey (account : tree) (chainId poolAddress : string) : option (option tree) :=
  if json_truthy (json_field "viewingKey" account) then Some (Some account)
  else
    match account, text_field "privateKey" account with
    | TObject fs, Some privateKey =>
        derived ← deriveViewingKey privateKey chainId poolAddress;
        Some (Some (TObject (map_set "viewingKey" (TString (toHex derived)) (map_of_entries fs))))
    | _, _ => Some None
    end.

(** The accounts of [App]: those that can produce a viewing key. *)
Fixpoint usable_accounts (accounts : list tree) (chainId poolAddress : string) : option (list tree) :=
  match accounts with
  | [] => Some []
  | a :: accounts =>
      completed ← withViewingKey a chainId poolAddress;
      rest ← usable_accounts accounts chainId poolAddress;
      Some (match completed with Some a => a :: rest | None => rest end)
  end.
End Keys.

(** The folded key is the hash up to its sign, and lies in the lower half but for one value: the middle of an odd order is folded up. *)
Lemma fold_key_spec order folded : 2 < order -> order mod 2 = 1 -> 0 <= folded ->
  let key := fold_key order folded in
  (1 <= key <= MAX_VIEWING_KEY order \/ key = MAX_VIEWING_KEY order + 1 /\ folded mod order = MAX_VIEWING_KEY order) /\
  (folded mod order <> 0 -> key = folded mod order \/ key = order - folded mod order).
Proof.
  intros Hn Hodd Hf. unfold fold_key, MAX_VIEWING_KEY, js_rem, js_div. rewrite Z.rem_mod_nonneg, Z.quot_div_nonneg by lia.
  pose proof (Z.mod_pos_bound folded order ltac:(lia)) as Hm. pose proof (Z.div_mod order 2 ltac:(lia)) as Hdiv. rewrite Hodd in Hdiv.
  destruct (Z.ltb_spec (folded mod order) (order / 2)) as [Hlt|Hge].
  - destruct (Z.eqb_spec (folded mod order) 0); lia.
  - destruct (Z.eqb_spec (order - folded mod order) 0); lia.
Qed.

(** With order 7 the greatest key is 3; the hash 3 is folded to 4. *)
Example middle_is_folded_up : MAX_VIEWING_KEY 7 = 3 /\ fold_key 7 3 = 4.
Proof. split; reflexivity. Qed.

(** ** Accounts ([useAccounts.ts]) *)

Inductive accounts_error : Type :=
| InvalidJson
| NotAnArray
| MissingFields
| NoKey (name : string)
| NoAccounts.

(** [undefined] or a text. *)
Definition optional_text (t : option tree) : bool := match t with None | Some (TString _) => true | _ => false end.
Definition check_account (entry : tree) : result accounts_error unit :=
  match json_field "name" entry, json_field "address" entry with
  | Some (TString name), Some (TString _) =>
      if (optional_text (json_field "privateKey" entry) && optional_text (json_field "viewingKey" entry))%bool then
        if (json_truthy (json_field "privateKey" entry) || json_truthy (json_field "viewingKey" entry))%bool then Ok tt else Err (NoKey name)
      else Err MissingFields
  | _, _ => Err MissingFields
  end.
Fixpoint check_accounts (l : list tree) : result accounts_error unit :=
  match l with [] => Ok tt | entry :: l => _ ← check_account entry; check_accounts l end.
Definition parseAccounts (raw : string) : result accounts_error (list tree) :=
  match parse raw with
  | None => Err InvalidJson
  | Some (TArray l) => _ ← check_accounts l; Ok l
  | Some _ => Err NotAnArray
  end.

(** [!a.admin]; reading a field of null throws. *)
Definition not_admin (a : tree) : option bool := match a with TNull => None | _ => Some (negb (json_truthy (json_field "admin" a))) end.
Fixpoint find_non_admin (i : Z) (l : list tree) : option Z :=
  match l with [] => Some (-1) | a :: l => found ← not_admin a; if (found : bool) then Some i else find_non_admin (i + 1) l end.
(** [None] where there is no array to search, or null in it. *)
Definition firstNonAdminIndex (accounts : tree) : option Z :=
  match accounts with TArray l => index ← find_non_admin 0 l; Some (if 0 <=? index then index else 0) | _ => None end.

(** What is stored: the accounts and the index of the active one. *)
Record AccountStorage : Type := { as_accounts : option string; as_index : option string }.

Definition loadStoredAccounts (storage : AccountStorage) : tree :=
  match as_accounts storage with
  | None | Some "" => TArray []
  | Some raw => default (TArray []) (parse raw)
  end.
(** [Number(saved)] of what the hook writes, an integer. *)
Definition loadStoredIndex (accounts : tree) (storage : AccountStorage) : option Z :=
  fallback ← firstNonAdminIndex accounts;
  Some (match as_index storage, accounts with
        | Some saved, TArray l =>
            match BigInt_of_string saved with
            | Some parsed => if ((0 <=? parsed) && (parsed <? Z.of_nat (length l)))%bool then parsed else fallback
            | None => fallback
            end
        | _, _ => fallback
        end).
Definition saveAccounts (accounts : list tree) (storage : AccountStorage) : option AccountStorage :=
  index ← firstNonAdminIndex (TArray accounts);
  Some {| as_accounts := Some (print (TArray accounts)); as_index := Some (bigint_toString 10 index) |}.

(** The hook; [persist] is false on mainnet. *)
Record AccountsHook : Type := { ah_accounts : tree; ah_index : Z; ah_storage : AccountStorage }.

Definition open_accounts (persist : bool) (storage : AccountStorage) : option AccountsHook :=
  if persist then
    let accounts := loadStoredAccounts storage in
    index ← loadStoredIndex accounts storage; Some {| ah_accounts := accounts; ah_index := index; ah_storage := storage |}
  else Some {| ah_accounts := TArray []; ah_index := 0; ah_storage := storage |}.

Definition setActiveIndex (persist : bool) (index : Z) (s : AccountsHook) : AccountsHook :=
  {| ah_accounts := ah_accounts s; ah_index := index;
     ah_storage := if persist then {| as_accounts := as_accounts (ah_storage s); as_index := Some (bigint_toString 10 index) |} else ah_storage s |}.

(** The error, if there is one, and the state after. *)
Definition importAccounts (persist : bool) (raw : string) (s : AccountsHook) : option accounts_error * AccountsHook :=
  match parseAccounts raw with
  | Err e => (Some e, s)
  | Ok [] => (Some NoAccounts, s)
  | Ok parsed =>
      match firstNonAdminIndex (TArray parsed), saveAccounts parsed (ah_storage s) with
      | Some index, Some saved => (None, {| ah_accounts := TArray parsed; ah_index := index; ah_storage := if persist then saved else ah_storage s |})
      | _, _ => (Some MissingFields, s)
      end
  end.

Inductive accounts_event : Type := SetActive (index : Z) | Import (raw : string).
Definition accounts_step (persist : bool) (s : AccountsHook) (ev : accounts_event) : AccountsHook :=
  match ev with SetActive index => setActiveIndex persist index s | Import raw => (importAccounts persist raw s).2 end.

(** *** What is imported is kept *)

Lemma check_account_object a : check_account a = Ok tt ->
  (exists fs, a = TObject fs) /\ optional_text (json_field "privateKey" a) = true /\ optional_text (json_field "viewingKey" a) = true /\
  (json_truthy (json_field "privateKey" a) || json_truthy (json_field "viewingKey" a))%bool = true.
Proof.
  unfold check_account. intros Hc. destruct a as [| | | | |fs]; try discriminate Hc. revert Hc.
  destruct (json_field "name" (TObject fs)) as [[]|]; try done. destruct (json_field "address" (TObject fs)) as [[]|]; try done.
  destruct (optional_text (json_field "privateKey" (TObject fs))); [|done]. destruct (optional_text (json_field "viewingKey" (TObject fs))); [|done]. cbn [andb].
  destruct (_ || _)%bool; [|done]. intros _. split_and!; try done. by exists fs.
Qed.

Lemma check_accounts_all l : check_accounts l = Ok tt -> Forall (fun a => check_account a = Ok tt) l.
Proof. induction l as [|a l IH]; [constructor|]. cbn. intros ([] & Ha & Hl)%bind_ok. constructor; [done|by apply IH]. Qed.

Lemma find_non_admin_bounds l i : Forall (fun a => exists fs, a = TObject fs) l ->
  exists found, find_non_admin i l = Some found /\ (found = -1 \/ i <= found < i + Z.of_nat (length l)).
Proof.
  intros Hl. revert i. induction Hl as [|a l [fs ->] _ IH]; intros i; cbn [find_non_admin]; [exists (-1); by split; [|left]|].
  cbn [not_admin mbind option_bind]. destruct (negb _); [exists i; split; [done|right; cbn; lia]|].
  destruct (IH (i + 1)) as (found & Hf & Hb). exists found. split; [done|]. cbn [length]. lia.
Qed.

Lemma first_non_admin l : l <> [] -> Forall (fun a => exists fs, a = TObject fs) l ->
  exists index, firstNonAdminIndex (TArray l) = Some index /\ 0 <= index < Z.of_nat (length l).
Proof.
  intros Hne Hl. destruct (find_non_admin_bounds l 0 Hl) as (found & Hf & Hb). unfold firstNonAdminIndex. rewrite Hf. cbn [mbind option_bind].
  assert (0 < Z.of_nat (length l)) by (destruct l; [done|cbn; lia]). destruct (Z.leb_spec 0 found); eexists; (split; [reflexivity|]); lia.
Qed.

(** What [parseAccounts] lets through. *)
Lemma parsed_accounts raw l : parseAccounts raw = Ok l -> parse raw = Some (TArray l) /\ Forall (fun a => check_account a = Ok tt) l.
Proof.
  unfold parseAccounts. destruct (parse raw) as [[| | | |items|]|]; try done. intros ([] & Hc & [= ->])%bind_ok. split; [done|by apply check_accounts_all].
Qed.

Lemma load_saved accounts l index : l <> [] -> loadStoredAccounts {| as_accounts := Some (print (TArray l)); as_index := index |} = accounts -> accounts = TArray l.
Proof.
  intros _ <-. unfold loadStoredAccounts. cbn [as_accounts]. pose proof (parse_print (TArray l)) as Hp. destruct (print (TArray l)); [discriminate Hp|]. by rewrite Hp.
Qed.

(** Importing a text that [parseAccounts] accepts succeeds, and where accounts persist a reload finds the same accounts and the same active one. *)
Theorem imported_accounts_reload raw l s : parseAccounts raw = Ok l -> l <> [] ->
  exists index saved, importAccounts true raw s = (None, {| ah_accounts := TArray l; ah_index := index; ah_storage := saved |}) /\
    0 <= index < Z.of_nat (length l) /\ open_accounts true saved = Some {| ah_accounts := TArray l; ah_index := index; ah_storage := saved |}.
Proof.
  intros Hp Hne. destruct (parsed_accounts raw l Hp) as [_ Hc].
  assert (Hobj : Forall (fun a => exists fs, a = TObject fs) l) by (eapply list.Forall_impl; [exact Hc|]; intros a Ha; by apply check_account_object in Ha as (? & _)).
  destruct (first_non_admin l Hne Hobj) as (index & Hi & Hb). unfold importAccounts, saveAccounts. rewrite Hp. destruct l as [|a l]; [done|]. rewrite Hi.
  cbn [mbind option_bind]. eexists index, _. split; [reflexivity|]. split; [done|]. unfold open_accounts.
  rewrite (load_saved _ (a :: l) _ Hne eq_refl). unfold loadStoredIndex. rewrite Hi. cbn [mbind option_bind as_index]. rewrite BigInt_decimal.
  by rewrite (proj2 (Z.leb_le 0 index)), (proj2 (Z.ltb_lt index _)) by lia.
Qed.

(** Without persistence nothing is ever written. *)
Lemma mainnet_stores_nothing events s : ah_storage (fold_left (accounts_step false) events s) = ah_storage s.
Proof.
  revert s. induction events as [|ev events IH]; intros s; [done|]. cbn [fold_left]. rewrite IH. destruct ev as [index|raw]; [done|].
  cbn. unfold importAccounts. destruct (parseAccounts raw) as [[|a l]|e]; try done. by destruct (firstNonAdminIndex (TArray (a :: l))), (saveAccounts (a :: l) (ah_storage s)).
Qed.

(** Every imported account can produce a viewing key, so none is dropped and the active index keeps its meaning. *)
Lemma imported_accounts_usable `{SessionCrypto} raw l chainId poolAddress : parseAccounts raw = Ok l -> (forall m k, is_Some (session_sign m k)) ->
  exists accounts, usable_accounts l chainId poolAddress = Some accounts /\ length accounts = length l.
Proof.
  intros Hp Hsign. destruct (parsed_accounts raw l Hp) as [_ Hc]. clear Hp. induction Hc as [|a l Ha _ (accounts & Hu & Hl)]; [by exists []|].
  destruct (check_account_object a Ha) as ([fs ->] & Hpk & Hvk & Hkey). cbn [usable_accounts]. unfold withViewingKey.
  destruct (json_truthy (json_field "viewingKey" (TObject fs))) eqn:Hv.
  - cbn [mbind option_bind]. rewrite Hu. cbn. eexists. split; [reflexivity|]. cbn. by rewrite Hl.
  - rewrite orb_false_r in Hkey. unfold text_field. destruct (json_field "privateKey" (TObject fs)) as [[| | |[|c t]| |]|]; try done.
    cbn [mbind option_bind]. unfold deriveViewingKey. destruct (Hsign (toHex (starknetKeccak (chainId +:+ ":" +:+ poolAddress))) (String c t)) as [[r s] Hs].
    rewrite Hs. cbn [mbind option_bind]. rewrite Hu. cbn. eexists. split; [reflexivity|]. cbn. by rewrite Hl.
Qed.

(** What is stored is not checked: null stops the demo from opening, and an account without keys shifts the index of the others. *)
Example stored_null_throws : open_accounts true {| as_accounts := Some "null"; as_index := None |} = None.
Proof. reflexivity. Qed.

Definition keyless : tree := TObject [("name", TString "A"); ("address", TString "0x1")].
Definition watching : tree := TObject [("name", TString "B"); ("address", TString "0x2"); ("viewingKey", TString "0x5")].
Definition toy_session : SessionCrypto :=
  {| starknetKeccak text := Z.of_nat (String.length text); session_sign m k := Some (3, 4); session_poseidon l := sumZ id l; session_order := 101 |}.

Example dropped_account_shifts_the_index :
  let storage := {| as_accounts := Some (print (TArray [keyless; watching])); as_index := Some "1" |} in
  ah_index <$> open_accounts true storage = Some 1 /\ @usable_accounts toy_session [keyless; watching] "SN" "0x1" = Some [watching].
Proof. split; vm_compute; reflexivity. Qed.

(** ** The selected pool ([usePoolSelector.ts]) *)

Definition selection_tree (defaultAddress classHash selectedAddress : string) : tree :=
  TObject [("defaultAddress", TString defaultAddress); ("classHash", TString classHash); ("selectedAddress", TString selectedAddress)].
Definition saveSelection (defaultAddress classHash selectedAddress : string) : string := print (selection_tree defaultAddress classHash selectedAddress).

Definition is_text (s : string) (t : option tree) : bool := match t with Some (TString s') => String.eqb s' s | _ => false end.
(** The stored selection for these defaults; [None] where it is no text. *)
Definition loadStoredAddress (defaultAddress classHash : string) (stored : option string) : option string :=
  match stored with
  | None | Some "" => Some defaultAddress
  | Some raw =>
      match parse raw with
      | None => Some defaultAddress
      | Some t =>
          if (is_text defaultAddress (json_field "defaultAddress" t) && is_text classHash (json_field "classHash" t))%bool then
            match json_field "selectedAddress" t with Some (TString s) => Some s | _ => None end
          else Some defaultAddress
      end
  end.

(** A selection is found again for the defaults it was made for, and only for these. *)
Lemma selection_reloads defaultAddress classHash selected defaultAddress' classHash' :
  loadStoredAddress defaultAddress' classHash' (Some (saveSelection defaultAddress classHash selected))
    = Some (if (String.eqb defaultAddress defaultAddress' && String.eqb classHash classHash')%bool then selected else defaultAddress').
Proof.
  unfold loadStoredAddress, saveSelection. pose proof (parse_print (selection_tree defaultAddress classHash selected)) as Hp.
  destruct (print (selection_tree defaultAddress classHash selected)); [discriminate Hp|]. rewrite Hp. unfold is_text, selection_tree, json_field. cbn -[String.eqb].
  change (map_get "defaultAddress" _) with (Some (TString defaultAddress)). change (map_get "classHash" _) with (Some (TString classHash)).
  change (map_get "selectedAddress" _) with (Some (TString selected)). cbn. by destruct (_ && _)%bool.
Qed.

(** ** The search for deployed pools *)

Record PoolEntry : Type := { pe_address : string; pe_blockNumber : Z; pe_isDefault : bool }.
(** The progress without the estimates of percentage and time. *)
Record SearchState : Type := { se_results : list PoolEntry; se_scannedBlocks : Z; se_totalBlocks : Z; se_done : bool }.

(** What the node answers: the events of the deployer, page by page. *)
Record DeployedEvent : Type := { de_data : list string; de_block : option Z }.
Record EventsPage : Type := { ep_events : list DeployedEvent; ep_token : option string }.

Record Found : Type := { f_seen : list string; f_results : list PoolEntry }.
Definition nothing_found : Found := {| f_seen := []; f_results := [] |}.

Section Search.
Context `{StarknetNum} (provider : bool).

(** The event of the class that is searched for; [None] where [BigInt] throws. *)
Definition scan_event (normalizedClassHash defaultPoolAddress : string) (e : DeployedEvent) (found : Found) : option Found :=
  match de_data e !! 3%nat with
  | Some (String _ _ as eventClassHash) =>
      z ← BigInt_of_string eventClassHash;
      if String.eqb (sn_toHex z) normalizedClassHash then
        address ← de_data e !! 0%nat;
        let normalized := toLowerCase address in
        if bool_decide (normalized ∈ f_seen found) then Some found
        else Some {| f_seen := (f_seen found ++ [normalized])%list;
                     f_results := (f_results found ++ [{| pe_address := address; pe_blockNumber := default 0 (de_block e);
                                                         pe_isDefault := String.eqb normalized (toLowerCase defaultPoolAddress) |}])%list |}
      else Some found
  | _ => Some found
  end.
Fixpoint scan_events (normalizedClassHash defaultPoolAddress : string) (events : list DeployedEvent) (found : Found) : option Found :=
  match events with
  | [] => Some found
  | e :: events => found ← scan_event normalizedClassHash defaultPoolAddress e found; scan_events normalizedClassHash defaultPoolAddress events found
  end.
Definition last_block (events : list DeployedEvent) (scannedBlocks : Z) : Z :=
  match last events with Some e => default scannedBlocks (de_block e) | None => scannedBlocks end.

(** A search under way: the class and the default it was started with, and what it waits for. *)
Inductive search_task : Type :=
| AwaitBlock (classHash defaultAddress : string)
| AwaitEvents (classHash defaultAddress : string) (latestBlock : Z) (found : Found) (scannedBlocks : Z)
| Finished.

(** The hook; every search has its own abort signal, the one that runs is in [ph_abort]. *)
Record PoolHook : Type := {
  ph_default : string;
  ph_class : string;
  ph_active : option string;
  ph_stored : option string;
  ph_search : option SearchState;
  ph_abort : option nat;
  ph_searches : list (bool * search_task) }.
Definition open_pools (defaultAddress classHash : string) (stored : option string) : PoolHook :=
  {| ph_default := defaultAddress; ph_class := classHash; ph_active := loadStoredAddress defaultAddress classHash stored; ph_stored := stored;
     ph_search := None; ph_abort := None; ph_searches := [] |}.

Definition with_search (search : option SearchState) (s : PoolHook) : PoolHook :=
  {| ph_default := ph_default s; ph_class := ph_class s; ph_active := ph_active s; ph_stored := ph_stored s; ph_search := search; ph_abort := ph_abort s;
     ph_searches := ph_searches s |}.
Definition with_searches (abort : option nat) (searches : list (bool * search_task)) (s : PoolHook) : PoolHook :=
  {| ph_default := ph_default s; ph_class := ph_class s; ph_active := ph_active s; ph_stored := ph_stored s; ph_search := ph_search s; ph_abort := abort;
     ph_searches := searches |}.
(** The search [i] goes on with [t]. *)
Definition goes_on (i : nat) (t : search_task) (s : PoolHook) : PoolHook :=
  with_searches (ph_abort s) (alter (fun x => (x.1, t)) i (ph_searches s)) s.
(** What only a search that is not aborted shows. *)
Definition show (aborted : bool) (search : option SearchState) (s : PoolHook) : PoolHook := if aborted then s else with_search search s.

Definition selectPool (address : string) (s : PoolHook) : PoolHook :=
  {| ph_default := ph_default s; ph_class := ph_class s; ph_active := Some address; ph_stored := Some (saveSelection (ph_default s) (ph_class s) address);
     ph_search := ph_search s; ph_abort := ph_abort s; ph_searches := ph_searches s |}.
Definition addPool (entry : PoolEntry) (s : PoolHook) : PoolHook := selectPool (pe_address entry) s.

Definition stopSearch (s : PoolHook) : PoolHook :=
  match ph_abort s with
  | Some i => with_searches None (alter (fun x => (true, x.2)) i (ph_searches s)) s
  | None => s
  end.
Definition closeSearch (s : PoolHook) : PoolHook := with_search None (stopSearch s).
(** The effect of another default or class. *)
Definition change_defaults (defaultAddress classHash : string) (s : PoolHook) : PoolHook :=
  stopSearch {| ph_default := defaultAddress; ph_class := classHash; ph_active := loadStoredAddress defaultAddress classHash (ph_stored s);
                ph_stored := ph_stored s; ph_search := ph_search s; ph_abort := ph_abort s; ph_searches := ph_searches s |}.

Definition searchPools (s : PoolHook) : PoolHook :=
  if provider then
    let s := stopSearch s in
    let t := match BigInt_of_string (ph_class s) with Some z => AwaitBlock (sn_toHex z) (ph_default s) | None => Finished end in
    with_searches (Some (length (ph_searches s))) (ph_searches s ++ [(false, t)])%list s
  else s.

(** [getBlockNumber] answers: the search is shown from its start, whether it was aborted or not. *)
Definition block_arrives (i : nat) (aborted : bool) (classHash defaultAddress : string) (answer : option Z) (s : PoolHook) : PoolHook :=
  match answer with
  | None => goes_on i Finished s
  | Some latestBlock =>
      goes_on i (if aborted then Finished else AwaitEvents classHash defaultAddress latestBlock nothing_found 0)
        (with_search (Some {| se_results := []; se_scannedBlocks := 0; se_totalBlocks := latestBlock; se_done := false |}) s)
  end.

Definition search_fails (i : nat) (aborted : bool) (s : PoolHook) : PoolHook :=
  goes_on i Finished
    (show aborted ((fun p => {| se_results := se_results p; se_scannedBlocks := se_scannedBlocks p; se_totalBlocks := se_totalBlocks p; se_done := true |})
                     <$> ph_search s) s).

Definition events_arrive (i : nat) (aborted : bool) (classHash defaultAddress : string) (latestBlock : Z) (found : Found) (scannedBlocks : Z)
  (answer : option EventsPage) (s : PoolHook) : PoolHook :=
  match answer with
  | None => search_fails i aborted s
  | Some page =>
      match scan_events classHash defaultAddress (ep_events page) found with
      | None => search_fails i aborted s
      | Some found =>
          let scanned := Z.max scannedBlocks (last_block (ep_events page) scannedBlocks) in
          let shown total done :=
            Some {| se_results := rev (f_results found); se_scannedBlocks := total; se_totalBlocks := latestBlock; se_done := done |} in
          let s := show aborted (shown scanned false) s in
          match ep_token page with
          | Some (String _ _) => goes_on i (if aborted then Finished else AwaitEvents classHash defaultAddress latestBlock found scanned) s
          | _ => goes_on i Finished (show aborted (shown latestBlock true) s)
          end
      end
  end.

Inductive pool_event : Type :=
| SelectPool (address : string)
| AddPool (entry : PoolEntry)
| ChangeDefaults (defaultAddress classHash : string)
| CallSearch
| CallStop
| CallClose
| BlockArrives (i : nat) (answer : option Z)
| EventsArrive (i : nat) (answer : option EventsPage).

Definition pools_step (s : PoolHook) (ev : pool_event) : PoolHook :=
  match ev with
  | SelectPool address => selectPool address s
  | AddPool entry => addPool entry s
  | ChangeDefaults defaultAddress classHash => change_defaults defaultAddress classHash s
  | CallSearch => searchPools s
  | CallStop => stopSearch s
  | CallClose => closeSearch s
  | BlockArrives i answer =>
      match ph_searches s !! i with Some (aborted, AwaitBlock c d) => block_arrives i aborted c d answer s | _ => s end
  | EventsArrive i answer =>
      match ph_searches s !! i with Some (aborted, AwaitEvents c d latest found scanned) => events_arrive i aborted c d latest found scanned answer s | _ => s end
  end.
Definition run_pools (events : list pool_event) (s : PoolHook) : PoolHook := fold_left pools_step events s.
End Search.

(** *** What a search finds *)

Section SearchFinds.
Context `{StarknetNum}.

(** The address that an event of the class deploys, in lower case. *)
Definition deployed (classHash : string) (e : DeployedEvent) : option string :=
  match de_data e !! 3%nat with
  | Some (String _ _ as h) => z ← BigInt_of_string h; if String.eqb (sn_toHex z) classHash then toLowerCase <$> (de_data e !! 0%nat) else None
  | _ => None
  end.

(** Every deployed address once, as it was first spelled. *)
Definition found_ok (classHash : string) (events : list DeployedEvent) (found : Found) : Prop :=
  f_seen found = map (fun p => toLowerCase (pe_address p)) (f_results found) /\ NoDup (f_seen found) /\
  forall a, a ∈ f_seen found <-> exists e, e ∈ events /\ deployed classHash e = Some a.

Lemma scan_event_ok classHash d e events found found' : found_ok classHash events found -> scan_event classHash d e found = Some found' ->
  found_ok classHash (events ++ [e])%list found'.
Proof.
  intros (Hs & Hn & Hin) Hscan.
  assert (Hskip : deployed classHash e = None \/ (exists a, deployed classHash e = Some a /\ a ∈ f_seen found) -> found_ok classHash (events ++ [e])%list found).
  { intros Hd. split_and!; [done|done|]. intros a. rewrite Hin. split; [intros (e' & He & Ha); exists e'; split; [apply elem_of_app; by left|done]|].
    intros (e' & [He|He%list_elem_of_singleton]%elem_of_app & Ha); [by exists e'|]. subst. destruct Hd as [Hd|(a' & Hd & Hin')]; rewrite Hd in Ha; [done|].
    injection Ha as <-. by apply Hin. }
  unfold scan_event in Hscan. unfold deployed in Hskip. destruct (de_data e !! 3%nat) as [[|c h]|] eqn:H3;
    [injection Hscan as <-; apply Hskip; by left| |injection Hscan as <-; apply Hskip; by left].
  destruct (BigInt_of_string (String c h)) as [z|] eqn:Hz; [|done]. cbn [mbind option_bind] in Hskip, Hscan.
  destruct (String.eqb (sn_toHex z) classHash) eqn:Hc; [|injection Hscan as <-; apply Hskip; by left].
  destruct (de_data e !! 0%nat) as [address|] eqn:H0; [|done]. cbn [mbind option_bind fmap option_fmap option_map] in Hskip, Hscan.
  assert (Hdep : deployed classHash e = Some (toLowerCase address)) by (unfold deployed; rewrite H3; cbn [mbind option_bind]; by rewrite Hz; cbn [mbind option_bind]; rewrite Hc, H0).
  case_bool_decide as Hseen.
  - injection Hscan as <-. apply Hskip. right. by eexists.
  - injection Hscan as <-. unfold found_ok. cbn [f_seen f_results]. rewrite map_app, Hs. split_and!; [done| |].
    + rewrite <- Hs. apply NoDup_app. split_and!; [done| |apply NoDup_singleton]. intros x Hx ->%list_elem_of_singleton. done.
    + intros a. rewrite <- Hs, elem_of_app, Hin, list_elem_of_singleton. split.
      * intros [(e' & He & Ha)| ->]; [exists e'|exists e]; (split; [apply elem_of_app|done]); [by left|right; by apply list_elem_of_singleton].
      * intros (e' & [He|He%list_elem_of_singleton]%elem_of_app & Ha); [left; by exists e'|]. subst. rewrite Hdep in Ha. injection Ha as <-. by right.
Qed.

Lemma scan_events_ok classHash d later earlier found found' : found_ok classHash earlier found -> scan_events classHash d later found = Some found' ->
  found_ok classHash (earlier ++ later)%list found'.
Proof.
  revert earlier found. induction later as [|e later IH]; intros earlier found Hf; cbn [scan_events]; [intros [= <-]; by rewrite app_nil_r|].
  destruct (scan_event classHash d e found) as [found1|] eqn:He; [|done]. cbn [mbind option_bind]. intros Hl.
  rewrite cons_middle, app_assoc. eapply IH; [|exact Hl]. by eapply scan_event_ok.
Qed.

Lemma scan_events_app classHash d l1 l2 found :
  scan_events classHash d (l1 ++ l2)%list found = (scan_events classHash d l1 found ≫= scan_events classHash d l2).
Proof.
  revert found. induction l1 as [|e l1 IH]; intros found; [done|]. cbn. destruct (scan_event classHash d e found); [|done]. cbn. apply IH.
Qed.

Definition more (page : EventsPage) : bool := match ep_token page with Some (String _ _) => true | _ => false end.

(** The pages of a search that nobody interrupts. *)
Lemma pages_arrive provider c d latest pages final found scanned i s found' :
  ph_searches s !! i = Some (false, AwaitEvents c d latest found scanned) -> Forall (fun p => more p = true) pages -> more final = false ->
  scan_events c d (flat_map ep_events (pages ++ [final])%list) found = Some found' ->
  let s' := run_pools provider (map (fun p => EventsArrive i (Some p)) (pages ++ [final])%list) s in
  ph_search s' = Some {| se_results := rev (f_results found'); se_scannedBlocks := latest; se_totalBlocks := latest; se_done := true |} /\
  ph_searches s' !! i = Some (false, Finished).
Proof.
  revert found scanned s. induction pages as [|p pages IH]; intros found scanned s Hi Hall Hfinal Hscan; cbn [app map flat_map run_pools fold_left] in *;
    cbn [pools_step]; rewrite Hi; unfold events_arrive.
  - rewrite app_nil_r in Hscan. rewrite Hscan. unfold more in Hfinal. destruct (ep_token final) as [[|ch t]|]; try done;
      (split; [done|]); cbn; by rewrite list_lookup_alter, decide_True, Hi by done.
  - inversion Hall as [|? ? Hp Hps]; subst. rewrite scan_events_app in Hscan. destruct (scan_events c d (ep_events p) found) as [found1|]; [|done].
    cbn [mbind option_bind] in Hscan. unfold more in Hp. destruct (ep_token p) as [[|ch t]|]; try done. cbv zeta. eapply IH; [|done|done|exact Hscan].
    cbn. by rewrite list_lookup_alter, decide_True, Hi by done.
Qed.

(** What a search finds. A search that is not interrupted ends with the last page, and shows every address that a deployment of the class
    in any of its pages names, once whatever its spelling, the last found first. *)
Theorem search_finds_deployments s z latest pages final found :
  BigInt_of_string (ph_class s) = Some z -> Forall (fun p => more p = true) pages -> more final = false ->
  scan_events (sn_toHex z) (ph_default s) (flat_map ep_events (pages ++ [final])%list) nothing_found = Some found ->
  let i := length (ph_searches s) in
  let s' := run_pools true (CallSearch :: BlockArrives i (Some latest) :: map (fun p => EventsArrive i (Some p)) (pages ++ [final])%list) s in
  exists results, ph_search s' = Some {| se_results := results; se_scannedBlocks := latest; se_totalBlocks := latest; se_done := true |} /\
    NoDup (map (fun p => toLowerCase (pe_address p)) results) /\
    forall a, a ∈ map (fun p => toLowerCase (pe_address p)) results <->
      exists page e, page ∈ (pages ++ [final])%list /\ e ∈ ep_events page /\ deployed (sn_toHex z) e = Some a.
Proof.
  intros Hz Hall Hfinal Hscan i s'.
  assert (Hlen : length (ph_searches (stopSearch s)) = i) by (unfold stopSearch; destruct (ph_abort s); cbn; by rewrite ?length_alter).
  assert (Hsame : ph_class (stopSearch s) = ph_class s /\ ph_default (stopSearch s) = ph_default s) by (unfold stopSearch; by destruct (ph_abort s)).
  destruct Hsame as [Hc Hd]. set (s1 := pools_step true s CallSearch).
  assert (H1 : ph_searches s1 !! i = Some (false, AwaitBlock (sn_toHex z) (ph_default s))).
  { unfold s1. cbn [pools_step searchPools with_searches ph_searches]. rewrite lookup_app_r, Hlen, Nat.sub_diag by lia. cbn. by rewrite Hc, Hz, Hd. }
  set (s2 := pools_step true s1 (BlockArrives i (Some latest))).
  assert (H2 : ph_searches s2 !! i = Some (false, AwaitEvents (sn_toHex z) (ph_default s) latest nothing_found 0)).
  { unfold s2. cbn [pools_step]. rewrite H1. unfold block_arrives, goes_on. cbn [ph_searches with_searches with_search]. by rewrite list_lookup_alter, decide_True, H1 by done. }
  destruct (pages_arrive true _ _ _ _ _ _ _ _ _ _ H2 Hall Hfinal Hscan) as [Hs _]. exists (rev (f_results found)). split; [exact Hs|].
  assert (Hnone : found_ok (sn_toHex z) [] nothing_found).
  { split_and!; [done|apply NoDup_nil_2|]. intros a. split; [by intros ?%elem_of_nil|]. by intros (e & ?%elem_of_nil & _). }
  destruct (scan_events_ok _ _ _ _ _ _ Hnone Hscan) as (Hseen & Hn & Hin). rewrite map_rev.
  assert (Hrev : rev (map (fun p => toLowerCase (pe_address p)) (f_results found)) ≡ₚ f_seen found) by (by rewrite <- Permutation_rev, Hseen).
  split; [by rewrite Hrev|]. intros a. rewrite Hrev, Hin. cbn [app]. split.
  - intros (e & He & Ha). apply list_elem_of_In in He. apply in_flat_map in He as (page & Hpg & He). exists page, e. rewrite !list_elem_of_In. done.
  - intros (page & e & Hpg & He & Ha). exists e. split; [|done]. rewrite list_elem_of_In in Hpg. rewrite list_elem_of_In in He. apply list_elem_of_In, in_flat_map. by exists page.
Qed.
End SearchFinds.

(** *** One search at a time *)

Section OneSearch.
Context `{StarknetNum} (provider : bool).

(** A search that can still show something is the one that a stop aborts. *)
Definition one_search (s : PoolHook) : Prop :=
  forall i t, ph_searches s !! i = Some (false, t) -> t <> Finished -> ph_abort s = Some i.

Lemma one_search_goes_on i t s : one_search s -> (t <> Finished -> exists t0, ph_searches s !! i = Some (false, t0) /\ t0 <> Finished) ->
  one_search (goes_on i t s).
Proof.
  intros Ho Ht j t' Hj Hne. cbn in *. rewrite list_lookup_alter in Hj. case_decide as Hij; [subst j|by eapply Ho].
  destruct (ph_searches s !! i) as [[b t0]|] eqn:Hi; [|done]. cbn in Hj. injection Hj as -> ->.
  destruct (Ht Hne) as (t1 & [= <-] & Hne1). by apply (Ho i t0).
Qed.

Lemma one_search_stop s : one_search s -> one_search (stopSearch s) /\ ph_abort (stopSearch s) = None.
Proof.
  intros Ho. unfold stopSearch. destruct (ph_abort s) as [k|] eqn:Hk; [|done]. split; [|done]. intros j t Hj Hne. cbn in *. rewrite list_lookup_alter in Hj.
  case_decide as Hkj; [subst j; by destruct (ph_searches s !! k) as [[? ?]|]|]. specialize (Ho j t Hj Hne). rewrite Hk in Ho. congruence.
Qed.

Lemma one_search_step s ev : one_search s -> one_search (pools_step provider s ev).
Proof.
  intros Ho. destruct ev as [a|e|d c| | | |i answer|i answer]; cbn [pools_step]; try done.
  - by apply one_search_stop.
  - unfold searchPools. destruct provider; [|done]. destruct (one_search_stop s Ho) as [Hs Ha]. intros j t Hj Hne. cbn in *.
    apply lookup_app_Some in Hj as [Hj|[Hl Hj]]; [specialize (Hs j t Hj Hne); congruence|]. apply list_lookup_singleton_Some in Hj as [Hj _]. f_equal. lia.
  - by apply one_search_stop.
  - by apply one_search_stop.
  - destruct (ph_searches s !! i) as [[b [c d| |]]|] eqn:Hi; try done. destruct answer as [latest|]; apply one_search_goes_on; try done.
    destruct b; [done|]. intros _. eexists. split; [exact Hi|done].
  - destruct (ph_searches s !! i) as [[b [| c d latest found scanned|]]|] eqn:Hi; try done.
    assert (Hshow : forall search, one_search (show b search s)) by (by destruct b).
    unfold events_arrive, search_fails. destruct answer as [page|]; [|by apply one_search_goes_on].
    destruct (scan_events c d (ep_events page) found); [|by apply one_search_goes_on]. destruct (ep_token page) as [[|ch tok]|]; try (apply one_search_goes_on; [by destruct b|done]).
    apply one_search_goes_on; [done|]. destruct b; [done|]. intros _. eexists. split; [exact Hi|done].
Qed.

(** In every run at most one search can still show something, and it is the one that [stopSearch], [closeSearch] and the next search abort. *)
Theorem searches_are_exclusive events s : one_search s ->
  let s' := run_pools provider events s in
  one_search s' /\ forall i j t t', ph_searches s' !! i = Some (false, t) -> t <> Finished -> ph_searches s' !! j = Some (false, t') -> t' <> Finished -> i = j.
Proof.
  intros Ho s'. assert (Hs : one_search s').
  { unfold s', run_pools. clear s'. revert s Ho. induction events as [|ev events IH]; intros s Ho; [done|]. by apply IH, one_search_step. }
  split; [exact Hs|]. intros i j t t' Hi Hne Hj Hne'. pose proof (Hs i t Hi Hne) as H1. pose proof (Hs j t' Hj Hne') as H2. congruence.
Qed.
End OneSearch.

(** *** A search that cannot be closed *)

Definition deployment (address class : string) (block : Z) : DeployedEvent := {| de_data := [address; "0x0"; "0x0"; class]; de_block := Some block |}.
Definition page_of (events : list DeployedEvent) (token : option string) : option EventsPage := Some {| ep_events := events; ep_token := token |}.
Definition fresh_pools : PoolHook := open_pools "0xAA" "0x09" None.

Example pools_are_found :
  (fun p => (map pe_address (se_results p), map pe_isDefault (se_results p), se_done p))
    <$> ph_search (@run_pools toy_num true
          [CallSearch; BlockArrives 0 (Some 100); EventsArrive 0 (page_of [deployment "0xaa" "0x9" 5; deployment "0xbb" "0x8" 6] (Some "next"));
           EventsArrive 0 (page_of [deployment "0xAA" "0x9" 7; deployment "0xcc" "0x09" 8] None)] fresh_pools)
  = Some (["0xcc"; "0xaa"], [false; true], true).
Proof. vm_compute. reflexivity. Qed.

(** Closing a search before the block number arrives is undone: the search is shown again, and it never ends. *)
Example closed_search_comes_back :
  let s := @run_pools toy_num true [CallSearch; CallClose; BlockArrives 0 (Some 100)] fresh_pools in
  ph_search s = Some {| se_results := []; se_scannedBlocks := 0; se_totalBlocks := 100; se_done := false |} /\ ph_searches s = [(true, Finished)].
Proof. vm_compute. split; reflexivity. Qed.
