(* ===== verification/DemoServices.v ===== *)
(** * Settings and services of the demo ([demo/src/config.ts], [starknet.ts], [proof-provider.ts], [useServiceHealth.ts], [useTokenMetadata.ts])

    How the demo reads its settings, which discovery and proving service it talks to, what its health
    bar shows of them, and the token metadata it fetches once. The checks and fetches that are in flight
    arrive in any order; values of settings have the types that the code casts parsed JSON to. *)
From Stdlib Require Import Ascii ZArith Lia.
From stdpp Require Import base tactics list strings.
From S2P Require Import Prelude JsMap Convert Interfaces PoolTransaction Proving DemoFlows.

Local Open Scope string_scope.
Local Open Scope Z_scope.

(** ** Settings ([config.ts]) *)

Inductive settings_error : Type :=
| MissingEnv (key : string) | TokensNotJson | PoolsNotArray | VesuNotJson | UnknownVaultToken (name : string) | NotANumber (address : string) | BadKeyConfig.

Record VesuVaultEntry : Type := { ve_token : string; ve_vTokenAddress : string }.
Record VesuVault : Type := { va_tokenConfig : TokenConfig; va_vTokenAddress : string }.
Record VesuConfig : Type := { vs_anonymizerAddress : string; vs_vaults : list VesuVault }.
Record EkuboSettings : Type := {
  es_coreAddress : string; es_routerAddress : string; es_executorAddress : string; es_pools : list EkuboPool; es_swapTokens : list TokenConfig }.

Record Settings : Type := {
  st_rpcUrl : string;
  st_indexerUrl : string;
  st_poolAddress : string;
  st_poolClassHash : string;
  st_compliancePublicKey : string;
  st_proofValidityBlocks : string;
  st_tokens : list TokenConfig;
  st_chainId : string;
  st_provingServiceUrl : option string;
  st_backendIndexerUrl : option string;
  st_backendProverUrl : option string;
  st_ohttpKeyConfig : option (list Z);
  st_gatewayUrl : option string;
  st_feederGatewayUrl : option string;
  st_explorerUrl : option string;
  st_ekubo : option EkuboSettings;
  st_vesu : option VesuConfig;
  st_ohttpEnabled : option bool;
  st_paymasterUrl : option string;
  st_paymasterFeeToken : option string;
  st_avnuApiKey : option string;
  st_paymasterForwarderAddress : option string;
  st_feeAmount : option Z;
  st_feeCollectorAddress : option string;
}.

(** [BigInt] of an address in the settings. *)
Definition address_number (address : string) : result settings_error Z :=
  match BigInt_of_string address with Some z => Ok z | None => Err (NotANumber address) end.
Definition vault_name (t : TokenConfig) : string := "v" +:+ tk_name t.
Definition vToken_of (vault : VesuVault) : TokenConfig :=
  {| tk_name := vault_name (va_tokenConfig vault); tk_address := va_vTokenAddress vault; tk_decimals := 18; tk_fee := None; tk_mintEntrypoint := None |}.

(** [map] with exceptions, and [Set.prototype.add]. *)
Fixpoint map_result {E A B} (f : A -> result E B) (l : list A) : result E (list B) :=
  match l with [] => Ok [] | x :: l => y ← f x; r ← map_result f l; Ok (y :: r) end.
Definition add_number (z : Z) (s : list Z) : list Z := if bool_decide (z ∈ s) then s else (s ++ [z])%list.

Section Load.
(** [import.meta.env], and [JSON.parse] of the settings with [atob]; [None] when they throw. *)
Context (env : string -> option string).
Context (parse_tokens : string -> option (list TokenConfig)) (parse_pools : string -> option (list EkuboPool))
  (parse_vaults : string -> option (list VesuVaultEntry)) (atob : string -> option (list Z)).

Definition requireEnv (key : string) : result settings_error string :=
  match given (env key) with Some value => Ok value | None => Err (MissingEnv key) end.

(** The addresses of the tokens as numbers, the last token of an address counts. *)
Definition tokenByBigInt (tokens : list TokenConfig) : result settings_error (jsmap Z TokenConfig) :=
  entries ← map_result (fun t => z ← address_number (tk_address t); Ok (z, t)) tokens; Ok (map_of_entries entries).

Fixpoint addressesInPools (pools : list EkuboPool) (addresses : list Z) : result settings_error (list Z) :=
  match pools with
  | [] => Ok addresses
  | pool :: pools =>
      t0 ← address_number (ek_token0 pool);
      t1 ← address_number (ek_token1 pool);
      addressesInPools pools (add_number t1 (add_number t0 addresses))
  end.

Definition parseEkuboConfig (tokens : list TokenConfig) : result settings_error (option EkuboSettings) :=
  match given (env "VITE_EKUBO_EXECUTOR_ADDRESS") with
  | None => Ok None
  | Some executorAddress =>
      poolsRaw ← requireEnv "VITE_EKUBO_POOLS";
      match parse_pools poolsRaw with
      | None => Err PoolsNotArray
      | Some pools =>
          byBigInt ← tokenByBigInt tokens;
          addresses ← addressesInPools pools [];
          coreAddress ← requireEnv "VITE_EKUBO_CORE_ADDRESS";
          routerAddress ← requireEnv "VITE_EKUBO_ROUTER_ADDRESS";
          Ok (Some {| es_coreAddress := coreAddress; es_routerAddress := routerAddress; es_executorAddress := executorAddress;
                      es_pools := pools; es_swapTokens := omap (fun address => map_get address byBigInt) addresses |})
      end
  end.

Definition parseVesuConfig (tokens : list TokenConfig) : result settings_error (option VesuConfig) :=
  match given (env "VITE_VESU_LENDING_HELPER_ADDRESS") with
  | None => Ok None
  | Some anonymizerAddress =>
      raw ← requireEnv "VITE_VESU";
      match parse_vaults raw with
      | None => Err VesuNotJson
      | Some entries =>
          let tokenByName := map_of_entries (map (fun t => (tk_name t, t)) tokens) in
          vaults ← map_result (fun vault => match map_get (ve_token vault) tokenByName with
                                            | Some t => Ok {| va_tokenConfig := t; va_vTokenAddress := ve_vTokenAddress vault |}
                                            | None => Err (UnknownVaultToken (ve_token vault))
                                            end) entries;
          Ok (Some {| vs_anonymizerAddress := anonymizerAddress; vs_vaults := vaults |})
      end
  end.

(** The loop that appends the vault tokens that are not listed yet. *)
Fixpoint push_vTokens (vaults : list VesuVault) (known : list Z) (tokens : list TokenConfig) : result settings_error (list TokenConfig) :=
  match vaults with
  | [] => Ok tokens
  | vault :: vaults =>
      z ← address_number (va_vTokenAddress vault);
      if bool_decide (z ∈ known) then push_vTokens vaults known tokens
      else push_vTokens vaults (known ++ [z])%list (tokens ++ [vToken_of vault])%list
  end.

Definition list_tokens (vesu : option VesuConfig) (tokens : list TokenConfig) : result settings_error (list TokenConfig) :=
  match vesu with
  | None => Ok tokens
  | Some vesu => known ← map_result (fun t => address_number (tk_address t)) tokens; push_vTokens (vs_vaults vesu) known tokens
  end.

Definition loadConfig : result settings_error Settings :=
  tokensRaw ← requireEnv "VITE_TOKENS";
  tokens ← match parse_tokens tokensRaw with Some tokens => Ok tokens | None => Err TokensNotJson end;
  ekubo ← parseEkuboConfig tokens;
  vesu ← parseVesuConfig tokens;
  tokens ← list_tokens vesu tokens;
  rpcUrl ← requireEnv "VITE_RPC_URL";
  indexerUrl ← requireEnv "VITE_INDEXER_URL";
  poolAddress ← requireEnv "VITE_POOL_ADDRESS";
  poolClassHash ← requireEnv "VITE_POOL_CLASS_HASH";
  compliancePublicKey ← requireEnv "VITE_COMPLIANCE_PUBLIC_KEY";
  chainId ← requireEnv "VITE_CHAIN_ID";
  ohttpKeyConfig ← match given (env "VITE_OHTTP_KEY_CONFIG") with
                   | Some text => match atob text with Some bytes => Ok (Some bytes) | None => Err BadKeyConfig end
                   | None => Ok None
                   end;
  Ok {| st_rpcUrl := rpcUrl; st_indexerUrl := indexerUrl; st_poolAddress := poolAddress; st_poolClassHash := poolClassHash;
        st_compliancePublicKey := compliancePublicKey; st_proofValidityBlocks := default "450" (given (env "VITE_PROOF_VALIDITY_BLOCKS"));
        st_tokens := tokens; st_chainId := chainId; st_provingServiceUrl := env "VITE_PROVING_SERVICE_URL";
        st_backendIndexerUrl := env "VITE_BACKEND_INDEXER_URL"; st_backendProverUrl := env "VITE_BACKEND_PROVER_URL";
        st_ohttpKeyConfig := ohttpKeyConfig; st_gatewayUrl := env "VITE_GATEWAY_URL"; st_feederGatewayUrl := env "VITE_FEEDER_GATEWAY_URL";
        st_explorerUrl := env "VITE_EXPLORER_URL"; st_ekubo := ekubo; st_vesu := vesu; st_ohttpEnabled := None;
        st_paymasterUrl := env "VITE_PAYMASTER_URL"; st_paymasterFeeToken := env "VITE_PAYMASTER_FEE_TOKEN"; st_avnuApiKey := env "VITE_AVNU_API_KEY";
        st_paymasterForwarderAddress := env "VITE_PAYMASTER_FORWARDER_ADDRESS"; st_feeAmount := None; st_feeCollectorAddress := None |}.
End Load.

(** What the flows read of the settings ([DemoFlows.AppConfig]). *)
Definition flow_ekubo (e : EkuboSettings) : EkuboConfig :=
  {| ek_routerAddress := es_routerAddress e; ek_executorAddress := es_executorAddress e; ek_pools := es_pools e |}.
Definition flow_config (s : Settings) : AppConfig :=
  {| tokens := st_tokens s; ekubo := flow_ekubo <$> st_ekubo s; vesu_anonymizerAddress := vs_anonymizerAddress <$> st_vesu s;
     paymasterUrl := st_paymasterUrl s; paymasterFeeToken := st_paymasterFeeToken s; feeAmount := st_feeAmount s |}.

(** [initFeeConfig]: the answers of [get_fee_amount] and [get_fee_collector], [None] when one of the calls fails; the settings are
    changed field by field, and a first fee that is no number leaves both as they were. *)
Definition initFeeConfig (s : Settings) (answers : option (list string * list string)) : Settings :=
  match st_feeAmount s with
  | Some _ => s
  | None =>
      match (a ← answers; amountResult ← head a.1; feeAmount ← BigInt_of_string amountResult; Some (feeAmount, a.2)) with
      | None => s
      | Some (amount, collectorResult) =>
          {| st_rpcUrl := st_rpcUrl s; st_indexerUrl := st_indexerUrl s; st_poolAddress := st_poolAddress s; st_poolClassHash := st_poolClassHash s;
             st_compliancePublicKey := st_compliancePublicKey s; st_proofValidityBlocks := st_proofValidityBlocks s;
             st_tokens := st_tokens s; st_chainId := st_chainId s; st_provingServiceUrl := st_provingServiceUrl s;
             st_backendIndexerUrl := st_backendIndexerUrl s; st_backendProverUrl := st_backendProverUrl s;
             st_ohttpKeyConfig := st_ohttpKeyConfig s; st_gatewayUrl := st_gatewayUrl s; st_feederGatewayUrl := st_feederGatewayUrl s;
             st_explorerUrl := st_explorerUrl s; st_ekubo := st_ekubo s; st_vesu := st_vesu s; st_ohttpEnabled := st_ohttpEnabled s;
             st_paymasterUrl := st_paymasterUrl s; st_paymasterFeeToken := st_paymasterFeeToken s; st_avnuApiKey := st_avnuApiKey s;
             st_paymasterForwarderAddress := st_paymasterForwarderAddress s; st_feeAmount := Some amount; st_feeCollectorAddress := head collectorResult |}
      end
  end.

(** ** Services ([starknet.ts]) *)

(** The [ohttp] option of a provider: [true], or a relay and a pinned key. *)
Inductive ohttp_option : Type := OhttpDefault | OhttpWith (relayUrl : option string) (publicKeyConfig : option (list Z)).
(** The arguments of [new IndexerDiscoveryProvider]. *)
Record DiscoveryChoice : Type := { dc_url : string; dc_pool : string; dc_ohttp : option ohttp_option }.

Definition createDiscoveryProvider (s : Settings) (poolAddress : string) : DiscoveryChoice :=
  match st_ohttpEnabled s with
  | Some false => {| dc_url := st_indexerUrl s; dc_pool := poolAddress; dc_ohttp := None |}
  | _ =>
      match given (st_backendIndexerUrl s) with
      | Some backend => {| dc_url := backend; dc_pool := poolAddress; dc_ohttp := Some (OhttpWith (Some (st_indexerUrl s)) (st_ohttpKeyConfig s)) |}
      | None => {| dc_url := st_indexerUrl s; dc_pool := poolAddress;
                   dc_ohttp := Some (match st_ohttpKeyConfig s with Some key => OhttpWith None (Some key) | None => OhttpDefault end) |}
      end
  end.

(** The prover of [createTransfers]: the service with its options, or the views of the pool. *)
Inductive ProverChoice : Type := ServiceProver (url chainId : string) (ohttp : option ohttp_option) | NoValidateProver (chainId : string).
Definition createTransfers_prover (s : Settings) : ProverChoice :=
  match given (st_provingServiceUrl s) with
  | Some url => ServiceProver url (st_chainId s) (match st_ohttpEnabled s with Some false => None | _ => Some OhttpDefault end)
  | None => NoValidateProver (st_chainId s)
  end.

(** [NoValidateProofProvider.prove] ([proof-provider.ts]): the answer of [execute_view] is the output; there is no proof. *)
Definition no_validate_prove (answer : result flow_error (list string)) : result flow_error Proof :=
  output ← answer; Ok {| pf_data := None; pf_output := output; pf_proofFacts := []; pf_additionalData := None |}.

(** [decodeFeltString]: pairs up to a zero byte; a pair that is no number has the character of code 0. *)
Fixpoint felt_chars (raw : string) : string :=
  let char pair rest := match parseInt16 pair with
                        | Some 0 => EmptyString
                        | Some n => String (ascii_of_nat (Z.to_nat (n mod 256))) rest
                        | None => String "000" rest
                        end in
  match raw with
  | EmptyString => EmptyString
  | String a EmptyString => char (String a EmptyString) EmptyString
  | String a (String b rest) => char (String a (String b EmptyString)) (felt_chars rest)
  end.
Definition decodeFeltString (hex : string) : string := felt_chars (match hex with String "0" (String "x" raw) => raw | _ => hex end).

Record TokenMetadata : Type := { tm_name : string; tm_symbol : string; tm_decimals : option Z }.
(** [getErc20Metadata] from the first values of the answers. *)
Definition getErc20Metadata (nameResult symbolResult decimalsResult : string) : TokenMetadata :=
  {| tm_name := decodeFeltString nameResult; tm_symbol := decodeFeltString symbolResult; tm_decimals := BigInt_of_string decimalsResult |}.

(** ** Health ([useServiceHealth.ts]) *)

Inductive HealthStatus : Type := checking | healthy | unhealthy | unknown.
Record SubsystemHealth : Type := { sh_status : HealthStatus; sh_detail : option string }.
Definition RPC_STALENESS_THRESHOLD_SECS : Z := 120.
Definition RPC_BLOCK_DIVERGENCE_THRESHOLD : Z := 0.
Definition pending : SubsystemHealth := {| sh_status := checking; sh_detail := None |}.
Definition dec (z : Z) : string := bigint_toString 10 z.

(** [checkDiscovery]: status and lag of the indexer, or the message of the error. *)
Definition checkDiscovery (answer : result string (string * option Z)) : SubsystemHealth :=
  match answer with
  | Ok (status, lag_secs) =>
      if String.eqb status "OK" then {| sh_status := healthy; sh_detail := (fun lag => "lag: " +:+ dec lag +:+ "s") <$> lag_secs |}
      else {| sh_status := unhealthy; sh_detail := Some ("status: " +:+ status) |}
  | Err message => {| sh_status := unhealthy; sh_detail := Some message |}
  end.

(** [checkRpc]: number and time of the latest block, and what the feeder gateway answers: [None] when it is not asked, does not
    answer or answers with an error. *)
Definition checkRpc (now_ms : Z) (block : result string (Z * Z)) (feeder : option Z) : SubsystemHealth :=
  match block with
  | Err message => {| sh_status := unhealthy; sh_detail := Some message |}
  | Ok (rpcBlockNumber, timestamp) =>
      let lagSecs := now_ms / 1000 - timestamp in
      if RPC_STALENESS_THRESHOLD_SECS <? lagSecs then {| sh_status := unhealthy; sh_detail := Some ("stale: " +:+ dec lagSecs +:+ "s behind") |}
      else
        let fine := {| sh_status := healthy; sh_detail := Some ("block " +:+ dec rpcBlockNumber +:+ ", lag: " +:+ dec lagSecs +:+ "s") |} in
        match feeder with
        | Some feederBlockNumber =>
            let divergence := Z.abs (rpcBlockNumber - feederBlockNumber) in
            if RPC_BLOCK_DIVERGENCE_THRESHOLD <? divergence then
              {| sh_status := unhealthy; sh_detail := Some ("block " +:+ dec rpcBlockNumber +:+ " vs feeder " +:+ dec feederBlockNumber +:+ " (" +:+ dec divergence +:+ " behind)") |}
            else fine
        | None => fine
        end
  end.

(** [checkAliveEndpoint]: the status of the response, [None] when it is unreachable. *)
Definition checkAliveEndpoint (response : option (bool * Z)) : SubsystemHealth :=
  match response with
  | Some (true, _) => {| sh_status := healthy; sh_detail := None |}
  | Some (false, status) => {| sh_status := unhealthy; sh_detail := Some ("HTTP " +:+ dec status) |}
  | None => {| sh_status := unknown; sh_detail := Some "unreachable (CORS?)" |}
  end.

(** [checkProving]: [isHealthy] of the service, or the message of the error. *)
Definition checkProving (answer : result string bool) : SubsystemHealth :=
  match answer with
  | Ok true => {| sh_status := healthy; sh_detail := None |}
  | Ok false => {| sh_status := unhealthy; sh_detail := Some "spec version check failed" |}
  | Err message => {| sh_status := unhealthy; sh_detail := Some message |}
  end.

(** The subsystems, and the state of the health bar: what is shown of each, [None] for those that are not configured. *)
Inductive subsystem : Type := SDiscovery | SRpc | SProving | SGateway | SFeederGateway.
#[export] Instance subsystem_eq_dec : EqDecision subsystem.
Proof. solve_decision. Defined.
Definition ServiceHealthState : Type := subsystem -> option SubsystemHealth.

Definition is_configured (s : Settings) (key : subsystem) : bool :=
  match key with
  | SDiscovery | SRpc => true
  | SProving => bool_decide (is_Some (given (st_provingServiceUrl s)))
  | SGateway => bool_decide (is_Some (given (st_gatewayUrl s)))
  | SFeederGateway => bool_decide (is_Some (given (st_feederGatewayUrl s)))
  end.
Definition initialState (s : Settings) : ServiceHealthState := fun key => if is_configured s key then Some pending else None.

(** The hook: the state, whether it is mounted, the checks in flight by number, and the results that arrived, in order. *)
Record health_hook : Type := {
  hh_state : ServiceHealthState;
  hh_mounted : bool;
  hh_next : nat;
  hh_inflight : list (nat * subsystem);
}.
Inductive health_event : Type := HealthPoll | HealthArrives (check : nat) (value : SubsystemHealth) | HealthUnmount.

(** [runChecks]: the checks that are configured. *)
Definition runChecks (s : Settings) (h : health_hook) : health_hook :=
  let keys := filter (fun key => is_configured s key = true) [SDiscovery; SRpc; SProving; SGateway; SFeederGateway] in
  {| hh_state := hh_state h; hh_mounted := hh_mounted h; hh_next := hh_next h + length keys;
     hh_inflight := hh_inflight h ++ imap (fun i key => ((hh_next h + i)%nat, key)) keys |}.
Definition mount_health (s : Settings) : health_hook :=
  runChecks s {| hh_state := initialState s; hh_mounted := true; hh_next := 0; hh_inflight := [] |}.

Definition health_step (s : Settings) (h : health_hook) (e : health_event) : health_hook :=
  match e with
  | HealthPoll => if hh_mounted h then runChecks s h else h
  | HealthUnmount => {| hh_state := hh_state h; hh_mounted := false; hh_next := hh_next h; hh_inflight := hh_inflight h |}
  | HealthArrives check value =>
      match map_get check (hh_inflight h) with
      | None => h
      | Some key =>
          {| hh_state := if hh_mounted h then fun k => if decide (k = key) then Some value else hh_state h k else hh_state h;
             hh_mounted := hh_mounted h; hh_next := hh_next h; hh_inflight := map_delete check (hh_inflight h) |}
      end
  end.
Definition health_run (s : Settings) (events : list health_event) : health_hook := fold_left (health_step s) events (mount_health s).

(** ** Token metadata ([useTokenMetadata.ts]) *)

(** The metadata that is shown, the addresses that were fetched, and the batches in flight by number. *)
Record metadata_hook : Type := {
  mh_metadata : jsmap string TokenMetadata;
  mh_fetched : list string;
  mh_next : nat;
  mh_inflight : list (nat * list string);
}.
Definition no_metadata : metadata_hook := {| mh_metadata := []; mh_fetched := []; mh_next := 0; mh_inflight := [] |}.
Inductive metadata_event : Type := Shows (tokenAddresses : list string) | BatchFetched (batch : nat) (read : string -> TokenMetadata) | BatchFailed (batch : nat).

Definition fetch_missing (tokenAddresses : list string) (h : metadata_hook) : metadata_hook :=
  match filter (fun a => a ∉ mh_fetched h) tokenAddresses with
  | [] => h
  | absent => {| mh_metadata := mh_metadata h; mh_fetched := fold_left (fun l a => if bool_decide (a ∈ l) then l else (l ++ [a])%list) absent (mh_fetched h);
                  mh_next := S (mh_next h); mh_inflight := mh_inflight h ++ [(mh_next h, absent)] |}
  end.

(** A failed [Promise.all] changes nothing: its addresses stay fetched. *)
Definition metadata_step (h : metadata_hook) (e : metadata_event) : metadata_hook :=
  match e with
  | Shows tokenAddresses => fetch_missing tokenAddresses h
  | BatchFetched batch read =>
      match map_get batch (mh_inflight h) with
      | Some absent => {| mh_metadata := fold_left (fun m a => map_set a (read a) m) absent (mh_metadata h); mh_fetched := mh_fetched h;
                           mh_next := mh_next h; mh_inflight := map_delete batch (mh_inflight h) |}
      | None => h
      end
  | BatchFailed batch => {| mh_metadata := mh_metadata h; mh_fetched := mh_fetched h; mh_next := mh_next h; mh_inflight := map_delete batch (mh_inflight h) |}
  end.
Definition metadata_run (events : list metadata_event) : metadata_hook := fold_left metadata_step events no_metadata.

(** ** Settings: properties *)

Abbreviation number_of t := (BigInt_of_string (tk_address t)).

Lemma address_number_ok a z : address_number a = Ok z <-> BigInt_of_string a = Some z.
Proof. unfold address_number. destruct (BigInt_of_string a); naive_solver. Qed.

Lemma map_result_ok {E A B} (f : A -> result E B) l r : map_result f l = Ok r -> Forall2 (fun x y => f x = Ok y) l r.
Proof.
  revert r. induction l as [|x l IH]; intros r; cbn [map_result]; [intros [= <-]; constructor|].
  intros Hr. apply bind_ok in Hr as (y & Hy & Hr). apply bind_ok in Hr as (r' & Hr' & Hr). apply Ok_inj in Hr as <-.
  constructor; [done|by apply IH].
Qed.

Lemma add_number_spec z s : NoDup s -> NoDup (add_number z s) /\ forall x, x ∈ add_number z s <-> x = z \/ x ∈ s.
Proof.
  intros Hs. unfold add_number. destruct (decide (z ∈ s)) as [Hz|Hz].
  - rewrite bool_decide_eq_true_2 by done. split; [done|]. intros x. split; [by right|intros [->|?]; done].
  - rewrite bool_decide_eq_false_2 by done. split.
    + apply NoDup_app. split_and!; [done| |apply NoDup_singleton]. intros x Hx ->%list_elem_of_singleton. done.
    + intros x. rewrite elem_of_app, list_elem_of_singleton. tauto.
Qed.

(** Both tokens of every pool are numbers, and the set holds exactly them. *)
Lemma pool_addresses pools addresses r : addressesInPools pools addresses = Ok r -> NoDup addresses ->
  NoDup r /\ Forall (fun pool => exists z0 z1, BigInt_of_string (ek_token0 pool) = Some z0 /\ BigInt_of_string (ek_token1 pool) = Some z1 /\ z0 ∈ r /\ z1 ∈ r) pools /\
  (forall z, z ∈ addresses -> z ∈ r).
Proof.
  revert addresses. induction pools as [|pool pools IH]; intros addresses; cbn [addressesInPools]; [intros [= <-] Hnd; by split_and!|].
  intros Hr Hnd. apply bind_ok in Hr as (z0 & H0 & Hr). apply bind_ok in Hr as (z1 & H1 & Hr). rewrite address_number_ok in H0, H1.
  destruct (add_number_spec z0 addresses Hnd) as [Hnd0 Hin0]. destruct (add_number_spec z1 _ Hnd0) as [Hnd1 Hin1].
  destruct (IH _ Hr Hnd1) as (Hnd' & Hall & Hkeep). split_and!; [done| |].
  - constructor; [|done]. exists z0, z1. split_and!; [done|done|apply Hkeep, Hin1; right; apply Hin0; by left|apply Hkeep, Hin1; by left].
  - intros z Hz. apply Hkeep, Hin1. right. apply Hin0. by right.
Qed.

(** The loop over the vaults appends a token for each number that is not listed yet. *)
Lemma push_vTokens_spec vaults known toks r : push_vTokens vaults known toks = Ok r -> Forall2 (fun t z => number_of t = Some z) toks known ->
  exists added ks, r = (toks ++ added)%list /\ Forall2 (fun t z => number_of t = Some z) added ks /\ NoDup ks /\ (forall k, k ∈ ks -> k ∉ known) /\
    Forall (fun t => exists vault, vault ∈ vaults /\ t = vToken_of vault) added /\
    Forall (fun vault => exists z, BigInt_of_string (va_vTokenAddress vault) = Some z /\ (z ∈ known \/ z ∈ ks)) vaults.
Proof.
  revert known toks. induction vaults as [|vault vaults IH]; intros known toks; cbn [push_vTokens].
  { intros [= <-] _. exists [], []. rewrite app_nil_r. split_and!; try constructor. by intros k []%elem_of_nil. }
  intros Hr Hk. apply bind_ok in Hr as (z & Hz & Hr). apply address_number_ok in Hz. destruct (decide (z ∈ known)) as [Hin|Hin].
  - rewrite bool_decide_eq_true_2 in Hr by done. destruct (IH _ _ Hr Hk) as (added & ks & -> & Hn & Hnd & Hfresh & Hadd & Hall). exists added, ks.
    split_and!; try done; [|constructor; [exists z; by split; [|left]|done]]. apply (Forall_impl _ _ _ Hadd). intros t (v & Hv & ->). exists v. split; [by right|done].
  - rewrite bool_decide_eq_false_2 in Hr by done.
    destruct (IH _ _ Hr) as (added & ks & -> & Hn & Hnd & Hfresh & Hadd & Hall); [apply Forall2_app; [done|by repeat constructor]|].
    exists (vToken_of vault :: added), (z :: ks). rewrite <- app_assoc. split_and!; [done|by constructor| | | |].
    + apply NoDup_cons. split; [|done]. intros Hz'. apply (Hfresh z Hz'), elem_of_app. right. by apply list_elem_of_singleton.
    + intros k [->|Hk']%elem_of_cons Hknown; [done|]. apply (Hfresh k Hk'), elem_of_app. by left.
    + constructor; [exists vault; split; [by left|done]|]. apply (Forall_impl _ _ _ Hadd). intros t (v & Hv & ->). exists v. split; [by right|done].
    + constructor; [exists z; split; [done|right; by left]|]. apply (Forall_impl _ _ _ Hall).
      intros v (z' & Hz' & [Hi|Hi]); exists z'; (split; [done|]); [|by right; right].
      apply elem_of_app in Hi as [Hi|Hi%list_elem_of_singleton]; [by left|subst; right; by left].
Qed.

Lemma parsed_ekubo env parse_pools toks e : parseEkuboConfig env parse_pools toks = Ok (Some e) ->
  exists byBigInt addresses, tokenByBigInt toks = Ok byBigInt /\ addressesInPools (es_pools e) [] = Ok addresses /\
    es_swapTokens e = omap (fun address => map_get address byBigInt) addresses.
Proof.
  unfold parseEkuboConfig. destruct (given (env _)) as [executor|]; [|done]. intros He. apply bind_ok in He as (raw & _ & He).
  destruct (parse_pools raw) as [pools|]; [|done]. apply bind_ok in He as (m & Hm & He). apply bind_ok in He as (l & Hl & He).
  apply bind_ok in He as (core & _ & He). apply bind_ok in He as (router & _ & He). apply Ok_inj in He. injection He as <-. by exists m, l.
Qed.

Lemma of_entries_in {K V} `{EqDecision K} (l : list (K * V)) k v : map_get k (map_of_entries l) = Some v -> (k, v) ∈ l.
Proof.
  unfold map_of_entries. enough (H : forall m, map_get k (fold_left (fun m e => map_set e.1 e.2 m) l m) = Some v -> map_get k m = Some v \/ (k, v) ∈ l)
    by (intros [Hk|Hk]%H; [done|exact Hk]).
  induction l as [|[k' v'] l IH]; intros m; cbn [fold_left fst snd]; [by left|]. intros [Hk|Hk]%IH; [|right; by right].
  rewrite map_get_set in Hk. destruct (decide (k = k')) as [->|]; [injection Hk as ->; right; by left|by left].
Qed.

Lemma of_entries_has {K V} `{EqDecision K} (l : list (K * V)) k v : (k, v) ∈ l -> is_Some (map_get k (map_of_entries l)).
Proof.
  unfold map_of_entries. enough (H : forall m, is_Some (map_get k m) \/ (k, v) ∈ l -> is_Some (map_get k (fold_left (fun m e => map_set e.1 e.2 m) l m)))
    by (intros Hl; apply H; by right).
  induction l as [|[k' v'] l IH]; intros m; cbn [fold_left fst snd]; [by intros [?|[]%elem_of_nil]|]. intros Hm. apply IH. rewrite map_get_set.
  destruct (decide (k = k')) as [->|Hk]; [left; eauto|]. destruct Hm as [Hm|[[= -> ->]|Hm]%elem_of_cons]; [by left|done|by right].
Qed.

Lemma by_big_int toks m : tokenByBigInt toks = Ok m ->
  (forall z t, map_get z m = Some t -> t ∈ toks /\ number_of t = Some z) /\ forall t z, t ∈ toks -> number_of t = Some z -> is_Some (map_get z m).
Proof.
  unfold tokenByBigInt. intros Hm. apply bind_ok in Hm as (entries & He & Hm). apply Ok_inj in Hm as <-. apply map_result_ok in He. split.
  - intros z t Hz%of_entries_in. apply list_elem_of_lookup in Hz as [i Hi]. destruct (Forall2_lookup_r _ _ _ _ _ He Hi) as (t' & Ht' & H).
    apply bind_ok in H as (z' & Hz' & H). apply Ok_inj in H. injection H as -> ->. apply address_number_ok in Hz'.
    split; [apply list_elem_of_lookup; eauto|done].
  - intros t z Ht Hz. apply list_elem_of_lookup in Ht as [i Hi]. destruct (Forall2_lookup_l _ _ _ _ _ He Hi) as (e & He' & H).
    apply bind_ok in H as (z' & Hz' & H). apply Ok_inj in H as <-. apply address_number_ok in Hz'. rewrite Hz in Hz'. injection Hz' as <-.
    eapply of_entries_has, list_elem_of_lookup. eauto.
Qed.

Section Loaded.
Context (env : string -> option string) (parse_tokens : string -> option (list TokenConfig)) (parse_pools : string -> option (list EkuboPool))
  (parse_vaults : string -> option (list VesuVaultEntry)) (atob : string -> option (list Z)) (s : Settings).
Context (Hload : loadConfig env parse_tokens parse_pools parse_vaults atob = Ok s).

Lemma loaded : exists raw base, requireEnv env "VITE_TOKENS" = Ok raw /\ parse_tokens raw = Some base /\
  parseEkuboConfig env parse_pools base = Ok (st_ekubo s) /\ parseVesuConfig env parse_vaults base = Ok (st_vesu s) /\
  list_tokens (st_vesu s) base = Ok (st_tokens s).
Proof.
  unfold loadConfig in Hload. apply bind_ok in Hload as (raw & Hraw & H). apply bind_ok in H as (base & Hbase & H).
  apply bind_ok in H as (ekubo & Hekubo & H). apply bind_ok in H as (vesu & Hvesu & H). apply bind_ok in H as (toks & Htoks & H).
  do 7 (apply bind_ok in H as (? & _ & H)). apply Ok_inj in H as <-. exists raw, base.
  split_and!; [done| |done..]. destruct (parse_tokens raw); [congruence|done].
Qed.
End Loaded.

(** The tokens of loaded settings are those of [VITE_TOKENS], in order, and then a token with 18 decimals for each vault whose number is not
    listed yet, no number twice; every vault's token can be shown. Swap tokens are tokens of [VITE_TOKENS], never those that were added,
    and every token of a pool that [VITE_TOKENS] lists is one. *)
Theorem settings_list_the_tokens env parse_tokens parse_pools parse_vaults atob s :
  loadConfig env parse_tokens parse_pools parse_vaults atob = Ok s ->
  exists base added ks, st_tokens s = (base ++ added)%list /\ Forall2 (fun t z => number_of t = Some z) added ks /\ NoDup ks /\
    (forall t z, t ∈ base -> number_of t = Some z -> z ∉ ks) /\ Forall (fun t => tk_decimals t = 18%nat) added /\
    (forall vesu vault, st_vesu s = Some vesu -> vault ∈ vs_vaults vesu ->
      va_tokenConfig vault ∈ base /\ exists t, t ∈ st_tokens s /\ number_of t = BigInt_of_string (va_vTokenAddress vault)) /\
    (forall e, st_ekubo s = Some e -> (forall t, t ∈ es_swapTokens e -> t ∈ base) /\
      forall pool t, pool ∈ es_pools e -> t ∈ base -> number_of t = BigInt_of_string (ek_token0 pool) \/ number_of t = BigInt_of_string (ek_token1 pool) ->
        exists t', t' ∈ es_swapTokens e /\ number_of t' = number_of t).
Proof.
  intros Hload. destruct (loaded _ _ _ _ _ _ Hload) as (raw & base & _ & _ & Hekubo & Hvesu & Htoks). exists base.
  assert (Hswap : forall e, st_ekubo s = Some e -> (forall t, t ∈ es_swapTokens e -> t ∈ base) /\
      forall pool t, pool ∈ es_pools e -> t ∈ base -> number_of t = BigInt_of_string (ek_token0 pool) \/ number_of t = BigInt_of_string (ek_token1 pool) ->
        exists t', t' ∈ es_swapTokens e /\ number_of t' = number_of t).
  { intros e He. rewrite He in Hekubo. destruct (parsed_ekubo _ _ _ _ Hekubo) as (m & l & Hm & Hl & Hs).
    destruct (by_big_int _ _ Hm) as [Hget Hhas]. destruct (pool_addresses _ _ _ Hl) as (_ & Hpools & _); [constructor|]. split.
    - intros t Ht. rewrite Hs in Ht. apply list_elem_of_omap in Ht as (z & _ & Hz). by apply Hget in Hz as [? _].
    - intros pool t Hp Ht Hn. rewrite Forall_forall in Hpools. destruct (Hpools pool Hp) as (z0 & z1 & H0 & H1 & Hi0 & Hi1).
      assert (Hz : exists z, number_of t = Some z /\ z ∈ l) by (destruct Hn as [->| ->]; [exists z0|exists z1]; done).
      destruct Hz as (z & Hz & Hin). destruct (Hhas t z Ht Hz) as [t' Ht']. exists t'. split; [|by destruct (Hget _ _ Ht') as [_ ->]].
      rewrite Hs. apply list_elem_of_omap. eauto. }
  destruct (st_vesu s) as [vesu|] eqn:Hv; cbn [list_tokens] in Htoks.
  - apply bind_ok in Htoks as (known & Hknown & Htoks). apply map_result_ok in Hknown.
    assert (Hk : Forall2 (fun t z => number_of t = Some z) base known) by (apply (Forall2_impl _ _ _ _ Hknown); intros t z; apply address_number_ok).
    destruct (push_vTokens_spec _ _ _ _ Htoks Hk) as (added & ks & Ht & Hn & Hnd & Hfresh & Hadd & Hall). exists added, ks.
    split_and!; [done..| | | |done].
    + intros t z Ht' Hz Hin. apply (Hfresh z Hin). apply list_elem_of_lookup in Ht' as [i Hi].
      destruct (Forall2_lookup_l _ _ _ _ _ Hk Hi) as (z' & Hz' & He). rewrite Hz in He. injection He as ->. apply list_elem_of_lookup. eauto.
    + apply (Forall_impl _ _ _ Hadd). by intros t (vault & _ & ->).
    + intros vesu' vault [= <-] Hin. split.
      * unfold parseVesuConfig in Hvesu. destruct (given (env _)); [|done]. apply bind_ok in Hvesu as (r & _ & Hvesu). destruct (parse_vaults r) as [entries|]; [|done].
        apply bind_ok in Hvesu as (vaults & Hvaults & Hvesu). apply Ok_inj in Hvesu. injection Hvesu as <-. apply map_result_ok in Hvaults. cbn in Hin.
        apply list_elem_of_lookup in Hin as [i Hi]. destruct (Forall2_lookup_r _ _ _ _ _ Hvaults Hi) as (entry & _ & He).
        destruct (map_get (ve_token entry) _) as [t|] eqn:Hg; [|done]. apply Ok_inj in He as <-. cbn. apply of_entries_in in Hg.
        apply list_elem_of_fmap in Hg as (t' & [= _ ->] & Ht'). done.
      * rewrite Forall_forall in Hall. destruct (Hall vault Hin) as (z & Hz & Hor). rewrite Hz, Ht.
        destruct Hor as [Hor|Hor]; apply list_elem_of_lookup in Hor as [i Hi].
        -- destruct (Forall2_lookup_r _ _ _ _ _ Hk Hi) as (t & Hti & Hnum). exists t. split; [apply elem_of_app; left; apply list_elem_of_lookup; eauto|done].
        -- destruct (Forall2_lookup_r _ _ _ _ _ Hn Hi) as (t & Hti & Hnum). exists t. split; [apply elem_of_app; right; apply list_elem_of_lookup; eauto|done].
  - injection Htoks as Htoks. exists [], []. rewrite app_nil_r. split_and!; try done; try constructor. by intros t z _ _ []%elem_of_nil.
Qed.

(** On loaded settings the flows find a pool or none for two numeric tokens: no address of a pool throws. *)
Theorem loaded_pools_are_readable env parse_tokens parse_pools parse_vaults atob s e fromToken toToken fromBig toBig :
  loadConfig env parse_tokens parse_pools parse_vaults atob = Ok s -> ekubo (flow_config s) = Some e ->
  BigInt_of_string fromToken = Some fromBig -> BigInt_of_string toToken = Some toBig ->
  exists pool, findEkuboPool e fromToken toToken = Ok pool /\
    match pool with
    | Some p => p ∈ ek_pools e /\ exists z0 z1, BigInt_of_string (ek_token0 p) = Some z0 /\ BigInt_of_string (ek_token1 p) = Some z1 /\
        ((z0 = fromBig /\ z1 = toBig) \/ (z0 = toBig /\ z1 = fromBig))
    | None => True
    end.
Proof.
  intros Hload He Hf Ht. destruct (loaded _ _ _ _ _ _ Hload) as (raw & base & _ & _ & Hekubo & _ & _). cbn in He.
  destruct (st_ekubo s) as [es|]; [|done]. injection He as <-. destruct (parsed_ekubo _ _ _ _ Hekubo) as (m & l & _ & Hl & _).
  destruct (pool_addresses _ _ _ Hl) as (_ & Hpools & _); [constructor|].
  unfold findEkuboPool. destruct fromToken as [|c from]; [by exists None|]. destruct toToken as [|d to]; [by exists None|].
  unfold big. rewrite Hf, Ht. cbn [mbind result_bind ek_pools flow_ekubo]. clear Hl Hekubo Hload.
  induction Hpools as [|pool pools (z0 & z1 & H0 & H1 & _) _ IH]; cbn [find_pool]; [by exists None|].
  unfold big. rewrite H0, H1. cbn [mbind result_bind]. destruct (_ || _)%bool eqn:Hb.
  - exists (Some pool). split; [done|]. split; [by left|]. exists z0, z1. split_and!; [done..|]. lia.
  - destruct IH as (p & Hp & Hin). exists p. split; [exact Hp|]. destruct p as [p|]; [|done]. destruct Hin as [Hin Hz]. split; [by right|done].
Qed.

(** ** Health: properties *)

(** The health bar has an entry for exactly what is configured; it shows a check that is pending or a result that arrived while the demo was open. *)
Definition health_ok (s : Settings) (events : list health_event) (h : health_hook) : Prop :=
  (forall key, is_Some (hh_state h key) <-> is_configured s key = true) /\
  Forall (fun e => is_configured s e.2 = true) (hh_inflight h) /\
  (forall key v, hh_state h key = Some v -> v = pending \/ exists check, HealthArrives check v ∈ events).

Lemma run_checks_ok s events h : health_ok s events h -> health_ok s events (runChecks s h).
Proof.
  intros (Hs & Hf & Hv). split_and!; [done| |done]. cbn [runChecks hh_inflight]. apply Forall_app. split; [done|].
  apply Forall_forall. intros e He. apply list_elem_of_lookup in He as [i Hi]. apply list_lookup_imap_Some in Hi as (key & Hk & ->).
  apply list_elem_of_lookup_2, list_elem_of_filter in Hk. apply Hk.
Qed.

Lemma health_ok_more s events events' h : health_ok s events h -> events ⊆ events' -> health_ok s events' h.
Proof. intros (Hs & Hf & Hv) Hsub. split_and!; [done..|]. intros key v [?|(c & Hc)]%Hv; [by left|right; exists c; by apply Hsub]. Qed.

Lemma health_step_ok s events h e : health_ok s events h -> e ∈ events -> health_ok s events (health_step s h e).
Proof.
  intros Hok He. destruct e as [|check value|]; cbn [health_step].
  - destruct (hh_mounted h); [by apply run_checks_ok|done].
  - destruct (map_get check (hh_inflight h)) as [key|] eqn:Hg; [|done]. destruct Hok as (Hs & Hf & Hv).
    assert (Hkey : is_configured s key = true) by (apply map_get_in in Hg; rewrite Forall_forall in Hf; apply (Hf _ Hg)).
    split_and!; cbn [hh_state hh_inflight].
    + destruct (hh_mounted h); [|done]. intros k. destruct (decide (k = key)) as [->|]; [split; eauto|apply Hs].
    + apply Forall_forall. intros e Hin. rewrite Forall_forall in Hf. apply Hf.
      clear -Hin. induction (hh_inflight h) as [|[k v] l IH]; [done|]. cbn [map_delete] in Hin. destruct (decide (check = k)); [by right|].
      apply elem_of_cons in Hin as [->|Hin]; [by left|right; by apply IH].
    + destruct (hh_mounted h); [|done]. intros k v Hk. destruct (decide (k = key)) as [->|]; [injection Hk as <-; right; by exists check|by apply (Hv k)].
  - exact Hok.
Qed.

Theorem health_shows_the_configured s events key :
  (is_Some (hh_state (health_run s events) key) <-> is_configured s key = true) /\
  forall v, hh_state (health_run s events) key = Some v -> v = pending \/ exists check, HealthArrives check v ∈ events.
Proof.
  assert (Hinit : health_ok s events (mount_health s)).
  { apply run_checks_ok. split_and!; [|constructor|]; cbn; unfold initialState.
    - intros k. destruct (is_configured s k); split; first [done|by eauto|by intros []].
    - intros k v Hk. destruct (is_configured s k); [|done]. injection Hk as <-. by left. }
  unfold health_run. assert (Hall : forall l h, l ⊆ events -> health_ok s events h -> health_ok s events (fold_left (health_step s) l h)).
  { induction l as [|e l IH]; [done|]. intros h Hl Hh. cbn [fold_left]. apply IH; [intros x Hx; apply Hl; by right|]. apply health_step_ok; [done|]. apply Hl. by left. }
  destruct (Hall events _ (reflexivity _) Hinit) as (Hs & _ & Hv). split; [apply Hs|apply Hv].
Qed.

(** ** Token metadata: properties *)

(** Addresses that are shown or in flight were fetched; no address is in two batches, and none that is shown is asked again. *)
Definition metadata_ok (h : metadata_hook) : Prop :=
  map_wf (mh_metadata h) /\ NoDup ((map_keys (mh_metadata h) ++ concat (mh_inflight h).*2)%list) /\
  (forall a, a ∈ (map_keys (mh_metadata h) ++ concat (mh_inflight h).*2)%list -> a ∈ mh_fetched h) /\
  NoDup (mh_inflight h).*1 /\ (forall b, b ∈ (mh_inflight h).*1 -> (b < mh_next h)%nat).

Lemma fold_add_in (l fetched : list string) a :
  a ∈ fold_left (fun l a => if bool_decide (a ∈ l) then l else (l ++ [a])%list) l fetched <-> a ∈ l \/ a ∈ fetched.
Proof.
  revert fetched. induction l as [|b l IH]; intros fetched; cbn [fold_left]; [split; [by right|by intros [[]%elem_of_nil|?]]|].
  rewrite IH, elem_of_cons. destruct (decide (b ∈ fetched)) as [Hb|Hb].
  - rewrite bool_decide_eq_true_2 by done. split; [tauto|]. intros [[->|?]|?]; tauto.
  - rewrite bool_decide_eq_false_2 by done. rewrite elem_of_app, list_elem_of_singleton. tauto.
Qed.

Lemma fold_set_keys (read : string -> TokenMetadata) l m : NoDup (map_keys m ++ l)%list ->
  map_keys (fold_left (fun m a => map_set a (read a) m) l m) = (map_keys m ++ l)%list.
Proof.
  revert m. induction l as [|a l IH]; intros m Hnd; cbn [fold_left]; [by rewrite app_nil_r|].
  assert (Ha : a ∉ map_keys m) by (apply NoDup_app in Hnd as (_ & Hd & _); intros Hk; apply (Hd a Hk); by left).
  assert (Hk : map_keys (map_set a (read a) m) = (map_keys m ++ [a])%list).
  { clear -Ha. unfold map_keys in *. induction m as [|[k v] m IHm]; [done|]. cbn in Ha |- *. apply not_elem_of_cons in Ha as [Hne Ha].
    rewrite decide_False by done. cbn. by rewrite IHm. }
  rewrite IH; rewrite Hk, <- app_assoc; done.
Qed.

Lemma delete_batch (b : nat) (l : list (nat * list string)) addresses : map_get b l = Some addresses -> concat l.*2 ≡ₚ (addresses ++ concat (map_delete b l).*2)%list.
Proof.
  induction l as [|[k v] l IH]; [done|]. cbn [map_get map_delete]. destruct (decide (b = k)) as [->|]; [by intros [= ->]|].
  intros Hg. cbn. rewrite (IH Hg). by rewrite !app_assoc, (Permutation_app_comm v).
Qed.

Lemma fetch_ok addresses h : NoDup addresses -> metadata_ok h -> metadata_ok (fetch_missing addresses h).
Proof.
  intros Hnd (Hwf & Hdis & Hin & Hnum & Hlt). unfold fetch_missing. destruct (filter _ addresses) as [|a l] eqn:Hf; [done|].
  set (batch := a :: l) in *. assert (Hb : NoDup batch) by (rewrite <- Hf; by apply NoDup_filter).
  assert (Hfresh : forall x, x ∈ batch -> x ∉ mh_fetched h) by (intros x Hx; rewrite <- Hf in Hx; by apply list_elem_of_filter in Hx as [? _]).
  unfold metadata_ok. cbn [mh_metadata mh_fetched mh_next mh_inflight]. rewrite !fmap_app, concat_app. cbn [fmap list_fmap concat]. rewrite !app_nil_r, app_assoc. split_and!.
  - done.
  - apply NoDup_app. split_and!; [done| |done]. intros x Hx Hx'. by apply (Hfresh x Hx'), Hin.
  - intros x Hx. change (l ++ [])%list with l in *. apply fold_add_in. apply elem_of_app in Hx as [Hx|Hx]; [right; by apply Hin|by left].
  - apply NoDup_app. split_and!; [done| |apply NoDup_singleton]. intros b Hb' ->%list_elem_of_singleton. apply Hlt in Hb'. cbn in Hb'. lia.
  - intros b [Hb'%Hlt| ->%list_elem_of_singleton]%elem_of_app; cbn; lia.
Qed.

Lemma delete_numbers (b : nat) (l : list (nat * list string)) : NoDup l.*1 -> NoDup (map_delete b l).*1 /\ forall x, x ∈ (map_delete b l).*1 -> x ∈ l.*1.
Proof.
  intros Hnd. pose proof (map_keys_delete b l) as Hs. unfold map_keys in Hs. split; [exact (sublist_NoDup _ _ Hnd Hs)|].
  intros x Hx. by eapply elem_of_sublist.
Qed.

Lemma metadata_step_ok h e : (forall addresses, e = Shows addresses -> NoDup addresses) -> metadata_ok h -> metadata_ok (metadata_step h e).
Proof.
  intros He Hok. destruct e as [addresses|batch read|batch]; cbn [metadata_step]; [apply fetch_ok; [by apply He|done]| |].
  - destruct (map_get batch (mh_inflight h)) as [absent|] eqn:Hg; [|done]. destruct Hok as (Hwf & Hdis & Hin & Hnum & Hlt).
    pose proof (delete_batch _ _ _ Hg) as Hp. destruct (delete_numbers batch _ Hnum) as [Hnum' Hsub].
    assert (Hall : (map_keys (mh_metadata h) ++ concat (mh_inflight h).*2)%list ≡ₚ ((map_keys (mh_metadata h) ++ absent) ++ concat (map_delete batch (mh_inflight h)).*2)%list)
      by (rewrite Hp; by rewrite app_assoc).
    rewrite Hall in Hdis. pose proof Hdis as Hkeys. apply NoDup_app in Hkeys as (Hkeys & _ & _).
    unfold metadata_ok. cbn [mh_metadata mh_fetched mh_next mh_inflight]. unfold map_wf. rewrite fold_set_keys by exact Hkeys. split_and!; [done|done| |done|].
    + intros x Hx. apply Hin. by rewrite Hall.
    + intros b Hb. by apply Hlt, Hsub.
  - destruct Hok as (Hwf & Hdis & Hin & Hnum & Hlt). destruct (delete_numbers batch _ Hnum) as [Hnum' Hsub].
    unfold metadata_ok. cbn [mh_metadata mh_fetched mh_next mh_inflight].
    destruct (map_get batch (mh_inflight h)) as [absent|] eqn:Hg.
    + pose proof (delete_batch _ _ _ Hg) as Hp. split_and!; [done| | |done|intros b Hb; by apply Hlt, Hsub].
      * rewrite Hp in Hdis. apply NoDup_app in Hdis as (H1 & H2 & H3). apply NoDup_app in H3 as (_ & _ & H3). apply NoDup_app. split_and!; [done| |done].
        intros x Hx Hx'. apply (H2 x Hx), elem_of_app. by right.
      * intros x Hx. apply Hin. rewrite Hp. apply elem_of_app in Hx as [Hx|Hx]; apply elem_of_app; [by left|right; apply elem_of_app; by right].
    + assert (Hd : map_delete batch (mh_inflight h) = mh_inflight h).
      { clear -Hg. induction (mh_inflight h) as [|[k v] l IH]; [done|]. cbn [map_get map_delete] in *. destruct (decide (batch = k)); [done|]. by rewrite IH. }
      by rewrite Hd.
Qed.

(** While every list of tokens that is shown has no address twice, each address is fetched once: it is in one batch in flight,
    or shown, and is not asked for again. *)
Theorem metadata_is_fetched_once events : (forall addresses, Shows addresses ∈ events -> NoDup addresses) ->
  let h := metadata_run events in
  NoDup ((map_keys (mh_metadata h) ++ concat (mh_inflight h).*2)%list) /\ forall a, a ∈ (map_keys (mh_metadata h) ++ concat (mh_inflight h).*2)%list -> a ∈ mh_fetched h.
Proof.
  intros Hev. assert (Hinit : metadata_ok no_metadata) by (split_and!; try constructor; cbn; by intros ? []%elem_of_nil).
  enough (Hall : forall l h, l ⊆ events -> metadata_ok h -> metadata_ok (fold_left metadata_step l h)).
  { destruct (Hall events _ (reflexivity _) Hinit) as (_ & Hd & Hin & _). by split. }
  induction l as [|e l IH]; [done|]. intros h Hl Hh. cbn [fold_left]. apply IH; [intros x Hx; apply Hl; by right|].
  apply metadata_step_ok; [|done]. intros addresses ->. apply Hev, Hl. by left.
Qed.

(** One failing token loses the batch: the addresses count as fetched, so no later event brings their metadata. *)
Definition lost (a : string) (h : metadata_hook) : Prop :=
  a ∈ mh_fetched h /\ a ∉ map_keys (mh_metadata h) /\ a ∉ (concat (mh_inflight h).*2).

Lemma lost_step a h e : lost a h -> lost a (metadata_step h e).
Proof.
  intros (Hf & Hm & Hi). destruct e as [addresses|batch read|batch]; cbn [metadata_step].
  - unfold fetch_missing. destruct (filter _ addresses) as [|b l] eqn:Hfl; [done|]. unfold lost. cbn [mh_metadata mh_fetched mh_next mh_inflight]. split_and!; [|done|].
    + apply fold_add_in. by right.
    + rewrite fmap_app, concat_app, elem_of_app. cbn [fmap list_fmap concat]. rewrite app_nil_r. intros [?|Hin]; [done|].
      cbn [snd] in Hin. rewrite <- Hfl in Hin. by apply list_elem_of_filter in Hin as [Hn _].
  - destruct (map_get batch (mh_inflight h)) as [absent|] eqn:Hg; [|done]. pose proof (delete_batch _ _ _ Hg) as Hp. rewrite Hp, elem_of_app in Hi.
    unfold lost. cbn [mh_metadata mh_fetched mh_next mh_inflight]. split_and!; [done| |tauto].
    assert (Ha : a ∉ absent) by tauto. clear -Hm Ha. revert Hm. generalize (mh_metadata h). induction absent as [|b l IH]; [done|]. intros m Hm.
    apply not_elem_of_cons in Ha as [Hne Ha]. cbn [fold_left]. apply IH; [done|]. rewrite map_keys_set. destruct (map_has b m); [done|].
    rewrite elem_of_app, list_elem_of_singleton. tauto.
  - unfold lost. cbn [mh_metadata mh_fetched mh_next mh_inflight]. split_and!; [done|done|]. destruct (map_get batch (mh_inflight h)) as [absent|] eqn:Hg.
    + rewrite (delete_batch _ _ _ Hg), elem_of_app in Hi. tauto.
    + intros Hin. apply Hi. clear -Hin. induction (mh_inflight h) as [|[k v] l IH]; [done|]. cbn [map_delete] in Hin. destruct (decide (batch = k)).
      * cbn. apply elem_of_app. by right.
      * cbn in *. apply elem_of_app in Hin as [?|?]; apply elem_of_app; [by left|right; by apply IH].
Qed.

Theorem failed_metadata_is_lost a events events' : lost a (metadata_run events) -> map_get a (mh_metadata (metadata_run (events ++ events')%list)) = None.
Proof.
  unfold metadata_run. rewrite fold_left_app. generalize (fold_left metadata_step events no_metadata). clear events.
  assert (Hnone : forall h, lost a h -> map_get a (mh_metadata h) = None) by (intros h (_ & Hm & _); by apply map_get_None).
  induction events' as [|e events' IH]; intros h Hl; [by apply Hnone|]. cbn [fold_left]. apply IH. by apply lost_step.
Qed.

Example batch_is_lost : lost "0x1" (metadata_run [Shows ["0x1"; "0x2"]; BatchFailed 0]).
Proof. split_and!; [left|by intros []%elem_of_nil|by intros []%elem_of_nil]. Qed.
Example failed_metadata_is_lost_witness : map_get "0x1" (mh_metadata (metadata_run ([Shows ["0x1"; "0x2"]; BatchFailed 0] ++ [Shows ["0x1"]])%list)) = None.
Proof. apply failed_metadata_is_lost, batch_is_lost. Qed.

(** ** Services: properties *)

(** Unless OHTTP is switched off, the discovery service is asked through it, with the pinned key when there is one, at the backend when it is
    set and then through the indexer as a relay. *)
Theorem discovery_is_private s pool : st_ohttpEnabled s <> Some false ->
  exists ohttp, dc_ohttp (createDiscoveryProvider s pool) = Some ohttp /\ dc_pool (createDiscoveryProvider s pool) = pool /\
    dc_url (createDiscoveryProvider s pool) = default (st_indexerUrl s) (given (st_backendIndexerUrl s)) /\
    (forall key, st_ohttpKeyConfig s = Some key -> exists relay, ohttp = OhttpWith relay (Some key)) /\
    (is_Some (given (st_backendIndexerUrl s)) -> exists key, ohttp = OhttpWith (Some (st_indexerUrl s)) key).
Proof.
  intros He. unfold createDiscoveryProvider. destruct (st_ohttpEnabled s) as [[]|]; [|done|]; destruct (given (st_backendIndexerUrl s)) as [backend|]; cbn.
  1,3: eexists; split_and!; [done..| |eauto]; intros key ->; eauto.
  all: eexists; split_and!; [done..| |by intros [? ?]]; intros key ->; eauto.
Qed.

(** The prover is asked with the default options alone: neither the pinned key nor the backend of the settings reaches it. *)
Theorem prover_takes_no_pinned_key s url chainId ohttp : createTransfers_prover s = ServiceProver url chainId (Some ohttp) -> ohttp = OhttpDefault.
Proof. unfold createTransfers_prover. destruct (given (st_provingServiceUrl s)); [|done]. destruct (st_ohttpEnabled s) as [[]|]; intros [=]; congruence. Qed.

(** ** Settings of a devnet *)

Definition strk_token : TokenConfig := {| tk_name := "STRK"; tk_address := "0x4718"; tk_decimals := 18; tk_fee := Some true; tk_mintEntrypoint := None |}.
Definition usdc_token : TokenConfig := {| tk_name := "USDC"; tk_address := "0x53c9"; tk_decimals := 6; tk_fee := None; tk_mintEntrypoint := None |}.
Definition devnet_pool : EkuboPool :=
  {| ek_token0 := "0x4718"; ek_token1 := "0x053C9"; ek_fee := "0"; ek_tickSpacing := "1"; ek_extension := "0x0"; ek_skipAhead := "0" |}.
Definition devnet_env (key : string) : option string :=
  map_get key [("VITE_TOKENS", "[tokens]"); ("VITE_EKUBO_EXECUTOR_ADDRESS", "0xe1"); ("VITE_EKUBO_POOLS", "[pools]"); ("VITE_EKUBO_CORE_ADDRESS", "0xe2");
    ("VITE_EKUBO_ROUTER_ADDRESS", "0xe3"); ("VITE_VESU_LENDING_HELPER_ADDRESS", "0xf1"); ("VITE_VESU", "{vaults}"); ("VITE_RPC_URL", "http://rpc");
    ("VITE_INDEXER_URL", "http://indexer"); ("VITE_POOL_ADDRESS", "0xb1"); ("VITE_POOL_CLASS_HASH", "0xc1"); ("VITE_COMPLIANCE_PUBLIC_KEY", "0xd1");
    ("VITE_CHAIN_ID", "0x1"); ("VITE_PROVING_SERVICE_URL", "http://prover"); ("VITE_BACKEND_PROVER_URL", "http://backend"); ("VITE_OHTTP_KEY_CONFIG", "AQI=")].
Definition devnet_settings : result settings_error Settings :=
  loadConfig devnet_env (fun _ => Some [strk_token; usdc_token]) (fun _ => Some [devnet_pool])
    (fun _ => Some [{| ve_token := "USDC"; ve_vTokenAddress := "0xa1" |}; {| ve_token := "STRK"; ve_vTokenAddress := "0x00A1" |}]) (fun _ => Some [1; 2]).

Example devnet_tokens : match devnet_settings with
  | Ok s => map tk_name (st_tokens s) = ["STRK"; "USDC"; "vUSDC"] /\ (es_swapTokens <$> st_ekubo s) = Some [strk_token; usdc_token] /\
      dc_ohttp (createDiscoveryProvider s "0xb1") = Some (OhttpWith None (Some [1; 2])) /\
      createTransfers_prover s = ServiceProver "http://prover" "0x1" (Some OhttpDefault) /\
      st_feeAmount (initFeeConfig s (Some (["0x10"], ["0xfee"]))) = Some 16
  | Err _ => False
  end.
Proof. vm_compute. repeat split. Qed.

Example settings_list_the_tokens_witness : exists s, devnet_settings = Ok s /\ exists base added, st_tokens s = (base ++ added)%list.
Proof.
  assert (Hok : is_Ok devnet_settings = true) by (vm_compute; reflexivity). destruct devnet_settings as [s|e] eqn:Hs; [|done]. exists s. split; [done|]. unfold devnet_settings in Hs.
  destruct (settings_list_the_tokens _ _ _ _ _ s Hs) as (base & added & ks & H & _). by exists base, added.
Qed.
Example loaded_pools_are_readable_witness : exists s e, devnet_settings = Ok s /\ ekubo (flow_config s) = Some e /\ exists pool, findEkuboPool e "0x53c9" "0x4718" = Ok pool.
Proof.
  assert (Hekubo : match devnet_settings with Ok s => is_Some (ekubo (flow_config s)) | Err _ => False end) by (vm_compute; eauto).
  destruct devnet_settings as [s|e] eqn:Hs; [|done]. destruct Hekubo as [e He].
  exists s, e. split; [done|]. split; [exact He|]. unfold devnet_settings in Hs. destruct (loaded_pools_are_readable _ _ _ _ _ s e "0x53c9" "0x4718" 21449 18200 Hs He eq_refl eq_refl) as (pool & H & _). by exists pool.
Qed.

(** A check of the first poll that answers late replaces what the second poll found. *)
Example late_check_replaces_newer : match devnet_settings with
  | Ok s =>
      let h := health_run s [HealthPoll; HealthArrives 4 (checkRpc 1000000 (Ok (8, 1000)) None); HealthArrives 1 (checkRpc 1000000 (Ok (7, 700)) None)] in
      hh_state h SRpc = Some {| sh_status := unhealthy; sh_detail := Some "stale: 300s behind" |} /\ hh_state h SGateway = None /\ hh_state h SProving = Some pending
  | Err _ => False
  end.
Proof. vm_compute. repeat split. Qed.

Example names_are_decoded : getErc20Metadata "0x5553442043" "0x55534443" "0x6" = {| tm_name := "USD C"; tm_symbol := "USDC"; tm_decimals := Some 6 |}.
Proof. vm_compute. reflexivity. Qed.
